(* ===== verification/_CoqProject ===== *)
-Q . S2P
Prelude.v
IdPool.v
WasmValue.v
Ffi.v
Calls.v
Messages.v
Vm.v
ExtrinsicsApi.v
ToyVm.v
Processes.v
ProcessesFrame.v
Extrinsics.v
ExtrinsicsInv.v
ExtrinsicsLocks.v
ExtrinsicsMemory.v
ExtrinsicsLife.v
Ipc.v
IpcInv.v
IpcWake.v
IpcCore.v
IpcHandlers.v
IpcReserved.v
Wasi.v
WasiInv.v
WasiSpec.v
LogCalls.v
Native.v
System.v
SystemInv.v
SystemBuild.v
Hardware.v
Standalone.v
StandaloneInv.v
Kernel.v
Hosted.v
Tcp.v
TcpInv.v
X86.v
X86Inv.v
Executor.v
X86Timers.v
Boot.v
Video.v
VideoSpec.v
Arm.v
ArmInv.v
Drivers.v
Pci.v
Ne2000.v
Ne2000Spec.v
Rpi.v
RpiInv.v
Syscalls.v
SyscallsInv.v
TcpClient.v
TcpClientInv.v
ScenariosX86.v
ScenariosArm.v
ScenariosDrivers.v
ScenariosSyscalls.v
ScenariosCalls.v
Scenarios.v
ScenariosIpc.v
ScenariosRun.v
ScenariosWasi.v
ScenariosSystem.v
ScenariosStandalone.v
ScenariosKernel.v
ScenariosHosted.v
ScenariosTcpClient.v
