(* ===== verification/Prelude.v ===== *)
(** Verification of the redshirt kernel.

    redshirt is an operating system kernel whose programs are WASM modules.
    The part that decides what every program may do, and that the hosted and
    the standalone kernels share, is the crate [redshirt-core]
    ([src/core/src]).  This development models it from the interpreter up to
    the loop that joins processes and native programs, with the messages that
    cross the boundaries ([src/interfaces]), the functions of WASI, the
    native programs and the main loop of the standalone kernel and most of
    those of the hosted one ([src/kernel]); then what is below, the interrupts,
    timers, executors, memory and screen of the standalone kernel, and what is
    above, the system calls and the drivers that programs are written with
    ([src/interfaces], [src/modules]).  It proves that each layer keeps its
    invariant and does what its documentation says.

    * The program and its model

    Each layer owns the state of the one below it and is written on top of
    the interface of that one; the files follow the layers.

    - [IdPool.v]: [id_pool.rs], the pools that give the identifiers of
      processes, threads and messages.  A pool is a master generator and a
      queue of generators.
    - [WasmValue.v]: [wasm_value.rs] and [signature.rs].
    - [Ffi.v]: [interfaces/syscalls/src/ffi.rs], the notifications that the
      kernel writes in the memory of a program: builders, the field that is
      patched at delivery, decoders.
    - [Calls.v]: [scheduler/extrinsics/calls.rs], the parsers of the
      parameters of the five functions that the kernel implements itself.
    - [Vm.v]: [scheduler/vm.rs], one WASM instance and its threads.
      [ToyVm.v] has an interpreter to run examples with.
    - [ExtrinsicsApi.v]: [extrinsics.rs], the trait that a set of functions
      callable by programs implements.
    - [Processes.v]: [scheduler/processes.rs], the processes, their threads'
      identifiers, the registered functions, and which thread runs next.
      [ProcessesFrame.v] has the rules for changing one thread.
    - [Extrinsics.v]: [scheduler/extrinsics.rs], what each call of a program
      means: the state machine of an interrupted thread, the locks that the
      layer above holds on such threads, the handles on processes and their
      count, the queue of threads with an action to apply.
      [ExtrinsicsInv.v] states its invariant and proves that running keeps
      it; [ExtrinsicsLocks.v] has the operations of locks and handles;
      [ExtrinsicsLife.v] the builder and the creation of processes;
      [ExtrinsicsMemory.v] what the delivery of a notification writes in the
      memory of the program, and that nothing else is written.
    - [Ipc.v]: [scheduler/ipc.rs], the interfaces and their handlers, the
      messages that wait for an answer, and the queues of notifications.
      [IpcInv.v] has the choice of identifiers and the delivery of one
      notification, [IpcWake.v] the wake-up of all the threads of a process,
      [IpcCore.v] the invariant of [Core] and its events, [IpcHandlers.v] the
      registration of handlers, and what comes from outside the processes.
      [IpcReserved.v] shows that the identifiers of native programs stay
      theirs while processes run.
    - [Messages.v]: the messages of the interfaces that the kernel uses itself
      ([interfaces/log], [random], [time], [system-time], [interface],
      [loader]), with the encoding of log messages.
    - [Wasi.v]: [extrinsics/wasi.rs], the functions of WASI, as an instance of
      the trait of [ExtrinsicsApi.v].  [WasiInv.v] has its invariant and laws,
      [WasiSpec.v] what the functions on files, logs and random numbers do.
      [LogCalls.v]: [extrinsics/log_calls.rs], the wrapper that logs calls.
    - [Native.v]: [native/traits.rs] and [native/collection.rs], the programs
      that are part of the kernel: the trait, as a class with what the kernel
      expects of it, and the routing of messages to them.
    - [System.v]: [module.rs] and [system.rs], the loop that joins [Core] and
      the native programs, the registration of interfaces and the loading of
      modules.  [SystemInv.v] has its invariant and the properties of its
      loop, [SystemBuild.v] the builder.
    - [Hardware.v]: [kernel/standalone/src/hardware.rs], the accesses to the
      hardware, over the trait [PlatformSpecific] of [arch.rs].
      [Standalone.v]: the handlers of time, random numbers and logs
      ([time.rs], [random/], [klog/native.rs]).  [StandaloneInv.v] proves what
      they answer, and that together they satisfy what [Native.v] expects.
      [Kernel.v]: [kernel.rs], the kernel that runs them.
    - [Hosted.v]: [kernel/hosted-time], [hosted-log] and [hosted-random].
      [Tcp.v]: [kernel/hosted-tcp], with its background tasks, whose
      properties are in [TcpInv.v].
    - [X86.v]: the machine layer of [arch/x86_64]: [interrupts.rs], the local
      and I/O APICs, the PIC and the PIT, on the list of the accesses to the
      machine; [X86Inv.v] has what these accesses mean to the devices.
      [Executor.v]: [executor.rs], the processor that polls a task and the
      wakes from interrupts and from other processors, as a step relation.
      [X86Timers.v]: [apic/timers.rs], with and without the TSC-deadline mode
      of the processor, and the clock and the timers of [arch/x86_64.rs].
      [Boot.v]: the memory map, the allocators and the start of the other
      processors with its waits on timers, by the loop of [executor.rs]
      ([arch/x86_64.rs], [mem_alloc.rs], [ap_boot.rs]).  [Video.v]: [klog/video.rs] and [klog/logger.rs];
      [VideoSpec.v] has the page of characters that they implement.
    - [Arm.v]: [arch/arm]: the timers on the physical counter and the executor
      with the event register; [ArmInv.v] has their properties.
    - [Syscalls.v]: [interfaces/syscalls/src/block_on.rs], [response.rs],
      [interface_message.rs] and [emit.rs], the side of the programs, with the
      kernel as its documentation describes it; [SyscallsInv.v] joins them to
      [Ffi.v] and [Calls.v].  [TcpClient.v] and [TcpClientInv.v]:
      [interfaces/tcp/src/lib.rs], the streams of a program.
    - [Drivers.v]: [interfaces/hardware/src], the operations that a driver
      sends as messages to the handler of [Hardware.v], and the answers that
      it waits for by polling the events of that handler.  On top of it,
      [Pci.v]: [modules/x86-pci], the enumeration of the PCI bus; [Ne2000.v]
      and [Ne2000Spec.v]: [modules/ne2000/src/device.rs], the driver of a
      network card and the card of the data sheet; [Rpi.v] and [RpiInv.v]:
      [modules/rpi-framebuffer], the mailbox of the Raspberry Pi.
    - [ScenariosCalls.v], [Scenarios.v], [ScenariosIpc.v], [ScenariosRun.v],
      [ScenariosWasi.v], [ScenariosSystem.v], [ScenariosStandalone.v],
      [ScenariosKernel.v], [ScenariosHosted.v], [ScenariosX86.v],
      [ScenariosArm.v], [ScenariosDrivers.v], [ScenariosSyscalls.v] and
      [ScenariosTcpClient.v] run the model on concrete systems, up to a whole
      kernel that starts and prints a line, and apply the theorems to them.

    A method that changes its receiver is a computation of the state monad
    [M] of this file; one that returns [Result] is a [fallible] computation.
    Every computation ends in an [outcome]: a value, a panic with its reason,
    or the end of the fuel of a loop that the code does not bound.

    * What is taken from the language

    Panics are those of the development profile: arithmetic overflow and
    [debug_assert!] panic.  A [usize] has 64 bits, and 32 in [Arm.v].
    A [HashMap] is a [gmap]
    that is iterated in an arbitrary order ([HashIter]).  Handles, which
    borrow the collection in the code, are the identifiers they designate; a
    handle that must be dropped is dropped by an explicit call, where the
    code's scopes end.  The one [RefCell] that the code may borrow twice
    ([inner] of [ProcessesCollectionExtrinsics]) has its flag; the borrows of
    the others ([user_data], [pending_events], [interfaces], ...) end within
    the statement or the block that makes them, with no call in between that
    borrows the same cell, so they are their contents.  The [Arc] around the
    data of a process is its strong count, which the code unwraps.

    * What is a parameter

    The interpreter ([wasmi]) is the class [Wasmi] of [Vm.v].  Its laws
    [WasmiExecLaws]: it runs a thread until it returns, traps or calls an
    import, and only calls imports that were resolved, with the types of their
    signature; a thread that is stopped inside a function of the module can be
    resumed, and one that was started on an import itself cannot.  What is
    asked of the programs is apart, in [ProgramLaws]: what they export and put
    in their tables are functions of their own ([host_entry_stops] shows what
    happens otherwise).  The random generators ([rand], [rand_chacha], [rand_hc]) are
    the class [Rng] of [IdPool.v].  The functions other than the five
    hardcoded ones are the class [Extrinsics] of [ExtrinsicsApi.v], and the
    native programs the class [NativeProgramRef] of [Native.v]: both are
    traits of the code, with implementations in the development.  The codec
    [parity_scale_codec] is [Scale], [ScaleHandlers] and [ScaleTcp], the constants of the
    crate [wasi] are [WasiCrate], the parser of modules and the hashes are
    [ModuleCrates], the crates of the generator of the kernel [RngCrates].
    The machine is [Platform], which also says which allocations succeed, and
    [Timers], the host [Host], [HostRandom] and
    [AnsiTerm]; what sockets do is an argument of the steps of [Tcp.v].
    A processor and its devices are the class [Machine] of [X86.v], which
    gives what a read sees from the accesses made before it, with the laws
    [MachineLaws]; the machine code of the other processors, when it signals and
    which interrupts come meanwhile are [ApBoot], as functions of the accesses
    made before; the font of the build [Font]; the values of the counters of time are arguments.
    On the side of the programs, [Slab] is [SlabKeys], the identifiers that the
    kernel draws or its refusal to take a message are [Emission], the codecs
    are [ScaleTcpAnswers] and [ScaleDrivers]; the
    configuration space of the PCI bus is [ConfigSpace], and the card that
    answers the driver of [Ne2000.v] is [DataPort] over the [Chip] of the data
    sheet.  Each of them has an instance in the development.

    * What the theorems show

    - Encodings: notifications survive the round trip, decoding never panics
      and is canonical; the parsers recover what a program passes, and return
      on everything but two listed inputs.
    - State machine and collection: running changes the thread that ran and
      nothing else, on every branch, and never reaches one of the
      [unreachable!()] of the code; identifiers designate one thread.
    - Interrupted threads: the invariant [px_ok] relates the state of every
      thread, the run queue, the locks and the reference counts, and every
      operation keeps it; accepting a message and delivering a notification
      do to the thread what the documentation says.
    - Messages: [core_ok] says in particular that no thread that asked for
      notifications is blocked while its process has one for it; [all_quiet]
      says it of the threads that wait inside an extrinsic too, which holds as
      long as no identifier is drawn again while its answer was not read.  Every event and every method of
      [Core] keeps it.  Each message is delivered to the handler of its
      interface exactly once or kept in order until there is one, and is
      answered at most once.
    - WASI: every function ends, on any arguments, with an action that the
      scheduler can apply, and keeps the cursors of files within the files;
      reading, writing, opening, closing and seeking do what WASI says, but
      for a backward seek.  Logging the calls changes nothing else.
    - Native programs and system: a message reaches exactly the program that
      registered its interface, and a response the one that expects it; the
      system keeps its invariant whatever the programs do, and goes to sleep
      only when there is nothing to do.
    - Kernels: hardware accesses are made in order, and read what was written,
      if the allocator has room for what is read;
      allocations are aligned and inside their buffers; no program is woken up
      before its time; no answer is invented or given twice, also by the tasks
      of the TCP handler in any interleaving, which send what programs write
      whole and in order; what programs log cannot drive the terminal of the
      host.  The programs of the standalone
      kernel satisfy the laws that the system asks of them, so that the
      theorems on the system hold of the kernel as it is put together.
    - Platforms: an interrupt wakes the last waker registered on its vector,
      once; a wake is never lost by an executor, on x86 or ARM, in any
      interleaving; the list of timers stays ordered and the hardware is set
      to the earliest, in both modes of the x86 timer; a poll that is not ready
      leaves a timer with its waker; another processor is sent its commands
      with the waits between them, each wait ending with the timer or the
      signal; the PIT counts the ticks asked for; the heap and the
      boot code lie in free memory; the screen shows the page of characters.
    - Programs: the loop of [block_on] returns the response that a future
      waits for, delivers each notification once, and builds messages that
      the kernel parses as they are; a TCP stream gives what was received and
      sends what was written, in order, and its polls panic only after an
      answer that is an error or without a handler.
    - Drivers: operations are made in order and answers filled in place, or
      the driver waits for an answer that the handler never has; the
      PCI bus is enumerated exactly; the sending side of the network card is a
      ring; the messages of the Raspberry Pi survive the round trip.
    - Where the code does not do what it says: the handle returned by
      [start_thread], the end of a thread other than the main one, the end of
      a process whose message was refused, the answer to a message that was
      sent before the interface had a handler or whose emitter has ended, a
      backward seek, a request for no random bytes, the release of memory of
      the hardware interface, the closing of a socket that is being opened, and
      several requests on which the kernel stops; a timer later than all the
      others ([timer_poll_late]), the drop of the first timer
      ([timer_drop_panics]), timers that are over too soon
      ([timer_fires_early], [arm_timer_early]), which is why no other processor
      is reported as started ([timers_init_late] with
      [boot_associated_processor_ok]), one that is too far for the one-shot
      timer ([timer_poll_unarmed]) or for 128 bits ([timer_overflows]), a read
      that cannot be allocated ([large_read_panics]), a program that starts at
      an import ([host_entry_stops]), a memory area at the limit
      ([area_at_limit_panics]), the last line of a screen in graphics mode
      ([graphics_writes_outside]) or of a screen shorter than a line
      ([short_screen_panics]); the drop of a future that waits
      ([dropped_future_panics]), a future whose message another takes
      ([interface_future_stalls]), a refused message ([error_response_panics]);
      operations that only write, which a driver waits for forever; the last
      page of the ring and the end of transmissions of the network card; the
      end of a TCP stream ([empty_read_asks_again]), its errors
      ([error_read_panics]) and the errors of a listener; the space of the tags
      of the Raspberry Pi ([value_takes_four_times], [parser_counts_words]).

    A theorem [wp P m Q] says that [m] returns a value that satisfies [Q], or
    panics with a reason in [P], and that its fuel is enough; [wlp F P m Q]
    allows the fuel to run out if [F].  Two kinds of loop of the code are not bounded:
    drawing identifiers until one is unused ([choose_message_id]: the fuel
    runs out only if that many drawn identifiers are all unusable,
    [starved]), and running programs until one of them stops or all sleep
    ([px_run], [core_run], [run_poll], [kernel_loop]: only if they never do,
    [spins], [core_spins], [poll_spins], [loop_spins]).  The loop that aligns
    a pointer has the fuel 256, the number of alignments, and the one that
    looks for an unused socket one more than the number of sockets, which are
    shown to be enough.  The loops of [Syscalls.v] have fuels that are shown
    to be enough when a response is on its way, the loop of [poll_read] is
    entered at most twice, the parser of [Rpi.v] has one more turn than there
    are words.  The loops that wait for a device ([wait_reset],
    [wait_status]) end when the device answers, and [NoFuel] is a device that
    never does; the waits of [Boot.v] end within the fuel if the counter
    reaches its value in as many polls ([reached]).  [wait_answer] of
    [Drivers.v] polls the handler as often as it is told, and [NoFuel] is a
    driver that still waits.  Every other loop is structural.

    * What is not modelled

    The command line of the hosted kernel ([kernel/cli]), which joins crates;
    the assembly of the entry points, of interrupts and of panics, and the
    ACPI tables, which a crate parses; the aarch64 timers, a draft; the image
    builder ([kernel/standalone-builder]), which runs external tools; the
    functions of [interfaces/] that only encode a message and wait for its
    response, and macros and crate roots; the programs of [modules/] that are
    calls to crates (libp2p, hyper, etherparse) or print a line, and the main
    loops of the drivers; Debug and Display.

    * This file

    Outcomes, fallible computations and the state monad, with the inversion
    tactic [inv_done]; weakest preconditions; machine integers, with checked
    arithmetic in [rust_scope]; bytes and their little-endian encodings, with
    the hint database [fields]; bit fields; slices and vectors; iteration of hash maps. *)
From stdpp Require Export base gmap strings list fin_maps.
From Stdlib Require Export ZArith Lia.
From Stdlib Require Init.Byte.
From coqutil Require LittleEndianList.
From coqutil Require Byte.

#[export] Set Default Goal Selector "!".

(** * Outcomes *)

(** Why a Rust computation stopped without returning. *)
Inductive panic_reason :=
  | PUnreachable       (** [unreachable!()] *)
  | PUnimplemented     (** [unimplemented!()] *)
  | PUnwrap            (** [unwrap] or [expect] on [None] or [Err] *)
  | PAssert            (** [assert!], [assert_eq!] *)
  | PDebugAssert       (** [debug_assert!], [debug_assert_eq!] *)
  | POverflow          (** arithmetic overflow *)
  | PIndex             (** slice or vector index out of range *)
  | PAlreadyBorrowed   (** [RefCell::borrow_mut] on a borrowed cell *)
  | PDivZero           (** division or remainder by zero *)
  | PExplicit.         (** [panic!()] *)

#[global] Instance panic_reason_eq_dec : EqDecision panic_reason.
Proof. solve_decision. Defined.

(** The outcome of a computation of the kernel: it returns, it panics, or
    the fuel of an unbounded loop of the model runs out. *)
Inductive outcome (A : Type) :=
  | Done (a : A)
  | Panic (r : panic_reason)
  | NoFuel.
Arguments Done {A} a.
Arguments Panic {A} r.
Arguments NoFuel {A}.

#[global] Instance outcome_ret : MRet outcome := λ A a, Done a.
#[global] Instance outcome_bind : MBind outcome := λ A B f m,
  match m with Done a => f a | Panic r => Panic r | NoFuel => NoFuel end.
#[global] Instance outcome_fmap : FMap outcome := λ A B f m,
  match m with Done a => Done (f a) | Panic r => Panic r | NoFuel => NoFuel end.

(** [unwrap] on an option. *)
Definition unwrap {A} (o : option A) : outcome A :=
  match o with Some a => Done a | None => Panic PUnwrap end.

(** [match o { Some(x) => x, None => unreachable!() }]. *)
Definition or_unreachable {A} (o : option A) : outcome A :=
  match o with Some a => Done a | None => Panic PUnreachable end.

Definition assert_ (b : bool) : outcome unit :=
  if b then Done tt else Panic PAssert.

Definition debug_assert (b : bool) : outcome unit :=
  if b then Done tt else Panic PDebugAssert.

(** A computation that returns. *)
Definition returns {A} (m : outcome A) : Prop := ∃ a, m = Done a.

(** * Fallible computations: a Rust function returning [Result] *)

Definition fallible (E A : Type) : Type := outcome (E + A).

#[global] Instance fallible_ret E : MRet (fallible E) := λ A a, Done (inr a).
#[global] Instance fallible_bind E : MBind (fallible E) := λ A B f m,
  match m with
  | Done (inr a) => f a
  | Done (inl e) => Done (inl e)
  | Panic r => Panic r
  | NoFuel => NoFuel
  end.

(** The [?] operator on values built by [ok_or] and [map_err]. *)
Definition ok_or {E A} (e : E) (o : option A) : fallible E A :=
  match o with Some a => Done (inr a) | None => Done (inl e) end.

Definition fail {E A} (e : E) : fallible E A := Done (inl e).

(** A call that returns no [Result] inside a function that does. *)
Definition lift {E A} (m : outcome A) : fallible E A :=
  match m with Done a => Done (inr a) | Panic r => Panic r | NoFuel => NoFuel end.

(** [r.map_err(|_| e)?] on a [Result] that the callee computes. *)
Definition map_err {E A} (e : E) (m : outcome (option A)) : fallible E A :=
  match m with
  | Done (Some a) => Done (inr a)
  | Done None => Done (inl e)
  | Panic r => Panic r
  | NoFuel => NoFuel
  end.

(** * Computations that change a state *)

Definition M (S A : Type) : Type := S → outcome (A * S).

#[global] Instance M_ret S : MRet (M S) := λ A a s, Done (a, s).
#[global] Instance M_bind S : MBind (M S) := λ A B f m s,
  match m s with
  | Done (a, s') => f a s'
  | Panic r => Panic r
  | NoFuel => NoFuel
  end.

Definition get {S} : M S S := λ s, Done (s, s).
Definition put {S} (s : S) : M S unit := λ _, Done (tt, s).
Definition modify {S} (f : S → S) : M S unit := λ s, Done (tt, f s).
Definition gets {S A} (f : S → A) : M S A := λ s, Done (f s, s).
Definition panic {S A} (r : panic_reason) : M S A := λ _, Panic r.

(** A computation that reads no state, run inside one that does. *)
Definition liftM {S A} (m : outcome A) : M S A := λ s,
  match m with Done a => Done (a, s) | Panic r => Panic r | NoFuel => NoFuel end.

(** Runs a computation on a part of the state. *)
Definition zoom {S S1 A} (proj : S → S1) (upd : S1 → S → S) (m : M S1 A) : M S A := λ s,
  match m (proj s) with
  | Done (a, s1) => Done (a, upd s1 s)
  | Panic r => Panic r
  | NoFuel => NoFuel
  end.

(** A [for] loop over a list whose body changes the state. *)
Fixpoint for_each {S A} (f : A → M S unit) (l : list A) : M S unit :=
  match l with
  | [] => mret tt
  | x :: l => _ ← f x; for_each f l
  end.

(** * Inversion of computations that return *)

Lemma outcome_bind_Done {A B} (m : outcome A) (f : A → outcome B) b :
  m ≫= f = Done b ↔ ∃ a, m = Done a ∧ f a = Done b.
Proof. destruct m; naive_solver. Qed.

Lemma outcome_fmap_Done {A B} (m : outcome A) (f : A → B) b :
  f <$> m = Done b ↔ ∃ a, m = Done a ∧ b = f a.
Proof. destruct m; naive_solver. Qed.

Lemma fallible_bind_ok {E A B} (m : fallible E A) (f : A → fallible E B) b :
  (m ≫= f : fallible E B) = Done (inr b) ↔ ∃ a, m = Done (inr a) ∧ f a = Done (inr b).
Proof. destruct m as [[]| |]; naive_solver. Qed.

Lemma lift_ok {E A} (m : outcome A) a :
  (lift m : fallible E A) = Done (inr a) ↔ m = Done a.
Proof. destruct m; naive_solver. Qed.

Lemma ok_or_ok {E A} (e : E) (o : option A) a :
  ok_or e o = Done (inr a) ↔ o = Some a.
Proof. destruct o; naive_solver. Qed.

Lemma map_err_ok {E A} (e : E) (m : outcome (option A)) a :
  map_err e m = Done (inr a) ↔ m = Done (Some a).
Proof. destruct m as [[]| |]; naive_solver. Qed.

Lemma M_bind_Done {S A B} (m : M S A) (f : A → M S B) s b s' :
  (m ≫= f) s = Done (b, s') ↔ ∃ a s1, m s = Done (a, s1) ∧ f a s1 = Done (b, s').
Proof.
  unfold mbind, M_bind. destruct (m s) as [[a s1]|r|]; naive_solver.
Qed.

(** Running a sequence whose first step is known. *)
Lemma bind_run {S A B} (m : M S A) (f : A → M S B) s x s' : m s = Done (x, s') → (m ≫= f) s = f x s'.
Proof. intros Hm. unfold mbind, M_bind. by rewrite Hm. Qed.
Lemma bind_panics {S A B} (m : M S A) (f : A → M S B) s k : m s = Panic k → (m ≫= f) s = Panic k.
Proof. intros Hm. unfold mbind, M_bind. by rewrite Hm. Qed.

Lemma M_ret_Done {S A} (a b : A) (s s' : S) :
  (mret a : M S A) s = Done (b, s') ↔ a = b ∧ s = s'.
Proof. unfold mret, M_ret. naive_solver. Qed.

Lemma liftM_Done {S A} (m : outcome A) (s : S) b s' :
  liftM m s = Done (b, s') ↔ m = Done b ∧ s = s'.
Proof. unfold liftM. destruct m; naive_solver. Qed.

Lemma zoom_Done {S S1 A} (proj : S → S1) (upd : S1 → S → S) (m : M S1 A) s b s' :
  zoom proj upd m s = Done (b, s') ↔ ∃ s1, m (proj s) = Done (b, s1) ∧ s' = upd s1 s.
Proof. unfold zoom. destruct (m (proj s)) as [[? ?]| |]; naive_solver. Qed.

Lemma unwrap_Done {A} (o : option A) a : unwrap o = Done a ↔ o = Some a.
Proof. destruct o; naive_solver. Qed.

Lemma or_unreachable_Done {A} (o : option A) a : or_unreachable o = Done a ↔ o = Some a.
Proof. destruct o; naive_solver. Qed.

Lemma assert_Done b u : assert_ b = Done u ↔ b = true.
Proof. destruct b, u; naive_solver. Qed.

Lemma debug_assert_Done b u : debug_assert b = Done u ↔ b = true.
Proof. destruct b, u; naive_solver. Qed.

(** Splits every hypothesis that says that a computation returned into the
    steps it went through. *)
Ltac inv_step H :=
  cbn [negb andb orb fst snd] in H;
  lazymatch type of H with
  | (_ ≫= _) _ = Done (_, _) =>
      apply M_bind_Done in H as (? & ? & ? & H)
  | mbind _ _ _ = Done (_, _) =>
      apply M_bind_Done in H as (? & ? & ? & H)
  | (_ ≫= _) = Done (inr _) =>
      first [ apply fallible_bind_ok in H as (? & ? & H)
            | apply outcome_bind_Done in H as (? & ? & H) ]
  | (_ ≫= _) = Done _ => apply outcome_bind_Done in H as (? & ? & H)
  | lift _ = Done (inr _) => apply (proj1 (lift_ok _ _)) in H
  | ok_or _ _ = Done (inr _) => apply (proj1 (ok_or_ok _ _ _)) in H
  | map_err _ _ = Done (inr _) => apply (proj1 (map_err_ok _ _ _)) in H
  | fail _ = Done (inr _) => discriminate H
  | mret _ = Done (inr _) => unfold mret, fallible_ret in H; simplify_eq H; intros
  | (_ <$> _) = Done _ => apply outcome_fmap_Done in H as (? & H & ?)
  | mret _ _ = Done (_, _) => apply M_ret_Done in H as [? ?]
  | liftM _ _ = Done (_, _) => apply liftM_Done in H as [H ?]
  | zoom _ _ _ _ = Done (_, _) => apply zoom_Done in H as (? & H & ?)
  | unwrap _ = Done _ => apply unwrap_Done in H
  | or_unreachable _ = Done _ => apply or_unreachable_Done in H
  | assert_ _ = Done _ => apply assert_Done in H
  | debug_assert _ = Done _ => apply debug_assert_Done in H
  | get _ = Done _ => injection H as <- <-
  | gets _ _ = Done _ => injection H as <- <-
  | put _ _ = Done _ => injection H as <- <-
  | modify _ _ = Done _ => injection H as <- <-
  | Done _ = Done _ => injection H as ?; subst
  | panic _ _ = Done _ => discriminate H
  | Panic _ = Done _ => discriminate H
  | NoFuel = Done _ => discriminate H
  end.

Ltac inv_done :=
  repeat (match goal with
          | H : _ = Done _ |- _ => inv_step H
          | u : unit |- _ => destruct u
          end; simplify_eq/=).

(** * Weakest preconditions *)

(** [wp P m Q]: [m] returns a value that satisfies [Q], or stops for one of
    the reasons [P]; in particular the fuel is enough. *)
Definition wp (P : panic_reason → Prop) {A} (m : outcome A) (Q : A → Prop) : Prop :=
  match m with
  | Done a => Q a
  | Panic r => P r
  | NoFuel => False
  end.

(** No panic at all. *)
Definition no_panic : panic_reason → Prop := λ _, False.

Section wp.
Context {P : panic_reason → Prop}.

Lemma wp_mono {A} (m : outcome A) (Q Q' : A → Prop) :
  wp P m Q → (∀ a, Q a → Q' a) → wp P m Q'.
Proof. destruct m; simpl; auto. Qed.

Lemma wp_Done {A} (m : outcome A) (Q : A → Prop) a : m = Done a → Q a → wp P m Q.
Proof. by intros ->. Qed.

Lemma wp_bind {A B} (m : outcome A) (f : A → outcome B) (Q : B → Prop) :
  wp P m (λ a, wp P (f a) Q) → wp P (m ≫= f) Q.
Proof. by destruct m. Qed.

Lemma wp_fbind {E A B} (m : fallible E A) (f : A → fallible E B) (Q : E + B → Prop) :
  wp P m (λ r, match r with inl e => Q (inl e) | inr a => wp P (f a) Q end) →
  wp P (m ≫= f : fallible E B) Q.
Proof. by destruct m as [[]| |]. Qed.

Lemma wp_lift {E A} (m : outcome A) (Q : E + A → Prop) :
  wp P m (λ a, Q (inr a)) → wp P (lift m) Q.
Proof. by destruct m. Qed.

Lemma wp_Mbind {S A B} (m : M S A) (f : A → M S B) s (Q : B * S → Prop) :
  wp P (m s) (λ '(a, s'), wp P (f a s') Q) → wp P ((m ≫= f) s) Q.
Proof. unfold mbind, M_bind. by destruct (m s) as [[a s']| |]. Qed.

Lemma wp_zoom {S S1 A} (proj : S → S1) (upd : S1 → S → S) (m : M S1 A) s (Q : A * S → Prop) :
  wp P (m (proj s)) (λ '(a, s1), Q (a, upd s1 s)) → wp P (zoom proj upd m s) Q.
Proof. unfold zoom. by destruct (m (proj s)) as [[a s']| |]. Qed.

Lemma wp_liftM {S A} (m : outcome A) (s : S) (Q : A * S → Prop) :
  wp P m (λ a, Q (a, s)) → wp P (liftM m s) Q.
Proof. by destruct m. Qed.

End wp.

Lemma wp_weaken {A} (P P' : panic_reason → Prop) (m : outcome A) Q :
  wp P m Q → (∀ r, P r → P' r) → wp P' m Q.
Proof. destruct m; simpl; auto. Qed.

Lemma wp_returns {A} (m : outcome A) Q : wp no_panic m Q → returns m.
Proof. destruct m; simpl; [by eexists|done..]. Qed.

Lemma wp_Done_inv {A} (P : panic_reason → Prop) (m : outcome A) Q a :
  wp P m Q → m = Done a → Q a.
Proof. by intros Hm ->. Qed.

(** [wlp F P m Q]: like [wp P m Q], but the fuel may run out if [F]. *)
Definition wlp (F : Prop) (P : panic_reason → Prop) {A} (m : outcome A) (Q : A → Prop) : Prop :=
  match m with
  | Done a => Q a
  | Panic r => P r
  | NoFuel => F
  end.

Section wlp.
Context {F : Prop} {P : panic_reason → Prop}.

Lemma wlp_wp {A} (P' : panic_reason → Prop) (m : outcome A) (Q Q' : A → Prop) :
  wp P' m Q → (∀ r, P' r → P r) → (∀ a, Q a → Q' a) → wlp F P m Q'.
Proof. destruct m; simpl; auto; done. Qed.

Lemma wlp_mono {A} (m : outcome A) (Q Q' : A → Prop) :
  wlp F P m Q → (∀ a, Q a → Q' a) → wlp F P m Q'.
Proof. destruct m; simpl; auto. Qed.

Lemma wlp_Mbind {S A B} (m : M S A) (f : A → M S B) s (Q : B * S → Prop) :
  wlp F P (m s) (λ '(a, s'), wlp F P (f a s') Q) → wlp F P ((m ≫= f) s) Q.
Proof. unfold mbind, M_bind. by destruct (m s) as [[a s']| |]. Qed.

Lemma wlp_zoom {S S1 A} (proj : S → S1) (upd : S1 → S → S) (m : M S1 A) s (Q : A * S → Prop) :
  wlp F P (m (proj s)) (λ '(a, s1), Q (a, upd s1 s)) → wlp F P (zoom proj upd m s) Q.
Proof. unfold zoom. by destruct (m (proj s)) as [[a s']| |]. Qed.

Lemma wlp_liftM {S A} (m : outcome A) (s : S) (Q : A * S → Prop) :
  wlp F P m (λ a, Q (a, s)) → wlp F P (liftM m s) Q.
Proof. by destruct m. Qed.

End wlp.

Lemma wlp_weaken {A} (F F' : Prop) (P P' : panic_reason → Prop) (m : outcome A) Q :
  wlp F P m Q → (F → F') → (∀ r, P r → P' r) → wlp F' P' m Q.
Proof. destruct m; simpl; auto. Qed.

(** * Machine integers *)

#[global] Open Scope Z_scope.

Definition u8_max : Z := 2 ^ 8 - 1.
Definition u16_max : Z := 2 ^ 16 - 1.
Definition u32_max : Z := 2 ^ 32 - 1.
Definition u64_max : Z := 2 ^ 64 - 1.
(** [usize] on the 64-bit targets. *)
Definition usize_max : Z := u64_max.

(** [uN::try_from], on any integer type: [None] when out of range. *)
Definition uint_try_from (max z : Z) : option Z :=
  if bool_decide (0 ≤ z ≤ max) then Some z else None.
Abbreviation u8_try_from := (uint_try_from u8_max).
Abbreviation u16_try_from := (uint_try_from u16_max).
Abbreviation u32_try_from := (uint_try_from u32_max).
Abbreviation u64_try_from := (uint_try_from u64_max).
Abbreviation usize_try_from := (uint_try_from usize_max).

Definition i32_try_from (z : Z) : option Z :=
  if bool_decide (- 2 ^ 31 ≤ z < 2 ^ 31) then Some z else None.

(** [a + b], [a - b], [a * b] on an unsigned type, overflow checks on. *)
Definition uint_checked (max z : Z) : outcome Z :=
  match uint_try_from max z with Some z => Done z | None => Panic POverflow end.
Definition u32_add (a b : Z) : outcome Z := uint_checked u32_max (a + b).
Definition u32_mul (a b : Z) : outcome Z := uint_checked u32_max (a * b).
Definition u32_sub (a b : Z) : outcome Z := uint_checked u32_max (a - b).

(** The arithmetic of Rust, which stops on overflow. *)
Declare Scope rust_scope.
Delimit Scope rust_scope with rust.
Infix "+u32" := u32_add (at level 50, left associativity) : rust_scope.
Infix "-u32" := u32_sub (at level 50, left associativity) : rust_scope.
Infix "*u32" := u32_mul (at level 40, left associativity) : rust_scope.

Definition u32_checked_add (a b : Z) : option Z := u32_try_from (a + b).
Definition u32_checked_sub (a b : Z) : option Z := u32_try_from (a - b).

Lemma uint_try_from_Some max z z' :
  uint_try_from max z = Some z' ↔ z' = z ∧ 0 ≤ z ≤ max.
Proof. unfold uint_try_from. case_bool_decide; naive_solver. Qed.

Lemma uint_try_from_None max z :
  uint_try_from max z = None ↔ ¬ (0 ≤ z ≤ max).
Proof. unfold uint_try_from. case_bool_decide; naive_solver. Qed.

Lemma i32_try_from_Some z z' :
  i32_try_from z = Some z' ↔ z' = z ∧ - 2 ^ 31 ≤ z < 2 ^ 31.
Proof. unfold i32_try_from. case_bool_decide; naive_solver. Qed.

Lemma uint_checked_Done max z z' :
  uint_checked max z = Done z' ↔ z' = z ∧ 0 ≤ z ≤ max.
Proof.
  unfold uint_checked, uint_try_from. case_bool_decide; naive_solver.
Qed.

Lemma uint_checked_cases max z :
  uint_checked max z = Done z ∧ 0 ≤ z ≤ max ∨ uint_checked max z = Panic POverflow.
Proof. unfold uint_checked, uint_try_from. case_bool_decide; naive_solver. Qed.

(** * Bytes *)

Abbreviation byte := Init.Byte.byte.
Abbreviation bytes := (list Init.Byte.byte).

#[global] Instance byte_eq_dec : EqDecision byte := Stdlib.Strings.Byte.byte_eq_dec.

#[global] Program Instance byte_countable : Countable byte :=
  inj_countable Stdlib.Strings.Byte.to_N Stdlib.Strings.Byte.of_N _.
Next Obligation. intros b. apply Stdlib.Strings.Byte.of_to_N. Qed.

#[global] Instance byte_inhabited : Inhabited byte := populate Init.Byte.x00.

(** [to_le_bytes] of an [n]-byte unsigned integer, and [from_le_bytes]. *)
Abbreviation le_split := LittleEndianList.le_split.
Abbreviation le_combine := LittleEndianList.le_combine.
Definition u32_to_le_bytes (z : Z) : bytes := le_split 4 z.
Definition u64_to_le_bytes (z : Z) : bytes := le_split 8 z.
Definition byte_of_Z (z : Z) : byte := coqutil.Byte.byte.of_Z z.
Definition byte_to_Z (b : byte) : Z := coqutil.Byte.byte.unsigned b.

Lemma le_combine_split_small n z :
  0 ≤ z < 2 ^ (Z.of_nat n * 8) → le_combine (le_split n z) = z.
Proof.
  intros. rewrite LittleEndianList.le_combine_split. by apply Z.mod_small.
Qed.

Lemma le_split_combine n bs : length bs = n → le_split n (le_combine bs) = bs.
Proof. intros <-. apply LittleEndianList.split_le_combine. Qed.

Lemma le_combine_range bs : 0 ≤ le_combine bs < 2 ^ (8 * Z.of_nat (length bs)).
Proof. apply LittleEndianList.le_combine_bound. Qed.

Lemma length_u32_le z : length (u32_to_le_bytes z) = 4%nat.
Proof. apply LittleEndianList.length_le_split. Qed.
Lemma length_u64_le z : length (u64_to_le_bytes z) = 8%nat.
Proof. apply LittleEndianList.length_le_split. Qed.

Lemma u64_le_combine z : 0 ≤ z < 2 ^ 64 → le_combine (u64_to_le_bytes z) = z.
Proof. intros. by apply le_combine_split_small. Qed.

Lemma u32_le_combine z : 0 ≤ z < 2 ^ 32 → le_combine (u32_to_le_bytes z) = z.
Proof. intros. by apply le_combine_split_small. Qed.

Lemma u64_to_le_combine bs : length bs = 8%nat → u64_to_le_bytes (le_combine bs) = bs.
Proof. apply le_split_combine. Qed.

Lemma u32_to_le_combine bs : length bs = 4%nat → u32_to_le_bytes (le_combine bs) = bs.
Proof. apply le_split_combine. Qed.

#[global] Opaque u32_to_le_bytes u64_to_le_bytes.

(** The lengths of encoded fields. *)
Create HintDb fields discriminated.
#[export] Hint Resolve length_u32_le length_u64_le : fields.
#[export] Hint Rewrite length_u32_le length_u64_le : fields.

(** * Slices and vectors *)

Section slices.
Context {A : Type}.
Implicit Types (l src : list A) (i a b : nat).

(** [l[i]]. *)
Definition index (l : list A) (i : nat) : outcome A :=
  match l !! i with Some x => Done x | None => Panic PIndex end.

(** [&l[a..b]]. *)
Definition slice (l : list A) (a b : nat) : outcome (list A) :=
  if bool_decide (a ≤ b ∧ b ≤ length l)%nat
  then Done (take (b - a) (drop a l)) else Panic PIndex.

(** [&l[a..]]. *)
Definition slice_from (l : list A) (a : nat) : outcome (list A) :=
  if bool_decide (a ≤ length l)%nat then Done (drop a l) else Panic PIndex.

(** [l[a..b].copy_from_slice(src)], where [src] has [b - a] elements. *)
Definition copy_at (l : list A) (a : nat) (src : list A) : outcome (list A) :=
  if bool_decide (a + length src ≤ length l)%nat
  then Done (take a l ++ src ++ drop (a + length src) l) else Panic PIndex.

(** [l.chunks(n)]: slices of [n] elements, the last one possibly shorter. *)
Fixpoint chunks_fuel (fuel n : nat) (l : list A) : list (list A) :=
  match fuel, l with
  | _, [] => []
  | O, _ => []
  | S fuel, l => take n l :: chunks_fuel fuel n (drop n l)
  end.
Definition chunks (n : nat) (l : list A) : list (list A) := chunks_fuel (length l) n l.

(** Cutting the concatenation of slices of [n] elements gives them back, and
    every list of a multiple of [n] elements is such a concatenation. *)
Lemma chunks_fuel_concat fuel n (ls : list (list A)) :
  (0 < n)%nat → Forall (λ c, length c = n) ls → (length ls ≤ fuel)%nat →
  chunks_fuel fuel n (concat ls) = ls.
Proof.
  intros Hn Hls. revert fuel. induction Hls as [|c ls Hc _ IH]; intros fuel Hf; [by destruct fuel|].
  destruct fuel as [|fuel]; simpl in Hf; [lia|]. cbn [concat].
  destruct (c ++ concat ls) as [|x l] eqn:Hl.
  { apply (f_equal length) in Hl. rewrite length_app in Hl. simpl in Hl. lia. }
  cbn [chunks_fuel]. rewrite <-Hl, take_app_length', drop_app_length' by done. by rewrite IH by lia.
Qed.

Lemma length_concat_const n (ls : list (list A)) :
  Forall (λ c, length c = n) ls → length (concat ls) = (n * length ls)%nat.
Proof. induction 1 as [|c ls Hc _ IH]; simpl; [lia|]. rewrite length_app, IH, Hc. lia. Qed.

Lemma chunks_concat n (ls : list (list A)) :
  (0 < n)%nat → Forall (λ c, length c = n) ls → chunks n (concat ls) = ls.
Proof.
  intros Hn Hls. apply chunks_fuel_concat; [done..|]. rewrite (length_concat_const n) by done. nia.
Qed.

Lemma chunks_exact n k (l : list A) :
  (0 < n)%nat → length l = (n * k)%nat →
  length (chunks n l) = k ∧ Forall (λ c, length c = n) (chunks n l) ∧ concat (chunks n l) = l.
Proof.
  intros Hn Hl. assert (∃ ls, Forall (λ c, length c = n) ls ∧ concat ls = l) as (ls & Hls & <-).
  { revert l Hl. induction k as [|k IH]; intros l Hl.
    - exists []. split; [done|]. destruct l; [done|simpl in Hl; lia].
    - destruct (IH (drop n l)) as (ls & Hls & Hc); [rewrite length_drop; lia|].
      exists (take n l :: ls). split.
      + constructor; [rewrite length_take; lia|done].
      + simpl. by rewrite Hc, take_drop. }
  rewrite chunks_concat by done. split_and!; [|done..].
  rewrite (length_concat_const n) in Hl by done. nia.
Qed.

Lemma index_Done l i x : index l i = Done x ↔ l !! i = Some x.
Proof. unfold index. case_match; naive_solver. Qed.

(** Reading and writing a buffer built by appending fields, one field at a
    time: skip a field of [n] elements, or hit the one at the front. *)
Lemma slice_skip (l1 l2 : list A) n a b :
  length l1 = n → (n ≤ a ≤ b)%nat → slice (l1 ++ l2) a b = slice l2 (a - n) (b - n).
Proof.
  intros <- Hn. unfold slice. rewrite length_app, drop_app_ge by lia.
  repeat case_bool_decide; try lia; [|done]. do 2 f_equal. lia.
Qed.

Lemma slice_hit (l1 l2 : list A) n :
  length l1 = n → slice (l1 ++ l2) 0 n = Done l1.
Proof.
  intros <-. unfold slice. rewrite bool_decide_true by (rewrite length_app; lia).
  rewrite drop_0, Nat.sub_0_r. by rewrite take_app_length.
Qed.

Lemma slice_from_skip (l1 l2 : list A) n a :
  length l1 = n → (n ≤ a)%nat → slice_from (l1 ++ l2) a = slice_from l2 (a - n).
Proof.
  intros <- Hn. unfold slice_from. rewrite length_app, drop_app_ge by done.
  repeat case_bool_decide; try lia; done.
Qed.

Lemma slice_from_0 (l : list A) : slice_from l 0 = Done l.
Proof. unfold slice_from. rewrite bool_decide_true by lia. by rewrite drop_0. Qed.

Lemma copy_at_skip (l1 l2 src : list A) n a :
  length l1 = n → (n ≤ a)%nat →
  copy_at (l1 ++ l2) a src = (d ← copy_at l2 (a - n) src; Done (l1 ++ d)).
Proof.
  intros <- Hn. unfold copy_at. rewrite length_app.
  repeat case_bool_decide; try lia; simpl; [|done].
  rewrite take_app_ge, drop_app_ge by lia. rewrite <-app_assoc.
  do 5 f_equal. lia.
Qed.

Lemma copy_at_hit (l1 l2 src : list A) :
  length l1 = length src → copy_at (l1 ++ l2) 0 src = Done (src ++ l2).
Proof.
  intros Hlen. unfold copy_at.
  rewrite bool_decide_true by (rewrite length_app; lia).
  rewrite take_0. simpl. by rewrite <-Hlen, drop_app_length.
Qed.

Lemma slice_length (l : list A) a b l' :
  slice l a b = Done l' → length l' = (b - a)%nat.
Proof.
  unfold slice. case_bool_decide; [|done]. intros [= <-].
  rewrite length_take, length_drop. lia.
Qed.

(** A read splits what remains of the buffer. *)
Lemma slice_drop (l : list A) a b x :
  slice l a b = Done x → drop a l = x ++ drop b l.
Proof.
  unfold slice. case_bool_decide as Hb; [|done]. intros [= <-].
  replace (drop b l) with (drop (b - a) (drop a l)).
  - by rewrite take_drop.
  - rewrite drop_drop. f_equal. lia.
Qed.

Lemma index_drop (l : list A) i x : index l i = Done x → drop i l = x :: drop (S i) l.
Proof. rewrite index_Done. apply drop_S. Qed.

Lemma slice_total (l : list A) a b :
  (a ≤ b)%nat → (b ≤ length l)%nat → slice l a b = Done (take (b - a) (drop a l)).
Proof. intros. unfold slice. by rewrite bool_decide_true. Qed.

Lemma slice_from_total (l : list A) a :
  (a ≤ length l)%nat → slice_from l a = Done (drop a l).
Proof. intros. unfold slice_from. by rewrite bool_decide_true. Qed.

Lemma index_total (l : list A) i : (i < length l)%nat → ∃ x, index l i = Done x ∧ l !! i = Some x.
Proof. intros [x Hx]%lookup_lt_is_Some. exists x. by rewrite index_Done. Qed.

End slices.

#[global] Arguments slice : simpl never.
#[global] Arguments slice_from : simpl never.
#[global] Arguments copy_at : simpl never.

(** The length of a field of a buffer. *)
Ltac field_length :=
  first [ eassumption | solve [auto with fields nocore] | reflexivity ].

(** Evaluates reads and writes of a buffer built by appending fields. *)
Ltac read_fields :=
  repeat first
    [ rewrite slice_hit by field_length
    | rewrite slice_from_0
    | rewrite copy_at_hit by (autorewrite with fields; done)
    | erewrite slice_skip by (first [field_length | simpl; lia])
    | erewrite slice_from_skip by (first [field_length | simpl; lia])
    | erewrite copy_at_skip by (first [field_length | simpl; lia])
    | progress cbn [Nat.sub length] ].

(** * Lists updated at an index *)

Lemma delete_alter {A} (f : A → A) (l : list A) i : delete i (alter f i l) = delete i l.
Proof. by rewrite !delete_take_drop, take_alter_ge, drop_alter_lt by lia. Qed.

Lemma alter_alter_absorb {A} (f g : A → A) (l : list A) i :
  (∀ x, f (g x) = f x) → alter f i (alter g i l) = alter f i l.
Proof. intros Hfg. rewrite list_alter_alter_eq. apply list_alter_ext; simpl; auto. Qed.

Lemma Forall_sublist {A} (P : A → Prop) l l' : l `sublist_of` l' → Forall P l' → Forall P l.
Proof. rewrite !Forall_forall. intros Hs Hall x Hx. apply Hall. by eapply elem_of_sublist. Qed.

Lemma Forall_delete_other {A} (P : A → Prop) (l : list A) i :
  (∀ j x, j ≠ i → l !! j = Some x → P x) → Forall P (delete i l).
Proof.
  intros HP. rewrite delete_take_drop. apply Forall_app. split; apply Forall_lookup.
  - intros j x [Hx ?]%lookup_take_Some. apply (HP j); [lia|done].
  - intros j x Hx. rewrite lookup_drop in Hx. eapply HP; [|done]. lia.
Qed.

(** [HashMap] iteration: the order is the hash table's own, and each entry is
    visited once. *)
Class HashIter (K : Type) `{Countable K} := {
  hash_iter : ∀ V : Type, gmap K V → list (K * V);
  hash_iter_perm : ∀ (V : Type) (m : gmap K V), hash_iter V m ≡ₚ map_to_list m;
}.
Arguments hash_iter {K _ _ _ V} m.
Arguments hash_iter_perm {K _ _ _ V} m.

Lemma elem_of_hash_iter `{HashIter K} {V} (m : gmap K V) k v :
  (k, v) ∈ hash_iter m ↔ m !! k = Some v.
Proof. rewrite (hash_iter_perm m). apply elem_of_map_to_list. Qed.

(** The order of [map_to_list] is one such order. *)
Definition hash_iter_default (K : Type) `{Countable K} : HashIter K :=
  {| hash_iter := λ V m, map_to_list m; hash_iter_perm := λ V m, reflexivity _ |}.

(** ** Conversions that are unwrapped *)

Lemma unwrap_try_from max z : 0 ≤ z ≤ max → unwrap (uint_try_from max z) = Done z.
Proof. intros. unfold uint_try_from. by rewrite bool_decide_true. Qed.

Lemma unwrap_try_from_out max z : ¬ (0 ≤ z ≤ max) → unwrap (uint_try_from max z) = Panic PUnwrap.
Proof. intros. unfold uint_try_from. by rewrite bool_decide_false. Qed.

(** * Bits *)

Lemma lor_disjoint_add a b k : 0 ≤ a → 0 ≤ b < 2 ^ k → 0 ≤ k → Z.lor (a ≪ k) b = a * 2 ^ k + b.
Proof.
  intros Ha Hb Hk. rewrite Z.shiftl_mul_pow2 by done. rewrite <- (Z.add_lor_land (a * 2 ^ k) b).
  assert (Z.land (a * 2 ^ k) b = 0) as ->; [|lia].
  apply Z.bits_inj'. intros n Hn. rewrite Z.land_spec, Z.bits_0.
  destruct (decide (n < k)).
  - by rewrite Z.mul_pow2_bits_low by lia.
  - destruct (decide (b = 0)) as [->|]; [by rewrite Z.bits_0, andb_false_r|].
    rewrite (Z.bits_above_log2 b n), andb_false_r; [done|lia|].
    apply Z.log2_lt_pow2; [lia|]. apply Z.lt_le_trans with (2 ^ k); [lia|].
    apply Z.pow_le_mono_r; lia.
Qed.

Lemma shiftr_lor_high a b k : 0 ≤ a → 0 ≤ b < 2 ^ k → 0 ≤ k → Z.lor (a ≪ k) b ≫ k = a.
Proof.
  intros. rewrite lor_disjoint_add, Z.shiftr_div_pow2 by done.
  rewrite Z.div_add_l by lia. rewrite Z.div_small by lia. lia.
Qed.

Lemma mod_lor_low a b k : 0 ≤ a → 0 ≤ b < 2 ^ k → 0 ≤ k → Z.lor (a ≪ k) b mod 2 ^ k = b.
Proof.
  intros. rewrite lor_disjoint_add by done. rewrite Z.add_comm, Z.mod_add by lia. by apply Z.mod_small.
Qed.

(** The low bits. *)
Lemma land_low a k : 0 ≤ k → Z.land a (2 ^ k - 1) = a mod 2 ^ k.
Proof. intros Hk. rewrite <- Z.land_ones by done. by rewrite Z.ones_equiv, <- Z.sub_1_r. Qed.

(** The high bits of an integer of [w] bits. *)
Lemma land_high a k w : 0 ≤ k ≤ w → 0 ≤ a < 2 ^ w → Z.land a (2 ^ w - 2 ^ k) = a / 2 ^ k * 2 ^ k.
Proof.
  intros Hk Ha. replace (2 ^ w - 2 ^ k) with (Z.ones (w - k) * 2 ^ k).
  - rewrite <- Z.shiftl_mul_pow2, <- Z.shiftr_div_pow2 by lia. rewrite <- (Z.shiftl_mul_pow2 (a ≫ k)) by lia.
    apply Z.bits_inj'. intros n Hn. rewrite Z.land_spec, !Z.shiftl_spec by lia.
    destruct (decide (n < k)); [by rewrite !(Z.testbit_neg_r _ (n - k)), andb_false_r by lia|].
    rewrite Z.shiftr_spec by lia. replace (n - k + k) with n by lia. destruct (decide (n < w)).
    + by rewrite Z.ones_spec_low, andb_true_r by lia.
    + destruct (decide (a = 0)) as [->|]; [by rewrite Z.bits_0|].
      rewrite (Z.bits_above_log2 a n); [done|lia|]. apply Z.log2_lt_pow2; [lia|].
      apply Z.lt_le_trans with (2 ^ w); [lia|]. apply Z.pow_le_mono_r; lia.
  - rewrite Z.ones_equiv, <- Z.sub_1_r, Z.mul_sub_distr_r, <- Z.pow_add_r by lia. replace (w - k + k) with w by lia. lia.
Qed.

(** One bit. *)
Lemma land_bit a k : 0 ≤ k → Z.land a (2 ^ k) = if Z.testbit a k then 2 ^ k else 0.
Proof.
  intros Hk. apply Z.bits_inj'. intros n Hn. rewrite Z.land_spec, Z.pow2_bits_eqb by done.
  destruct (Z.eqb_spec k n) as [->|Hne]; [rewrite andb_true_r; destruct (Z.testbit a n) eqn:E|rewrite andb_false_r; destruct (Z.testbit a k)];
    rewrite ?Z.bits_0, ?Z.pow2_bits_eqb by done; rewrite ?Z.eqb_refl; try done. by destruct (Z.eqb_spec k n).
Qed.
