(* ===== verification/IdPool.v ===== *)
(** Identifier pools ([core/src/id_pool.rs]).

    An [IdPool] hands out [u64] identifiers for processes, threads and
    messages.  The random number generators ([rand], [rand_chacha],
    [rand_hc]) are crates outside the repository: they are the class [Rng],
    with what their documentation promises in [RngLaws]. *)
From S2P Require Import Prelude.

(** The generators and the uniform distribution of the [rand] crates. *)
Class Rng := {
  Hc128Rng : Type;
  ChaCha20Rng : Type;
  Hc128Rng_from_seed : bytes → Hc128Rng;
  ChaCha20Rng_from_rng : Hc128Rng → option ChaCha20Rng * Hc128Rng;
  Uniform_sample : Z * Z → ChaCha20Rng → Z * ChaCha20Rng;
}.

(** Seeding from an infallible generator succeeds, and a sample of
    [Uniform::from(lo..=hi)] is between its bounds. *)
Class RngLaws `{Rng} := {
  from_rng_ok : ∀ r, is_Some (ChaCha20Rng_from_rng r).1;
  sample_range : ∀ lo hi r, lo ≤ hi → lo ≤ (Uniform_sample (lo, hi) r).1 ≤ hi;
}.

Section id_pool.
Context `{Rng}.

(** The lock-free queue of generators is a list, the [Spinlock] its content. *)
Record IdPool := {
  rngs : list ChaCha20Rng;
  distribution : Z * Z;
  master_rng : Hc128Rng;
}.

Definition IdPool_new : IdPool := {|
  rngs := [];
  distribution := (0, u64_max);
  master_rng := Hc128Rng_from_seed (replicate 32 Init.Byte.x00);
|}.

Definition assign : M IdPool Z := λ p,
  match rngs p with
  | rng :: rest =>
      let '(id, rng) := Uniform_sample (distribution p) rng in
      Done (id, {| rngs := rest ++ [rng]; distribution := distribution p;
                   master_rng := master_rng p |})
  | [] =>
      let '(new_rng, master) := ChaCha20Rng_from_rng (master_rng p) in
      match new_rng with
      | Some new_rng =>
          let '(id, new_rng) := Uniform_sample (distribution p) new_rng in
          Done (id, {| rngs := [new_rng]; distribution := distribution p;
                       master_rng := master |})
      | None => Panic PUnreachable
      end
  end.

(** [n] identifiers in a row. *)
Fixpoint assign_n (n : nat) : M IdPool (list Z) :=
  match n with
  | O => mret []
  | S n => id ← assign; ids ← assign_n n; mret (id :: ids)
  end.

(** The reference: the successive samples of one generator. *)
Fixpoint samples (n : nat) (rng : ChaCha20Rng) : list Z :=
  match n with
  | O => []
  | S n => let '(id, rng) := Uniform_sample (0, u64_max) rng in id :: samples n rng
  end.

(** Every identifier comes from [0..=u64::max_value()]. *)
Definition pool_ok (p : IdPool) : Prop := distribution p = (0, u64_max).

Lemma IdPool_new_ok : pool_ok IdPool_new.
Proof. done. Qed.

Lemma assign_ok p id p' : assign p = Done (id, p') → pool_ok p → pool_ok p'.
Proof.
  unfold assign, pool_ok. intros Ha Hp. repeat case_match; simplify_eq/=; done.
Qed.

Context `{!RngLaws}.

(** [assign] never panics. *)
Lemma assign_total p : ∃ id p', assign p = Done (id, p').
Proof.
  unfold assign. destruct (rngs p) as [|rng rest].
  - destruct (ChaCha20Rng_from_rng (master_rng p)) as [o m] eqn:E.
    destruct (from_rng_ok (master_rng p)) as [r Hr]. rewrite E in Hr. simpl in Hr.
    subst o. destruct (Uniform_sample _ _); eauto.
  - destruct (Uniform_sample _ _); eauto.
Qed.

Lemma assign_range p id p' :
  assign p = Done (id, p') → pool_ok p → 0 ≤ id ≤ u64_max.
Proof.
  unfold assign, pool_ok. intros Ha Hp. rewrite Hp in Ha.
  repeat case_match; simplify_eq/=;
    match goal with E : Uniform_sample ?d ?r = (?i, _) |- _ =>
      pose proof (sample_range 0 u64_max r ltac:(done)) as Hs; rewrite E in Hs; exact Hs
    end.
Qed.

Lemma assign_n_app a b p ids1 p1 ids2 p2 :
  assign_n a p = Done (ids1, p1) → assign_n b p1 = Done (ids2, p2) →
  assign_n (a + b) p = Done (ids1 ++ ids2, p2).
Proof.
  revert p ids1. induction a as [|a IH]; intros p ids1 H1 H2; simpl in H1; inv_done; [done|].
  cbn [assign_n Nat.add]. unfold mbind, M_bind.
  match goal with Ha : assign p = _ |- _ => rewrite Ha end.
  match goal with Ha : assign_n a _ = _ |- _ => rewrite (IH _ _ Ha H2) end. done.
Qed.

Lemma assign_n_single n rng m :
  ∃ p', assign_n n {| rngs := [rng]; distribution := (0, u64_max); master_rng := m |}
    = Done (samples n rng, p').
Proof.
  revert rng. induction n as [|n IH]; intros rng; [by eexists|].
  simpl. unfold mbind, M_bind, assign. simpl.
  destruct (Uniform_sample _ rng) as [id rng'] eqn:E. simpl.
  destruct (IH rng') as [p' ->]. by eexists.
Qed.

(** A new pool seeds one generator, on the first identifier it assigns,
    and from then on its identifiers are exactly the successive samples of
    that generator: no identifier is skipped and no second generator is ever
    created. *)
Theorem id_pool_stream :
  ∃ rng, (ChaCha20Rng_from_rng (master_rng IdPool_new)).1 = Some rng ∧
    ∀ n, ∃ p', assign_n n IdPool_new = Done (samples n rng, p').
Proof.
  destruct (from_rng_ok (master_rng IdPool_new)) as [rng Hrng].
  exists rng. split; [done|]. intros [|n]; [by eexists|].
  simpl. unfold mbind, M_bind. unfold assign at 1. simpl in *.
  destruct (ChaCha20Rng_from_rng _) as [o m]. simpl in Hrng. subst o.
  destruct (Uniform_sample _ rng) as [id rng'] eqn:E.
  destruct (assign_n_single n rng' m) as [p' Hp']. rewrite Hp'. by eexists.
Qed.

End id_pool.

(** A generator to evaluate the model with: it counts. *)
#[global] Instance counter_rng : Rng := {|
  Hc128Rng := unit;
  ChaCha20Rng := Z;
  Hc128Rng_from_seed := λ _, tt;
  ChaCha20Rng_from_rng := λ u, (Some 0, u);
  Uniform_sample := λ '(lo, hi) r, (lo + r mod (hi - lo + 1), r + 1);
|}.

#[global] Instance counter_rng_laws : RngLaws.
Proof.
  split.
  - intros r. by eexists.
  - intros lo hi r Hle. simpl.
    pose proof (Z.mod_pos_bound r (hi - lo + 1)). lia.
Qed.

Example assign_n_counter :
  fst <$> assign_n 4 IdPool_new = Done [0; 1; 2; 3].
Proof. reflexivity. Qed.
