(* ===== verification/WasmValue.v ===== *)
(** WASM values and signatures ([core/src/wasm_value.rs],
    [core/src/signature.rs]).

    The types of the [wasmi] crate that these files convert from and to are
    transcribed from the conversions themselves. *)
From S2P Require Import Prelude.

(** [wasmi::ValueType], [wasmi::RuntimeValue] and [wasmi::Signature].  Floats
    carry their bits. *)
Inductive wasmi_ValueType := WI32 | WI64 | WF32 | WF64.
Inductive wasmi_RuntimeValue :=
  | RI32 (v : Z) | RI64 (v : Z) | RF32 (bits : Z) | RF64 (bits : Z).
Record wasmi_Signature := {
  wsig_params : list wasmi_ValueType;
  wsig_return_type : option wasmi_ValueType;
}.

Inductive ValueType := TI32 | TI64 | TF32 | TF64.

Inductive WasmValue :=
  | I32 (v : Z)
  | I64 (v : Z)
  | F32 (bits : Z)
  | F64 (bits : Z).

#[global] Instance wasmi_ValueType_eq_dec : EqDecision wasmi_ValueType.
Proof. solve_decision. Defined.
#[global] Instance wasmi_Signature_eq_dec : EqDecision wasmi_Signature.
Proof. solve_decision. Defined.
#[global] Instance ValueType_eq_dec : EqDecision ValueType.
Proof. solve_decision. Defined.
#[global] Instance WasmValue_eq_dec : EqDecision WasmValue.
Proof. solve_decision. Defined.

Definition ty (v : WasmValue) : ValueType :=
  match v with
  | I32 _ => TI32
  | I64 _ => TI64
  | F32 _ => TF32
  | F64 _ => TF64
  end.

Definition into_i32 (v : WasmValue) : option Z :=
  match v with I32 v => Some v | _ => None end.

Definition into_i64 (v : WasmValue) : option Z :=
  match v with I64 v => Some v | _ => None end.

(** [impl From<wasmi::RuntimeValue> for WasmValue]. *)
Definition from_RuntimeValue (v : wasmi_RuntimeValue) : outcome WasmValue :=
  match v with
  | RI32 v => Done (I32 v)
  | RI64 v => Done (I64 v)
  | _ => Panic PUnimplemented
  end.

(** [impl From<WasmValue> for wasmi::RuntimeValue]. *)
Definition to_RuntimeValue (v : WasmValue) : outcome wasmi_RuntimeValue :=
  match v with
  | I32 v => Done (RI32 v)
  | I64 v => Done (RI64 v)
  | _ => Panic PUnimplemented
  end.

(** [impl From<wasmi::ValueType> for ValueType]. *)
Definition from_wasmi_ValueType (t : wasmi_ValueType) : ValueType :=
  match t with WI32 => TI32 | WI64 => TI64 | WF32 => TF32 | WF64 => TF64 end.

(** [impl From<ValueType> for wasmi::ValueType]. *)
Definition to_wasmi_ValueType (t : ValueType) : wasmi_ValueType :=
  match t with TI32 => WI32 | TI64 => WI64 | TF32 => WF32 | TF64 => WF64 end.

(** * Signatures *)

Record Signature := {
  sig_params : list ValueType;
  sig_ret_ty : option ValueType;
}.

Definition Signature_new (params : list ValueType) (ret_ty : option ValueType) : Signature :=
  {| sig_params := params; sig_ret_ty := ret_ty |}.

(** [impl From<&Signature> for wasmi::Signature]. *)
Definition to_wasmi_Signature (sig : Signature) : wasmi_Signature := {|
  wsig_params := to_wasmi_ValueType <$> sig_params sig;
  wsig_return_type := to_wasmi_ValueType <$> sig_ret_ty sig;
|}.

Definition matches_wasmi (self : Signature) (sig : wasmi_Signature) : bool :=
  bool_decide (to_wasmi_Signature self = sig).

(** A vector of values converted one by one. *)
Fixpoint map_outcome {A B} (f : A → outcome B) (l : list A) : outcome (list B) :=
  match l with
  | [] => Done []
  | x :: l => y ← f x; ys ← map_outcome f l; Done (y :: ys)
  end.

(** An optional value converted. *)
Definition map_outcome_opt {A B} (f : A → outcome B) (o : option A) : outcome (option B) :=
  match o with
  | None => Done None
  | Some x => y ← f x; Done (Some y)
  end.

(** The values that both conversions handle. *)
Definition is_int_value (v : WasmValue) : Prop :=
  match v with I32 _ | I64 _ => True | _ => False end.

#[global] Instance is_int_value_dec v : Decision (is_int_value v).
Proof. destruct v; apply _. Defined.

Lemma from_to_wasmi_ValueType t : from_wasmi_ValueType (to_wasmi_ValueType t) = t.
Proof. by destruct t. Qed.
Lemma to_from_wasmi_ValueType t : to_wasmi_ValueType (from_wasmi_ValueType t) = t.
Proof. by destruct t. Qed.

#[global] Instance to_wasmi_ValueType_inj : Inj (=) (=) to_wasmi_ValueType.
Proof. intros [] []; done. Qed.

#[global] Instance to_wasmi_Signature_inj : Inj (=) (=) to_wasmi_Signature.
Proof.
  intros [p1 r1] [p2 r2]. unfold to_wasmi_Signature. simpl. intros [= Hp Hr].
  f_equal; [by apply (inj (fmap to_wasmi_ValueType))|].
  by apply (inj (fmap to_wasmi_ValueType)).
Qed.

Lemma matches_wasmi_spec self sig :
  matches_wasmi self sig = true ↔
  sig_params self = from_wasmi_ValueType <$> wsig_params sig ∧
  sig_ret_ty self = from_wasmi_ValueType <$> wsig_return_type sig.
Proof.
  unfold matches_wasmi. rewrite bool_decide_eq_true.
  destruct self as [p r], sig as [wp wr]. unfold to_wasmi_Signature. simpl. split.
  - intros [= <- <-]. split.
    + rewrite <-list_fmap_compose. symmetry. rewrite <-(list_fmap_id p) at 2.
      apply list_fmap_ext. intros ? x _. apply from_to_wasmi_ValueType.
    + destruct r as [[]|]; done.
  - intros [-> ->]. f_equal.
    + rewrite <-list_fmap_compose. rewrite <-(list_fmap_id wp) at 2.
      apply list_fmap_ext. intros ? x _. apply to_from_wasmi_ValueType.
    + destruct wr as [[]|]; done.
Qed.

Lemma value_roundtrip v :
  is_int_value v → (w ← to_RuntimeValue v; from_RuntimeValue w) = Done v.
Proof. by destruct v. Qed.
