(* ===== verification/Ffi.v ===== *)
(** The kernel/program message format ([interfaces/syscalls/src/ffi.rs],
    [interfaces/syscalls/src/lib.rs]).

    A notification is what the kernel writes in the memory of a process that
    calls [next_notification].  The kernel builds it when an event occurs,
    queues it, fills its [index_in_list] field at delivery, and the process
    decodes it. *)
From S2P Require Import Prelude.

(** [Pid], [ThreadId] and [MessageId] wrap a [u64]; [InterfaceHash] wraps a
    [[u8; 32]], and [EncodedMessage] a [Vec<u8>]. *)
Abbreviation Pid := Z.
Abbreviation ThreadId := Z.
Abbreviation MessageId := Z.
Abbreviation InterfaceHash := (list Init.Byte.byte).
Abbreviation EncodedMessage := (list Init.Byte.byte).

Definition is_u64 (z : Z) : Prop := 0 ≤ z < 2 ^ 64.
Definition is_u32 (z : Z) : Prop := 0 ≤ z < 2 ^ 32.
Definition is_hash (h : InterfaceHash) : Prop := length h = 32%nat.

(** * Builders *)

Record InterfaceNotificationBuilder := { interface_data : bytes }.
Record ResponseNotificationBuilder := { response_data : bytes }.
Record ProcessDestroyedNotificationBuilder := { destroyed_data : bytes }.

Inductive NotificationBuilder :=
  | NbInterface (msg : InterfaceNotificationBuilder)
  | NbResponse (msg : ResponseNotificationBuilder)
  | NbProcessDestroyed (msg : ProcessDestroyedNotificationBuilder).

Definition build_interface_notification (interface : InterfaceHash)
    (message_id : option MessageId) (emitter_pid : Pid) (index_in_list : Z)
    (actual_data : EncodedMessage) : InterfaceNotificationBuilder :=
  {| interface_data :=
       [Init.Byte.x00] ++ interface
       ++ u64_to_le_bytes (default 0 message_id)
       ++ u64_to_le_bytes emitter_pid
       ++ u32_to_le_bytes index_in_list
       ++ actual_data |}.

Definition build_response_notification (message_id : MessageId) (index_in_list : Z)
    (actual_data : unit + EncodedMessage) : ResponseNotificationBuilder :=
  {| response_data :=
       [Init.Byte.x01] ++ u64_to_le_bytes message_id ++ u32_to_le_bytes index_in_list
       ++ match actual_data with
          | inr actual_data => [Init.Byte.x00] ++ actual_data
          | inl _ => [Init.Byte.x01]
          end |}.

Definition build_process_destroyed_notification (pid : Pid) (index_in_list : Z) :
    ProcessDestroyedNotificationBuilder :=
  {| destroyed_data :=
       [Init.Byte.x02] ++ u64_to_le_bytes pid ++ u32_to_le_bytes index_in_list |}.

Definition interface_set_index_in_list (b : InterfaceNotificationBuilder) (value : Z) :
    outcome InterfaceNotificationBuilder :=
  d ← copy_at (interface_data b) 49 (u32_to_le_bytes value);
  Done {| interface_data := d |}.

Definition response_set_index_in_list (b : ResponseNotificationBuilder) (value : Z) :
    outcome ResponseNotificationBuilder :=
  d ← copy_at (response_data b) 9 (u32_to_le_bytes value);
  Done {| response_data := d |}.

Definition destroyed_set_index_in_list (b : ProcessDestroyedNotificationBuilder) (value : Z) :
    outcome ProcessDestroyedNotificationBuilder :=
  d ← copy_at (destroyed_data b) 9 (u32_to_le_bytes value);
  Done {| destroyed_data := d |}.

Definition response_message_id (b : ResponseNotificationBuilder) : outcome MessageId :=
  d ← slice (response_data b) 1 9;
  Done (le_combine d).

(** [NotificationBuilder::into_bytes]. *)
Definition notification_into_bytes (n : NotificationBuilder) : bytes :=
  match n with
  | NbInterface msg => interface_data msg
  | NbResponse msg => response_data msg
  | NbProcessDestroyed msg => destroyed_data msg
  end.

(** [NotificationBuilder::len]. *)
Definition notification_len (n : NotificationBuilder) : nat :=
  match n with
  | NbInterface msg => length (interface_data msg)
  | NbResponse msg => length (response_data msg)
  | NbProcessDestroyed msg => length (destroyed_data msg)
  end.

Definition set_index_in_list (n : NotificationBuilder) (value : Z) :
    outcome NotificationBuilder :=
  match n with
  | NbInterface msg => m ← interface_set_index_in_list msg value; Done (NbInterface m)
  | NbResponse msg => m ← response_set_index_in_list msg value; Done (NbResponse m)
  | NbProcessDestroyed msg =>
      m ← destroyed_set_index_in_list msg value; Done (NbProcessDestroyed m)
  end.

(** * Decoders *)

Record DecodedInterfaceNotification := {
  di_interface : InterfaceHash;
  di_message_id : option MessageId;
  di_emitter_pid : Pid;
  di_index_in_list : Z;
  di_actual_data : EncodedMessage;
}.

Record DecodedResponseNotification := {
  dr_message_id : MessageId;
  dr_index_in_list : Z;
  dr_actual_data : unit + EncodedMessage;
}.

Record DecodedProcessDestroyedNotification := {
  dd_pid : Pid;
  dd_index_in_list : Z;
}.

Inductive DecodedNotification :=
  | DnInterface (n : DecodedInterfaceNotification)
  | DnResponse (n : DecodedResponseNotification)
  | DnProcessDestroyed (n : DecodedProcessDestroyedNotification).

Definition decode_interface_notification (buffer : bytes) :
    fallible unit DecodedInterfaceNotification :=
  if bool_decide (length buffer < 1 + 32 + 8 + 8 + 4)%nat then fail tt else
  b0 ← lift (index buffer 0);
  if negb (bool_decide (b0 = Init.Byte.x00)) then fail tt else
  interface ← lift (slice buffer 1 33);
  id ← lift (slice buffer 33 41);
  pid ← lift (slice buffer 41 49);
  idx ← lift (slice buffer 49 53);
  data ← lift (slice_from buffer 53);
  mret {|
    di_interface := interface;
    di_message_id := if bool_decide (le_combine id = 0) then None else Some (le_combine id);
    di_emitter_pid := le_combine pid;
    di_index_in_list := le_combine idx;
    di_actual_data := data;
  |}.

Definition decode_response_notification (buffer : bytes) :
    fallible unit DecodedResponseNotification :=
  if bool_decide (length buffer < 1 + 8 + 4 + 1)%nat then fail tt else
  b0 ← lift (index buffer 0);
  if negb (bool_decide (b0 = Init.Byte.x01)) then fail tt else
  b13 ← lift (index buffer 13);
  let success := bool_decide (b13 = Init.Byte.x00) in
  if negb success && negb (bool_decide (length buffer = 1 + 8 + 4 + 1)%nat) then fail tt else
  id ← lift (slice buffer 1 9);
  idx ← lift (slice buffer 9 13);
  data ← lift (slice_from buffer 14);
  mret {|
    dr_message_id := le_combine id;
    dr_index_in_list := le_combine idx;
    dr_actual_data := if success then inr data else inl tt;
  |}.

Definition decode_process_destroyed_notification (buffer : bytes) :
    fallible unit DecodedProcessDestroyedNotification :=
  if negb (bool_decide (length buffer = 1 + 8 + 4)%nat) then fail tt else
  b0 ← lift (index buffer 0);
  if negb (bool_decide (b0 = Init.Byte.x02)) then fail tt else
  id ← lift (slice buffer 1 9);
  idx ← lift (slice buffer 9 13);
  mret {| dd_pid := le_combine id; dd_index_in_list := le_combine idx |}.

Definition decode_notification (buffer : bytes) : fallible unit DecodedNotification :=
  if bool_decide (buffer = []) then fail tt else
  b0 ← lift (index buffer 0);
  match b0 with
  | Init.Byte.x00 => n ← decode_interface_notification buffer; mret (DnInterface n)
  | Init.Byte.x01 => n ← decode_response_notification buffer; mret (DnResponse n)
  | Init.Byte.x02 =>
      n ← decode_process_destroyed_notification buffer; mret (DnProcessDestroyed n)
  | _ => fail tt
  end.

(** * Delivering and decoding *)

(** What the kernel does to a queued notification and the process to the
    bytes it receives: fill the index, serialize, decode. *)
Definition deliver_and_decode (n : NotificationBuilder) (idx : Z) :
    fallible unit DecodedNotification :=
  n ← lift (set_index_in_list n idx);
  decode_notification (notification_into_bytes n).

(** The length of a buffer built by appending fields. *)
Ltac buffer_length :=
  rewrite ?length_app, ?length_u64_le, ?length_u32_le; simpl; lia.

Lemma set_index_interface h mid pid i0 i data :
  is_hash h →
  interface_set_index_in_list (build_interface_notification h mid pid i0 data) i
  = Done (build_interface_notification h mid pid i data).
Proof.
  unfold is_hash. intros Hh.
  unfold interface_set_index_in_list, build_interface_notification. cbn [interface_data].
  by read_fields.
Qed.

Lemma set_index_response mid i0 i data :
  response_set_index_in_list (build_response_notification mid i0 data) i
  = Done (build_response_notification mid i data).
Proof.
  unfold response_set_index_in_list, build_response_notification. cbn [response_data].
  by read_fields.
Qed.

Lemma set_index_destroyed pid i0 i :
  destroyed_set_index_in_list (build_process_destroyed_notification pid i0) i
  = Done (build_process_destroyed_notification pid i).
Proof.
  unfold destroyed_set_index_in_list, build_process_destroyed_notification.
  cbn [destroyed_data]. rewrite <-(app_nil_r (u32_to_le_bytes i0)).
  read_fields. by rewrite app_nil_r.
Qed.

Lemma response_message_id_build mid i data :
  is_u64 mid → response_message_id (build_response_notification mid i data) = Done mid.
Proof.
  intros. unfold response_message_id, build_response_notification. cbn [response_data].
  read_fields. simpl. by rewrite u64_le_combine.
Qed.

Lemma decode_build_interface h mid pid i data :
  is_hash h → from_option is_u64 True mid → is_u64 pid → is_u32 i →
  decode_notification (interface_data (build_interface_notification h mid pid i data))
  = Done (inr (DnInterface {|
      di_interface := h;
      di_message_id := if bool_decide (mid = Some 0) then None else mid;
      di_emitter_pid := pid; di_index_in_list := i; di_actual_data := data |})).
Proof.
  unfold is_hash. intros Hh Hmid Hpid Hi.
  unfold decode_notification, decode_interface_notification, build_interface_notification.
  cbn [interface_data].
  rewrite (bool_decide_false (_ = [])) by done.
  rewrite (bool_decide_false (_ < _)%nat) by buffer_length.
  read_fields. unfold index, mbind, fallible_bind. simpl.
  rewrite (u64_le_combine pid), u32_le_combine by done.
  rewrite (u64_le_combine (default 0 mid)) by (by destruct mid).
  unfold mret, fallible_ret. do 4 f_equal.
  destruct mid as [id|]; simpl; repeat case_bool_decide; naive_solver.
Qed.

Lemma decode_build_response mid i data :
  is_u64 mid → is_u32 i →
  decode_notification (response_data (build_response_notification mid i data))
  = Done (inr (DnResponse {|
      dr_message_id := mid; dr_index_in_list := i; dr_actual_data := data |})).
Proof.
  intros Hmid Hi.
  unfold decode_notification, decode_response_notification, build_response_notification.
  cbn [response_data].
  rewrite (bool_decide_false (_ = [])) by done.
  rewrite (bool_decide_false (_ < _)%nat) by (destruct data; buffer_length).
  replace (index _ 13) with (Done match data with inl _ => Init.Byte.x01 | inr _ => Init.Byte.x00 end).
  2:{ unfold index. rewrite !lookup_app_r; rewrite ?length_u64_le, ?length_u32_le; simpl; try lia.
      by destruct data. }
  destruct data as [[]|data]; read_fields; unfold index, mbind, fallible_bind; simpl;
    by rewrite ?u64_le_combine, ?u32_le_combine by done.
Qed.

Lemma decode_build_destroyed pid i :
  is_u64 pid → is_u32 i →
  decode_notification (destroyed_data (build_process_destroyed_notification pid i))
  = Done (inr (DnProcessDestroyed {| dd_pid := pid; dd_index_in_list := i |})).
Proof.
  intros Hpid Hi.
  unfold decode_notification, decode_process_destroyed_notification,
    build_process_destroyed_notification.
  cbn [destroyed_data]. rewrite <-(app_nil_r (u32_to_le_bytes i)).
  rewrite (bool_decide_false (_ = [])) by done.
  rewrite (bool_decide_true (length _ = _)) by done.
  read_fields. unfold index, mbind, fallible_bind. simpl.
  by rewrite u64_le_combine, u32_le_combine.
Qed.

(** C22: a notification that the kernel builds with a dummy index, and whose
    index it fills at delivery, is decoded by the process into exactly the
    fields it was built from: no field overlaps another, whatever the
    message.  Only a message identifier 0 is not preserved: on the wire it
    stands for "no answer expected". *)
Theorem notification_roundtrip (n : DecodedNotification) (i0 i : Z) :
  is_u32 i →
  match n with
  | DnInterface d =>
      is_hash (di_interface d) ∧ from_option is_u64 True (di_message_id d) ∧
      is_u64 (di_emitter_pid d)
  | DnResponse d => is_u64 (dr_message_id d)
  | DnProcessDestroyed d => is_u64 (dd_pid d)
  end →
  deliver_and_decode
    match n with
    | DnInterface d =>
        NbInterface (build_interface_notification (di_interface d) (di_message_id d)
                       (di_emitter_pid d) i0 (di_actual_data d))
    | DnResponse d =>
        NbResponse (build_response_notification (dr_message_id d) i0 (dr_actual_data d))
    | DnProcessDestroyed d =>
        NbProcessDestroyed (build_process_destroyed_notification (dd_pid d) i0)
    end i
  = Done (inr match n with
    | DnInterface d => DnInterface {|
        di_interface := di_interface d;
        di_message_id :=
          if bool_decide (di_message_id d = Some 0) then None else di_message_id d;
        di_emitter_pid := di_emitter_pid d; di_index_in_list := i;
        di_actual_data := di_actual_data d |}
    | DnResponse d => DnResponse {|
        dr_message_id := dr_message_id d; dr_index_in_list := i;
        dr_actual_data := dr_actual_data d |}
    | DnProcessDestroyed d =>
        DnProcessDestroyed {| dd_pid := dd_pid d; dd_index_in_list := i |}
    end).
Proof.
  unfold deliver_and_decode, set_index_in_list, mbind, fallible_bind, lift.
  intros Hi. destruct n as [d|d|d]; intros Hd; cbn [notification_into_bytes].
  - destruct Hd as (? & ? & ?). rewrite set_index_interface by done.
    by apply decode_build_interface.
  - rewrite set_index_response. by apply decode_build_response.
  - rewrite set_index_destroyed. by apply decode_build_destroyed.
Qed.


(** A buffer of at least 13 bytes is read without panicking. *)
Ltac read_total :=
  repeat (rewrite ?slice_total, ?slice_from_total by lia;
          unfold mbind, fallible_bind, lift; simpl).

Lemma decode_interface_total buffer : returns (decode_interface_notification buffer).
Proof.
  unfold decode_interface_notification. case_bool_decide; [by eexists|].
  destruct (index_total buffer 0 ltac:(lia)) as (b0 & -> & _). simpl.
  case_match; [by eexists|]. read_total. by eexists.
Qed.

Lemma decode_response_total buffer : returns (decode_response_notification buffer).
Proof.
  unfold decode_response_notification. case_bool_decide; [by eexists|].
  destruct (index_total buffer 0 ltac:(lia)) as (b0 & -> & _). simpl.
  case_match; [by eexists|].
  destruct (index_total buffer 13 ltac:(lia)) as (b13 & -> & _). simpl.
  case_match; [by eexists|]. read_total. by eexists.
Qed.

Lemma decode_destroyed_total buffer : returns (decode_process_destroyed_notification buffer).
Proof.
  unfold decode_process_destroyed_notification. case_bool_decide; simpl; [|by eexists].
  destruct (index_total buffer 0 ltac:(lia)) as (b0 & -> & _). simpl.
  case_match; [by eexists|]. read_total. by eexists.
Qed.

Lemma decode_returns (buffer : bytes) : returns (decode_notification buffer).
Proof.
  unfold decode_notification. case_bool_decide as Hb; [by eexists|].
  destruct buffer as [|b0 buffer]; [done|]. cbn.
  destruct (decode_interface_total (b0 :: buffer)) as [[?|?] Hi],
    (decode_response_total (b0 :: buffer)) as [[?|?] Hr],
    (decode_destroyed_total (b0 :: buffer)) as [[?|?] Hd];
  unfold returns; destruct b0; cbn; rewrite ?Hi, ?Hr, ?Hd; eauto.
Qed.

(** Decoding never panics: whatever bytes a program is handed,
    [decode_notification] returns [Ok] or [Err]; no field is read past the
    end of the buffer. *)
Theorem decode_notification_total (buffer : bytes) : returns (decode_notification buffer).
Proof. apply decode_returns. Qed.

(** Rebuilds the buffer from the fields that were read. *)
Ltac rebuild_buffer buffer :=
  rewrite <-(drop_0 buffer) at 1;
  repeat match goal with
         | H : index buffer _ = Done _ |- _ => apply index_drop in H
         | H : slice buffer _ _ = Done ?x |- _ =>
             let L := fresh "L" in
             pose proof (slice_length _ _ _ _ H) as L; cbn [Nat.sub] in L;
             apply slice_drop in H
         | H : slice_from buffer _ = Done _ |- _ =>
             unfold slice_from in H; case_bool_decide; [|done]; injection H as H
         end;
  repeat match goal with
         | H : drop ?i buffer = _ |- context [drop ?i buffer] => rewrite H
         end;
  rewrite ?u64_to_le_combine, ?u32_to_le_combine by done; simpl.

Lemma wire_message_id z : default 0 (if bool_decide (z = 0) then None else Some z) = z.
Proof. by case_bool_decide. Qed.

Lemma decode_interface_inv buffer d :
  decode_interface_notification buffer = Done (inr d) →
  buffer = interface_data (build_interface_notification (di_interface d)
    (di_message_id d) (di_emitter_pid d) (di_index_in_list d) (di_actual_data d)).
Proof.
  unfold decode_interface_notification. intros Hd.
  case_bool_decide; [done|]. inv_step Hd. case_bool_decide; [|done]. inv_done.
  unfold build_interface_notification. simpl.
  rewrite wire_message_id. by rebuild_buffer buffer.
Qed.

Lemma decode_response_inv buffer d :
  decode_response_notification buffer = Done (inr d) → dr_actual_data d ≠ inl tt →
  buffer = response_data (build_response_notification (dr_message_id d)
    (dr_index_in_list d) (dr_actual_data d)).
Proof.
  unfold decode_response_notification. intros Hd Hok.
  case_bool_decide; [done|]. inv_step Hd. case_bool_decide; [|done]. cbn [negb] in Hd. inv_step Hd.
  case_bool_decide; simpl in Hd.
  2:{ case_bool_decide; [|done]. inv_done. }
  inv_done. unfold build_response_notification. simpl.
  rebuild_buffer buffer. done.
Qed.

Lemma decode_destroyed_inv buffer d :
  decode_process_destroyed_notification buffer = Done (inr d) →
  buffer = destroyed_data
    (build_process_destroyed_notification (dd_pid d) (dd_index_in_list d)).
Proof.
  unfold decode_process_destroyed_notification. intros Hd.
  case_bool_decide; [|done]. inv_step Hd. case_bool_decide; [|done]. inv_done.
  unfold build_process_destroyed_notification. simpl.
  rebuild_buffer buffer. rewrite (drop_ge buffer 13) by lia. by rewrite app_nil_r.
Qed.

(** Decoding is canonical: a buffer that decodes to an interface or a
    process-destroyed notification, or to a successful response, is the very
    buffer that the kernel builds from the decoded fields, so that two
    different buffers never decode to the same notification. *)
Theorem decode_notification_canonical (buffer : bytes) (n : DecodedNotification) :
  decode_notification buffer = Done (inr n) →
  match n with
  | DnInterface d =>
      buffer = interface_data (build_interface_notification (di_interface d)
        (di_message_id d) (di_emitter_pid d) (di_index_in_list d) (di_actual_data d))
  | DnResponse d =>
      dr_actual_data d ≠ inl tt →
      buffer = response_data (build_response_notification (dr_message_id d)
        (dr_index_in_list d) (dr_actual_data d))
  | DnProcessDestroyed d =>
      buffer = destroyed_data
        (build_process_destroyed_notification (dd_pid d) (dd_index_in_list d))
  end.
Proof.
  unfold decode_notification. intros Hn.
  case_bool_decide; [done|]. inv_step Hn.
  destruct x; try done; inv_done.
  - by apply decode_interface_inv.
  - intros. by apply decode_response_inv.
  - by apply decode_destroyed_inv.
Qed.
