(* ===== verification/Calls.v ===== *)
(** Parsing the parameters of the hardcoded functions
    ([core/src/scheduler/extrinsics/calls.rs]).

    A program calls these functions with pointers into its own memory; the
    parsers read the memory of the process through [read_memory], which is a
    parameter here: the offset and the size, and the bytes unless the range is
    out of bounds. *)
From S2P Require Import Prelude WasmValue Ffi.

(** How a process is waiting for messages. *)
Record NotificationWait := {
  notifs_ids : list MessageId;
  notifs_ids_ptr : Z;
  out_pointer : Z;
  out_size : Z;
  block : bool;
}.

(** How a process is emitting a message. *)
Record EmitMessage := {
  em_interface : InterfaceHash;
  message_id_write : option Z;
  em_message : EncodedMessage;
  em_allow_delay : bool;
}.

(** How a process is emitting a response. *)
Record EmitAnswer := {
  ea_message_id : MessageId;
  ea_response : EncodedMessage;
}.

Inductive ExtrinsicNextNotificationErr :=
  | TooManyNotificationIds (requested : Z)
  | NextNotification_BadParameter.

Inductive ExtrinsicEmitMessageErr := EmitMessage_BadParameter.
Inductive ExtrinsicEmitAnswerErr := EmitAnswer_BadParameter.
Inductive ExtrinsicEmitMessageErrorErr := EmitMessageError_BadParameter.
Inductive ExtrinsicCancelMessageErr := CancelMessage_BadParameter.

(** [uN::from_le_bytes(<[u8; n]>::try_from(bs).unwrap())]. *)
Definition uint_from_le_bytes (n : nat) (bs : bytes) : outcome Z :=
  if bool_decide (length bs = n) then Done (le_combine bs) else Panic PUnwrap.

Section calls.
Context (read_memory : Z → Z → outcome (option bytes)).

(** [params[i].into_i32().ok_or(err)?]. *)
Definition param_i32 {E} (err : E) (params : list WasmValue) (i : nat) : fallible E Z :=
  v ← lift (index params i); ok_or err (into_i32 v).

(** [u32::try_from(params[i].into_i32().ok_or(err)?).map_err(|_| err)?]. *)
Definition param_u32 {E} (err : E) (params : list WasmValue) (i : nat) : fallible E Z :=
  v ← param_i32 err params i; ok_or err (u32_try_from v).

(** [for (o, i) in out.iter_mut().zip(mem.chunks(8))]. *)
Fixpoint fill_ids (out : list MessageId) (chunks : list bytes) : outcome (list MessageId) :=
  match out, chunks with
  | o :: out, i :: chunks =>
      id ← uint_from_le_bytes 8 i; rest ← fill_ids out chunks; Done (id :: rest)
  | _, _ => Done out
  end.

Definition parse_extrinsic_next_notification (params : list WasmValue) :
    fallible ExtrinsicNextNotificationErr NotificationWait :=
  let bad := NextNotification_BadParameter in
  _ ← lift (assert_ (bool_decide (length params = 5%nat)));
  notifs_ids_ptr ← param_u32 bad params 0;
  len ← param_u32 bad params 1;
  if bool_decide (512 ≤ len) then fail (TooManyNotificationIds len) else
  size ← lift (len *u32 8)%rust;
  mem ← map_err bad (read_memory notifs_ids_ptr size);
  len_usize ← ok_or (TooManyNotificationIds len) (usize_try_from len);
  notifs_ids ← lift (fill_ids (replicate (Z.to_nat len_usize) 0) (chunks 8 mem));
  out_pointer ← param_u32 bad params 2;
  out_size ← param_u32 bad params 3;
  block ← param_i32 bad params 4;
  mret {| notifs_ids := notifs_ids; notifs_ids_ptr := notifs_ids_ptr;
          out_pointer := out_pointer; out_size := out_size;
          block := negb (bool_decide (block = 0)) |}.

(** The loop [for buf_n in 0..num_bufs], [remaining] iterations of it. *)
Fixpoint read_bufs (addr : Z) (buf_n : Z) (remaining : nat) (out_msg : bytes) :
    fallible ExtrinsicEmitMessageErr bytes :=
  let bad := EmitMessage_BadParameter in
  match remaining with
  | O => mret out_msg
  | S remaining =>
      off ← lift (8 *u32 buf_n)%rust;
      ptr_addr ← lift (addr +u32 off)%rust;
      sub_buf_ptr ← map_err bad (read_memory ptr_addr 4);
      sub_buf_ptr ← lift (uint_from_le_bytes 4 sub_buf_ptr);
      sz_addr ← lift (ptr_addr +u32 4)%rust;
      sub_buf_sz ← map_err bad (read_memory sz_addr 4);
      sub_buf_sz ← lift (uint_from_le_bytes 4 sub_buf_sz);
      sub_buf_usize ← ok_or bad (usize_try_from sub_buf_sz);
      if bool_decide (16 * 1024 * 1024 ≤ Z.of_nat (length out_msg) + sub_buf_usize)
      then Panic PExplicit else
      buf ← map_err bad (read_memory sub_buf_ptr sub_buf_sz);
      read_bufs addr (buf_n + 1) remaining (out_msg ++ buf)
  end.

Definition parse_extrinsic_emit_message (params : list WasmValue) :
    fallible ExtrinsicEmitMessageErr EmitMessage :=
  let bad := EmitMessage_BadParameter in
  _ ← lift (assert_ (bool_decide (length params = 6%nat)));
  interface_addr ← param_u32 bad params 0;
  interface ← map_err bad (read_memory interface_addr 32);
  interface ← ok_or bad (if bool_decide (length interface = 32%nat) then Some interface else None);
  addr ← param_u32 bad params 1;
  num_bufs ← param_u32 bad params 2;
  message ← read_bufs addr 0 (Z.to_nat num_bufs) [];
  needs_answer ← param_i32 bad params 3;
  allow_delay ← param_i32 bad params 4;
  message_id_write ←
    (if negb (bool_decide (needs_answer = 0))
     then (p ← param_u32 bad params 5; mret (Some p)) else mret None);
  mret {| em_interface := interface; message_id_write := message_id_write;
          em_message := message; em_allow_delay := negb (bool_decide (allow_delay = 0)) |}.

Definition parse_extrinsic_emit_answer (params : list WasmValue) :
    fallible ExtrinsicEmitAnswerErr EmitAnswer :=
  let bad := EmitAnswer_BadParameter in
  _ ← lift (assert_ (bool_decide (length params = 3%nat)));
  id_addr ← param_u32 bad params 0;
  buf ← map_err bad (read_memory id_addr 8);
  message_id ← lift (uint_from_le_bytes 8 buf);
  addr ← param_u32 bad params 1;
  sz ← param_u32 bad params 2;
  response ← map_err bad (read_memory addr sz);
  mret {| ea_message_id := message_id; ea_response := response |}.

Definition parse_extrinsic_emit_message_error (params : list WasmValue) :
    fallible ExtrinsicEmitMessageErrorErr MessageId :=
  let bad := EmitMessageError_BadParameter in
  _ ← lift (assert_ (bool_decide (length params = 1%nat)));
  addr ← param_u32 bad params 0;
  buf ← map_err bad (read_memory addr 8);
  lift (uint_from_le_bytes 8 buf).

Definition parse_extrinsic_cancel_message (params : list WasmValue) :
    fallible ExtrinsicCancelMessageErr MessageId :=
  let bad := CancelMessage_BadParameter in
  _ ← lift (assert_ (bool_decide (length params = 1%nat)));
  addr ← param_u32 bad params 0;
  buf ← map_err bad (read_memory addr 8);
  lift (uint_from_le_bytes 8 buf).

End calls.

(** * What the parsers read *)

Section parsers.
Context (read : Z → Z → outcome (option bytes)).

(** The memory of the process has [bs] at [p]. *)
Definition mem_holds (p : Z) (bs : bytes) : Prop :=
  read p (Z.of_nat (length bs)) = Done (Some bs).

(** A pointer or a size that a program can pass: [u32::try_from] refuses an
    [i32] whose sign bit is set. *)
Definition is_ptr (z : Z) : Prop := 0 ≤ z < 2 ^ 31.

(** Reading never stops the kernel, and a read that succeeds gives as many
    bytes as were asked for. *)
Definition read_ok : Prop :=
  ∀ p n, ∃ r, read p n = Done r ∧ ∀ bs, r = Some bs → Z.of_nat (length bs) = n.

Lemma u32_try_from_ptr z : is_ptr z → u32_try_from z = Some z.
Proof. intros Hz. apply uint_try_from_Some. unfold is_ptr, u32_max in *. lia. Qed.

Lemma u64_from_le_bytes z : is_u64 z → uint_from_le_bytes 8 (u64_to_le_bytes z) = Done z.
Proof.
  intros. unfold uint_from_le_bytes. rewrite bool_decide_true by apply length_u64_le.
  by rewrite u64_le_combine.
Qed.

Lemma u32_from_le_bytes z : is_u32 z → uint_from_le_bytes 4 (u32_to_le_bytes z) = Done z.
Proof.
  intros. unfold uint_from_le_bytes. rewrite bool_decide_true by apply length_u32_le.
  by rewrite u32_le_combine.
Qed.

Lemma length_concat_ids ids : length (concat (u64_to_le_bytes <$> ids)) = (8 * length ids)%nat.
Proof.
  induction ids as [|id ids IH]; [done|]. rewrite fmap_cons. cbn [concat].
  rewrite length_app, length_u64_le, IH. simpl. lia.
Qed.

Lemma fill_ids_ids ids (out : list MessageId) :
  Forall is_u64 ids → length out = length ids →
  fill_ids out (u64_to_le_bytes <$> ids) = Done ids.
Proof.
  intros Hids. revert out. induction Hids as [|id ids Hid _ IH]; intros [|o out] Hlen;
    simplify_eq/=; [done|].
  rewrite u64_from_le_bytes by done. simpl. by rewrite IH.
Qed.

(** [parse_extrinsic_next_notification] on the call that a program makes
    with a pointer to [ids], little-endian, in its memory: the kernel obtains
    exactly these identifiers, in order, and the pointers, the size and the
    blocking flag as they were passed; from 512 identifiers on, the call is
    refused before the memory is read. *)
Theorem parse_next_notification_ok ptr ids out sz blk :
  is_ptr ptr → is_ptr out → is_ptr sz → Z.of_nat (length ids) < 2 ^ 31 → Forall is_u64 ids →
  mem_holds ptr (concat (u64_to_le_bytes <$> ids)) →
  parse_extrinsic_next_notification read
    [I32 ptr; I32 (Z.of_nat (length ids)); I32 out; I32 sz; I32 blk]
  = Done (if decide (Z.of_nat (length ids) < 512) then
      inr {| notifs_ids := ids; notifs_ids_ptr := ptr; out_pointer := out; out_size := sz;
             block := bool_decide (blk ≠ 0) |}
    else inl (TooManyNotificationIds (Z.of_nat (length ids)))).
Proof.
  intros Hptr Hout Hsz Hlen Hids Hmem.
  assert (is_ptr (Z.of_nat (length ids))) as Hn by (unfold is_ptr; lia).
  unfold parse_extrinsic_next_notification, param_u32, param_i32. cbn [length].
  rewrite bool_decide_true by done. unfold mbind, fallible_bind. simpl.
  rewrite (u32_try_from_ptr ptr), (u32_try_from_ptr _ Hn) by done. simpl.
  case_decide as H512; [|by rewrite bool_decide_true by lia].
  rewrite bool_decide_false by lia. unfold u32_mul.
  rewrite (proj2 (uint_checked_Done _ _ (Z.of_nat (length ids) * 8))) by (unfold u32_max; lia).
  simpl. unfold mem_holds in Hmem. rewrite length_concat_ids in Hmem.
  replace (Z.of_nat (length ids) * 8) with (Z.of_nat (8 * length ids)) by lia.
  rewrite Hmem. simpl.
  rewrite (proj2 (uint_try_from_Some usize_max _ (Z.of_nat (length ids))))
    by (unfold usize_max, u64_max; lia). simpl.
  rewrite (chunks_concat 8) by (lia || apply Forall_fmap, Forall_true; intros; apply length_u64_le).
  rewrite fill_ids_ids by (try done; rewrite length_replicate; lia). simpl.
  rewrite (u32_try_from_ptr out), (u32_try_from_ptr sz) by done. simpl.
  unfold mret, fallible_ret. do 3 f_equal. repeat case_bool_decide; naive_solver.
Qed.

(** The memory has, at [addr], an array of (pointer, size) pairs that
    designate [bufs]. *)
Fixpoint bufs_hold (addr : Z) (bufs : list (Z * bytes)) : Prop :=
  match bufs with
  | [] => True
  | (p, b) :: bufs =>
      is_u32 p ∧ mem_holds addr (u32_to_le_bytes p) ∧
      mem_holds (addr + 4) (u32_to_le_bytes (Z.of_nat (length b))) ∧ mem_holds p b ∧
      bufs_hold (addr + 8) bufs
  end.

Lemma mem_holds_u32 a z : mem_holds a (u32_to_le_bytes z) → read a 4 = Done (Some (u32_to_le_bytes z)).
Proof. unfold mem_holds. by rewrite length_u32_le. Qed.

Lemma read_bufs_ok addr bufs n msg :
  0 ≤ addr → 0 ≤ n → addr + 8 * n + 8 * Z.of_nat (length bufs) ≤ 2 ^ 32 →
  Z.of_nat (length (msg ++ concat bufs.*2)) < 16 * 1024 * 1024 →
  bufs_hold (addr + 8 * n) bufs →
  read_bufs read addr n (length bufs) msg = Done (inr (msg ++ concat bufs.*2)).
Proof.
  intros Haddr. revert n msg. induction bufs as [|[p b] bufs IH]; intros n msg Hn Hend Hlen Hb.
  { simpl. by rewrite app_nil_r. }
  destruct Hb as (Hp & H1 & H2 & H3 & Hb). rewrite fmap_cons in Hlen |- *. cbn [concat snd] in Hlen |- *.
  rewrite !length_app in Hlen. cbn [length] in Hend |- *. cbn [read_bufs].
  unfold u32_mul, u32_add. unfold mbind, fallible_bind.
  rewrite (proj2 (uint_checked_Done _ _ (8 * n))) by (unfold u32_max; lia). cbn [lift].
  rewrite (proj2 (uint_checked_Done _ _ (addr + 8 * n))) by (unfold u32_max; lia). cbn [lift].
  rewrite (mem_holds_u32 _ _ H1). cbn [map_err]. rewrite u32_from_le_bytes by done. cbn [lift].
  rewrite (proj2 (uint_checked_Done _ _ (addr + 8 * n + 4))) by (unfold u32_max; lia). cbn [lift].
  rewrite (mem_holds_u32 _ _ H2). cbn [map_err].
  rewrite u32_from_le_bytes by (unfold is_u32; lia). cbn [lift].
  rewrite (proj2 (uint_try_from_Some usize_max _ (Z.of_nat (length b))))
    by (unfold usize_max, u64_max; lia). cbn [ok_or].
  rewrite bool_decide_false by lia. rewrite H3. cbn [map_err].
  rewrite IH; [by rewrite <-app_assoc|lia|lia|rewrite !length_app; lia|].
  by replace (addr + 8 * (n + 1)) with (addr + 8 * n + 8) by lia.
Qed.

Lemma parse_emit_message_sound hash_ptr hash addr bufs needs delay id_ptr :
  is_ptr hash_ptr → is_ptr addr → is_ptr id_ptr → Z.of_nat (length bufs) < 2 ^ 28 →
  is_hash hash → mem_holds hash_ptr hash → bufs_hold addr bufs →
  Z.of_nat (length (concat bufs.*2)) < 16 * 1024 * 1024 →
  parse_extrinsic_emit_message read
    [I32 hash_ptr; I32 addr; I32 (Z.of_nat (length bufs)); I32 needs; I32 delay; I32 id_ptr]
  = Done (inr {| em_interface := hash;
                 message_id_write := if decide (needs = 0) then None else Some id_ptr;
                 em_message := concat bufs.*2;
                 em_allow_delay := bool_decide (delay ≠ 0) |}).
Proof.
  intros Hhp Haddr Hid Hn Hhash Hmem Hbufs Hlen.
  assert (is_ptr (Z.of_nat (length bufs))) as Hnp by (unfold is_ptr; lia).
  unfold parse_extrinsic_emit_message, param_u32, param_i32. cbn [length].
  rewrite bool_decide_true by done. unfold mbind, fallible_bind. simpl.
  rewrite (u32_try_from_ptr hash_ptr) by done. simpl.
  unfold mem_holds in Hmem. rewrite Hhash in Hmem. change (Z.of_nat 32) with 32 in Hmem.
  rewrite Hmem. simpl.
  rewrite bool_decide_true by done. simpl.
  rewrite (u32_try_from_ptr addr), (u32_try_from_ptr _ Hnp) by done. simpl. rewrite Nat2Z.id.
  unfold is_ptr in Haddr. rewrite read_bufs_ok; [|lia|lia|lia|done|].
  2:{ by replace (addr + 8 * 0) with addr by lia. }
  simpl. unfold mret, fallible_ret.
  case_decide; case_bool_decide; simplify_eq; try done; simpl.
  - do 3 f_equal. repeat case_bool_decide; naive_solver.
  - rewrite (u32_try_from_ptr id_ptr) by done. simpl.
    do 3 f_equal. repeat case_bool_decide; naive_solver.
Qed.

(** [parse_extrinsic_emit_message] on the call that a program makes with
    an array of (pointer, size) pairs: the message is the concatenation of the
    buffers they designate, in order, the interface is the hash at the first
    pointer, and the address at which to write the message identifier is taken
    exactly when the program asks for an answer. *)
Theorem parse_emit_message_ok hash_ptr hash addr bufs needs delay id_ptr :
  is_ptr hash_ptr → is_ptr addr → is_ptr id_ptr → Z.of_nat (length bufs) < 2 ^ 28 →
  is_hash hash → mem_holds hash_ptr hash → bufs_hold addr bufs →
  Z.of_nat (length (concat bufs.*2)) < 16 * 1024 * 1024 →
  parse_extrinsic_emit_message read
    [I32 hash_ptr; I32 addr; I32 (Z.of_nat (length bufs)); I32 needs; I32 delay; I32 id_ptr]
  = Done (inr {| em_interface := hash;
                 message_id_write := if decide (needs = 0) then None else Some id_ptr;
                 em_message := concat bufs.*2;
                 em_allow_delay := bool_decide (delay ≠ 0) |}).
Proof. apply parse_emit_message_sound. Qed.

(** ** Which calls stop the kernel *)

(** The arguments that the interpreter passes: [n] values of type [i32]. *)
Definition i32_params (n : nat) (params : list WasmValue) : Prop :=
  ∃ zs, params = I32 <$> zs ∧ length zs = n.

Lemma wp_param_u32 P E (e : E) n params i (Q : E + Z → Prop) :
  i32_params n params → (i < n)%nat → Q (inl e) → (∀ z, 0 ≤ z < 2 ^ 32 → Q (inr z)) →
  wp P (param_u32 e params i) Q.
Proof.
  intros (zs & -> & <-) Hi He Hz. unfold param_u32, param_i32, index.
  rewrite list_lookup_fmap. destruct (zs !! i) as [z|] eqn:Hl.
  - simpl. destruct (u32_try_from z) eqn:Hu; simpl; [|done].
    apply uint_try_from_Some in Hu as [-> ?]. apply Hz. unfold u32_max in *. lia.
  - apply lookup_ge_None in Hl. lia.
Qed.

Lemma wp_param_i32 P E (e : E) n params i (Q : E + Z → Prop) :
  i32_params n params → (i < n)%nat → (∀ z, Q (inr z)) → wp P (param_i32 e params i) Q.
Proof.
  intros (zs & -> & <-) Hi Hz. unfold param_i32, index. rewrite list_lookup_fmap.
  destruct (zs !! i) as [z|] eqn:Hl; [apply Hz|]. apply lookup_ge_None in Hl. lia.
Qed.

Lemma wp_read P E (e : E) p n (Q : E + bytes → Prop) :
  read_ok → Q (inl e) → (∀ bs, Z.of_nat (length bs) = n → Q (inr bs)) →
  wp P (map_err e (read p n)) Q.
Proof.
  intros Hread He Hbs. destruct (Hread p n) as ([bs|] & -> & Hlen); simpl; auto.
Qed.

Lemma wp_param_count P E n params (Q : E + unit → Prop) :
  i32_params n params → Q (inr tt) → wp P (lift (assert_ (bool_decide (length params = n)))) Q.
Proof.
  intros (zs & -> & <-) HQ. rewrite bool_decide_true by apply length_fmap. done.
Qed.

Lemma wp_from_le P n bs (Q : Z → Prop) :
  length bs = n → (∀ z, Q z) → wp P (uint_from_le_bytes n bs) Q.
Proof. intros Hn HQ. unfold uint_from_le_bytes. rewrite bool_decide_true by done. apply HQ. Qed.

Lemma wp_fill_ids P out (chunks : list bytes) (Q : list MessageId → Prop) :
  Forall (λ c, length c = 8%nat) chunks → (∀ ids, length ids = length out → Q ids) →
  wp P (fill_ids out chunks) Q.
Proof.
  intros Hc. revert out Q. induction Hc as [|c chunks Hlen _ IH]; intros out Q HQ.
  { destruct out; by apply HQ. }
  destruct out as [|o out]; [by apply HQ|]. cbn [fill_ids].
  apply wp_bind, wp_from_le; [done|]. intros id. apply wp_bind, IH. intros ids Hids.
  apply HQ. simpl. by f_equal.
Qed.

Lemma wp_ok_or P E A (e : E) (o : option A) (Q : E + A → Prop) :
  Q (inl e) → (∀ a, o = Some a → Q (inr a)) → wp P (ok_or e o) Q.
Proof. destruct o; simpl; auto. Qed.

(** One step of a parser on parameters of the right types. *)
Ltac wp_step :=
  lazymatch goal with
  | |- wp _ (mret _) _ => exact I
  | |- wp _ (lift (assert_ (bool_decide (length _ = ?n)))) _ =>
      apply (wp_param_count _ _ n); [assumption|]
  | |- wp _ (param_u32 _ _ _) _ => eapply wp_param_u32; [eassumption|lia|exact I|intros]
  | |- wp _ (param_i32 _ _ _) _ => eapply wp_param_i32; [eassumption|lia|intros]
  | |- wp _ (map_err _ (read _ _)) _ => eapply wp_read; [eassumption|exact I|intros]
  | |- wp _ (ok_or _ _) _ => apply wp_ok_or; [exact I|intros]
  | |- wp _ (lift (uint_from_le_bytes _ _)) _ => apply wp_lift, wp_from_le; [lia|intros]
  | |- wp _ (mbind _ _) _ => apply wp_fbind
  end.

Lemma next_notification_returns params :
  read_ok → i32_params 5 params →
  wp no_panic (parse_extrinsic_next_notification read params) (λ _, True).
Proof.
  intros Hread Hp. unfold parse_extrinsic_next_notification.
  do 6 wp_step. case_bool_decide; [exact I|]. wp_step. apply wp_lift. unfold u32_mul.
  eapply wp_Done; [apply uint_checked_Done; split; [done|unfold u32_max; lia]|].
  do 5 wp_step. apply wp_lift, wp_fill_ids.
  - eapply (chunks_exact 8 (Z.to_nat z0)); lia.
  - intros. repeat wp_step.
Qed.

Lemma emit_answer_returns params :
  read_ok → i32_params 3 params →
  wp no_panic (parse_extrinsic_emit_answer read params) (λ _, True).
Proof. intros. unfold parse_extrinsic_emit_answer. repeat wp_step. Qed.

Lemma emit_message_error_returns params :
  read_ok → i32_params 1 params →
  wp no_panic (parse_extrinsic_emit_message_error read params) (λ _, True).
Proof. intros. unfold parse_extrinsic_emit_message_error. repeat wp_step. exact I. Qed.

Lemma cancel_message_returns params :
  read_ok → i32_params 1 params →
  wp no_panic (parse_extrinsic_cancel_message read params) (λ _, True).
Proof. intros. unfold parse_extrinsic_cancel_message. repeat wp_step. exact I. Qed.

(** An address that overflows, or the length limit of [panic!("Max message
    length reached")]. *)
Definition emit_panics (r : panic_reason) : Prop := r = POverflow ∨ r = PExplicit.

Lemma wp_uint_checked max z (Q : Z → Prop) :
  (0 ≤ z ≤ max → Q z) → wp emit_panics (uint_checked max z) Q.
Proof.
  intros HQ. unfold uint_checked, uint_try_from. case_bool_decide; [by apply HQ|by left].
Qed.

Lemma read_bufs_stops addr n k msg :
  read_ok →
  wp emit_panics (read_bufs read addr n k msg) (λ r, match r with
    | inl _ => True
    | inr out => length out = length msg ∨ Z.of_nat (length out) < 16 * 1024 * 1024 end).
Proof.
  intros Hread. revert n msg. induction k as [|k IH]; intros n msg; cbn [read_bufs]; [by left|].
  wp_step. apply wp_lift, wp_uint_checked. intros _.
  wp_step. apply wp_lift, wp_uint_checked. intros _.
  do 4 wp_step. wp_step. apply wp_lift, wp_uint_checked. intros _.
  do 6 wp_step. case_bool_decide as Hlen; [by right|].
  wp_step. eapply wp_read; [done|done|]. intros buf Hbuf.
  match goal with Hx : uint_try_from _ _ = Some _ |- _ => apply uint_try_from_Some in Hx as [-> ?] end.
  eapply wp_mono; [apply IH|]. intros [e|out] Hout; [done|].
  rewrite length_app in Hout. destruct Hout; [right; lia|by right].
Qed.

Lemma emit_message_stops params :
  read_ok → i32_params 6 params →
  wp emit_panics (parse_extrinsic_emit_message read params) (λ r, match r with
    | inl _ => True
    | inr m => Z.of_nat (length (em_message m)) < 16 * 1024 * 1024 ∧ is_hash (em_interface m) end).
Proof.
  intros Hread Hp.
  unfold parse_extrinsic_emit_message. do 13 wp_step.
  eapply wp_mono; [by apply read_bufs_stops|]. intros [e|msg] Hmsg; [done|]. do 4 wp_step.
  assert (Z.of_nat (length msg) < 16 * 1024 * 1024) by (simpl in Hmsg; lia).
  match goal with Hx : (if bool_decide (length _ = 32%nat) then _ else _) = Some ?i |- _ =>
    assert (is_hash i) by (revert Hx; case_bool_decide; [intros [= <-]|]; done) end.
  wp_step. destruct (bool_decide (_ = 0)); cbn [negb]; [by split|].
  wp_step. eapply wp_param_u32; [eassumption|lia|exact I|]. intros. by split.
Qed.

(** On arguments of the types that the interpreter enforces, and with
    reads that fail cleanly when they are out of bounds, a program cannot stop
    the kernel through [next_notification], [emit_answer],
    [emit_message_error] or [cancel_message], whatever the values it passes;
    [emit_message] stops the kernel only on an array of buffers whose address
    overflows or a message of 16 MiB or more, and a message it accepts is
    shorter than that. *)
Theorem parse_calls_stop :
  read_ok →
  (∀ params, i32_params 5 params → returns (parse_extrinsic_next_notification read params)) ∧
  (∀ params, i32_params 3 params → returns (parse_extrinsic_emit_answer read params)) ∧
  (∀ params, i32_params 1 params → returns (parse_extrinsic_emit_message_error read params)) ∧
  (∀ params, i32_params 1 params → returns (parse_extrinsic_cancel_message read params)) ∧
  (∀ params, i32_params 6 params →
    wp emit_panics (parse_extrinsic_emit_message read params) (λ r, match r with
      | inl _ => True
      | inr m => Z.of_nat (length (em_message m)) < 16 * 1024 * 1024 ∧
          is_hash (em_interface m) end)).
Proof.
  intros Hread. split_and!; intros params Hp.
  1-4: eapply wp_returns; eauto using next_notification_returns, emit_answer_returns,
    emit_message_error_returns, cancel_message_returns.
  by apply emit_message_stops.
Qed.

End parsers.
