(* ===== verification/Messages.v ===== *)
(** Messages of the interfaces that the kernel itself uses
    ([interfaces/log/src/ffi.rs], [interfaces/random/src/ffi.rs],
    [interfaces/time/src/ffi.rs], [interfaces/system-time/src/ffi.rs],
    [interfaces/interface/src/ffi.rs], [interfaces/loader/src/ffi.rs]).

    Log messages have their own encoding, which is modelled in full.  The
    others are encoded by [parity_scale_codec], which is outside the
    repository: it is the class [Scale]. *)
From S2P Require Import Prelude Ffi.

(** * UTF-8 *)

(** [str::from_utf8]: the well-formed byte sequences of the Unicode standard
    (no overlong form, no surrogate, nothing above U+10FFFF). *)
Definition between (lo hi : Z) (b : byte) : bool := bool_decide (lo ≤ byte_to_Z b ≤ hi).
Definition continuation (b : byte) : bool := between 0x80 0xBF b.

Definition utf8_two (a b : byte) : bool := between 0xC2 0xDF a && continuation b.
Definition utf8_three (a b c : byte) : bool :=
  (between 0xE0 0xE0 a && between 0xA0 0xBF b || between 0xE1 0xEC a && continuation b ||
   between 0xED 0xED a && between 0x80 0x9F b || between 0xEE 0xEF a && continuation b) &&
  continuation c.
Definition utf8_four (a b c d : byte) : bool :=
  (between 0xF0 0xF0 a && between 0x90 0xBF b || between 0xF1 0xF3 a && continuation b ||
   between 0xF4 0xF4 a && between 0x80 0x8F b) && continuation c && continuation d.

Fixpoint utf8_valid (s : bytes) : bool :=
  match s with
  | [] => true
  | a :: s1 =>
      if between 0 0x7F a then utf8_valid s1 else
      match s1 with
      | [] => false
      | b :: s2 =>
          if utf8_two a b then utf8_valid s2 else
          match s2 with
          | [] => false
          | c :: s3 =>
              if utf8_three a b c then utf8_valid s3 else
              match s3 with
              | [] => false
              | d :: s4 => utf8_four a b c d && utf8_valid s4
              end
          end
      end
  end.

(** * Logging *)

Module Log.

Definition INTERFACE : InterfaceHash := byte_of_Z <$>
  [ 0xa6; 0xbc; 0x8d; 0xc3; 0x43; 0xbd; 0xdd; 0x3b; 0x44; 0x2f; 0x06; 0x40; 0xa8; 0x40; 0xad; 0x4f;
    0x25; 0x57; 0x23; 0x91; 0x79; 0xc8; 0x16; 0x07; 0x6f; 0xab; 0xa9; 0xd6; 0x38; 0xca; 0x01; 0x8b ].

Inductive Level := Error | Warn | Info | Debug | Trace.

#[global] Instance Level_eq_dec : EqDecision Level.
Proof. solve_decision. Defined.

Definition u8_from_level (level : Level) : byte :=
  match level with
  | Error => Init.Byte.x04
  | Warn => Init.Byte.x03
  | Info => Init.Byte.x02
  | Debug => Init.Byte.x01
  | Trace => Init.Byte.x00
  end.

Definition level_try_from (value : byte) : option Level :=
  match value with
  | Init.Byte.x04 => Some Error
  | Init.Byte.x03 => Some Warn
  | Init.Byte.x02 => Some Info
  | Init.Byte.x01 => Some Debug
  | Init.Byte.x00 => Some Trace
  | _ => None
  end.

Record DecodedLogMessage := { dl_level : Level; buffer : EncodedMessage }.

Definition decode (buffer : EncodedMessage) : fallible unit DecodedLogMessage :=
  if bool_decide (buffer = []) then fail tt else
  first ← lift (index buffer 0);
  level ← ok_or tt (level_try_from first);
  rest ← lift (slice_from buffer 1);
  if utf8_valid rest then mret {| dl_level := level; buffer := buffer |} else fail tt.

Definition message (m : DecodedLogMessage) : outcome bytes :=
  rest ← slice_from (buffer m) 1;
  if utf8_valid rest then Done rest else Panic PUnwrap.

(** The data of the message that [log] emits. *)
Definition log (level : Level) (msg : bytes) : EncodedMessage := [u8_from_level level] ++ msg.

Lemma level_roundtrip level : level_try_from (u8_from_level level) = Some level.
Proof. by destruct level. Qed.

Lemma level_try_from_Some b level : level_try_from b = Some level → b = u8_from_level level.
Proof. by destruct b; intros [= <-]. Qed.

Lemma log_hash : is_hash INTERFACE.
Proof. done. Qed.

Lemma decode_log level msg :
  decode (log level msg) =
  Done (if utf8_valid msg then inr {| dl_level := level; buffer := log level msg |} else inl tt).
Proof.
  unfold decode, log. simpl. rewrite level_roundtrip. simpl.
  unfold slice_from. rewrite drop_0. by destruct (utf8_valid msg).
Qed.

(** What the handler reads is what the program logged, and it never panics:
    a buffer that decodes is the encoding of one level and one string. *)
Lemma decode_inv buf m :
  decode buf = Done (inr m) →
  ∃ msg, utf8_valid msg = true ∧ buf = log (dl_level m) msg ∧ message m = Done msg.
Proof.
  unfold decode. destruct buf as [|b rest]; [done|]. simpl. destruct (level_try_from b) as [l|] eqn:Hl; [|done].
  apply level_try_from_Some in Hl as ->. simpl. unfold slice_from. rewrite drop_0.
  destruct (utf8_valid rest) eqn:Hu; [|done]. simpl. intros [= <-].
  exists rest. split_and!; [done|done|]. unfold message, slice_from. simpl. rewrite drop_0. by rewrite Hu.
Qed.

End Log.

(** * Encoded by the codec *)

Module Random.

Definition INTERFACE : InterfaceHash := byte_of_Z <$>
  [ 0xfb; 0x83; 0xa5; 0x46; 0xfd; 0xf1; 0x50; 0x7a; 0xef; 0x8c; 0xb6; 0x8f; 0xa5; 0x44; 0x49; 0x21;
    0x53; 0xe5; 0x83; 0xda; 0xf0; 0x66; 0xbc; 0x1a; 0xd2; 0x18; 0xfd; 0x00; 0x54; 0x7f; 0xdb; 0x25 ].

(** [len] is a [u16]. *)
Inductive RandomMessage := Generate (len : Z).

Record GenerateResponse := { result : bytes }.

End Random.

Module Time.

Definition INTERFACE : InterfaceHash := byte_of_Z <$>
  [ 0x19; 0x97; 0x70; 0x2f; 0x6f; 0xd9; 0x52; 0xcd; 0xb2; 0xc3; 0x75; 0x1c; 0x11; 0xb4; 0x95; 0x41;
    0x81; 0xa6; 0x4f; 0x91; 0x67; 0x63; 0xb5; 0xb1; 0x8d; 0x31; 0xdf; 0xb1; 0x47; 0x03; 0xa6; 0xbf ].

(** The clock values are [u128]s. *)
Inductive TimeMessage := GetMonotonic | WaitMonotonic (value : Z).

End Time.

Module SystemTime.

Definition INTERFACE : InterfaceHash := byte_of_Z <$>
  [ 0xc2; 0xf9; 0xf8; 0xc5; 0xd5; 0xcb; 0x84; 0xb5; 0xc5; 0xfe; 0x34; 0x1d; 0x21; 0xb2; 0xc3; 0x6f;
    0xed; 0xfb; 0x86; 0xd1; 0xdb; 0xd6; 0x76; 0x41; 0x07; 0x02; 0x49; 0xeb; 0xfe; 0x1b; 0xa7; 0xc4 ].

Inductive TimeMessage := GetSystem.

End SystemTime.

(** Registration of interfaces. *)
Module Interface.

Definition INTERFACE : InterfaceHash := byte_of_Z <$>
  [ 0x49; 0x6e; 0x56; 0x14; 0x8c; 0xd4; 0x2b; 0xc3; 0x9b; 0x4e; 0xbf; 0x5e; 0xb6; 0x2c; 0x60; 0x4d;
    0x7d; 0xd5; 0x70; 0x92; 0x4d; 0x4f; 0x70; 0xdf; 0xb3; 0xda; 0xf6; 0xfe; 0xdc; 0x65; 0x93; 0x8a ].

Inductive InterfaceMessage := Register (hash : InterfaceHash).

Inductive InterfaceRegisterError := AlreadyRegistered.

Record InterfaceRegisterResponse := { result : InterfaceRegisterError + unit }.

Lemma interface_interface_hash : is_hash INTERFACE.
Proof. done. Qed.

End Interface.

(** Loading of programs. *)
Module Loader.

Definition INTERFACE : InterfaceHash := byte_of_Z <$>
  [ 0x1c; 0x72; 0xb5; 0x18; 0x7f; 0x73; 0x52; 0xfd; 0xf7; 0xa7; 0x81; 0xe2; 0xa8; 0x46; 0x51; 0xd7;
    0xb3; 0xc6; 0x2d; 0x24; 0x31; 0x88; 0x96; 0x95; 0x6e; 0xfc; 0x7d; 0x4d; 0x86; 0x3f; 0xff; 0xa6 ].

(** The hash is a [[u8; 32]]. *)
Inductive LoaderMessage := Load (hash : bytes).

Record LoadResponse := { result : unit + bytes }.

Lemma loader_hash : is_hash INTERFACE.
Proof. done. Qed.

End Loader.

(** [parity_scale_codec] at the types of these messages: [Encode::encode] and
    [DecodeAll::decode_all]. *)
Class Scale := {
  encode_random : Random.RandomMessage → EncodedMessage;
  encode_time : Time.TimeMessage → EncodedMessage;
  encode_system_time : SystemTime.TimeMessage → EncodedMessage;
  decode_u128 : EncodedMessage → option Z;
  decode_generate_response : EncodedMessage → option Random.GenerateResponse;
  decode_interface_message : EncodedMessage → option Interface.InterfaceMessage;
  encode_register_response : Interface.InterfaceRegisterResponse → EncodedMessage;
  encode_loader : Loader.LoaderMessage → EncodedMessage;
  decode_load_response : EncodedMessage → option Loader.LoadResponse;
}.

(** A decoded [u128] is in range, and a decoded hash has its 32 bytes. *)
Class ScaleLaws `{Scale} := {
  decode_u128_range : ∀ bs v, decode_u128 bs = Some v → 0 ≤ v < 2 ^ 128;
  decode_interface_hash : ∀ bs h,
    decode_interface_message bs = Some (Interface.Register h) → is_hash h;
}.
