(* ===== verification/Vm.v ===== *)
(** The process state machine ([core/src/scheduler/vm.rs]).

    A [ProcessStateMachine] is one WASM instance with its threads.  The
    interpreter is the [wasmi] crate, which is not part of the repository: it
    is the class [Wasmi], whose operations are those that [vm.rs] calls. *)
From S2P Require Import Prelude WasmValue.

(** What [wasmi::ModuleInstance::new] asks of the embedder for each import of
    a module. *)
Record ImportResolver (Error FuncRef GlobalRef MemoryRef TableRef : Type) := {
  resolve_func : string → string → wasmi_Signature → Error + FuncRef;
  resolve_global : string → string → Error + GlobalRef;
  resolve_memory : string → string → Error + MemoryRef;
  resolve_table : string → string → Error + TableRef;
}.
Arguments Build_ImportResolver {_ _ _ _ _}.
Arguments resolve_func {_ _ _ _ _}.
Arguments resolve_global {_ _ _ _ _}.
Arguments resolve_memory {_ _ _ _ _}.
Arguments resolve_table {_ _ _ _ _}.

(** [wasmi::ExternVal]. *)
Inductive ExternVal (FuncRef GlobalRef MemoryRef TableRef : Type) :=
  | EvFunc (f : FuncRef)
  | EvGlobal (g : GlobalRef)
  | EvMemory (m : MemoryRef)
  | EvTable (t : TableRef).
Arguments EvFunc {_ _ _ _}.
Arguments EvGlobal {_ _ _ _}.
Arguments EvMemory {_ _ _ _}.
Arguments EvTable {_ _ _ _}.

(** [wasmi::Trap]: raised by an external function, or by the code itself. *)
Inductive trap (H T : Type) := TrapHost (err : H) | TrapOther (t : T).
Arguments TrapHost {_ _}.
Arguments TrapOther {_ _}.

(** [wasmi::ResumableError]. *)
Inductive ResumableError (H T : Type) :=
  | ReAlreadyStarted
  | ReNotResumable
  | ReTrap (t : trap H T).
Arguments ReAlreadyStarted {_ _}.
Arguments ReNotResumable {_ _}.
Arguments ReTrap {_ _}.

(** [struct Interrupt] of [Thread::run]: the external function that the code
    calls, and its arguments. *)
Record Interrupt := { int_index : nat; int_args : list wasmi_RuntimeValue }.

(** [wasmi::Externals::invoke_index]. *)
Definition Externals (T : Type) : Type :=
  nat → list wasmi_RuntimeValue → trap Interrupt T + option wasmi_RuntimeValue.

(** The interpreter.  [Store] is everything that a [ModuleRef] points at: the
    globals, the memory and the tables of one instance, which running code
    changes. *)
Class Wasmi := {
  wasmi_Module : Type;
  wasmi_Store : Type;
  wasmi_FuncRef : Type;
  wasmi_GlobalRef : Type;
  wasmi_MemoryRef : Type;
  wasmi_TableRef : Type;
  wasmi_FuncInvocation : Type;
  wasmi_Error : Type;
  wasmi_Trap : Type;
  (** [wasmi::Error::Instantiation]. *)
  Error_Instantiation : string → wasmi_Error;
  (** The instance, and whether the module has a [start] function. *)
  ModuleInstance_new : wasmi_Module →
    ImportResolver wasmi_Error wasmi_FuncRef wasmi_GlobalRef wasmi_MemoryRef wasmi_TableRef →
    wasmi_Error + wasmi_Store * bool;
  FuncInstance_alloc_host : wasmi_Signature → nat → wasmi_FuncRef;
  export_by_name : wasmi_Store → string →
    option (ExternVal wasmi_FuncRef wasmi_GlobalRef wasmi_MemoryRef wasmi_TableRef);
  TableRef_get : wasmi_Store → wasmi_TableRef → Z → option (option wasmi_FuncRef);
  FuncInstance_invoke_resumable : wasmi_Store → wasmi_FuncRef → list wasmi_RuntimeValue →
    option wasmi_FuncInvocation;
  resumable_value_type : wasmi_FuncInvocation → option wasmi_ValueType;
  start_execution : wasmi_Store → wasmi_FuncInvocation → Externals wasmi_Trap →
    (ResumableError Interrupt wasmi_Trap + option wasmi_RuntimeValue) *
    wasmi_FuncInvocation * wasmi_Store;
  resume_execution : wasmi_Store → wasmi_FuncInvocation → option wasmi_RuntimeValue →
    Externals wasmi_Trap →
    (ResumableError Interrupt wasmi_Trap + option wasmi_RuntimeValue) *
    wasmi_FuncInvocation * wasmi_Store;
  MemoryRef_get : wasmi_Store → wasmi_MemoryRef → Z → Z → option bytes;
  MemoryRef_set : wasmi_Store → wasmi_MemoryRef → Z → bytes → option wasmi_Store;
}.

(** The type of a value of the interpreter. *)
Definition runtime_ty (v : wasmi_RuntimeValue) : wasmi_ValueType :=
  match v with RI32 _ => WI32 | RI64 _ => WI64 | RF32 _ => WF32 | RF64 _ => WF64 end.

(** A function that was allocated by the embedder. *)
Definition is_host_func `{Wasmi} (f : wasmi_FuncRef) : Prop :=
  ∃ sig i, f = FuncInstance_alloc_host sig i.

(** What the interpreter's documentation promises of execution.
    [exec_fresh e]: [e] is an invocation of a function of a module, and has not
    started.  [exec_resumable e sig]: such an [e] waits for the result of an
    external function of signature [sig].  [host_func s i sig]: instance [s] can
    call the external function that was allocated with index [i] and signature
    [sig].  The invocation of a function of the embedder calls it, and cannot
    be resumed. *)
Class WasmiExecLaws `{Wasmi} := {
  exec_fresh : wasmi_FuncInvocation → Prop;
  exec_resumable : wasmi_FuncInvocation → wasmi_Signature → Prop;
  host_func : wasmi_Store → nat → wasmi_Signature → Prop;
  resumable_type : ∀ e sig, exec_resumable e sig →
    resumable_value_type e = wsig_return_type sig;
  invoke_fresh : ∀ s f ps e, FuncInstance_invoke_resumable s f ps = Some e →
    ¬ is_host_func f → exec_fresh e;
  start_law : ∀ s e ext r e' s',
    start_execution s e ext = (r, e', s') → exec_fresh e →
    r ≠ inl ReAlreadyStarted ∧ r ≠ inl ReNotResumable ∧
    (∀ i sig, host_func s' i sig → host_func s i sig) ∧
    (∀ int, r = inl (ReTrap (TrapHost int)) →
      ∃ i args sig, host_func s i sig ∧ runtime_ty <$> args = wsig_params sig ∧
        exec_resumable e' sig ∧ ext i args = inl (TrapHost int));
  resume_law : ∀ s e v ext r e' s' sig,
    resume_execution s e v ext = (r, e', s') → exec_resumable e sig →
    runtime_ty <$> v = wsig_return_type sig →
    r ≠ inl ReAlreadyStarted ∧ r ≠ inl ReNotResumable ∧
    (∀ i sig, host_func s' i sig → host_func s i sig) ∧
    (∀ int, r = inl (ReTrap (TrapHost int)) →
      ∃ i args sig, host_func s i sig ∧ runtime_ty <$> args = wsig_params sig ∧
        exec_resumable e' sig ∧ ext i args = inl (TrapHost int));
  host_start_law : ∀ s sig i ps e s1 ext r e' s',
    FuncInstance_invoke_resumable s (FuncInstance_alloc_host sig i) ps = Some e →
    start_execution s1 e ext = (r, e', s') →
    s' = s1 ∧ r = match ext i ps with inl t => inl (ReTrap t) | inr v => inr v end ∧
    resumable_value_type e' = None ∧
    ∀ s2 v ext, (resume_execution s2 e' v ext).1.1 = inl ReNotResumable;
  (** An instance only calls the external functions its imports resolved to. *)
  instance_host_func : ∀ m r s b i sig,
    ModuleInstance_new m r = inr (s, b) → host_func s i sig →
    ∃ mod_ fld sig', resolve_func r mod_ fld sig' = inr (FuncInstance_alloc_host sig i);
  alloc_host_inj : ∀ sig sig' i i',
    FuncInstance_alloc_host sig i = FuncInstance_alloc_host sig' i' → sig = sig' ∧ i = i';
  set_host_func : ∀ s m off bs s' i sig,
    MemoryRef_set s m off bs = Some s' → host_func s' i sig → host_func s i sig;
}.

(** What is asked of the programs: the functions that a module exports, and
    those of its table, are its own and not its imports.  A program whose entry
    point is an import stops the kernel ([host_entry_stops]). *)
Class ProgramLaws `{Wasmi} := {
  export_own : ∀ s name f, export_by_name s name = Some (EvFunc f) → ¬ is_host_func f;
  table_own : ∀ s t i f, TableRef_get s t i = Some (Some f) → ¬ is_host_func f;
}.

Class WasmiLaws `{Wasmi} := {
  wasmi_exec_laws :: WasmiExecLaws;
  wasmi_program_laws :: ProgramLaws;
}.

(** What the documentation promises of linear memory. *)
Class WasmiMemoryLaws `{Wasmi} := {
  mem_size : wasmi_Store → wasmi_MemoryRef → Z;
  mem_get_Some : ∀ s m off n, 0 ≤ off → 0 ≤ n →
    is_Some (MemoryRef_get s m off n) ↔ off + n ≤ mem_size s m;
  mem_get_length : ∀ s m off n bs,
    MemoryRef_get s m off n = Some bs → Z.of_nat (length bs) = n;
  mem_set_Some : ∀ s m off bs, 0 ≤ off →
    is_Some (MemoryRef_set s m off bs) ↔ off + Z.of_nat (length bs) ≤ mem_size s m;
  mem_set_size : ∀ s m off bs s' m',
    MemoryRef_set s m off bs = Some s' → mem_size s' m' = mem_size s m';
  mem_set_get : ∀ s m off bs s',
    MemoryRef_set s m off bs = Some s' →
    MemoryRef_get s' m off (Z.of_nat (length bs)) = Some bs;
  mem_set_get_frame : ∀ s m off bs s' off' n,
    MemoryRef_set s m off bs = Some s' →
    0 ≤ off → 0 ≤ off' → 0 ≤ n →
    off' + n ≤ off ∨ off + Z.of_nat (length bs) ≤ off' →
    MemoryRef_get s' m off' n = MemoryRef_get s m off' n;
}.

Section vm.
Context `{Wasmi}.

Record ThreadState (T : Type) := {
  execution : option wasmi_FuncInvocation;
  interrupted : bool;
  ts_user_data : T;
}.
Arguments execution {T}.
Arguments interrupted {T}.
Arguments ts_user_data {T}.
Arguments Build_ThreadState {T}.

Record ProcessStateMachine (T : Type) := {
  module_ : wasmi_Store;
  memory : option wasmi_MemoryRef;
  indirect_table : option wasmi_TableRef;
  threads : list (ThreadState T);
  is_poisoned : bool;
}.
Arguments module_ {T}.
Arguments memory {T}.
Arguments indirect_table {T}.
Arguments threads {T}.
Arguments is_poisoned {T}.
Arguments Build_ProcessStateMachine {T}.

Inductive NewErr :=
  | NewErr_Interpreter (e : wasmi_Error)
  | NewErr_StartNotFound
  | NewErr_StartIsntAFunction
  | NewErr_MemoryIsntMemory
  | NewErr_IndirectTableIsntTable.

Inductive StartErr :=
  | StartErr_Poisoned
  | StartErr_FunctionNotFound
  | StartErr_NotAFunction.

Inductive RunErr :=
  | RunErr_Poisoned
  | RunErr_BadValueTy (expected obtained : option ValueType).

(** The [Thread] handle of a variant is the index of the thread. *)
Inductive ExecOutcome (T : Type) :=
  | ExecThreadFinished (thread_index : nat) (return_value : option WasmValue) (user_data : T)
  | ExecInterrupted (thread : nat) (id : nat) (params : list WasmValue)
  | ExecErrored (thread : nat) (error : wasmi_Trap).
Arguments ExecThreadFinished {T}.
Arguments ExecInterrupted {T}.
Arguments ExecErrored {T}.

Section state_machine.
Context {T : Type}.
Implicit Types (vm : ProcessStateMachine T).

Definition vm_with_threads vm (l : list (ThreadState T)) : ProcessStateMachine T :=
  {| module_ := module_ vm; memory := memory vm; indirect_table := indirect_table vm;
     threads := l; is_poisoned := is_poisoned vm |}.

Definition vm_with_module vm (s : wasmi_Store) : ProcessStateMachine T :=
  {| module_ := s; memory := memory vm; indirect_table := indirect_table vm;
     threads := threads vm; is_poisoned := is_poisoned vm |}.

Definition vm_set_poisoned vm : ProcessStateMachine T :=
  {| module_ := module_ vm; memory := memory vm; indirect_table := indirect_table vm;
     threads := threads vm; is_poisoned := true |}.

(** [impl wasmi::ImportResolver for ImportResolve]: functions are resolved
    through the closure [symbols], other imports are refused. *)
Definition import_resolve (symbols : string → string → wasmi_Signature → option nat) :
    ImportResolver wasmi_Error wasmi_FuncRef wasmi_GlobalRef wasmi_MemoryRef wasmi_TableRef :=
  {| resolve_func := λ module_name field_name signature,
       match symbols module_name field_name signature with
       | Some index => inr (FuncInstance_alloc_host signature index)
       | None => inl (Error_Instantiation
           ("Couldn't resolve `" +:+ module_name +:+ "`:`" +:+ field_name +:+ "`"))
       end;
     resolve_global := λ _ _,
       inl (Error_Instantiation "Importing globals is not supported yet");
     resolve_memory := λ _ _,
       inl (Error_Instantiation "Importing memory is not supported yet");
     resolve_table := λ _ _,
       inl (Error_Instantiation "Importing tables is not supported yet") |}.

Definition push_thread vm (e : wasmi_FuncInvocation) (user_data : T) : ProcessStateMachine T :=
  vm_with_threads vm (threads vm ++
    [{| execution := Some e; interrupted := false; ts_user_data := user_data |}]).

(** The user data is handed back in the error case. *)
Definition start_thread_by_name vm (symbol_name : string)
    (params : list wasmi_RuntimeValue) (user_data : T) :
    fallible (StartErr * T) (ProcessStateMachine T) :=
  if is_poisoned vm then fail (StartErr_Poisoned, user_data) else
  match export_by_name (module_ vm) symbol_name with
  | Some (EvFunc f) =>
      match FuncInstance_invoke_resumable (module_ vm) f params with
      | Some e => mret (push_thread vm e user_data)
      | None => Panic PUnreachable
      end
  | None => fail (StartErr_FunctionNotFound, user_data)
  | Some _ => fail (StartErr_NotAFunction, user_data)
  end.

Definition start_thread_by_id vm (function_id : Z) (params : list WasmValue) (user_data : T) :
    fallible StartErr (ProcessStateMachine T) :=
  if is_poisoned vm then fail StartErr_Poisoned else
  function ← ok_or StartErr_FunctionNotFound
    (t ← indirect_table vm; f ← TableRef_get (module_ vm) t function_id; f);
  params ← lift (map_outcome to_RuntimeValue params);
  match FuncInstance_invoke_resumable (module_ vm) function params with
  | Some e => mret (push_thread vm e user_data)
  | None => Panic PUnreachable
  end.

(** [ProcessStateMachine::new]: [argc] and [argv] of [main] are null. *)
Definition ProcessStateMachine_new (module : wasmi_Module) (main_thread_user_data : T)
    (symbols : string → string → wasmi_Signature → option nat) :
    fallible NewErr (ProcessStateMachine T) :=
  match ModuleInstance_new module (import_resolve symbols) with
  | inl e => fail (NewErr_Interpreter e)
  | inr (store, has_start) =>
      (* [assert_no_start] *)
      _ ← lift (assert_ (negb has_start));
      memory ←
        match export_by_name store "memory" with
        | Some (EvMemory mem) => mret (Some mem)
        | Some _ => fail NewErr_MemoryIsntMemory
        | None => mret None
        end;
      indirect_table ←
        match export_by_name store "__indirect_function_table" with
        | Some (EvTable tbl) => mret (Some tbl)
        | Some _ => fail NewErr_IndirectTableIsntTable
        | None => mret None
        end;
      let state_machine := {|
        module_ := store; memory := memory; indirect_table := indirect_table;
        threads := []; is_poisoned := false |} in
      match start_thread_by_name state_machine "_start" [] main_thread_user_data with
      | Done (inr vm) => mret vm
      | Done (inl (StartErr_FunctionNotFound, user_data)) =>
          match start_thread_by_name state_machine "main" [RI32 0; RI32 0] user_data with
          | Done (inr vm) => mret vm
          | Done (inl (StartErr_FunctionNotFound, _)) => fail NewErr_StartNotFound
          | Done (inl (StartErr_Poisoned, _)) => Panic PUnreachable
          | Done (inl (StartErr_NotAFunction, _)) => fail NewErr_StartIsntAFunction
          | Panic r => Panic r
          | NoFuel => NoFuel
          end
      | Done (inl (StartErr_Poisoned, _)) => Panic PUnreachable
      | Done (inl (StartErr_NotAFunction, _)) => fail NewErr_StartIsntAFunction
      | Panic r => Panic r
      | NoFuel => NoFuel
      end
  end.

Definition num_threads vm : nat := length (threads vm).

(** [ProcessStateMachine::thread]: the handle is the index. *)
Definition thread vm (index : nat) : option nat :=
  if bool_decide (index < length (threads vm))%nat then Some index else None.

Definition into_user_datas vm : list T := ts_user_data <$> threads vm.

(** [Thread::user_data]: the user data of thread [index]. *)
Definition thread_user_data vm (idx : nat) : outcome T :=
  t ← index (threads vm) idx; Done (ts_user_data t).

(** A write through the reference that [Thread::user_data] returns. *)
Definition thread_set_user_data vm (index : nat) (d : T) : ProcessStateMachine T :=
  vm_with_threads vm (alter (λ t,
    {| execution := execution t; interrupted := interrupted t; ts_user_data := d |})
    index (threads vm)).

Definition read_memory vm (offset size : Z) : outcome (option bytes) :=
  match memory vm with
  | Some mem =>
      match usize_try_from size with
      | Some size => Done (MemoryRef_get (module_ vm) mem offset size)
      | None => Done None
      end
  | None => Panic PUnreachable
  end.

Definition write_memory vm (offset : Z) (value : bytes) :
    outcome (option (ProcessStateMachine T)) :=
  match memory vm with
  | Some mem => Done (vm_with_module vm <$> MemoryRef_set (module_ vm) mem offset value)
  | None => Panic PUnreachable
  end.

(** [impl wasmi::Externals for DummyExternals]: any call to an external
    function interrupts the execution. *)
Definition DummyExternals : Externals wasmi_Trap := λ index args,
  inl (TrapHost {| int_index := index; int_args := args |}).

(** The part of [Thread::run] that follows the return of the interpreter:
    [vm] has the thread's [execution] taken out. *)
Definition run_finish vm (index : nat) (e : wasmi_FuncInvocation)
    (result : ResumableError Interrupt wasmi_Trap + option wasmi_RuntimeValue) :
    outcome (ProcessStateMachine T * (RunErr + ExecOutcome T)) :=
  match result with
  | inr return_value =>
      t ← Prelude.index (threads vm) index;
      let vm := vm_with_threads vm (delete index (threads vm)) in
      let vm := if bool_decide (index = 0%nat) then vm_set_poisoned vm else vm in
      return_value ← map_outcome_opt from_RuntimeValue return_value;
      Done (vm, inr (ExecThreadFinished index return_value (ts_user_data t)))
  | inl ReAlreadyStarted => Panic PUnreachable
  | inl ReNotResumable => Panic PUnreachable
  | inl (ReTrap (TrapHost interrupt)) =>
      let vm := vm_with_threads vm (alter (λ t,
        {| execution := Some e; interrupted := interrupted t; ts_user_data := ts_user_data t |})
        index (threads vm)) in
      params ← map_outcome from_RuntimeValue (int_args interrupt);
      Done (vm, inr (ExecInterrupted index (int_index interrupt) params))
  | inl (ReTrap (TrapOther trap)) =>
      Done (vm_set_poisoned vm, inr (ExecErrored index trap))
  end.

(** [Thread::run]. *)
Definition Thread_run vm (index : nat) (value : option WasmValue) :
    outcome (ProcessStateMachine T * (RunErr + ExecOutcome T)) :=
  if is_poisoned vm then Done (vm, inl RunErr_Poisoned) else
  thread_state ← Prelude.index (threads vm) index;
  e ← or_unreachable (execution thread_state);
  let take_execution i := vm_with_threads vm (alter (λ t,
    {| execution := None; interrupted := i; ts_user_data := ts_user_data t |})
    index (threads vm)) in
  if interrupted thread_state then
    let vm := take_execution true in
    let expected_ty := from_wasmi_ValueType <$> resumable_value_type e in
    let obtained_ty := ty <$> value in
    if bool_decide (expected_ty ≠ obtained_ty)
    then Done (vm, inl (RunErr_BadValueTy expected_ty obtained_ty)) else
    value ← map_outcome_opt to_RuntimeValue value;
    let '(result, e, store) := resume_execution (module_ vm) e value DummyExternals in
    run_finish (vm_with_module vm store) index e result
  else
    if bool_decide (value ≠ None)
    then Done (take_execution false, inl (RunErr_BadValueTy None (ty <$> value))) else
    let vm := take_execution true in
    let '(result, e, store) := start_execution (module_ vm) e DummyExternals in
    run_finish (vm_with_module vm store) index e result.

End state_machine.

Section vm_invariant.
Context `{!WasmiLaws} {T : Type}.
Implicit Types (vm : ProcessStateMachine T) (t : ThreadState T).

(** A thread that can run: its invocation is there, and its [interrupted]
    flag says whether the invocation waits for the result of a call. *)
Definition thread_ok t : Prop :=
  ∃ e, execution t = Some e ∧
    if interrupted t then ∃ sig, exec_resumable e sig else exec_fresh e.

(** Unless it is poisoned, the machine has a main thread and every thread
    can run. *)
Definition vm_ok vm : Prop :=
  is_poisoned vm = false → threads vm ≠ [] ∧ Forall thread_ok (threads vm).

(** The value that resuming thread [t] requires. *)
Definition expected_ty t : option ValueType :=
  if interrupted t
  then e ← execution t; from_wasmi_ValueType <$> resumable_value_type e
  else None.

(** How one run changes the threads: whom it concerns, and what is left. *)
Definition run_effect vm (index : nat) vm' (o : ExecOutcome T) : Prop :=
  memory vm' = memory vm ∧ indirect_table vm' = indirect_table vm ∧
  match o with
  | ExecThreadFinished i _ d =>
      i = index ∧ thread_user_data vm index = Done d ∧
      threads vm' = delete index (threads vm) ∧
      is_poisoned vm' = bool_decide (index = 0%nat)
  | ExecInterrupted i id params =>
      i = index ∧ is_poisoned vm' = false ∧
      ∃ e, threads vm' = alter (λ t, {| execution := Some e; interrupted := true;
                                        ts_user_data := ts_user_data t |}) index (threads vm)
  | ExecErrored i _ =>
      i = index ∧ into_user_datas vm' = into_user_datas vm ∧ is_poisoned vm' = true
  end.

Lemma into_user_datas_alter vm i f :
  (∀ t, ts_user_data (f t) = ts_user_data t) →
  into_user_datas (vm_with_threads vm (alter f i (threads vm))) = into_user_datas vm.
Proof.
  intros Hf. unfold into_user_datas. simpl. apply list_eq. intros j. rewrite !list_lookup_fmap, list_lookup_alter.
  case_decide; [|done]. subst. destruct (threads vm !! j); simpl; [by rewrite Hf|done].
Qed.

Lemma map_outcome_spec {A B} (f : A → outcome B) l :
  (∀ x, match f x with Done _ => True | Panic r => r = PUnimplemented | NoFuel => False end) →
  match map_outcome f l with
  | Done _ => True | Panic r => r = PUnimplemented | NoFuel => False
  end.
Proof.
  intros Hf. induction l as [|x l IH]; simpl; [done|].
  specialize (Hf x). destruct (f x); simpl; [|done..].
  destruct (map_outcome f l); simpl; done.
Qed.

Lemma from_RuntimeValue_panics v :
  match from_RuntimeValue v with
  | Done _ => True | Panic r => r = PUnimplemented | NoFuel => False
  end.
Proof. by destruct v. Qed.

(** What [run_finish] returns, the thread's invocation being taken out. *)
Lemma run_finish_ok vm i e r t :
  is_poisoned vm = false → threads vm !! i = Some t → interrupted t = true →
  (∀ j t', j ≠ i → threads vm !! j = Some t' → thread_ok t') →
  r ≠ inl ReAlreadyStarted → r ≠ inl ReNotResumable →
  (∀ int, r = inl (ReTrap (TrapHost int)) → ∃ sig, exec_resumable e sig) →
  match run_finish vm i e r with
  | Done (vm', inr o) => vm_ok vm' ∧ run_effect vm i vm' o
  | Done (_, inl _) | NoFuel => False
  | Panic r => r = PUnimplemented
  end.
Proof.
  intros Hp Ht Hint Hothers Hr1 Hr2 Hres. unfold run_finish, run_effect, vm_ok.
  destruct r as [[| |[int|trap]]|rv]; try done.
  - (* interrupted by a call *)
    pose proof (map_outcome_spec from_RuntimeValue (int_args int) from_RuntimeValue_panics).
    destruct (map_outcome _ _); simpl in *; [|done..].
    split.
    2:{ split_and!; [done..|]. exists e. apply list_alter_ext; [|done].
        intros t' Ht'. rewrite Ht in Ht'. injection Ht' as <-. by rewrite Hint. }
    intros _. destruct (Hres int eq_refl) as [sig Hsig]. split.
    + intros Hnil. apply (f_equal length) in Hnil. rewrite length_alter in Hnil.
      apply lookup_lt_Some in Ht. simpl in Hnil. lia.
    + apply Forall_lookup. intros j t'. rewrite list_lookup_alter. case_decide.
      * subst j. rewrite Ht. intros [= <-]. exists e. simpl. rewrite Hint. eauto.
      * by apply Hothers.
  - (* returned *)
    unfold Prelude.index. rewrite Ht. simpl.
    assert (Hrv : match map_outcome_opt from_RuntimeValue rv with
      | Done _ => True | Panic r => r = PUnimplemented | NoFuel => False end).
    { destruct rv as [v|]; simpl; [|done]. pose proof (from_RuntimeValue_panics v).
      by destruct (from_RuntimeValue v). }
    destruct (map_outcome_opt _ _); simpl; [|done..].
    unfold thread_user_data, Prelude.index. rewrite Ht. simpl.
    case_bool_decide; simpl; (split; [|done]); [done|]. intros _. split.
    + intros Hnil. apply (f_equal length) in Hnil.
      apply lookup_lt_Some in Ht. rewrite length_delete in Hnil by (by apply lookup_lt_is_Some).
      simpl in Hnil. lia.
    + by apply Forall_delete_other.
Qed.

Lemma runtime_ty_convert v w : to_RuntimeValue v = Done w → from_wasmi_ValueType (runtime_ty w) = ty v.
Proof. destruct v; intros [= <-]; done. Qed.

#[global] Instance from_wasmi_ValueType_inj : Inj (=) (=) from_wasmi_ValueType.
Proof. intros [] []; done. Qed.

(** The machine while one of its threads runs. *)
Definition take_execution vm i (s : wasmi_Store) : ProcessStateMachine T :=
  vm_with_module (vm_with_threads vm (alter (λ t,
    {| execution := None; interrupted := true; ts_user_data := ts_user_data t |})
    i (threads vm))) s.

Lemma run_effect_take vm i s vm' o :
  run_effect (take_execution vm i s) i vm' o → run_effect vm i vm' o.
Proof.
  assert (Hd : into_user_datas (take_execution vm i s) = into_user_datas vm).
  { by apply (into_user_datas_alter vm i). }
  unfold run_effect. rewrite Hd. destruct o; try done.
  - intros (? & ? & ? & Hud & Hdel & ?). simpl in Hdel. rewrite delete_alter in Hdel.
    split_and!; try done. revert Hud.
    unfold thread_user_data, Prelude.index, take_execution. simpl.
    rewrite list_lookup_alter, decide_True by done. by destruct (threads vm !! i).
  - intros (? & ? & ? & ? & e & He). split_and!; try done. exists e. rewrite He. simpl.
    by apply alter_alter_absorb.
Qed.

(** The rest of a run, whichever way the invocation was entered. *)
Lemma run_taken_ok vm i e r t s :
  vm_ok vm → is_poisoned vm = false → threads vm !! i = Some t →
  r ≠ inl ReAlreadyStarted → r ≠ inl ReNotResumable →
  (∀ int, r = inl (ReTrap (TrapHost int)) → ∃ sig, exec_resumable e sig) →
  match run_finish (take_execution vm i s) i e r with
  | Done (vm', inr o) => vm_ok vm' ∧ run_effect vm i vm' o
  | Done (_, inl _) | NoFuel => False
  | Panic r => r = PUnimplemented
  end.
Proof.
  intros Hok Hp Ht Hr1 Hr2 Hres. destruct (Hok Hp) as [_ Hall].
  assert (Ht' : threads (take_execution vm i s) !! i
    = Some {| execution := None; interrupted := true; ts_user_data := ts_user_data t |}).
  { simpl. by rewrite list_lookup_alter, decide_True, Ht. }
  assert (Ho : ∀ j t', j ≠ i → threads (take_execution vm i s) !! j = Some t' → thread_ok t').
  { intros j t' Hj. simpl. rewrite list_lookup_alter, decide_False by done.
    by apply (Forall_lookup_1 _ _ _ _ Hall). }
  pose proof (run_finish_ok (take_execution vm i s) i e r _ Hp Ht' eq_refl Ho Hr1 Hr2 Hres) as Hfin.
  destruct (run_finish _ _ _ _) as [[vm' [?|o]]|?|]; try done.
  destruct Hfin. split; [done|]. by eapply run_effect_take.
Qed.

(** A run of a sound machine. *)
Lemma thread_run_sound vm (i : nat) t (value : option WasmValue) :
  vm_ok vm → is_poisoned vm = false → threads vm !! i = Some t →
  ty <$> value = expected_ty t →
  match Thread_run vm i value with
  | Done (vm', inr o) => vm_ok vm' ∧ run_effect vm i vm' o
  | Done (_, inl _) | NoFuel => False
  | Panic r => r = PUnimplemented
  end.
Proof.
  intros Hok Hp Ht Hty. destruct (Hok Hp) as [_ Hall].
  destruct (Forall_lookup_1 _ _ _ _ Hall Ht) as (e & He & Hexec).
  unfold Thread_run, Prelude.index. rewrite Hp, Ht. simpl. rewrite He. simpl.
  unfold expected_ty in Hty. rewrite He in Hty.
  destruct (interrupted t) eqn:Hint.
  - (* the thread waits for the result of a call *)
    destruct Hexec as [sig Hsig]. simpl in Hty.
    rewrite bool_decide_false by (intros Hne; by rewrite Hty in Hne).
    destruct (map_outcome_opt to_RuntimeValue value) as [v|r|] eqn:Hv; simpl.
    2,3: destruct value as [[]|]; simplify_eq/=; done.
    assert (runtime_ty <$> v = wsig_return_type sig).
    { rewrite <-(resumable_type _ _ Hsig). apply (inj (fmap from_wasmi_ValueType)).
      rewrite <-Hty. destruct value as [[]|]; simplify_eq/=; done. }
    destruct (resume_execution _ _ _ _) as [[r e'] s'] eqn:Hres.
    destruct (resume_law _ _ _ _ _ _ _ _ Hres Hsig ltac:(done)) as (? & ? & _ & Hhost).
    apply (run_taken_ok vm i e' r t s'); try done.
    intros int ->. destruct (Hhost int eq_refl) as (? & ? & ? & _ & _ & ? & _). eauto.
  - (* the thread has not started *)
    rewrite bool_decide_false by (destruct value; naive_solver).
    destruct (start_execution _ _ _) as [[r e'] s'] eqn:Hres.
    destruct (start_law _ _ _ _ _ _ Hres Hexec) as (? & ? & _ & Hhost).
    apply (run_taken_ok vm i e' r t s'); try done.
    intros int ->. destruct (Hhost int eq_refl) as (? & ? & ? & _ & _ & ? & _). eauto.
Qed.

(** Running a thread of a sound machine, with a value of the type that
    the interpreter waits for, never reports an error and never reaches one
    of the [unreachable!()] of [Thread::run]; the machine it leaves is sound
    again; and the threads are changed exactly as documented: a thread that
    returned is removed and its user data handed back (the machine being
    poisoned if and only if it was the main thread), a thread that called an
    external function stays, and a trap poisons the machine.  Only a float
    that crosses the boundary stops it, with [unimplemented!()]. *)
Theorem thread_run_ok vm (i : nat) t (value : option WasmValue) :
  vm_ok vm → is_poisoned vm = false → threads vm !! i = Some t →
  ty <$> value = expected_ty t →
  match Thread_run vm i value with
  | Done (vm', inr o) => vm_ok vm' ∧ run_effect vm i vm' o
  | Done (_, inl _) | NoFuel => False
  | Panic r => r = PUnimplemented
  end.
Proof. apply thread_run_sound. Qed.

(** A thread that was started on a function that the module imports: its first
    run reports the call, and the next one, with which the kernel answers the
    call, stops the kernel if it has no value and is refused if it has one. *)
Lemma host_entry_stops vm (i : nat) t e s sig id args params v :
  is_poisoned vm = false → threads vm !! i = Some t → execution t = Some e → interrupted t = false →
  FuncInstance_invoke_resumable s (FuncInstance_alloc_host sig id) args = Some e →
  map_outcome from_RuntimeValue args = Done params →
  ∃ vm', Thread_run vm i None = Done (vm', inr (ExecInterrupted i id params)) ∧
    Thread_run vm' i None = Panic PUnreachable ∧
    ∃ vm'', Thread_run vm' i (Some v) = Done (vm'', inl (RunErr_BadValueTy None (Some (ty v)))).
Proof.
  intros Hp Ht He Hint Hinv Hargs.
  destruct (start_execution (module_ vm) e DummyExternals) as [[r e'] s'] eqn:Hstart.
  destruct (host_start_law _ _ _ _ _ _ _ _ _ _ Hinv Hstart) as (-> & Hr & Hty & Hres).
  unfold DummyExternals in Hr. subst r. eexists. split_and!.
  - unfold Thread_run, Prelude.index. rewrite Hp, Ht. cbn. rewrite He. cbn. rewrite Hint. cbn.
    rewrite Hstart. cbn. rewrite Hargs. done.
  - unfold Thread_run, Prelude.index. cbn. rewrite Hp, !list_lookup_alter, !decide_True, Ht by done. cbn.
    rewrite Hty. cbn. specialize (Hres (module_ vm) None DummyExternals).
    destruct (resume_execution _ _ _ _) as [[r2 e2] s2]. cbn in Hres. by subst r2.
  - eexists. unfold Thread_run, Prelude.index. cbn. rewrite Hp, !list_lookup_alter, !decide_True, Ht by done. cbn.
    rewrite Hty. cbn. done.
Qed.

(** What an interrupted run says of the call: an external function of the
    instance, arguments of its types, and a thread that waits for a result of
    its type. *)
Definition call_ok vm (i : nat) vm' (id : nat) (params : list WasmValue) : Prop :=
  ∃ sig, host_func (module_ vm) id sig ∧
    ty <$> params = from_wasmi_ValueType <$> wsig_params sig ∧
    ∃ t, threads vm' !! i = Some t ∧
      expected_ty t = from_wasmi_ValueType <$> wsig_return_type sig.

Lemma from_RuntimeValue_ty w v : from_RuntimeValue w = Done v → ty v = from_wasmi_ValueType (runtime_ty w).
Proof. destruct w; intros [= <-]; done. Qed.

Lemma map_outcome_ty ws vs :
  map_outcome from_RuntimeValue ws = Done vs →
  ty <$> vs = from_wasmi_ValueType <$> (runtime_ty <$> ws).
Proof.
  revert vs. induction ws as [|w ws IH]; intros vs Hvs; simpl in Hvs; inv_done; [done|].
  simpl. f_equal; [by apply from_RuntimeValue_ty|by apply IH].
Qed.

Lemma run_finish_hosts vm i e r t s vm' o :
  threads vm !! i = Some t →
  (∀ int, r = inl (ReTrap (TrapHost int)) →
    ∃ i args sig, host_func (module_ vm) i sig ∧ runtime_ty <$> args = wsig_params sig ∧
      exec_resumable e sig ∧ DummyExternals i args = inl (TrapHost int)) →
  run_finish (take_execution vm i s) i e r = Done (vm', inr o) →
  module_ vm' = s ∧
  match o with ExecInterrupted j id params => j = i ∧ call_ok vm i vm' id params | _ => True end.
Proof.
  intros Ht Hres. unfold run_finish.
  destruct r as [[| |[int|trap]]|rv]; intros Hrun; try done; inv_done.
  - split; [done|]. split; [done|].
    destruct (Hres int eq_refl) as (j & args & sig & Hhost & Htys & Hsig & [= <-]).
    exists sig. split; [done|]. split.
    + rewrite <-Htys. by apply map_outcome_ty.
    + eexists. simpl. rewrite !list_lookup_alter, !decide_True, Ht by done. simpl.
      split; [done|]. unfold expected_ty. simpl. by rewrite (resumable_type _ _ Hsig).
  - done.
  - by case_bool_decide.
Qed.

(** Running code calls no external function that the instance did not have. *)
Lemma thread_run_hosts vm i t value vm' o :
  vm_ok vm → is_poisoned vm = false → threads vm !! i = Some t →
  ty <$> value = expected_ty t →
  Thread_run vm i value = Done (vm', inr o) →
  (∀ j sig, host_func (module_ vm') j sig → host_func (module_ vm) j sig) ∧
  match o with ExecInterrupted j id params => j = i ∧ call_ok vm i vm' id params | _ => True end.
Proof.
  intros Hok Hp Ht Hty. destruct (Hok Hp) as [_ Hall].
  destruct (Forall_lookup_1 _ _ _ _ Hall Ht) as (e & He & Hexec).
  unfold Thread_run, Prelude.index. rewrite Hp, Ht. simpl. rewrite He. simpl.
  unfold expected_ty in Hty. rewrite He in Hty.
  destruct (interrupted t) eqn:Hint.
  - destruct Hexec as [sig Hsig]. simpl in Hty.
    rewrite bool_decide_false by (intros Hne; by rewrite Hty in Hne). intros Hrun.
    apply outcome_bind_Done in Hrun as (v & Hv & Hrun).
    assert (runtime_ty <$> v = wsig_return_type sig).
    { rewrite <-(resumable_type _ _ Hsig). apply (inj (fmap from_wasmi_ValueType)).
      rewrite <-Hty. destruct value as [[]|]; simplify_eq/=; done. }
    destruct (resume_execution _ _ _ _) as [[r e'] s'] eqn:Hres.
    destruct (resume_law _ _ _ _ _ _ _ _ Hres Hsig ltac:(done)) as (_ & _ & Hsub & Hhost).
    destruct (run_finish_hosts vm i e' r t s' vm' o Ht Hhost Hrun) as [-> ?]. done.
  - rewrite bool_decide_false by (destruct value; naive_solver).
    destruct (start_execution _ _ _) as [[r e'] s'] eqn:Hres. intros Hrun.
    destruct (start_law _ _ _ _ _ _ Hres Hexec) as (_ & _ & Hsub & Hhost).
    destruct (run_finish_hosts vm i e' r t s' vm' o Ht Hhost Hrun) as [-> ?]. done.
Qed.

(** * Creating a machine *)

Lemma push_thread_ok vm e d :
  exec_fresh e → threads vm = [] → is_poisoned vm = false →
  vm_ok (push_thread vm e d) ∧ into_user_datas (push_thread vm e d) = [d].
Proof.
  intros He Hnil Hp. unfold push_thread, vm_ok, into_user_datas. simpl. rewrite Hnil.
  split; [|done]. intros _. split; [done|]. constructor; [|done].
  exists e. done.
Qed.

Lemma start_thread_by_name_inv vm name ps d vm' :
  start_thread_by_name vm name ps d = Done (inr vm') →
  ∃ e, exec_fresh e ∧ vm' = push_thread vm e d.
Proof.
  unfold start_thread_by_name. intros Hs. repeat case_match; try done. inv_done.
  eexists. split; [|done]. eapply invoke_fresh; [done|]. by eapply export_own.
Qed.

Lemma start_thread_by_name_err vm name ps d err d' :
  start_thread_by_name vm name ps d = Done (inl (err, d')) → d' = d.
Proof.
  unfold start_thread_by_name, fail. intros Hs. repeat case_match; by simplify_eq.
Qed.

Lemma start_thread_by_name_fuel vm name ps d : start_thread_by_name vm name ps d ≠ NoFuel.
Proof. unfold start_thread_by_name. repeat case_match; done. Qed.

Lemma new_fuel (m : wasmi_Module) (d : T) symbols : ProcessStateMachine_new m d symbols ≠ NoFuel.
Proof.
  unfold ProcessStateMachine_new. destruct (ModuleInstance_new _ _) as [|[st []]]; [done..|].
  simpl. destruct (export_by_name st "memory") as [[]|]; simpl; try done;
    (destruct (export_by_name st "__indirect_function_table") as [[]|]; simpl; try done);
    repeat case_match; try done;
    exfalso; eapply start_thread_by_name_fuel; eassumption.
Qed.

(** A machine that was built is an instance with one thread pushed. *)
Lemma new_pushed (m : wasmi_Module) (d : T) symbols vm :
  ProcessStateMachine_new m d symbols = Done (inr vm) →
  ∃ st b mem tbl, ModuleInstance_new m (import_resolve symbols) = inr (st, b) ∧
    ∃ e, exec_fresh e ∧
      vm = push_thread {| module_ := st; memory := mem; indirect_table := tbl;
                          threads := []; is_poisoned := false |} e d.
Proof.
  unfold ProcessStateMachine_new. intros Hnew.
  destruct (ModuleInstance_new _ _) as [|[st has_start]] eqn:Hinst; [done|].
  apply fallible_bind_ok in Hnew as (? & _ & Hnew).
  apply fallible_bind_ok in Hnew as (mem & _ & Hnew).
  apply fallible_bind_ok in Hnew as (tbl & _ & Hnew).
  exists st, has_start, mem, tbl. split; [done|].
  match type of Hnew with context [start_thread_by_name ?v] => set (vm0 := v) in * end.
  destruct (start_thread_by_name vm0 "_start" _ _) as [[[[] d']|]| |] eqn:H1; try done.
  - destruct (start_thread_by_name vm0 "main" _ _) as [[[[] ?]|]| |] eqn:H2; try done.
    inv_done. apply start_thread_by_name_err in H1 as ->.
    by eapply start_thread_by_name_inv.
  - inv_done. by eapply start_thread_by_name_inv.
Qed.

(** What [ProcessStateMachine_new] builds. *)
Lemma new_sound (m : wasmi_Module) (d : T) symbols vm :
  ProcessStateMachine_new m d symbols = Done (inr vm) →
  vm_ok vm ∧ is_poisoned vm = false ∧ into_user_datas vm = [d] ∧
  (∀ i sig, host_func (module_ vm) i sig → ∃ mod_ fld, symbols mod_ fld sig = Some i).
Proof.
  intros Hnew. destruct (new_pushed _ _ _ _ Hnew) as (st & b & mem & tbl & Hinst & e & He & ->).
  match goal with |- context [push_thread ?v _ _] =>
    destruct (push_thread_ok v e d He eq_refl eq_refl) end.
  split_and!; try done. intros i sig Hi.
  destruct (instance_host_func _ _ _ _ _ _ Hinst Hi) as (mod_ & fld & sig' & Hr).
  exists mod_, fld. simpl in Hr. destruct (symbols mod_ fld sig') eqn:Hsym; [|done].
  injection Hr as Hr. by apply alloc_host_inj in Hr as [-> ->].
Qed.

Lemma new_fresh (m : wasmi_Module) (d : T) symbols vm :
  ProcessStateMachine_new m d symbols = Done (inr vm) →
  ∃ t, threads vm = [t] ∧ ts_user_data t = d ∧ interrupted t = false.
Proof. intros Hnew. destruct (new_pushed _ _ _ _ Hnew) as (?&?&?&?&?&e&?&->). by eexists. Qed.

(** A machine that [ProcessStateMachine::new] returns is sound: it is
    not poisoned, has the main thread as its only thread, ready to run and
    carrying the given user data, and can only call the external functions
    that the closure resolved, under the signature the closure was shown. *)
Theorem new_ok (m : wasmi_Module) (d : T) symbols vm :
  ProcessStateMachine_new m d symbols = Done (inr vm) →
  vm_ok vm ∧ is_poisoned vm = false ∧ into_user_datas vm = [d] ∧
  (∀ i sig, host_func (module_ vm) i sig → ∃ mod_ fld, symbols mod_ fld sig = Some i).
Proof. apply new_sound. Qed.

End vm_invariant.
End vm.

Arguments execution {_ T}.
Arguments interrupted {_ T}.
Arguments ts_user_data {_ T}.
Arguments Build_ThreadState {_ T}.
Arguments module_ {_ T}.
Arguments memory {_ T}.
Arguments indirect_table {_ T}.
Arguments threads {_ T}.
Arguments is_poisoned {_ T}.
Arguments Build_ProcessStateMachine {_ T}.
Arguments ExecThreadFinished {_ T}.
Arguments ExecInterrupted {_ T}.
Arguments ExecErrored {_ T}.
