(* ===== verification/ExtrinsicsApi.v ===== *)
(** The interface between the scheduler and the sets of extrinsic functions
    ([core/src/extrinsics.rs]).

    The trait [Extrinsics] is the class of the same name: the scheduler is
    written against it, and [Wasi] implements it. *)
From S2P Require Import Prelude WasmValue Ffi.

(** [trait ExtrinsicsMemoryAccess], for a process in a state of type [Mem].
    Reading takes the two ends of the range; [None] is [OutOfRange]. *)
Record ExtrinsicsMemoryAccess (Mem : Type) := {
  ma_read_memory : Mem → Z → Z → outcome (option bytes);
  ma_write_memory : Z → bytes → M Mem (option unit);
}.
Arguments ma_read_memory {Mem}.
Arguments ma_write_memory {Mem}.

Inductive ExtrinsicsAction :=
  | Action_ProgramCrash
  | Action_Resume (value : option WasmValue)
  | Action_EmitMessage (interface : InterfaceHash) (message : EncodedMessage)
      (response_expected : bool).

Record SupportedExtrinsic (TExtId : Type) := {
  se_id : TExtId;
  wasm_interface : string;
  function_name : string;
  se_signature : Signature;
}.
Arguments se_id {TExtId}.
Arguments wasm_interface {TExtId}.
Arguments function_name {TExtId}.
Arguments se_signature {TExtId}.
Arguments Build_SupportedExtrinsic {TExtId}.

(** [trait Extrinsics].  The methods take [&self] and may change what is
    behind it (locks, atomics): the value is part of the state they run on,
    next to the memory of the process. *)
Class Extrinsics := {
  Ext : Type;
  ExtrinsicId : Type;
  Context : Type;
  ext_default : Ext;
  supported_extrinsics : list (SupportedExtrinsic ExtrinsicId);
  new_context : ∀ {Mem : Type}, ExtrinsicsMemoryAccess Mem → ThreadId → ExtrinsicId →
    list WasmValue → M (Ext * Mem) (Context * ExtrinsicsAction);
  inject_message_response : ∀ {Mem : Type}, ExtrinsicsMemoryAccess Mem → Context →
    option EncodedMessage → M (Ext * Mem) (Context * ExtrinsicsAction);
}.

(** In a process that satisfies [I], reading and writing fail cleanly (the ends
    of the range being ordered, as the documentation asks for), and writing
    preserves [I]. *)
Definition accessor_ok {Mem} (ma : ExtrinsicsMemoryAccess Mem) (I : Mem → Prop) : Prop :=
  (∀ m a b, I m → 0 ≤ a ≤ b → b ≤ u32_max → ∃ r, ma_read_memory ma m a b = Done r ∧
     ∀ bs, r = Some bs → Z.of_nat (length bs) = b - a) ∧
  (∀ off bs m, I m → ∃ r m', ma_write_memory ma off bs m = Done (r, m') ∧ I m').

(** An action that can be applied to a thread that waits for a value of type
    [e]: the value it is resumed with has this type, an interface hash has its
    32 bytes, and the context [ctxt], of which [waits ctxt e b] says that it
    drives a call returning a value of type [e] and waits for its message to be
    accepted ([b] is false) or answered ([b] is true), waits accordingly. *)
Definition action_ok `{Extrinsics} (waits : Context → option ValueType → bool → Prop)
    (e : option ValueType) (ctxt : Context) (action : ExtrinsicsAction) : Prop :=
  match action with
  | Action_ProgramCrash => True
  | Action_Resume v => ty <$> v = e
  | Action_EmitMessage interface _ response_expected =>
      is_hash interface ∧ waits ctxt e response_expected
  end.

(** What the scheduler expects of an implementation: the names are distinct
    and none of them is in the scheduler's own module, the process is only
    changed through the accessor, and the value that a call is resumed with
    has the type of the function.  An answer is only injected in a context
    that waits for one.  [ext_inv] is the implementation's own invariant, and
    [ext_panics] are the ways in which a call may stop the kernel. *)
Class ExtrinsicsLaws `{Extrinsics} := {
  ext_inv : Ext → Prop;
  context_waits : Context → option ValueType → bool → Prop;
  ext_panics : panic_reason → Prop;
  ext_default_inv : ext_inv ext_default;
  supported_names : NoDup ((λ e, (wasm_interface e, function_name e)) <$> supported_extrinsics);
  supported_modules : ∀ e, e ∈ supported_extrinsics → wasm_interface e ≠ "redshirt"%string;
  new_context_law : ∀ Mem (ma : ExtrinsicsMemoryAccess Mem) I tid e params ext m,
    e ∈ supported_extrinsics → ty <$> params = sig_params (se_signature e) →
    accessor_ok ma I → I m → ext_inv ext →
    wp ext_panics (new_context ma tid (se_id e) params (ext, m))
      (λ '((ctxt, action), (ext', m')), I m' ∧ ext_inv ext' ∧
         action_ok context_waits (sig_ret_ty (se_signature e)) ctxt action);
  inject_law : ∀ Mem (ma : ExtrinsicsMemoryAccess Mem) I ctxt e resp ext m,
    accessor_ok ma I → I m → ext_inv ext → context_waits ctxt e (bool_decide (is_Some resp)) →
    wp ext_panics (inject_message_response ma ctxt resp (ext, m))
      (λ '((ctxt', action), (ext', m')), I m' ∧ ext_inv ext' ∧
         action_ok context_waits e ctxt' action);
}.

(** [NoExtrinsics]: the identifiers and the contexts are uninhabited. *)
#[global] Instance NoExtrinsics : Extrinsics := {|
  Ext := unit;
  ExtrinsicId := Empty_set;
  Context := Empty_set;
  ext_default := tt;
  supported_extrinsics := [];
  new_context := λ _ _ _ id _, match id with end;
  inject_message_response := λ _ _ ctxt _, match ctxt with end;
|}.

#[global] Program Instance NoExtrinsics_laws : ExtrinsicsLaws (H := NoExtrinsics) := {|
  ext_inv := λ _, True;
  context_waits := λ ctxt, match ctxt with end;
  ext_panics := no_panic;
|}.
Next Obligation. done. Qed.
Next Obligation. constructor. Qed.
Next Obligation. intros e He. by apply elem_of_nil in He. Qed.
Next Obligation. intros ???? e ??? He. by apply elem_of_nil in He. Qed.
Next Obligation. intros ??? []. Qed.
