(* ===== verification/ToyVm.v ===== *)
(** A concrete interpreter, to evaluate the model with.

    The development is parametric in the interpreter ([Vm.Wasmi]); this file
    gives one instance that satisfies the documented laws, so that the
    theorems that assume them apply to executable systems.  A module is a
    script: a sequence of calls to its imports, writes to its memory, and a
    return or a trap. *)
From S2P Require Import Prelude WasmValue Vm.

Inductive toy_instr :=
  | TCall (import : nat) (args : list wasmi_RuntimeValue)
  | TPoke (off : Z) (bs : bytes)
  | TReturn (v : option wasmi_RuntimeValue)
  | TTrap.

Record toy_module := {
  tm_imports : list (string * string * wasmi_Signature);
  tm_memory : option bytes;
  tm_entry : string;
  tm_code : list toy_instr;
  tm_table : list (list toy_instr);
}.

Record toy_store := {
  st_hosts : list (nat * wasmi_Signature);
  st_mem : bytes;
  st_module : toy_module;
}.

Inductive toy_func := TFHost (sig : wasmi_Signature) (i : nat) | TFCode (c : list toy_instr).

Inductive toy_status :=
  | TFresh
  | TWait (sig : wasmi_Signature)
  | TDone
  | THost (i : nat) (args : list wasmi_RuntimeValue).

Record toy_invocation := { ti_code : list toy_instr; ti_status : toy_status }.

Abbreviation toy_resolver := (ImportResolver string toy_func unit unit unit).

Fixpoint toy_resolve (r : toy_resolver) (l : list (string * string * wasmi_Signature)) :
    string + list (nat * wasmi_Signature) :=
  match l with
  | [] => inr []
  | (m, f, sig) :: l =>
      match resolve_func r m f sig with
      | inl e => inl e
      | inr (TFHost sig i) =>
          match toy_resolve r l with inl e => inl e | inr hs => inr ((i, sig) :: hs) end
      | inr (TFCode _) => inl "host function expected"%string
      end
  end.

Definition toy_get (s : toy_store) (off n : Z) : option bytes :=
  if bool_decide (0 ≤ off ∧ 0 ≤ n ∧ off + n ≤ Z.of_nat (length (st_mem s)))
  then Some (take (Z.to_nat n) (drop (Z.to_nat off) (st_mem s))) else None.

Definition toy_set (s : toy_store) (off : Z) (bs : bytes) : option toy_store :=
  if bool_decide (0 ≤ off ∧ off + Z.of_nat (length bs) ≤ Z.of_nat (length (st_mem s)))
  then Some {| st_hosts := st_hosts s; st_module := st_module s;
               st_mem := take (Z.to_nat off) (st_mem s) ++ bs
                         ++ drop (Z.to_nat off + length bs) (st_mem s) |}
  else None.

Definition toy_done : toy_invocation := {| ti_code := []; ti_status := TDone |}.

Fixpoint toy_exec (s : toy_store) (c : list toy_instr) (ext : Externals unit) :
    (ResumableError Interrupt unit + option wasmi_RuntimeValue) * toy_invocation * toy_store :=
  match c with
  | [] => (inr None, toy_done, s)
  | TReturn v :: _ => (inr v, toy_done, s)
  | TTrap :: _ => (inl (ReTrap (TrapOther tt)), toy_done, s)
  | TPoke off bs :: c =>
      match toy_set s off bs with
      | Some s => toy_exec s c ext
      | None => (inl (ReTrap (TrapOther tt)), toy_done, s)
      end
  | TCall k args :: c =>
      match st_hosts s !! k with
      | Some (i, sig) =>
          if bool_decide (runtime_ty <$> args = wsig_params sig) then
            match ext i args with
            | inl (TrapHost int) =>
                (inl (ReTrap (TrapHost int)), {| ti_code := c; ti_status := TWait sig |}, s)
            | inl (TrapOther t) => (inl (ReTrap (TrapOther t)), toy_done, s)
            | inr _ => toy_exec s c ext
            end
          else (inl (ReTrap (TrapOther tt)), toy_done, s)
      | None => (inl (ReTrap (TrapOther tt)), toy_done, s)
      end
  end.

#[global] Instance toy_wasmi : Wasmi := {|
  wasmi_Module := toy_module;
  wasmi_Store := toy_store;
  wasmi_FuncRef := toy_func;
  wasmi_GlobalRef := unit;
  wasmi_MemoryRef := unit;
  wasmi_TableRef := unit;
  wasmi_FuncInvocation := toy_invocation;
  wasmi_Error := string;
  wasmi_Trap := unit;
  Error_Instantiation := λ s, s;
  ModuleInstance_new := λ m r,
    match toy_resolve r (tm_imports m) with
    | inl e => inl e
    | inr hs => inr ({| st_hosts := hs; st_mem := default [] (tm_memory m);
                        st_module := m |}, false)
    end;
  FuncInstance_alloc_host := TFHost;
  export_by_name := λ s name,
    if String.eqb name (tm_entry (st_module s)) then Some (EvFunc (TFCode (tm_code (st_module s))))
    else if String.eqb name "memory" then (λ _, EvMemory tt) <$> tm_memory (st_module s)
    else if String.eqb name "__indirect_function_table" then Some (EvTable tt)
    else None;
  TableRef_get := λ s _ i, Some (TFCode <$> tm_table (st_module s) !! Z.to_nat i);
  FuncInstance_invoke_resumable := λ s f ps,
    match f with
    | TFCode c => Some {| ti_code := c; ti_status := TFresh |}
    | TFHost _ i => Some {| ti_code := []; ti_status := THost i ps |}
    end;
  resumable_value_type := λ e,
    match ti_status e with TWait sig => wsig_return_type sig | _ => None end;
  start_execution := λ s e ext,
    match ti_status e with
    | TFresh => toy_exec s (ti_code e) ext
    | THost i args =>
        (match ext i args with inl t => inl (ReTrap t) | inr v => inr v end, toy_done, s)
    | _ => (inl ReAlreadyStarted, e, s)
    end;
  resume_execution := λ s e v ext,
    match ti_status e with
    | TWait _ => toy_exec s (ti_code e) ext
    | _ => (inl ReNotResumable, e, s)
    end;
  MemoryRef_get := λ s _ off n, toy_get s off n;
  MemoryRef_set := λ s _ off bs, toy_set s off bs;
|}.

Lemma toy_set_hosts s off bs s' : toy_set s off bs = Some s' → st_hosts s' = st_hosts s.
Proof. unfold toy_set. case_bool_decide; [|done]. by intros [= <-]. Qed.

Lemma toy_exec_law s c ext r e' s' :
  toy_exec s c ext = (r, e', s') →
  r ≠ inl ReAlreadyStarted ∧ r ≠ inl ReNotResumable ∧ st_hosts s' = st_hosts s ∧
  (∀ int, r = inl (ReTrap (TrapHost int)) →
    ∃ i args sig, (i, sig) ∈ st_hosts s ∧ runtime_ty <$> args = wsig_params sig ∧
      ti_status e' = TWait sig ∧ ext i args = inl (TrapHost int)).
Proof.
  revert s. induction c as [|[k args|off bs|v|] c IH]; simpl; intros s Hrun; simplify_eq; try done.
  - destruct (st_hosts s !! k) as [[i sig]|] eqn:Hk; [|by simplify_eq].
    case_bool_decide; [|by simplify_eq].
    destruct (ext i args) as [[int|t]|v] eqn:Hext; simplify_eq; try done.
    + split_and!; try done. intros int' [= <-]. exists i, args, sig. split_and!; try done.
      by eapply list_elem_of_lookup_2.
    + by apply IH.
  - destruct (toy_set s off bs) as [s1|] eqn:Hset; [|by simplify_eq].
    apply IH in Hrun. by rewrite (toy_set_hosts _ _ _ _ Hset) in Hrun.
Qed.

Lemma toy_resolve_law r l hs i sig :
  toy_resolve r l = inr hs → (i, sig) ∈ hs →
  ∃ m f sig', resolve_func r m f sig' = inr (TFHost sig i).
Proof.
  revert hs. induction l as [|[[m f] sig'] l IH]; simpl; intros hs Hr Hin; simplify_eq.
  - by apply elem_of_nil in Hin.
  - destruct (resolve_func r m f sig') as [|[sig0 i0|]] eqn:Hf; try done.
    destruct (toy_resolve r l) as [|hs']; simplify_eq.
    apply elem_of_cons in Hin as [[= -> ->]|Hin]; eauto.
Qed.

#[global] Program Instance toy_wasmi_exec_laws : WasmiExecLaws := {|
  exec_fresh := λ e, ti_status e = TFresh;
  exec_resumable := λ e sig, ti_status e = TWait sig;
  host_func := λ s i sig, (i, sig) ∈ st_hosts s;
|}.
Next Obligation. intros e sig Hs. simpl in *. by rewrite Hs. Qed.
Next Obligation. intros s [] ps e He Hf; simplify_eq/=; [|done]. destruct Hf. by eexists _, _. Qed.
Next Obligation.
  intros s e ext r e' s' Hrun Hs. simpl in *. rewrite Hs in Hrun.
  apply toy_exec_law in Hrun as (? & ? & -> & ?). done.
Qed.
Next Obligation.
  intros s e v ext r e' s' sig Hrun Hs _. simpl in *. rewrite Hs in Hrun.
  apply toy_exec_law in Hrun as (? & ? & -> & ?). done.
Qed.
Next Obligation. intros s sig i ps e s1 ext r e' s' He Hs. simplify_eq/=. done. Qed.
Next Obligation.
  intros m r s b i sig Hnew Hi. simpl in *.
  destruct (toy_resolve _ _) eqn:Hr; simplify_eq/=. by eapply toy_resolve_law.
Qed.
Next Obligation. by intros ???? [= -> ->]. Qed.
Next Obligation. intros s m off bs s' i sig Hset. simpl in *. by erewrite toy_set_hosts. Qed.

#[global] Program Instance toy_program_laws : ProgramLaws.
Next Obligation. intros s name f. simpl. case_match; [by intros [= <-] (? & ? & ?)|].
  case_match; [by destruct (tm_memory _)|]. by case_match.
Qed.
Next Obligation. intros s t i f. simpl. destruct (_ !! _); [by intros [= <-] (? & ? & ?)|done]. Qed.
#[global] Instance toy_wasmi_laws : WasmiLaws := {| wasmi_exec_laws := toy_wasmi_exec_laws |}.

#[global] Program Instance toy_memory_laws : WasmiMemoryLaws := {|
  mem_size := λ s _, Z.of_nat (length (st_mem s));
|}.
Next Obligation.
  intros s m off n ??. simpl. unfold toy_get. case_bool_decide; split.
  - intros _. lia.
  - intros _. by eexists.
  - by intros [? ?].
  - intros. lia.
Qed.
Next Obligation.
  intros s m off n bs. simpl. unfold toy_get. case_bool_decide; [|done]. intros [= <-].
  rewrite length_take, length_drop. lia.
Qed.
Next Obligation.
  intros s m off bs ?. simpl. unfold toy_set. case_bool_decide; split.
  - intros _. lia.
  - intros _. by eexists.
  - by intros [? ?].
  - intros. lia.
Qed.
Next Obligation.
  intros s m off bs s' m'. simpl. unfold toy_set. case_bool_decide; [|done]. intros [= <-].
  simpl. rewrite !length_app, length_take, length_drop. lia.
Qed.
Next Obligation.
  intros s m off bs s'. simpl. unfold toy_set, toy_get. case_bool_decide as Hb; [|done].
  intros [= <-]. simpl. rewrite bool_decide_true.
  - rewrite drop_app_length' by (rewrite length_take; lia).
    by rewrite Nat2Z.id, take_app_length.
  - rewrite !length_app, length_take, length_drop. lia.
Qed.
Next Obligation.
  intros s m off bs s' off' n. simpl. unfold toy_set, toy_get. case_bool_decide as Hb; [|done].
  intros [= <-] ??? Hdisj. simpl. rewrite !length_app, length_take, length_drop.
  case_bool_decide; case_bool_decide; try lia; [|done]. f_equal. apply list_eq. intros j.
  destruct (decide (j < Z.to_nat n)%nat).
  2:{ by rewrite !lookup_take_ge by lia. }
  rewrite !lookup_take_lt, !lookup_drop by done. destruct Hdisj.
  - rewrite lookup_app_l by (rewrite length_take; lia). by rewrite lookup_take_lt by lia.
  - rewrite lookup_app_r by (rewrite length_take; lia).
    rewrite lookup_app_r by (rewrite length_take; lia).
    rewrite lookup_drop, length_take. f_equal. lia.
Qed.

(** A module without imports nor memory whose entry point returns at once. *)
Definition toy_trivial : toy_module :=
  {| tm_imports := []; tm_memory := None; tm_entry := "_start"; tm_code := []; tm_table := [] |}.

Example toy_trivial_runs :
  (match ProcessStateMachine_new toy_trivial tt (λ _ _ _, None) with
   | Done (inr vm) => (λ p, snd p) <$> Thread_run vm 0 None
   | _ => NoFuel
   end) = Done (inr (ExecThreadFinished 0 None tt)).
Proof. reflexivity. Qed.
