(* ===== verification/Processes.v ===== *)
(** The collection of processes ([core/src/scheduler/processes.rs]).

    A [ProcessesCollection] groups state machines under process identifiers,
    gives every thread an identifier, resolves the imports of modules against
    the registered extrinsics, and runs one ready thread at a time. *)
From S2P Require Import Prelude IdPool WasmValue Ffi Vm.

Section processes.
Context `{Rng} `{Wasmi} `{!HashIter Z}.

(** [struct Thread]: [value_back] is the value to resume with, present when
    the thread is ready to run. *)
Record Thread (TTud : Type) := {
  th_user_data : TTud;
  thread_id : ThreadId;
  value_back : option (option WasmValue);
}.
Arguments th_user_data {TTud}.
Arguments thread_id {TTud}.
Arguments value_back {TTud}.
Arguments Build_Thread {TTud}.

Record Process (TPud TTud : Type) := {
  state_machine : ProcessStateMachine (Thread TTud);
  pr_user_data : TPud;
}.
Arguments state_machine {TPud TTud}.
Arguments pr_user_data {TPud TTud}.
Arguments Build_Process {TPud TTud}.

Record ProcessesCollection (TExtr TPud TTud : Type) := {
  pid_pool : IdPool;
  tid_pool : IdPool;
  processes : gmap Pid (Process TPud TTud);
  extrinsics : gmap nat TExtr;
  extrinsics_id_assign : gmap (string * string) (nat * Signature);
}.
Arguments pid_pool {TExtr TPud TTud}.
Arguments tid_pool {TExtr TPud TTud}.
Arguments processes {TExtr TPud TTud}.
Arguments extrinsics {TExtr TPud TTud}.
Arguments extrinsics_id_assign {TExtr TPud TTud}.
Arguments Build_ProcessesCollection {TExtr TPud TTud}.

Record ProcessesCollectionBuilder (TExtr : Type) := {
  b_pid_pool : IdPool;
  b_extrinsics : gmap nat TExtr;
  b_extrinsics_id_assign : gmap (string * string) (nat * Signature);
}.
Arguments b_pid_pool {TExtr}.
Arguments b_extrinsics {TExtr}.
Arguments b_extrinsics_id_assign {TExtr}.
Arguments Build_ProcessesCollectionBuilder {TExtr}.

(** The process and thread handles of the variants are the identifier of the
    process, and that identifier with the index of the thread. *)
Inductive RunOneOutcome (TExtr TPud TTud : Type) :=
  | ProcessFinished (pid : Pid) (user_data : TPud) (dead_threads : list (ThreadId * TTud))
      (outcome : wasmi_Trap + option WasmValue)
  | ThreadFinished (thread_id : ThreadId) (process : Pid) (user_data : TTud)
      (value : option WasmValue)
  | Interrupted (thread : Pid * nat) (id : TExtr) (params : list WasmValue)
  | Idle.
Arguments ProcessFinished {TExtr TPud TTud}.
Arguments ThreadFinished {TExtr TPud TTud}.
Arguments Interrupted {TExtr TPud TTud}.
Arguments Idle {TExtr TPud TTud}.

Section collection.
Context {TExtr TPud TTud : Type}.
Implicit Types (c : ProcessesCollection TExtr TPud TTud) (p : Process TPud TTud).
Local Abbreviation coll := (ProcessesCollection TExtr TPud TTud).
Local Abbreviation builder := (ProcessesCollectionBuilder TExtr).

Definition with_processes (ps : gmap Pid (Process TPud TTud)) c : coll :=
  {| pid_pool := pid_pool c; tid_pool := tid_pool c; processes := ps;
     extrinsics := extrinsics c; extrinsics_id_assign := extrinsics_id_assign c |}.

Definition with_pid_pool (i : IdPool) c : coll :=
  {| pid_pool := i; tid_pool := tid_pool c; processes := processes c;
     extrinsics := extrinsics c; extrinsics_id_assign := extrinsics_id_assign c |}.

Definition with_tid_pool (i : IdPool) c : coll :=
  {| pid_pool := pid_pool c; tid_pool := i; processes := processes c;
     extrinsics := extrinsics c; extrinsics_id_assign := extrinsics_id_assign c |}.

Definition set_process (pid : Pid) p c : coll := with_processes (<[pid := p]> (processes c)) c.

(** * Builder *)

Definition builder_default : builder :=
  {| b_pid_pool := IdPool_new; b_extrinsics := ∅; b_extrinsics_id_assign := ∅ |}.

Definition builder_reserve_pid : M builder Pid :=
  zoom b_pid_pool (λ i b, {| b_pid_pool := i; b_extrinsics := b_extrinsics b;
                             b_extrinsics_id_assign := b_extrinsics_id_assign b |}) assign.

Definition with_extrinsic (b : builder) (interface f_name : string) (signature : Signature)
    (token : TExtr) : outcome builder :=
  let index := size (b_extrinsics b) in
  _ ← debug_assert (bool_decide (b_extrinsics b !! index = None));
  match b_extrinsics_id_assign b !! (interface, f_name) with
  | Some _ => Panic PExplicit
  | None =>
      Done {| b_pid_pool := b_pid_pool b;
              b_extrinsics := <[index := token]> (b_extrinsics b);
              b_extrinsics_id_assign :=
                <[(interface, f_name) := (index, signature)]> (b_extrinsics_id_assign b) |}
  end.

Definition builder_build (b : builder) : outcome coll :=
  _ ← debug_assert (bool_decide
        (size (b_extrinsics b) = size (b_extrinsics_id_assign b)));
  Done {| pid_pool := b_pid_pool b; tid_pool := IdPool_new; processes := ∅;
          extrinsics := b_extrinsics b;
          extrinsics_id_assign := b_extrinsics_id_assign b |}.

(** * Processes and threads of the collection *)

Definition pids c : list Pid := (hash_iter (processes c)).*1.

(** [process_by_id]: the handle is the identifier. *)
Definition process_by_id c (pid : Pid) : option Pid :=
  match processes c !! pid with Some _ => Some pid | None => None end.

(** Through a handle the process exists. *)
Definition entry c (pid : Pid) : outcome (Process TPud TTud) :=
  or_unreachable (processes c !! pid).

Definition find_thread_index p (id : ThreadId) : option nat :=
  fst <$> list_find (λ t, thread_id (ts_user_data t) = id) (threads (state_machine p)).

(** [thread_by_id]: the [break] only leaves the inner loop, so that the last
    process of the iteration wins. *)
Definition thread_by_id c (id : ThreadId) : option (Pid * nat) :=
  fold_left (λ loop_out '(pid, process),
    match find_thread_index process id with
    | Some thread_index => Some (pid, thread_index)
    | None => loop_out
    end) (hash_iter (processes c)) None.

(** The closure that [execute] passes to [ProcessStateMachine::new]. *)
Definition resolve_extrinsic c (interface function : string)
    (obtained_signature : wasmi_Signature) : option nat :=
  match extrinsics_id_assign c !! (interface, function) with
  | Some (index, expected_signature) =>
      if matches_wasmi expected_signature obtained_signature then Some index else None
  | None => None
  end.

Definition execute (module : wasmi_Module) (proc_user_data : TPud)
    (main_thread_user_data : TTud) : M coll (NewErr + Pid) :=
  main_thread_id ← zoom tid_pool with_tid_pool assign;
  let main_thread_data := {| th_user_data := main_thread_user_data;
    thread_id := main_thread_id; value_back := Some None |} in
  c ← get;
  state_machine ← liftM (ProcessStateMachine_new module main_thread_data (resolve_extrinsic c));
  match state_machine with
  | inl e => mret (inl e)
  | inr state_machine =>
      new_pid ← zoom pid_pool with_pid_pool assign;
      _ ← modify (set_process new_pid
            {| state_machine := state_machine; pr_user_data := proc_user_data |});
      c ← get;
      match process_by_id c new_pid with
      | Some p => mret (inr p)
      | None => panic PUnreachable
      end
  end.

(** [Process::ready_to_run_thread_index]. *)
Definition ready_to_run_thread_index p : option nat :=
  fst <$> list_find (λ t, value_back (ts_user_data t) ≠ None) (threads (state_machine p)).

Definition thread_data (t : Thread TTud) : ThreadId * TTud := (thread_id t, th_user_data t).

(** The first ready thread, in the iteration order of the hash map. *)
Definition find_ready c : option (Pid * nat) :=
  head (omap (λ '(k, p), i ← ready_to_run_thread_index p; Some (k, i))
         (hash_iter (processes c))).

Definition run : M coll (RunOneOutcome TExtr TPud TTud) := λ c,
  match find_ready c with
  | None => Done (Idle, c)
  | Some (pid, inner_thread_index) =>
      process ← entry c pid;
      let vm := state_machine process in
      thread_index ← or_unreachable (thread vm inner_thread_index);
      ud ← thread_user_data vm thread_index;
      value_back ← or_unreachable (value_back ud);
      let vm := thread_set_user_data vm thread_index
        {| th_user_data := th_user_data ud; thread_id := thread_id ud; value_back := None |} in
      '(vm, run_outcome) ← Thread_run vm thread_index value_back;
      let c' := set_process pid
        {| state_machine := vm; pr_user_data := pr_user_data process |} c in
      match run_outcome with
      | inl (RunErr_BadValueTy _ _) => Panic PExplicit
      | inl RunErr_Poisoned => Panic PUnreachable
      | inr (ExecThreadFinished 0 return_value main_thread_user_data) =>
          let other_threads_ud := into_user_datas vm in
          let dead_threads :=
            thread_data main_thread_user_data :: (thread_data <$> other_threads_ud) in
          Done (ProcessFinished pid (pr_user_data process) dead_threads (inr return_value),
                with_processes (delete pid (processes c)) c)
      | inr (ExecThreadFinished _ return_value user_data) =>
          Done (ThreadFinished (thread_id user_data) pid (th_user_data user_data) return_value,
                c')
      | inr (ExecInterrupted _ id params) =>
          extrinsic ← or_unreachable (extrinsics c !! id);
          Done (Interrupted (pid, inner_thread_index) extrinsic params, c')
      | inr (ExecErrored _ error) =>
          Done (ProcessFinished pid (pr_user_data process)
                  (thread_data <$> into_user_datas vm) (inl error),
                with_processes (delete pid (processes c)) c)
      end
  end.

(** * [ProcessesCollectionProc] *)

Definition proc_user_data c (pid : Pid) : outcome TPud :=
  p ← entry c pid; Done (pr_user_data p).

(** [start_thread]: the index of the handle it returns is [num_threads()],
    read after the new thread was added. *)
Definition start_thread (pid : Pid) (fn_index : Z) (params : list WasmValue)
    (user_data : TTud) : M coll (StartErr + Pid * nat) :=
  tid ← zoom tid_pool with_tid_pool assign;
  let thread_data := {| th_user_data := user_data; thread_id := tid;
    value_back := Some None |} in
  c ← get;
  p ← liftM (entry c pid);
  r ← liftM (start_thread_by_id (state_machine p) fn_index params thread_data);
  match r with
  | inl e => mret (inl e)
  | inr vm =>
      _ ← modify (set_process pid {| state_machine := vm; pr_user_data := pr_user_data p |});
      let thread_index := num_threads vm in
      mret (inr (pid, thread_index))
  end.

Definition main_thread (pid : Pid) : Pid * nat := (pid, 0%nat).

Definition proc_read_memory c (pid : Pid) (offset size : Z) : outcome (option bytes) :=
  p ← entry c pid; read_memory (state_machine p) offset size.

Definition proc_write_memory (pid : Pid) (offset : Z) (value : bytes) : M coll (option unit) :=
  λ c, p ← entry c pid;
  r ← write_memory (state_machine p) offset value;
  match r with
  | None => Done (None, c)
  | Some vm => Done (Some tt, set_process pid
      {| state_machine := vm; pr_user_data := pr_user_data p |} c)
  end.

Definition abort (pid : Pid) : M coll (TPud * list (ThreadId * TTud)) := λ c,
  p ← entry c pid;
  Done ((pr_user_data p, thread_data <$> into_user_datas (state_machine p)),
        with_processes (delete pid (processes c)) c).

(** * [ProcessesCollectionThread] *)

(** [inner]: the thread exists through its handle. *)
Definition inner c (t : Pid * nat) : outcome (Thread TTud) :=
  p ← entry c t.1;
  i ← or_unreachable (thread (state_machine p) t.2);
  thread_user_data (state_machine p) i.

(** A write through the reference that [inner().into_user_data()] gives. *)
Definition set_inner (t : Pid * nat) (d : Thread TTud) : M coll unit := λ c,
  p ← entry c t.1;
  i ← or_unreachable (thread (state_machine p) t.2);
  Done (tt, set_process t.1 {| state_machine := thread_set_user_data (state_machine p) i d;
                               pr_user_data := pr_user_data p |} c).

Definition tid c (t : Pid * nat) : outcome ThreadId := d ← inner c t; Done (thread_id d).

Definition next_thread c (t : Pid * nat) : outcome (option (Pid * nat)) :=
  p ← entry c t.1;
  let thread_index := S t.2 in
  if bool_decide (num_threads (state_machine p) ≤ thread_index)%nat then Done None
  else Done (Some (t.1, thread_index)).

Definition process_user_data c (t : Pid * nat) : outcome TPud := proc_user_data c t.1.

(** A write through the reference that [process_user_data] gives. *)
Definition set_process_user_data (t : Pid * nat) (d : TPud) : M coll unit := λ c,
  p ← entry c t.1;
  Done (tt, set_process t.1 {| state_machine := state_machine p; pr_user_data := d |} c).

Definition user_data c (t : Pid * nat) : outcome TTud := d ← inner c t; Done (th_user_data d).

(** A write through the reference that [user_data] gives. *)
Definition set_user_data (t : Pid * nat) (ud : TTud) : M coll unit :=
  c ← get;
  d ← liftM (inner c t);
  set_inner t {| th_user_data := ud; thread_id := thread_id d; value_back := value_back d |}.

Definition resume (t : Pid * nat) (value : option WasmValue) : M coll unit :=
  c ← get;
  d ← liftM (inner c t);
  if bool_decide (value_back d ≠ None) then panic PExplicit else
  set_inner t {| th_user_data := th_user_data d; thread_id := thread_id d;
                 value_back := Some value |}.

End collection.

(** * Soundness of the collection *)

Section soundness.
Context `{!WasmiLaws} {TExtr TPud TTud : Type}.
Implicit Types (c : ProcessesCollection TExtr TPud TTud) (p : Process TPud TTud).
Local Abbreviation coll := (ProcessesCollection TExtr TPud TTud).

(** A thread that is ready has a value of the type its execution waits for. *)
Definition ready_ok (t : ThreadState (Thread TTud)) : Prop :=
  match value_back (ts_user_data t) with
  | Some v => ty <$> v = expected_ty t
  | None => True
  end.

(** The external function [i] of signature [sig] is a registered extrinsic. *)
Definition registered c (i : nat) (sig : wasmi_Signature) (token : TExtr) : Prop :=
  ∃ name s, extrinsics_id_assign c !! name = Some (i, s) ∧ to_wasmi_Signature s = sig ∧
    extrinsics c !! i = Some token.

Definition process_ok c p : Prop :=
  let vm := state_machine p in
  vm_ok vm ∧ is_poisoned vm = false ∧ Forall ready_ok (threads vm) ∧
  ∀ i sig, host_func (module_ vm) i sig → ∃ token, registered c i sig token.

(** Every process is sound, and every name that is registered has a token. *)
Definition coll_ok c : Prop :=
  (∀ pid p, processes c !! pid = Some p → process_ok c p) ∧
  (∀ name i s, extrinsics_id_assign c !! name = Some (i, s) → is_Some (extrinsics c !! i)).

(** [c'] has the registered extrinsics of [c]. *)
Definition same_extrinsics c c' : Prop :=
  extrinsics c' = extrinsics c ∧ extrinsics_id_assign c' = extrinsics_id_assign c.

Lemma process_ok_ext c c' p : same_extrinsics c c' → process_ok c p → process_ok c' p.
Proof. unfold process_ok, registered. intros [-> ->]. done. Qed.

Lemma coll_ok_insert c c' pid p :
  coll_ok c → process_ok c p → same_extrinsics c c' →
  processes c' = <[pid := p]> (processes c) → coll_ok c'.
Proof.
  intros [Hps Hreg] Hp Hsame Hc'. split.
  - intros pid' p'. rewrite Hc'. intros [[<- <-]|[? ?]]%lookup_insert_Some;
      eapply process_ok_ext; eauto.
  - destruct Hsame as [-> ->]. done.
Qed.

Lemma coll_ok_delete c pid : coll_ok c → coll_ok (with_processes (delete pid (processes c)) c).
Proof.
  intros [Hps Hreg]. split; [|done]. intros pid' p'. simpl.
  intros [? ?]%lookup_delete_Some. by apply (Hps pid').
Qed.

(** ** Which thread runs *)

Definition is_ready (t : ThreadState (Thread TTud)) : Prop := value_back (ts_user_data t) ≠ None.

Lemma ready_index_Some p i :
  ready_to_run_thread_index p = Some i →
  ∃ t v, threads (state_machine p) !! i = Some t ∧ value_back (ts_user_data t) = Some v.
Proof.
  unfold ready_to_run_thread_index. intros Hf. apply fmap_Some in Hf as ([j t] & Hfind & ->).
  apply list_find_Some in Hfind as (Ht & Hr & _). exists t. simpl.
  destruct (value_back _); [eauto|done].
Qed.

Lemma ready_index_None p :
  ready_to_run_thread_index p = None → Forall (λ t, ¬ is_ready t) (threads (state_machine p)).
Proof.
  unfold ready_to_run_thread_index. intros Hf%fmap_None. by apply list_find_None in Hf.
Qed.

Lemma find_ready_Some c pid i :
  find_ready c = Some (pid, i) →
  ∃ p t v, processes c !! pid = Some p ∧ threads (state_machine p) !! i = Some t ∧
    value_back (ts_user_data t) = Some v.
Proof.
  unfold find_ready. rewrite head_lookup. intros Hh%list_elem_of_lookup_2.
  apply list_elem_of_omap in Hh as ([k p] & Hin%elem_of_hash_iter & Hb).
  apply bind_Some in Hb as (j & Hj & [= -> ->]).
  apply ready_index_Some in Hj as (t & v & ? & ?). eauto 10.
Qed.

Lemma find_ready_None c pid p :
  find_ready c = None → processes c !! pid = Some p →
  Forall (λ t, ¬ is_ready t) (threads (state_machine p)).
Proof.
  unfold find_ready. intros Hh Hp. apply ready_index_None.
  destruct (ready_to_run_thread_index p) as [i|] eqn:Hi; [|done].
  destruct (omap _ _) as [|x l] eqn:Ho; [|done].
  assert ((pid, i) ∈ ([] : list (Pid * nat))) as []%elem_of_nil.
  rewrite <-Ho. apply list_elem_of_omap. exists (pid, p).
  split; [by apply elem_of_hash_iter|]. by rewrite Hi.
Qed.

(** ** One run *)

(** What a run reports, in terms of the collection before it and after it. *)
Definition run_spec c (o : RunOneOutcome TExtr TPud TTud) c' : Prop :=
  pid_pool c' = pid_pool c ∧ tid_pool c' = tid_pool c ∧ same_extrinsics c c' ∧
  match o with
  | Idle => c' = c ∧ ∀ pid p, processes c !! pid = Some p →
      Forall (λ t, ¬ is_ready t) (threads (state_machine p))
  | ProcessFinished pid ud dead _ =>
      ∃ p, processes c !! pid = Some p ∧ ud = pr_user_data p ∧
        dead = thread_data <$> into_user_datas (state_machine p) ∧
        processes c' = delete pid (processes c)
  | ThreadFinished id pid ud _ =>
      ∃ p p' i t, processes c !! pid = Some p ∧ threads (state_machine p) !! S i = Some t ∧
        is_ready t ∧ thread_data (ts_user_data t) = (id, ud) ∧
        processes c' = <[pid := p']> (processes c) ∧ pr_user_data p' = pr_user_data p ∧
        memory (state_machine p') = memory (state_machine p) ∧
        threads (state_machine p') = delete (S i) (threads (state_machine p))
  | Interrupted (pid, i) token params =>
      ∃ p p' t t' id sig, processes c !! pid = Some p ∧
        threads (state_machine p) !! i = Some t ∧ is_ready t ∧
        registered c id sig token ∧ ty <$> params = from_wasmi_ValueType <$> wsig_params sig ∧
        processes c' = <[pid := p']> (processes c) ∧ pr_user_data p' = pr_user_data p ∧
        memory (state_machine p') = memory (state_machine p) ∧
        threads (state_machine p') = <[i := t']> (threads (state_machine p)) ∧
        thread_data (ts_user_data t') = thread_data (ts_user_data t) ∧
        value_back (ts_user_data t') = None ∧
        expected_ty t' = from_wasmi_ValueType <$> wsig_return_type sig
  end.

Lemma thread_set_user_data_ok vm i d :
  vm_ok vm → vm_ok (thread_set_user_data (T := Thread TTud) vm i d).
Proof.
  unfold vm_ok. simpl. intros Hok Hp. destruct (Hok Hp) as [Hnil Hall]. split.
  - intros Hn. apply (f_equal length) in Hn. rewrite length_alter in Hn.
    by destruct (threads vm).
  - apply Forall_alter; [done|]. intros t Ht (e & He & Hx). by exists e.
Qed.

Lemma into_user_datas_lookup {T} (vm : ProcessStateMachine T) i :
  into_user_datas vm !! i = ts_user_data <$> threads vm !! i.
Proof. apply list_lookup_fmap. Qed.

(** Clearing [value_back] does not show in what is reported of the threads. *)
Lemma thread_data_cleared vm i t v :
  threads vm !! i = Some t →
  thread_data <$> into_user_datas (thread_set_user_data vm i
    {| th_user_data := th_user_data (ts_user_data t);
       thread_id := thread_id (ts_user_data t); value_back := v |})
  = thread_data (TTud := TTud) <$> into_user_datas vm.
Proof.
  intros Ht. apply list_eq. intros j.
  rewrite !list_lookup_fmap, !into_user_datas_lookup. simpl. rewrite list_lookup_alter.
  case_decide as Hij; [|done]. subst j. by rewrite Ht.
Qed.

(** The machine of a process whose thread [i] is about to run. *)
Definition clear_value_back (vm : ProcessStateMachine (Thread TTud)) (i : nat)
    (d : Thread TTud) : ProcessStateMachine (Thread TTud) :=
  thread_set_user_data vm i
    {| th_user_data := th_user_data d; thread_id := thread_id d; value_back := None |}.

Lemma run_process_sound c p i t v :
  process_ok c p → threads (state_machine p) !! i = Some t →
  value_back (ts_user_data t) = Some v →
  let vm := clear_value_back (state_machine p) i (ts_user_data t) in
  match Thread_run vm i v with
  | Done (vm', inr o) => vm_ok vm' ∧ run_effect vm i vm' o ∧
      (∀ j sig, host_func (module_ vm') j sig → ∃ token, registered c j sig token) ∧
      match o with ExecInterrupted j id params => j = i ∧ call_ok vm i vm' id params | _ => True end
  | Done (_, inl _) | NoFuel => False
  | Panic r => r = PUnimplemented
  end.
Proof.
  intros (Hok & Hp & Hready & Hhosts) Ht Hv vm.
  pose proof (Forall_lookup_1 _ _ _ _ Hready Ht) as Hty. unfold ready_ok in Hty. rewrite Hv in Hty.
  assert (Hok' : vm_ok vm) by by apply thread_set_user_data_ok.
  assert (Ht' : threads vm !! i = Some {| execution := execution t; interrupted := interrupted t;
    ts_user_data := {| th_user_data := th_user_data (ts_user_data t);
      thread_id := thread_id (ts_user_data t); value_back := None |} |}).
  { simpl. by rewrite list_lookup_alter, decide_True, Ht. }
  pose proof (thread_run_sound vm i _ v Hok' Hp Ht' Hty) as Hrun.
  destruct (Thread_run vm i v) as [[vm' [?|o]]|?|] eqn:Hr; try done.
  destruct Hrun as [? ?].
  destruct (thread_run_hosts vm i _ v vm' o Hok' Hp Ht' Hty Hr) as [Hsub ?].
  split_and!; try done. intros j sig Hj. apply Hhosts. by apply Hsub.
Qed.

(** The threads that an interruption leaves. *)
Lemma alter_cleared vm i t e :
  threads vm !! i = Some t →
  alter (λ t, {| execution := Some e; interrupted := true; ts_user_data := ts_user_data t |}) i
    (threads (clear_value_back vm i (ts_user_data t)))
  = <[i := {| execution := Some e; interrupted := true;
       ts_user_data := {| th_user_data := th_user_data (ts_user_data t);
         thread_id := thread_id (ts_user_data t); value_back := None |} |}]> (threads vm).
Proof.
  intros Ht. simpl. rewrite list_alter_alter_eq. apply list_eq. intros j.
  rewrite list_lookup_alter, list_lookup_insert. case_decide as Hij.
  - subst j. rewrite Ht, decide_True; [done|]. split; [done|]. by eapply lookup_lt_Some.
  - rewrite decide_False; [done|]. by intros [? _].
Qed.

Lemma ready_ok_cleared c p vm' i t (e : wasmi_FuncInvocation) :
  process_ok c p → threads (state_machine p) !! i = Some t →
  threads vm' = alter (λ t, {| execution := Some e; interrupted := true;
      ts_user_data := ts_user_data t |}) i
    (threads (clear_value_back (state_machine p) i (ts_user_data t))) →
  Forall ready_ok (threads vm').
Proof.
  intros (_ & _ & Hready & _) Ht ->. rewrite alter_cleared by done.
  by apply Forall_insert.
Qed.

(** What a thread that returned leaves of the machine. *)
Lemma run_effect_finished p i t vm' rv d j :
  threads (state_machine p) !! i = Some t →
  run_effect (clear_value_back (state_machine p) i (ts_user_data t)) i vm'
    (ExecThreadFinished j rv d) →
  j = i ∧ thread_data d = thread_data (ts_user_data t) ∧
  threads vm' = delete i (threads (state_machine p)) ∧
  is_poisoned vm' = bool_decide (i = 0%nat) ∧ memory vm' = memory (state_machine p).
Proof.
  intros Ht (Hmem & Htbl & -> & Hud & Hth & Hpois). simpl in Hth, Hmem, Htbl. rewrite delete_alter in Hth.
  unfold thread_user_data, Prelude.index in Hud. simpl in Hud.
  rewrite list_lookup_alter, decide_True, Ht in Hud by done. simpl in Hud. by simplify_eq.
Qed.

Lemma run_finished_sound c pid p i t vm' rv d j :
  coll_ok c → processes c !! pid = Some p → threads (state_machine p) !! i = Some t →
  is_ready t → vm_ok vm' →
  run_effect (clear_value_back (state_machine p) i (ts_user_data t)) i vm'
    (ExecThreadFinished j rv d) →
  (∀ j sig, host_func (module_ vm') j sig → ∃ token, registered c j sig token) →
  if decide (j = 0%nat) then
    run_spec c (ProcessFinished pid (pr_user_data p)
      (thread_data d :: (thread_data <$> into_user_datas vm')) (inr rv))
      (with_processes (delete pid (processes c)) c)
  else
    let c' := set_process pid {| state_machine := vm'; pr_user_data := pr_user_data p |} c in
    coll_ok c' ∧ run_spec c (ThreadFinished (thread_id d) pid (th_user_data d) rv) c'.
Proof.
  intros Hc Hp Ht Hrd Hvm' Heff Hhosts.
  destruct (proj1 Hc _ _ Hp) as (_ & _ & Hready & _).
  apply (run_effect_finished p i t) in Heff as (-> & Hd & Hth & Hpois & Hmem); [|done].
  case_decide as Hi; [subst i|cbv zeta; split].
  - split_and!; try done. exists p. split_and!; try done.
    rewrite Hd. unfold into_user_datas. rewrite Hth.
    destruct (threads (state_machine p)) as [|t0 l]; [done|]. by simplify_eq/=.
  - eapply (coll_ok_insert c _ pid); [done| |done|done]. split_and!; try done.
    simpl. rewrite Hth. by apply Forall_delete.
  - split_and!; try done. destruct i as [|i]; [done|].
    eexists p, _, i, t. split_and!; try done.
Qed.

Lemma run_interrupted_sound c pid p i t vm' id params :
  coll_ok c → processes c !! pid = Some p → threads (state_machine p) !! i = Some t →
  is_ready t → vm_ok vm' →
  run_effect (clear_value_back (state_machine p) i (ts_user_data t)) i vm'
    (ExecInterrupted i id params) →
  (∀ j sig, host_func (module_ vm') j sig → ∃ token, registered c j sig token) →
  call_ok (clear_value_back (state_machine p) i (ts_user_data t)) i vm' id params →
  let c' := set_process pid {| state_machine := vm'; pr_user_data := pr_user_data p |} c in
  ∃ token, extrinsics c !! id = Some token ∧
    coll_ok c' ∧ run_spec c (Interrupted (pid, i) token params) c'.
Proof.
  intros Hc Hp Ht Hrd Hvm' (Hmem & _ & _ & Hpois & e & Hth) Hhosts (sig & Hh & Hargs & t' & Ht' & Hret) c'.
  pose proof (proj1 Hc _ _ Hp) as Hpok. destruct Hpok as (? & ? & Hready & Hreg).
  destruct (Hreg id sig Hh) as [token Htok].
  assert (extrinsics c !! id = Some token) by (by destruct Htok as (? & ? & ? & ? & ?)).
  exists token. split; [done|]. split.
  - eapply (coll_ok_insert c _ pid); [done| |done|done]. split_and!; try done.
    eapply ready_ok_cleared; [by apply (proj1 Hc pid)|done|done].
  - split_and!; try done.
    rewrite alter_cleared in Hth by done. rewrite Hth, list_lookup_insert, decide_True in Ht'.
    2:{ split; [done|]. by eapply lookup_lt_Some. }
    injection Ht' as <-.
    eexists p, {| state_machine := vm'; pr_user_data := pr_user_data p |}, t, _, id, sig.
    by split_and!; [..|exact Hth| | |exact Hret].
Qed.

Lemma run_sound c :
  coll_ok c →
  match run c with
  | Done (o, c') => coll_ok c' ∧ run_spec c o c'
  | Panic r => r = PUnimplemented
  | NoFuel => False
  end.
Proof.
  intros Hc. unfold run. destruct (find_ready c) as [[pid i]|] eqn:Hf.
  2:{ split; [done|]. split_and!; try done. intros. by eapply find_ready_None. }
  apply find_ready_Some in Hf as (p & t & v & Hp & Ht & Hv).
  pose proof (proj1 Hc _ _ Hp) as Hpok.
  unfold entry. rewrite Hp. simpl. unfold thread. rewrite bool_decide_true by (by eapply lookup_lt_Some).
  simpl. unfold thread_user_data, Prelude.index. rewrite Ht. simpl. rewrite Hv. simpl.
  pose proof (run_process_sound c p i t v Hpok Ht Hv) as Hrun. cbv zeta in Hrun.
  fold (clear_value_back (state_machine p) i (ts_user_data t)).
  destruct (Thread_run _ i v) as [[vm' [?|o]]|?|] eqn:Hr; try done. simpl.
  destruct Hrun as (Hvm' & Heff & Hhosts & Hcall).
  assert (is_ready t) as Hrd by (unfold is_ready; by rewrite Hv).
  destruct o as [j rv d|j id params|j err].
  - pose proof (run_finished_sound _ _ _ _ _ _ _ _ _ Hc Hp Ht Hrd Hvm' Heff Hhosts).
    destruct j; simpl in *; [|done]. split; [by apply coll_ok_delete|done].
  - destruct Hcall as [-> Hcall].
    destruct (run_interrupted_sound _ _ _ _ _ _ _ _ Hc Hp Ht Hrd Hvm' Heff Hhosts Hcall)
      as (token & -> & ? & ?). done.
  - destruct Heff as (_ & _ & _ & Hdata & _). split; [by apply coll_ok_delete|].
    split_and!; try done. exists p. split_and!; try done. rewrite Hdata.
    by apply thread_data_cleared.
Qed.

(** What the interpreter makes of the thread [t] of [vm], given the value [v]
    for the call that it waits for. *)
Definition interpreted (vm : ProcessStateMachine (Thread TTud)) (t : ThreadState (Thread TTud))
    (v : option WasmValue) (r : ResumableError Interrupt wasmi_Trap + option wasmi_RuntimeValue)
    (e' : wasmi_FuncInvocation) (st : wasmi_Store) : Prop :=
  ∃ e, execution t = Some e ∧
    if interrupted t
    then ∃ w, map_outcome_opt to_RuntimeValue v = Done w ∧
      resume_execution (module_ vm) e w DummyExternals = (r, e', st)
    else v = None ∧ start_execution (module_ vm) e DummyExternals = (r, e', st).

(** The report on the thread [i] of process [pid], after the interpreter ended
    with [r], leaving the invocation [e'] and the instance [st]. *)
Definition reported c (pid : Pid) (i : nat) p (t : ThreadState (Thread TTud))
    (r : ResumableError Interrupt wasmi_Trap + option wasmi_RuntimeValue)
    (e' : wasmi_FuncInvocation) (st : wasmi_Store)
    (o : RunOneOutcome TExtr TPud TTud) c' : Prop :=
  let finished out := o = ProcessFinished pid (pr_user_data p)
    (thread_data <$> into_user_datas (state_machine p)) out ∧ processes c' = delete pid (processes c) in
  match r with
  | inr rv => ∃ rv', map_outcome_opt from_RuntimeValue rv = Done rv' ∧
      match i with
      | O => finished (inr rv')
      | _ => o = ThreadFinished (thread_id (ts_user_data t)) pid (th_user_data (ts_user_data t)) rv' ∧
          (λ q, module_ (state_machine q)) <$> processes c' !! pid = Some st
      end
  | inl (ReTrap (TrapHost int)) => ∃ token params, extrinsics c !! int_index int = Some token ∧
      map_outcome from_RuntimeValue (int_args int) = Done params ∧
      o = Interrupted (pid, i) token params ∧
      ∃ p' t', processes c' !! pid = Some p' ∧ module_ (state_machine p') = st ∧
        threads (state_machine p') !! i = Some t' ∧ execution t' = Some e' ∧ interrupted t' = true
  | inl (ReTrap (TrapOther trap)) => finished (inl trap)
  | _ => False
  end.

(** A run: nothing if no thread is ready, and otherwise that of one that is. *)
Definition ran c (o : RunOneOutcome TExtr TPud TTud) c' : Prop :=
  match o with
  | Idle => ∀ pid p, processes c !! pid = Some p → Forall (λ t, ¬ is_ready t) (threads (state_machine p))
  | _ => ∃ pid i p t v r e' st, processes c !! pid = Some p ∧ threads (state_machine p) !! i = Some t ∧
      value_back (ts_user_data t) = Some v ∧ interpreted (state_machine p) t v r e' st ∧
      reported c pid i p t r e' st o c'
  end.

(** What [Thread_run] returns is what the interpreter does. *)
Lemma thread_run_interpreted (vm vm' : ProcessStateMachine (Thread TTud)) i t v o :
  is_poisoned vm = false → threads vm !! i = Some t → Thread_run vm i v = Done (vm', inr o) →
  ∃ r e' st, interpreted vm t v r e' st ∧ run_finish (take_execution vm i st) i e' r = Done (vm', inr o).
Proof.
  intros Hp Ht. unfold Thread_run, Prelude.index, interpreted. rewrite Hp, Ht. cbn.
  destruct (execution t) as [e|]; [|done]. cbn. destruct (interrupted t).
  - case_bool_decide; [done|]. destruct (map_outcome_opt to_RuntimeValue v) as [w| |] eqn:Hw; [|done..]. cbn.
    destruct (resume_execution _ _ _ _) as [[r e'] st] eqn:Hr. intros Hfin. exists r, e', st. split; [|exact Hfin].
    exists e. split; [done|]. by exists w.
  - case_bool_decide as Hv; [done|]. destruct (start_execution _ _ _) as [[r e'] st] eqn:Hr. intros Hfin.
    exists r, e', st. split; [|exact Hfin]. exists e. split; [done|]. split; [|done]. by destruct (decide (v = None)).
Qed.

Lemma run_ran c o c' : coll_ok c → run_spec c o c' → run c = Done (o, c') → ran c o c'.
Proof.
  intros Hc Hspec. unfold run. destruct (find_ready c) as [[pid i]|] eqn:Hf.
  2:{ intros [= <- <-] pid p. by eapply find_ready_None. }
  apply find_ready_Some in Hf as (p & t & v & Hp & Ht & Hv).
  unfold entry. rewrite Hp. simpl. unfold thread. rewrite bool_decide_true by (by eapply lookup_lt_Some).
  simpl. unfold thread_user_data, Prelude.index. rewrite Ht. simpl. rewrite Hv. simpl.
  fold (clear_value_back (state_machine p) i (ts_user_data t)). set (vm := clear_value_back _ _ _).
  destruct (Thread_run vm i v) as [[vm' [e|out]]| |] eqn:Hrun; [by destruct e| |done|done]. simpl. intros Hout.
  pose proof (proj1 Hc _ _ Hp) as (_ & Hpois & _).
  assert (Hvm : threads vm !! i = Some {| execution := execution t; interrupted := interrupted t;
    ts_user_data := {| th_user_data := th_user_data (ts_user_data t); thread_id := thread_id (ts_user_data t); value_back := None |} |}).
  { unfold vm, clear_value_back, thread_set_user_data. simpl. by rewrite list_lookup_alter, decide_True, Ht. }
  apply (thread_run_interpreted vm vm' i _ v out Hpois Hvm) in Hrun as (r & e' & st & Hint & Hfin).
  assert (Hmain : ∃ pid i p t v r e' st, processes c !! pid = Some p ∧ threads (state_machine p) !! i = Some t ∧
      value_back (ts_user_data t) = Some v ∧ interpreted (state_machine p) t v r e' st ∧
      reported c pid i p t r e' st o c').
  { exists pid, i, p, t, v, r, e', st. split_and!; try done. unfold run_finish in Hfin.
    assert (Hdead : ∀ ud dead rv, o = ProcessFinished pid ud dead rv →
      dead = thread_data <$> into_user_datas (state_machine p) ∧ processes c' = delete pid (processes c)).
    { intros ud dead rv ->. destruct Hspec as (_ & _ & _ & p' & Hp' & _ & -> & ->). by simplify_eq. }
    destruct r as [[| |[int|trap]]|rv]; try done; unfold reported.
    - apply outcome_bind_Done in Hfin as (params & Hparams & [= <- <-]).
      apply outcome_bind_Done in Hout as (token & Htoken & [= <- <-]).
      exists token, params. split_and!; try done; [by unfold or_unreachable in Htoken; case_match; inv_done|].
      eexists _, _. cbn. rewrite lookup_insert_eq. split; [done|]. split; [done|].
      simpl. rewrite !list_lookup_alter, !decide_True by done. rewrite Ht. done.
    - inv_done. edestruct Hdead as [<- ?]; [done|]. done.
    - apply outcome_bind_Done in Hfin as (t' & Ht' & Hfin). apply outcome_bind_Done in Hfin as (rv' & Hrv & [= <- <-]).
      exists rv'. split; [done|]. destruct i; inv_done.
      + edestruct Hdead as [<- ?]; [done|]. done.
      + cbn. rewrite lookup_insert_eq. split; [|done]. unfold Prelude.index, take_execution in Ht'. simpl in Ht'.
        rewrite !list_lookup_alter, !decide_True, Ht in Ht' by done. simpl in Ht'. by injection Ht' as <-. }
  unfold ran. destruct o; try exact Hmain. destruct Hspec as (_ & _ & _ & _ & Hidle). exact Hidle.
Qed.

(** C17: a run of a sound collection leaves it sound.  It is [Idle] exactly when
    no thread is ready; otherwise it takes one thread that is ready, and what it
    reports is what the interpreter makes of that thread, given the value that
    was kept for it: the return value, or the trap, ends the process if the
    thread is the main one or trapped, which is then removed with all of its
    threads reported, and ends this thread alone otherwise; a call is that of an
    extrinsic that was registered, with arguments of the registered types, the
    thread then waiting for a value of the registered type.  Every other thread
    and process is as it was.  None of the [unreachable!()] and [panic!()] of
    [run] is reached; only a float that crosses the boundary stops it. *)
Theorem run_ok c :
  coll_ok c →
  match run c with
  | Done (o, c') => coll_ok c' ∧ run_spec c o c' ∧ ran c o c'
  | Panic r => r = PUnimplemented
  | NoFuel => False
  end.
Proof.
  intros Hc. pose proof (run_sound c Hc) as Hrun. destruct (run c) as [[o c']|r|] eqn:Heq; try done.
  destruct Hrun. split; [done|]. split; [done|]. by apply run_ran.
Qed.

(** ** Threads through their handles *)

(** The thread that a handle designates. *)
Definition thread_at c (h : Pid * nat) (t : ThreadState (Thread TTud)) : Prop :=
  ∃ p, processes c !! h.1 = Some p ∧ threads (state_machine p) !! h.2 = Some t.

Lemma inner_at c h t : thread_at c h t → inner c h = Done (ts_user_data t).
Proof.
  intros (p & Hp & Ht). unfold inner, entry. rewrite Hp. simpl. unfold thread.
  rewrite bool_decide_true by (by eapply lookup_lt_Some). simpl.
  unfold thread_user_data, Prelude.index. by rewrite Ht.
Qed.

Lemma inner_Done c h d : inner c h = Done d → ∃ t, thread_at c h t ∧ d = ts_user_data t.
Proof.
  unfold inner, entry, thread, thread_user_data. intros Hi. inv_done.
  match goal with Hx : index _ _ = Done _ |- _ => apply index_Done in Hx end.
  unfold thread_at. case_bool_decide; simplify_eq. eauto.
Qed.

(** The collection after the user data of a thread was written. *)
Definition updated_thread c (h : Pid * nat) (d : Thread TTud) c' : Prop :=
  ∃ p, processes c !! h.1 = Some p ∧
    c' = set_process h.1 {| state_machine := thread_set_user_data (state_machine p) h.2 d;
                            pr_user_data := pr_user_data p |} c.

Lemma set_inner_at c h t d :
  thread_at c h t → ∃ c', set_inner h d c = Done (tt, c') ∧ updated_thread c h d c'.
Proof.
  intros (p & Hp & Ht). unfold set_inner, entry. rewrite Hp. simpl. unfold thread.
  rewrite bool_decide_true by (by eapply lookup_lt_Some). simpl.
  eexists. split; [done|]. by exists p.
Qed.

Lemma updated_thread_at c h d c' t :
  thread_at c h t → updated_thread c h d c' →
  ∀ h' t', thread_at c' h' t' ↔
    if decide (h' = h)
    then t' = {| execution := execution t; interrupted := interrupted t; ts_user_data := d |}
    else thread_at c h' t'.
Proof.
  destruct h as [pid i]. intros (p & Hp & Ht) (p' & Hp' & ->) [pid' i'] t'. simplify_eq/=.
  unfold thread_at. simpl. destruct (decide (pid' = pid)) as [->|Hpid].
  - rewrite lookup_insert, decide_True by done. split.
    + intros (? & [= <-] & Hl). simpl in Hl. rewrite list_lookup_alter in Hl.
      case_decide; case_decide; simplify_eq/=; [by rewrite Ht in Hl; simplify_eq/=|eauto].
    + intros Hcase. eexists. split; [done|]. simpl. rewrite list_lookup_alter.
      case_decide; case_decide; simplify_eq/=; [by rewrite Ht|]. naive_solver.
  - rewrite lookup_insert_ne by done. rewrite decide_False; [done|]. congruence.
Qed.

Lemma updated_thread_ok c h d c' t :
  coll_ok c → thread_at c h t → updated_thread c h d c' →
  ready_ok {| execution := execution t; interrupted := interrupted t; ts_user_data := d |} →
  coll_ok c'.
Proof.
  intros Hc (p & Hp & Ht) (p' & Hp' & ->) Hd. simplify_eq.
  destruct (proj1 Hc _ _ Hp) as (? & ? & Hready & ?).
  eapply (coll_ok_insert c _ h.1); [done| |done|done]. split_and!; try done.
  - by apply thread_set_user_data_ok.
  - simpl. apply Forall_lookup. intros j t'. rewrite list_lookup_alter. case_decide.
    + subst j. rewrite Ht. simpl. by intros [= <-].
    + by apply Forall_lookup_1.
Qed.

(** What [resume] does to a sound collection. *)
Lemma resume_sound c h t value :
  coll_ok c → thread_at c h t → ty <$> value = expected_ty t →
  if decide (is_ready t) then resume h value c = Panic PExplicit
  else ∃ c', resume h value c = Done (tt, c') ∧ coll_ok c' ∧
    ∀ h' t', thread_at c' h' t' ↔
      if decide (h' = h) then
        t' = {| execution := execution t; interrupted := interrupted t;
                ts_user_data := {| th_user_data := th_user_data (ts_user_data t);
                  thread_id := thread_id (ts_user_data t); value_back := Some value |} |}
      else thread_at c h' t'.
Proof.
  intros Hc Ht Hty. unfold resume, mbind, M_bind, get, liftM. rewrite (inner_at _ _ _ Ht).
  unfold is_ready. case_decide as Hr.
  - by rewrite bool_decide_true by done.
  - rewrite bool_decide_false by (intros Hn; by apply Hn).
    match goal with |- context [set_inner h ?d c] =>
      destruct (set_inner_at c h t d Ht) as (c' & Hset & Hupd) end.
    exists c'. rewrite Hset. split; [done|]. split.
    + apply (updated_thread_ok c h _ c' t Hc Ht Hupd). exact Hty.
    + by apply updated_thread_at.
Qed.

(** [resume] makes exactly the designated thread ready, with the given
    value, and leaves every other thread as it was; when the value has the type
    of the function that the thread called, the collection stays sound.  On a
    thread that is already ready it panics instead of overwriting the value. *)
Theorem resume_ok c h t value :
  coll_ok c → thread_at c h t → ty <$> value = expected_ty t →
  if decide (is_ready t) then resume h value c = Panic PExplicit
  else ∃ c', resume h value c = Done (tt, c') ∧ coll_ok c' ∧
    ∀ h' t', thread_at c' h' t' ↔
      if decide (h' = h) then
        t' = {| execution := execution t; interrupted := interrupted t;
                ts_user_data := {| th_user_data := th_user_data (ts_user_data t);
                  thread_id := thread_id (ts_user_data t); value_back := Some value |} |}
      else thread_at c h' t'.
Proof. apply resume_sound. Qed.

(** Thread identifiers designate one thread. *)
Definition tids_unique c : Prop :=
  ∀ h1 h2 t1 t2, thread_at c h1 t1 → thread_at c h2 t2 →
    thread_id (ts_user_data t1) = thread_id (ts_user_data t2) → h1 = h2.

Lemma find_thread_index_Some p id i :
  find_thread_index p id = Some i →
  ∃ t, threads (state_machine p) !! i = Some t ∧ thread_id (ts_user_data t) = id.
Proof.
  unfold find_thread_index. intros Hf. apply fmap_Some in Hf as ([j t] & Hfind & ->).
  apply list_find_Some in Hfind as (? & ? & _). eauto.
Qed.

Lemma find_thread_index_is_Some p i t :
  threads (state_machine p) !! i = Some t →
  is_Some (find_thread_index p (thread_id (ts_user_data t))).
Proof.
  intros Ht. unfold find_thread_index. apply fmap_is_Some.
  by apply (list_find_elem_of _ _ t); [eapply list_elem_of_lookup_2|].
Qed.

Lemma thread_by_id_fold id (l : list (Pid * Process TPud TTud)) acc r :
  fold_left (λ loop_out '(pid, process),
    match find_thread_index process id with
    | Some thread_index => Some (pid, thread_index)
    | None => loop_out
    end) l acc = r →
  (∃ pid p i, (pid, p) ∈ l ∧ find_thread_index p id = Some i ∧ r = Some (pid, i)) ∨
  (r = acc ∧ ∀ pid p, (pid, p) ∈ l → find_thread_index p id = None).
Proof.
  revert acc. induction l as [|[pid p] l IH]; simpl; intros acc Hr.
  - right. split; [done|]. intros ?? []%elem_of_nil.
  - destruct (IH _ Hr) as [(pid' & p' & i & ? & ? & ->)|[-> Hnone]].
    + left. exists pid', p', i. split; [by right|done].
    + destruct (find_thread_index p id) as [i|] eqn:Hi.
      * left. exists pid, p, i. split; [by left|done].
      * right. split; [done|]. intros pid' p' [[= -> ->]|?]%elem_of_cons; eauto.
Qed.

Lemma thread_by_id_sound c id h :
  thread_by_id c id = Some h → ∃ t, thread_at c h t ∧ thread_id (ts_user_data t) = id.
Proof.
  intros [(pid & p & i & Hin%elem_of_hash_iter & Hi & [= ->])|[? _]]%thread_by_id_fold; [|done].
  apply find_thread_index_Some in Hi as (t & ? & ?). exists t. split; [|done]. by exists p.
Qed.

Lemma thread_by_id_complete c h t :
  thread_at c h t → is_Some (thread_by_id c (thread_id (ts_user_data t))).
Proof.
  intros (p & Hp & Ht). set (id := thread_id _).
  destruct (thread_by_id_fold id (hash_iter (processes c)) None _ eq_refl)
    as [(pid & p' & i & ? & ? & Hr)|[_ Hnone]].
  - exists (pid, i). exact Hr.
  - destruct (find_thread_index_is_Some p h.2 t Ht) as [i Hi].
    by unfold id in Hnone; rewrite (Hnone h.1 p) in Hi by (by apply elem_of_hash_iter).
Qed.

(** As long as no two threads share an identifier, [thread_by_id] finds
    the thread with the given identifier, whatever the iteration order of the
    hash map, and finds nothing exactly when no thread has it. *)
Theorem thread_by_id_correct c id h :
  tids_unique c →
  thread_by_id c id = Some h ↔ ∃ t, thread_at c h t ∧ thread_id (ts_user_data t) = id.
Proof.
  intros Huniq. split; [apply thread_by_id_sound|]. intros (t & Ht & <-).
  destruct (thread_by_id_complete c h t Ht) as [h' Hh']. rewrite Hh'. f_equal.
  apply thread_by_id_sound in Hh' as (t' & Ht' & ?). by eapply Huniq.
Qed.

(** ** Creating processes and threads *)

Lemma resolve_registered c mod_ fld sig i :
  (∀ name i s, extrinsics_id_assign c !! name = Some (i, s) → is_Some (extrinsics c !! i)) →
  resolve_extrinsic c mod_ fld sig = Some i → ∃ token, registered c i sig token.
Proof.
  intros Hreg. unfold resolve_extrinsic.
  destruct (extrinsics_id_assign c !! (mod_, fld)) as [[j s]|] eqn:Hj; [|done].
  destruct (matches_wasmi s sig) eqn:Hm; [|done]. intros [= ->].
  destruct (Hreg _ _ _ Hj) as [token Htok]. exists token, (mod_, fld), s.
  split_and!; try done. by apply bool_decide_eq_true in Hm.
Qed.

(** The process that [execute] creates. *)
Definition fresh_process (pu : TPud) (tu : TTud) (id : ThreadId) p : Prop :=
  pr_user_data p = pu ∧ ∃ t, threads (state_machine p) = [t] ∧
    ts_user_data t = {| th_user_data := tu; thread_id := id; value_back := Some None |}.

Lemma new_process_ok c m pu tu id vm :
  coll_ok c →
  ProcessStateMachine_new m {| th_user_data := tu; thread_id := id; value_back := Some None |}
    (resolve_extrinsic c) = Done (inr vm) →
  process_ok c {| state_machine := vm; pr_user_data := pu |} ∧
  fresh_process pu tu id {| state_machine := vm; pr_user_data := pu |}.
Proof.
  intros [_ Hreg] Hnew. destruct (new_fresh _ _ _ _ Hnew) as (t & Hth & Hud & Hint).
  apply new_sound in Hnew as (Hok & Hp & _ & Hhosts). split.
  - split_and!; try done; simpl.
    + rewrite Hth. constructor; [|done]. unfold ready_ok, expected_ty. by rewrite Hud, Hint.
    + intros i sig Hi. destruct (Hhosts i sig Hi) as (mod_ & fld & Hr).
      by eapply resolve_registered.
  - split; [done|]. by exists t.
Qed.

Context `{!RngLaws}.

Lemma execute_cases c m pu tu :
  ∃ id tp, assign (tid_pool c) = Done (id, tp) ∧
    let d := {| th_user_data := tu; thread_id := id; value_back := Some None |} in
    match ProcessStateMachine_new m d (resolve_extrinsic c) with
    | Done (inr vm) => ∃ pid pp, assign (pid_pool c) = Done (pid, pp) ∧
        execute m pu tu c = Done (inr pid,
          set_process pid {| state_machine := vm; pr_user_data := pu |}
            (with_pid_pool pp (with_tid_pool tp c)))
    | Done (inl e) => execute m pu tu c = Done (inl e, with_tid_pool tp c)
    | Panic r => execute m pu tu c = Panic r
    | NoFuel => False
    end.
Proof.
  destruct (assign_total (tid_pool c)) as (id & tp & Htid). exists id, tp. split; [done|].
  cbv zeta. unfold execute, mbind, M_bind, zoom, get, liftM, modify. rewrite Htid.
  change (resolve_extrinsic (with_tid_pool tp c)) with (resolve_extrinsic c).
  destruct (ProcessStateMachine_new m _ _) as [[e|vm]|r|] eqn:Hnew; [done| |done|].
  - destruct (assign_total (pid_pool c)) as (pid & pp & Hpid). exists pid, pp.
    split; [done|]. simpl. rewrite Hpid. unfold process_by_id. simpl.
    by rewrite lookup_insert, decide_True.
  - by apply new_fuel in Hnew.
Qed.

(** What [execute] does to a sound collection. *)
Lemma execute_sound c m pu tu :
  coll_ok c →
  ∃ id tp, assign (tid_pool c) = Done (id, tp) ∧
    match execute m pu tu c with
    | Done (inl e, c') => coll_ok c' ∧ c' = with_tid_pool tp c
    | Done (inr pid, c') => coll_ok c' ∧ same_extrinsics c c' ∧ tid_pool c' = tp ∧
        assign (pid_pool c) = Done (pid, pid_pool c') ∧
        ∃ p, fresh_process pu tu id p ∧ processes c' = <[pid := p]> (processes c)
    | Panic r => ProcessStateMachine_new m
        {| th_user_data := tu; thread_id := id; value_back := Some None |}
        (resolve_extrinsic c) = Panic r
    | NoFuel => False
    end.
Proof.
  intros Hc. destruct (execute_cases c m pu tu) as (id & tp & Htid & Hex).
  exists id, tp. split; [done|]. cbv zeta in Hex.
  destruct (ProcessStateMachine_new m _ _) as [[e|vm]|r|] eqn:Hnew; [| | |done].
  - by rewrite Hex.
  - destruct Hex as (pid & pp & Hpid & ->).
    destruct (new_process_ok c m pu tu id vm Hc Hnew) as [Hpok Hfresh].
    split_and!; try done.
    + eapply (coll_ok_insert c _ pid); done.
    + eauto.
  - by rewrite Hex.
Qed.

(** [execute] stops only where creating the state machine does.  When
    that reports an error, the processes and the pool of process identifiers
    are untouched (as the comment "We only modify [self] at the very end"
    says); otherwise exactly one process is added, under the next identifier
    of the pool, with the given user data and, as its only thread, a main
    thread that is ready to run under the next thread identifier; the
    collection stays sound in both cases. *)
Theorem execute_ok c m pu tu :
  coll_ok c →
  ∃ id tp, assign (tid_pool c) = Done (id, tp) ∧
    match execute m pu tu c with
    | Done (inl e, c') => coll_ok c' ∧ c' = with_tid_pool tp c
    | Done (inr pid, c') => coll_ok c' ∧ same_extrinsics c c' ∧ tid_pool c' = tp ∧
        assign (pid_pool c) = Done (pid, pid_pool c') ∧
        ∃ p, fresh_process pu tu id p ∧ processes c' = <[pid := p]> (processes c)
    | Panic r => ProcessStateMachine_new m
        {| th_user_data := tu; thread_id := id; value_back := Some None |}
        (resolve_extrinsic c) = Panic r
    | NoFuel => False
    end.
Proof. apply execute_sound. Qed.

Lemma push_thread_sound (T : Type) (vm : ProcessStateMachine T) e d :
  vm_ok vm → exec_fresh e → vm_ok (push_thread vm e d).
Proof.
  intros Hok He Hp. destruct (Hok Hp) as [? ?]. simpl. split.
  - by destruct (threads vm).
  - apply Forall_app. split; [done|]. constructor; [|done]. by exists e.
Qed.

Lemma start_thread_cases c pid p fn ps ud :
  processes c !! pid = Some p →
  ∃ id tp, assign (tid_pool c) = Done (id, tp) ∧
    match start_thread pid fn ps ud c with
    | Done (inl _, c') => c' = with_tid_pool tp c
    | Done (inr h, c') => h = (pid, S (length (threads (state_machine p)))) ∧
        ∃ e, exec_fresh e ∧
        c' = set_process pid {| state_machine := push_thread (state_machine p) e
               {| th_user_data := ud; thread_id := id; value_back := Some None |};
               pr_user_data := pr_user_data p |} (with_tid_pool tp c)
    | _ => True
    end.
Proof.
  intros Hp. destruct (assign_total (tid_pool c)) as (id & tp & Htid). exists id, tp.
  split; [done|]. unfold start_thread, mbind, M_bind, zoom, get, liftM, modify. rewrite Htid.
  unfold entry. simpl. rewrite Hp. simpl.
  destruct (start_thread_by_id _ _ _ _) as [[e|vm]|r|] eqn:Hst; try done.
  unfold start_thread_by_id in Hst. destruct (is_poisoned (state_machine p)); [done|].
  apply fallible_bind_ok in Hst as (f & Hf & Hst). apply fallible_bind_ok in Hst as (ps' & _ & Hst).
  destruct (FuncInstance_invoke_resumable _ _ _) as [e|] eqn:He; [|done]. inv_done.
  split.
  - unfold num_threads. simpl. rewrite length_app. simpl. f_equal. lia.
  - eexists. split; [|done]. eapply invoke_fresh; [done|].
    destruct (indirect_table (state_machine p) ≫= _) as [f0|] eqn:Hg in Hf; [|done]. injection Hf as ->.
    apply bind_Some in Hg as (tb & _ & Hg). apply bind_Some in Hg as ([f'|] & Hg & [= ->]). by eapply table_own.
Qed.

(** [start_thread] adds one thread, ready to run, at the end of the
    process and keeps the collection sound; but the handle it returns
    designates the index after the new thread's, so that any use of the
    handle panics: the index is read from [num_threads()] after the thread was
    added. *)
Theorem start_thread_handle c pid p fn ps ud h c' :
  coll_ok c → processes c !! pid = Some p →
  start_thread pid fn ps ud c = Done (inr h, c') →
  coll_ok c' ∧ inner c' h = Panic PUnreachable ∧
  ∃ t, thread_at c' (pid, length (threads (state_machine p))) t ∧ is_ready t ∧
    th_user_data (ts_user_data t) = ud.
Proof.
  intros Hc Hp Hst. destruct (start_thread_cases c pid p fn ps ud Hp) as (id & tp & _ & Hcase).
  rewrite Hst in Hcase. destruct Hcase as (-> & e & He & ->).
  destruct (proj1 Hc _ _ Hp) as (Hok & Hpois & Hready & Hhosts). split_and!.
  - eapply (coll_ok_insert c _ pid); [done| |done|done]. split_and!; try done.
    + by apply push_thread_sound.
    + simpl. apply Forall_app. by split; [|constructor].
  - unfold inner, entry. simpl. rewrite lookup_insert, decide_True by done. simpl.
    unfold thread. rewrite bool_decide_false; [done|]. simpl. rewrite length_app. simpl. lia.
  - eexists. split; [eexists; split; [simpl; by rewrite lookup_insert, decide_True|]|].
    + simpl. by rewrite lookup_app_r, Nat.sub_diag by lia.
    + done.
Qed.

End soundness.

(** * Registering extrinsics *)

Section registration.
Context `{!WasmiLaws} {TExtr TPud TTud : Type}.
Local Abbreviation builder := (ProcessesCollectionBuilder TExtr).
Local Abbreviation registration := (string * string * Signature * TExtr)%type.

(** A chain of calls to [with_extrinsic]. *)
Fixpoint register_all (l : list registration) (b : builder) : outcome builder :=
  match l with
  | [] => Done b
  | (interface, f_name, sig, token) :: l =>
      b ← with_extrinsic b interface f_name sig token; register_all l b
  end.

Definition reg_name (r : registration) : string * string := r.1.1.

(** The builder after the registrations [l]. *)
Record builder_ok (l : list registration) (b : builder) : Prop := {
  bo_size : size (b_extrinsics b) = length l;
  bo_size_assign : size (b_extrinsics_id_assign b) = length l;
  bo_token : ∀ i, b_extrinsics b !! i = snd <$> l !! i;
  bo_assign : ∀ name i s, b_extrinsics_id_assign b !! name = Some (i, s) ↔
    ∃ token, l !! i = Some (name, s, token);
  bo_nodup : NoDup (reg_name <$> l);
}.

Lemma builder_default_ok : builder_ok [] builder_default.
Proof.
  split; try done.
  - intros name i s. simpl. rewrite lookup_empty. naive_solver.
  - constructor.
Qed.

Lemma lookup_snoc_Some' {A} (l : list A) x i y :
  (l ++ [x]) !! i = Some y ↔ l !! i = Some y ∨ (i = length l ∧ y = x).
Proof. rewrite lookup_snoc_Some. pose proof (lookup_lt_Some l i y). naive_solver. Qed.

Lemma with_extrinsic_ok l b interface f_name sig token :
  builder_ok l b →
  if decide ((interface, f_name) ∈ reg_name <$> l)
  then with_extrinsic b interface f_name sig token = Panic PExplicit
  else ∃ b', with_extrinsic b interface f_name sig token = Done b' ∧
    builder_ok (l ++ [(interface, f_name, sig, token)]) b'.
Proof.
  intros [Hsz Hsza Htok Has Hnd]. unfold with_extrinsic.
  assert (b_extrinsics b !! size (b_extrinsics b) = None) as Hfresh.
  { rewrite Htok, Hsz. by rewrite lookup_ge_None_2. }
  rewrite bool_decide_true by done. simpl. case_decide as Hin.
  - apply list_elem_of_fmap in Hin as ([[n s] tok] & Hn & Hl).
    apply list_elem_of_lookup in Hl as [i Hi]. unfold reg_name in Hn. simpl in Hn.
    subst n. by rewrite (proj2 (Has (interface, f_name) i s) (ex_intro _ tok Hi)).
  - destruct (b_extrinsics_id_assign b !! (interface, f_name)) as [[i s]|] eqn:Hl.
    { apply Has in Hl as [tok Htk]. destruct Hin. apply list_elem_of_fmap.
      exists (interface, f_name, s, tok). split; [done|]. by eapply list_elem_of_lookup_2. }
    eexists. split; [done|]. split; simpl.
    + rewrite map_size_insert_None, length_app by done. simpl. lia.
    + rewrite map_size_insert_None, length_app by done. simpl. lia.
    + intros i. rewrite lookup_insert, Hsz. case_decide as Hi.
      * subst i. by rewrite lookup_app_r, Nat.sub_diag by lia.
      * rewrite Htok. destruct (decide (i < length l)%nat).
        -- by rewrite lookup_app_l.
        -- by rewrite !lookup_ge_None_2 by (rewrite ?length_app; simpl; lia).
    + intros name i s. rewrite lookup_insert_Some. setoid_rewrite lookup_snoc_Some'.
      rewrite Has, Hsz. split.
      * intros [[<- [= <- <-]]|[_ [tok Hk]]]; eauto.
      * intros (tok & [Hk|[-> [= -> -> ->]]]); [right|by left]. split; [|by eauto].
        intros <-. apply Hin. apply list_elem_of_fmap. eexists. split; [|by eapply list_elem_of_lookup_2].
        done.
    + rewrite fmap_app. apply NoDup_app. split_and!; try done.
      * intros x Hx. simpl. rewrite list_elem_of_singleton. by intros ->.
      * apply NoDup_singleton.
Qed.

Lemma register_all_ok l l0 b :
  builder_ok l0 b →
  if decide (NoDup (reg_name <$> l0 ++ l))
  then ∃ b', register_all l b = Done b' ∧ builder_ok (l0 ++ l) b'
  else register_all l b = Panic PExplicit.
Proof.
  revert l0 b. induction l as [|[[[i f] s] tok] l IH]; intros l0 b Hb.
  - rewrite app_nil_r, decide_True by apply Hb. by exists b.
  - simpl. pose proof (with_extrinsic_ok l0 b i f s tok Hb) as Hw. case_decide as Hin.
    + rewrite Hw. simpl. rewrite decide_False; [done|]. rewrite fmap_app, NoDup_app.
      intros (_ & Hd & _). apply (Hd _ Hin). by left.
    + destruct Hw as (b' & -> & Hb'). simpl. specialize (IH _ _ Hb').
      by rewrite <-app_assoc in IH.
Qed.

(** What a chain of registrations builds. *)
Lemma build_sound (l : list registration) :
  if decide (NoDup (reg_name <$> l)) then
    ∃ b (c : ProcessesCollection TExtr TPud TTud),
      register_all l builder_default = Done b ∧ builder_build b = Done c ∧
      coll_ok c ∧ processes c = ∅ ∧
      (∀ interface function sig i,
        resolve_extrinsic c interface function sig = Some i ↔
        ∃ s token, l !! i = Some (interface, function, s, token) ∧ matches_wasmi s sig = true) ∧
      (∀ i, extrinsics c !! i = snd <$> l !! i)
  else register_all l builder_default = Panic PExplicit.
Proof.
  pose proof (register_all_ok l [] builder_default builder_default_ok) as Hr. simpl in Hr.
  case_decide as Hnd; [|done]. destruct Hr as (b & Hb & [Hsz Hsza Htok Has _]).
  unfold builder_build. eexists b, _. split; [done|]. rewrite bool_decide_true by congruence.
  simpl. split; [done|]. split_and!; try done.
  - split; [done|]. simpl. intros name i s Hl. apply Has in Hl as [tok Hi].
    rewrite Htok, Hi. by eexists.
  - intros interface function sig i. unfold resolve_extrinsic. simpl. split.
    + destruct (b_extrinsics_id_assign b !! _) as [[j s]|] eqn:Hl; [|done].
      apply Has in Hl as [tok Hi]. destruct (matches_wasmi s sig) eqn:Hm; [|done].
      intros [= ->]. eauto.
    + intros (s & tok & Hi & Hm).
      rewrite (proj2 (Has (interface, function) i s) (ex_intro _ tok Hi)). by rewrite Hm.
Qed.

(** Registering extrinsics under distinct names and building gives a
    sound, empty collection in which an import resolves exactly when its name
    was registered with the signature that the module gives it, and the index
    it resolves to carries the token of that registration; registering the
    same name twice panics, as documented. *)
Theorem build_registered (l : list registration) :
  if decide (NoDup (reg_name <$> l)) then
    ∃ b (c : ProcessesCollection TExtr TPud TTud),
      register_all l builder_default = Done b ∧ builder_build b = Done c ∧
      coll_ok c ∧ processes c = ∅ ∧
      (∀ interface function sig i,
        resolve_extrinsic c interface function sig = Some i ↔
        ∃ s token, l !! i = Some (interface, function, s, token) ∧ matches_wasmi s sig = true) ∧
      (∀ i, extrinsics c !! i = snd <$> l !! i)
  else register_all l builder_default = Panic PExplicit.
Proof. apply build_sound. Qed.

End registration.
End processes.

Arguments th_user_data {TTud}.
Arguments thread_id {TTud}.
Arguments value_back {TTud}.
Arguments Build_Thread {TTud}.
Arguments state_machine {_ TPud TTud}.
Arguments pr_user_data {_ TPud TTud}.
Arguments Build_Process {_ TPud TTud}.
Arguments pid_pool {_ _ TExtr TPud TTud}.
Arguments tid_pool {_ _ TExtr TPud TTud}.
Arguments processes {_ _ TExtr TPud TTud}.
Arguments extrinsics {_ _ TExtr TPud TTud}.
Arguments extrinsics_id_assign {_ _ TExtr TPud TTud}.
Arguments Build_ProcessesCollection {_ _ TExtr TPud TTud}.
Arguments b_pid_pool {_ TExtr}.
Arguments b_extrinsics {_ TExtr}.
Arguments b_extrinsics_id_assign {_ TExtr}.
Arguments Build_ProcessesCollectionBuilder {_ TExtr}.
Arguments ProcessFinished {_ TExtr TPud TTud}.
Arguments ThreadFinished {_ TExtr TPud TTud}.
Arguments Interrupted {_ TExtr TPud TTud}.
Arguments Idle {_ TExtr TPud TTud}.
