(* ===== verification/ProcessesFrame.v ===== *)
(** Reasoning about changes to one thread of a collection of processes.

    The wrappers of [ProcessesCollection] change the user data of a thread,
    the user data of its process, and the memory of the process, and nothing
    else.  This file gives the collection a view as two maps, from threads to
    their data and from processes to their data, and a rule per operation. *)
From S2P Require Import Prelude IdPool WasmValue Ffi Vm Processes.

Section frame.
Context `{Rng} `{Wasmi} `{!HashIter Z} `{!WasmiLaws} {TExtr TPud TTud : Type}.
Implicit Types (c : ProcessesCollection TExtr TPud TTud) (h : Pid * nat) (d : Thread TTud).
Local Abbreviation coll := (ProcessesCollection TExtr TPud TTud).

(** * The view *)

Definition thread_look c h : option (ThreadState (Thread TTud)) :=
  p ← processes c !! h.1; threads (state_machine p) !! h.2.

(** The data of a thread, the data of a process, and the type of the value
    that a thread waits for. *)
Definition ud c h : option (Thread TTud) := ts_user_data <$> thread_look c h.
Definition pl c (pid : Pid) : option TPud := pr_user_data <$> processes c !! pid.
Definition expected_at c h : option ValueType := t ← thread_look c h; expected_ty t.

Lemma thread_at_look c h t : thread_at c h t ↔ thread_look c h = Some t.
Proof. unfold thread_at, thread_look. rewrite bind_Some. naive_solver. Qed.

(** * What the operations on one thread leave as it was *)

(** The machine of a process, but for the user data and the memory contents. *)
Definition same_machine (vm vm' : ProcessStateMachine (Thread TTud)) : Prop :=
  memory vm' = memory vm ∧ indirect_table vm' = indirect_table vm ∧
  is_poisoned vm' = is_poisoned vm ∧
  (∀ i sig, host_func (module_ vm') i sig → host_func (module_ vm) i sig) ∧
  (λ t, (execution t, interrupted t)) <$> threads vm'
  = (λ t, (execution t, interrupted t)) <$> threads vm.

Definition frame c c' : Prop :=
  same_extrinsics c c' ∧ pid_pool c' = pid_pool c ∧ tid_pool c' = tid_pool c ∧
  ∀ pid, match processes c !! pid, processes c' !! pid with
    | Some p, Some p' => same_machine (state_machine p) (state_machine p')
    | None, None => True
    | _, _ => False
    end.

#[global] Instance same_machine_preorder : PreOrder same_machine.
Proof.
  split.
  - intros vm. by split_and!.
  - intros vm1 vm2 vm3 (?&?&?&?&?) (?&?&?&?&?). split_and!; [congruence..| |congruence]. naive_solver.
Qed.

#[global] Instance frame_preorder : PreOrder frame.
Proof.
  split.
  - intros c. split_and!; [done..|]. intros pid. by destruct (processes c !! pid).
  - intros c1 c2 c3 ([? ?] & ? & ? & H12) ([? ?] & ? & ? & H23). split_and!; [split|..]; try congruence.
    intros pid. specialize (H12 pid). specialize (H23 pid).
    destruct (processes c1 !! pid), (processes c2 !! pid), (processes c3 !! pid); try done.
    by etrans.
Qed.

Lemma frame_exec c c' h :
  frame c c' →
  (λ t, (execution t, interrupted t)) <$> thread_look c' h
  = (λ t, (execution t, interrupted t)) <$> thread_look c h.
Proof.
  intros (_ & _ & _ & Hf). specialize (Hf h.1). unfold thread_look.
  destruct (processes c !! h.1), (processes c' !! h.1); try done. simpl.
  destruct Hf as (_ & _ & _ & _ & Hth). rewrite <-!list_lookup_fmap. by rewrite Hth.
Qed.

Lemma frame_expected c c' h : frame c c' → expected_at c' h = expected_at c h.
Proof.
  intros Hf. pose proof (frame_exec c c' h Hf) as Hx. unfold expected_at, expected_ty.
  destruct (thread_look c h) as [t|], (thread_look c' h) as [t'|]; simpl in *; try done.
  injection Hx as Hx1 Hx2. by rewrite Hx1, Hx2.
Qed.

(** A framed collection is sound when its ready threads have values of the
    right types. *)
Lemma frame_ok c c' :
  coll_ok c → frame c c' →
  (∀ h d v, ud c' h = Some d → value_back d = Some v → ty <$> v = expected_at c' h) →
  coll_ok c'.
Proof.
  intros [Hps Hreg] Hf Hready. pose proof Hf as ([Hx Ha] & _ & _ & Hm). split.
  2:{ rewrite Hx, Ha. done. }
  intros pid p' Hp'. specialize (Hm pid). rewrite Hp' in Hm.
  destruct (processes c !! pid) as [p|] eqn:Hp; [|done].
  destruct Hm as (_ & _ & Hpois & Hhosts & Hth). destruct (Hps pid p Hp) as (Hok & Hnp & _ & Hr).
  split_and!.
  - intros _. destruct (Hok Hnp) as [Hnil Hall]. split.
    + intros Hn. rewrite Hn in Hth. by destruct (threads (state_machine p)).
    + apply Forall_lookup. intros i t' Ht'.
      apply (f_equal (.!! i)) in Hth. rewrite !list_lookup_fmap, Ht' in Hth.
      destruct (threads (state_machine p) !! i) as [t|] eqn:Ht; [|done]. simpl in Hth.
      destruct (Forall_lookup_1 _ _ _ _ Hall Ht) as (e & He & Hexec).
      injection Hth as Hx1 Hx2. exists e. rewrite Hx1, Hx2. done.
  - congruence.
  - apply Forall_lookup. intros i t' Ht'. unfold ready_ok.
    destruct (value_back (ts_user_data t')) as [v|] eqn:Hv; [|done].
    assert (Hl : thread_look c' (pid, i) = Some t') by (unfold thread_look; simpl; by rewrite Hp').
    specialize (Hready (pid, i) (ts_user_data t') v). unfold ud, expected_at in Hready.
    rewrite Hl in Hready. by apply Hready.
  - intros i sig Hi. destruct (Hr i sig) as [token Htok]; [by apply Hhosts|].
    exists token. unfold registered. by rewrite Hx, Ha.
Qed.

(** * The cursor *)

(** [c] is [c0] where the thread [h] has data [d] and its process data [x]. *)
Definition cur c0 c h d (x : TPud) : Prop :=
  frame c0 c ∧ is_Some (ud c0 h) ∧
  (∀ h', ud c h' = if decide (h' = h) then Some d else ud c0 h') ∧
  (∀ pid, pl c pid = if decide (pid = h.1) then Some x else pl c0 pid).

Lemma cur_refl c h d x : ud c h = Some d → pl c h.1 = Some x → cur c c h d x.
Proof.
  intros Hd Hx. split_and!; [done|by eexists|..].
  - intros h'. by case_decide; subst.
  - intros pid. by case_decide; subst.
Qed.

Lemma ud_pl c h d : ud c h = Some d → is_Some (pl c h.1).
Proof. unfold ud, pl, thread_look. by destruct (processes c !! h.1). Qed.

Lemma cur_ud c0 c h d x : cur c0 c h d x → ud c h = Some d.
Proof. intros (_ & _ & Hu & _). by rewrite Hu, decide_True. Qed.

Lemma cur_pl c0 c h d x : cur c0 c h d x → pl c h.1 = Some x.
Proof. intros (_ & _ & _ & Hp). by rewrite Hp, decide_True. Qed.

(** The process and the thread that a cursor is on. *)
Lemma cur_thread c0 c h d x :
  cur c0 c h d x →
  ∃ p t, processes c !! h.1 = Some p ∧ threads (state_machine p) !! h.2 = Some t ∧
    ts_user_data t = d ∧ pr_user_data p = x.
Proof.
  intros Hc. pose proof (cur_ud _ _ _ _ _ Hc) as Hu. pose proof (cur_pl _ _ _ _ _ Hc) as Hp.
  unfold ud, pl, thread_look in *. destruct (processes c !! h.1) as [p|]; [|done]. simpl in *.
  destruct (threads (state_machine p) !! h.2) as [t|] eqn:Ht; [|done]. simplify_eq/=.
  by exists p, t.
Qed.

(** Replacing the machine of the process by one whose threads are the same but
    for the data of the cursor's thread. *)
Lemma cur_set_process c0 c h d x p vm' d' x' :
  cur c0 c h d x → processes c !! h.1 = Some p → same_machine (state_machine p) vm' →
  (∀ i, ts_user_data <$> threads vm' !! i
        = if decide (i = h.2) then Some d' else ts_user_data <$> threads (state_machine p) !! i) →
  cur c0 (set_process h.1 {| state_machine := vm'; pr_user_data := x' |} c) h d' x'.
Proof.
  intros (Hf & Hs & Hu & Hpl) Hp Hm Hth. split_and!; [|done|..].
  - etrans; [exact Hf|]. split_and!; [done..|]. intros pid. simpl.
    rewrite lookup_insert. case_decide as Hpid; [subst; by rewrite Hp|].
    by destruct (processes c !! pid).
  - intros [pid i]. unfold ud, thread_look. simpl. rewrite lookup_insert.
    case_decide as Hpid; simpl.
    + subst pid. rewrite Hth. specialize (Hu (h.1, i)). unfold ud, thread_look in Hu.
      simpl in Hu. rewrite Hp in Hu. simpl in Hu. rewrite Hu. destruct h as [pid j]. simpl.
      repeat case_decide; simplify_eq/=; done.
    + specialize (Hu (pid, i)). unfold ud, thread_look in Hu. simpl in Hu. rewrite Hu.
      destruct h. repeat case_decide; simplify_eq/=; done.
  - intros pid. unfold pl. simpl. rewrite lookup_insert. case_decide as Hpid.
    + subst pid. by rewrite decide_True.
    + rewrite decide_False by done. specialize (Hpl pid). unfold pl in Hpl.
      by rewrite Hpl, decide_False.
Qed.

(** ** One rule per operation *)

Context {P : panic_reason → Prop}.

Lemma cur_inner c0 c h d x : cur c0 c h d x → inner c h = Done d.
Proof.
  intros Hc. destruct (cur_thread _ _ _ _ _ Hc) as (p & t & Hp & Ht & <- & _).
  apply inner_at. by exists p.
Qed.

Lemma wp_set_inner c0 c h d x d' (Q : unit * coll → Prop) :
  cur c0 c h d x → (∀ c', cur c0 c' h d' x → Q (tt, c')) → wp P (set_inner h d' c) Q.
Proof.
  intros Hc HQ. destruct (cur_thread _ _ _ _ _ Hc) as (p & t & Hp & Ht & Hd & Hx).
  unfold set_inner, entry. rewrite Hp. simpl. unfold thread.
  rewrite bool_decide_true by (by eapply lookup_lt_Some). simpl. apply HQ. rewrite Hx.
  eapply cur_set_process; [done|done|..].
  - split_and!; try done. simpl. apply list_eq. intros i.
    rewrite !list_lookup_fmap, list_lookup_alter. case_decide; [|done]. subst.
    by destruct (threads _ !! _).
  - intros i. simpl. rewrite list_lookup_alter. case_decide; case_decide; simplify_eq; try done.
    by rewrite Ht.
Qed.

Lemma cur_user_data c0 c h d x : cur c0 c h d x → user_data c h = Done (th_user_data d).
Proof. intros Hc. unfold user_data. by rewrite (cur_inner _ _ _ _ _ Hc). Qed.

Lemma cur_tid c0 c h d x : cur c0 c h d x → tid c h = Done (thread_id d).
Proof. intros Hc. unfold tid. by rewrite (cur_inner _ _ _ _ _ Hc). Qed.

Lemma wp_set_user_data c0 c h d x u (Q : unit * coll → Prop) :
  cur c0 c h d x →
  (∀ c', cur c0 c' h {| th_user_data := u; thread_id := thread_id d;
                        value_back := value_back d |} x → Q (tt, c')) →
  wp P (set_user_data h u c) Q.
Proof.
  intros Hc HQ. unfold set_user_data, mbind, M_bind, get, liftM.
  rewrite (cur_inner _ _ _ _ _ Hc). by eapply wp_set_inner.
Qed.

Lemma wp_resume c0 c h d x v (Q : unit * coll → Prop) :
  cur c0 c h d x → value_back d = None →
  (∀ c', cur c0 c' h {| th_user_data := th_user_data d; thread_id := thread_id d;
                        value_back := Some v |} x → Q (tt, c')) →
  wp P (resume h v c) Q.
Proof.
  intros Hc Hv HQ. unfold resume, mbind, M_bind, get, liftM.
  rewrite (cur_inner _ _ _ _ _ Hc), Hv. simpl. by eapply wp_set_inner.
Qed.

Lemma cur_process c0 c h d x : cur c0 c h d x → process_by_id c h.1 = Some h.1.
Proof.
  intros Hc. destruct (cur_thread _ _ _ _ _ Hc) as (p & t & Hp & _).
  unfold process_by_id. by rewrite Hp.
Qed.

(** Every process can be read: its module exports a memory. *)
Definition has_memory c : Prop :=
  ∀ pid p, processes c !! pid = Some p → memory (state_machine p) ≠ None.

Lemma frame_memory c c' : frame c c' → has_memory c → has_memory c'.
Proof.
  intros (_ & _ & _ & Hf) Hm pid p' Hp'. specialize (Hf pid). rewrite Hp' in Hf.
  destruct (processes c !! pid) as [p|] eqn:Hp; [|done].
  destruct Hf as (-> & _). by eapply Hm.
Qed.

Lemma wp_write_memory c0 c h d x off bs (Q : option unit * coll → Prop) :
  cur c0 c h d x → has_memory c0 →
  (∀ r c', cur c0 c' h d x → Q (r, c')) →
  wp P (proc_write_memory h.1 off bs c) Q.
Proof.
  intros Hc Hm HQ. destruct (cur_thread _ _ _ _ _ Hc) as (p & t & Hp & Ht & Hd & Hx).
  pose proof (frame_memory _ _ (proj1 Hc) Hm _ _ Hp) as Hmem.
  unfold proc_write_memory, entry, write_memory. rewrite Hp. simpl.
  destruct (memory (state_machine p)) as [mem|] eqn:Hmm; [|done]. simpl.
  destruct (MemoryRef_set _ _ _ _) as [s'|] eqn:Hset; simpl; apply HQ; [|done].
  rewrite Hx. eapply cur_set_process; [done|done|..].
  - split_and!; try done. simpl. intros i sig. by eapply set_host_func.
  - intros i. simpl. case_decide; [subst; by rewrite Ht|done].
Qed.

(** ** Looking a thread up by its identifier *)

Definition tids_inj c : Prop :=
  ∀ h1 h2 d1 d2, ud c h1 = Some d1 → ud c h2 = Some d2 → thread_id d1 = thread_id d2 → h1 = h2.

Lemma thread_by_id_ud c h d :
  tids_inj c → ud c h = Some d → thread_by_id c (thread_id d) = Some h.
Proof.
  intros Hinj Hd. assert (Ht : ∃ t, thread_at c h t ∧ ts_user_data t = d).
  { apply fmap_Some in Hd as (t & Ht & ->). exists t. by rewrite thread_at_look. }
  destruct Ht as (t & Ht & <-). destruct (thread_by_id_complete c h t Ht) as [h' Hh'].
  rewrite Hh'. f_equal. apply thread_by_id_sound in Hh' as (t' & Ht' & Hid).
  apply (Hinj h' h (ts_user_data t') (ts_user_data t)); [|done..].
  unfold ud. apply thread_at_look in Ht'. by rewrite Ht'.
Qed.

Lemma thread_by_id_ud_inv c id h :
  thread_by_id c id = Some h → ∃ d, ud c h = Some d ∧ thread_id d = id.
Proof.
  intros (t & Ht & Hid)%thread_by_id_sound. exists (ts_user_data t). split; [|done].
  unfold ud. apply thread_at_look in Ht. by rewrite Ht.
Qed.

Lemma cur_tids_inj c0 c h d d0 x :
  cur c0 c h d x → ud c0 h = Some d0 → thread_id d = thread_id d0 → tids_inj c0 → tids_inj c.
Proof.
  intros (_ & _ & Hu & _) Hd0 Hid Hinj h1 h2 d1 d2. rewrite !Hu.
  repeat case_decide; intros ?? Heq; simplify_eq; try done.
  - by apply (Hinj h h2 d0 d2); [..|congruence].
  - by apply (Hinj h1 h d1 d0); [..|congruence].
  - by eapply Hinj.
Qed.

End frame.
