(* ===== verification/Extrinsics.v ===== *)
(** Interpreting the calls of processes ([core/src/scheduler/extrinsics.rs]).

    A [ProcessesCollectionExtrinsics] wraps the collection of processes: it
    parses the calls to the hardcoded functions, drives the calls to the
    functions of an implementation of [Extrinsics], and keeps the state in
    which each interrupted thread is.

    The [RefCell] around the collection is its content and the flag
    [inner_borrowed]; taking it while it is taken panics.  An
    [Arc<LocalProcessUserData>] is the data, stored once with the process, and
    its strong count.  A process handle is the identifier of the process, and
    holds one count; a thread handle holds one count and the user data that it
    took out of the thread. *)
From S2P Require Import Prelude IdPool WasmValue Ffi Calls Vm ExtrinsicsApi Processes.

Section extrinsics.
Context `{Rng} `{Wasmi} `{!HashIter Z} `{Extrinsics}.

(** Possible function available to processes. *)
Inductive Extrinsic :=
  | Ex_NextMessage
  | Ex_EmitMessage
  | Ex_EmitMessageError
  | Ex_EmitAnswer
  | Ex_CancelMessage
  | Ex_Other (id : ExtrinsicId).

Inductive LocalThreadState :=
  | ReadyToRun
  | OtherExtrinsicApplyAction (context : Context) (action : ExtrinsicsAction)
  | OtherExtrinsicEmit (context : Context) (interface : InterfaceHash)
      (message : EncodedMessage) (response_expected : bool)
  | OtherExtrinsicWait (context : Context) (message : MessageId)
  | St_NotificationWait (wait : NotificationWait)
  | St_EmitMessage (emit : EmitMessage)
  | Poisoned.

Definition is_ready_to_run (s : LocalThreadState) : bool :=
  match s with ReadyToRun => true | _ => false end.

Section collection.
Context {TPud TTud : Type}.

(** [struct LocalProcessUserData], and the strong count of its [Arc]. *)
Record LocalProcessUserData := {
  lp_external_user_data : TPud;
  lp_extrinsics : Ext;
  strong_count : nat;
}.

(** [lt_external_user_data] is [None] while the thread is locked. *)
Record LocalThreadUserData := {
  state : LocalThreadState;
  lt_external_user_data : option TTud;
}.

Abbreviation coll := (ProcessesCollection Extrinsic LocalProcessUserData LocalThreadUserData).

Record ProcessesCollectionExtrinsics := {
  px_inner : coll;
  inner_borrowed : bool;
  local_run_queue : list ThreadId;
}.
Local Abbreviation PCE := ProcessesCollectionExtrinsics.

(** A lock on an interrupted thread.  [tl_pid] designates the [Arc] that
    [process_user_data] is. *)
Record ThreadLock := {
  tl_tid : ThreadId;
  tl_pid : Pid;
  tl_user_data : TTud;
}.

(** [enum ProcessesCollectionExtrinsicsThread]. *)
Inductive InterruptedThread :=
  | Th_EmitMessage (t : ThreadLock)
  | Th_WaitNotification (t : ThreadLock).

Inductive ThreadByIdErr := RunningOrDead | AlreadyLocked.

Inductive PxRunOneOutcome :=
  | Px_ProcessFinished (pid : Pid) (user_data : TPud) (dead_threads : list (ThreadId * TTud))
      (outcome : wasmi_Trap + option WasmValue)
  | Px_ThreadFinished (thread_id : ThreadId) (process : Pid) (user_data : TTud)
      (value : option WasmValue)
  | Px_ThreadEmitMessage (t : ThreadLock)
  | Px_ThreadWaitNotification (t : ThreadLock)
  | Px_ThreadEmitAnswer (thread_id : ThreadId) (process : Pid) (message_id : MessageId)
      (response : EncodedMessage)
  | Px_ThreadEmitMessageError (thread_id : ThreadId) (process : Pid) (message_id : MessageId)
  | Px_ThreadCancelMessage (thread_id : ThreadId) (process : Pid) (message_id : MessageId)
  | Px_Idle.

(** * The [RefCell] and the [Arc]s *)

Definition with_inner (c : coll) (s : PCE) : PCE :=
  {| px_inner := c; inner_borrowed := inner_borrowed s; local_run_queue := local_run_queue s |}.
Definition with_borrowed (b : bool) (s : PCE) : PCE :=
  {| px_inner := px_inner s; inner_borrowed := b; local_run_queue := local_run_queue s |}.
Definition with_queue (q : list ThreadId) (s : PCE) : PCE :=
  {| px_inner := px_inner s; inner_borrowed := inner_borrowed s; local_run_queue := q |}.

(** Takes the [RefCell] mutably for the time of [m]. *)
Definition borrow_mut {A} (m : M PCE A) : M PCE A :=
  s ← get;
  if inner_borrowed s then panic PAlreadyBorrowed else
  _ ← put (with_borrowed true s);
  a ← m;
  _ ← modify (with_borrowed false);
  mret a.

(** An operation of the underlying collection, which is borrowed. *)
Definition on_inner {A} (m : M coll A) : M PCE A := zoom px_inner with_inner m.

Definition push_queue (tid : ThreadId) : M PCE unit :=
  modify (λ s, with_queue (local_run_queue s ++ [tid]) s).

(** [thread_by_id(tid).unwrap()]. *)
Definition thread_by_id_unwrap (tid : ThreadId) : M coll (Pid * nat) :=
  c ← get; liftM (unwrap (thread_by_id c tid)).

Definition with_strong (n : nat) (d : LocalProcessUserData) : LocalProcessUserData :=
  {| lp_external_user_data := lp_external_user_data d; lp_extrinsics := lp_extrinsics d;
     strong_count := n |}.
Definition with_extrinsics (e : Ext) (d : LocalProcessUserData) : LocalProcessUserData :=
  {| lp_external_user_data := lp_external_user_data d; lp_extrinsics := e;
     strong_count := strong_count d |}.
Definition with_external (u : TPud) (d : LocalProcessUserData) : LocalProcessUserData :=
  {| lp_external_user_data := u; lp_extrinsics := lp_extrinsics d;
     strong_count := strong_count d |}.

(** Changes the data behind the [Arc] of process [pid]. *)
Definition modify_proc (pid : Pid) (f : LocalProcessUserData → LocalProcessUserData) :
    M coll unit :=
  c ← get;
  p ← liftM (entry c pid);
  modify (set_process pid {| state_machine := state_machine p; pr_user_data := f (pr_user_data p) |}).

Definition arc_clone (pid : Pid) : M coll unit :=
  modify_proc pid (λ d, with_strong (S (strong_count d)) d).
Definition arc_drop (pid : Pid) : M coll unit :=
  modify_proc pid (λ d, with_strong (pred (strong_count d)) d).

(** * The state of a thread *)

Definition set_state (t : Pid * nat) (st : LocalThreadState) : M coll unit :=
  c ← get;
  d ← liftM (user_data c t);
  set_user_data t {| state := st; lt_external_user_data := lt_external_user_data d |}.

(** [mem::replace(&mut thread.user_data().state, st)]. *)
Definition replace_state (t : Pid * nat) (st : LocalThreadState) : M coll LocalThreadState :=
  c ← get;
  d ← liftM (user_data c t);
  _ ← set_state t st;
  mret (state d).

(** [thread.user_data().external_user_data.take().unwrap()]. *)
Definition take_external (t : Pid * nat) : M coll TTud :=
  c ← get;
  d ← liftM (user_data c t);
  _ ← set_user_data t {| state := state d; lt_external_user_data := None |};
  liftM (unwrap (lt_external_user_data d)).

(** The construction of a lock: clones the [Arc] and takes the user data. *)
Definition lock_thread (t : Pid * nat) : M coll ThreadLock :=
  _ ← arc_clone t.1;
  ud ← take_external t;
  c ← get;
  id ← liftM (tid c t);
  mret {| tl_tid := id; tl_pid := t.1; tl_user_data := ud |}.

(** [impl ExtrinsicsMemoryAccess for MemoryAccessImpl]. *)
Definition MemoryAccessImpl (pid : Pid) : ExtrinsicsMemoryAccess coll := {|
  ma_read_memory := λ c start end_,
    size ← unwrap (u32_checked_sub end_ start);
    proc_read_memory c pid start size;
  ma_write_memory := λ offset data, proc_write_memory pid offset data;
|}.

(** Runs a method of the [Extrinsics] of process [pid]. *)
Definition with_extrinsics_of {A} (pid : Pid) (m : M (Ext * coll) A) : M coll A := λ c,
  p ← entry c pid;
  '(a, (ext, c)) ← m (lp_extrinsics (pr_user_data p), c);
  '(_, c) ← modify_proc pid (with_extrinsics ext) c;
  Done (a, c).

(** * Processes *)

(** [process_by_id]: the handle holds a count. *)
Definition px_process_by_id (pid : Pid) : M PCE (option Pid) :=
  borrow_mut (on_inner (
    c ← get;
    match process_by_id c pid with
    | None => mret None
    | Some pid => _ ← arc_clone pid; mret (Some pid)
    end)).

(** The end of the life of a process handle. *)
Definition drop_proc (pid : Pid) : M PCE unit := on_inner (arc_drop pid).

(** [ProcessesCollectionExtrinsicsProc::user_data], read and written through
    the handle's own [Arc]. *)
Definition px_user_data (s : PCE) (pid : Pid) : outcome TPud :=
  d ← proc_user_data (px_inner s) pid; Done (lp_external_user_data d).
Definition px_set_user_data (pid : Pid) (u : TPud) : M PCE unit :=
  on_inner (modify_proc pid (with_external u)).

Definition px_execute (module : wasmi_Module) (proc_user_data : TPud)
    (main_thread_user_data : TTud) : M PCE (NewErr + Pid) :=
  (* the handle's clone of the [Arc] and the one in the collection *)
  let proc_user_data := {| lp_external_user_data := proc_user_data;
    lp_extrinsics := ext_default; strong_count := 2 |} in
  let main_thread_user_data := {| state := ReadyToRun;
    lt_external_user_data := Some main_thread_user_data |} in
  borrow_mut (on_inner (execute module proc_user_data main_thread_user_data)).

(** * Running *)

(** What a part of [run_once] does: [return] from the function, or go on. *)
Inductive flow := Return (r : option PxRunOneOutcome) | Continue.

(** One iteration of [while let Ok(tid) = self.local_run_queue.pop()]. *)
Definition apply_action (tid : ThreadId) : M PCE flow :=
  c ← gets px_inner;
  match thread_by_id c tid with
  | None => mret (Return None)
  | Some thread =>
      st ← on_inner (replace_state thread Poisoned);
      match st with
      | OtherExtrinsicApplyAction context Action_ProgramCrash => panic PUnimplemented
      | OtherExtrinsicApplyAction context (Action_Resume value) =>
          _ ← on_inner (set_state thread ReadyToRun);
          _ ← on_inner (resume thread value);
          mret Continue
      | OtherExtrinsicApplyAction context (Action_EmitMessage interface message response_expected) =>
          _ ← on_inner (set_state thread
                (OtherExtrinsicEmit context interface message response_expected));
          t ← on_inner (lock_thread thread);
          mret (Return (Some (Px_ThreadEmitMessage t)))
      | _ => panic PUnreachable
      end
  end.

Fixpoint drain_queue (q : list ThreadId) : M PCE flow :=
  match q with
  | [] => mret Continue
  | tid :: q =>
      _ ← modify (with_queue q);
      f ← apply_action tid;
      match f with
      | Return r => mret (Return r)
      | Continue => drain_queue q
      end
  end.

(** The end of the calls that resume the thread and report an event. *)
Definition resume_and_report {A} (thread : Pid * nat) (parse : fallible A MessageId)
    (report : ThreadId → Pid → MessageId → PxRunOneOutcome) : M PCE (option PxRunOneOutcome) :=
  c ← gets px_inner;
  d ← liftM (user_data c thread);
  _ ← liftM (debug_assert (is_ready_to_run (state d)));
  _ ← liftM (debug_assert (bool_decide (is_Some (lt_external_user_data d))));
  m ← liftM parse;
  match m with
  | inl _ => panic PExplicit
  | inr m =>
      _ ← on_inner (resume thread None);
      c ← gets px_inner;
      thread_id ← liftM (tid c thread);
      pid ← liftM (unwrap (process_by_id c thread.1));
      _ ← on_inner (arc_clone pid);
      mret (Some (report thread_id pid m))
  end.

(** The calls that leave the thread interrupted, in state [st]. *)
Definition interrupt_with (thread : Pid * nat) (st : LocalThreadState)
    (report : ThreadLock → PxRunOneOutcome) : M PCE (option PxRunOneOutcome) :=
  _ ← on_inner (set_state thread st);
  t ← on_inner (lock_thread thread);
  mret (Some (report t)).

Definition handle_interrupted (thread : Pid * nat) (id : Extrinsic) (params : list WasmValue) :
    M PCE (option PxRunOneOutcome) :=
  c ← gets px_inner;
  let read := proc_read_memory c thread.1 in
  match id with
  | Ex_NextMessage =>
      d ← liftM (user_data c thread);
      _ ← liftM (debug_assert (is_ready_to_run (state d)));
      next_msg ← liftM (parse_extrinsic_next_notification read params);
      match next_msg with
      | inl _ => panic PExplicit
      | inr m => interrupt_with thread (St_NotificationWait m) Px_ThreadWaitNotification
      end
  | Ex_EmitMessage =>
      d ← liftM (user_data c thread);
      _ ← liftM (debug_assert (is_ready_to_run (state d)));
      emit_msg ← liftM (parse_extrinsic_emit_message read params);
      match emit_msg with
      | inl _ => panic PExplicit
      | inr m => interrupt_with thread (St_EmitMessage m) Px_ThreadEmitMessage
      end
  | Ex_EmitAnswer =>
      d ← liftM (user_data c thread);
      _ ← liftM (debug_assert (is_ready_to_run (state d)));
      _ ← liftM (debug_assert (bool_decide (is_Some (lt_external_user_data d))));
      emit_resp ← liftM (parse_extrinsic_emit_answer read params);
      match emit_resp with
      | inl _ => panic PExplicit
      | inr a =>
          _ ← on_inner (resume thread None);
          c ← gets px_inner;
          thread_id ← liftM (tid c thread);
          pid ← liftM (unwrap (process_by_id c thread.1));
          _ ← on_inner (arc_clone pid);
          mret (Some (Px_ThreadEmitAnswer thread_id pid (ea_message_id a) (ea_response a)))
      end
  | Ex_EmitMessageError =>
      resume_and_report thread (parse_extrinsic_emit_message_error read params)
        Px_ThreadEmitMessageError
  | Ex_CancelMessage =>
      resume_and_report thread (parse_extrinsic_cancel_message read params)
        Px_ThreadCancelMessage
  | Ex_Other ext_id =>
      d ← liftM (user_data c thread);
      _ ← liftM (debug_assert (is_ready_to_run (state d)));
      thread_id ← liftM (tid c thread);
      '(context, action) ← on_inner (with_extrinsics_of thread.1
        (new_context (MemoryAccessImpl thread.1) thread_id ext_id params));
      _ ← on_inner (set_state thread (OtherExtrinsicApplyAction context action));
      _ ← push_queue thread_id;
      mret None
  end.

(** [state.external_user_data.unwrap()] for every dead thread. *)
Definition unwrap_dead_threads (l : list (ThreadId * LocalThreadUserData)) :
    outcome (list (ThreadId * TTud)) :=
  map_outcome (λ '(id, d), ud ← unwrap (lt_external_user_data d); Done (id, ud)) l.

(** The events of the underlying collection. *)
Definition handle_run_outcome (o : RunOneOutcome Extrinsic LocalProcessUserData LocalThreadUserData) :
    M PCE (option PxRunOneOutcome) :=
  match o with
  | ProcessFinished pid user_data dead_threads outcome =>
      if bool_decide (strong_count user_data = 1%nat) then
        dead_threads ← liftM (unwrap_dead_threads dead_threads);
        mret (Some (Px_ProcessFinished pid (lp_external_user_data user_data) dead_threads outcome))
      else panic PUnimplemented
  | ThreadFinished thread_id process user_data value =>
      _ ← liftM (debug_assert (is_ready_to_run (state user_data)));
      (* [self.process_by_id(..).unwrap()], while [inner] is borrowed *)
      process ← px_process_by_id process;
      process ← liftM (unwrap process);
      match lt_external_user_data user_data with
      | Some ud => mret (Some (Px_ThreadFinished thread_id process ud value))
      | None => panic PExplicit
      end
  | Idle => mret (Some Px_Idle)
  | Interrupted thread id params => handle_interrupted thread id params
  end.

Definition run_once : M PCE (option PxRunOneOutcome) :=
  borrow_mut (
    q ← gets local_run_queue;
    f ← drain_queue q;
    match f with
    | Return r => mret r
    | Continue =>
        o ← on_inner run;
        handle_run_outcome o
    end).

(** [run]: calls [run_once] until it reports something, [fuel] times at most. *)
Fixpoint px_run (fuel : nat) : M PCE PxRunOneOutcome :=
  match fuel with
  | O => λ _, NoFuel
  | S fuel =>
      r ← run_once;
      match r with
      | Some outcome => mret outcome
      | None => px_run fuel
      end
  end.

(** * Interrupted threads *)

Definition interrupted_thread_by_id (id : ThreadId) : M PCE (ThreadByIdErr + InterruptedThread) :=
  borrow_mut (on_inner (
    c ← get;
    match thread_by_id c id with
    | None => mret (inl RunningOrDead)
    | Some t =>
        d ← liftM (user_data c t);
        if bool_decide (lt_external_user_data d = None) then mret (inl AlreadyLocked) else
        match state d with
        | ReadyToRun | OtherExtrinsicApplyAction _ _ =>
            _ ← liftM (debug_assert (bool_decide (is_Some (lt_external_user_data d))));
            mret (inl RunningOrDead)
        | St_EmitMessage _ | OtherExtrinsicEmit _ _ _ _ =>
            _ ← arc_clone t.1;
            ud ← take_external t;
            mret (inr (Th_EmitMessage {| tl_tid := id; tl_pid := t.1; tl_user_data := ud |}))
        | St_NotificationWait _ | OtherExtrinsicWait _ _ =>
            _ ← arc_clone t.1;
            ud ← take_external t;
            mret (inr (Th_WaitNotification {| tl_tid := id; tl_pid := t.1; tl_user_data := ud |}))
        | Poisoned => panic PExplicit
        end
    end)).

(** [impl Drop] of the two kinds of locks, and the drop of the [Arc]. *)
Definition drop_thread (t : ThreadLock) : M PCE unit :=
  _ ← borrow_mut (on_inner (
        h ← thread_by_id_unwrap (tl_tid t);
        c ← get;
        d ← liftM (user_data c h);
        _ ← liftM (debug_assert (bool_decide (lt_external_user_data d = None)));
        set_user_data h {| state := state d; lt_external_user_data := Some (tl_user_data t) |}));
  on_inner (arc_drop (tl_pid t)).

(** [pid()] of a lock looks the thread up. *)
Definition lock_pid (t : ThreadLock) : M PCE Pid :=
  borrow_mut (on_inner (h ← thread_by_id_unwrap (tl_tid t); mret h.1)).

(** [process_user_data()] of a lock goes through its own [Arc]. *)
Definition lock_process_user_data (s : PCE) (t : ThreadLock) : outcome TPud :=
  px_user_data s (tl_pid t).

(** Looks at the state of a locked thread. *)
Definition peek_state {A} (t : ThreadLock) (f : LocalThreadState → outcome A) : M PCE A :=
  borrow_mut (on_inner (
    h ← thread_by_id_unwrap (tl_tid t);
    c ← get;
    d ← liftM (user_data c h);
    liftM (f (state d)))).

(** ** A thread that emits a message *)

Definition needs_answer (t : ThreadLock) : M PCE bool :=
  peek_state t (λ st,
    match st with
    | St_EmitMessage emit => Done (bool_decide (is_Some (message_id_write emit)))
    | OtherExtrinsicEmit _ _ _ response_expected => Done response_expected
    | _ => Panic PUnreachable
    end).

Definition emit_interface (t : ThreadLock) : M PCE InterfaceHash :=
  peek_state t (λ st,
    match st with
    | St_EmitMessage emit => Done (em_interface emit)
    | OtherExtrinsicEmit _ interface _ _ => Done interface
    | _ => Panic PUnreachable
    end).

Definition allow_delay (t : ThreadLock) : M PCE bool :=
  peek_state t (λ st,
    match st with
    | St_EmitMessage emit => Done (em_allow_delay emit)
    | OtherExtrinsicEmit _ _ _ _ => Done true
    | _ => Panic PUnreachable
    end).

(** [inner.write_memory(..).unwrap()], or a [match] that panics on an error. *)
Definition write_or_panic (r : panic_reason) (pid : Pid) (offset : Z) (value : bytes) :
    M coll unit :=
  w ← proc_write_memory pid offset value;
  match w with Some _ => mret tt | None => panic r end.

Definition accept_emit (t : ThreadLock) (message_id : option MessageId) : M PCE EncodedMessage :=
  message ← borrow_mut (
    h ← on_inner (thread_by_id_unwrap (tl_tid t));
    st ← on_inner (replace_state h Poisoned);
    match st with
    | St_EmitMessage emit =>
        _ ← match message_id_write emit with
            | Some message_id_write =>
                match message_id with
                | Some message_id => on_inner (write_or_panic PUnwrap h.1 message_id_write
                                       (u64_to_le_bytes message_id))
                | None => panic PExplicit
                end
            | None => liftM (assert_ (bool_decide (message_id = None)))
            end;
        _ ← on_inner (set_state h ReadyToRun);
        _ ← on_inner (resume h (Some (I32 0)));
        mret (em_message emit)
    | OtherExtrinsicEmit context _ message response_expected =>
        if response_expected then
          message_id ← liftM (unwrap message_id);
          _ ← on_inner (set_state h (OtherExtrinsicWait context message_id));
          mret message
        else
          _ ← liftM (debug_assert (bool_decide (message_id = None)));
          '(context, action) ← on_inner (with_extrinsics_of h.1
            (inject_message_response (MemoryAccessImpl h.1) context None));
          _ ← on_inner (set_state h (OtherExtrinsicApplyAction context action));
          c ← gets px_inner;
          id ← liftM (tid c h);
          _ ← push_queue id;
          mret message
    | _ => panic PUnreachable
    end);
  _ ← drop_thread t;
  mret message.

Definition refuse_emit (t : ThreadLock) : M PCE unit :=
  _ ← borrow_mut (
    h ← on_inner (thread_by_id_unwrap (tl_tid t));
    st ← on_inner (replace_state h Poisoned);
    match st with
    | St_EmitMessage _ =>
        _ ← on_inner (set_state h ReadyToRun);
        on_inner (resume h (Some (I32 1)))
    | OtherExtrinsicEmit context _ _ _ =>
        _ ← on_inner (set_state h (OtherExtrinsicApplyAction context Action_ProgramCrash));
        c ← gets px_inner;
        id ← liftM (tid c h);
        push_queue id
    | _ => panic PUnreachable
    end);
  drop_thread t.

(** ** A thread that waits for a notification *)

Definition message_ids_iter (t : ThreadLock) : M PCE (list MessageId) :=
  peek_state t (λ st,
    match st with
    | St_NotificationWait wait => Done (notifs_ids wait)
    | OtherExtrinsicWait _ message => Done [message]
    | _ => Panic PUnreachable
    end).

Definition allowed_notification_size (t : ThreadLock) : M PCE Z :=
  peek_state t (λ st,
    match st with
    | St_NotificationWait wait => unwrap (usize_try_from (out_size wait))
    | OtherExtrinsicWait _ _ => Done usize_max
    | _ => Panic PUnreachable
    end).

Definition lock_block (t : ThreadLock) : M PCE bool :=
  peek_state t (λ st,
    match st with
    | St_NotificationWait wait => Done (block wait)
    | OtherExtrinsicWait _ _ => Done true
    | _ => Panic PUnreachable
    end).

(** The answer that [resume_notification] hands to an [Extrinsics]. *)
Definition decoded_answer (notif : EncodedMessage) : outcome EncodedMessage :=
  decoded ← decode_notification notif;
  match decoded with
  | inl _ => Panic PUnwrap
  | inr (DnResponse response) =>
      match dr_actual_data response with
      | inr data => Done data
      | inl _ => Panic PUnwrap
      end
  | inr _ => Panic PExplicit
  end.

Definition resume_notification (t : ThreadLock) (index : nat) (notif : EncodedMessage) :
    M PCE unit :=
  _ ← borrow_mut (
    h ← on_inner (thread_by_id_unwrap (tl_tid t));
    st ← on_inner (replace_state h Poisoned);
    match st with
    | St_NotificationWait wait =>
        _ ← liftM (assert_ (bool_decide (index < length (notifs_ids wait))%nat));
        notif_size_u32 ← liftM (unwrap (u32_try_from (Z.of_nat (length notif))));
        _ ← liftM (assert_ (bool_decide (notif_size_u32 ≤ out_size wait)));
        _ ← on_inner (write_or_panic PExplicit h.1 (out_pointer wait) notif);
        index_u32 ← liftM (unwrap (u32_try_from (Z.of_nat index)));
        off ← liftM (index_u32 *u32 8)%rust;
        addr ← liftM (notifs_ids_ptr wait +u32 off)%rust;
        _ ← on_inner (write_or_panic PExplicit h.1 addr (replicate 8 Init.Byte.x00));
        _ ← on_inner (set_state h ReadyToRun);
        size ← liftM (unwrap (i32_try_from notif_size_u32));
        on_inner (resume h (Some (I32 size)))
    | OtherExtrinsicWait context _ =>
        message ← liftM (decoded_answer notif);
        _ ← liftM (assert_ (bool_decide (index = 0%nat)));
        '(context, action) ← on_inner (with_extrinsics_of h.1
          (inject_message_response (MemoryAccessImpl h.1) context (Some message)));
        _ ← on_inner (set_state h (OtherExtrinsicApplyAction context action));
        c ← gets px_inner;
        id ← liftM (tid c h);
        push_queue id
    | _ => panic PUnreachable
    end);
  drop_thread t.

Definition resume_notification_too_big (t : ThreadLock) (notif_size : nat) : M PCE unit :=
  _ ← borrow_mut (
    h ← on_inner (thread_by_id_unwrap (tl_tid t));
    c ← gets px_inner;
    d ← liftM (user_data c h);
    expected ← match state d with
               | St_NotificationWait wait => mret (out_size wait)
               | OtherExtrinsicWait _ _ => panic PExplicit
               | _ => panic PUnreachable
               end;
    size ← liftM (unwrap (u32_try_from (Z.of_nat notif_size)));
    _ ← liftM (debug_assert (bool_decide (expected < size)));
    _ ← on_inner (set_state h ReadyToRun);
    size ← liftM (unwrap (i32_try_from (Z.of_nat notif_size)));
    on_inner (resume h (Some (I32 size))));
  drop_thread t.

Definition resume_no_notification (t : ThreadLock) : M PCE unit :=
  _ ← borrow_mut (
    h ← on_inner (thread_by_id_unwrap (tl_tid t));
    c ← gets px_inner;
    d ← liftM (user_data c h);
    _ ← match state d with
        | St_NotificationWait wait => liftM (assert_ (negb (block wait)))
        | OtherExtrinsicWait _ _ => panic PExplicit
        | _ => panic PUnreachable
        end;
    _ ← on_inner (set_state h ReadyToRun);
    on_inner (resume h (Some (I32 0))));
  drop_thread t.

(** * Operations of a process handle *)

Definition px_start_thread (pid : Pid) (fn_index : Z) (params : list WasmValue) (ud : TTud) :
    M PCE (StartErr + unit) :=
  borrow_mut (on_inner (
    c ← get;
    pid ← liftM (unwrap (process_by_id c pid));
    r ← start_thread pid fn_index params
          {| state := ReadyToRun; lt_external_user_data := Some ud |};
    mret (match r with inl e => inl e | inr _ => inr tt end))).

(** [while let Some(mut thread_inner) = thread.take()]: the identifiers of the
    [fuel] threads from [t] on. *)
Fixpoint collect_tids (fuel : nat) (c : coll) (t : Pid * nat) : outcome (list ThreadId) :=
  match fuel with
  | O => NoFuel
  | S fuel =>
      id ← tid c t;
      n ← next_thread c t;
      match n with
      | None => Done [id]
      | Some t => ids ← collect_tids fuel c t; Done (id :: ids)
      end
  end.

(** The eager part of [interrupted_threads]: the identifiers of all the
    threads.  The iterator it returns looks each of them up when it gets
    there: [next_interrupted]. *)
Definition interrupted_threads (pid : Pid) : M PCE (list ThreadId) :=
  borrow_mut (on_inner (
    c ← get;
    pid ← liftM (unwrap (process_by_id c pid));
    p ← liftM (entry c pid);
    liftM (collect_tids (num_threads (state_machine p)) c (main_thread pid)))).

Definition next_interrupted (tid : ThreadId) : M PCE (option InterruptedThread) :=
  r ← interrupted_thread_by_id tid;
  match r with
  | inr t => mret (Some t)
  | inl AlreadyLocked => panic PUnimplemented
  | inl RunningOrDead => mret None
  end.

Definition px_abort (pid : Pid) : M PCE unit := panic PUnimplemented.

(** * Builder *)

Definition hardcoded_extrinsics : list (string * string * Signature * Extrinsic) :=
  [("redshirt", "next_notification",
    Signature_new [TI32; TI32; TI32; TI32; TI32] (Some TI32), Ex_NextMessage);
   ("redshirt", "emit_message",
    Signature_new [TI32; TI32; TI32; TI32; TI32; TI32] (Some TI32), Ex_EmitMessage);
   ("redshirt", "emit_message_error", Signature_new [TI32] None, Ex_EmitMessageError);
   ("redshirt", "emit_answer", Signature_new [TI32; TI32; TI32] None, Ex_EmitAnswer);
   ("redshirt", "cancel_message", Signature_new [TI32] None, Ex_CancelMessage)]%string.

Definition other_extrinsics : list (string * string * Signature * Extrinsic) :=
  (λ e, (wasm_interface e, function_name e, se_signature e, Ex_Other (se_id e)))
    <$> supported_extrinsics.

Definition px_builder_default : outcome (ProcessesCollectionBuilder Extrinsic) :=
  inner ← register_all hardcoded_extrinsics builder_default;
  register_all other_extrinsics inner.

Definition px_reserve_pid : M (ProcessesCollectionBuilder Extrinsic) Pid := builder_reserve_pid.

Definition px_build (b : ProcessesCollectionBuilder Extrinsic) : outcome PCE :=
  c ← builder_build b;
  Done {| px_inner := c; inner_borrowed := false; local_run_queue := [] |}.

End collection.
End extrinsics.
