(* ===== verification/ExtrinsicsInv.v ===== *)
(** Soundness of the interpretation of calls.

    The invariant of [ProcessesCollectionExtrinsics], relative to the locks
    and process handles that are alive, and the proof that every operation
    preserves it. *)
From S2P Require Import Prelude IdPool WasmValue Ffi Calls Vm ExtrinsicsApi Processes.
From S2P Require Import ProcessesFrame Extrinsics.

Section invariant.
Context `{Rng} `{Wasmi} `{!HashIter Z} `{Extrinsics}.
Context `{!WasmiLaws} `{!WasmiMemoryLaws} `{!ExtrinsicsLaws} {TPud TTud : Type}.

Local Abbreviation PCE := (ProcessesCollectionExtrinsics (TPud := TPud) (TTud := TTud)).
Local Abbreviation lock := (ThreadLock (TTud := TTud)).
Local Abbreviation LPUD := (LocalProcessUserData (TPud := TPud)).
Local Abbreviation LTUD := (LocalThreadUserData (TTud := TTud)).
Local Abbreviation coll := (ProcessesCollection Extrinsic LPUD LTUD).
Implicit Types (c : coll) (s : PCE) (t : lock) (L : list lock) (R : list Pid)
  (q : list ThreadId) (d : Thread LTUD) (x : LPUD) (h : Pid * nat).

(** * The invariant *)

(** The number of references to the data of process [pid] that the locks [L]
    and the process handles [R] hold. *)
Definition held L R (pid : Pid) : nat := length (filter (λ p, p = pid) ((tl_pid <$> L) ++ R)).

(** What the state of a thread says: [e] is the type of the value that the
    thread waits for. *)
Definition thread_inv (e : option ValueType) (locked queued : Prop) d : Prop :=
  (lt_external_user_data (th_user_data d) = None ↔ locked) ∧
  match state (th_user_data d) with
  | ReadyToRun => ¬ locked ∧ ¬ queued ∧ ∃ v, value_back d = Some v ∧ ty <$> v = e
  | OtherExtrinsicApplyAction ctxt action =>
      ¬ locked ∧ queued ∧ value_back d = None ∧ action_ok context_waits e ctxt action
  | OtherExtrinsicEmit ctxt interface _ response_expected =>
      ¬ queued ∧ value_back d = None ∧ context_waits ctxt e response_expected ∧ is_hash interface
  | OtherExtrinsicWait ctxt _ => ¬ queued ∧ value_back d = None ∧ context_waits ctxt e true
  | St_NotificationWait _ => ¬ queued ∧ value_back d = None ∧ e = Some TI32
  | St_EmitMessage emit =>
      ¬ queued ∧ value_back d = None ∧ e = Some TI32 ∧ is_hash (em_interface emit)
  | Poisoned => False
  end.

#[global] Instance thread_inv_proper e : Proper (iff ==> iff ==> eq ==> iff) (thread_inv e).
Proof.
  intros l l' Hl r r' Hr d ? <-. unfold thread_inv.
  destruct (state (th_user_data d)); rewrite ?Hl, ?Hr; done.
Qed.

(** The extrinsics of the collection are those that the builder registers. *)
Definition reg_ok c : Prop :=
  ∀ name i sg tok, extrinsics_id_assign c !! name = Some (i, sg) → extrinsics c !! i = Some tok →
    (name, sg, tok) ∈ hardcoded_extrinsics ++ other_extrinsics.

(** The invariant, but for the state of the thread [ex] that is being
    changed. *)
Record px_core_but (ex : option (Pid * nat)) L R c q : Prop := {
  pc_coll : coll_ok c;
  pc_memory : has_memory c;
  pc_tids : tids_inj c;
  pc_reg : reg_ok c;
  pc_queue : NoDup q;
  pc_threads : ∀ h d, ud c h = Some d → ex ≠ Some h →
    thread_inv (expected_at c h) (thread_id d ∈ tl_tid <$> L) (thread_id d ∈ q) d;
  pc_strong : ∀ pid x, pl c pid = Some x → strong_count x = S (held L R pid);
  pc_ext : ∀ pid x, pl c pid = Some x → ext_inv (lp_extrinsics x);
  pc_locks : ∀ t, t ∈ L → ∃ h d, ud c h = Some d ∧ thread_id d = tl_tid t ∧ h.1 = tl_pid t;
  pc_lock_nodup : NoDup (tl_tid <$> L);
  pc_refs : ∀ pid, pid ∈ R → is_Some (pl c pid);
}.

Abbreviation px_core := (px_core_but None).

(** The locks [L] and the process handles [R] being alive. *)
Definition px_ok L R s : Prop :=
  inner_borrowed s = false ∧ px_core L R (px_inner s) (local_run_queue s).

(** Changing one thread and its process. *)
Lemma cur_core ex L R c0 q c h d0 d x L' R' q' :
  px_core_but ex L R c0 q → (∀ h', ex = Some h' → h' = h) → ud c0 h = Some d0 → cur c0 c h d x → thread_id d = thread_id d0 →
  thread_inv (expected_at c0 h) (thread_id d0 ∈ tl_tid <$> L') (thread_id d0 ∈ q') d →
  (∀ id, id ≠ thread_id d0 → (id ∈ tl_tid <$> L' ↔ id ∈ tl_tid <$> L) ∧ (id ∈ q' ↔ id ∈ q)) →
  NoDup q' → strong_count x = S (held L' R' h.1) → ext_inv (lp_extrinsics x) →
  (∀ pid, pid ≠ h.1 → held L' R' pid = held L R pid) →
  (∀ t, t ∈ L' → t ∈ L ∨ tl_tid t = thread_id d0 ∧ tl_pid t = h.1) →
  NoDup (tl_tid <$> L') → (∀ pid, pid ∈ R' → pid ∈ R ∨ pid = h.1) →
  px_core L' R' c q'.
Proof.
  intros [] Hex Hd0 Hcur Hid Hinv Hmem Hq' Hstrong Hext Hheld HL' Hnd' HR'.
  pose proof Hcur as (Hframe & _ & Hu & Hp).
  assert (Hthr : ∀ h' d', ud c h' = Some d' →
    thread_inv (expected_at c h') (thread_id d' ∈ tl_tid <$> L') (thread_id d' ∈ q') d').
  { intros h' d' Hd'. rewrite (frame_expected _ _ _ Hframe). rewrite Hu in Hd'.
    case_decide as Hh.
    - simplify_eq. by rewrite Hid.
    - assert (thread_id d' ≠ thread_id d0) as Hne.
      { intros Heq. apply Hh. by eapply pc_tids0. }
      assert (ex ≠ Some h') as Hexh by (intros Heq; by destruct Hh, (Hex _ Heq)).
      destruct (Hmem _ Hne) as [HL Hq]. specialize (pc_threads0 _ _ Hd' Hexh).
      by rewrite HL, Hq. }
  split; try done.
  - eapply frame_ok; [done|done|]. intros h' d' v Hd' Hv. specialize (Hthr _ _ Hd').
    unfold thread_inv in Hthr. rewrite Hv in Hthr.
    destruct (state (th_user_data d')); destruct Hthr as [_ Hthr]; naive_solver.
  - by eapply frame_memory.
  - by eapply cur_tids_inj.
  - destruct Hframe as ([Hx Ha] & _). unfold reg_ok. by rewrite Hx, Ha.
  - intros h' d' Hd' _. by apply Hthr.
  - intros pid x' Hx'. rewrite Hp in Hx'. case_decide; [by simplify_eq|].
    rewrite Hheld by done. by apply pc_strong0.
  - intros pid x' Hx'. rewrite Hp in Hx'. case_decide; [by simplify_eq|]. by eapply pc_ext0.
  - intros t [Ht|[Ht Hpid]]%HL'.
    + destruct (pc_locks0 t Ht) as (h' & d' & Hd' & Hid' & Hpid').
      destruct (decide (h' = h)) as [->|Hne].
      * exists h, d. rewrite Hu, decide_True by done. simplify_eq. by rewrite Hid.
      * exists h', d'. by rewrite Hu, decide_False.
    + exists h, d. rewrite Hu, decide_True by done. by rewrite Hid.
  - intros pid [Hpid| ->]%HR'.
    + rewrite Hp. case_decide; [done|]. by apply pc_refs0.
    + rewrite Hp, decide_True by done. done.
Qed.

(** * The operations on one thread *)

Section rules.
Context {P : panic_reason → Prop}.

(** The data of a thread with another state. *)
Definition with_state (st : LocalThreadState) d : Thread LTUD :=
  {| th_user_data := {| state := st;
       lt_external_user_data := lt_external_user_data (th_user_data d) |};
     thread_id := thread_id d; value_back := value_back d |}.

Definition with_ext (u : option TTud) d : Thread LTUD :=
  {| th_user_data := {| state := state (th_user_data d); lt_external_user_data := u |};
     thread_id := thread_id d; value_back := value_back d |}.

Definition with_value (v : option (option WasmValue)) d : Thread LTUD :=
  {| th_user_data := th_user_data d; thread_id := thread_id d; value_back := v |}.

Lemma wp_set_state c0 c h d x st (Q : unit * coll → Prop) :
  cur c0 c h d x → (∀ c', cur c0 c' h (with_state st d) x → Q (tt, c')) →
  wp P (set_state h st c) Q.
Proof.
  intros Hc HQ. unfold set_state, mbind, M_bind, get, liftM.
  rewrite (cur_user_data _ _ _ _ _ Hc). by eapply wp_set_user_data.
Qed.

Lemma wp_replace_state c0 c h d x st (Q : LocalThreadState * coll → Prop) :
  cur c0 c h d x → (∀ c', cur c0 c' h (with_state st d) x → Q (state (th_user_data d), c')) →
  wp P (replace_state h st c) Q.
Proof.
  intros Hc HQ. unfold replace_state. do 2 apply wp_Mbind. simpl.
  apply wp_liftM. rewrite (cur_user_data _ _ _ _ _ Hc). simpl.
  apply wp_Mbind. eapply wp_set_state; [done|]. intros c' Hc'. by apply HQ.
Qed.

Lemma wp_take_external c0 c h d x u (Q : TTud * coll → Prop) :
  cur c0 c h d x → lt_external_user_data (th_user_data d) = Some u →
  (∀ c', cur c0 c' h (with_ext None d) x → Q (u, c')) →
  wp P (take_external h c) Q.
Proof.
  intros Hc Hu HQ. unfold take_external. do 2 apply wp_Mbind. simpl.
  apply wp_liftM. rewrite (cur_user_data _ _ _ _ _ Hc). simpl.
  apply wp_Mbind. eapply wp_set_user_data; [done|]. intros c' Hc'. rewrite Hu. by apply HQ.
Qed.

Lemma wp_modify_proc c0 c h d x f (Q : unit * coll → Prop) :
  cur c0 c h d x → (∀ c', cur c0 c' h d (f x) → Q (tt, c')) → wp P (modify_proc h.1 f c) Q.
Proof.
  intros Hc HQ. destruct (cur_thread _ _ _ _ _ Hc) as (p & t & Hp & Ht & Hd & Hx).
  unfold modify_proc, mbind, M_bind, get, liftM, entry, modify. rewrite Hp. simpl.
  apply HQ. rewrite Hx. eapply cur_set_process; [done|done|done|].
  intros i. case_decide; [subst; by rewrite Ht|done].
Qed.

Lemma wp_lock_thread c0 c h d x u (Q : lock * coll → Prop) :
  cur c0 c h d x → lt_external_user_data (th_user_data d) = Some u →
  (∀ c', cur c0 c' h (with_ext None d) (with_strong (S (strong_count x)) x) →
     Q ({| tl_tid := thread_id d; tl_pid := h.1; tl_user_data := u |}, c')) →
  wp P (lock_thread h c) Q.
Proof.
  intros Hc Hu HQ. unfold lock_thread. apply wp_Mbind. unfold arc_clone.
  eapply wp_modify_proc; [done|]. intros c1 Hc1.
  apply wp_Mbind. eapply wp_take_external; [done|done|]. intros c2 Hc2.
  do 2 apply wp_Mbind. simpl. apply wp_liftM.
  rewrite (cur_tid _ _ _ _ _ Hc2). by apply HQ.
Qed.

Lemma write_or_panic_rule c0 c h d x r off bs (Q : unit * coll → Prop) :
  cur c0 c h d x → has_memory c0 → P r → (∀ c', cur c0 c' h d x → Q (tt, c')) →
  wp P (write_or_panic r h.1 off bs c) Q.
Proof.
  intros Hc Hm Hr HQ. unfold write_or_panic. apply wp_Mbind.
  eapply wp_write_memory; [done|done|]. intros [[]|] c' Hc'; [by apply HQ|done].
Qed.

Lemma wp_with_extrinsics {A} c0 c h d x (m : M (Ext * coll) A) (Q0 : A → Prop) Q :
  cur c0 c h d x →
  wp P (m (lp_extrinsics x, c)) (λ '(a, (e, c')), cur c0 c' h d x ∧ ext_inv e ∧ Q0 a) →
  (∀ a e c', cur c0 c' h d (with_extrinsics e x) → ext_inv e → Q0 a → Q (a, c')) →
  wp P (with_extrinsics_of h.1 m c) Q.
Proof.
  intros Hc Hm HQ. destruct (cur_thread _ _ _ _ _ Hc) as (p & t & Hp & Ht & Hd & <-).
  unfold with_extrinsics_of, entry. rewrite Hp. simpl. apply wp_bind.
  eapply wp_mono; [exact Hm|]. intros [a [e c']] (Hc' & He & Ha). apply wp_bind.
  eapply wp_modify_proc; [exact Hc'|]. intros c'' Hc''. by eapply HQ.
Qed.

(** Reading the memory of the process. *)
Lemma proc_read_ok c0 c h d x :
  cur c0 c h d x → has_memory c0 → read_ok (proc_read_memory c h.1).
Proof.
  intros Hc Hm off n. destruct (cur_thread _ _ _ _ _ Hc) as (p & t & Hp & _).
  pose proof (frame_memory _ _ (proj1 Hc) Hm _ _ Hp) as Hmem.
  unfold proc_read_memory, entry, read_memory. rewrite Hp. simpl.
  destruct (memory (state_machine p)) as [mem|]; [|done].
  destruct (usize_try_from n) as [n'|] eqn:Hn; [|by exists None].
  apply uint_try_from_Some in Hn as [-> _]. eexists. split; [done|].
  intros bs. apply mem_get_length.
Qed.

Lemma accessor_impl_ok c0 h d x :
  has_memory c0 → accessor_ok (MemoryAccessImpl h.1) (λ c, cur c0 c h d x).
Proof.
  intros Hm. split.
  - intros c a b Hc Hab Hb. simpl. unfold u32_checked_sub.
    rewrite (proj2 (uint_try_from_Some u32_max (b - a) (b - a))) by (unfold u32_max in *; lia).
    simpl. apply (proc_read_ok _ _ _ _ _ Hc Hm).
  - intros off bs c Hc. simpl.
    assert (Hw : wp no_panic (proc_write_memory h.1 off bs c) (λ '(_, c'), cur c0 c' h d x)).
    { eapply wp_write_memory; [done|done|]. done. }
    destruct (proc_write_memory h.1 off bs c) as [[r c']| |]; [|done..]. eauto.
Qed.

End rules.

(** * Locks, handles and the queue *)

Lemma held_cons t L R pid :
  held (t :: L) R pid = if decide (tl_pid t = pid) then S (held L R pid) else held L R pid.
Proof. unfold held. simpl. rewrite filter_cons. by case_decide. Qed.

Lemma held_ref L R r pid :
  held L (r :: R) pid = if decide (r = pid) then S (held L R pid) else held L R pid.
Proof.
  unfold held. rewrite !filter_app, filter_cons. case_decide; rewrite !length_app; simpl; lia.
Qed.

(** [q'] is [q] but for the presence of [id]. *)
Definition queue_change (id : ThreadId) q q' : Prop :=
  NoDup q' ∧ ∀ id', id' ≠ id → id' ∈ q' ↔ id' ∈ q.

Lemma queue_change_refl id q : NoDup q → queue_change id q q.
Proof. by split. Qed.

Lemma queue_change_pop id q : NoDup (id :: q) → queue_change id (id :: q) q.
Proof. intros [??]%NoDup_cons. split; [done|]. intros. set_solver. Qed.

Lemma queue_change_push id q : NoDup q → id ∉ q → queue_change id q (q ++ [id]).
Proof.
  intros Hq Hid. split; [|intros; set_solver].
  apply NoDup_app. split_and!; [done|set_solver|apply NoDup_singleton].
Qed.

(** The thread changes, no lock is taken or released. *)
Lemma core_same ex L R c0 q c h d0 d x0 x q' :
  px_core_but ex L R c0 q → (∀ h', ex = Some h' → h' = h) → ud c0 h = Some d0 → pl c0 h.1 = Some x0 → cur c0 c h d x →
  thread_id d = thread_id d0 → strong_count x = strong_count x0 →
  (ext_inv (lp_extrinsics x0) → ext_inv (lp_extrinsics x)) →
  queue_change (thread_id d0) q q' →
  thread_inv (expected_at c0 h) (thread_id d0 ∈ tl_tid <$> L) (thread_id d0 ∈ q') d →
  px_core L R c q'.
Proof.
  intros Hcore Hex Hd0 Hx0 Hcur Hid Hstrong Hext [Hnd Hq] Hinv.
  eapply (cur_core ex L R c0 q); try done.
  - intros id Hne. by rewrite Hq.
  - rewrite Hstrong. by apply (pc_strong _ _ _ _ _ Hcore).
  - by eapply Hext, pc_ext.
  - intros t Ht. by left.
  - apply Hcore.
  - intros pid Hpid. by left.
Qed.

(** The thread changes and is locked. *)
Lemma core_lock ex L R c0 q c h d0 d x0 u q' :
  px_core_but ex L R c0 q → (∀ h', ex = Some h' → h' = h) → ud c0 h = Some d0 → pl c0 h.1 = Some x0 →
  cur c0 c h d (with_strong (S (strong_count x0)) x0) →
  thread_id d = thread_id d0 → thread_id d0 ∉ tl_tid <$> L →
  queue_change (thread_id d0) q q' →
  thread_inv (expected_at c0 h) True (thread_id d0 ∈ q') d →
  px_core ({| tl_tid := thread_id d0; tl_pid := h.1; tl_user_data := u |} :: L) R c q'.
Proof.
  intros Hcore Hex Hd0 Hx0 Hcur Hid HL [Hnd Hq] Hinv.
  eapply (cur_core ex L R c0 q); try done.
  - eapply thread_inv_proper; [| |done|exact Hinv]; [|done]. split; [done|]. intros _. by left.
  - intros id Hne. rewrite Hq by done. set_solver.
  - rewrite held_cons. simpl. rewrite decide_True by done. f_equal.
    by apply (pc_strong _ _ _ _ _ Hcore).
  - exact (pc_ext _ _ _ _ _ Hcore _ _ Hx0).
  - intros pid Hpid. rewrite held_cons. simpl. by rewrite decide_False.
  - intros t [->|Ht]%elem_of_cons; [by right|by left].
  - simpl. constructor; [done|]. apply Hcore.
  - intros pid Hpid. by left.
Qed.

(** A process handle is created. *)
Lemma core_ref ex L R c0 q c h d0 d x0 q' :
  px_core_but ex L R c0 q → (∀ h', ex = Some h' → h' = h) → ud c0 h = Some d0 → pl c0 h.1 = Some x0 →
  cur c0 c h d (with_strong (S (strong_count x0)) x0) →
  thread_id d = thread_id d0 → queue_change (thread_id d0) q q' →
  thread_inv (expected_at c0 h) (thread_id d0 ∈ tl_tid <$> L) (thread_id d0 ∈ q') d →
  px_core L (h.1 :: R) c q'.
Proof.
  intros Hcore Hex Hd0 Hx0 Hcur Hid [Hnd Hq] Hinv.
  eapply (cur_core ex L R c0 q); try done.
  - intros id Hne. by rewrite Hq.
  - rewrite held_ref, decide_True by done. simpl. f_equal. by apply (pc_strong _ _ _ _ _ Hcore).
  - exact (pc_ext _ _ _ _ _ Hcore _ _ Hx0).
  - intros pid Hpid. by rewrite held_ref, decide_False.
  - intros t Ht. by left.
  - apply Hcore.
  - intros pid [->|Hpid]%elem_of_cons; [by right|by left].
Qed.

(** An identifier that no thread has leaves the queue. *)
Lemma core_pop_dead L R c id q :
  px_core L R c (id :: q) → thread_by_id c id = None → px_core L R c q.
Proof.
  intros [] Hnone. apply NoDup_cons in pc_queue0 as [_ Hq]. split; try done.
  intros h d Hd Hex. specialize (pc_threads0 h d Hd Hex).
  assert (thread_id d ≠ id).
  { intros <-. by rewrite (thread_by_id_ud c h d) in Hnone. }
  eapply thread_inv_proper; [done| |done|exact pc_threads0]. set_solver.
Qed.

(** * Running *)

(** The thread of lock [t] is in one of the states [S]. *)
Definition lock_state c t (S : LocalThreadState → Prop) : Prop :=
  ∃ h d, ud c h = Some d ∧ thread_id d = tl_tid t ∧ S (state (th_user_data d)).

Definition is_emitting (st : LocalThreadState) : Prop :=
  match st with St_EmitMessage _ | OtherExtrinsicEmit _ _ _ _ => True | _ => False end.

Definition is_waiting (st : LocalThreadState) : Prop :=
  match st with St_NotificationWait _ | OtherExtrinsicWait _ _ => True | _ => False end.

(** What may stop a run: a float or a program that an extrinsic wants to crash
    ([unimplemented!()]), a call that is refused ([panic!()]), an overflow in
    the array of buffers of [emit_message], a thread other than the main one
    that finishes (the [RefCell] is taken twice), or the extrinsics. *)
Definition run_panics (r : panic_reason) : Prop :=
  r = PUnimplemented ∨ r = PExplicit ∨ r = POverflow ∨ r = PAlreadyBorrowed ∨ ext_panics r.

(** A thread that waits for its message to be accepted or for a notification. *)
Definition is_stopped (st : LocalThreadState) : Prop := is_emitting st ∨ is_waiting st.

(** The threads of [c] are threads of [c0]; those that were stopped there are
    as they were, and so are those that are stopped in [c] but not locked.  The
    processes have the user data they had in [c0]. *)
Definition carried c0 c : Prop :=
  (∀ h d, ud c h = Some d → ∃ d0, ud c0 h = Some d0 ∧ thread_id d0 = thread_id d ∧
     (is_stopped (state (th_user_data d0)) ∨ is_stopped (state (th_user_data d)) ∧
        is_Some (lt_external_user_data (th_user_data d)) → d = d0)) ∧
  (∀ pid x, pl c pid = Some x →
     ∃ x0, pl c0 pid = Some x0 ∧ lp_external_user_data x0 = lp_external_user_data x).

#[global] Instance carried_preorder : PreOrder carried.
Proof.
  split.
  - intros c. split; eauto.
  - intros c1 c2 c3 [H12 P12] [H23 P23]. split.
    + intros h d (d2 & Hd2 & Hid2 & Heq2)%H23. destruct (H12 _ _ Hd2) as (d1 & Hd1 & Hid1 & Heq1).
      exists d1. split_and!; [done|congruence|]. intros [Hst|Hst].
      * rewrite <-Heq1 in Hst |- * by auto. auto.
      * rewrite Heq2 in Hst |- * by auto. auto.
    + intros pid x (x2 & Hx2 & <-)%P23. destruct (P12 _ _ Hx2) as (x1 & ? & <-). eauto.
Qed.

Lemma cur_carried c0 c h d0 d x x0 :
  cur c0 c h d x → ud c0 h = Some d0 → pl c0 h.1 = Some x0 → thread_id d = thread_id d0 →
  lp_external_user_data x0 = lp_external_user_data x →
  ¬ is_stopped (state (th_user_data d0)) →
  (is_stopped (state (th_user_data d)) → lt_external_user_data (th_user_data d) = None) →
  carried c0 c.
Proof.
  intros (_ & _ & Hu & Hp) Hd0 Hx0 Hid Hx Hst0 Hst. split.
  - intros h' d'. rewrite Hu. case_decide; [|by eauto]. intros [= <-]. subst. exists d0.
    split_and!; [done|done|]. intros [?|[? [u Hsome]]]; [done|]. rewrite Hst in Hsome by done. done.
  - intros pid x'. rewrite Hp. case_decide; [|by eauto]. intros [= <-]. subst. eauto.
Qed.

Lemma ready_not_stopped st : st = ReadyToRun → ¬ is_stopped st.
Proof. by intros -> [[]|[]]. Qed.

(** What a run from [c0] reports, and the state it leaves. *)
Definition run_post c0 (r : option (PxRunOneOutcome (TPud := TPud) (TTud := TTud))) c q : Prop :=
  carried c0 c ∧
  match r with
  | None | Some Px_Idle => px_core [] [] c q
  | Some (Px_ThreadEmitMessage t) => px_core [t] [] c q ∧ lock_state c t is_emitting
  | Some (Px_ThreadWaitNotification t) => px_core [t] [] c q ∧ lock_state c t is_waiting
  | Some (Px_ThreadEmitAnswer _ pid _ _) | Some (Px_ThreadEmitMessageError _ pid _)
  | Some (Px_ThreadCancelMessage _ pid _) => px_core [] [pid] c q
  | Some (Px_ProcessFinished pid u _ _) => px_core [] [] c q ∧ pl c pid = None ∧
      ∃ x, pl c0 pid = Some x ∧ lp_external_user_data x = u
  | Some (Px_ThreadFinished _ _ _ _) => False
  end.

Lemma wp_borrow_mut {A} P (m : M PCE A) s (Q : A * PCE → Prop) :
  inner_borrowed s = false →
  wp P (m (with_borrowed true s)) (λ '(a, s'), Q (a, with_borrowed false s')) →
  wp P (borrow_mut m s) Q.
Proof.
  intros Hb Hm. unfold borrow_mut, mbind, M_bind, get, put, modify. rewrite Hb.
  destruct (m _) as [[a s']| |]; done.
Qed.

Lemma wp_on_inner {A} P (m : M coll A) s (Q : A * PCE → Prop) :
  wp P (m (px_inner s)) (λ '(a, c), Q (a, with_inner c s)) → wp P (on_inner m s) Q.
Proof. apply wp_zoom. Qed.

Lemma unlocked_ext L R c q h d :
  px_core L R c q → ud c h = Some d → thread_id d ∉ tl_tid <$> L →
  ∃ u, lt_external_user_data (th_user_data d) = Some u.
Proof.
  intros Hc Hd HL. destruct (pc_threads _ _ _ _ _ Hc _ _ Hd ltac:(done)) as [Hl _].
  destruct (lt_external_user_data (th_user_data d)) as [u|]; [by eexists|]. naive_solver.
Qed.

Lemma cur_lock_state c0 c h d x t (S : LocalThreadState → Prop) :
  cur c0 c h d x → thread_id d = tl_tid t → S (state (th_user_data d)) → lock_state c t S.
Proof. intros Hc Hid HS. exists h, d. split; [by eapply cur_ud|done]. Qed.

Lemma run_post_trans c0 c1 r c q : carried c0 c1 → run_post c1 r c q → run_post c0 r c q.
Proof.
  intros Hcar [Hcar' Hr]. split; [by etrans|]. destruct r as [[]|]; try done.
  destruct Hr as (? & ? & x & Hx & <-). destruct (proj2 Hcar _ _ Hx) as (x0 & ? & ?). eauto 10.
Qed.

(** One iteration of the loop of [run_once]. *)
Lemma apply_action_sound s id q :
  px_core [] [] (px_inner s) (id :: q) → local_run_queue s = q →
  wp run_panics (apply_action id s) (λ '(f, s'),
    inner_borrowed s' = inner_borrowed s ∧ local_run_queue s' = q ∧
    match f with
    | Return r => run_post (px_inner s) r (px_inner s') q
    | Continue => carried (px_inner s) (px_inner s') ∧ px_core [] [] (px_inner s') q
    end).
Proof.
  intros Hcore Hq. unfold apply_action. apply wp_Mbind. simpl.
  destruct (thread_by_id (px_inner s) id) as [h|] eqn:Hh.
  2:{ simpl. split_and!; try done. split; [done|]. by eapply core_pop_dead. }
  apply thread_by_id_ud_inv in Hh as (d0 & Hd0 & Hid).
  destruct (ud_pl _ _ _ Hd0) as [x0 Hx0].
  pose proof (cur_refl _ _ _ _ Hd0 Hx0) as Hcur.
  assert (Hqc : queue_change (thread_id d0) (id :: q) q).
  { subst id. apply queue_change_pop. apply Hcore. }
  assert (Hnq : thread_id d0 ∉ q).
  { subst id. pose proof (pc_queue _ _ _ _ _ Hcore) as Hnd. by apply NoDup_cons in Hnd as [? _]. }
  destruct (unlocked_ext [] [] _ _ _ _ Hcore Hd0) as [u Hu]; [set_solver|].
  pose proof (pc_threads _ _ _ _ _ Hcore _ _ Hd0 ltac:(done)) as [_ Hst].
  apply wp_Mbind, wp_on_inner. eapply wp_replace_state; [done|]. intros c1 Hc1.
  destruct (state (th_user_data d0)) as [|ctxt action|? ? ? ?|? ?|?|?|] eqn:Hstate; try set_solver.
  destruct Hst as (_ & _ & Hvb & Hres).
  destruct action as [|v|interface message re].
  - by left.
  - apply wp_Mbind, wp_on_inner. eapply wp_set_state; [done|]. intros c2 Hc2.
    apply wp_Mbind, wp_on_inner. eapply wp_resume; [done|done|]. intros c3 Hc3.
    simpl. split_and!; try done; [by eapply cur_carried; [exact Hc3|done|done|done|done|rewrite Hstate; intros [[]|[]]|intros [[]|[]]]|].
    eapply (core_same None [] [] _ (id :: q)); try done. split; [simpl; rewrite Hu; set_solver|].
    simpl. split_and!; [set_solver|done|]. eauto.
  - apply wp_Mbind, wp_on_inner. eapply wp_set_state; [done|]. intros c2 Hc2.
    apply wp_Mbind, wp_on_inner. eapply wp_lock_thread; [done|done|]. intros c3 Hc3.
    simpl. split_and!; try done. split_and!; [eapply cur_carried; [exact Hc3|done|done|done|done|rewrite Hstate; intros [[]|[]]|done]|..].
    + eapply (core_lock None [] [] _ (id :: q)); try done; [set_solver|].
      destruct Hres. by split_and!.
    + by eapply cur_lock_state.
Qed.

Lemma drain_queue_sound s q :
  px_core [] [] (px_inner s) q → local_run_queue s = q →
  wp run_panics (drain_queue q s) (λ '(f, s'),
    inner_borrowed s' = inner_borrowed s ∧
    match f with
    | Return r => run_post (px_inner s) r (px_inner s') (local_run_queue s')
    | Continue => local_run_queue s' = [] ∧ carried (px_inner s) (px_inner s') ∧
        px_core [] [] (px_inner s') []
    end).
Proof.
  revert s. induction q as [|id q IH]; intros s Hcore Hq; [done|]. cbn [drain_queue].
  apply wp_Mbind. simpl. apply wp_Mbind.
  eapply wp_mono; [by apply (apply_action_sound (with_queue q s) id q)|].
  intros [f s'] (Hb & Hq' & Hf). simpl in Hb. destruct f as [r|].
  - simpl. by rewrite Hq'.
  - destruct Hf as [Hcar Hcore']. eapply wp_mono; [by apply IH|]. intros [f s''] [Hb' Hf].
    split; [congruence|]. destruct f as [r|]; [by eapply run_post_trans|].
    destruct Hf as (? & ? & ?). split_and!; [done|by etrans|done].
Qed.

(** ** After a run of the collection *)

(** The thread that a run interrupted, and the function it called. *)
Definition interrupted_by c h tok (params : list WasmValue) d x : Prop :=
  ud c h = Some d ∧ pl c h.1 = Some x ∧ state (th_user_data d) = ReadyToRun ∧
  value_back d = None ∧ is_Some (lt_external_user_data (th_user_data d)) ∧
  ∃ name sg, (name, sg, tok) ∈ hardcoded_extrinsics ++ other_extrinsics ∧
    ty <$> params = sig_params sg ∧ expected_at c h = sig_ret_ty sg.

Lemma thread_inv_ready e locked queued d v :
  thread_inv e locked queued d → value_back d = Some v →
  state (th_user_data d) = ReadyToRun ∧ ¬ queued ∧ is_Some (lt_external_user_data (th_user_data d)).
Proof.
  intros [Hl Hst] Hv. destruct (state (th_user_data d)); try naive_solver.
  destruct Hst as (Hnl & Hnq & _). split_and!; try done.
  destruct (lt_external_user_data _); [by eexists|]. naive_solver.
Qed.

(** How the view changes when one thread of one process is replaced. *)
Lemma view_insert c c' pid i p p' (t t' : ThreadState (Thread LTUD)) :
  processes c !! pid = Some p → threads (state_machine p) !! i = Some t →
  processes c' = <[pid := p']> (processes c) → pr_user_data p' = pr_user_data p →
  threads (state_machine p') = <[i := t']> (threads (state_machine p)) →
  (∀ h, thread_look c' h = if decide (h = (pid, i)) then Some t' else thread_look c h) ∧
  (∀ pid', pl c' pid' = pl c pid').
Proof.
  intros Hp Ht Hc' Hud Hth. split.
  - intros [pid' j]. unfold thread_look. simpl. rewrite Hc', lookup_insert.
    destruct (decide (pid = pid')) as [<-|Hne].
    + simpl. rewrite Hth, Hp, list_lookup_insert. simpl.
      assert (i < length (threads (state_machine p)))%nat by (by eapply lookup_lt_Some).
      repeat case_decide; naive_solver.
    + rewrite decide_False by naive_solver. done.
  - intros pid'. unfold pl. rewrite Hc', lookup_insert. case_decide; [|done].
    subst. rewrite Hp. simpl. by rewrite Hud.
Qed.

Lemma run_interrupted_core c c' q h tok params :
  px_core [] [] c q → coll_ok c' → run_spec c (Interrupted h tok params) c' →
  px_core_but (Some h) [] [] c' q ∧ carried c c' ∧
  ∃ d x, interrupted_by c' h tok params d x ∧ thread_id d ∉ q.
Proof.
  destruct h as [pid i]. intros [] Hc' (_ & _ & [Hx Ha] & p & p' & t & t' & id & sig & Hp & Ht &
    Hready & Hreg & Hparams & Hps & Hud & Hmem & Hth & Hdata & Hvb & Hexp).
  destruct (view_insert _ _ _ _ _ _ _ _ Hp Ht Hps Hud Hth) as [Hlook Hpl].
  assert (Hudl : ∀ h, ud c' h = if decide (h = (pid, i)) then Some (ts_user_data t') else ud c h).
  { intros h. unfold ud. rewrite Hlook. by case_decide. }
  assert (Hd0 : ud c (pid, i) = Some (ts_user_data t)).
  { unfold ud, thread_look. simpl. rewrite Hp. simpl. by rewrite Ht. }
  injection Hdata as Hid Hext.
  destruct (value_back (ts_user_data t)) as [v|] eqn:Hv; [|done].
  destruct (thread_inv_ready _ _ _ _ _ (pc_threads0 _ _ Hd0 ltac:(done)) Hv) as (Hst & Hnq & Hsome).
  split_and!.
  - split; try done.
    + intros pid' p0. rewrite Hps. intros [[<- <-]|[? ?]]%lookup_insert_Some.
      * rewrite Hmem. by eapply pc_memory0.
      * by eapply pc_memory0.
    + intros h1 h2 d1 d2. rewrite !Hudl. repeat case_decide; intros ?? Heq; simplify_eq; try done.
      * eapply pc_tids0; [done|done|congruence].
      * eapply pc_tids0; [done|done|congruence].
      * by eapply pc_tids0.
    + unfold reg_ok. by rewrite Hx, Ha.
    + intros h d. rewrite Hudl. case_decide; [naive_solver|]. intros Hd _.
      replace (expected_at c' h) with (expected_at c h); [by apply pc_threads0|].
      unfold expected_at. by rewrite Hlook, decide_False.
    + intros pid' x. rewrite Hpl. apply pc_strong0.
    + intros pid' x. rewrite Hpl. apply pc_ext0.
    + intros t0 []%elem_of_nil.
    + intros r []%elem_of_nil.
  - split.
    + intros h d. rewrite Hudl. case_decide; [|by eauto]. intros [= <-]. subst.
      exists (ts_user_data t). split_and!; [done|done|]. rewrite Hext, Hst. by intros [[[]|[]]|[[[]|[]] _]].
    + intros pid' x. rewrite Hpl. eauto.
  - exists (ts_user_data t'), (pr_user_data p). split; [|by rewrite Hid].
    unfold interrupted_by. rewrite Hext, Hpl, Hudl, decide_True by done.
    split_and!; try done.
    + unfold pl. simpl. by rewrite Hp.
    + destruct Hreg as (name & sg & Hname & Hsg & Htok). exists name, sg.
      pose proof (proj1 (matches_wasmi_spec sg sig)) as [Hps' Hrs'];
        [by apply bool_decide_eq_true|].
      split_and!; [by eapply pc_reg0|by rewrite Hps'|].
      unfold expected_at. rewrite Hlook, decide_True by done. simpl. by rewrite Hrs'.
Qed.

(** ** The calls *)

(** The signature under which each function is registered. *)
Lemma token_signature name sg tok :
  (name, sg, tok) ∈ hardcoded_extrinsics ++ other_extrinsics →
  match tok with
  | Ex_NextMessage => sg = Signature_new (replicate 5 TI32) (Some TI32)
  | Ex_EmitMessage => sg = Signature_new (replicate 6 TI32) (Some TI32)
  | Ex_EmitAnswer => sg = Signature_new (replicate 3 TI32) None
  | Ex_EmitMessageError | Ex_CancelMessage => sg = Signature_new (replicate 1 TI32) None
  | Ex_Other id => ∃ e, e ∈ supported_extrinsics ∧ id = se_id e ∧ sg = se_signature e
  end.
Proof.
  intros [Hin|Hin]%elem_of_app.
  - unfold hardcoded_extrinsics in Hin. rewrite !elem_of_cons, elem_of_nil in Hin.
    naive_solver.
  - unfold other_extrinsics in Hin. apply list_elem_of_fmap in Hin as (e & [= -> -> ->] & He). eauto.
Qed.

Lemma ty_i32_params n params : ty <$> params = replicate n TI32 → i32_params n params.
Proof.
  revert n. induction params as [|v params IH]; intros [|n] Hty; simplify_eq/=.
  - by exists [].
  - destruct v as [z| | |]; try done. destruct (IH n) as (zs & -> & Hlen); [done|].
    exists (z :: zs). simpl. by rewrite Hlen.
Qed.

Lemma emit_run_panics r : emit_panics r → run_panics r.
Proof. unfold run_panics. intros [->| ->]; auto. Qed.

(** A call that leaves the thread interrupted. *)
Lemma interrupt_with_sound s h d x st report :
  px_core_but (Some h) [] [] (px_inner s) (local_run_queue s) →
  ud (px_inner s) h = Some d → pl (px_inner s) h.1 = Some x →
  state (th_user_data d) = ReadyToRun →
  is_Some (lt_external_user_data (th_user_data d)) → value_back d = None →
  thread_id d ∉ local_run_queue s →
  (∀ c t, px_core [t] [] c (local_run_queue s) → lock_state c t (λ st', st' = st) →
     carried (px_inner s) c → run_post (px_inner s) (Some (report t)) c (local_run_queue s)) →
  thread_inv (expected_at (px_inner s) h) True False (with_ext None (with_state st d)) →
  wp run_panics (interrupt_with h st report s) (λ '(r, s'),
    inner_borrowed s' = inner_borrowed s ∧
    run_post (px_inner s) r (px_inner s') (local_run_queue s')).
Proof.
  intros Hcore Hd Hx Hready [u Hu] Hvb Hnq Hpost Hst. pose proof (cur_refl _ _ _ _ Hd Hx) as Hcur.
  unfold interrupt_with. apply wp_Mbind, wp_on_inner. eapply wp_set_state; [done|]. intros c1 Hc1.
  apply wp_Mbind, wp_on_inner. eapply wp_lock_thread; [done|done|]. intros c2 Hc2.
  simpl. split; [done|]. apply Hpost.
  - eapply (core_lock (Some h)); try done; [congruence|set_solver|..].
    + apply queue_change_refl. apply Hcore.
    + eapply thread_inv_proper; [done| |done|exact Hst]. naive_solver.
  - by eapply cur_lock_state.
  - eapply cur_carried; [exact Hc2|done|done|done|done|by apply ready_not_stopped|done].
Qed.

(** A call that resumes the thread at once, a process handle being made. *)
Lemma resume_handle_sound s h d x (f : ThreadId → Pid → option PxRunOneOutcome) :
  px_core_but (Some h) [] [] (px_inner s) (local_run_queue s) →
  ud (px_inner s) h = Some d → pl (px_inner s) h.1 = Some x →
  state (th_user_data d) = ReadyToRun → is_Some (lt_external_user_data (th_user_data d)) →
  value_back d = None → expected_at (px_inner s) h = None → thread_id d ∉ local_run_queue s →
  (∀ c, px_core [] [h.1] c (local_run_queue s) →
    carried (px_inner s) c → run_post (px_inner s) (f (thread_id d) h.1) c (local_run_queue s)) →
  wp run_panics ((_ ← on_inner (resume h None);
    c ← gets px_inner;
    thread_id ← liftM (tid c h);
    pid ← liftM (unwrap (process_by_id c h.1));
    _ ← on_inner (arc_clone pid);
    mret (f thread_id pid)) s) (λ '(r, s'),
    inner_borrowed s' = inner_borrowed s ∧
    run_post (px_inner s) r (px_inner s') (local_run_queue s')).
Proof.
  intros Hcore Hd Hx Hst [u Hu] Hvb Hexp Hnq Hpost. pose proof (cur_refl _ _ _ _ Hd Hx) as Hcur.
  apply wp_Mbind, wp_on_inner. eapply wp_resume; [done|done|]. intros c1 Hc1.
  do 2 apply wp_Mbind. simpl. apply wp_liftM. rewrite (cur_tid _ _ _ _ _ Hc1). simpl.
  apply wp_Mbind, wp_liftM. rewrite (cur_process _ _ _ _ _ Hc1). simpl.
  apply wp_Mbind, wp_on_inner. simpl. eapply wp_modify_proc; [exact Hc1|]. intros c2 Hc2. simpl.
  split; [done|]. apply Hpost.
  2:{ eapply cur_carried; [exact Hc2|done|done|done|done|by apply ready_not_stopped|].
      intros Hs. by apply ready_not_stopped in Hs. }
  eapply (core_ref (Some h)); try done; [congruence|..].
  - apply queue_change_refl. apply Hcore.
  - split; [simpl; rewrite Hu; set_solver|]. simpl. rewrite Hst.
    split_and!; [set_solver|done|]. exists None. by rewrite Hexp.
Qed.

Lemma other_extrinsic_sound s h e params d x :
  px_core_but (Some h) [] [] (px_inner s) (local_run_queue s) →
  ud (px_inner s) h = Some d → pl (px_inner s) h.1 = Some x →
  state (th_user_data d) = ReadyToRun →
  is_Some (lt_external_user_data (th_user_data d)) → value_back d = None →
  e ∈ supported_extrinsics → ty <$> params = sig_params (se_signature e) →
  expected_at (px_inner s) h = sig_ret_ty (se_signature e) → thread_id d ∉ local_run_queue s →
  wp run_panics (('(context, action) ← on_inner (with_extrinsics_of h.1
        (new_context (MemoryAccessImpl h.1) (thread_id d) (se_id e) params));
      _ ← on_inner (set_state h (OtherExtrinsicApplyAction context action));
      _ ← push_queue (thread_id d);
      mret None) s) (λ '(r, s'),
    inner_borrowed s' = inner_borrowed s ∧
    run_post (px_inner s) r (px_inner s') (local_run_queue s')).
Proof.
  intros Hcore Hd Hx Hready [u Hu] Hvb He Hty Hexp Hnq. pose proof (cur_refl _ _ _ _ Hd Hx) as Hcur.
  apply wp_Mbind, wp_on_inner.
  eapply (wp_with_extrinsics _ _ _ _ _ _ (λ '(ctxt, action),
    action_ok context_waits (sig_ret_ty (se_signature e)) ctxt action)); [done|..].
  - eapply wp_mono; [eapply wp_weaken; [eapply (new_context_law _ _ (λ c, cur (px_inner s) c h d x))|]|].
    + done.
    + done.
    + apply accessor_impl_ok, Hcore.
    + done.
    + by eapply pc_ext.
    + intros r Hr. unfold run_panics. auto.
    + intros [[ctxt action] [ext c']] (? & ? & ?). done.
  - intros [ctxt action] ext c1 Hc1 Hinv Hres.
    apply wp_Mbind, wp_on_inner. eapply wp_set_state; [done|]. intros c2 Hc2.
    simpl. split; [done|]. split; [eapply cur_carried; [exact Hc2|done|done|done|done|by apply ready_not_stopped|intros [[]|[]]]|].
    eapply (core_same (Some h)); try done; [congruence|..].
    + apply queue_change_push; [apply Hcore|done].
    + split; [simpl; rewrite Hu; set_solver|]. simpl.
      split_and!; [set_solver|set_solver|done|]. by rewrite Hexp.
Qed.

(** The assertions that each call starts with. *)
Ltac call_prefix Hcur Hst :=
  apply wp_Mbind, wp_liftM; rewrite (cur_user_data _ _ _ _ _ Hcur); simpl;
  apply wp_Mbind, wp_liftM; rewrite Hst; simpl.

(** The parsed arguments; a call that is refused panics. *)
Ltac parsed lem :=
  apply wp_Mbind, wp_liftM;
  eapply wp_mono; [eapply wp_weaken; [by apply lem|first [by intros ? []|apply emit_run_panics]]|];
  intros [?|m] Hm; [unfold run_panics; simpl; by auto|].

Lemma handle_interrupted_sound s h tok params d x :
  px_core_but (Some h) [] [] (px_inner s) (local_run_queue s) →
  interrupted_by (px_inner s) h tok params d x → thread_id d ∉ local_run_queue s →
  wp run_panics (handle_interrupted h tok params s) (λ '(r, s'),
    inner_borrowed s' = inner_borrowed s ∧
    run_post (px_inner s) r (px_inner s') (local_run_queue s')).
Proof.
  intros Hcore (Hd & Hx & Hst & Hvb & Hext & name & sg & Hin & Hty & Hexp) Hnq.
  pose proof (cur_refl _ _ _ _ Hd Hx) as Hcur. apply token_signature in Hin.
  pose proof (proc_read_ok _ _ _ _ _ Hcur (pc_memory _ _ _ _ _ Hcore)) as Hread.
  unfold handle_interrupted, resume_and_report. apply wp_Mbind. simpl.
  destruct tok as [| | | | |id]; try (subst sg; apply ty_i32_params in Hty; simpl in Hexp).
  - call_prefix Hcur Hst. parsed next_notification_returns.
    eapply interrupt_with_sound; try done; [|split; [done|]; simpl; naive_solver].
    intros c t Hc (h' & d' & ? & ? & Hs) Hcar. split_and!; try done. exists h', d'. by rewrite Hs.
  - call_prefix Hcur Hst. parsed emit_message_stops. destruct Hm as [_ Hhash].
    eapply interrupt_with_sound; try done; [|split; [done|]; simpl; naive_solver].
    intros c t Hc (h' & d' & ? & ? & Hs) Hcar. split_and!; try done. exists h', d'. by rewrite Hs.
  - apply wp_Mbind. simpl. call_prefix Hcur Hst. rewrite bool_decide_true by done.
    apply wp_Mbind. simpl. parsed emit_message_error_returns.
    by eapply (resume_handle_sound s h d x (λ id p, Some (Px_ThreadEmitMessageError id p m))).
  - call_prefix Hcur Hst. rewrite bool_decide_true by done.
    apply wp_Mbind. simpl. parsed emit_answer_returns.
    by eapply (resume_handle_sound s h d x
      (λ id p, Some (Px_ThreadEmitAnswer id p (ea_message_id m) (ea_response m)))).
  - apply wp_Mbind. simpl. call_prefix Hcur Hst. rewrite bool_decide_true by done.
    apply wp_Mbind. simpl. parsed cancel_message_returns.
    by eapply (resume_handle_sound s h d x (λ id p, Some (Px_ThreadCancelMessage id p m))).
  - destruct Hin as (e & He & -> & ->). call_prefix Hcur Hst.
    apply wp_Mbind, wp_liftM. rewrite (cur_tid _ _ _ _ _ Hcur).
    by eapply other_extrinsic_sound.
Qed.

Lemma view_delete c c' pid :
  processes c' = delete pid (processes c) →
  (∀ h, thread_look c' h = if decide (h.1 = pid) then None else thread_look c h) ∧
  (∀ pid', pl c' pid' = if decide (pid' = pid) then None else pl c pid').
Proof.
  intros Hc'. split; [intros h; unfold thread_look|intros pid'; unfold pl];
    rewrite Hc', lookup_delete; repeat case_decide; naive_solver.
Qed.

(** A process without locks nor handles is removed. *)
Lemma core_delete c c' q pid :
  px_core [] [] c q → coll_ok c' → same_extrinsics c c' → processes c' = delete pid (processes c) →
  px_core [] [] c' q ∧ pl c' pid = None.
Proof.
  intros [] Hc' [Hx Ha] Hps. destruct (view_delete _ _ _ Hps) as [Hlook Hpl].
  split; [|by rewrite Hpl, decide_True].
  assert (Hud : ∀ h d, ud c' h = Some d → ud c h = Some d ∧ expected_at c' h = expected_at c h).
  { intros h d. unfold ud, expected_at. rewrite Hlook. by case_decide. }
  split; try done.
  - intros pid' p. rewrite Hps. intros [? ?]%lookup_delete_Some. by eapply pc_memory0.
  - intros h1 h2 d1 d2 [? _]%Hud [? _]%Hud. by eapply pc_tids0.
  - unfold reg_ok. by rewrite Hx, Ha.
  - intros h d [Hd ->]%Hud _. by apply pc_threads0.
  - intros pid' x. rewrite Hpl. case_decide; [done|]. apply pc_strong0.
  - intros pid' x. rewrite Hpl. case_decide; [done|]. apply pc_ext0.
  - intros t []%elem_of_nil.
  - intros r []%elem_of_nil.
Qed.

Lemma unwrap_dead_threads_ok c q pid p :
  px_core [] [] c q → processes c !! pid = Some p →
  ∃ l, unwrap_dead_threads (thread_data <$> into_user_datas (state_machine p)) = Done l.
Proof.
  intros Hcore Hp. unfold into_user_datas.
  assert (Hall : Forall (λ ts, is_Some (lt_external_user_data (th_user_data (ts_user_data ts))))
    (threads (state_machine p))).
  { apply Forall_lookup. intros i t Ht.
    assert (Hd : ud c (pid, i) = Some (ts_user_data t)).
    { unfold ud, thread_look. simpl. rewrite Hp. simpl. by rewrite Ht. }
    destruct (unlocked_ext [] [] _ _ _ _ Hcore Hd) as [u ->]; [set_solver|by eexists]. }
  induction Hall as [|t l [u Hu] _ [l' IH]]; [by exists []|].
  exists ((thread_id (ts_user_data t), u) :: l'). unfold unwrap_dead_threads in *.
  rewrite !fmap_cons. cbn [map_outcome]. rewrite IH. simpl. by rewrite Hu.
Qed.

Lemma handle_run_outcome_sound s s' o q :
  px_core [] [] (px_inner s) q → coll_ok (px_inner s') → run_spec (px_inner s) o (px_inner s') →
  inner_borrowed s' = true → local_run_queue s' = q →
  wp run_panics (handle_run_outcome o s') (λ '(r, s''),
    inner_borrowed s'' = true ∧ run_post (px_inner s) r (px_inner s'') (local_run_queue s'')).
Proof.
  intros Hcore Hok Hspec Hb Hq. destruct o as [pid x dead out|id pid x v|h tok params|].
  - destruct Hspec as (_ & _ & Hsame & p & Hp & -> & -> & Hps). simpl.
    assert (strong_count (pr_user_data p) = 1%nat) as Hs.
    { apply (pc_strong _ _ _ _ _ Hcore pid). unfold pl. by rewrite Hp. }
    rewrite bool_decide_true by done.
    destruct (unwrap_dead_threads_ok _ _ _ _ Hcore Hp) as [l Hl]. apply wp_Mbind, wp_liftM.
    rewrite Hl. simpl. split; [done|]. rewrite Hq.
    destruct (view_delete _ _ _ Hps) as [Hlook Hpl].
    destruct (core_delete (px_inner s) _ q pid Hcore Hok Hsame Hps) as [? ?].
    assert (Hx : pl (px_inner s) pid = Some (pr_user_data p)) by (unfold pl; by rewrite Hp).
    split_and!; try done; [split|by eauto].
    + intros h d. unfold ud. rewrite Hlook. case_decide; [done|]. eauto.
    + intros pid' x. rewrite Hpl. case_decide; [done|]. eauto.
  - destruct Hspec as (_ & _ & _ & p & p' & i & t & Hp & Ht & Hready & Hdata & _). simpl.
    apply wp_Mbind, wp_liftM. injection Hdata as <- <-.
    assert (Hd : ud (px_inner s) (pid, S i) = Some (ts_user_data t)).
    { unfold ud, thread_look. simpl. rewrite Hp. simpl. by rewrite Ht. }
    destruct (value_back (ts_user_data t)) as [v0|] eqn:Hv; [|done].
    destruct (thread_inv_ready _ _ _ _ _ (pc_threads _ _ _ _ _ Hcore _ _ Hd ltac:(done)) Hv)
      as (-> & _ & _). simpl. apply wp_Mbind.
    unfold px_process_by_id, borrow_mut, mbind, M_bind, get. rewrite Hb.
    unfold run_panics. simpl. auto.
  - destruct (run_interrupted_core _ _ _ _ _ _ Hcore Hok Hspec) as (Hbut & Hcar & d & x & Hint & Hnq).
    subst q. simpl. rewrite <-Hb. eapply wp_mono; [by eapply handle_interrupted_sound|].
    intros [r s''] [? ?]. split; [done|]. by eapply run_post_trans.
  - destruct Hspec as (_ & _ & _ & Heq & _). simpl. split; [done|]. rewrite Hq, Heq. by split.
Qed.

Lemma run_once_sound s :
  px_ok [] [] s →
  wp run_panics (run_once s) (λ '(r, s'),
    inner_borrowed s' = false ∧ run_post (px_inner s) r (px_inner s') (local_run_queue s')).
Proof.
  intros [Hb Hcore]. unfold run_once. apply wp_borrow_mut; [done|]. apply wp_Mbind. simpl.
  apply wp_Mbind. eapply wp_mono; [by apply (drain_queue_sound (with_borrowed true s))|].
  intros [[r|] s'] [Hb' Hf]; [done|]. destruct Hf as (Hq & Hcar & Hcore').
  apply wp_Mbind, wp_on_inner. pose proof (run_sound _ (pc_coll _ _ _ _ _ Hcore')) as Hrun.
  destruct (run (px_inner s')) as [[o c']|r|]; [|unfold run_panics; simpl; auto|done].
  destruct Hrun as [Hok Hspec]. simpl.
  eapply wp_mono; [by apply (handle_run_outcome_sound s' (with_inner c' s') o [])|].
  intros [r s''] [_ Hpost]. simpl. split; [done|]. by eapply run_post_trans.
Qed.

(** C6: running the wrapped collection, no lock and no process handle being
    alive, keeps the invariant (every thread is in the state that its [state]
    field says, the queue holds exactly the threads with an action to apply,
    a thread's user data is taken out exactly while it is locked, and the
    reference count of each process counts its locks and handles), and hands
    out what it reports: a lock on a thread that emits or waits, or a handle.
    The threads that had stopped before are as they were ([carried]).
    None of the [unreachable!()], [unwrap()], [assert!] and [debug_assert!] on
    the way fails.  What can stop it is listed by [run_panics]; in particular
    it never reports that a thread other than the main one has finished. *)
Theorem run_once_ok s :
  px_ok [] [] s →
  wp run_panics (run_once s) (λ '(r, s'),
    inner_borrowed s' = false ∧ run_post (px_inner s) r (px_inner s') (local_run_queue s')).
Proof. apply run_once_sound. Qed.

End invariant.
