(* ===== verification/ExtrinsicsLocks.v ===== *)
(** Locks on interrupted threads.

    What each operation of a lock does to the thread and to the invariant of
    [ExtrinsicsInv]: accepting or refusing a message, delivering a
    notification, and taking and dropping locks and process handles. *)
From S2P Require Import Prelude IdPool WasmValue Ffi Calls Vm ExtrinsicsApi Processes.
From S2P Require Import ProcessesFrame Extrinsics ExtrinsicsInv.

Section locks.
Context `{Rng} `{Wasmi} `{!HashIter Z} `{Extrinsics}.
Context `{!WasmiLaws} `{!WasmiMemoryLaws} `{!ExtrinsicsLaws} {TPud TTud : Type}.

Local Abbreviation PCE := (ProcessesCollectionExtrinsics (TPud := TPud) (TTud := TTud)).
Local Abbreviation lock := (ThreadLock (TTud := TTud)).
Local Abbreviation LPUD := (LocalProcessUserData (TPud := TPud)).
Local Abbreviation LTUD := (LocalThreadUserData (TTud := TTud)).
Local Abbreviation coll := (ProcessesCollection Extrinsic LPUD LTUD).
Implicit Types (c : coll) (s : PCE) (t : lock) (L : list lock) (R : list Pid)
  (q : list ThreadId) (d : Thread LTUD) (x : LPUD) (h : Pid * nat).

Local Abbreviation interrupted_thread := (InterruptedThread (TTud := TTud)).
Local Abbreviation px_core := (px_core_but None).

(** * Operations on a locked thread *)

(** The thread of a lock, found by its identifier. *)
Lemma lock_cursor t L R c q :
  px_core (t :: L) R c q →
  ∃ h d x, ud c h = Some d ∧ thread_id d = tl_tid t ∧ h.1 = tl_pid t ∧
    thread_by_id c (tl_tid t) = Some h ∧ lt_external_user_data (th_user_data d) = None ∧
    cur c c h d x ∧ strong_count x = S (S (held L R h.1)).
Proof.
  intros Hcore. destruct (pc_locks _ _ _ _ _ Hcore t) as (h & d & Hd & Hid & Hpid); [by left|].
  destruct (ud_pl _ _ _ Hd) as [x Hx]. exists h, d, x. split_and!; try done.
  - rewrite <-Hid. apply thread_by_id_ud; [apply Hcore|done].
  - apply (pc_threads _ _ _ _ _ Hcore _ _ Hd); [done|]. rewrite Hid. by left.
  - by apply cur_refl.
  - rewrite (pc_strong _ _ _ _ _ Hcore h.1 x Hx), held_cons, decide_True by done. done.
Qed.

(** [c'] is [c] but for the thread of lock [t], whose data went from [d] to
    [d']. *)
Definition lock_change c t d d' c' : Prop :=
  frame c c' ∧ ∃ h, ud c h = Some d ∧ thread_id d = tl_tid t ∧ thread_id d' = tl_tid t ∧
    (∀ h', ud c' h' = if decide (h' = h) then Some d' else ud c h') ∧
    (∀ pid, lp_external_user_data <$> pl c' pid = lp_external_user_data <$> pl c pid).

(** The thread changes and is unlocked. *)
Lemma core_unlock t L R c0 q c h d0 d x0 x q' :
  px_core (t :: L) R c0 q → ud c0 h = Some d0 → pl c0 h.1 = Some x0 → cur c0 c h d x →
  h.1 = tl_pid t → thread_id d0 = tl_tid t → thread_id d = thread_id d0 →
  S (strong_count x) = strong_count x0 → (ext_inv (lp_extrinsics x0) → ext_inv (lp_extrinsics x)) →
  queue_change (thread_id d0) q q' →
  thread_inv (expected_at c0 h) False (thread_id d0 ∈ q') d →
  px_core L R c q'.
Proof.
  intros Hcore Hd0 Hx0 Hcur Hpid Htid Hid Hstrong Hext [Hnd Hq] Hinv.
  pose proof (pc_lock_nodup _ _ _ _ _ Hcore) as Hnl. rewrite fmap_cons in Hnl.
  apply NoDup_cons in Hnl as [Hnot Hnl].
  eapply (cur_core None (t :: L) R c0 q); try done.
  - eapply thread_inv_proper; [| |done|exact Hinv]; [|done]. rewrite Htid. naive_solver.
  - intros id Hne. rewrite Hq by done. rewrite fmap_cons, elem_of_cons. split; [|done].
    naive_solver congruence.
  - pose proof (pc_strong _ _ _ _ _ Hcore h.1 x0 Hx0) as Hs.
    rewrite held_cons, decide_True in Hs by done. lia.
  - by eapply Hext, pc_ext.
  - intros pid Hne. rewrite held_cons, decide_False; congruence.
  - intros t' Ht'. left. by right.
  - intros pid Hin. by left.
Qed.

(** The end of an operation that consumes a lock. *)
Lemma drop_thread_sound P t L R c0 q h d0 d x0 x s (Q : unit * PCE → Prop) :
  px_core (t :: L) R c0 q → ud c0 h = Some d0 → pl c0 h.1 = Some x0 →
  cur c0 (px_inner s) h d x → h.1 = tl_pid t → thread_id d0 = tl_tid t →
  thread_id d = thread_id d0 → lt_external_user_data (th_user_data d) = None →
  strong_count x = strong_count x0 → (ext_inv (lp_extrinsics x0) → ext_inv (lp_extrinsics x)) →
  lp_external_user_data x = lp_external_user_data x0 →
  inner_borrowed s = false → queue_change (thread_id d0) q (local_run_queue s) →
  thread_inv (expected_at c0 h) False (thread_id d0 ∈ local_run_queue s)
    (with_ext (Some (tl_user_data t)) d) →
  (∀ s', px_ok L R s' → lock_change c0 t d0 (with_ext (Some (tl_user_data t)) d) (px_inner s') →
     local_run_queue s' = local_run_queue s → Q (tt, s')) →
  wp P (drop_thread t s) Q.
Proof.
  intros Hcore Hd0 Hx0 Hcur Hpid Htid Hid Hext Hstrong Hei Hexternal Hb Hq Hinv HQ.
  unfold drop_thread. apply wp_Mbind, wp_borrow_mut; [done|]. apply wp_on_inner. simpl.
  apply wp_Mbind. unfold thread_by_id_unwrap. apply wp_Mbind. simpl. apply wp_liftM.
  rewrite <-Htid, <-Hid, (thread_by_id_ud _ h d); [|by eapply cur_tids_inj; eauto using pc_tids|by eapply cur_ud].
  simpl. do 2 apply wp_Mbind. simpl. apply wp_liftM. rewrite (cur_user_data _ _ _ _ _ Hcur). simpl.
  apply wp_Mbind, wp_liftM. rewrite bool_decide_true by done. simpl.
  eapply wp_set_user_data; [done|]. intros c1 Hc1. apply wp_on_inner. simpl. rewrite <-Hpid.
  eapply wp_modify_proc; [exact Hc1|]. intros c2 Hc2. apply HQ; [|split|done].
  - split; [done|]. eapply (core_unlock t); try done. simpl. rewrite Hstrong.
    rewrite (pc_strong _ _ _ _ _ Hcore h.1 x0 Hx0). done.
  - apply Hc2.
  - exists h. split_and!; try done; [simpl; congruence|apply Hc2|].
    intros pid. destruct Hc2 as (_ & _ & _ & Hpl). rewrite Hpl. case_decide; [|done].
    subst pid. rewrite Hx0. simpl. by rewrite Hexternal.
Qed.

(** ** Emitting *)

(** Whether the emitting thread wants an answer, the interface it emits on,
    the message, and whether it accepts to wait. *)
Definition st_needs_answer (st : LocalThreadState) : bool :=
  match st with
  | St_EmitMessage emit => bool_decide (is_Some (message_id_write emit))
  | OtherExtrinsicEmit _ _ _ re => re
  | _ => false
  end.
Definition st_message (st : LocalThreadState) : EncodedMessage :=
  match st with
  | St_EmitMessage emit => em_message emit
  | OtherExtrinsicEmit _ _ m _ => m
  | _ => []
  end.

(** The state of an emitting thread after its message was accepted under
    identifier [mid]. *)
Definition accepted (mid : option MessageId) d d' q q' : Prop :=
  match state (th_user_data d) with
  | St_EmitMessage _ =>
      state (th_user_data d') = ReadyToRun ∧ value_back d' = Some (Some (I32 0)) ∧ q' = q
  | OtherExtrinsicEmit ctxt _ _ true =>
      ∃ id, mid = Some id ∧ state (th_user_data d') = OtherExtrinsicWait ctxt id ∧
        value_back d' = None ∧ q' = q
  | OtherExtrinsicEmit _ _ _ false =>
      (∃ ctxt' action, state (th_user_data d') = OtherExtrinsicApplyAction ctxt' action) ∧
      value_back d' = None ∧ q' = q ++ [thread_id d]
  | _ => False
  end.

(** Accepting may stop on an address where the identifier cannot be written. *)
Definition accept_panics (r : panic_reason) : Prop := r = PUnwrap ∨ ext_panics r.

(** The injection of a response, up to the state it leaves the thread in. *)
Lemma inject_rule c0 c h d x ctxt e resp (P : panic_reason → Prop) Q :
  cur c0 c h d x → has_memory c0 → (∀ r, ext_panics r → P r) →
  ext_inv (lp_extrinsics x) → context_waits ctxt e (bool_decide (is_Some resp)) →
  (∀ ctxt' action ext c', cur c0 c' h d (with_extrinsics ext x) → ext_inv ext →
     action_ok context_waits e ctxt' action → Q ((ctxt', action), c')) →
  wp P (with_extrinsics_of h.1 (inject_message_response (MemoryAccessImpl h.1) ctxt resp) c) Q.
Proof.
  intros Hc Hm HP Hinv Hw HQ.
  eapply (wp_with_extrinsics _ _ _ _ _ _ (λ '(ctxt', action),
    action_ok context_waits e ctxt' action)); [done|..].
  - eapply wp_mono; [eapply wp_weaken; [by apply (inject_law _ _ (λ c, cur c0 c h d x) _ e);
      [apply accessor_impl_ok|..]|exact HP]|].
    by intros [[ctxt' action] [ext c']] (? & ? & ?).
  - intros [ctxt' action] ext c' Hc' ? ?. by eapply HQ.
Qed.

(** What is known of the thread [h] of lock [t]. *)
Definition locked_at t L R s h d x : Prop :=
  px_core (t :: L) R (px_inner s) (local_run_queue s) ∧ inner_borrowed s = false ∧
  ud (px_inner s) h = Some d ∧ pl (px_inner s) h.1 = Some x ∧ h.1 = tl_pid t ∧
  thread_id d = tl_tid t ∧ lt_external_user_data (th_user_data d) = None ∧
  thread_inv (expected_at (px_inner s) h) True (thread_id d ∈ local_run_queue s) d.

Lemma locked_at_cur t L R s h d x : locked_at t L R s h d x → cur (px_inner s) (px_inner s) h d x.
Proof. intros (_ & _ & ? & ? & _). by apply cur_refl. Qed.

Lemma lock_locked_at t L R s :
  px_ok (t :: L) R s → ∃ h d x, locked_at t L R s h d x ∧ thread_by_id (px_inner s) (tl_tid t) = Some h.
Proof.
  intros [Hb Hcore].
  destruct (lock_cursor _ _ _ _ _ Hcore) as (h & d & x & Hd & Hid & Hpid & Hby & Hext & Hcur & Hs).
  exists h, d, x. split; [|done]. split_and!; try done; [by eapply cur_pl|].
  eapply thread_inv_proper; [| |done|apply (pc_threads _ _ _ _ _ Hcore _ _ Hd); done]; [|done].
  split; [|done]. intros _. rewrite Hid. by left.
Qed.

Lemma lock_state_at t L R s h d x S :
  locked_at t L R s h d x → lock_state (px_inner s) t S → S (state (th_user_data d)).
Proof.
  intros (Hcore & _ & Hd & _ & _ & Hid & _) (h' & d' & Hd' & Hid' & HS).
  assert (h' = h) as -> by (eapply (pc_tids _ _ _ _ _ Hcore); [done|done|congruence]).
  by simplify_eq.
Qed.

(** An operation that takes the state out of the thread of lock [t]. *)
Lemma wp_take_state {A} P t L R s (body : Pid * nat → LocalThreadState → M PCE A)
    (Q : A * PCE → Prop) :
  px_ok (t :: L) R s →
  (∀ h d x c, locked_at t L R s h d x → cur (px_inner s) c h (with_state Poisoned d) x →
     wp P (body h (state (th_user_data d)) (with_inner c (with_borrowed true s)))
       (λ '(a, s'), Q (a, with_borrowed false s'))) →
  wp P (borrow_mut (h ← on_inner (thread_by_id_unwrap (tl_tid t));
          st ← on_inner (replace_state h Poisoned);
          body h st) s) Q.
Proof.
  intros Hok Hbody. destruct (lock_locked_at _ _ _ _ Hok) as (h & d & x & Hl & Hby).
  apply wp_borrow_mut; [apply Hok|].
  apply wp_Mbind, wp_on_inner. simpl. unfold thread_by_id_unwrap. apply wp_Mbind. simpl.
  rewrite Hby. simpl. apply wp_Mbind, wp_on_inner. cbn [px_inner with_inner].
  eapply wp_replace_state; [exact (locked_at_cur _ _ _ _ _ _ _ Hl)|]. intros c1 Hc1.
  exact (Hbody h d x c1 Hl Hc1).
Qed.

(** An operation that looks at the data of the thread of lock [t]. *)
Lemma wp_look {A} P t L R s (body : Pid * nat → LTUD → M PCE A) (Q : A * PCE → Prop) :
  px_ok (t :: L) R s →
  (∀ h d x, locked_at t L R s h d x →
     wp P (body h (th_user_data d) (with_inner (px_inner s) (with_borrowed true s)))
       (λ '(a, s'), Q (a, with_borrowed false s'))) →
  wp P (borrow_mut (h ← on_inner (thread_by_id_unwrap (tl_tid t));
          c ← gets px_inner;
          d ← liftM (user_data c h);
          body h d) s) Q.
Proof.
  intros Hok Hbody. destruct (lock_locked_at _ _ _ _ Hok) as (h & d & x & Hl & Hby).
  apply wp_borrow_mut; [apply Hok|].
  apply wp_Mbind, wp_on_inner. simpl. unfold thread_by_id_unwrap. apply wp_Mbind. simpl.
  rewrite Hby. simpl. do 2 apply wp_Mbind. simpl. apply wp_liftM.
  rewrite (cur_user_data _ _ _ _ _ (locked_at_cur _ _ _ _ _ _ _ Hl)). exact (Hbody h d x Hl).
Qed.

(** The lock is dropped once the thread is in a state that the invariant
    allows for an unlocked thread. *)
Lemma wp_drop_locked P t L R s h d d' x x' s' (Q : unit * PCE → Prop) :
  locked_at t L R s h d x → cur (px_inner s) (px_inner s') h d' x' →
  thread_id d' = thread_id d → lt_external_user_data (th_user_data d') = None →
  strong_count x' = strong_count x → (ext_inv (lp_extrinsics x) → ext_inv (lp_extrinsics x')) →
  lp_external_user_data x' = lp_external_user_data x →
  inner_borrowed s' = false → queue_change (thread_id d) (local_run_queue s) (local_run_queue s') →
  thread_inv (expected_at (px_inner s) h) False (thread_id d ∈ local_run_queue s')
    (with_ext (Some (tl_user_data t)) d') →
  (∀ s'', px_ok L R s'' →
     lock_change (px_inner s) t d (with_ext (Some (tl_user_data t)) d') (px_inner s'') →
     local_run_queue s'' = local_run_queue s' → Q (tt, s'')) →
  wp P (drop_thread t s') Q.
Proof.
  intros (Hcore & Hb & Hd & Hx & Hpid & Hid & Hext & _) Hcur ?????????.
  by eapply (drop_thread_sound P t L R (px_inner s) (local_run_queue s) h d d').
Qed.

Lemma locked_queue t L R s h d x :
  locked_at t L R s h d x → queue_change (thread_id d) (local_run_queue s) (local_run_queue s).
Proof. intros (Hcore & _). apply queue_change_refl, Hcore. Qed.

(** The thread goes back to running, with a value of the type it waits for. *)
Lemma resume_locked P t L R s h d d' x c v (Q : unit * PCE → Prop) :
  locked_at t L R s h d x → cur (px_inner s) c h d' x → thread_id d' = thread_id d →
  lt_external_user_data (th_user_data d') = None → value_back d' = None →
  thread_id d ∉ local_run_queue s → ty <$> v = expected_at (px_inner s) h →
  (∀ s' d'', px_ok L R s' → lock_change (px_inner s) t d d'' (px_inner s') →
     local_run_queue s' = local_run_queue s → state (th_user_data d'') = ReadyToRun →
     value_back d'' = Some v → Q (tt, s')) →
  wp P ((_ ← on_inner (set_state h ReadyToRun); on_inner (resume h v))
          (with_inner c (with_borrowed true s)))
    (λ '(_, s'), wp P (drop_thread t (with_borrowed false s')) Q).
Proof.
  intros Hl Hcur Hid Hext Hvb Hnq Hty HQ. apply wp_Mbind, wp_on_inner. simpl.
  eapply wp_set_state; [done|]. intros c1 Hc1. apply wp_on_inner. simpl.
  eapply wp_resume; [done|done|]. intros c2 Hc2.
  eapply (wp_drop_locked _ t L R s); try done.
  - exact (locked_queue _ _ _ _ _ _ _ Hl).
  - split; [done|]. simpl. split_and!; [tauto|done|]. eauto.
  - intros s'' Hs'' Hch Hq. by eapply HQ.
Qed.

(** The thread waits for its action to be applied. *)
Lemma apply_locked P t L R s h d d' x x' c ctxt action (Q : unit * PCE → Prop) :
  locked_at t L R s h d x → cur (px_inner s) c h d' x' → strong_count x' = strong_count x →
  (ext_inv (lp_extrinsics x) → ext_inv (lp_extrinsics x')) →
  lp_external_user_data x' = lp_external_user_data x →
  thread_id d' = thread_id d → lt_external_user_data (th_user_data d') = None →
  value_back d' = None → thread_id d ∉ local_run_queue s →
  action_ok context_waits (expected_at (px_inner s) h) ctxt action →
  (∀ s' d'', px_ok L R s' → lock_change (px_inner s) t d d'' (px_inner s') →
     local_run_queue s' = local_run_queue s ++ [thread_id d] →
     state (th_user_data d'') = OtherExtrinsicApplyAction ctxt action →
     value_back d'' = None → Q (tt, s')) →
  wp P ((_ ← on_inner (set_state h (OtherExtrinsicApplyAction ctxt action));
         c ← gets px_inner; id ← liftM (tid c h); push_queue id)
          (with_inner c (with_borrowed true s)))
    (λ '(_, s'), wp P (drop_thread t (with_borrowed false s')) Q).
Proof.
  intros Hl Hcur Hs Hei Hex Hid Hext Hvb Hnq Hres HQ. apply wp_Mbind, wp_on_inner. simpl.
  eapply wp_set_state; [done|]. intros c1 Hc1. do 2 apply wp_Mbind. simpl. apply wp_liftM.
  rewrite (cur_tid _ _ _ _ _ Hc1). simpl. rewrite Hid.
  eapply (wp_drop_locked _ t L R s); try done.
  - apply queue_change_push; [apply Hl|done].
  - split; [done|]. simpl. split_and!; [tauto|set_solver|done|done].
  - intros s'' Hs'' Hch Hq. by eapply HQ.
Qed.

(** What accepting the message of the thread of lock [t] does. *)
Definition accept_post t L R s (mid : option MessageId) : EncodedMessage * PCE → Prop :=
  λ '(msg, s'), px_ok L R s' ∧ ∃ d d', lock_change (px_inner s) t d d' (px_inner s') ∧
    msg = st_message (state (th_user_data d)) ∧
    accepted mid d d' (local_run_queue s) (local_run_queue s').

Lemma accept_hardcoded t L R s mid h d x c emit :
  locked_at t L R s h d x → cur (px_inner s) c h (with_state Poisoned d) x →
  state (th_user_data d) = St_EmitMessage emit →
  wp accept_panics ((_ ← on_inner (set_state h ReadyToRun);
        _ ← on_inner (resume h (Some (I32 0)));
        mret (em_message emit)) (with_inner c (with_borrowed true s)))
    (λ '(msg, s'), wp accept_panics ((_ ← drop_thread t; mret msg) (with_borrowed false s'))
      (accept_post t L R s mid)).
Proof.
  intros Hl Hcur Hst. pose proof Hl as (_ & _ & _ & _ & _ & _ & Hext & [_ Hinv]).
  rewrite Hst in Hinv. destruct Hinv as (Hnq & Hvb & He & _).
  apply wp_Mbind, wp_on_inner. simpl. eapply wp_set_state; [done|]. intros c1 Hc1.
  apply wp_Mbind, wp_on_inner. simpl. eapply wp_resume; [done|done|]. intros c2 Hc2. simpl.
  apply wp_Mbind. eapply (wp_drop_locked _ t L R s); try done.
  - exact (locked_queue _ _ _ _ _ _ _ Hl).
  - split; [done|]. simpl. split_and!; [tauto|done|]. eauto.
  - intros s'' Hs'' Hch Hq. simpl. split; [done|]. eexists d, _. split; [exact Hch|].
    unfold accepted. rewrite Hst. done.
Qed.

Lemma accept_wait t L R s mid h d x c ctxt i m :
  locked_at t L R s h d x → cur (px_inner s) c h (with_state Poisoned d) x →
  state (th_user_data d) = OtherExtrinsicEmit ctxt i m true →
  wp accept_panics ((_ ← on_inner (set_state h (OtherExtrinsicWait ctxt mid)); mret m)
      (with_inner c (with_borrowed true s)))
    (λ '(msg, s'), wp accept_panics ((_ ← drop_thread t; mret msg) (with_borrowed false s'))
      (accept_post t L R s (Some mid))).
Proof.
  intros Hl Hcur Hst. pose proof Hl as (_ & _ & _ & _ & _ & _ & Hext & [_ Hinv]).
  rewrite Hst in Hinv. destruct Hinv as (Hnq & Hvb & He & _).
  apply wp_Mbind, wp_on_inner. simpl. eapply wp_set_state; [done|]. intros c1 Hc1. simpl.
  apply wp_Mbind. eapply (wp_drop_locked _ t L R s); try done.
  - exact (locked_queue _ _ _ _ _ _ _ Hl).
  - intros s'' Hs'' Hch Hq. simpl. split; [done|]. eexists d, _. split; [exact Hch|].
    unfold accepted. rewrite Hst. split; [done|]. exists mid. done.
Qed.

Lemma accept_no_answer t L R s h d x c ctxt i m :
  locked_at t L R s h d x → cur (px_inner s) c h (with_state Poisoned d) x →
  state (th_user_data d) = OtherExtrinsicEmit ctxt i m false →
  wp accept_panics (('(context, action) ← on_inner (with_extrinsics_of h.1
            (inject_message_response (MemoryAccessImpl h.1) ctxt None));
          _ ← on_inner (set_state h (OtherExtrinsicApplyAction context action));
          c ← gets px_inner; id ← liftM (tid c h); _ ← push_queue id; mret m)
      (with_inner c (with_borrowed true s)))
    (λ '(msg, s'), wp accept_panics ((_ ← drop_thread t; mret msg) (with_borrowed false s'))
      (accept_post t L R s None)).
Proof.
  intros Hl Hcur Hst. pose proof Hl as (Hcore & _ & _ & Hx & _ & _ & Hext & [_ Hinv]).
  rewrite Hst in Hinv. destruct Hinv as (Hnq & Hvb & Hwaits & _).
  apply wp_Mbind, wp_on_inner. simpl.
  eapply inject_rule; [done|apply Hcore|by right|by eapply pc_ext|done|].
  intros ctxt' action e c2 Hc2 Hei Hres.
  apply wp_Mbind, wp_on_inner. simpl. eapply wp_set_state; [done|]. intros c3 Hc3.
  do 2 apply wp_Mbind. simpl. apply wp_liftM. simpl. rewrite (cur_tid _ _ _ _ _ Hc3). simpl.
  apply wp_Mbind. eapply (wp_drop_locked _ t L R s); try done.
  - apply queue_change_push; [apply Hcore|done].
  - split; [done|]. simpl. split_and!; [tauto|set_solver|done|done].
  - intros s'' Hs'' Hch Hq. simpl in *. split; [done|]. eexists d, _. split; [exact Hch|].
    unfold accepted. rewrite Hst. split; [done|]. eauto.
Qed.

Lemma accept_emit_sound t L R s mid :
  px_ok (t :: L) R s → lock_state (px_inner s) t (λ st, is_emitting st ∧
    st_needs_answer st = bool_decide (is_Some mid)) →
  wp accept_panics (accept_emit t mid s) (accept_post t L R s mid).
Proof.
  intros Hok Hls. unfold accept_emit. apply wp_Mbind, (wp_take_state _ t L R); [done|].
  intros h d x c Hl Hcur. destruct (lock_state_at _ _ _ _ _ _ _ _ Hl Hls) as [Hemit Hneeds].
  pose proof Hl as (Hcore & _).
  destruct (state (th_user_data d)) as [| |ctxt i m re| | |emit|] eqn:Hst; try done; simpl in Hneeds.
  - destruct re, mid as [mid|]; try done; simpl.
    + by eapply accept_wait.
    + apply wp_Mbind. simpl. by eapply accept_no_answer.
  - apply wp_Mbind. destruct (message_id_write emit) as [ptr|], mid as [mid|]; try done.
    + apply wp_on_inner. simpl. eapply write_or_panic_rule; [done|apply Hcore|by left|].
      intros c' Hc'. by eapply accept_hardcoded.
    + simpl. by eapply accept_hardcoded.
Qed.

(** C10: accepting the message of an emitting thread, with an identifier
    exactly when the thread wants an answer, returns the message, unlocks the
    thread and keeps the invariant: a thread that called [emit_message] goes
    back to running with the result 0, and one inside an extrinsic either
    waits for that identifier or has its next action queued.  The kernel
    stops only if the address given for the identifier is not writable, or
    inside the extrinsic. *)
Theorem accept_emit_ok t L R s mid :
  px_ok (t :: L) R s → lock_state (px_inner s) t (λ st, is_emitting st ∧
    st_needs_answer st = bool_decide (is_Some mid)) →
  wp accept_panics (accept_emit t mid s) (accept_post t L R s mid).
Proof. apply accept_emit_sound. Qed.

(** The state of an emitting thread after its message was refused. *)
Definition refused d d' q q' : Prop :=
  match state (th_user_data d) with
  | St_EmitMessage _ =>
      state (th_user_data d') = ReadyToRun ∧ value_back d' = Some (Some (I32 1)) ∧ q' = q
  | OtherExtrinsicEmit ctxt _ _ _ =>
      state (th_user_data d') = OtherExtrinsicApplyAction ctxt Action_ProgramCrash ∧
      value_back d' = None ∧ q' = q ++ [thread_id d]
  | _ => False
  end.

Lemma refuse_emit_sound t L R s :
  px_ok (t :: L) R s → lock_state (px_inner s) t is_emitting →
  wp no_panic (refuse_emit t s) (λ '(_, s'), px_ok L R s' ∧
    ∃ d d', lock_change (px_inner s) t d d' (px_inner s') ∧
      refused d d' (local_run_queue s) (local_run_queue s')).
Proof.
  intros Hok Hls. unfold refuse_emit. apply wp_Mbind, (wp_take_state _ t L R); [done|].
  intros h d x c Hl Hcur. pose proof (lock_state_at _ _ _ _ _ _ _ _ Hl Hls) as Hemit.
  pose proof Hl as (Hcore & _ & _ & _ & _ & _ & Hext & [_ Hinv]).
  destruct (state (th_user_data d)) as [| |ctxt i m re| | |emit|] eqn:Hst; try done;
    destruct Hinv as (Hnq & Hvb & He & _).
  - eapply (apply_locked _ t L R s h d); try done.
    intros s' d'' ? ? ? ? ?. simpl. split; [done|]. exists d, d''. split; [done|].
    unfold refused. by rewrite Hst.
  - eapply (resume_locked _ t L R s h d); try done.
    intros s' d'' ? ? ? ? ?. simpl. split; [done|]. exists d, d''. split; [done|].
    unfold refused. by rewrite Hst.
Qed.

(** ** Delivering a notification *)

(** The identifiers that the waiting thread accepts, and the largest
    notification it has room for. *)
Definition st_ids (st : LocalThreadState) : list MessageId :=
  match st with
  | St_NotificationWait wait => notifs_ids wait
  | OtherExtrinsicWait _ message => [message]
  | _ => []
  end.
Definition st_fits (st : LocalThreadState) (size : Z) : Prop :=
  match st with
  | St_NotificationWait wait => size ≤ out_size wait
  | _ => True
  end.
Definition st_blocks (st : LocalThreadState) : bool :=
  match st with St_NotificationWait wait => block wait | _ => true end.

(** The state of a waiting thread after [notif] was delivered to it. *)
Definition notified (notif : EncodedMessage) d d' q q' : Prop :=
  match state (th_user_data d) with
  | St_NotificationWait _ =>
      state (th_user_data d') = ReadyToRun ∧
      value_back d' = Some (Some (I32 (Z.of_nat (length notif)))) ∧ q' = q
  | OtherExtrinsicWait _ _ =>
      (∃ ctxt' action, state (th_user_data d') = OtherExtrinsicApplyAction ctxt' action) ∧
      value_back d' = None ∧ q' = q ++ [thread_id d]
  | _ => False
  end.

(** Delivering may stop on a buffer that is out of the memory of the process,
    on a list of identifiers at the end of the address space, on a size that
    is not an [i32], on an error that answers an extrinsic, or inside it. *)
Definition notif_panics (r : panic_reason) : Prop :=
  r = PExplicit ∨ r = POverflow ∨ r = PUnwrap ∨ ext_panics r.

Lemma wp_unwrap (P : panic_reason → Prop) {A} (o : option A) (Q : A → Prop) :
  P PUnwrap → (∀ a, o = Some a → Q a) → wp P (unwrap o) Q.
Proof. intros HP HQ. destruct o; simpl; auto. Qed.

Lemma wp_checked (P : panic_reason → Prop) max z (Q : Z → Prop) :
  P POverflow → (0 ≤ z ≤ max → Q z) → wp P (uint_checked max z) Q.
Proof.
  intros HP HQ. unfold uint_checked, uint_try_from. case_bool_decide; simpl; auto.
Qed.

(** [resume_notification] on a thread that called [next_notification]. *)
Lemma notify_hardcoded t L R s h d x c wait index notif :
  locked_at t L R s h d x → cur (px_inner s) c h (with_state Poisoned d) x →
  state (th_user_data d) = St_NotificationWait wait →
  (index < length (notifs_ids wait))%nat → Z.of_nat (length notif) ≤ out_size wait →
  wp notif_panics ((_ ← liftM (assert_ (bool_decide (index < length (notifs_ids wait))%nat));
        notif_size_u32 ← liftM (unwrap (u32_try_from (Z.of_nat (length notif))));
        _ ← liftM (assert_ (bool_decide (notif_size_u32 ≤ out_size wait)));
        _ ← on_inner (write_or_panic PExplicit h.1 (out_pointer wait) notif);
        index_u32 ← liftM (unwrap (u32_try_from (Z.of_nat index)));
        off ← liftM (index_u32 *u32 8)%rust;
        addr ← liftM (notifs_ids_ptr wait +u32 off)%rust;
        _ ← on_inner (write_or_panic PExplicit h.1 addr (replicate 8 Init.Byte.x00));
        _ ← on_inner (set_state h ReadyToRun);
        size ← liftM (unwrap (i32_try_from notif_size_u32));
        on_inner (resume h (Some (I32 size)))) (with_inner c (with_borrowed true s)))
    (λ '(_, s'), wp notif_panics (drop_thread t (with_borrowed false s'))
      (λ '(_, s'), px_ok L R s' ∧ ∃ d d', lock_change (px_inner s) t d d' (px_inner s') ∧
        notified notif d d' (local_run_queue s) (local_run_queue s'))).
Proof.
  intros Hl Hcur Hst Hidx Hsize. pose proof Hl as (Hcore & _ & _ & _ & _ & _ & Hext & [_ Hinv]).
  rewrite Hst in Hinv. destruct Hinv as (Hnq & Hvb & He). unfold notif_panics.
  apply wp_Mbind. rewrite bool_decide_true by done. simpl.
  apply wp_Mbind, wp_liftM, wp_unwrap; [by auto|]. intros z [-> Hz]%uint_try_from_Some.
  apply wp_Mbind. rewrite bool_decide_true by done. simpl.
  apply wp_Mbind, wp_on_inner. simpl.
  eapply write_or_panic_rule; [done|apply Hcore|by auto|]. intros c1 Hc1.
  apply wp_Mbind, wp_liftM, wp_unwrap; [by auto|]. intros z [-> _]%uint_try_from_Some.
  apply wp_Mbind, wp_liftM, wp_checked; [by auto|]. intros _.
  apply wp_Mbind, wp_liftM, wp_checked; [by auto|]. intros _.
  apply wp_Mbind, wp_on_inner. simpl.
  eapply write_or_panic_rule; [done|apply Hcore|by auto|]. intros c2 Hc2.
  apply wp_Mbind, wp_on_inner. simpl. eapply wp_set_state; [done|]. intros c3 Hc3.
  apply wp_Mbind, wp_liftM, wp_unwrap; [by auto|]. intros z [-> _]%i32_try_from_Some.
  apply wp_on_inner. simpl. eapply wp_resume; [done|done|]. intros c4 Hc4.
  eapply (wp_drop_locked _ t L R s); try done.
  - exact (locked_queue _ _ _ _ _ _ _ Hl).
  - split; [done|]. simpl. split_and!; [tauto|done|]. eauto.
  - intros s'' Hs'' Hch Hq. simpl. split; [done|]. eexists d, _. split; [exact Hch|].
    unfold notified. by rewrite Hst.
Qed.

Lemma decoded_answer_stops notif : wp notif_panics (decoded_answer notif) (λ _, True).
Proof.
  unfold decoded_answer. destruct (decode_returns notif) as [r ->]. unfold notif_panics. simpl.
  destruct r as [|[|n|]]; simpl; auto. destruct (dr_actual_data n); simpl; auto.
Qed.

(** [resume_notification] on a thread inside an extrinsic. *)
Lemma notify_extrinsic t L R s h d x c ctxt mid notif :
  locked_at t L R s h d x → cur (px_inner s) c h (with_state Poisoned d) x →
  state (th_user_data d) = OtherExtrinsicWait ctxt mid →
  wp notif_panics ((message ← liftM (decoded_answer notif);
        _ ← liftM (assert_ (bool_decide (0%nat = 0%nat)));
        '(context, action) ← on_inner (with_extrinsics_of h.1
          (inject_message_response (MemoryAccessImpl h.1) ctxt (Some message)));
        _ ← on_inner (set_state h (OtherExtrinsicApplyAction context action));
        c ← gets px_inner;
        id ← liftM (tid c h);
        push_queue id) (with_inner c (with_borrowed true s)))
    (λ '(_, s'), wp notif_panics (drop_thread t (with_borrowed false s'))
      (λ '(_, s'), px_ok L R s' ∧ ∃ d d', lock_change (px_inner s) t d d' (px_inner s') ∧
        notified notif d d' (local_run_queue s) (local_run_queue s'))).
Proof.
  intros Hl Hcur Hst. pose proof Hl as (Hcore & _ & _ & Hx & _ & _ & Hext & [_ Hinv]).
  rewrite Hst in Hinv. destruct Hinv as (Hnq & Hvb & Hwaits).
  apply wp_Mbind, wp_liftM. eapply wp_mono; [apply decoded_answer_stops|]. intros message _.
  apply wp_Mbind. simpl. apply wp_Mbind, wp_on_inner. simpl.
  eapply inject_rule; [done|apply Hcore|unfold notif_panics; by auto|by eapply pc_ext|done|].
  intros ctxt' action e c2 Hc2 Hei Hres.
  eapply (apply_locked _ t L R s h d); try done.
  intros s' d'' ? ? ? Hs' ?. simpl. split; [done|]. exists d, d''. split; [done|].
  unfold notified. rewrite Hst. eauto.
Qed.

Lemma resume_notification_sound t L R s index notif :
  px_ok (t :: L) R s →
  lock_state (px_inner s) t (λ st, is_waiting st ∧ (index < length (st_ids st))%nat ∧
    st_fits st (Z.of_nat (length notif))) →
  wp notif_panics (resume_notification t index notif s) (λ '(_, s'), px_ok L R s' ∧
    ∃ d d', lock_change (px_inner s) t d d' (px_inner s') ∧
      notified notif d d' (local_run_queue s) (local_run_queue s')).
Proof.
  intros Hok Hls. unfold resume_notification. apply wp_Mbind, (wp_take_state _ t L R); [done|].
  intros h d x c Hl Hcur. destruct (lock_state_at _ _ _ _ _ _ _ _ Hl Hls) as (Hw & Hidx & Hfits).
  destruct (state (th_user_data d)) as [| | |ctxt mid|wait| |] eqn:Hst; try done.
  - simpl in Hidx. assert (index = 0%nat) as -> by lia. by eapply notify_extrinsic.
  - by eapply notify_hardcoded.
Qed.

(** Delivering a notification to a waiting thread, at the position of its
    identifier in the thread's list and within the size that the thread has
    room for, unlocks the thread and keeps the invariant: a thread that called
    [next_notification] goes back to running with the size of the
    notification as its result, and one inside an extrinsic has its next
    action queued. *)
Theorem resume_notification_ok t L R s index notif :
  px_ok (t :: L) R s →
  lock_state (px_inner s) t (λ st, is_waiting st ∧ (index < length (st_ids st))%nat ∧
    st_fits st (Z.of_nat (length notif))) →
  wp notif_panics (resume_notification t index notif s) (λ '(_, s'), px_ok L R s' ∧
    ∃ d d', lock_change (px_inner s) t d d' (px_inner s') ∧
      notified notif d d' (local_run_queue s) (local_run_queue s')).
Proof. apply resume_notification_sound. Qed.

(** The waiting thread goes back to running with the number [n]. *)
Definition woken (n : Z) t L R s : unit * PCE → Prop := λ '(_, s'),
  px_ok L R s' ∧ local_run_queue s' = local_run_queue s ∧
  ∃ d d', lock_change (px_inner s) t d d' (px_inner s') ∧
    state (th_user_data d') = ReadyToRun ∧ value_back d' = Some (Some (I32 n)).

Lemma resume_too_big_sound t L R s size :
  px_ok (t :: L) R s →
  lock_state (px_inner s) t (λ st, is_waiting st ∧ ¬ st_fits st (Z.of_nat size)) →
  wp (λ r, r = PUnwrap) (resume_notification_too_big t size s) (woken (Z.of_nat size) t L R s).
Proof.
  intros Hok Hls. unfold resume_notification_too_big. apply wp_Mbind, (wp_look _ t L R); [done|].
  intros h d x Hl. destruct (lock_state_at _ _ _ _ _ _ _ _ Hl Hls) as [Hw Hbig].
  pose proof Hl as (Hcore & _ & _ & _ & _ & _ & Hext & [_ Hinv]).
  destruct (state (th_user_data d)) as [| | |ctxt mid|wait| |] eqn:Hst; try done.
  destruct Hinv as (Hnq & Hvb & He). simpl in Hbig. apply wp_Mbind. simpl.
  apply wp_Mbind, wp_liftM, wp_unwrap; [done|]. intros z [-> _]%uint_try_from_Some.
  apply wp_Mbind, wp_liftM. rewrite bool_decide_true by lia. simpl.
  apply wp_Mbind, wp_on_inner. simpl.
  eapply wp_set_state; [by eapply locked_at_cur|]. intros c1 Hc1.
  apply wp_Mbind, wp_liftM, wp_unwrap; [done|]. intros z [-> _]%i32_try_from_Some.
  apply wp_on_inner. simpl. eapply wp_resume; [done|done|]. intros c2 Hc2.
  eapply (wp_drop_locked _ t L R s); try done.
  - exact (locked_queue _ _ _ _ _ _ _ Hl).
  - split; [done|]. simpl. split_and!; [tauto|done|]. eauto.
  - intros s'' Hs'' Hch Hq. split_and!; try done. eexists d, _. by split_and!; [exact Hch|..].
Qed.

Lemma resume_none_sound t L R s :
  px_ok (t :: L) R s →
  lock_state (px_inner s) t (λ st, is_waiting st ∧ st_blocks st = false) →
  wp no_panic (resume_no_notification t s) (woken 0 t L R s).
Proof.
  intros Hok Hls. unfold resume_no_notification. apply wp_Mbind, (wp_look _ t L R); [done|].
  intros h d x Hl. destruct (lock_state_at _ _ _ _ _ _ _ _ Hl Hls) as [Hw Hblock].
  pose proof Hl as (Hcore & _ & _ & _ & _ & _ & Hext & [_ Hinv]).
  destruct (state (th_user_data d)) as [| | |ctxt mid|wait| |] eqn:Hst; try done.
  destruct Hinv as (Hnq & Hvb & He). simpl in Hblock. apply wp_Mbind, wp_liftM.
  rewrite Hblock. simpl.
  eapply (resume_locked _ t L R s h d); try done; [by eapply locked_at_cur|].
  intros s' d'' ? ? ? ? ?. split_and!; try done. by exists d, d''.
Qed.

(** ** Taking and dropping locks and handles *)

(** Everything but the locks and the reference counts is the same. *)
Definition same_but_locks c c' : Prop :=
  frame c c' ∧
  (∀ h, (λ d, (state (th_user_data d), thread_id d, value_back d)) <$> ud c' h
        = (λ d, (state (th_user_data d), thread_id d, value_back d)) <$> ud c h) ∧
  (∀ pid, lp_external_user_data <$> pl c' pid = lp_external_user_data <$> pl c pid).

#[global] Instance same_but_locks_preorder : PreOrder same_but_locks.
Proof.
  split.
  - intros c. by split_and!.
  - intros c1 c2 c3 (?&H12&P12) (?&H23&P23). split_and!.
    + by etrans.
    + intros h. by rewrite H23, H12.
    + intros pid. by rewrite P23, P12.
Qed.

Lemma same_but_locks_state c c' t S :
  same_but_locks c c' → lock_state c t S → lock_state c' t S.
Proof.
  intros (_ & Hu & _) (h & d & Hd & Hid & HS). specialize (Hu h). rewrite Hd in Hu.
  destruct (ud c' h) as [d'|] eqn:Hd'; [|done]. simpl in Hu. injection Hu as Hst Hid' _.
  exists h, d'. split_and!; [done|congruence|by rewrite Hst].
Qed.

(** Writes to the data of a thread that keep its state, and to the counts. *)
Lemma cur_same_but_locks c c' h d d' x x' :
  cur c c' h d' x' → ud c h = Some d → pl c h.1 = Some x →
  state (th_user_data d') = state (th_user_data d) → thread_id d' = thread_id d →
  value_back d' = value_back d → lp_external_user_data x' = lp_external_user_data x →
  same_but_locks c c'.
Proof.
  intros (Hf & _ & Hu & Hp) Hd Hx Hst Hid Hvb Hext. split_and!; [done|..].
  - intros h'. rewrite Hu. case_decide; [|done]. subst. rewrite Hd. simpl. congruence.
  - intros pid. rewrite Hp. case_decide; [|done]. subst. rewrite Hx. simpl. congruence.
Qed.

Lemma released s : inner_borrowed s = false →
  with_borrowed false (with_inner (px_inner s) (with_borrowed true s)) = s.
Proof. destruct s. simpl. by intros ->. Qed.

(** Looking at the state of a locked thread changes nothing. *)
Lemma peek_state_ok {A} t L R s (f : LocalThreadState → outcome A) a :
  px_ok (t :: L) R s → lock_state (px_inner s) t (λ st, f st = Done a) →
  peek_state t f s = Done (a, s).
Proof.
  intros Hok Hls. destruct (lock_locked_at _ _ _ _ Hok) as (h & d & x & Hl & Hby).
  pose proof (lock_state_at _ _ _ _ _ _ _ _ Hl Hls) as Hf. destruct Hok as [Hb _].
  unfold peek_state, borrow_mut, on_inner, zoom, thread_by_id_unwrap, mbind, M_bind, get, put, liftM, modify.
  rewrite Hb. simpl. rewrite Hby. simpl.
  rewrite (cur_user_data _ _ _ _ _ (locked_at_cur _ _ _ _ _ _ _ Hl)). simpl. rewrite Hf.
  unfold mret, M_ret. do 2 f_equal. by apply released.
Qed.

(** The outcome of looking a thread up to lock it. *)
Definition lookup_post (id : ThreadId) L R s : (ThreadByIdErr + interrupted_thread) * PCE → Prop :=
  λ '(r, s'), match r with
  | inl AlreadyLocked => s' = s ∧ id ∈ tl_tid <$> L
  | inl RunningOrDead => s' = s ∧ ∀ h d, ud (px_inner s) h = Some d → thread_id d = id →
      ¬ is_emitting (state (th_user_data d)) ∧ ¬ is_waiting (state (th_user_data d))
  | inr (Th_EmitMessage t) => tl_tid t = id ∧ px_ok (t :: L) R s' ∧
      same_but_locks (px_inner s) (px_inner s') ∧ local_run_queue s' = local_run_queue s ∧
      lock_state (px_inner s') t is_emitting
  | inr (Th_WaitNotification t) => tl_tid t = id ∧ px_ok (t :: L) R s' ∧
      same_but_locks (px_inner s) (px_inner s') ∧ local_run_queue s' = local_run_queue s ∧
      lock_state (px_inner s') t is_waiting
  end.

(** Locking the thread [h]. *)
Lemma take_lock L R s h d x u (S : LocalThreadState → Prop) (mk : lock → interrupted_thread) :
  px_ok L R s → ud (px_inner s) h = Some d → pl (px_inner s) h.1 = Some x →
  lt_external_user_data (th_user_data d) = Some u → S (state (th_user_data d)) →
  (is_emitting (state (th_user_data d)) ∨ is_waiting (state (th_user_data d))) →
  wp no_panic ((_ ← arc_clone h.1; ud ← take_external h;
      mret (inr (mk {| tl_tid := thread_id d; tl_pid := h.1; tl_user_data := ud |}))) (px_inner s))
    (λ '(r, c), ∃ t, r = (inr (mk t) : ThreadByIdErr + interrupted_thread) ∧
      tl_tid t = thread_id d ∧ px_ok (t :: L) R (with_inner c s) ∧
      same_but_locks (px_inner s) c ∧ lock_state c t S).
Proof.
  intros [Hb Hcore] Hd Hx Hu HS Hst. pose proof (cur_refl _ _ _ _ Hd Hx) as Hcur.
  pose proof (pc_threads _ _ _ _ _ Hcore _ _ Hd ltac:(done)) as [Hlock Hinv].
  assert (thread_id d ∉ tl_tid <$> L) as HnL by (rewrite <-Hlock; congruence).
  apply wp_Mbind. unfold arc_clone. eapply wp_modify_proc; [done|]. intros c1 Hc1.
  apply wp_Mbind. eapply wp_take_external; [done|done|]. intros c2 Hc2. simpl.
  eexists. split_and!; [done|done|split; [done|]|..].
  - eapply (core_lock None); try done.
    + apply queue_change_refl, Hcore.
    + split; [done|]. simpl.
      destruct (state (th_user_data d)); destruct Hst; try done; naive_solver.
  - eapply cur_same_but_locks; [exact Hc2|done..].
  - by eapply cur_lock_state.
Qed.

Lemma interrupted_thread_by_id_sound L R s id :
  px_ok L R s → wp no_panic (interrupted_thread_by_id id s) (lookup_post id L R s).
Proof.
  intros Hok. pose proof Hok as [Hb Hcore]. unfold interrupted_thread_by_id.
  apply wp_borrow_mut; [done|]. apply wp_on_inner. simpl. apply wp_Mbind. simpl.
  destruct (thread_by_id (px_inner s) id) as [h|] eqn:Hby.
  2:{ simpl. rewrite released by done. split; [done|]. intros h d Hd <-.
      rewrite (thread_by_id_ud _ _ _ (pc_tids _ _ _ _ _ Hcore) Hd) in Hby. done. }
  apply thread_by_id_ud_inv in Hby as (d & Hd & <-). destruct (ud_pl _ _ _ Hd) as [x Hx].
  pose proof (pc_threads _ _ _ _ _ Hcore _ _ Hd ltac:(done)) as [Hlock Hinv].
  apply wp_Mbind, wp_liftM. rewrite (cur_user_data _ _ _ _ _ (cur_refl _ _ _ _ Hd Hx)). simpl.
  destruct (lt_external_user_data (th_user_data d)) as [u|] eqn:Hu.
  2:{ rewrite bool_decide_true by done. simpl. rewrite released by done. split; [done|].
      by apply Hlock. }
  rewrite bool_decide_false by done.
  assert (Hdead : ∀ h' d', ud (px_inner s) h' = Some d' → thread_id d' = thread_id d → d' = d).
  { intros h' d' Hd' Hid. assert (h' = h) as -> by (by eapply (pc_tids _ _ _ _ _ Hcore)). congruence. }
  destruct (state (th_user_data d)) eqn:Hst; try done; simpl.
  1,2: rewrite released by done; split; [done|]; intros h' d' Hd' Hid;
    rewrite (Hdead _ _ Hd' Hid), Hst; naive_solver.
  all: eapply wp_mono; [eapply (take_lock L R s h d x u (λ st, st = state (th_user_data d))); try done;
      rewrite Hst; simpl; auto|];
    intros [r c] (t & -> & Htid & [_ Hcore'] & Hsame & (h' & d' & ? & ? & Hs')); simpl;
    split_and!; try done; exists h', d'; by rewrite Hs', Hst.
Qed.

(** Every process has a thread to put a cursor on. *)
Lemma proc_cursor c pid x : coll_ok c → pl c pid = Some x → ∃ d, ud c (pid, 0%nat) = Some d.
Proof.
  intros [Hps _] Hx. unfold pl in Hx. destruct (processes c !! pid) as [p|] eqn:Hp; [|done].
  destruct (Hps pid p Hp) as (Hok & Hnp & _). destruct (Hok Hnp) as [Hnil _].
  unfold ud, thread_look. simpl. rewrite Hp. simpl. destruct (threads (state_machine p)) as [|t l]; [done|].
  by eexists.
Qed.

(** A change to the data of a process that keeps the invariant. *)
Lemma proc_change L R R' s pid x f :
  px_ok L R s → pl (px_inner s) pid = Some x →
  strong_count (f x) = S (held L R' pid) → (∀ pid', pid' ≠ pid → held L R' pid' = held L R pid') →
  (∀ pid', pid' ∈ R' → pid' ∈ R ∨ pid' = pid) → lp_extrinsics (f x) = lp_extrinsics x →
  ∃ c', modify_proc pid f (px_inner s) = Done (tt, c') ∧ px_ok L R' (with_inner c' s) ∧
    frame (px_inner s) c' ∧ (∀ h, ud c' h = ud (px_inner s) h) ∧
    ∀ pid', pl c' pid' = if decide (pid' = pid) then Some (f x) else pl (px_inner s) pid'.
Proof.
  intros [Hb Hcore] Hx Hs Hheld HR He.
  destruct (proc_cursor _ _ _ (pc_coll _ _ _ _ _ Hcore) Hx) as [d Hd].
  pose proof (cur_refl _ (pid, 0%nat) _ _ Hd Hx) as Hcur.
  assert (Hw : wp no_panic (modify_proc pid f (px_inner s)) (λ '(_, c'),
    cur (px_inner s) c' (pid, 0%nat) d (f x))).
  { by eapply (wp_modify_proc _ _ (pid, 0%nat)). }
  destruct (modify_proc pid f (px_inner s)) as [[[] c']| |]; [|done..]. simpl in Hw.
  exists c'. split; [done|]. pose proof Hw as (Hf & _ & Hu & Hp). split; [split; [done|]|split_and!].
  - eapply (cur_core None L R _ _ _ (pid, 0%nat) d d (f x) L R'); try done.
    + by apply (pc_threads _ _ _ _ _ Hcore).
    + apply Hcore.
    + rewrite He. by eapply pc_ext.
    + intros t Ht. by left.
    + apply Hcore.
  - done.
  - intros h. rewrite Hu. case_decide; [by subst|done].
  - exact Hp.
Qed.

(** A process handle is created. *)
Lemma px_process_by_id_sound L R s pid :
  px_ok L R s →
  wp no_panic (px_process_by_id pid s) (λ '(r, s'), match r with
    | None => s' = s ∧ pl (px_inner s) pid = None
    | Some p => p = pid ∧ is_Some (pl (px_inner s) pid) ∧ px_ok L (pid :: R) s' ∧
        same_but_locks (px_inner s) (px_inner s') ∧ local_run_queue s' = local_run_queue s
    end).
Proof.
  intros Hok. pose proof Hok as [Hb Hcore]. unfold px_process_by_id.
  apply wp_borrow_mut; [done|]. apply wp_on_inner. apply wp_Mbind. simpl.
  unfold process_by_id. destruct (processes (px_inner s) !! pid) as [p|] eqn:Hp.
  2:{ simpl. rewrite released by done. split; [done|]. unfold pl. by rewrite Hp. }
  assert (Hx : pl (px_inner s) pid = Some (pr_user_data p)) by (unfold pl; by rewrite Hp).
  apply wp_Mbind. unfold arc_clone.
  destruct (proc_change L R (pid :: R) s pid _
    (λ x, with_strong (S (strong_count x)) x) Hok Hx) as (c' & -> & Hok' & Hf & Hu & Hpl).
  - rewrite held_ref, decide_True by done. simpl. f_equal. by apply (pc_strong _ _ _ _ _ Hcore).
  - intros pid' Hne. by rewrite held_ref, decide_False.
  - intros pid' [->|?]%elem_of_cons; auto.
  - done.
  - simpl. rewrite Hx. split_and!; try done; [split; [done|apply Hok']|].
    split_and!; [done|intros h; by rewrite Hu|]. intros pid'. rewrite Hpl. case_decide; [|done]. subst. by rewrite Hx.
Qed.

(** A process handle is dropped. *)
Lemma drop_proc_sound L R s pid :
  px_ok L (pid :: R) s →
  wp no_panic (drop_proc pid s) (λ '(_, s'), px_ok L R s' ∧
    same_but_locks (px_inner s) (px_inner s') ∧ local_run_queue s' = local_run_queue s).
Proof.
  intros Hok. pose proof Hok as [Hb Hcore].
  destruct (pc_refs _ _ _ _ _ Hcore pid) as [x Hx]; [by left|].
  unfold drop_proc. apply wp_on_inner. unfold arc_drop.
  destruct (proc_change L (pid :: R) R s pid x
    (λ x, with_strong (pred (strong_count x)) x) Hok Hx) as (c' & -> & Hok' & Hf & Hu & Hpl).
  - simpl. rewrite (pc_strong _ _ _ _ _ Hcore _ _ Hx), held_ref, decide_True by done. done.
  - intros pid' Hne. by rewrite held_ref, decide_False.
  - intros pid' ?. left. by right.
  - done.
  - simpl. split_and!; try done.
    split_and!; [done|intros h; by rewrite Hu|]. intros pid'. rewrite Hpl. case_decide; [|done]. subst. by rewrite Hx.
Qed.

(** The user data of a process is read and written through a handle. *)
Lemma px_user_data_ok s pid x :
  pl (px_inner s) pid = Some x → px_user_data s pid = Done (lp_external_user_data x).
Proof.
  unfold pl, px_user_data, proc_user_data, entry. intros Hx.
  destruct (processes (px_inner s) !! pid) as [p|]; [|done]. by injection Hx as <-.
Qed.

Lemma px_set_user_data_sound L R s pid x u :
  px_ok L R s → pl (px_inner s) pid = Some x →
  wp no_panic (px_set_user_data pid u s) (λ '(_, s'), px_ok L R s' ∧
    local_run_queue s' = local_run_queue s ∧ frame (px_inner s) (px_inner s') ∧
    (∀ h, ud (px_inner s') h = ud (px_inner s) h) ∧
    ∀ pid', pl (px_inner s') pid'
      = if decide (pid' = pid) then Some (with_external u x) else pl (px_inner s) pid').
Proof.
  intros Hok Hx. pose proof Hok as [Hb Hcore]. unfold px_set_user_data. apply wp_on_inner.
  destruct (proc_change L R R s pid x (with_external u) Hok Hx) as (c' & -> & Hok' & Hf & Hu & Hpl).
  - by apply (pc_strong _ _ _ _ _ Hcore pid x Hx).
  - done.
  - auto.
  - done.
  - simpl. by split_and!.
Qed.

(** ** Listing the threads of a process *)

Lemma collect_tids_ok (c : coll) pid p fuel i :
  processes c !! pid = Some p → (i < length (threads (state_machine p)))%nat →
  (length (threads (state_machine p)) - i ≤ fuel)%nat →
  collect_tids fuel c (pid, i)
  = Done (thread_id <$> drop i (into_user_datas (state_machine p))).
Proof.
  intros Hp. revert i. induction fuel as [|fuel IH]; intros i Hi Hfuel; [lia|].
  destruct (lookup_lt_is_Some_2 _ _ Hi) as [ts Ht].
  assert (Hin : tid c (pid, i) = Done (thread_id (ts_user_data ts))).
  { unfold tid. rewrite (inner_at c (pid, i) ts); [done|]. by exists p. }
  cbn [collect_tids]. rewrite Hin. simpl.
  assert (Hdrop : drop i (into_user_datas (state_machine p))
    = ts_user_data ts :: drop (S i) (into_user_datas (state_machine p))).
  { apply drop_S. unfold into_user_datas. by rewrite list_lookup_fmap, Ht. }
  unfold next_thread, entry. simpl. rewrite Hp. simpl. unfold num_threads. rewrite Hdrop.
  case_bool_decide as Hend.
  - simpl. rewrite drop_ge; [done|]. unfold into_user_datas. rewrite length_fmap. lia.
  - simpl. rewrite IH by lia. done.
Qed.

Lemma interrupted_threads_ok L R s pid x :
  px_ok L R s → pl (px_inner s) pid = Some x →
  ∃ tids, interrupted_threads pid s = Done (tids, s) ∧
    ∀ id, id ∈ tids ↔ ∃ i d, ud (px_inner s) (pid, i) = Some d ∧ thread_id d = id.
Proof.
  intros Hok Hx. pose proof Hok as [Hb Hcore]. unfold pl in Hx.
  destruct (processes (px_inner s) !! pid) as [p|] eqn:Hp; [|done].
  destruct (proj1 (pc_coll _ _ _ _ _ Hcore) pid p Hp) as (Hvok & Hnp & _).
  destruct (Hvok Hnp) as [Hnil _].
  unfold interrupted_threads, borrow_mut, on_inner, zoom, mbind, M_bind, get, put, modify, liftM.
  rewrite Hb. simpl. unfold process_by_id, entry, main_thread. rewrite Hp. simpl. rewrite Hp. simpl.
  rewrite (collect_tids_ok _ _ p); [|done| |unfold num_threads; lia].
  2:{ destruct (threads (state_machine p)); [done|]. simpl. lia. }
  rewrite drop_0. simpl. eexists. split; [unfold mret, M_ret; by rewrite released|].
  intros id. rewrite list_elem_of_fmap. unfold into_user_datas, ud, thread_look. simpl. rewrite Hp. simpl.
  setoid_rewrite list_elem_of_fmap. split.
  - intros (d & -> & ts & -> & Hts). apply list_elem_of_lookup in Hts as [i Hi].
    exists i, (ts_user_data ts). by rewrite Hi.
  - intros (i & d & Hd & <-). apply fmap_Some in Hd as (ts & Hts & ->).
    exists (ts_user_data ts). split; [done|]. exists ts. split; [done|]. by eapply list_elem_of_lookup_2.
Qed.

(** A lock that is dropped unused. *)
Lemma drop_lock_sound P t L R s :
  px_ok (t :: L) R s → lock_state (px_inner s) t (λ st, is_emitting st ∨ is_waiting st) →
  wp P (drop_thread t s) (λ '(_, s'), px_ok L R s' ∧
    same_but_locks (px_inner s) (px_inner s') ∧ local_run_queue s' = local_run_queue s ∧
    ∃ d, lock_change (px_inner s) t d (with_ext (Some (tl_user_data t)) d) (px_inner s')).
Proof.
  intros Hok Hls. destruct (lock_locked_at _ _ _ _ Hok) as (h & d & x & Hl & _).
  pose proof (lock_state_at _ _ _ _ _ _ _ _ Hl Hls) as Hst.
  pose proof Hl as (Hcore & Hb & Hd & Hx & _ & _ & Hext & [_ Hinv]).
  eapply (wp_drop_locked _ t L R s h d d x x s); try done.
  - by eapply locked_at_cur.
  - exact (locked_queue _ _ _ _ _ _ _ Hl).
  - split; [done|]. simpl. destruct (state (th_user_data d)); destruct Hst; done.
  - intros s'' Hs'' Hch Hq. pose proof Hch as (Hf & h' & Hd' & Hid & _ & Hu & Hpl).
    split_and!; try done; [|by eexists].
    split_and!; try done. intros h0. rewrite Hu. case_decide; [|done]. subst. by rewrite Hd'.
Qed.

(** The size that a waiting thread has room for. *)
Lemma allowed_size_sound (P : panic_reason → Prop) t L R s :
  px_ok (t :: L) R s → lock_state (px_inner s) t is_waiting → P PUnwrap →
  wp P (allowed_notification_size t s) (λ '(a, s'), s' = s ∧
    lock_state (px_inner s) t (λ st, match st with
      | St_NotificationWait wait => a = out_size wait
      | OtherExtrinsicWait _ _ => a = usize_max
      | _ => False end)).
Proof.
  intros Hok (h & d & Hd & Hid & Hw) HP. pose proof Hok as [Hb _].
  assert (Hls : ∀ S : LocalThreadState → Prop, S (state (th_user_data d)) → lock_state (px_inner s) t S).
  { intros S HS. by exists h, d. }
  unfold allowed_notification_size.
  destruct (state (th_user_data d)) as [| | |ctxt mid|wait| |] eqn:Hst; try done.
  - rewrite (peek_state_ok t L R s _ usize_max); [|done|by apply Hls]. split; [done|]. by apply Hls.
  - destruct (usize_try_from (out_size wait)) as [z|] eqn:Hz.
    + pose proof Hz as [-> _]%uint_try_from_Some.
      rewrite (peek_state_ok t L R s _ (out_size wait)); [|done|apply Hls; by rewrite Hz].
      split; [done|]. by apply Hls.
    + assert (wp P (peek_state t (λ st, match st with
          | St_NotificationWait wait => unwrap (usize_try_from (out_size wait))
          | OtherExtrinsicWait _ _ => Done usize_max
          | _ => Panic PUnreachable end) s) (λ _, False)) as Hno.
      { unfold peek_state. apply wp_borrow_mut; [done|]. apply wp_on_inner. simpl.
        destruct (lock_locked_at _ _ _ _ Hok) as (h' & d' & x & Hl & Hby).
        apply wp_Mbind. unfold thread_by_id_unwrap. apply wp_Mbind. simpl. rewrite Hby. simpl.
        do 2 apply wp_Mbind. simpl. apply wp_liftM.
        rewrite (cur_user_data _ _ _ _ _ (locked_at_cur _ _ _ _ _ _ _ Hl)). simpl.
        pose proof (lock_state_at _ _ _ _ _ _ _ _ Hl (Hls (λ st, st = St_NotificationWait wait) eq_refl)) as ->.
        rewrite Hz. simpl. done. }
      by eapply wp_mono.
Qed.

(** A notification is never too big for a thread inside an extrinsic. *)
Lemma too_big_extrinsic t L R s size :
  px_ok (t :: L) R s →
  lock_state (px_inner s) t (λ st, is_waiting st ∧ st_fits st (Z.of_nat size) ∧
    ∀ wait, st ≠ St_NotificationWait wait) →
  wp (λ r, r = PExplicit) (resume_notification_too_big t size s) (λ _, False).
Proof.
  intros Hok Hls. unfold resume_notification_too_big. apply wp_Mbind, (wp_look _ t L R); [done|].
  intros h d x Hl. destruct (lock_state_at _ _ _ _ _ _ _ _ Hl Hls) as (Hw & Hf & Hn).
  destruct (state (th_user_data d)) as [| | |ctxt mid|wait| |]; try done. by destruct (Hn wait).
Qed.

End locks.
