(* ===== verification/ExtrinsicsMemory.v ===== *)
(** The memory of the programs that wait.

    What delivering a notification writes: in the memory of the process, or
    to the extrinsic that waits for it; and that nothing else is written. *)
From S2P Require Import Prelude IdPool WasmValue Ffi Calls Vm ExtrinsicsApi Processes.
From S2P Require Import ProcessesFrame Extrinsics ExtrinsicsInv ExtrinsicsLocks.

Section memory.
Context `{Rng} `{Wasmi} `{!HashIter Z} `{Extrinsics}.
Context `{!WasmiLaws} `{!WasmiMemoryLaws} `{!ExtrinsicsLaws} {TPud TTud : Type}.

Local Abbreviation PCE := (ProcessesCollectionExtrinsics (TPud := TPud) (TTud := TTud)).
Local Abbreviation lock := (ThreadLock (TTud := TTud)).
Local Abbreviation LPUD := (LocalProcessUserData (TPud := TPud)).
Local Abbreviation LTUD := (LocalThreadUserData (TTud := TTud)).
Local Abbreviation coll := (ProcessesCollection Extrinsic LPUD LTUD).
Implicit Types (c : coll) (s : PCE) (t : lock) (L : list lock) (R : list Pid)
  (d : Thread LTUD) (x : LPUD) (h : Pid * nat).

(** * The instances of the processes *)

Definition store_at c (pid : Pid) : option (wasmi_Store * option wasmi_MemoryRef) :=
  (λ p, (module_ (state_machine p), memory (state_machine p))) <$> processes c !! pid.

Definition same_stores c c' : Prop := ∀ pid, store_at c' pid = store_at c pid.

#[global] Instance same_stores_preorder : PreOrder same_stores.
Proof. split; [by intros c pid|]. intros c1 c2 c3 H12 H23 pid. by rewrite H23, H12. Qed.

(** The memory of process [pid] at [off] becomes [bs], and nothing else. *)
Definition stored (pid : Pid) (off : Z) (bs : bytes) c c' : Prop :=
  ∃ st mem st', store_at c pid = Some (st, Some mem) ∧ MemoryRef_set st mem off bs = Some st' ∧
    ∀ pid', store_at c' pid' = if decide (pid' = pid) then Some (st', Some mem) else store_at c pid'.

Lemma stored_same pid off bs c1 c2 c3 c4 :
  same_stores c1 c2 → stored pid off bs c2 c3 → same_stores c3 c4 → stored pid off bs c1 c4.
Proof.
  intros H12 (st & mem & st' & Hst & Hset & H23) H34. exists st, mem, st'. split; [by rewrite <- H12|].
  split; [done|]. intros pid'. by rewrite H34, H23, H12.
Qed.

Lemma set_process_stores c pid p vm' (x' : LPUD) :
  processes c !! pid = Some p → module_ vm' = module_ (state_machine p) →
  memory vm' = memory (state_machine p) →
  same_stores c (set_process pid {| state_machine := vm'; pr_user_data := x' |} c).
Proof.
  intros Hp Hm Hmem pid'. unfold store_at, set_process. simpl. rewrite lookup_insert. case_decide; [|done].
  subst. rewrite Hp. simpl. by rewrite Hm, Hmem.
Qed.

(** ** The operations that leave them *)

Lemma entry_Some c pid p : entry c pid = Done p → processes c !! pid = Some p.
Proof. unfold entry. apply or_unreachable_Done. Qed.

Lemma set_inner_stores h d c u c' : set_inner h d c = Done (u, c') → same_stores c c'.
Proof. unfold set_inner. intros Hs. inv_done. eapply set_process_stores; [by eapply entry_Some|done..]. Qed.

Lemma set_user_data_stores h ud c u c' : set_user_data h ud c = Done (u, c') → same_stores c c'.
Proof. unfold set_user_data, get. intros Hs. inv_done. by eapply set_inner_stores. Qed.

Lemma set_state_stores h st c u c' : set_state h st c = Done (u, c') → same_stores c c'.
Proof. unfold set_state, get. intros Hs. inv_done. by eapply set_user_data_stores. Qed.

Lemma resume_stores h v c u c' : resume h v c = Done (u, c') → same_stores c c'.
Proof. unfold resume, get. intros Hs. inv_done. case_bool_decide; [done|]. by eapply set_inner_stores. Qed.

Lemma modify_proc_stores pid (f : LPUD → LPUD) c u c' : modify_proc pid f c = Done (u, c') → same_stores c c'.
Proof.
  unfold modify_proc, get, modify. intros Hs. inv_done. eapply set_process_stores; [by eapply entry_Some|done..].
Qed.

Lemma drop_thread_stores t s u s' : drop_thread t s = Done (u, s') → same_stores (px_inner s) (px_inner s').
Proof.
  unfold drop_thread, borrow_mut, on_inner, thread_by_id_unwrap, get, put, modify. intros Hs. inv_done.
  destruct (inner_borrowed _); [done|]. inv_done.
  etrans; [by eapply set_user_data_stores|]. by eapply (modify_proc_stores (tl_pid t)).
Qed.

Lemma write_or_panic_stored r pid off bs c u c' :
  write_or_panic r pid off bs c = Done (u, c') → stored pid off bs c c'.
Proof.
  unfold write_or_panic, proc_write_memory, write_memory. intros Hs. inv_done.
  destruct (memory (state_machine _)) as [mem|] eqn:Hmem; [|done].
  match goal with He : entry c pid = Done ?q |- _ => apply entry_Some in He as Hp; exists (module_ (state_machine q)), mem end.
  destruct (MemoryRef_set _ _ _ _) as [st'|] eqn:Hset; simplify_eq/=. inv_done.
  exists st'. unfold store_at. rewrite Hp. simpl. rewrite Hmem. split; [done|].
  split; [done|]. intros pid'. rewrite lookup_insert. case_decide; case_decide; try done. simpl. by rewrite Hmem.
Qed.

(** * Taking the state of a locked thread *)

Lemma take_state_Done {A} t L R s (body : Pid * nat → LocalThreadState → M PCE A) st a s' :
  px_ok (t :: L) R s → lock_state (px_inner s) t (λ st', st' = st) →
  borrow_mut (h ← on_inner (thread_by_id_unwrap (tl_tid t));
    st ← on_inner (replace_state h Poisoned); body h st) s = Done (a, s') →
  ∃ h d x c s1, locked_at t L R s h d x ∧ cur (px_inner s) c h (with_state Poisoned d) x ∧
    same_stores (px_inner s) c ∧ body h st (with_inner c (with_borrowed true s)) = Done (a, s1) ∧
    s' = with_borrowed false s1.
Proof.
  intros Hok Hst. destruct (lock_locked_at _ _ _ _ Hok) as (h & d & x & Hl & Hby).
  pose proof (lock_state_at _ _ _ _ _ _ _ _ Hl Hst) as <-.
  unfold borrow_mut, get, put, modify, on_inner, thread_by_id_unwrap. intros Hs. inv_done.
  rewrite (proj1 Hok) in Hs. inv_done.
  match goal with Hr : replace_state h Poisoned _ = Done (?st1, ?c1) |- _ => pose proof Hr as Hrep; rename st1 into st'; rename c1 into c end.
  match goal with Hl : locked_at t L R ?x1 h d x |- _ => rename x1 into s end.
  assert (Hsame : same_stores (px_inner s) c).
  { clear - Hrep. unfold replace_state, get in Hrep. inv_done. by eapply set_state_stores. }
  assert (Hpost : st' = state (th_user_data d) ∧ cur (px_inner s) c h (with_state Poisoned d) x).
  { apply (wp_Done_inv no_panic _ (λ '(st1, c1), st1 = state (th_user_data d) ∧ cur (px_inner s) c1 h (with_state Poisoned d) x) (st', c)) in Hrep; [done|].
    eapply wp_replace_state; [exact (locked_at_cur _ _ _ _ _ _ _ Hl)|by intros]. }
  destruct Hpost as [-> Hcur].
  by eexists h, d, x, _, _.
Qed.

(** * Delivering a notification *)

(** A program that called [next_notification] finds the notification at the
    address that it gave, and zero in the place of the identifier. *)
Lemma resume_notification_stores t L R s index notif s' wait :
  px_ok (t :: L) R s → lock_state (px_inner s) t (λ st, st = St_NotificationWait wait) →
  resume_notification t index notif s = Done (tt, s') →
  ∃ c, stored (tl_pid t) (out_pointer wait) notif (px_inner s) c ∧
    stored (tl_pid t) (notifs_ids_ptr wait + Z.of_nat index * 8) (replicate 8 Init.Byte.x00) c (px_inner s').
Proof.
  intros Hok Hst Hrun. unfold resume_notification in Hrun. apply M_bind_Done in Hrun as (u & s1 & Hrun & Hdrop).
  destruct (take_state_Done _ _ _ _ _ _ _ _ Hok Hst Hrun) as (h & d & x & c & s2 & Hl & Hcur & Hsame & Hbody & ->).
  destruct Hl as (_ & _ & _ & _ & Hpid & _). apply drop_thread_stores in Hdrop.
  unfold on_inner in Hbody. inv_done.
  assert (Haddr : x12 = notifs_ids_ptr wait + Z.of_nat index * 8).
  { apply uint_try_from_Some in H9 as [-> _]. apply uint_checked_Done in H10 as [-> _]. by apply uint_checked_Done in H11 as [-> _]. }
  subst x12. rewrite Hpid in *. apply write_or_panic_stored in H8, H12. apply set_state_stores in H13. apply resume_stores in Hbody.
  exists x7. split; [by eapply stored_same|]. eapply stored_same; [done|exact H12|]. etrans; [exact H13|]. by etrans.
Qed.

(** ** A thread inside an extrinsic *)

Lemma set_user_data_ud h u0 c r c' : set_user_data h u0 c = Done (r, c') →
  ∃ d, ud c h = Some d ∧ ∀ h', ud c' h' = if decide (h' = h)
    then Some {| th_user_data := u0; thread_id := thread_id d; value_back := value_back d |} else ud c h'.
Proof.
  intros Hs. pose proof Hs as Hs'. unfold set_user_data, mbind, M_bind, get, liftM in Hs'.
  destruct (inner c h) as [d0| |] eqn:Hi; [|done..]. apply inner_Done in Hi as (t0 & Ht0 & ->). clear Hs'.
  assert (Hd : ud c h = Some (ts_user_data t0)) by (unfold ud; apply thread_at_look in Ht0; by rewrite Ht0).
  destruct (ud_pl _ _ _ Hd) as [x Hx]. exists (ts_user_data t0). split; [done|].
  assert (Hw : wp no_panic (set_user_data h u0 c) (λ r, cur c r.2 h {| th_user_data := u0;
    thread_id := thread_id (ts_user_data t0); value_back := value_back (ts_user_data t0) |} x)).
  { eapply wp_set_user_data; [by apply cur_refl|by intros]. }
  apply (wp_Done_inv _ _ _ _ Hw Hs).
Qed.

Definition state_of c h : option LocalThreadState := (λ d, state (th_user_data d)) <$> ud c h.

Lemma set_state_state h st c r c' : set_state h st c = Done (r, c') → state_of c' h = Some st.
Proof.
  unfold set_state, get. intros Hs. inv_done. apply set_user_data_ud in Hs as (d & _ & Hu). unfold state_of.
  by rewrite Hu, decide_True.
Qed.

Lemma modify_proc_ud pid (f : LPUD → LPUD) c u c' h : modify_proc pid f c = Done (u, c') → ud c' h = ud c h.
Proof.
  unfold modify_proc, get, modify. intros Hs. inv_done.
  match goal with He : entry _ pid = Done _ |- _ => apply entry_Some in He as Hp end.
  unfold ud, thread_look. simpl. rewrite lookup_insert. case_decide; [|done]. subst. by rewrite Hp.
Qed.

Lemma drop_thread_state t s u s' h : drop_thread t s = Done (u, s') → state_of (px_inner s') h = state_of (px_inner s) h.
Proof.
  unfold drop_thread, borrow_mut, on_inner, thread_by_id_unwrap, get, put, modify. intros Hs. inv_done.
  destruct (inner_borrowed _); [done|]. inv_done. unfold state_of.
  match goal with Ha : arc_drop _ _ = Done _ |- _ => rewrite (modify_proc_ud _ _ _ _ _ h Ha) end.
  match goal with Hu : user_data _ _ = Done _, Hs : set_user_data _ _ _ = Done _ |- _ =>
    apply set_user_data_ud in Hs as (d & Hd & Hs); rewrite Hs;
    unfold user_data in Hu; apply outcome_bind_Done in Hu as (d' & Hi & [= <-]); apply inner_Done in Hi as (t0 & Ht0 & ->) end.
  simpl in *. case_decide; [|done]. subst. rewrite Hd. simpl. f_equal. unfold ud in Hd. apply thread_at_look in Ht0.
  rewrite Ht0 in Hd. by injection Hd as <-.
Qed.

(** An extrinsic that waits for an answer is given the message that the
    notification holds, and its thread has the action that it gives for it. *)
Lemma resume_notification_injects t L R s index notif s' ctxt mid :
  px_ok (t :: L) R s → lock_state (px_inner s) t (λ st, st = OtherExtrinsicWait ctxt mid) →
  resume_notification t index notif s = Done (tt, s') →
  ∃ message c0 c1 ctxt' action, decoded_answer notif = Done message ∧ same_stores (px_inner s) c0 ∧
    with_extrinsics_of (tl_pid t) (inject_message_response (MemoryAccessImpl (tl_pid t)) ctxt (Some message)) c0
      = Done ((ctxt', action), c1) ∧ same_stores c1 (px_inner s') ∧
    ∀ h d, ud (px_inner s) h = Some d → thread_id d = tl_tid t →
      state_of (px_inner s') h = Some (OtherExtrinsicApplyAction ctxt' action).
Proof.
  intros Hok Hst Hrun. unfold resume_notification in Hrun. apply M_bind_Done in Hrun as (u & s1 & Hrun & Hdrop).
  destruct (take_state_Done _ _ _ _ _ _ _ _ Hok Hst Hrun) as (h & d & x & c & s2 & Hl & Hcur & Hsame & Hbody & ->).
  destruct Hl as (Hcore & _ & Hd & _ & Hpid & Hid & _). pose proof (drop_thread_state _ _ _ _ h Hdrop) as Hstate.
  apply drop_thread_stores in Hdrop.
  unfold on_inner, gets, push_queue, modify in Hbody. inv_done.
  destruct x4 as [ctxt' action]. inv_done. rewrite Hpid in *.
  exists x0, c, x6, ctxt', action. split; [done|]. split; [done|]. split; [done|].
  match goal with Hset : set_state h _ _ = Done _ |- _ =>
    pose proof (set_state_state _ _ _ _ _ Hset) as Hnew; apply set_state_stores in Hset as Hkeep end.
  split; [by etrans|]. intros h0 d0 Hd0 Hid0. assert (h0 = h) as ->; [|by rewrite Hstate].
  by eapply (pc_tids _ _ _ _ _ Hcore); [done|done|congruence].
Qed.

(** ** The threads that receive no notification *)

Lemma resume_too_big_stores t size s u s' :
  resume_notification_too_big t size s = Done (u, s') → same_stores (px_inner s) (px_inner s').
Proof.
  unfold resume_notification_too_big, borrow_mut, on_inner, thread_by_id_unwrap, get, gets, put, modify. intros Hs. inv_done.
  destruct (inner_borrowed _); [done|]. inv_done. case_match; inv_done; try done.
  match goal with Hd : drop_thread _ _ = Done _, Hr : resume _ _ _ = Done _, Hst : set_state _ _ _ = Done _ |- _ =>
    apply drop_thread_stores in Hd; apply resume_stores in Hr; apply set_state_stores in Hst;
    etrans; [exact Hst|]; etrans; [exact Hr|exact Hd] end.
Qed.

Lemma resume_none_stores t s u s' :
  resume_no_notification t s = Done (u, s') → same_stores (px_inner s) (px_inner s').
Proof.
  unfold resume_no_notification, borrow_mut, on_inner, thread_by_id_unwrap, get, gets, put, modify. intros Hs. inv_done.
  destruct (inner_borrowed _); [done|]. inv_done. case_match; inv_done; try done.
  match goal with Hd : drop_thread _ _ = Done _, Hr : resume _ _ _ = Done _, Hst : set_state _ _ _ = Done _ |- _ =>
    apply drop_thread_stores in Hd; apply resume_stores in Hr; apply set_state_stores in Hst;
    etrans; [exact Hst|]; etrans; [exact Hr|exact Hd] end.
Qed.

Lemma px_set_user_data_stores pid u s r s' :
  px_set_user_data pid u s = Done (r, s') → same_stores (px_inner s) (px_inner s').
Proof. unfold px_set_user_data, on_inner. intros Hs. inv_done. by eapply modify_proc_stores. Qed.

Lemma px_set_user_data_ud pid u s r s' h :
  px_set_user_data pid u s = Done (r, s') → ud (px_inner s') h = ud (px_inner s) h.
Proof. unfold px_set_user_data, on_inner. intros Hs. inv_done. by eapply modify_proc_ud. Qed.

(** * What a waiting thread receives *)

(** The notification [notif] reaches the thread of lock [t], whose state is
    [st] and of whose list it matches the element [index]. *)
Definition received t (st : LocalThreadState) (index : nat) (notif : EncodedMessage) s s' : Prop :=
  match st with
  | St_NotificationWait wait =>
      ∃ c, stored (tl_pid t) (out_pointer wait) notif (px_inner s) c ∧
        stored (tl_pid t) (notifs_ids_ptr wait + Z.of_nat index * 8) (replicate 8 Init.Byte.x00) c (px_inner s')
  | OtherExtrinsicWait ctxt _ =>
      ∃ message c0 c1 ctxt' action, decoded_answer notif = Done message ∧ same_stores (px_inner s) c0 ∧
        with_extrinsics_of (tl_pid t) (inject_message_response (MemoryAccessImpl (tl_pid t)) ctxt (Some message)) c0
          = Done ((ctxt', action), c1) ∧ same_stores c1 (px_inner s') ∧
        ∀ h d, ud (px_inner s) h = Some d → thread_id d = tl_tid t →
          state_of (px_inner s') h = Some (OtherExtrinsicApplyAction ctxt' action)
  | _ => False
  end.

Lemma resume_notification_received t L R s index notif s' st :
  px_ok (t :: L) R s → lock_state (px_inner s) t (λ st', st' = st) → is_waiting st →
  resume_notification t index notif s = Done (tt, s') → received t st index notif s s'.
Proof.
  intros Hok Hst Hw Hrun. destruct st; try done.
  - by eapply resume_notification_injects.
  - by eapply resume_notification_stores.
Qed.

End memory.
