(* ===== verification/ExtrinsicsLife.v ===== *)
(** The beginning of the life of the wrapped collection and of its processes.

    The builder gives a collection that satisfies the invariant of
    [ExtrinsicsInv], and executing a module adds a process to it. *)
From S2P Require Import Prelude IdPool WasmValue Ffi Calls Vm ExtrinsicsApi Processes.
From S2P Require Import ProcessesFrame Extrinsics ExtrinsicsInv ExtrinsicsLocks.

Section life.
Context `{Rng} `{!RngLaws} `{Wasmi} `{!HashIter Z} `{Extrinsics}.
Context `{!WasmiLaws} `{!WasmiMemoryLaws} `{!ExtrinsicsLaws} {TPud TTud : Type}.

Local Abbreviation PCE := (ProcessesCollectionExtrinsics (TPud := TPud) (TTud := TTud)).
Local Abbreviation lock := (ThreadLock (TTud := TTud)).
Local Abbreviation LPUD := (LocalProcessUserData (TPud := TPud)).
Local Abbreviation LTUD := (LocalThreadUserData (TTud := TTud)).
Local Abbreviation coll := (ProcessesCollection Extrinsic LPUD LTUD).
Local Abbreviation px_core := (px_core_but None).
Implicit Types (c : coll) (s : PCE) (L : list lock) (R : list Pid).

(** * Building *)

Local Abbreviation registrations := (hardcoded_extrinsics ++ other_extrinsics).

(** The names of the built-in functions and of the extrinsics are distinct. *)
Lemma registrations_nodup : NoDup (reg_name <$> registrations).
Proof.
  rewrite fmap_app. apply NoDup_app. split_and!.
  - apply (bool_decide_eq_true_1 _). vm_compute. reflexivity.
  - intros [m f] Hin (r & Hr & Hin')%list_elem_of_fmap.
    apply list_elem_of_fmap in Hin' as (e & -> & He). injection Hr as -> ->.
    destruct (supported_modules e He).
    repeat (apply elem_of_cons in Hin as [[= -> _]|Hin]; [done|]). by apply elem_of_nil in Hin.
  - pose proof supported_names as Hnd. unfold other_extrinsics. rewrite <-list_fmap_compose.
    exact Hnd.
Qed.

(** Reserving identifiers for handlers outside the collection. *)
Lemma reserve_ok l (b b' : ProcessesCollectionBuilder Extrinsic) pid :
  builder_ok l b → px_reserve_pid b = Done (pid, b') → builder_ok l b'.
Proof.
  intros [] Hr. unfold px_reserve_pid, builder_reserve_pid in Hr. inv_done. by split.
Qed.

Lemma builder_default_sound :
  ∃ b, px_builder_default = Done b ∧ builder_ok registrations b.
Proof.
  unfold px_builder_default.
  pose proof (register_all_ok hardcoded_extrinsics [] _ builder_default_ok) as Hr1.
  pose proof registrations_nodup as Hnd. rewrite fmap_app in Hnd.
  pose proof Hnd as (Hnd1 & _ & _)%NoDup_app. rewrite decide_True in Hr1 by done.
  destruct Hr1 as (b1 & -> & Hb1). simpl.
  pose proof (register_all_ok other_extrinsics _ b1 Hb1) as Hr2.
  rewrite decide_True in Hr2 by (by rewrite fmap_app). done.
Qed.

(** An empty collection. *)
Lemma px_build_sound b :
  builder_ok registrations b →
  ∃ s, px_build b = Done s ∧ px_ok [] [] s ∧ processes (px_inner s) = ∅ ∧ local_run_queue s = [].
Proof.
  intros [Hsz Hsza Htok Has _]. unfold px_build, builder_build.
  rewrite bool_decide_true by congruence. simpl. eexists. split; [done|].
  split_and!; try done. split; [done|]. split; simpl; try done.
  - split; [done|]. simpl. intros name i sg Hl. apply Has in Hl as [tok Hi].
    rewrite Htok, Hi. by eexists.
  - intros name i sg tok Hl Ht. apply Has in Hl as [tok' Hi]. rewrite Htok, Hi in Ht.
    injection Ht as <-. by eapply list_elem_of_lookup_2.
  - constructor.
  - intros t []%elem_of_nil.
  - constructor.
  - intros pid []%elem_of_nil.
Qed.

(** * Executing *)

(** The identifier [id] is not that of a thread, nor of one whose action
    waits. *)
Definition fresh_tid s (id : ThreadId) : Prop :=
  id ∉ local_run_queue s ∧ ∀ h d, ud (px_inner s) h = Some d → thread_id d ≠ id.

(** [s'] is [s] with one more process, of one thread, ready to run. *)
Definition executed (pid : Pid) (id : ThreadId) (pu : TPud) (tu : TTud) s s' : Prop :=
  local_run_queue s' = local_run_queue s ∧
  (∀ h, ud (px_inner s') h = if decide (h.1 = pid) then
     (if decide (h.2 = 0%nat) then Some {| th_user_data := {| state := ReadyToRun;
        lt_external_user_data := Some tu |}; thread_id := id; value_back := Some None |} else None)
     else ud (px_inner s) h) ∧
  (∀ pid', lp_external_user_data <$> pl (px_inner s') pid'
     = if decide (pid' = pid) then Some pu else lp_external_user_data <$> pl (px_inner s) pid').

(** How the view changes when a process is added. *)
Lemma view_new c c' pid p :
  processes c' = <[pid := p]> (processes c) →
  (∀ h, thread_look c' h = if decide (h.1 = pid) then threads (state_machine p) !! h.2 else thread_look c h) ∧
  (∀ pid', pl c' pid' = if decide (pid' = pid) then Some (pr_user_data p) else pl c pid').
Proof.
  intros Hc'. split; [intros h; unfold thread_look|intros pid'; unfold pl];
    rewrite Hc', lookup_insert; repeat case_decide; naive_solver.
Qed.

Lemma core_execute_sound L R c c' q pid id pu tu p :
  px_core L R c q → coll_ok c' → same_extrinsics c c' →
  processes c' = <[pid := p]> (processes c) →
  fresh_process {| lp_external_user_data := pu; lp_extrinsics := ext_default; strong_count := 2 |}
    {| state := ReadyToRun; lt_external_user_data := Some tu |} id p →
  memory (state_machine p) ≠ None → processes c !! pid = None → id ∉ q →
  (∀ h d, ud c h = Some d → thread_id d ≠ id) →
  px_core L (pid :: R) c' q.
Proof.
  intros Hcore Hok [Hx Ha] Hps (Hpud & t & Hth & Ht) Hmem Hfresh Hq Htid.
  destruct (view_new _ _ _ _ Hps) as [Hlook Hpl].
  assert (Hud : ∀ h d, ud c' h = Some d →
    h = (pid, 0%nat) ∧ d = ts_user_data t ∨ h.1 ≠ pid ∧ ud c h = Some d ∧ expected_at c' h = expected_at c h).
  { intros [pid' j] d. unfold ud, expected_at. rewrite Hlook. simpl. case_decide; [|by right].
    subst pid'. rewrite Hth. destruct j; simpl; [|done]. intros [= <-]. by left. }
  assert (Hnone : pl c pid = None) by (unfold pl; by rewrite Hfresh).
  assert (HnR : pid ∉ R).
  { intros Hin. destruct (pc_refs _ _ _ _ _ Hcore _ Hin) as [x Hx']. congruence. }
  assert (Hheld : held L R pid = 0%nat).
  { unfold held. destruct (filter _ _) as [|pid' l] eqn:Hf; [done|]. exfalso.
    assert (Hin : pid' ∈ filter (λ q, q = pid) ((tl_pid <$> L) ++ R)) by (rewrite Hf; by left).
    apply list_elem_of_filter in Hin as [-> [(t' & -> & Ht')%list_elem_of_fmap|?]%elem_of_app]; [|done].
    destruct (pc_locks _ _ _ _ _ Hcore _ Ht') as (h' & d' & Hd' & _ & Hpid').
    apply ud_pl in Hd' as [x Hx']. rewrite Hpid' in Hx'. congruence. }
  destruct Hcore as [_ Hmem0 Hinj0 Hreg0 Hnd0 Hthr0 Hst0 Hei0 Hlk0 Hnl0 Hrefs0]. split; try done.
  - intros pid' p'. rewrite Hps. intros [[<- <-]|[? ?]]%lookup_insert_Some; [done|by eapply Hmem0].
  - intros h1 h2 d1 d2 Hd1 Hd2 Heq.
    destruct (Hud _ _ Hd1) as [[-> ->]|(? & Hd1' & _)], (Hud _ _ Hd2) as [[-> ->]|(? & Hd2' & _)]; try done.
    + rewrite Ht in Heq. by destruct (Htid _ _ Hd2').
    + rewrite Ht in Heq. by destruct (Htid _ _ Hd1').
    + by eapply Hinj0.
  - unfold reg_ok. by rewrite Hx, Ha.
  - intros h d Hd _. destruct (Hud _ _ Hd) as [[-> ->]|(? & Hd' & ->)]; [|by apply Hthr0].
    assert (HL : thread_id (ts_user_data t) ∉ tl_tid <$> L).
    { intros (t' & Hid' & Ht')%list_elem_of_fmap. destruct (Hlk0 _ Ht') as (h' & d' & Hd' & Hid & _).
      apply (Htid _ _ Hd'). rewrite Hid, <-Hid'. by rewrite Ht. }
    rewrite Ht in HL |- *. simpl in *. split; [naive_solver|]. simpl. split_and!; [done|done|].
    exists None. split; [done|].
    destruct Hok as [Hps' _]. destruct (Hps' pid p) as (_ & _ & Hready & _); [by rewrite Hps, lookup_insert_eq|].
    rewrite Hth in Hready. inversion Hready as [|? ? Hr _]; subst. unfold ready_ok in Hr. rewrite Ht in Hr.
    unfold expected_at. rewrite Hlook, Hth. simpl. by rewrite decide_True.
  - intros pid' x. rewrite Hpl, held_ref. repeat case_decide; subst; try done.
    + intros [= <-]. rewrite Hpud. simpl. by rewrite Hheld.
    + apply Hst0.
  - intros pid' x. rewrite Hpl. case_decide; [|apply Hei0]. intros [= <-]. rewrite Hpud.
    apply ext_default_inv.
  - intros t' Ht'. destruct (Hlk0 _ Ht') as (h & d & Hd & Hid & Hpid). exists h, d.
    split_and!; try done. unfold ud. rewrite Hlook, decide_False; [done|].
    intros Heq. apply ud_pl in Hd as [x Hx']. rewrite Heq in Hx'. congruence.
  - intros pid' [->|Hin]%elem_of_cons; rewrite Hpl.
    + by rewrite decide_True.
    + case_decide; [done|]. by apply Hrefs0.
Qed.

(** A module that can be executed: the next identifiers of the pools are not in
    use, and an instance of the module has a memory. *)
Definition can_execute (m : wasmi_Module) s : Prop :=
  (∀ id tp, assign (tid_pool (px_inner s)) = Done (id, tp) → fresh_tid s id) ∧
  (∀ pid pp, assign (pid_pool (px_inner s)) = Done (pid, pp) → processes (px_inner s) !! pid = None) ∧
  (∀ (d : Thread LTUD) vm, ProcessStateMachine_new m d (resolve_extrinsic (px_inner s)) = Done (inr vm) →
     memory vm ≠ None).

(** Drawing an identifier changes nothing that the invariant is about. *)
Lemma core_pool L R c q tp : px_core L R c q → px_core L R (with_tid_pool tp c) q.
Proof. intros []. by split. Qed.

Lemma px_execute_sound L R s m pu tu :
  px_ok L R s → can_execute m s →
  match px_execute m pu tu s with
  | Done (inl e, s') => px_ok L R s' ∧ local_run_queue s' = local_run_queue s ∧
      (∀ h, ud (px_inner s') h = ud (px_inner s) h) ∧ ∀ pid, pl (px_inner s') pid = pl (px_inner s) pid
  | Done (inr pid, s') => px_ok L (pid :: R) s' ∧ processes (px_inner s) !! pid = None ∧
      (∃ pp, assign (pid_pool (px_inner s)) = Done (pid, pp)) ∧
      ∃ id tp, assign (tid_pool (px_inner s)) = Done (id, tp) ∧ executed pid id pu tu s s'
  | Panic r => ∃ d : Thread LTUD,
      ProcessStateMachine_new m d (resolve_extrinsic (px_inner s)) = Panic r
  | NoFuel => False
  end.
Proof.
  intros [Hb Hcore] (Htid & Hpid & Hmem). unfold px_execute.
  set (pud := {| lp_external_user_data := pu; lp_extrinsics := ext_default; strong_count := 2 |}).
  set (tud := {| state := ReadyToRun; lt_external_user_data := Some tu |}).
  destruct (execute_cases (px_inner s) m pud tud) as (id & tp & Ht & Hex). cbv zeta in Hex.
  pose proof (execute_sound (px_inner s) m pud tud (pc_coll _ _ _ _ _ Hcore)) as (id' & tp' & Ht' & Hsnd).
  rewrite Ht in Ht'. injection Ht' as <- <-.
  unfold borrow_mut, on_inner, zoom, mbind, M_bind, get, put, modify. rewrite Hb. simpl.
  destruct (ProcessStateMachine_new m _ _) as [[e|vm]|r|] eqn:Hnew; [| | |done].
  - rewrite Hex. simpl. split_and!; try done. split; [done|]. by apply core_pool.
  - destruct Hex as (pid & pp & Hp & Hex). rewrite Hex in Hsnd |- *. simpl.
    destruct Hsnd as (Hok' & Hsame & _ & _ & p & Hfresh & Hps).
    specialize (Hpid _ _ Hp). destruct (Htid _ _ Ht) as [Hq Hids].
    assert (Hpvm : p = {| state_machine := vm; pr_user_data := pud |}).
    { assert (Hl : <[pid := p]> (processes (px_inner s)) !! pid = Some p) by apply lookup_insert_eq.
      rewrite <-Hps in Hl. unfold set_process in Hl. simpl in Hl. rewrite lookup_insert_eq in Hl. by injection Hl. }
    destruct (view_new _ _ _ _ Hps) as [Hlook Hpl].
    split_and!; [split; [done|]|done|by eauto|].
    + eapply core_execute_sound; try done. subst p. by eapply Hmem.
    + exists id, tp. split; [done|]. split_and!; [done|..].
      * intros h. unfold ud. simpl. rewrite Hlook.
        destruct Hfresh as (_ & t & Hth & Hdt). case_decide; [|done]. rewrite Hth.
        destruct h as [? [|j]]; simpl; [by rewrite Hdt|done].
      * intros pid'. simpl. rewrite Hpl.
        destruct Hfresh as [Hpud _]. case_decide; [|done]. simpl. by rewrite Hpud.
  - rewrite Hex. simpl. by eexists.
Qed.

End life.
