(* ===== verification/Ipc.v ===== *)
(** Inter-process communications ([core/src/scheduler/ipc.rs]).

    A [Core] runs processes, routes the messages that they emit to the handler
    of the interface, and the answers back to the emitter.

    The loops that draw message identifiers until an unused one comes, and
    those that run until there is an event, take fuel.  The [RefCell]s of
    [Core] and of [Process] are their contents.  Messages are encoded by the
    caller ([message.encode()]). *)
From S2P Require Import Prelude IdPool WasmValue Ffi Calls Vm ExtrinsicsApi Processes Extrinsics.

Section ipc.
Context `{Rng} `{Wasmi} `{!HashIter Z} `{!HashIter (list Init.Byte.byte)} `{Extrinsics}.

Inductive CoreRunOutcome :=
  | ProgramFinished (pid : Pid) (unhandled_messages cancelled_messages : list MessageId)
      (unregistered_interfaces : list InterfaceHash) (outcome : wasmi_Trap + option WasmValue)
  | ThreadWaitUnavailableInterface (thread_id : ThreadId) (interface : InterfaceHash)
  | ReservedPidInterfaceMessage (pid : Pid) (message_id : option MessageId)
      (interface : InterfaceHash) (message : EncodedMessage)
  | MessageResponse (message_id : MessageId) (response : unit + EncodedMessage)
  | CoreIdle.

Inductive InterfaceState :=
  | Is_Process (pid : Pid)
  | Is_Requested (threads : list ThreadId)
      (other : list (Pid * option MessageId * EncodedMessage)).

(** [struct Process]; a set is a map to [unit]. *)
Record IpcProcess := {
  notifications_queue : list NotificationBuilder;
  registered_interfaces : list InterfaceHash;
  used_interfaces : gmap InterfaceHash unit;
  emitted_messages : list MessageId;
  pr_messages_to_answer : list MessageId;
}.

Abbreviation PX := (ProcessesCollectionExtrinsics (TPud := IpcProcess) (TTud := unit)).
Abbreviation thread_lock := (ThreadLock (TTud := unit)).

Record Core := {
  pending_events : list CoreRunOutcome;
  core_processes : PX;
  reserved_pids : gset Pid;
  interfaces : gmap InterfaceHash InterfaceState;
  message_id_pool : IdPool;
  messages_to_answer : gmap MessageId Pid;
}.

Definition with_events (l : list CoreRunOutcome) (c : Core) : Core :=
  {| pending_events := l; core_processes := core_processes c; reserved_pids := reserved_pids c;
     interfaces := interfaces c; message_id_pool := message_id_pool c;
     messages_to_answer := messages_to_answer c |}.
Definition with_px (px : PX) (c : Core) : Core :=
  {| pending_events := pending_events c; core_processes := px; reserved_pids := reserved_pids c;
     interfaces := interfaces c; message_id_pool := message_id_pool c;
     messages_to_answer := messages_to_answer c |}.
Definition with_interfaces (m : gmap InterfaceHash InterfaceState) (c : Core) : Core :=
  {| pending_events := pending_events c; core_processes := core_processes c;
     reserved_pids := reserved_pids c; interfaces := m; message_id_pool := message_id_pool c;
     messages_to_answer := messages_to_answer c |}.
Definition with_message_pool (p : IdPool) (c : Core) : Core :=
  {| pending_events := pending_events c; core_processes := core_processes c;
     reserved_pids := reserved_pids c; interfaces := interfaces c; message_id_pool := p;
     messages_to_answer := messages_to_answer c |}.
Definition with_messages (m : gmap MessageId Pid) (c : Core) : Core :=
  {| pending_events := pending_events c; core_processes := core_processes c;
     reserved_pids := reserved_pids c; interfaces := interfaces c;
     message_id_pool := message_id_pool c; messages_to_answer := m |}.

Definition with_notifications (l : list NotificationBuilder) (p : IpcProcess) : IpcProcess :=
  {| notifications_queue := l; registered_interfaces := registered_interfaces p;
     used_interfaces := used_interfaces p; emitted_messages := emitted_messages p;
     pr_messages_to_answer := pr_messages_to_answer p |}.
Definition with_used (m : gmap InterfaceHash unit) (p : IpcProcess) : IpcProcess :=
  {| notifications_queue := notifications_queue p;
     registered_interfaces := registered_interfaces p;
     used_interfaces := m; emitted_messages := emitted_messages p;
     pr_messages_to_answer := pr_messages_to_answer p |}.
Definition with_emitted (l : list MessageId) (p : IpcProcess) : IpcProcess :=
  {| notifications_queue := notifications_queue p;
     registered_interfaces := registered_interfaces p;
     used_interfaces := used_interfaces p; emitted_messages := l;
     pr_messages_to_answer := pr_messages_to_answer p |}.

Definition on_px {A} (m : M PX A) : M Core A := zoom core_processes with_px m.

(** [process.user_data().borrow_mut()], and a write through it. *)
Definition modify_process (pid : Pid) (f : IpcProcess → IpcProcess) : M PX unit :=
  s ← get;
  p ← liftM (px_user_data s pid);
  px_set_user_data pid (f p).

Definition push_notification (pid : Pid) (n : NotificationBuilder) : M PX unit :=
  modify_process pid (λ p, with_notifications (notifications_queue p ++ [n]) p).

(** * Delivering notifications *)

(** The value that must be in the list of identifiers for a match. *)
Definition notification_msg_id (n : NotificationBuilder) : outcome MessageId :=
  match n with
  | NbInterface _ => Done 1
  | NbProcessDestroyed _ => Done 1
  | NbResponse response =>
      id ← response_message_id response;
      _ ← debug_assert (bool_decide (2 ≤ id));
      Done id
  end.

(** [iter.position(|id| id == msg_id)]. *)
Definition position (ids : list MessageId) (msg_id : MessageId) : option nat :=
  fst <$> list_find (λ id, id = msg_id) ids.

(** The [loop] of [try_resume_notification_wait_thread]: the index in the
    queue and the index in the list of the thread. *)
Fixpoint find_notification (t : thread_lock) (rest : list NotificationBuilder)
    (index_in_queue : nat) : M PX (option (nat * nat)) :=
  match rest with
  | [] => mret None
  | n :: rest =>
      msg_id ← liftM (notification_msg_id n);
      ids ← message_ids_iter t;
      match position ids msg_id with
      | Some p => mret (Some (index_in_queue, p))
      | None => find_notification t rest (S index_in_queue)
      end
  end.

Definition try_resume_notification_wait_thread (thread : thread_lock) : M PX unit :=
  s ← get;
  p ← liftM (lock_process_user_data s thread);
  let queue := notifications_queue p in
  found ← find_notification thread queue 0;
  match found with
  | None =>
      b ← lock_block thread;
      if negb b then resume_no_notification thread else drop_thread thread
  | Some (index_in_queue, index_in_msg_ids) =>
      notif ← liftM (Prelude.index queue index_in_queue);
      let notif_length := notification_len notif in
      allowed ← allowed_notification_size thread;
      if bool_decide (Z.of_nat notif_length ≤ allowed) then
        _ ← modify_process (tl_pid thread) (with_notifications (delete index_in_queue queue));
        index_u32 ← liftM (unwrap (u32_try_from (Z.of_nat index_in_msg_ids)));
        notification ← liftM (set_index_in_list notif index_u32);
        resume_notification thread index_in_msg_ids (notification_into_bytes notification)
      else resume_notification_too_big thread notif_length
  end.

(** Takes the process handle by value. *)
Definition try_resume_notification_wait (process : Pid) : M PX unit :=
  tids ← interrupted_threads process;
  _ ← for_each (λ tid,
        t ← next_interrupted tid;
        match t with
        | Some (Th_WaitNotification t) => try_resume_notification_wait_thread t
        | Some (Th_EmitMessage t) => drop_thread t
        | None => mret tt
        end) tids;
  drop_proc process.

(** Queues a notification for process [pid], if it exists, and wakes up its
    threads: what [run_inner], [answer_message_inner] and
    [emit_interface_message_inner] do with a notification.  Tells whether the
    process exists. *)
Definition notify_process (pid : Pid) (n : NotificationBuilder) : M PX bool :=
  p ← px_process_by_id pid;
  match p with
  | Some process =>
      _ ← push_notification process n;
      _ ← try_resume_notification_wait process;
      mret true
  | None => mret false
  end.

(** * Message identifiers *)

(** [loop { .. }] around [self.message_id_pool.assign()]. *)
Fixpoint choose_message_id (fuel : nat) : M Core MessageId :=
  match fuel with
  | O => λ _, NoFuel
  | S fuel =>
      id ← zoom message_id_pool with_message_pool assign;
      if bool_decide (id = 0 ∨ id = 1) then choose_message_id fuel else
      c ← get;
      match messages_to_answer c !! id with
      | Some _ => choose_message_id fuel
      | None => mret id
      end
  end.

Definition record_message (id : MessageId) (emitter_pid : Pid) : M Core unit :=
  modify (λ c, with_messages (<[id := emitter_pid]> (messages_to_answer c)) c).

(** The identifier of a message of thread [t], recorded as emitted by
    [emitter_pid], if [t] wants an answer. *)
Definition message_id_for (fuel : nat) (t : thread_lock) (emitter_pid : Pid) :
    M Core (option MessageId) :=
  n ← on_px (needs_answer t);
  if n : bool then
    id ← choose_message_id fuel;
    _ ← record_message id emitter_pid;
    mret (Some id)
  else mret None.

(** * Answering *)

Definition answer_message_inner (message_id : MessageId) (response : unit + EncodedMessage) :
    M Core (option CoreRunOutcome) :=
  c ← get;
  match messages_to_answer c !! message_id with
  | Some emitter_pid =>
      _ ← put (with_messages (delete message_id (messages_to_answer c)) c);
      process ← on_px (px_process_by_id emitter_pid);
      match process with
      | Some process =>
          let notif := NbResponse (build_response_notification message_id 0 response) in
          _ ← on_px (push_notification process notif);
          _ ← on_px (modify_process process (λ p,
                with_emitted (filter (λ m, m ≠ message_id) (emitted_messages p)) p));
          _ ← on_px (try_resume_notification_wait process);
          mret None
      | None => mret (Some (MessageResponse message_id response))
      end
  | None => mret None
  end.

Definition answer_message (message_id : MessageId) (response : unit + EncodedMessage) :
    M Core unit :=
  _ ← answer_message_inner message_id response; mret tt.

(** * Running *)

(** [for interface in user_data.registered_interfaces]. *)
Definition unregister_interfaces (pid : Pid) (l : list InterfaceHash) : M Core unit :=
  for_each (λ interface,
    c ← get;
    _ ← put (with_interfaces (delete interface (interfaces c)) c);
    liftM (debug_assert (match interfaces c !! interface with
                         | Some (Is_Process p) => bool_decide (p = pid)
                         | _ => false
                         end))) l.

(** [for emitted_message in user_data.emitted_messages]. *)
Definition cancel_emitted (pid : Pid) (l : list MessageId) : M Core unit :=
  for_each (λ m,
    c ← get;
    _ ← put (with_messages (delete m (messages_to_answer c)) c);
    liftM (debug_assert (bool_decide (messages_to_answer c !! m = Some pid)))) l.

(** [for interface in user_data.used_interfaces]. *)
Definition notify_used (pid : Pid) (l : list InterfaceHash) : M Core unit :=
  for_each (λ interface,
    c ← get;
    match interfaces c !! interface with
    | Some (Is_Process p) =>
        _ ← on_px (notify_process p
              (NbProcessDestroyed (build_process_destroyed_notification pid 0)));
        mret tt
    | None => panic PUnreachable
    | _ => mret tt
    end) l.

(** The [ProcessFinished] event. *)
Definition process_finished (pid : Pid) (user_data : IpcProcess)
    (outcome : wasmi_Trap + option WasmValue) : M Core (option CoreRunOutcome) :=
  _ ← unregister_interfaces pid (registered_interfaces user_data);
  _ ← cancel_emitted pid (emitted_messages user_data);
  _ ← notify_used pid (hash_iter (used_interfaces user_data)).*1;
  mret (Some (ProgramFinished pid (pr_messages_to_answer user_data)
    (emitted_messages user_data) (registered_interfaces user_data) outcome)).

(** The [ThreadEmitMessage] event, when the interface is registered. *)
Definition deliver_emit (fuel : nat) (thread : thread_lock) (emitter_pid : Pid)
    (interface : InterfaceHash) (pid : Pid) : M Core (option CoreRunOutcome) :=
  message_id ← message_id_for fuel thread emitter_pid;
  message ← on_px (accept_emit thread message_id);
  delivered ← on_px (notify_process pid
    (NbInterface (build_interface_notification interface message_id emitter_pid 0 message)));
  if delivered : bool then mret None else
  c ← get;
  if bool_decide (pid ∈ reserved_pids c)
  then mret (Some (ReservedPidInterfaceMessage emitter_pid message_id interface message))
  else mret None.

Definition thread_emit_message (fuel : nat) (thread : thread_lock) :
    M Core (option CoreRunOutcome) :=
  emitter_pid ← on_px (lock_pid thread);
  interface ← on_px (emit_interface thread);
  _ ← on_px (modify_process (tl_pid thread) (λ p,
        with_used (<[interface := tt]> (used_interfaces p)) p));
  c ← get;
  delay ← on_px (allow_delay thread);
  match interfaces c !! interface, delay with
  | Some (Is_Process pid), _ => deliver_emit fuel thread emitter_pid interface pid
  | None, false | Some (Is_Requested _ _), false =>
      _ ← on_px (refuse_emit thread);
      mret None
  | Some (Is_Requested threads other), true =>
      _ ← modify (λ c, with_interfaces
            (<[interface := Is_Requested (threads ++ [tl_tid thread]) other]> (interfaces c)) c);
      _ ← on_px (drop_thread thread);
      mret (Some (ThreadWaitUnavailableInterface (tl_tid thread) interface))
  | None, true =>
      _ ← modify (λ c, with_interfaces
            (<[interface := Is_Requested [tl_tid thread] []]> (interfaces c)) c);
      _ ← on_px (drop_thread thread);
      mret (Some (ThreadWaitUnavailableInterface (tl_tid thread) interface))
  end.

(** The events of [self.processes.run()]. *)
Definition handle_event (fuel : nat)
    (ev : PxRunOneOutcome (TPud := IpcProcess) (TTud := unit)) : M Core (option CoreRunOutcome) :=
  match ev with
  | Px_ProcessFinished pid user_data dead_threads outcome =>
      process_finished pid user_data outcome
  | Px_ThreadFinished _ process _ _ => _ ← on_px (drop_proc process); mret None
  | Px_ThreadWaitNotification thread =>
      _ ← on_px (try_resume_notification_wait_thread thread); mret None
  | Px_ThreadEmitMessage thread => thread_emit_message fuel thread
  | Px_ThreadEmitAnswer _ process message_id response =>
      _ ← on_px (drop_proc process);
      answer_message_inner message_id (inr response)
  | Px_ThreadEmitMessageError _ process message_id =>
      _ ← on_px (drop_proc process);
      answer_message_inner message_id (inl tt)
  | Px_ThreadCancelMessage _ process message_id =>
      _ ← on_px (drop_proc process);
      _ ← modify (λ c, with_messages (delete message_id (messages_to_answer c)) c);
      mret None
  | Px_Idle => mret (Some CoreIdle)
  end.

Definition run_inner (fuel : nat) : M Core (option CoreRunOutcome) :=
  c ← get;
  match pending_events c with
  | ev :: rest => _ ← put (with_events rest c); mret (Some ev)
  | [] =>
      ev ← on_px (px_run fuel);
      handle_event fuel ev
  end.

(** [run]: calls [run_inner] until it reports an event. *)
Fixpoint core_run (fuel : nat) : M Core CoreRunOutcome :=
  match fuel with
  | O => λ _, NoFuel
  | S fuel =>
      ev ← run_inner fuel;
      match ev with
      | Some ev => mret ev
      | None => core_run fuel
      end
  end.

(** * Interfaces *)

(** [self.processes.process_by_id(process).is_none()], negated. *)
Definition process_exists (pid : Pid) : M PX bool :=
  p ← px_process_by_id pid;
  match p with Some p => _ ← drop_proc p; mret true | None => mret false end.

(** One message of [other_messages]. *)
Definition send_other (interface : InterfaceHash) (process : Pid)
    (m : Pid * option MessageId * EncodedMessage) : M Core unit :=
  let '(emitter_pid, message_id, message_data) := m in
  let notif := NbInterface
    (build_interface_notification interface message_id emitter_pid 0 message_data) in
  p ← on_px (px_process_by_id process);
  match p with
  | Some p => _ ← on_px (push_notification p notif); on_px (drop_proc p)
  | None => panic PUnreachable
  end.

(** One thread that was waiting for the interface to be registered. *)
Definition accept_waiting (fuel : nat) (interface : InterfaceHash) (process : Pid)
    (thread_id : ThreadId) : M Core unit :=
  r ← on_px (interrupted_thread_by_id thread_id);
  match r with
  | inr (Th_EmitMessage thread) =>
      i ← on_px (emit_interface thread);
      _ ← liftM (debug_assert (bool_decide (i = interface)));
      emitter_pid ← on_px (lock_pid thread);
      message_id ← message_id_for fuel thread emitter_pid;
      message ← on_px (accept_emit thread message_id);
      p ← on_px (px_process_by_id process);
      match p with
      | Some p =>
          _ ← on_px (push_notification p (NbInterface
                (build_interface_notification interface message_id emitter_pid 0 message)));
          on_px (drop_proc p)
      | None =>
          c ← get;
          _ ← liftM (debug_assert (bool_decide (process ∈ reserved_pids c)));
          modify (λ c, with_events (pending_events c
            ++ [ReservedPidInterfaceMessage emitter_pid message_id interface message]) c)
      end
  | _ => panic PUnreachable
  end.

Definition set_interface_handler (fuel : nat) (interface : InterfaceHash) (process : Pid) :
    M Core (unit + unit) :=
  exists_ ← on_px (process_exists process);
  c ← get;
  let reserved := bool_decide (process ∈ reserved_pids c) in
  if negb exists_ && negb reserved then mret (inl tt) else
  _ ← liftM (debug_assert (negb exists_ || negb reserved));
  match interfaces c !! interface with
  | None =>
      _ ← put (with_interfaces (<[interface := Is_Process process]> (interfaces c)) c);
      mret (inr tt)
  | Some (Is_Process _) => mret (inl tt)
  | Some (Is_Requested thread_ids other_messages) =>
      _ ← put (with_interfaces (<[interface := Is_Process process]> (interfaces c)) c);
      _ ← for_each (send_other interface process) other_messages;
      _ ← for_each (accept_waiting fuel interface process) thread_ids;
      p ← on_px (px_process_by_id process);
      _ ← match p with
          | Some p => on_px (try_resume_notification_wait p)
          | None => mret tt
          end;
      mret (inr tt)
  end.

(** * Messages from the outside *)

Definition emit_interface_message_inner (fuel : nat) (emitter_pid : Pid)
    (interface : InterfaceHash) (message : EncodedMessage) (needs_answer : bool) :
    M Core (option MessageId) :=
  message_id ← (if needs_answer then (id ← choose_message_id fuel; mret (Some id)) else mret None);
  c ← get;
  match default (Is_Requested [] []) (interfaces c !! interface) with
  | Is_Requested threads other =>
      _ ← put (with_interfaces (<[interface :=
            Is_Requested threads (other ++ [(emitter_pid, message_id, message)])]>
            (interfaces c)) c);
      mret message_id
  | Is_Process pid =>
      delivered ← on_px (notify_process pid
        (NbInterface (build_interface_notification interface message_id emitter_pid 0 message)));
      _ ← (if delivered : bool then mret tt else
           c ← get;
           if bool_decide (emitter_pid ∈ reserved_pids c)
           then modify (λ c, with_events (pending_events c
                  ++ [ReservedPidInterfaceMessage emitter_pid None interface message]) c)
           else panic PUnimplemented);
      _ ← match message_id with
          | Some id => record_message id emitter_pid
          | None => mret tt
          end;
      mret message_id
  end.

Definition emit_interface_message_no_answer (fuel : nat) (emitter_pid : Pid)
    (interface : InterfaceHash) (message : EncodedMessage) : M Core unit :=
  c ← get;
  _ ← liftM (assert_ (bool_decide (emitter_pid ∈ reserved_pids c)));
  out ← emit_interface_message_inner fuel emitter_pid interface message false;
  liftM (debug_assert (bool_decide (out = None))).

Definition emit_interface_message_answer (fuel : nat) (emitter_pid : Pid)
    (interface : InterfaceHash) (message : EncodedMessage) : M Core MessageId :=
  c ← get;
  _ ← liftM (assert_ (bool_decide (emitter_pid ∈ reserved_pids c)));
  out ← emit_interface_message_inner fuel emitter_pid interface message true;
  liftM (or_unreachable out).

Definition core_cancel_message (message_id : MessageId) : M Core unit := panic PUnimplemented.

(** * Processes *)

Definition core_process_by_id (pid : Pid) : M Core (option Pid) := on_px (px_process_by_id pid).

Definition core_execute (module : wasmi_Module) : M Core (NewErr + Pid) :=
  let proc_metadata := {| notifications_queue := []; registered_interfaces := [];
    used_interfaces := ∅; emitted_messages := []; pr_messages_to_answer := [] |} in
  on_px (px_execute module proc_metadata tt).

(** [CoreProcess::start_thread] takes the handle by value. *)
Definition core_start_thread (pid : Pid) (fn_index : Z) (params : list WasmValue) :
    M Core (StartErr + unit) :=
  r ← on_px (px_start_thread pid fn_index params tt);
  _ ← on_px (drop_proc pid);
  mret r.

Definition core_abort (pid : Pid) : M Core unit := on_px (px_abort pid).

(** * Builder *)

Record CoreBuilder := {
  cb_reserved_pids : gset Pid;
  inner_builder : ProcessesCollectionBuilder Extrinsic;
}.

Definition Core_new : outcome CoreBuilder :=
  inner ← px_builder_default;
  Done {| cb_reserved_pids := ∅; inner_builder := inner |}.

Definition core_reserve_pid : M CoreBuilder Pid :=
  pid ← zoom inner_builder (λ i b, {| cb_reserved_pids := cb_reserved_pids b;
                                       inner_builder := i |}) px_reserve_pid;
  b ← get;
  _ ← put {| cb_reserved_pids := {[ pid ]} ∪ cb_reserved_pids b;
             inner_builder := inner_builder b |};
  _ ← liftM (debug_assert (bool_decide (pid ∉ cb_reserved_pids b)));
  mret pid.

Definition core_build (b : CoreBuilder) : outcome Core :=
  px ← px_build (inner_builder b);
  Done {| pending_events := []; core_processes := px; reserved_pids := cb_reserved_pids b;
          interfaces := ∅; message_id_pool := IdPool_new; messages_to_answer := ∅ |}.

End ipc.
