(* ===== verification/IpcInv.v ===== *)
(** Soundness of inter-process communications. *)
From S2P Require Import Prelude IdPool WasmValue Ffi Calls Vm ExtrinsicsApi Processes.
From S2P Require Import ProcessesFrame Extrinsics ExtrinsicsInv ExtrinsicsLocks ExtrinsicsMemory Ipc.

Section ids.
Context `{Rng} `{!RngLaws} `{Wasmi} `{!HashIter Z} `{!HashIter (list Init.Byte.byte)} `{Extrinsics}.

(** * Message identifiers *)

(** An identifier that can be given to a message: not one of the two reserved
    values, and not that of a message that waits for its answer. *)
Definition usable (m : gmap MessageId Pid) (id : MessageId) : bool :=
  bool_decide (id ≠ 0 ∧ id ≠ 1 ∧ m !! id = None).

Lemma choose_step fuel (c : Core) id p' :
  assign (message_id_pool c) = Done (id, p') →
  choose_message_id (S fuel) c =
    if usable (messages_to_answer c) id then Done (id, with_message_pool p' c)
    else choose_message_id fuel (with_message_pool p' c).
Proof.
  intros Ha. cbn [choose_message_id]. unfold mbind, M_bind, zoom, get, usable. rewrite Ha.
  case_bool_decide as H01.
  - rewrite bool_decide_false by naive_solver. done.
  - simpl. destruct (messages_to_answer c !! id) eqn:Hm.
    + rewrite bool_decide_false by naive_solver. done.
    + rewrite bool_decide_true by naive_solver. done.
Qed.

(** [id] is the first identifier of the pool that can be given to a message,
    and [pool'] is the pool once it is drawn. *)
Definition first_usable (c : Core) (id : MessageId) (pool' : IdPool) : Prop :=
  ∃ ids, assign_n (S (length ids)) (message_id_pool c) = Done (ids ++ [id], pool') ∧
    Forall (λ id, usable (messages_to_answer c) id = false) ids ∧
    usable (messages_to_answer c) id = true.

(** Every identifier that [fuel] draws of the pool give is unusable. *)
Definition starved fuel (c : Core) : Prop :=
  ∃ ids pool, assign_n fuel (message_id_pool c) = Done (ids, pool) ∧
    Forall (λ id, usable (messages_to_answer c) id = false) ids.

(** The identifier that is chosen, and what choosing it changes. *)
Lemma choose_message_id_sound fuel (c : Core) :
  pool_ok (message_id_pool c) →
  wlp (starved fuel c) no_panic (choose_message_id fuel c) (λ '(id, c'),
    ∃ pool', first_usable c id pool' ∧ is_u64 id ∧ pool_ok pool' ∧ c' = with_message_pool pool' c).
Proof.
  revert c. induction fuel as [|fuel IH]; intros c Hp.
  { simpl. eexists [], _. split; [done|]. constructor. }
  destruct (assign_total (message_id_pool c)) as (id & p' & Ha).
  rewrite (choose_step _ _ _ _ Ha). unfold starved. cbn [assign_n]. unfold mbind, M_bind. rewrite Ha.
  pose proof (assign_ok _ _ _ Ha Hp) as Hp'. pose proof (assign_range _ _ _ Ha Hp) as Hr.
  destruct (usable (messages_to_answer c) id) eqn:Hu.
  - exists p'. split_and!; try done.
    + exists []. cbn [assign_n length]. unfold mbind, M_bind. by rewrite Ha.
    + unfold is_u64. unfold u64_max in Hr. lia.
  - specialize (IH (with_message_pool p' c) Hp').
    destruct (choose_message_id fuel (with_message_pool p' c)) as [[id' c']|r|]; [|done|]; simpl in *.
    + destruct IH as (p'' & (ids & Hids & Hall & Hu') & ? & ? & ->). exists p''. split_and!; try done.
      exists (id :: ids). split_and!; [|by constructor|done].
      change (length (id :: ids)) with (S (length ids)).
      remember (S (length ids)) as k eqn:Hk. cbn [assign_n]. unfold mbind, M_bind. rewrite Ha.
      simpl in Hids. by rewrite Hids.
    + destruct IH as (ids & p & Hids & Hall). simpl in Hids. rewrite Hids.
      eexists (id :: ids), _. split; [done|]. by constructor.
Qed.

(** The identifier given to a message is the first one of the pool that
    is none of the reserved values 0 and 1 nor that of a message still waiting
    for its answer, and drawing it changes nothing but the pool; the loop ends
    as soon as the pool gives such an identifier: it runs out of fuel only if
    every identifier drawn so far is unusable. *)
Theorem choose_message_id_ok fuel (c : Core) :
  pool_ok (message_id_pool c) →
  wlp (starved fuel c) no_panic (choose_message_id fuel c) (λ '(id, c'),
    ∃ pool', first_usable c id pool' ∧ is_u64 id ∧ pool_ok pool' ∧ c' = with_message_pool pool' c).
Proof. apply choose_message_id_sound. Qed.

End ids.

Section delivery.
Context `{Rng} `{Wasmi} `{!HashIter Z} `{!HashIter (list Init.Byte.byte)} `{Extrinsics}.
Context `{!WasmiLaws} `{!WasmiMemoryLaws} `{!ExtrinsicsLaws}.
Local Abbreviation PX := (ProcessesCollectionExtrinsics (TPud := IpcProcess) (TTud := unit)).
Local Abbreviation thread_lock := (ThreadLock (TTud := unit)).
Implicit Types (s : PX) (t : thread_lock) (L : list thread_lock) (R : list Pid)
  (n : NotificationBuilder) (ids : list MessageId)
  (d : Thread (LocalThreadUserData (TTud := unit))).

(** * Delivering notifications *)

(** A notification that the kernel built. *)
Definition notif_ok n : Prop :=
  match n with
  | NbInterface b => ∃ hash mid pid i data,
      b = build_interface_notification hash mid pid i data ∧ is_hash hash
  | NbResponse b => ∃ mid i data, b = build_response_notification mid i data ∧ is_u64 mid ∧ 2 ≤ mid
  | NbProcessDestroyed b => ∃ pid i, b = build_process_destroyed_notification pid i
  end.

(** The identifier that a thread must wait for to receive [n]. *)
Definition notif_id n : MessageId :=
  match notification_msg_id n with Done id => id | _ => 0 end.

Lemma notif_id_ok n : notif_ok n → notification_msg_id n = Done (notif_id n).
Proof.
  unfold notif_id, notification_msg_id. destruct n as [|b|]; [done| |done].
  intros (mid & i & data & -> & Hu & Hge). rewrite response_message_id_build by done. simpl.
  by rewrite bool_decide_true.
Qed.

(** Filling the index of a notification keeps its length. *)
Lemma set_index_ok n idx :
  notif_ok n → ∃ n', set_index_in_list n idx = Done n' ∧
    length (notification_into_bytes n') = notification_len n.
Proof.
  destruct n as [b|b|b]; simpl.
  - intros (hash & mid & pid & i & data & -> & Hh). rewrite set_index_interface by done. simpl.
    eexists. split; [done|]. simpl. by rewrite !length_app, !length_u32_le.
  - intros (mid & i & data & -> & _). rewrite set_index_response. simpl.
    eexists. split; [done|]. simpl. by rewrite !length_app, !length_u32_le.
  - intros (pid & i & ->). rewrite set_index_destroyed. simpl.
    eexists. split; [done|]. simpl. by rewrite !length_app, !length_u32_le.
Qed.

(** The reference: the first notification of the queue whose identifier the
    thread waits for, with its position and the first position of its
    identifier in the thread's list. *)
Definition first_match ids (queue : list NotificationBuilder) : option (nat * nat) :=
  '(i, n) ← list_find (λ n, notif_id n ∈ ids) queue;
  p ← position ids (notif_id n);
  Some (i, p).

Lemma position_Some ids id p : position ids id = Some p → ids !! p = Some id.
Proof.
  unfold position. intros Hp. apply fmap_Some in Hp as ([j x] & Hfind & ->).
  apply list_find_Some in Hfind as (? & -> & _). done.
Qed.

Lemma position_is_Some ids id : is_Some (position ids id) ↔ id ∈ ids.
Proof.
  unfold position. rewrite fmap_is_Some. split.
  - intros [[j x] (Hj & -> & _)%list_find_Some]. by eapply list_elem_of_lookup_2.
  - intros Hin. by apply (list_find_elem_of _ _ id).
Qed.

Lemma message_ids_iter_ok t L R s ids :
  px_ok (t :: L) R s → lock_state (px_inner s) t (λ st, is_waiting st ∧ st_ids st = ids) →
  message_ids_iter t s = Done (ids, s).
Proof.
  intros Hok (h & d & Hd & Hid & Hw & Hids). eapply peek_state_ok; [done|].
  exists h, d. split_and!; try done. destruct (state (th_user_data d)); try done; by rewrite <-Hids.
Qed.

(** The loop finds the reference's match. *)
Lemma find_notification_ok t L R s ids rest k :
  px_ok (t :: L) R s → lock_state (px_inner s) t (λ st, is_waiting st ∧ st_ids st = ids) →
  Forall notif_ok rest →
  find_notification t rest k s = Done (prod_map (Nat.add k) id <$> first_match ids rest, s).
Proof.
  intros Hok Hls Hrest. revert k. induction Hrest as [|n rest Hn _ IH]; intros k; [done|].
  cbn [find_notification]. unfold mbind, M_bind, liftM. rewrite (notif_id_ok _ Hn).
  rewrite (message_ids_iter_ok _ _ _ _ _ Hok Hls). unfold first_match. cbn [list_find].
  destruct (decide (notif_id n ∈ ids)) as [Hin|Hnin].
  - simpl. destruct (proj2 (position_is_Some ids (notif_id n)) Hin) as [p Hp]. rewrite Hp.
    simpl. by rewrite Nat.add_0_r.
  - destruct (position ids (notif_id n)) as [p|] eqn:Hp.
    { destruct Hnin. apply position_is_Some. by eexists. }
    rewrite IH. unfold first_match. simpl. destruct (list_find _ rest) as [[j m]|]; [|done]. simpl.
    destruct (position ids (notif_id m)); [|done]. simpl. by rewrite Nat.add_succ_r.
Qed.

(** ** The data of the processes *)

Definition proc_of s (pid : Pid) : option IpcProcess := lp_external_user_data <$> pl (px_inner s) pid.

(** No process was created. *)
Definition no_new s s' : Prop := ∀ pid, proc_of s pid = None → proc_of s' pid = None.

#[global] Instance no_new_preorder : PreOrder no_new.
Proof. split; [by intros s pid|]. intros s1 s2 s3 H12 H23 pid Hpid. by apply H23, H12. Qed.

Lemma no_new_proc s s' : (∀ pid, proc_of s' pid = proc_of s pid) → no_new s s'.
Proof. intros Hp pid. by rewrite Hp. Qed.

(** The operations that change the data of one process only. *)
Lemma modify_process_sound L R s pid p f :
  px_ok L R s → proc_of s pid = Some p →
  wp no_panic (modify_process pid f s) (λ '(_, s'), px_ok L R s' ∧
    local_run_queue s' = local_run_queue s ∧ frame (px_inner s) (px_inner s') ∧
    (∀ h, ud (px_inner s') h = ud (px_inner s) h) ∧
    ∀ pid', proc_of s' pid' = if decide (pid' = pid) then Some (f p) else proc_of s pid').
Proof.
  intros Hok Hp. unfold proc_of in Hp. destruct (pl (px_inner s) pid) as [x|] eqn:Hx; [|done].
  injection Hp as Hp. unfold modify_process. do 2 apply wp_Mbind. simpl. apply wp_liftM.
  rewrite (px_user_data_ok _ _ _ Hx). simpl.
  eapply wp_mono; [by eapply px_set_user_data_sound|].
  intros [u s'] (? & ? & ? & ? & Hpl). split_and!; try done.
  intros pid'. unfold proc_of. rewrite Hpl, Hp. by case_decide.
Qed.

Lemma same_but_locks_proc s s' pid :
  same_but_locks (px_inner s) (px_inner s') → proc_of s' pid = proc_of s pid.
Proof. intros (_ & _ & Hp). apply Hp. Qed.

(** The thread of lock [t] went from [d] to [d'], the other threads are as
    they were. *)
Definition thread_change s t d d' s' : Prop :=
  frame (px_inner s) (px_inner s') ∧
  ∃ h, ud (px_inner s) h = Some d ∧ thread_id d = tl_tid t ∧ thread_id d' = tl_tid t ∧
    ∀ h', ud (px_inner s') h' = if decide (h' = h) then Some d' else ud (px_inner s) h'.

#[global] Instance st_fits_dec st size : Decision (st_fits st size).
Proof. destruct st; simpl; apply _. Defined.

(** What delivering from [queue] to a thread in state [d] that waits for [ids]
    leaves: the thread's data [d'], the queue [queue'], and the list of
    threads with an action to apply. *)
Definition delivered ids queue d d' queue' (rq rq' : list ThreadId) : Prop :=
  match first_match ids queue with
  | None => queue' = queue ∧ rq' = rq ∧
      if st_blocks (state (th_user_data d))
      then state (th_user_data d') = state (th_user_data d) ∧ value_back d' = value_back d
      else state (th_user_data d') = ReadyToRun ∧ value_back d' = Some (Some (I32 0))
  | Some (i, p) => ∃ n n', queue !! i = Some n ∧ set_index_in_list n (Z.of_nat p) = Done n' ∧
      if decide (st_fits (state (th_user_data d)) (Z.of_nat (notification_len n)))
      then queue' = delete i queue ∧
        notified (notification_into_bytes n') d d' rq rq'
      else queue' = queue ∧ rq' = rq ∧ state (th_user_data d') = ReadyToRun ∧
        value_back d' = Some (Some (I32 (Z.of_nat (notification_len n))))
  end.

Definition resume_post t L R s (p : IpcProcess) ids : unit * PX → Prop := λ '(_, s'),
  px_ok L R s' ∧ ∃ d d' queue', thread_change s t d d' s' ∧
    delivered ids (notifications_queue p) d d' queue' (local_run_queue s) (local_run_queue s') ∧
    ∀ pid, proc_of s' pid
      = if decide (pid = tl_pid t) then Some (with_notifications queue' p) else proc_of s pid.

Lemma with_notifications_same p : with_notifications (notifications_queue p) p = p.
Proof. by destruct p. Qed.

Lemma lock_change_thread s t d d' s' :
  lock_change (px_inner s) t d d' (px_inner s') → thread_change s t d d' s'.
Proof. intros (Hf & h & ? & ? & ? & Hu & _). split; [done|]. eauto 10. Qed.

Lemma lock_change_proc s t d d' s' pid :
  lock_change (px_inner s) t d d' (px_inner s') → proc_of s' pid = proc_of s pid.
Proof. intros (_ & h & _ & _ & _ & _ & Hp). apply Hp. Qed.

Lemma no_new_change s t d d' s' : lock_change (px_inner s) t d d' (px_inner s') → no_new s s'.
Proof. intros Hch. apply no_new_proc. intros pid. by eapply lock_change_proc. Qed.

(** The queue is unchanged when no notification is taken from it. *)
Lemma proc_unchanged s s' t p :
  proc_of s (tl_pid t) = Some p → (∀ pid, proc_of s' pid = proc_of s pid) →
  ∀ pid, proc_of s' pid = if decide (pid = tl_pid t)
    then Some (with_notifications (notifications_queue p) p) else proc_of s pid.
Proof.
  intros Hp Hs pid. rewrite Hs. case_decide; [|done]. subst. by rewrite with_notifications_same.
Qed.

Lemma lock_state_data s t d d' s' (S : LocalThreadState → Prop) :
  tids_inj (px_inner s) → lock_change (px_inner s) t d d' (px_inner s') →
  lock_state (px_inner s) t S → S (state (th_user_data d)).
Proof.
  intros Hinj (_ & h & Hd & Hid & _) (h0 & d0 & Hd0 & Hid0 & HS).
  assert (h0 = h) as -> by (eapply Hinj; [done|done|congruence]). by simplify_eq.
Qed.

Lemma block_ok t L R s b :
  px_ok (t :: L) R s → lock_state (px_inner s) t (λ st, is_waiting st ∧ st_blocks st = b) →
  lock_block t s = Done (b, s).
Proof.
  intros Hok (h & d & Hd & Hid & Hw & Hb). eapply peek_state_ok; [done|].
  exists h, d. split_and!; try done. destruct (state (th_user_data d)); try done; by rewrite <-Hb.
Qed.

(** No notification of the queue is one that the thread waits for. *)
Lemma deliver_none t L R s p ids st :
  px_ok (t :: L) R s → proc_of s (tl_pid t) = Some p → is_waiting st →
  lock_state (px_inner s) t (λ st', st' = st) → first_match ids (notifications_queue p) = None →
  wp notif_panics ((b ← lock_block t;
    if negb b then resume_no_notification t else drop_thread t) s) (resume_post t L R s p ids).
Proof.
  intros Hok Hp Hw Hls Hfm. pose proof Hls as (h & d & Hd & Hid & Hst).
  assert (Hl : ∀ S : LocalThreadState → Prop, S st → lock_state (px_inner s) t S).
  { intros S HS. exists h, d. by rewrite Hst. }
  apply wp_Mbind. rewrite (block_ok t L R s (st_blocks st)); [|done|by apply Hl]. simpl.
  destruct (st_blocks st) eqn:Hb; simpl.
  - eapply wp_mono; [apply (drop_lock_sound _ t L R); [done|apply Hl; by right]|].
    intros [[] s'] (Hok' & Hsame & Hq & d1 & Hch). split; [done|].
    eexists d1, _, _. split_and!; [by apply lock_change_thread| |].
    + unfold delivered. rewrite Hfm.
      rewrite (lock_state_data _ _ _ _ _ _ (pc_tids _ _ _ _ _ (proj2 Hok)) Hch Hls), Hb. simpl.
      split_and!; try done.
      by rewrite (lock_state_data _ _ _ _ _ _ (pc_tids _ _ _ _ _ (proj2 Hok)) Hch Hls).
    + apply proc_unchanged; [done|]. intros pid. by eapply lock_change_proc.
  - eapply wp_mono; [eapply wp_weaken; [apply (resume_none_sound t L R); [done|by apply Hl]|by intros ? []]|].
    intros [[] s'] (Hok' & Hq & d1 & d2 & Hch & Hst2 & Hvb2). split; [done|].
    exists d1, d2, (notifications_queue p). split_and!; [by apply lock_change_thread| |].
    + unfold delivered. rewrite Hfm.
      by rewrite (lock_state_data _ _ _ _ _ _ (pc_tids _ _ _ _ _ (proj2 Hok)) Hch Hls), Hb.
    + apply proc_unchanged; [done|]. intros pid. by eapply lock_change_proc.
Qed.

(** A notification is found but the thread has no room for it. *)
Lemma deliver_too_big t L R s p ids st i j n :
  px_ok (t :: L) R s → proc_of s (tl_pid t) = Some p → is_waiting st →
  lock_state (px_inner s) t (λ st', st' = st) →
  first_match ids (notifications_queue p) = Some (i, j) →
  notifications_queue p !! i = Some n → notif_ok n →
  ¬ st_fits st (Z.of_nat (notification_len n)) →
  wp notif_panics (resume_notification_too_big t (notification_len n) s) (resume_post t L R s p ids).
Proof.
  intros Hok Hp Hw Hls Hfm Hn Hnok Hbig. pose proof Hls as (h & d & Hd & Hid & Hst).
  eapply wp_mono; [eapply wp_weaken; [apply (resume_too_big_sound t L R); [done|]|]|].
  - exists h, d. by rewrite Hst.
  - intros r ->. unfold notif_panics. auto.
  - intros [[] s'] (Hok' & Hq & d1 & d2 & Hch & Hst2 & Hvb2). split; [done|].
    destruct (set_index_ok n (Z.of_nat j) Hnok) as (n' & Hn' & _).
    exists d1, d2, (notifications_queue p). split_and!; [by apply lock_change_thread| |].
    + unfold delivered. rewrite Hfm. exists n, n'.
      rewrite (lock_state_data _ _ _ _ _ _ (pc_tids _ _ _ _ _ (proj2 Hok)) Hch Hls).
      by rewrite decide_False.
    + apply proc_unchanged; [done|]. intros pid. by eapply lock_change_proc.
Qed.

(** A notification is found and the thread has room for it. *)
Lemma deliver_found t L R s p ids st i j n :
  px_ok (t :: L) R s → proc_of s (tl_pid t) = Some p → is_waiting st → st_ids st = ids →
  lock_state (px_inner s) t (λ st', st' = st) →
  first_match ids (notifications_queue p) = Some (i, j) → (j < length ids)%nat →
  notifications_queue p !! i = Some n → notif_ok n →
  st_fits st (Z.of_nat (notification_len n)) →
  wp notif_panics ((_ ← modify_process (tl_pid t)
        (with_notifications (delete i (notifications_queue p)));
      index_u32 ← liftM (unwrap (u32_try_from (Z.of_nat j)));
      notification ← liftM (set_index_in_list n index_u32);
      resume_notification t j (notification_into_bytes notification)) s)
    (resume_post t L R s p ids).
Proof.
  intros Hok Hp Hw Hids Hls Hfm Hj Hn Hnok Hfits. pose proof Hls as (h & d & Hd & Hid & Hst).
  apply wp_Mbind. eapply wp_mono; [eapply wp_weaken; [by apply (modify_process_sound _ _ _ _ _ _ Hok Hp)|by intros ? []]|].
  intros [[] s1] (Hok1 & Hq1 & Hf1 & Hu1 & Hp1).
  apply wp_Mbind, wp_liftM, wp_unwrap; [unfold notif_panics; by auto|].
  intros z [-> _]%uint_try_from_Some.
  destruct (set_index_ok n (Z.of_nat j) Hnok) as (n' & Hn' & Hlen). apply wp_Mbind, wp_liftM. rewrite Hn'. simpl.
  assert (Hls1 : lock_state (px_inner s1) t (λ st', st' = st)).
  { exists h, d. by rewrite Hu1. }
  eapply wp_mono; [apply (resume_notification_sound t L R); [done|]|].
  { exists h, d. rewrite Hu1, Hst, Hids, Hlen. done. }
  intros [[] s'] (Hok' & d1 & d2 & Hch & Hnot). split; [done|].
  exists d1, d2, (delete i (notifications_queue p)). split_and!.
  - destruct Hch as (Hf & h' & Hd1 & Hid1 & Hid2 & Hu & _). split; [by etrans|].
    exists h'. rewrite Hu1 in Hd1. split_and!; try done. intros h0. by rewrite Hu, Hu1.
  - unfold delivered. rewrite Hfm. exists n, n'.
    rewrite (lock_state_data _ _ _ _ _ _ (pc_tids _ _ _ _ _ (proj2 Hok1)) Hch Hls1).
    rewrite decide_True by done. by rewrite <-Hq1.
  - intros pid. rewrite (lock_change_proc _ _ _ _ _ _ Hch). apply Hp1.
Qed.

Lemma first_match_Some ids queue i j :
  first_match ids queue = Some (i, j) →
  (j < length ids)%nat ∧ ∃ n, queue !! i = Some n ∧ ids !! j = Some (notif_id n) ∧
    ∀ i' n', queue !! i' = Some n' → (i' < i)%nat → notif_id n' ∉ ids.
Proof.
  unfold first_match. intros Hfm. apply bind_Some in Hfm as ([i' n] & Hfind & Hj).
  apply bind_Some in Hj as (p & Hp & [= -> ->]).
  apply list_find_Some in Hfind as (Hi & _ & Hfirst). apply position_Some in Hp.
  split; [by eapply lookup_lt_Some|]. exists n. split_and!; try done.
Qed.

Lemma first_match_None ids queue :
  first_match ids queue = None ↔ Forall (λ n, notif_id n ∉ ids) queue.
Proof.
  unfold first_match. rewrite <-list_find_None. split.
  - destruct (list_find _ queue) as [[i n]|] eqn:Hf; [|done]. simpl.
    apply list_find_Some in Hf as (_ & Hin & _).
    destruct (proj2 (position_is_Some ids (notif_id n)) Hin) as [p ->]. done.
  - by intros ->.
Qed.

(** A thread inside an extrinsic has room for any notification, but the code
    compares with the largest [usize]. *)
Lemma st_fits_allowed st a (n : nat) :
  (match st with
   | St_NotificationWait wait => a = out_size wait
   | OtherExtrinsicWait _ _ => a = usize_max
   | _ => False end) →
  st_fits st (Z.of_nat n) ∧ Z.of_nat n ≤ a ∨
  ¬ st_fits st (Z.of_nat n) ∧ ¬ Z.of_nat n ≤ a ∨
  (st_fits st (Z.of_nat n) ∧ ¬ Z.of_nat n ≤ a ∧ ∀ wait, st ≠ St_NotificationWait wait).
Proof.
  intros Ha. destruct (decide (Z.of_nat n ≤ a)); destruct st; try done; simpl in *; subst; naive_solver.
Qed.

Lemma try_resume_sound t L R s p :
  px_ok (t :: L) R s → proc_of s (tl_pid t) = Some p → Forall notif_ok (notifications_queue p) →
  lock_state (px_inner s) t is_waiting →
  wp notif_panics (try_resume_notification_wait_thread t s) (λ r,
    ∃ ids, lock_state (px_inner s) t (λ st, st_ids st = ids) ∧ resume_post t L R s p ids r).
Proof.
  intros Hok Hp Hq Hls. pose proof Hls as (h & d & Hd & Hid & Hw).
  remember (state (th_user_data d)) as st eqn:Hst. symmetry in Hst.
  assert (Hl : ∀ S : LocalThreadState → Prop, S st → lock_state (px_inner s) t S).
  { intros S HS. exists h, d. by rewrite Hst. }
  assert (Hpost : ∀ m, wp notif_panics (m : outcome (unit * PX)) (resume_post t L R s p (st_ids st)) →
    wp notif_panics m (λ r, ∃ ids, lock_state (px_inner s) t (λ st, st_ids st = ids) ∧
      resume_post t L R s p ids r)).
  { intros m Hm. eapply wp_mono; [exact Hm|]. intros r Hr. exists (st_ids st). split; [by apply Hl|done]. }
  apply Hpost. clear Hpost.
  unfold try_resume_notification_wait_thread. do 2 apply wp_Mbind. simpl. apply wp_liftM.
  pose proof Hp as Hx. unfold proc_of in Hx. apply fmap_Some in Hx as (x & Hx & Hpx).
  unfold lock_process_user_data. rewrite (px_user_data_ok _ _ _ Hx), <-Hpx. simpl.
  apply wp_Mbind. rewrite (find_notification_ok t L R s (st_ids st)); [|done|by apply Hl|done].
  destruct (first_match (st_ids st) (notifications_queue p)) as [[i j]|] eqn:Hfm; simpl.
  2:{ eapply (deliver_none t L R s p _ st); try done. by apply Hl. }
  destruct (first_match_Some _ _ _ _ Hfm) as (Hj & n & Hn & _ & _).
  apply wp_Mbind, wp_liftM. unfold Prelude.index. rewrite Hn. simpl.
  assert (Hnok : notif_ok n) by (by eapply Forall_lookup_1).
  apply wp_Mbind. eapply wp_mono; [apply (allowed_size_sound notif_panics t L R); try done|].
  { unfold notif_panics. auto. }
  intros [a s'] [-> Ha]. destruct Ha as (h' & d' & Hd' & Hid' & Ha).
  assert (d' = d) as ->.
  { assert (h' = h) as -> by (by eapply (pc_tids _ _ _ _ _ (proj2 Hok)); [done|done|congruence]).
    congruence. }
  rewrite Hst in Ha. destruct (st_fits_allowed _ _ (notification_len n) Ha) as [[Hf Hle]|[[Hf Hle]|(Hf & Hle & Hno)]].
  - rewrite bool_decide_true by done. eapply (deliver_found t L R s p _ st); try done. by apply Hl.
  - rewrite bool_decide_false by done. eapply (deliver_too_big t L R s p _ st); try done. by apply Hl.
  - rewrite bool_decide_false by done.
    eapply wp_mono; [eapply wp_weaken; [apply (too_big_extrinsic t L R)|]|].
    + done.
    + by apply Hl.
    + intros r ->. unfold notif_panics. auto.
    + done.
Qed.

(** What the thread of lock [t] is given of [queue], and what is written for
    it: nothing if no notification is for it or if the first that is is too
    large. *)
Definition given t ids queue s s' : Prop :=
  ∀ st, lock_state (px_inner s) t (λ st', st' = st) →
  match first_match ids queue with
  | None => same_stores (px_inner s) (px_inner s')
  | Some (i, j) => ∃ n n', queue !! i = Some n ∧ set_index_in_list n (Z.of_nat j) = Done n' ∧
      if decide (st_fits st (Z.of_nat (notification_len n)))
      then received t st j (notification_into_bytes n') s s'
      else same_stores (px_inner s) (px_inner s')
  end.

Lemma received_from t st j notif s s0 s' :
  same_stores (px_inner s) (px_inner s0) → (∀ h, ud (px_inner s0) h = ud (px_inner s) h) →
  received t st j notif s0 s' → received t st j notif s s'.
Proof.
  intros Hs Hu. destruct st; try done; simpl.
  - intros (m & c0 & c1 & ctxt' & action & Hm & H0' & Hrun & H1' & Hst). exists m, c0, c1, ctxt', action.
    split_and!; try done; [by etrans|]. intros h d. rewrite <- Hu. apply Hst.
  - intros (c & H1' & H2'). exists c. split; [by eapply stored_same|done].
Qed.

Lemma try_resume_given t L R s p ids s' :
  px_ok (t :: L) R s → proc_of s (tl_pid t) = Some p → Forall notif_ok (notifications_queue p) →
  lock_state (px_inner s) t is_waiting → lock_state (px_inner s) t (λ st, st_ids st = ids) →
  try_resume_notification_wait_thread t s = Done (tt, s') → given t ids (notifications_queue p) s s'.
Proof.
  intros Hok Hp Hq Hw Hids Hrun st Hst.
  assert (Hl : ∀ S : LocalThreadState → Prop, lock_state (px_inner s) t S → S st).
  { intros S (h & d & Hd & Hid & HS). destruct Hst as (h' & d' & Hd' & Hid' & <-).
    assert (h' = h) as -> by (by eapply (pc_tids _ _ _ _ _ (proj2 Hok)); [done|done|congruence]).
    rewrite Hd in Hd'. by injection Hd' as <-. }
  assert (Hls : ∀ S : LocalThreadState → Prop, S st → lock_state (px_inner s) t S).
  { intros S HS. destruct Hst as (h & d & Hd & Hid & Heq). exists h, d. by rewrite Heq. }
  apply Hl in Hw. apply Hl in Hids. clear Hl.
  unfold try_resume_notification_wait_thread, get in Hrun. apply M_bind_Done in Hrun as (s0 & s1 & [= <- <-] & Hrun).
  apply M_bind_Done in Hrun as (p0 & s1 & Hp0 & Hrun). apply liftM_Done in Hp0 as [Hp0 <-].
  pose proof Hp as Hx. unfold proc_of in Hx. apply fmap_Some in Hx as (x & Hx & Hpx).
  unfold lock_process_user_data in Hp0. rewrite (px_user_data_ok _ _ _ Hx), <-Hpx in Hp0. injection Hp0 as <-.
  apply M_bind_Done in Hrun as (found & s1 & Hfound & Hrun).
  rewrite (find_notification_ok t L R s ids) in Hfound; [|done|by apply Hls|done].
  injection Hfound as <- <-.
  destruct (first_match ids (notifications_queue p)) as [[i j]|] eqn:Hfm; cbn [fmap option_fmap option_map prod_map Nat.add fst snd id] in Hrun.
  2:{ apply M_bind_Done in Hrun as (b & s1 & Hb & Hrun).
      rewrite (block_ok t L R s (st_blocks st)) in Hb; [|done|by apply Hls]. injection Hb as <- <-.
      destruct (st_blocks st); cbn [negb] in Hrun; [by eapply drop_thread_stores|by eapply resume_none_stores]. }
  destruct (first_match_Some _ _ _ _ Hfm) as (Hj & n & Hn & _ & _).
  assert (Hnok : notif_ok n) by (by eapply Forall_lookup_1).
  destruct (set_index_ok n (Z.of_nat j) Hnok) as (n' & Hn' & Hlen). exists n, n'. split; [done|]. split; [done|].
  apply M_bind_Done in Hrun as (n0 & s1 & Hn0 & Hrun). apply liftM_Done in Hn0 as [Hn0 <-].
  unfold Prelude.index in Hn0. rewrite Hn in Hn0. injection Hn0 as <-.
  apply M_bind_Done in Hrun as (a & s1 & Ha & Hrun).
  pose proof (wp_Done_inv _ _ _ _ (allowed_size_sound notif_panics t L R s Hok (Hls is_waiting Hw) ltac:(unfold notif_panics; auto)) Ha) as [-> Hall].
  destruct Hall as (h & d & Hd & Hid & Hall). destruct Hst as (h' & d' & Hd' & Hid' & Hst').
  assert (h' = h) as -> by (by eapply (pc_tids _ _ _ _ _ (proj2 Hok)); [done|done|congruence]).
  rewrite Hd in Hd'. injection Hd' as <-. rewrite Hst' in Hall.
  destruct (st_fits_allowed _ _ (notification_len n) Hall) as [[Hf Hle]|[[Hf Hle]|(Hf & Hle & Hno)]].
  - rewrite bool_decide_true in Hrun by done. rewrite decide_True by done.
    apply M_bind_Done in Hrun as ([] & s1 & Hmod & Hrun).
    pose proof (wp_Done_inv _ _ _ _ (modify_process_sound _ _ _ _ _ _ Hok Hp) Hmod) as (Hok1 & _ & _ & Hu1 & _).
    unfold modify_process, get in Hmod. inv_done.
    match goal with Hset : px_set_user_data _ _ _ = Done _ |- _ => apply px_set_user_data_stores in Hset as Hs1 end.
    match goal with Hz : u32_try_from (Z.of_nat j) = Some _ |- _ => apply uint_try_from_Some in Hz as [-> _] end.
    match goal with Hm : set_index_in_list ?x ?k = Done ?m, Hn : set_index_in_list ?x ?k = Done n' |- _ =>
      assert (m = n') as -> by congruence end.
    apply (received_from t _ j _ _ _ _ Hs1 Hu1).
    eapply (resume_notification_received t L R); [exact Hok1| |done|exact Hrun].
    exists h, d. by rewrite Hu1.
  - rewrite bool_decide_false in Hrun by done. rewrite decide_False by done. by eapply resume_too_big_stores.
  - rewrite bool_decide_false in Hrun by done.
    by destruct (wp_Done_inv _ _ _ _ (too_big_extrinsic t L R s (notification_len n) Hok (Hls _ (conj Hw (conj Hf Hno)))) Hrun).
Qed.

(** C9: a thread that waits for notifications is given the first one of its
    process's queue whose identifier is in the thread's list, filled with the
    position of that identifier in the list: the notification leaves the
    queue, its bytes are written at the address that the program gave, the
    place of the identifier in the program's list becomes zero, and the thread
    goes back to running with the size; an extrinsic is given the message that
    the notification holds, and its next action is queued.  If the
    notification is too large, it stays in the queue and the thread only learns
    its size; with no such notification, the thread keeps waiting if it asked
    to be blocked, and otherwise goes back to running with 0.  No other memory
    is written, nothing else changes, and the invariant is kept. *)
Theorem try_resume_ok t L R s p :
  px_ok (t :: L) R s → proc_of s (tl_pid t) = Some p → Forall notif_ok (notifications_queue p) →
  lock_state (px_inner s) t is_waiting →
  wp notif_panics (try_resume_notification_wait_thread t s) (λ '(u, s'),
    ∃ ids, lock_state (px_inner s) t (λ st, st_ids st = ids) ∧ resume_post t L R s p ids (u, s') ∧
      given t ids (notifications_queue p) s s').
Proof.
  intros Hok Hp Hq Hw. pose proof (try_resume_sound t L R s p Hok Hp Hq Hw) as Hs.
  destruct (try_resume_notification_wait_thread t s) as [[[] s']| |] eqn:Hrun; try done.
  destruct Hs as (ids & Hids & Hpost). exists ids. split; [done|]. split; [done|]. by eapply try_resume_given.
Qed.

End delivery.

(** Steps that create no process. *)
Create HintDb no_new discriminated.
#[export] Hint Resolve no_new_change : no_new.
