(* ===== verification/IpcWake.v ===== *)
(** Waking up the threads of a process.

    What [try_resume_notification_wait] and the functions that queue a
    notification do: a sequence of deliveries, after which no thread is
    blocked while its process has a notification for it. *)
From S2P Require Import Prelude IdPool WasmValue Ffi Calls Vm ExtrinsicsApi Processes.
From S2P Require Import ProcessesFrame Extrinsics ExtrinsicsInv ExtrinsicsLocks Ipc IpcInv.

Section wake.
Context `{Rng} `{Wasmi} `{!HashIter Z} `{!HashIter (list Init.Byte.byte)} `{Extrinsics}.
Context `{!WasmiLaws} `{!WasmiMemoryLaws} `{!ExtrinsicsLaws}.
Local Abbreviation PX := (ProcessesCollectionExtrinsics (TPud := IpcProcess) (TTud := unit)).
Local Abbreviation thread_lock := (ThreadLock (TTud := unit)).
Implicit Types (s : PX) (t : thread_lock) (L : list thread_lock) (R : list Pid) (pid : Pid)
  (n : NotificationBuilder) (p : IpcProcess)
  (d : Thread (LocalThreadUserData (TTud := unit))).

(** Whether the threads that are inside an extrinsic are considered. *)
Context {deep : bool}.

(** * The view of the threads *)

(** A thread but for its lock: its state, its identifier and the value it is
    resumed with. *)
Definition summary d : LocalThreadState * ThreadId * option (option WasmValue) :=
  (state (th_user_data d), thread_id d, value_back d).

Definition look s (h : Pid * nat) : option (LocalThreadState * ThreadId * option (option WasmValue)) :=
  summary <$> ud (px_inner s) h.

Lemma look_ud s h st id v :
  look s h = Some (st, id, v) →
  ∃ d, ud (px_inner s) h = Some d ∧ state (th_user_data d) = st ∧ thread_id d = id.
Proof. intros (d & Hd & [= -> -> ->])%fmap_Some. eauto. Qed.

Lemma ud_look s h d : ud (px_inner s) h = Some d → look s h = Some (summary d).
Proof. unfold look. by intros ->. Qed.

Lemma look_proc s h v : look s h = Some v → is_Some (proc_of s h.1).
Proof.
  intros (d & Hd & _)%fmap_Some. apply ud_pl in Hd as [x Hx]. unfold proc_of. rewrite Hx. by eexists.
Qed.

(** Only locks and process handles were taken or dropped. *)
Definition same_but_handles s s' : Prop :=
  same_but_locks (px_inner s) (px_inner s') ∧ local_run_queue s' = local_run_queue s.

Lemma same_look s s' h : same_but_handles s s' → look s' h = look s h.
Proof. intros [(_ & Hu & _) _]. apply Hu. Qed.

Lemma same_proc s s' pid : same_but_handles s s' → proc_of s' pid = proc_of s pid.
Proof. intros [Hs _]. by apply same_but_locks_proc. Qed.

(** * Deliveries *)

(** One waiting thread of [pid] is given what the queue has for it. *)
Definition wake_at pid (i : nat) s s' : Prop :=
  ∃ d d' p queue', ud (px_inner s) (pid, i) = Some d ∧ is_waiting (state (th_user_data d)) ∧
    proc_of s pid = Some p ∧ thread_id d' = thread_id d ∧
    delivered (st_ids (state (th_user_data d))) (notifications_queue p) d d' queue'
      (local_run_queue s) (local_run_queue s') ∧
    frame (px_inner s) (px_inner s') ∧
    (∀ h, look s' h = if decide (h = (pid, i)) then Some (summary d') else look s h) ∧
    (∀ pid', proc_of s' pid'
       = if decide (pid' = pid) then Some (with_notifications queue' p) else proc_of s pid').

Definition wake pid s s' : Prop := same_but_handles s s' ∨ ∃ i, wake_at pid i s s'.

(** A thread that may stay where it is: if it asked for notifications, it is
    ready to wait and none of those in the queue is for it; if it is inside an
    extrinsic that waits for an answer, and those are considered, the answer is
    not in the queue. *)
Definition quiet_thread p (st : LocalThreadState) : Prop :=
  match st with
  | St_NotificationWait wait => block wait = true ∧
      Forall (λ n, notif_id n ∉ notifs_ids wait) (notifications_queue p)
  | OtherExtrinsicWait _ mid => deep = true → Forall (λ n, notif_id n ≠ mid) (notifications_queue p)
  | _ => True
  end.

(** The threads, but for those of identifiers [E]. *)
Definition quiet_but (E : ThreadId → Prop) s : Prop :=
  ∀ h st id v p, look s h = Some (st, id, v) → proc_of s h.1 = Some p → E id ∨ quiet_thread p st.

(** The data of a process; nothing ever fills the lists. *)
Definition proc_ok p : Prop :=
  Forall notif_ok (notifications_queue p) ∧ registered_interfaces p = [] ∧
  emitted_messages p = [] ∧ pr_messages_to_answer p = [].

Definition procs_ok s : Prop := ∀ pid p, proc_of s pid = Some p → proc_ok p.

(** What a delivery leaves in the queue, and the thread it leaves. *)
Lemma delivered_queue ids queue d d' queue' rq rq' :
  delivered ids queue d d' queue' rq rq' → queue' `sublist_of` queue.
Proof.
  unfold delivered. destruct (first_match ids queue) as [[i j]|].
  - intros (n & n' & _ & _ & Hd). case_decide; destruct Hd as [-> _]; [apply sublist_delete|done].
  - by intros [-> _].
Qed.

Lemma delivered_emitting ids queue d d' queue' rq rq' :
  is_waiting (state (th_user_data d)) → delivered ids queue d d' queue' rq rq' →
  ¬ is_emitting (state (th_user_data d')).
Proof.
  unfold delivered. intros Hw. destruct (first_match _ _) as [[i j]|].
  - intros (n & n' & _ & _ & Hd). case_decide; [|destruct Hd as (_ & _ & -> & _); by intros []].
    destruct Hd as [_ Hd]. unfold notified in Hd. destruct (state (th_user_data d)); try done.
    + destruct Hd as [(? & ? & ->) _]. by intros [].
    + destruct Hd as [-> _]. by intros [].
  - intros (_ & _ & Hd). destruct (st_blocks _); destruct Hd as [-> _]; [|by intros []].
    destruct (state (th_user_data d)); try done; by intros [].
Qed.

Lemma delivered_thread d d' p queue' rq rq' :
  is_waiting (state (th_user_data d)) →
  delivered (st_ids (state (th_user_data d))) (notifications_queue p) d d' queue' rq rq' →
  quiet_thread (with_notifications queue' p) (state (th_user_data d')) ∧
  ¬ is_emitting (state (th_user_data d')).
Proof.
  unfold delivered. intros Hw.
  destruct (first_match _ _) as [[i j]|] eqn:Hfm.
  - intros (n & n' & _ & _ & Hd). case_decide.
    + destruct Hd as [_ Hd]. unfold notified in Hd.
      destruct (state (th_user_data d)); try done.
      * destruct Hd as [(? & ? & ->) _]. naive_solver.
      * destruct Hd as [-> _]. naive_solver.
    + destruct Hd as (_ & _ & -> & _). naive_solver.
  - apply first_match_None in Hfm. intros (-> & _ & Hd).
    destruct (state (th_user_data d)) as [| | |ctxt mid|wait| |]; try done; simpl in *.
    + destruct Hd as [-> _]. simpl. split; [|by intros []]. intros _.
      eapply Forall_impl; [exact Hfm|]. intros n Hn Heq. apply Hn. rewrite Heq. by left.
    + destruct (block wait) eqn:Hb.
      * destruct Hd as [-> _]. simpl. naive_solver.
      * destruct Hd as [-> _]. naive_solver.
Qed.

Lemma quiet_sublist p queue st :
  queue `sublist_of` notifications_queue p → quiet_thread p st →
  quiet_thread (with_notifications queue p) st.
Proof.
  intros Hsub. destruct st; try done.
  - intros Hall Hdeep. specialize (Hall Hdeep). by eapply Forall_sublist.
  - intros [? Hall]. split; [done|]. simpl. by eapply Forall_sublist.
Qed.

Lemma wake_procs_ok pid s s' : wake pid s s' → procs_ok s → procs_ok s'.
Proof.
  intros [Hs|(i & d & d' & p & queue' & _ & _ & Hp & _ & Hdel & _ & _ & Hpr)] Hok pid' p'.
  - rewrite (same_proc _ _ _ Hs). apply Hok.
  - rewrite Hpr. case_decide; [|apply Hok]. intros [= <-]. destruct (Hok _ _ Hp) as [Hq Hl].
    split; [|done]. simpl. eapply Forall_sublist; [|exact Hq]. by eapply delivered_queue.
Qed.

Lemma wake_at_quiet pid i s s' st id v p :
  wake_at pid i s s' → look s' (pid, i) = Some (st, id, v) → proc_of s' pid = Some p →
  quiet_thread p st.
Proof.
  intros (d & d' & p' & queue' & Hd & Hw & Hp & Hid & Hdel & _ & Hl & Hpr).
  rewrite Hl, Hpr, !decide_True by done. intros [= <- <- <-] [= <-].
  by apply (delivered_thread _ _ _ _ _ _ Hw Hdel).
Qed.

Lemma wake_quiet E pid s s' : wake pid s s' → quiet_but E s → quiet_but E s'.
Proof.
  intros [Hs|(i & Hat)] Hq h st id v p'.
  { rewrite (same_look _ _ _ Hs), (same_proc _ _ _ Hs). apply Hq. }
  destruct (decide (h = (pid, i))) as [->|Hh].
  { right. by eapply wake_at_quiet. }
  destruct Hat as (d & d' & p & queue' & Hd & Hw & Hp & Hid & Hdel & _ & Hl & Hpr).
  rewrite Hl, Hpr, decide_False by done. intros Hlook Hp'. case_decide as Hpid.
  - simplify_eq. destruct (Hq _ _ _ _ _ Hlook Hp) as [?|?]; [by left|right].
    apply quiet_sublist; [|done]. by eapply delivered_queue.
  - by eapply Hq.
Qed.

(** The identifiers of the threads do not change, nor do the threads that
    emit a message. *)
Lemma wake_tid pid s s' h : wake pid s s' → (λ v, v.1.2) <$> look s' h = (λ v, v.1.2) <$> look s h.
Proof.
  intros [Hs|(i & d & d' & p & queue' & Hd & _ & _ & Hid & _ & _ & Hl & _)].
  - by rewrite (same_look _ _ _ Hs).
  - rewrite Hl. case_decide; [|done]. subst. rewrite (ud_look _ _ _ Hd). simpl. by rewrite Hid.
Qed.

Lemma wake_emitting pid s s' h st id v :
  wake pid s s' → is_emitting st → look s' h = Some (st, id, v) ↔ look s h = Some (st, id, v).
Proof.
  intros [Hs|(i & d & d' & p & queue' & Hd & Hw & Hp & Hid & Hdel & _ & Hl & Hpr)] Hst.
  - by rewrite (same_look _ _ _ Hs).
  - rewrite Hl. case_decide as Hh; [|done]. subst. rewrite (ud_look _ _ _ Hd).
    pose proof (delivered_emitting _ _ _ _ _ _ _ Hw Hdel) as Hne. unfold summary. split.
    + intros [= <- _ _]. done.
    + intros [= <- _ _]. by destruct (state (th_user_data d)).
Qed.

Lemma wake_frame pid s s' : wake pid s s' → frame (px_inner s) (px_inner s').
Proof. by intros [[[? _] _]|(? & ? & ? & ? & ? & _ & _ & _ & _ & _ & ? & _)]. Qed.

Lemma wake_other pid s s' pid' :
  wake pid s s' → pid' ≠ pid →
  proc_of s' pid' = proc_of s pid' ∧ ∀ i, look s' (pid', i) = look s (pid', i).
Proof.
  intros [Hs|(i & d & d' & p & queue' & _ & _ & _ & _ & _ & _ & Hl & Hpr)] Hne.
  - split; [by apply same_proc|]. intros i. by apply same_look.
  - rewrite Hpr, decide_False by done. split; [done|]. intros j. rewrite Hl, decide_False by naive_solver. done.
Qed.

(** The process keeps everything but its queue, which may only shrink. *)
Lemma wake_proc pid s s' p :
  wake pid s s' → proc_of s pid = Some p →
  ∃ queue', queue' `sublist_of` notifications_queue p ∧
    proc_of s' pid = Some (with_notifications queue' p).
Proof.
  intros [Hs|(i & d & d' & p' & queue' & _ & _ & Hp' & _ & Hdel & _ & Hl & Hpr)] Hp.
  - exists (notifications_queue p). rewrite (same_proc _ _ _ Hs), with_notifications_same. done.
  - simplify_eq. exists queue'. rewrite Hpr, decide_True by done. split; [|done]. by eapply delivered_queue.
Qed.

Lemma no_new_same s s' : same_but_handles s s' → no_new s s'.
Proof. intros Hs. apply no_new_proc. intros pid. by apply same_proc. Qed.

Lemma no_new_wake pid s s' : wake pid s s' → no_new s s'.
Proof.
  intros [Hs|(i & d & d' & p & queue' & _ & _ & Hp & _ & _ & _ & _ & Hpr)]; [by apply no_new_same|].
  intros pid' Hno. rewrite Hpr. case_decide; [congruence|done].
Qed.

Lemma no_new_rtc pid s s' : rtc (wake pid) s s' → no_new s s'.
Proof. induction 1; [done|]. etrans; [by eapply no_new_wake|done]. Qed.

(** * The loop *)

(** A delivery to a locked thread is a step. *)
Lemma resume_post_wake t L R s p ids s' :
  px_ok (t :: L) R s → proc_of s (tl_pid t) = Some p → lock_state (px_inner s) t is_waiting →
  lock_state (px_inner s) t (λ st, st_ids st = ids) →
  resume_post t L R s p ids (tt, s') →
  px_ok L R s' ∧ ∃ i d, ud (px_inner s') (tl_pid t, i) = Some d ∧ thread_id d = tl_tid t ∧
    wake_at (tl_pid t) i s s'.
Proof.
  intros Hok Hp (h1 & d1 & Hd1 & Hid1 & Hw) (h2 & d2 & Hd2 & Hid2 & Hids)
    (Hok' & d & d' & queue' & (Hf & h & Hd & Hid & Hid' & Hu) & Hdel & Hpr).
  split; [done|]. pose proof (pc_tids _ _ _ _ _ (proj2 Hok)) as Hinj.
  destruct (pc_locks _ _ _ _ _ (proj2 Hok) t) as (h3 & d3 & Hd3 & Hid3 & Hpid); [by left|].
  assert (h1 = h ∧ h2 = h ∧ h3 = h) as (-> & -> & ->).
  { split_and!; eapply Hinj; try done; congruence. }
  simplify_eq. destruct h as [pid i]. simpl in *. subst.
  exists i, d'. rewrite Hu, decide_True by done. split_and!; try done.
  eexists _, d', p, queue'. split_and!; try done; [congruence|].
  intros h. unfold look. rewrite Hu. by case_decide.
Qed.

(** The body of the loop. *)
Definition wake_body (tid : ThreadId) : M PX unit :=
  t ← next_interrupted tid;
  match t with
  | Some (Th_WaitNotification t) => try_resume_notification_wait_thread t
  | Some (Th_EmitMessage t) => drop_thread t
  | None => mret tt
  end.

Lemma wake_rtc_procs_ok pid s s' : rtc (wake pid) s s' → procs_ok s → procs_ok s'.
Proof. induction 1; [done|]. intros. eauto using wake_procs_ok. Qed.

Lemma wake_rtc_quiet E pid s s' : rtc (wake pid) s s' → quiet_but E s → quiet_but E s'.
Proof. induction 1; [done|]. intros. eauto using wake_quiet. Qed.

Lemma wake_rtc_tid pid s s' h :
  rtc (wake pid) s s' → (λ v, v.1.2) <$> look s' h = (λ v, v.1.2) <$> look s h.
Proof. induction 1 as [|s1 s2 s3 H12 _ IH]; [done|]. by rewrite IH, (wake_tid _ _ _ _ H12). Qed.

(** No thread of identifier [id] needs to be woken up. *)
Definition quiet_id (id : ThreadId) s : Prop := quiet_but (λ id', id' ≠ id) s.

Lemma next_interrupted_sound R s id :
  px_ok [] R s →
  wp no_panic (next_interrupted id s) (λ '(r, s'), match r with
    | None => s' = s ∧ ∀ h d, ud (px_inner s) h = Some d → thread_id d = id →
        ¬ is_stopped (state (th_user_data d))
    | Some (Th_EmitMessage t) => tl_tid t = id ∧ px_ok [t] R s' ∧ same_but_handles s s' ∧
        lock_state (px_inner s') t is_emitting
    | Some (Th_WaitNotification t) => tl_tid t = id ∧ px_ok [t] R s' ∧ same_but_handles s s' ∧
        lock_state (px_inner s') t is_waiting
    end).
Proof.
  intros Hok. unfold next_interrupted. apply wp_Mbind.
  eapply wp_mono; [by apply interrupted_thread_by_id_sound|].
  intros [[[]|[t|t]] s'] Hpost; simpl in *.
  - destruct Hpost as [-> Hno]. split; [done|]. intros h d Hd Hid.
    destruct (Hno h d Hd Hid). by intros [?|?].
  - set_solver.
  - by destruct Hpost as (? & ? & ? & ? & ?).
  - by destruct Hpost as (? & ? & ? & ? & ?).
Qed.

Lemma wake_body_sound pid R s id :
  px_ok [] R s → procs_ok s → (∀ h st v, look s h = Some (st, id, v) → h.1 = pid) →
  wp notif_panics (wake_body id s) (λ '(_, s'),
    px_ok [] R s' ∧ rtc (wake pid) s s' ∧ quiet_id id s').
Proof.
  intros Hok Hprocs Hpid. unfold wake_body. apply wp_Mbind.
  eapply wp_mono; [eapply wp_weaken; [by apply (next_interrupted_sound R)|by intros ? []]|].
  intros [[[t|t]|] s1] Hpost.
  - destruct Hpost as (Hid & Hok1 & Hs1 & Hls).
    eapply wp_mono; [apply (drop_lock_sound _ t [] R); [done|]|].
    { destruct Hls as (h & d & ? & ? & ?). exists h, d. auto. }
    intros [[] s2] (Hok2 & Hs2 & Hq2 & _). split_and!; [done| |].
    + eapply rtc_l; [by left|]. apply rtc_once. by left.
    + intros h st id' v p Hlook Hp. destruct (decide (id' = id)) as [->|?]; [right|by left].
      rewrite (same_look s1) in Hlook by done. apply look_ud in Hlook as (d & Hd & <- & Hidd).
      destruct Hls as (h' & d' & Hd' & Hidd' & Hem).
      assert (h' = h) as -> by (eapply (pc_tids _ _ _ _ _ (proj2 Hok1)); [done|done|congruence]).
      rewrite Hd in Hd'. injection Hd' as <-. by destruct (state (th_user_data d)).
  - destruct Hpost as (Hid & Hok1 & Hs1 & Hls).
    pose proof Hls as (h & d & Hd & Hidd & Hw).
    assert (tl_pid t = pid) as Htpid.
    { destruct (pc_locks _ _ _ _ _ (proj2 Hok1) t) as (h1 & d1 & Hd1 & Hid1 & <-); [by left|].
      apply (Hpid h1 (state (th_user_data d1)) (value_back d1)). rewrite <-(same_look s s1) by done.
      rewrite (ud_look _ _ _ Hd1). unfold summary. by rewrite Hid1, Hid. }
    assert (procs_ok s1) as Hprocs1 by (eapply (wake_procs_ok pid); [by left|done]).
    destruct (look_proc s1 h (summary d)) as [p Hp]; [by apply ud_look|].
    assert (h.1 = tl_pid t) as Hh.
    { destruct (pc_locks _ _ _ _ _ (proj2 Hok1) t) as (h1 & d1 & Hd1 & Hid1 & <-); [by left|].
      f_equal. eapply (pc_tids _ _ _ _ _ (proj2 Hok1)); [done|done|congruence]. }
    rewrite Hh in Hp.
    eapply wp_mono; [apply (try_resume_sound t [] R s1 p); [done|done|by eapply Hprocs1|done]|].
    intros [[] s2] (ids & Hids & Hpost).
    destruct (resume_post_wake t [] R s1 p ids s2) as (Hok2 & i & d2 & Hd2 & Hid2 & Hat); try done.
    rewrite Htpid in Hd2, Hat.
    split_and!; [done| |].
    + eapply rtc_l; [by left|]. apply rtc_once. right. by exists i.
    + intros h' st id' v p' Hlook Hp'. destruct (decide (id' = id)) as [->|?]; [right|by left].
      pose proof Hlook as Hlook'. apply look_ud in Hlook' as (d' & Hd' & _ & Hidd').
      assert (h' = (pid, i)) as -> by (eapply (pc_tids _ _ _ _ _ (proj2 Hok2)); [done|done|congruence]).
      by eapply wake_at_quiet.
  - destruct Hpost as [-> Hno]. split_and!; [done|done|].
    intros h st id' v p Hlook Hp. destruct (decide (id' = id)) as [->|?]; [right|by left].
    apply look_ud in Hlook as (d & Hd & <- & Hidd). specialize (Hno _ _ Hd Hidd).
    destruct (state (th_user_data d)); try done; destruct Hno; by right.
Qed.

Lemma quiet_but_step E s id l :
  quiet_but (λ id', E id' ∨ id' ∈ id :: l) s → quiet_id id s → quiet_but (λ id', E id' ∨ id' ∈ l) s.
Proof.
  intros Hq Hid h st id' v p Hl Hp. destruct (decide (id' = id)) as [->|Hne].
  - destruct (Hid _ _ _ _ _ Hl Hp); [done|by right].
  - destruct (Hq _ _ _ _ _ Hl Hp) as [[?|[?|?]%elem_of_cons]|?]; auto; done.
Qed.

Lemma wake_loop_sound E pid R tids s :
  px_ok [] R s → procs_ok s →
  (∀ id h st v, id ∈ tids → look s h = Some (st, id, v) → h.1 = pid) →
  quiet_but (λ id, E id ∨ id ∈ tids) s →
  wp notif_panics (for_each wake_body tids s) (λ '(_, s'),
    px_ok [] R s' ∧ rtc (wake pid) s s' ∧ quiet_but E s').
Proof.
  revert s. induction tids as [|id tids IH]; intros s Hok Hprocs Hpid Hq; simpl.
  { split_and!; try done. intros h st id v p Hl Hp.
    destruct (Hq _ _ _ _ _ Hl Hp) as [[?|[]%elem_of_nil]|?]; auto. }
  apply wp_Mbind. eapply wp_mono; [apply (wake_body_sound pid R); [done|done|]|].
  { intros h st v. apply Hpid. by left. }
  intros [[] s1] (Hok1 & Hw1 & Hq1). eapply wp_mono; [apply IH|].
  - done.
  - by eapply wake_rtc_procs_ok.
  - intros id' h st v Hin Hl. pose proof (wake_rtc_tid _ _ _ h Hw1) as Ht. rewrite Hl in Ht.
    destruct (look s h) as [[[st0 id0] v0]|] eqn:Hl0; [|done]. simpl in Ht. injection Ht as <-.
    eapply Hpid; [|done]. by right.
  - apply (quiet_but_step _ _ id); [|done]. by eapply wake_rtc_quiet.
  - intros [[] s2] (? & ? & ?). split_and!; [done|by etrans|done].
Qed.

(** The identifier of a thread of process [pid]. *)
Definition thread_of pid s (id : ThreadId) : Prop := ∃ i st v, look s (pid, i) = Some (st, id, v).

Lemma quiet_weaken (E E' : ThreadId → Prop) s : (∀ id, E id → E' id) → quiet_but E s → quiet_but E' s.
Proof. intros HE Hq h st id v p Hl Hp. destruct (Hq _ _ _ _ _ Hl Hp); auto. Qed.

(** The threads of process [pid] are all looked at. *)
Lemma try_resume_wait_sound E pid R s :
  px_ok [] (pid :: R) s → procs_ok s →
  quiet_but (λ id, E id ∨ thread_of pid s id) s →
  wp notif_panics (try_resume_notification_wait pid s) (λ '(_, s'),
    px_ok [] R s' ∧ rtc (wake pid) s s' ∧ quiet_but E s').
Proof.
  intros Hok Hprocs Hq. destruct (pc_refs _ _ _ _ _ (proj2 Hok) pid) as [x Hx]; [by left|].
  destruct (interrupted_threads_ok [] (pid :: R) s pid x Hok Hx) as (tids & Hrun & Htids).
  unfold try_resume_notification_wait. apply wp_Mbind. rewrite Hrun. simpl. apply wp_Mbind.
  eapply wp_mono; [apply (wake_loop_sound E pid (pid :: R) tids s); try done|].
  - intros id h st v (i & d & Hd & Hid)%Htids Hl. apply look_ud in Hl as (d' & Hd' & _ & Hid').
    assert (h = (pid, i)) as -> by (eapply (pc_tids _ _ _ _ _ (proj2 Hok)); [done|done|congruence]).
    done.
  - eapply quiet_weaken; [|exact Hq]. intros id [?|(i & st' & v' & Hl')]; [by left|right].
    apply Htids. apply look_ud in Hl' as (d & Hd & _ & Hid). eauto.
  - intros [[] s1] (Hok1 & Hw1 & Hq1).
    eapply wp_mono; [eapply wp_weaken; [by apply (drop_proc_sound [] R)|by intros ? []]|].
    intros [[] s2] (Hok2 & Hs2 & Hrq). assert (wake pid s1 s2) as Hw2 by (by left).
    split_and!; [done|by eapply rtc_r|by eapply wake_quiet].
Qed.

(** * Queueing a notification *)

(** The notification [n] is added at the end of the queue of [pid]. *)
Definition queued pid n s s' : Prop :=
  frame (px_inner s) (px_inner s') ∧ local_run_queue s' = local_run_queue s ∧
  (∀ h, look s' h = look s h) ∧
  ∀ pid', proc_of s' pid' = (if decide (pid' = pid)
    then λ p, with_notifications (notifications_queue p ++ [n]) p else id) <$> proc_of s pid'.

(** [n] is queued for [pid], and its threads are given what is for them. *)
Definition notified_process pid n s s' : Prop :=
  ∃ s1, queued pid n s s1 ∧ rtc (wake pid) s1 s'.

Lemma no_new_queued pid n s s' : queued pid n s s' → no_new s s'.
Proof. intros (_ & _ & _ & Hp) pid' Hno. by rewrite Hp, Hno. Qed.

Lemma no_new_notified pid n s s' : notified_process pid n s s' → no_new s s'.
Proof. intros (s1 & Hq & Hw). etrans; [by eapply no_new_queued|by eapply no_new_rtc]. Qed.

Lemma handle_sound L R s pid :
  px_ok L R s →
  wp no_panic (px_process_by_id pid s) (λ '(r, s'), match r with
    | None => s' = s ∧ proc_of s pid = None
    | Some pid' => pid' = pid ∧ is_Some (proc_of s pid) ∧ px_ok L (pid :: R) s' ∧
        same_but_handles s s'
    end).
Proof.
  intros Hok. eapply wp_mono; [by apply px_process_by_id_sound|]. unfold proc_of.
  intros [[pid'|] s'].
  - intros (-> & [x ->] & ? & ? & ?). by split_and!.
  - by intros [-> ->].
Qed.

Lemma push_notification_sound L R pid n s :
  px_ok L R s → is_Some (proc_of s pid) →
  wp no_panic (push_notification pid n s) (λ '(_, s'), px_ok L R s' ∧ queued pid n s s').
Proof.
  intros Hok [p Hp]. eapply wp_mono; [by apply (modify_process_sound L R)|].
  intros [[] s'] (? & ? & ? & Hu & Hpr). split; [done|]. split_and!; try done.
  - intros h. unfold look. by rewrite Hu.
  - intros pid'. rewrite Hpr. case_decide; [|by destruct (proc_of s pid')]. subst. by rewrite Hp.
Qed.

Lemma queued_procs_ok pid n s s' : queued pid n s s' → notif_ok n → procs_ok s → procs_ok s'.
Proof.
  intros (_ & _ & _ & Hpr) Hn Hok pid' p'. rewrite Hpr. intros (p & Hp & ->)%fmap_Some.
  destruct (Hok _ _ Hp) as (? & ? & ? & ?). case_decide; [|done]. split_and!; try done. simpl.
  apply Forall_app. split; [done|]. by constructor.
Qed.

(** Only the threads of that process may have something new. *)
Lemma queued_quiet E pid n s s' :
  queued pid n s s' → quiet_but (λ id, E id ∨ thread_of pid s id) s →
  quiet_but (λ id, E id ∨ thread_of pid s' id) s'.
Proof.
  intros (_ & _ & Hl & Hpr) Hq [pid' i] st id v p' Hlook Hp'. rewrite Hpr in Hp'. simpl in Hp'.
  case_decide; [left; right; subst; unfold thread_of; eauto|]. rewrite Hl in Hlook.
  rewrite option_fmap_id in Hp'. destruct (Hq _ _ _ _ _ Hlook Hp') as [[?|(j & st' & v' & Hj)]|?]; [by left; left| |by right].
  left. right. exists j, st', v'. by rewrite Hl.
Qed.

Lemma queued_same pid n s s1 s2 : same_but_handles s s1 → queued pid n s1 s2 → queued pid n s s2.
Proof.
  intros Hs (Hf & Hrq & Hl & Hp). pose proof Hs as [[Hf1 _] Hrq1].
  split_and!; [by etrans|congruence|..].
  - intros h. by rewrite Hl, (same_look _ _ _ Hs).
  - intros pid'. by rewrite Hp, (same_proc _ _ _ Hs).
Qed.

(** The end of the functions that queue a notification. *)
Lemma wake_queued_at E R pid n s s2 :
  px_ok [] (pid :: R) s2 → queued pid n s s2 → procs_ok s →
  quiet_but (λ id, E id ∨ thread_of pid s id) s → notif_ok n →
  wp notif_panics (try_resume_notification_wait pid s2) (λ '(_, s'),
    px_ok [] R s' ∧ procs_ok s' ∧ quiet_but E s' ∧ notified_process pid n s s').
Proof.
  intros Hok2 Hqueued Hprocs Hq Hn. assert (procs_ok s2) as Hprocs2 by (by eapply queued_procs_ok).
  eapply wp_mono; [apply (try_resume_wait_sound E pid R); try done; by eapply queued_quiet|].
  intros [[] s3] (Hok3 & Hw & Hq3). split_and!; try done; [by eapply wake_rtc_procs_ok|].
  by exists s2.
Qed.

Lemma wake_queued_sound R pid n s s2 :
  px_ok [] (pid :: R) s2 → queued pid n s s2 → procs_ok s → quiet_but (λ _, False) s → notif_ok n →
  wp notif_panics (try_resume_notification_wait pid s2) (λ '(_, s'),
    px_ok [] R s' ∧ procs_ok s' ∧ quiet_but (λ _, False) s' ∧ notified_process pid n s s').
Proof. intros ??? Hq ?. apply wake_queued_at; try done. eapply quiet_weaken; [|exact Hq]. by intros. Qed.

Lemma notify_process_at E R pid n s :
  px_ok [] R s → procs_ok s → quiet_but (λ id, E id ∨ thread_of pid s id) s → notif_ok n →
  wp notif_panics (notify_process pid n s) (λ '(b, s'),
    px_ok [] R s' ∧ procs_ok s' ∧
    if b : bool then is_Some (proc_of s pid) ∧ quiet_but E s' ∧ notified_process pid n s s'
    else proc_of s pid = None ∧ s' = s).
Proof.
  intros Hok Hprocs Hq Hn. unfold notify_process. apply wp_Mbind.
  eapply wp_mono; [eapply wp_weaken; [by apply (handle_sound [] R)|by intros ? []]|].
  intros [[pid'|] s1] Hpost.
  2:{ destruct Hpost as [-> Hno]. by split_and!. }
  destruct Hpost as (-> & Hsome & Hok1 & Hsame). apply wp_Mbind.
  eapply wp_mono; [eapply wp_weaken; [apply (push_notification_sound [] (pid :: R) pid n s1)|by intros ? []]|].
  - done.
  - by rewrite (same_proc _ _ _ Hsame).
  - intros [[] s2] [Hok2 Hqueued]. apply wp_Mbind.
    eapply wp_mono; [apply (wake_queued_at E R pid n s); try done; by eapply queued_same|].
    intros [[] s3] (? & ? & ? & ?). by split_and!.
Qed.

Lemma notify_process_sound R pid n s :
  px_ok [] R s → procs_ok s → quiet_but (λ _, False) s → notif_ok n →
  wp notif_panics (notify_process pid n s) (λ '(b, s'),
    px_ok [] R s' ∧ procs_ok s' ∧ quiet_but (λ _, False) s' ∧
    if b : bool then is_Some (proc_of s pid) ∧ notified_process pid n s s'
    else proc_of s pid = None ∧ s' = s).
Proof.
  intros Hok Hprocs Hq Hn.
  eapply wp_mono; [apply (notify_process_at (λ _, False) R); try done; eapply quiet_weaken; [|exact Hq]; by intros|].
  intros [[] s'] (? & ? & Hb); [destruct Hb as (? & ? & ?); by split_and!|destruct Hb as [? ->]; by split_and!].
Qed.

(** The identifiers of the threads, and the other processes. *)
Lemma notified_tid pid n s s' h : notified_process pid n s s' →
  (λ v, v.1.2) <$> look s' h = (λ v, v.1.2) <$> look s h.
Proof. intros (s1 & (_ & _ & Hl & _) & Hw). by rewrite (wake_rtc_tid _ _ _ h Hw), Hl. Qed.

Lemma wake_rtc_other pid s s' pid' : rtc (wake pid) s s' → pid' ≠ pid →
  proc_of s' pid' = proc_of s pid' ∧ ∀ i, look s' (pid', i) = look s (pid', i).
Proof.
  intros Hw Hne. induction Hw as [s|s1 s2 s3 H12 _ [Hp IH]]; [done|].
  destruct (wake_other _ _ _ _ H12 Hne) as [Hp' Hl']. split; [congruence|]. intros i. by rewrite IH.
Qed.

Lemma notified_other pid n s s' pid' : notified_process pid n s s' → pid' ≠ pid →
  proc_of s' pid' = proc_of s pid' ∧ ∀ i, look s' (pid', i) = look s (pid', i).
Proof.
  intros (s1 & (_ & _ & Hl & Hp) & Hw) Hne. destruct (wake_rtc_other _ _ _ _ Hw Hne) as [Hp' Hl'].
  rewrite Hp', Hp, decide_False by done. split; [by destruct (proc_of s pid')|]. intros i. by rewrite Hl', Hl.
Qed.

End wake.

Section claim.
Context `{Rng} `{Wasmi} `{!HashIter Z} `{!HashIter (list Init.Byte.byte)} `{Extrinsics}.
Context `{!WasmiLaws} `{!WasmiMemoryLaws} `{!ExtrinsicsLaws}.
Local Abbreviation PX := (ProcessesCollectionExtrinsics (TPud := IpcProcess) (TTud := unit)).
Implicit Types (s : PX) (R : list Pid) (pid : Pid) (n : NotificationBuilder) (p : IpcProcess).

(** No thread of process [pid] waits, by itself or inside an extrinsic, for a
    notification that the queue holds. *)
Definition all_woken pid s : Prop := ∀ i st id v p,
  look s (pid, i) = Some (st, id, v) → proc_of s pid = Some p → quiet_thread (deep := true) p st.

(** C5: a notification for a process that exists is added to its queue, and
    then each of its waiting threads, in turn, is given the first notification
    of the queue that it waits for; nothing else changes.  Afterwards, however
    its threads were before, no thread of the process is blocked while the queue
    holds a notification for it, neither one that asked for notifications nor
    one inside an extrinsic that waits for an answer: no wake-up is lost.  The
    other processes are as they were.  A process that does not exist changes
    nothing. *)
Theorem notify_process_ok R pid n s :
  px_ok [] R s → procs_ok s → notif_ok n →
  wp notif_panics (notify_process pid n s) (λ '(b, s'),
    px_ok [] R s' ∧ procs_ok s' ∧
    if b : bool then is_Some (proc_of s pid) ∧ all_woken pid s' ∧ notified_process pid n s s' ∧
      (∀ pid', pid' ≠ pid → all_woken pid' s → all_woken pid' s') ∧
      ∀ pid' i, pid' ≠ pid → proc_of s' pid' = proc_of s pid' ∧ look s' (pid', i) = look s (pid', i)
    else proc_of s pid = None ∧ s' = s).
Proof.
  intros Hok Hprocs Hn.
  pose proof (notify_process_at (deep := true) (λ id, ∃ pid', pid' ≠ pid ∧ thread_of pid' s id) R pid n s Hok Hprocs) as Hs.
  eapply wp_mono; [apply Hs; [|done]|].
  - intros [pid' i] st id v p Hl _. left. destruct (decide (pid' = pid)) as [->|]; [right|left]; unfold thread_of; eauto 10.
  - intros [[] s']; [|done]. intros (Hok' & ? & ? & Hq & Hnot). split_and!; try done.
    + intros i st id v p Hl Hp. destruct (Hq _ _ _ _ _ Hl Hp) as [(pid' & Hne & j & st' & v' & Hj)|?]; [|done].
      destruct Hne. pose proof (notified_tid _ _ _ _ (pid, i) Hnot) as Hid. rewrite Hl in Hid.
      destruct (look s (pid, i)) as [[[st0 id0] v0]|] eqn:Hl0; [|done]. injection Hid as ->.
      apply look_ud in Hj as (d1 & Hd1 & _ & Hid1). apply look_ud in Hl0 as (d2 & Hd2 & _ & Hid2).
      assert ((pid', j) = (pid, i)) as [= -> _]; [|done].
      by eapply (pc_tids _ _ _ _ _ (proj2 Hok)); [done|done|congruence].
    + intros pid' Hne Hall i st id v p. destruct (notified_other _ _ _ _ _ Hnot Hne) as [-> ->]. apply Hall.
    + intros pid' i Hne. by destruct (notified_other _ _ _ _ _ Hnot Hne) as [-> ->].
Qed.

End claim.

#[export] Hint Resolve no_new_same no_new_wake no_new_rtc no_new_queued no_new_notified : no_new.
