(* ===== verification/IpcCore.v ===== *)
(** Soundness of [Core].

    The invariant of [Core] and its preservation by every event and by every
    method; what answering a message, emitting one and registering an
    interface do. *)
From S2P Require Import Prelude IdPool WasmValue Ffi Calls Vm ExtrinsicsApi Processes.
From S2P Require Import ProcessesFrame Extrinsics ExtrinsicsInv ExtrinsicsLocks Ipc IpcInv.
From S2P Require Import IpcWake.

Section core.
Context `{Rng} `{!RngLaws} `{Wasmi} `{!HashIter Z} `{!HashIter (list Init.Byte.byte)} `{Extrinsics}.
Context `{!WasmiLaws} `{!WasmiMemoryLaws} `{!ExtrinsicsLaws}.
Local Abbreviation PX := (ProcessesCollectionExtrinsics (TPud := IpcProcess) (TTud := unit)).
Local Abbreviation thread_lock := (ThreadLock (TTud := unit)).
Implicit Types (s : PX) (t : thread_lock) (L : list thread_lock) (R : list Pid) (pid : Pid)
  (n : NotificationBuilder) (p : IpcProcess) (c : Core)
  (d : Thread (LocalThreadUserData (TTud := unit))).

(** Whether the threads that are inside an extrinsic are considered. *)
Context {deep : bool}.
Local Abbreviation quiet_thread := (IpcWake.quiet_thread (deep := deep)).
Local Abbreviation quiet_but := (IpcWake.quiet_but (deep := deep)).

(** * The invariant *)

(** The interface that an emitting thread emits on. *)
Definition st_interface (st : LocalThreadState) : option InterfaceHash :=
  match st with
  | St_EmitMessage emit => Some (em_interface emit)
  | OtherExtrinsicEmit _ interface _ _ => Some interface
  | _ => None
  end.

Definition st_delay (st : LocalThreadState) : bool :=
  match st with St_EmitMessage emit => em_allow_delay emit | _ => true end.

(** The threads recorded as waiting for an interface are distinct, and those
    that are still alive emit on that interface. *)
Definition requests_ok (m : gmap InterfaceHash InterfaceState) s : Prop :=
  ∀ i threads other, m !! i = Some (Is_Requested threads other) →
    NoDup threads ∧ is_hash i ∧
    ∀ h st id v, look s h = Some (st, id, v) → id ∈ threads → st_interface st = Some i.

(** The invariant, the locks [L] and the handles [R] being alive, and the
    threads of [E] having to be looked at. *)
Record core_at L R (E : ThreadId → Prop) c : Prop := {
  co_px : px_ok L R (core_processes c);
  co_procs : procs_ok (core_processes c);
  co_quiet : quiet_but E (core_processes c);
  co_pool : pool_ok (message_id_pool c);
  co_messages : ∀ id pid, messages_to_answer c !! id = Some pid → is_u64 id ∧ 2 ≤ id;
  co_requests : requests_ok (interfaces c) (core_processes c);
  co_reserved : ∀ pid, pid ∈ reserved_pids c → proc_of (core_processes c) pid = None;
}.

Local Abbreviation core_but := core_at.

Definition core_ok_at c : Prop := core_but [] [] (λ _, False) c.
Local Abbreviation core_ok := core_ok_at.

(** The identifiers that can be drawn are not those of answers that a process
    has not read yet. *)
Definition fresh_ids c : Prop := ∀ id pool pid p, first_usable c id pool →
  proc_of (core_processes c) pid = Some p → Forall (λ n, notif_id n ≠ id) (notifications_queue p).

(** ** Looking at an emitting thread *)

Section peek.
Context t L R s (Hok : px_ok (t :: L) R s).

Lemma emit_interface_ok i :
  lock_state (px_inner s) t (λ st, st_interface st = Some i) → emit_interface t s = Done (i, s).
Proof.
  intros (h & d & Hd & Hid & Hi). eapply peek_state_ok; [done|]. exists h, d. split_and!; try done.
  by destruct (state (th_user_data d)); simplify_eq/=.
Qed.

Lemma allow_delay_ok b :
  lock_state (px_inner s) t (λ st, is_emitting st ∧ st_delay st = b) →
  allow_delay t s = Done (b, s).
Proof.
  intros (h & d & Hd & Hid & He & Hb). eapply peek_state_ok; [done|]. exists h, d. split_and!; try done.
  by destruct (state (th_user_data d)); simplify_eq/=.
Qed.

Lemma needs_answer_ok b :
  lock_state (px_inner s) t (λ st, is_emitting st ∧ st_needs_answer st = b) →
  needs_answer t s = Done (b, s).
Proof.
  intros (h & d & Hd & Hid & He & Hb). eapply peek_state_ok; [done|]. exists h, d. split_and!; try done.
  by destruct (state (th_user_data d)); simplify_eq/=.
Qed.

Lemma lock_pid_ok : lock_pid t s = Done (tl_pid t, s).
Proof.
  destruct (lock_locked_at _ _ _ _ Hok) as (h & d & x & Hl & Hby). destruct Hok as [Hb _].
  pose proof Hl as (_ & _ & _ & _ & <- & _).
  unfold lock_pid, borrow_mut, on_inner, zoom, thread_by_id_unwrap, mbind, M_bind, get, put, liftM, modify.
  rewrite Hb. simpl. rewrite Hby. simpl. unfold mret, M_ret. by rewrite released.
Qed.

(** An emitting thread has an interface, and it is a hash. *)
Lemma emitting_interface :
  lock_state (px_inner s) t is_emitting →
  ∃ st i, is_emitting st ∧ st_interface st = Some i ∧ is_hash i ∧
    lock_state (px_inner s) t (λ st', st' = st).
Proof.
  intros (h & d & Hd & Hid & He). destruct Hok as [_ Hcore].
  destruct (pc_threads _ _ _ _ _ Hcore h d Hd ltac:(done)) as [_ Hinv].
  remember (state (th_user_data d)) as st eqn:Hst.
  assert (Hls : lock_state (px_inner s) t (λ st', st' = st)) by (exists h, d; auto).
  destruct st as [| |ctxt i m re| | |emit|]; try done.
  - exists (OtherExtrinsicEmit ctxt i m re), i. split_and!; try done. apply Hinv.
  - exists (St_EmitMessage emit), (em_interface emit). split_and!; try done. apply Hinv.
Qed.

End peek.

(** * Answering *)

(** What answering a message does: the identifier is forgotten; the response
    is queued for the process that emitted the message, or handed out if it is
    not a process of the collection. *)
Definition answered (id : MessageId) (response : unit + EncodedMessage) c
    (r : option CoreRunOutcome) c' : Prop :=
  match messages_to_answer c !! id with
  | None => r = None ∧ c' = c
  | Some pid => ∃ px', c' = with_px px' (with_messages (delete id (messages_to_answer c)) c) ∧
      match proc_of (core_processes c) pid with
      | None => r = Some (MessageResponse id response) ∧ px' = core_processes c
      | Some _ => r = None ∧
          notified_process pid (NbResponse (build_response_notification id 0 response))
            (core_processes c) px'
      end
  end.

(** ** What the operations on the processes leave of the invariant *)

Lemma wake_emitting_look pid s s' h st id v :
  wake pid s s' → look s' h = Some (st, id, v) →
  ∃ st0 v0, look s h = Some (st0, id, v0) ∧ (is_emitting st0 → st = st0).
Proof.
  intros Hw Hl. pose proof (wake_tid _ _ _ h Hw) as Ht. rewrite Hl in Ht.
  destruct (look s h) as [[[st0 id0] v0]|] eqn:Hl0; [|done]. simpl in Ht. injection Ht as ->.
  exists st0, v0. split; [done|]. intros He.
  apply (wake_emitting pid s s' h st0 id0 v0 Hw He) in Hl0. by simplify_eq.
Qed.

Lemma interface_emitting st i : st_interface st = Some i → is_emitting st.
Proof. by destruct st. Qed.

Lemma requests_wake m pid s s' : wake pid s s' → requests_ok m s → requests_ok m s'.
Proof.
  intros Hw Hr i threads other Hi. destruct (Hr _ _ _ Hi) as (? & ? & Hl). split_and!; try done.
  intros h st id v Hlook Hin. destruct (wake_emitting_look _ _ _ _ _ _ _ Hw Hlook) as (st0 & v0 & Hl0 & Heq).
  pose proof (Hl _ _ _ _ Hl0 Hin) as Hst. by rewrite Heq by (by eapply interface_emitting).
Qed.

Lemma requests_rtc m pid s s' : rtc (wake pid) s s' → requests_ok m s → requests_ok m s'.
Proof. induction 1; [done|]. intros. eauto using requests_wake. Qed.

Lemma requests_look m s s' : (∀ h, look s' h = look s h) → requests_ok m s → requests_ok m s'.
Proof.
  intros Hl Hr i threads other Hi. destruct (Hr _ _ _ Hi) as (? & ? & Hl'). split_and!; try done.
  intros h st id v. rewrite Hl. apply Hl'.
Qed.

Lemma requests_notified m pid n s s' :
  notified_process pid n s s' → requests_ok m s → requests_ok m s'.
Proof.
  intros (s1 & (_ & _ & Hl & _) & Hw) Hr. eapply requests_rtc; [done|]. by eapply requests_look.
Qed.

(** Deleting an identifier. *)
Lemma messages_delete (m : gmap MessageId Pid) id' :
  (∀ id pid, m !! id = Some pid → is_u64 id ∧ 2 ≤ id) →
  ∀ id pid, delete id' m !! id = Some pid → is_u64 id ∧ 2 ≤ id.
Proof. intros Hm id pid [_ ?]%lookup_delete_Some. by eapply Hm. Qed.

Lemma answer_inner_sound id response c :
  core_ok c →
  wp notif_panics (answer_message_inner id response c) (λ '(r, c'),
    core_ok c' ∧ answered id response c r c').
Proof.
  intros [Hpx Hprocs Hq Hpool Hmsg Hreq Hres]. unfold answer_message_inner. apply wp_Mbind. simpl.
  unfold answered. destruct (messages_to_answer c !! id) as [pid|] eqn:Hid.
  2:{ simpl. by split. }
  apply wp_Mbind. simpl. apply wp_Mbind, wp_zoom. simpl.
  eapply wp_mono; [eapply wp_weaken; [by apply (handle_sound [] [])|by intros ? []]|].
  intros [[pid'|] s1] Hpost.
  2:{ destruct Hpost as [-> ->]. simpl. split; [|by eauto]. split; try done. by apply messages_delete. }
  destruct Hpost as (-> & [p Hp] & Hok1 & Hsame). rewrite Hp.
  set (n := NbResponse (build_response_notification id 0 response)).
  apply wp_Mbind, wp_zoom. simpl.
  eapply wp_mono; [eapply wp_weaken; [apply (push_notification_sound [] [pid] pid n s1)|by intros ? []]|].
  { done. }
  { by rewrite (same_proc _ _ _ Hsame), Hp. }
  intros [[] s2] [Hok2 Hqueued]. apply (queued_same _ _ _ _ _ Hsame) in Hqueued.
  pose proof Hqueued as (Hf2 & Hrq2 & Hl2 & Hp2).
  apply wp_Mbind, wp_zoom. simpl.
  eapply wp_mono; [eapply wp_weaken; [eapply (modify_process_sound [] [pid]); [done|]|by intros ? []]|].
  { by rewrite Hp2, decide_True, Hp. }
  intros [[] s3] (Hok3 & Hrq3 & Hf3 & Hu3 & Hp3). simpl in Hp3.
  destruct (Hprocs _ _ Hp) as (Hqok & Hreg & Hem & Hans).
  assert (Hqueued3 : queued pid n (core_processes c) s3).
  { split_and!; [by etrans|congruence|..].
    - intros h. rewrite <-Hl2. unfold look. by rewrite Hu3.
    - intros pid'. rewrite Hp3. case_decide; [|by rewrite Hp2, decide_False].
      subst. rewrite Hp. simpl. unfold with_emitted, with_notifications. simpl.
      by rewrite Hem. }
  apply wp_Mbind, wp_zoom. simpl.
  assert (Hn : notif_ok n) by (destruct (Hmsg _ _ Hid); by exists id, 0, response).
  eapply wp_mono; [by apply (wake_queued_sound (deep := deep) [] pid n (core_processes c))|].
  intros [[] s4] (Hok4 & Hprocs4 & Hq4 & Hnot). simpl. split.
  - split; try done; [by apply messages_delete|by eapply requests_notified|].
    simpl. intros pid' Hin. eapply no_new_notified; eauto.
  - by exists s4.
Qed.

(** C3: answering a message forgets its identifier, so that each message is
    answered once (answering an unknown identifier changes nothing); the
    response is queued for the process that emitted the message and its
    threads are woken up, or it is handed out as an event if the emitter is
    not a process of the collection.  The invariant is kept. *)
Theorem answer_message_ok id response c :
  core_ok c →
  wp notif_panics (answer_message_inner id response c) (λ '(r, c'),
    core_ok c' ∧ answered id response c r c').
Proof. apply answer_inner_sound. Qed.

(** * Emitting *)

(** One locked thread changed and nothing else, but for locks. *)
Lemma lock_change_look s t d d' s' :
  lock_change (px_inner s) t d d' (px_inner s') →
  ∃ h, look s h = Some (summary d) ∧ thread_id d = tl_tid t ∧ thread_id d' = tl_tid t ∧
    (∀ h', look s' h' = if decide (h' = h) then Some (summary d') else look s h') ∧
    ∀ pid, proc_of s' pid = proc_of s pid.
Proof.
  intros Hch. pose proof Hch as (_ & h & Hd & Hid & Hid' & Hu & _). exists h.
  split_and!; try done; [by apply ud_look|..].
  - intros h'. unfold look. rewrite Hu. by case_decide.
  - intros pid. by eapply lock_change_proc.
Qed.

Lemma quiet_change E s t d d' s' :
  lock_change (px_inner s) t d d' (px_inner s') →
  (∀ pid p, proc_of s pid = Some p → quiet_thread p (state (th_user_data d'))) →
  quiet_but E s → quiet_but E s'.
Proof.
  intros (h & _ & _ & _ & Hl & Hp)%lock_change_look Hst Hq h' st id v p.
  rewrite Hl, Hp. case_decide; [|apply Hq]. intros [= <- <- <-] Hpr. right. by eapply Hst.
Qed.

(** No interface has thread [id] in its list. *)
Definition unrequested (m : gmap InterfaceHash InterfaceState) (id : ThreadId) : Prop :=
  ∀ i threads other, m !! i = Some (Is_Requested threads other) → id ∉ threads.

Lemma requests_change m s t d d' s' :
  lock_change (px_inner s) t d d' (px_inner s') → unrequested m (tl_tid t) →
  requests_ok m s → requests_ok m s'.
Proof.
  intros (h & _ & Hid & Hid' & Hl & _)%lock_change_look Hun Hr i threads other Hi.
  destruct (Hr _ _ _ Hi) as (? & ? & Hlook). split_and!; try done.
  intros h' st id v. rewrite Hl. case_decide; [|apply Hlook]. unfold summary.
  rewrite Hid'. intros [= <- <- <-] Hin. by destruct (Hun _ _ _ Hi).
Qed.

Lemma procs_change s t d d' s' :
  lock_change (px_inner s) t d d' (px_inner s') → procs_ok s → procs_ok s'.
Proof. intros (_ & _ & _ & _ & _ & Hp)%lock_change_look Hok pid p. rewrite Hp. apply Hok. Qed.

(** An identifier is given to a message of process [pid], if [b]. *)
Definition issued (b : bool) pid c (mid : option MessageId) c' : Prop :=
  if b then ∃ id pool, mid = Some id ∧ first_usable c id pool ∧ is_u64 id ∧
    pool_ok pool ∧ c' = with_messages (<[id := pid]> (messages_to_answer c)) (with_message_pool pool c)
  else mid = None ∧ c' = c.

Lemma message_id_for_sound fuel t L R pid c b :
  px_ok (t :: L) R (core_processes c) → pool_ok (message_id_pool c) →
  lock_state (px_inner (core_processes c)) t (λ st, is_emitting st ∧ st_needs_answer st = b) →
  wlp (starved fuel c) no_panic (message_id_for fuel t pid c) (λ '(mid, c'), issued b pid c mid c').
Proof.
  intros Hok Hpool Hls. unfold message_id_for. apply wlp_Mbind, wlp_zoom. simpl.
  rewrite (needs_answer_ok t L R _ Hok b) by done. simpl.
  assert (with_px (core_processes c) c = c) as -> by (by destruct c).
  destruct b; simpl; [|done]. apply wlp_Mbind.
  pose proof (choose_message_id_sound fuel c Hpool) as Hch.
  destruct (choose_message_id fuel c) as [[id c']|r|]; simpl; [|done..].
  destruct Hch as (pool & ? & ? & ? & ->). eexists _, _. by split_and!.
Qed.

(** The invariant does not depend on the identifiers already given. *)
Lemma issued_but L R E b pid c mid c' :
  core_but L R E c → issued b pid c mid c' → core_but L R E c'.
Proof.
  intros Hc. destruct b; [|by intros [_ ->]].
  intros (id & pool & _ & (ids & _ & _ & Hu) & ? & ? & ->). destruct Hc. split; try done. simpl.
  intros id' pid' [[<- <-]|[_ ?]]%lookup_insert_Some; [|by eapply co_messages0].
  unfold usable in Hu. apply bool_decide_eq_true in Hu. unfold is_u64 in *. split; [done|]. lia.
Qed.

Lemma issued_same b pid c mid c' :
  issued b pid c mid c' → core_processes c' = core_processes c ∧ interfaces c' = interfaces c ∧
    reserved_pids c' = reserved_pids c ∧ pending_events c' = pending_events c ∧
    bool_decide (is_Some mid) = b.
Proof.
  destruct b; [|by intros [-> ->]]. intros (id & pool & -> & _ & _ & _ & ->). by split_and!.
Qed.

Lemma core_but_with_px L R E L' R' E' c s' :
  core_but L R E c → px_ok L' R' s' → procs_ok s' → quiet_but E' s' →
  requests_ok (interfaces c) s' → (∀ pid, pid ∈ reserved_pids c → proc_of s' pid = None) →
  core_but L' R' E' (with_px s' c).
Proof. intros []. by split. Qed.

Lemma core_but_px L R E L' R' E' c s' :
  core_but L R E c → px_ok L' R' s' → procs_ok s' → quiet_but E' s' →
  requests_ok (interfaces c) s' → no_new (core_processes c) s' → core_but L' R' E' (with_px s' c).
Proof. intros Hc ???? Hnew. eapply core_but_with_px; try done. intros. by apply Hnew, Hc. Qed.

(** The message of the thread of lock [t] is accepted. *)
Definition accepted_emit t mid s (msg : EncodedMessage) s' : Prop :=
  ∃ d d', lock_change (px_inner s) t d d' (px_inner s') ∧
    msg = st_message (state (th_user_data d)) ∧
    accepted mid d d' (local_run_queue s) (local_run_queue s').

Lemma accepted_quiet mid d d' q q' p :
  accepted mid d d' q q' →
  (deep = true → ∀ id, mid = Some id → Forall (λ n, notif_id n ≠ id) (notifications_queue p)) →
  quiet_thread p (state (th_user_data d')).
Proof.
  unfold accepted. intros Hacc Hfresh.
  destruct (state (th_user_data d)) as [| |? ? ? []| | | |]; try done.
  - destruct Hacc as (id & Hid & -> & _). intros Hdeep. by apply Hfresh.
  - by destruct Hacc as ((? & ? & ->) & _).
  - by destruct Hacc as (-> & _).
Qed.

Lemma accept_core_sound E t R mid c :
  core_but [t] R E c → unrequested (interfaces c) (tl_tid t) →
  lock_state (px_inner (core_processes c)) t (λ st, is_emitting st ∧
    st_needs_answer st = bool_decide (is_Some mid)) →
  (deep = true → ∀ id pid p, mid = Some id → proc_of (core_processes c) pid = Some p →
    Forall (λ n, notif_id n ≠ id) (notifications_queue p)) →
  wp notif_panics (accept_emit t mid (core_processes c)) (λ '(msg, s'),
    core_but [] R E (with_px s' c) ∧ accepted_emit t mid (core_processes c) msg s').
Proof.
  intros Hc Hun Hls Hfresh. eapply wp_mono; [eapply wp_weaken; [apply (accept_emit_sound t [] R); [apply Hc|done]|]|].
  { unfold accept_panics, notif_panics. intros r [?|?]; auto. }
  intros [msg s'] (Hok & d & d' & Hch & Hmsg & Hacc). split; [|by exists d, d'].
  apply (core_but_px _ _ _ _ _ _ _ _ Hc); [done|..].
  - eapply procs_change; [done|]. apply Hc.
  - eapply quiet_change; [done|intros; eapply accepted_quiet; [done|eauto]|]. apply Hc.
  - eapply requests_change; [done|done|]. apply Hc.
  - eauto with no_new.
Qed.

(** The message of the thread of lock [t], in state [st], goes to [pid], the
    handler of interface [i]: it is given an identifier if the thread wants an
    answer, the thread goes on, and the handler is notified, or the message
    handed out if the handler is a reserved identifier. *)
Definition routed t (st : LocalThreadState) (i : InterfaceHash) pid c
    (r : option CoreRunOutcome) c' : Prop :=
  ∃ mid c1 s2 s3, issued (st_needs_answer st) (tl_pid t) c mid c1 ∧
    accepted_emit t mid (core_processes c) (st_message st) s2 ∧ c' = with_px s3 c1 ∧
    match proc_of (core_processes c) pid with
    | Some _ => r = None ∧ notified_process pid
        (NbInterface (build_interface_notification i mid (tl_pid t) 0 (st_message st))) s2 s3
    | None => s3 = s2 ∧ r = if bool_decide (pid ∈ reserved_pids c)
        then Some (ReservedPidInterfaceMessage (tl_pid t) mid i (st_message st)) else None
    end.

Lemma lock_state_and s t st (S : LocalThreadState → Prop) :
  lock_state (px_inner s) t (λ st', st' = st) → S st → lock_state (px_inner s) t S.
Proof. intros (h & d & ? & ? & <-) ?. by exists h, d. Qed.

Lemma lock_hash t L R s st i :
  px_ok (t :: L) R s → lock_state (px_inner s) t (λ st', st' = st) → st_interface st = Some i →
  is_hash i.
Proof.
  intros [_ Hcore] (h & d & Hd & _ & <-) Hi.
  destruct (pc_threads _ _ _ _ _ Hcore h d Hd ltac:(done)) as [_ Hinv].
  destruct (state (th_user_data d)); simplify_eq/=; apply Hinv.
Qed.

Lemma deliver_emit_sound fuel t st i pid c :
  (deep = true → fresh_ids c) → core_but [t] [] (λ _, False) c → unrequested (interfaces c) (tl_tid t) →
  lock_state (px_inner (core_processes c)) t (λ st', st' = st) → st_interface st = Some i →
  wlp (starved fuel c) notif_panics (deliver_emit fuel t (tl_pid t) i pid c) (λ '(r, c'),
    core_ok c' ∧ routed t st i pid c r c').
Proof.
  intros Hfresh Hc Hun Hls Hi. pose proof (interface_emitting _ _ Hi) as Hem.
  pose proof (lock_hash _ _ _ _ _ _ (co_px _ _ _ _ Hc) Hls Hi) as Hh.
  unfold deliver_emit. apply wlp_Mbind.
  pose proof (message_id_for_sound fuel t [] [] (tl_pid t) c (st_needs_answer st)
    (co_px _ _ _ _ Hc) (co_pool _ _ _ _ Hc)) as Hid.
  destruct (message_id_for fuel t (tl_pid t) c) as [[mid c1]|r|]; simpl in *.
  2:{ destruct Hid. by eapply lock_state_and. }
  2:{ apply Hid. by eapply lock_state_and. }
  assert (issued (st_needs_answer st) (tl_pid t) c mid c1) as Hiss by (apply Hid; by eapply lock_state_and).
  clear Hid. pose proof (issued_same _ _ _ _ _ Hiss) as (Hpx & Hint & Hres & _ & Hmid).
  pose proof (issued_but _ _ _ _ _ _ _ _ Hc Hiss) as Hc1.
  apply wlp_Mbind, wlp_zoom. eapply wlp_wp; [eapply (accept_core_sound _ t [] mid c1 Hc1)|done|].
  { by rewrite Hint. }
  { rewrite Hpx. eapply lock_state_and; [done|]. by rewrite Hmid. }
  { rewrite Hpx. intros Hdeep id pid' p -> Hp. destruct (st_needs_answer st); [|by destruct Hiss].
    destruct Hiss as (id' & pool & [= <-] & Husable & _). by eapply Hfresh. }
  intros [msg s2] [Hc2 Hacc]. rewrite Hpx in Hacc.
  assert (msg = st_message st) as ->.
  { destruct Hacc as (d & d' & Hch & -> & _). f_equal.
    apply (lock_state_data _ _ _ _ _ (λ st', st' = st) (pc_tids _ _ _ _ _ (proj2 (co_px _ _ _ _ Hc))) Hch Hls). }
  assert (Hproc : proc_of s2 pid = proc_of (core_processes c) pid).
  { destruct Hacc as (d & d' & Hch & _ & _). by eapply lock_change_proc. }
  apply wlp_Mbind, wlp_zoom. simpl.
  eapply wlp_wp; [eapply (notify_process_sound (deep := deep) []); [apply Hc2|apply Hc2|apply Hc2|]|done|].
  { exists i, mid, (tl_pid t), 0, (st_message st). done. }
  intros [b s3] (Hok3 & Hprocs3 & Hq3 & Hb). rewrite Hproc in Hb.
  assert (core_ok (with_px s3 c1)) as Hc3.
  { pose proof (co_requests _ _ _ _ Hc2) as Hr. apply (core_but_px _ _ _ _ _ _ _ _ Hc1); try done.
    - destruct b; [destruct Hb as [_ Hn]; by eapply requests_notified|by destruct Hb as [_ ->]].
    - destruct Hacc as (d & d' & Hch & _ & _). rewrite Hpx. etrans; [by eapply no_new_change|].
      destruct b; destruct Hb as [_ Hb]; [by eapply no_new_notified|by subst]. }
  destruct b; simpl.
  - split; [done|]. exists mid, c1, s2, s3. destruct Hb as [[p ->] ?]. by split_and!.
  - apply wlp_Mbind. simpl. destruct Hb as [Hno ->].
    assert (routed t st i pid c (if bool_decide (pid ∈ reserved_pids c)
      then Some (ReservedPidInterfaceMessage (tl_pid t) mid i (st_message st)) else None)
      (with_px s2 c1)) as Hr.
    { exists mid, c1, s2, s2. rewrite Hno. by split_and!. }
    rewrite Hres. by destruct (bool_decide (pid ∈ reserved_pids c)).
Qed.

(** The use of interface [i] by process [pid] is noted. *)
Definition used_by pid (i : InterfaceHash) s s' : Prop :=
  frame (px_inner s) (px_inner s') ∧ local_run_queue s' = local_run_queue s ∧
  (∀ h, ud (px_inner s') h = ud (px_inner s) h) ∧
  ∀ pid', proc_of s' pid' = (if decide (pid' = pid)
    then λ p, with_used (<[i := tt]> (used_interfaces p)) p else id) <$> proc_of s pid'.

Lemma used_by_sound t L R i s :
  px_ok (t :: L) R s →
  wp no_panic (modify_process (tl_pid t) (λ p, with_used (<[i := tt]> (used_interfaces p)) p) s)
    (λ '(_, s'), px_ok (t :: L) R s' ∧ used_by (tl_pid t) i s s').
Proof.
  intros Hok. destruct (pc_locks _ _ _ _ _ (proj2 Hok) t) as (h & d & Hd & _ & Hh); [by left|].
  destruct (look_proc s h (summary d)) as [p Hp]; [by apply ud_look|]. rewrite Hh in Hp.
  eapply wp_mono; [by apply (modify_process_sound (t :: L) R)|].
  intros [[] s'] (? & ? & ? & Hu & Hpr). split; [done|]. split_and!; try done.
  intros pid'. rewrite Hpr. case_decide; [|by destruct (proc_of s pid')]. subst. by rewrite Hp.
Qed.

Lemma used_by_core pid i L R E c s' :
  core_but L R E c → px_ok L R s' → used_by pid i (core_processes c) s' → core_but L R E (with_px s' c).
Proof.
  intros Hc Hok (_ & _ & Hu & Hp).
  assert (Hl : ∀ h, look s' h = look (core_processes c) h) by (intros h; unfold look; by rewrite Hu).
  apply (core_but_px _ _ _ _ _ _ _ _ Hc); [done|..].
  - intros pid' p'. rewrite Hp. intros (p & Hp0 & ->)%fmap_Some.
    pose proof (co_procs _ _ _ _ Hc _ _ Hp0) as (? & ? & ? & ?). by case_decide.
  - intros h st id v p'. rewrite Hl, Hp. intros Hlook (p & Hp0 & ->)%fmap_Some.
    destruct (co_quiet _ _ _ _ Hc _ _ _ _ _ Hlook Hp0); [by left|right]. by case_decide; destruct st.
  - eapply requests_look; [done|]. apply Hc.
  - intros pid' Hno. by rewrite Hp, Hno.
Qed.

(** The outcome of a message that a thread emits on interface [i]. *)
Definition emit_outcome t (st : LocalThreadState) (i : InterfaceHash) c
    (r : option CoreRunOutcome) c' : Prop :=
  match interfaces c !! i, st_delay st with
  | Some (Is_Process pid), _ => routed t st i pid c r c'
  | Some (Is_Requested threads other), true =>
      r = Some (ThreadWaitUnavailableInterface (tl_tid t) i) ∧
      ∃ s', same_but_handles (core_processes c) s' ∧ c' = with_px s' (with_interfaces
        (<[i := Is_Requested (threads ++ [tl_tid t]) other]> (interfaces c)) c)
  | None, true =>
      r = Some (ThreadWaitUnavailableInterface (tl_tid t) i) ∧
      ∃ s', same_but_handles (core_processes c) s' ∧ c' = with_px s' (with_interfaces
        (<[i := Is_Requested [tl_tid t] []]> (interfaces c)) c)
  | _, false => r = None ∧ ∃ s' d d', lock_change (px_inner (core_processes c)) t d d' (px_inner s') ∧
      refused d d' (local_run_queue (core_processes c)) (local_run_queue s') ∧ c' = with_px s' c
  end.

(** The thread of lock [t] is added to the threads that wait for [i]. *)
Lemma request_sound t st i c m threads other :
  core_but [t] [] (λ _, False) c → unrequested (interfaces c) (tl_tid t) →
  lock_state (px_inner (core_processes c)) t (λ st', st' = st) → st_interface st = Some i →
  m = <[i := Is_Requested (threads ++ [tl_tid t]) other]> (interfaces c) →
  (interfaces c !! i = None ∧ threads = [] ∨ interfaces c !! i = Some (Is_Requested threads other)) →
  wp notif_panics (drop_thread t (core_processes c)) (λ '(_, s'),
    core_ok (with_px s' (with_interfaces m c)) ∧ same_but_handles (core_processes c) s').
Proof.
  intros Hc Hun Hls Hi -> Hwas. pose proof (interface_emitting _ _ Hi) as Hem.
  eapply wp_mono; [apply (drop_lock_sound notif_panics t [] []); [apply Hc|]|].
  { eapply lock_state_and; [done|]. by left. }
  intros [[] s'] (Hok & Hs & Hrq & _). assert (Hsame : same_but_handles (core_processes c) s') by done.
  split; [|done]. split; try done; try apply Hc.
  - eapply (wake_procs_ok 0); [by left|]. apply Hc.
  - eapply (wake_quiet _ 0); [by left|]. apply Hc.
  - eapply requests_look; [intros h; by apply same_look|].
    intros j threads' other' Hj. simpl in Hj. apply lookup_insert_Some in Hj as [[<- [= <- <-]]|[Hne Hj]].
    2:{ by apply (co_requests _ _ _ _ Hc _ _ _ Hj). }
    assert (Hold : NoDup threads ∧ tl_tid t ∉ threads ∧ ∀ h st0 id v,
      look (core_processes c) h = Some (st0, id, v) → id ∈ threads → st_interface st0 = Some i).
    { destruct Hwas as [[_ ->]|Hwas]; [|].
      - split_and!; [constructor|set_solver|set_solver].
      - destruct (co_requests _ _ _ _ Hc _ _ _ Hwas) as (? & ? & ?). split_and!; try done. by eapply Hun. }
    destruct Hold as (Hnd & Hnot & Hlive). split_and!.
    + apply NoDup_app. split_and!; [done|set_solver|apply NoDup_singleton].
    + by eapply lock_hash; [apply Hc|..].
    + intros h st0 id v Hlook [Hin|Hin]%elem_of_app; [by eapply Hlive|].
      apply list_elem_of_singleton in Hin as ->. apply look_ud in Hlook as (d & Hd & <- & Hid).
      destruct Hls as (h' & d' & Hd' & Hid' & <-).
      assert (h' = h) as -> by (eapply (pc_tids _ _ _ _ _ (proj2 (co_px _ _ _ _ Hc))); [done|done|congruence]).
      congruence.
  - simpl. intros pid Hin. rewrite (same_proc _ _ _ Hsame). by apply (co_reserved _ _ _ _ Hc).
Qed.

Lemma refuse_core_sound t st i c :
  core_but [t] [] (λ _, False) c → unrequested (interfaces c) (tl_tid t) →
  lock_state (px_inner (core_processes c)) t (λ st', st' = st) → st_interface st = Some i →
  wp notif_panics (refuse_emit t (core_processes c)) (λ '(_, s'), core_ok (with_px s' c) ∧
    ∃ d d', lock_change (px_inner (core_processes c)) t d d' (px_inner s') ∧
      refused d d' (local_run_queue (core_processes c)) (local_run_queue s')).
Proof.
  intros Hc Hun Hls Hi. pose proof (interface_emitting _ _ Hi) as Hem.
  eapply wp_mono; [eapply wp_weaken; [apply (refuse_emit_sound t [] []); [apply Hc|by eapply lock_state_and]|by intros ? []]|].
  intros [[] s'] (Hok & d & d' & Hch & Href). split; [|by eauto].
  apply (core_but_px _ _ _ _ _ _ _ _ Hc); [done|..].
  - eapply procs_change; [done|]. apply Hc.
  - eapply quiet_change; [done| |apply Hc]. intros _ p _. unfold refused in Href.
    destruct (state (th_user_data d)); try done; by destruct Href as (-> & _).
  - eapply requests_change; [done|done|]. apply Hc.
  - eauto with no_new.
Qed.

Lemma thread_emit_sound fuel t st i c :
  (deep = true → fresh_ids c) → core_but [t] [] (λ _, False) c → unrequested (interfaces c) (tl_tid t) →
  lock_state (px_inner (core_processes c)) t (λ st', st' = st) → st_interface st = Some i →
  wlp (starved fuel c) notif_panics (thread_emit_message fuel t c) (λ '(r, c'),
    core_ok c' ∧ ∃ s1, used_by (tl_pid t) i (core_processes c) s1 ∧
      emit_outcome t st i (with_px s1 c) r c').
Proof.
  intros Hfresh Hc Hun Hls Hi. pose proof (interface_emitting _ _ Hi) as Hem.
  pose proof (co_px _ _ _ _ Hc) as Hok. unfold thread_emit_message.
  apply wlp_Mbind, wlp_zoom. rewrite (lock_pid_ok t [] [] _ Hok). simpl.
  apply wlp_Mbind, wlp_zoom. simpl. rewrite (emit_interface_ok t [] [] _ Hok i) by (by eapply lock_state_and).
  simpl. apply wlp_Mbind, wlp_zoom. simpl.
  eapply wlp_wp; [by apply (used_by_sound t [] [] i)|by intros ? []|].
  intros [[] s1] [Hok1 Hused]. apply wlp_Mbind. simpl.
  pose proof (used_by_core _ _ _ _ _ _ _ Hc Hok1 Hused) as Hc1.
  assert (Hls1 : lock_state (px_inner s1) t (λ st', st' = st)).
  { destruct Hls as (h & d & ? & ? & ?). destruct Hused as (_ & _ & Hu & _). exists h, d. by rewrite Hu. }
  apply wlp_Mbind, wlp_zoom. simpl.
  rewrite (allow_delay_ok t [] [] _ Hok1 (st_delay st)) by (by eapply lock_state_and). simpl.
  assert (Hfin : ∀ m : outcome (option CoreRunOutcome * Core),
    wlp (starved fuel c) notif_panics m (λ '(r, c'), core_ok c' ∧ emit_outcome t st i (with_px s1 c) r c') →
    wlp (starved fuel c) notif_panics m (λ '(r, c'), core_ok c' ∧ ∃ s1, used_by (tl_pid t) i (core_processes c) s1 ∧
      emit_outcome t st i (with_px s1 c) r c')).
  { intros m Hm. eapply wlp_mono; [exact Hm|]. intros [r c'] [? ?]. eauto. }
  apply Hfin. clear Hfin. unfold emit_outcome. simpl.
  destruct (interfaces c !! i) as [[pid|threads other]|] eqn:Hint; [|destruct (st_delay st)..].
  - apply (deliver_emit_sound fuel t st i pid (with_px s1 c)); try done. intros Hdeep.
    destruct Hused as (_ & _ & _ & Hp). intros id pool pid' p' Hid. simpl. rewrite Hp. intros (p & Hp0 & ->)%fmap_Some.
    assert (Hq : Forall (λ n, notif_id n ≠ id) (notifications_queue p)) by (by eapply Hfresh). by case_decide.
  - apply wlp_Mbind. simpl. apply wlp_Mbind, wlp_zoom. simpl.
    eapply wlp_wp; [exact (request_sound t st i (with_px s1 c) _ threads other Hc1 Hun Hls1 Hi eq_refl (or_intror Hint))|done|].
    intros [[] s2] [? ?]. simpl. eauto.
  - apply wlp_Mbind, wlp_zoom. simpl.
    eapply wlp_wp; [by apply (refuse_core_sound t st i (with_px s1 c))|done|].
    intros [[] s2] (? & d & d' & ? & ?). simpl. eauto 10.
  - apply wlp_Mbind. simpl. apply wlp_Mbind, wlp_zoom. simpl.
    eapply wlp_wp; [exact (request_sound t st i (with_px s1 c) _ [] [] Hc1 Hun Hls1 Hi eq_refl (or_introl (conj Hint eq_refl)))|done|].
    intros [[] s2] [? ?]. simpl. eauto.
  - apply wlp_Mbind, wlp_zoom. simpl.
    eapply wlp_wp; [by apply (refuse_core_sound t st i (with_px s1 c))|done|].
    intros [[] s2] (? & d & d' & ? & ?). simpl. eauto 10.
Qed.

(** * Running *)

(** [run_once] has nothing to report [fuel] times in a row. *)
Fixpoint spins (fuel : nat) s : Prop :=
  match fuel with
  | O => True
  | S fuel => ∃ s', run_once s = Done (None, s') ∧ spins fuel s'
  end.

Lemma px_run_sound fuel s :
  px_ok [] [] s →
  wlp (spins fuel s) run_panics (px_run fuel s) (λ '(ev, s'),
    inner_borrowed s' = false ∧ run_post (px_inner s) (Some ev) (px_inner s') (local_run_queue s')).
Proof.
  revert s. induction fuel as [|fuel IH]; intros s Hok; [done|]. cbn [px_run spins].
  unfold mbind, M_bind. pose proof (run_once_sound s Hok) as Hrun.
  destruct (run_once s) as [[[ev|] s']|r|]; [done| |done|done].
  destruct Hrun as (Hb & Hcar & Hcore). specialize (IH s' (conj Hb Hcore)).
  destruct (px_run fuel s') as [[ev s'']|r|]; simpl in *.
  - destruct IH as [? ?]. split; [done|]. by eapply run_post_trans.
  - done.
  - eauto.
Qed.

Lemma no_new_carried s s' : carried (px_inner s) (px_inner s') → no_new s s'.
Proof.
  intros [_ Hpl] pid Hno. apply eq_None_not_Some. intros [p (x & Hx & ->)%fmap_Some].
  destruct (Hpl _ _ Hx) as (x0 & Hx0 & _). unfold proc_of in Hno. by rewrite Hx0 in Hno.
Qed.

(** The invariant after a run, but for the thread that it stopped. *)
Lemma carried_core L R c s' :
  core_ok c → px_ok L R s' → carried (px_inner (core_processes c)) (px_inner s') →
  core_but L R (λ id, id ∈ tl_tid <$> L) (with_px s' c) ∧
  ∀ t, t ∈ L → unrequested (interfaces c) (tl_tid t).
Proof.
  intros Hc Hok [Hthr Hpl]. pose proof (proj2 Hok) as Hcore. split.
  - apply (core_but_px _ _ _ _ _ _ _ _ Hc); [done|..].
    + intros pid p (x & Hx & ->)%fmap_Some. destruct (Hpl _ _ Hx) as (x0 & Hx0 & <-).
      apply (co_procs _ _ _ _ Hc pid). unfold proc_of. by rewrite Hx0.
    + intros h st id v p Hl (x & Hx & ->)%fmap_Some. apply look_ud in Hl as (d & Hd & <- & <-).
      destruct (Hpl _ _ Hx) as (x0 & Hx0 & <-). destruct (Hthr _ _ Hd) as (d0 & Hd0 & Hid & Heq).
      destruct (lt_external_user_data (th_user_data d)) as [u|] eqn:Hu.
      2:{ left. by apply (pc_threads _ _ _ _ _ Hcore _ _ Hd ltac:(done)). }
      right. assert (Hkeep : is_waiting (state (th_user_data d)) → quiet_thread (lp_external_user_data x0) (state (th_user_data d))).
      { intros Hw. rewrite Heq by (right; split; [by right|by eexists]).
        destruct (co_quiet _ _ _ _ Hc h (state (th_user_data d0)) (thread_id d0) (value_back d0)
          (lp_external_user_data x0)) as [[]|?]; [by apply ud_look| |done].
        unfold proc_of. by rewrite Hx0. }
      destruct (state (th_user_data d)); try done; by apply Hkeep.
    + intros i threads other Hi. destruct (co_requests _ _ _ _ Hc _ _ _ Hi) as (? & ? & Hlive).
      split_and!; try done. intros h st id v Hl Hin. apply look_ud in Hl as (d & Hd & <- & <-).
      destruct (Hthr _ _ Hd) as (d0 & Hd0 & Hid & Heq).
      assert (Hi0 : st_interface (state (th_user_data d0)) = Some i).
      { eapply Hlive; [by apply ud_look|]. by rewrite Hid. }
      rewrite Heq; [done|]. left. left. by eapply interface_emitting.
    + by apply no_new_carried.
  - intros t Ht i threads other Hi Hin.
    destruct (pc_locks _ _ _ _ _ Hcore t Ht) as (h & d & Hd & Hidd & _).
    destruct (Hthr _ _ Hd) as (d0 & Hd0 & Hid & Heq).
    destruct (co_requests _ _ _ _ Hc _ _ _ Hi) as (_ & _ & Hlive).
    assert (Hi0 : st_interface (state (th_user_data d0)) = Some i).
    { eapply Hlive; [by apply ud_look|]. by rewrite Hid, Hidd. }
    assert (d = d0) as -> by (apply Heq; left; left; by eapply interface_emitting).
    destruct (unlocked_ext [] [] _ _ _ _ (proj2 (co_px _ _ _ _ Hc)) Hd0) as [u Hu]; [set_solver|].
    destruct (pc_threads _ _ _ _ _ Hcore _ _ Hd ltac:(done)) as [Hl _].
    rewrite (proj2 Hl) in Hu; [done|]. rewrite Hidd. apply list_elem_of_fmap. eauto.
Qed.

Lemma quiet_mono (E E' : ThreadId → Prop) s :
  (∀ h st id v, look s h = Some (st, id, v) → E id → E' id ∨ ∀ p, quiet_thread p st) →
  quiet_but E s → quiet_but E' s.
Proof.
  intros HE Hq h st id v p Hl Hp. destruct (Hq _ _ _ _ _ Hl Hp) as [Hid|]; [|by right].
  destruct (HE _ _ _ _ Hl Hid); auto.
Qed.

(** A thread that emits a message does not have to be looked at. *)
Lemma emit_event_core t c s' :
  core_ok c → px_ok [t] [] s' → carried (px_inner (core_processes c)) (px_inner s') →
  lock_state (px_inner s') t is_emitting →
  core_but [t] [] (λ _, False) (with_px s' c) ∧ unrequested (interfaces c) (tl_tid t).
Proof.
  intros Hc Hok Hcar (h & d & Hd & Hid & Hem).
  destruct (carried_core [t] [] c s' Hc Hok Hcar) as [[] Hun]. split; [|apply Hun; by left].
  split; try done. eapply quiet_mono; [|done]. intros h' st' id v Hl Hin. right. intros p. simpl in Hin.
  apply list_elem_of_singleton in Hin as ->. apply look_ud in Hl as (d' & Hd' & <- & Hid').
  assert (h' = h) as -> by (eapply (pc_tids _ _ _ _ _ (proj2 Hok)); [done|done|congruence]).
  simpl in Hd'. rewrite Hd in Hd'. injection Hd' as <-. by destruct (state (th_user_data d)).
Qed.

(** A thread that asks for notifications. *)
Lemma wait_event_sound t c :
  core_but [t] [] (λ id, id ∈ tl_tid <$> [t]) c →
  lock_state (px_inner (core_processes c)) t is_waiting →
  wp notif_panics (try_resume_notification_wait_thread t (core_processes c)) (λ '(_, s'),
    core_ok (with_px s' c)).
Proof.
  intros Hc Hls. pose proof (co_px _ _ _ _ Hc) as Hok.
  destruct (pc_locks _ _ _ _ _ (proj2 Hok) t) as (h & d & Hd & Hid & Hpid); [by left|].
  destruct (look_proc (core_processes c) h (summary d)) as [p Hp]; [by apply ud_look|].
  rewrite Hpid in Hp.
  eapply wp_mono; [apply (try_resume_sound t [] [] _ p); try done; by apply (co_procs _ _ _ _ Hc _ _ Hp)|].
  intros [[] s'] (ids & Hids & Hpost).
  destruct (resume_post_wake t [] [] _ p ids s' Hok Hp Hls Hids Hpost)
    as (Hok' & i & d' & Hd' & Hid' & Hat).
  assert (Hw : wake (tl_pid t) (core_processes c) s') by (right; by exists i).
  apply (core_but_px _ _ _ _ _ _ _ _ Hc); [done|..].
  - eapply wake_procs_ok; [done|]. apply Hc.
  - pose proof (wake_quiet _ _ _ _ Hw (co_quiet _ _ _ _ Hc)) as Hq.
    intros h' st id v p' Hl Hp'. destruct (Hq _ _ _ _ _ Hl Hp') as [Hin|]; [right|by right].
    simpl in Hin. apply list_elem_of_singleton in Hin as ->.
    pose proof Hl as Hl'. apply look_ud in Hl' as (d2 & Hd2 & _ & Hid2).
    assert (h' = (tl_pid t, i)) as ->.
    { eapply (pc_tids _ _ _ _ _ (proj2 Hok')); [done|done|congruence]. }
    by eapply wake_at_quiet.
  - eapply requests_wake; [done|]. apply Hc.
  - eauto with no_new.
Qed.

(** The processes that handle the interfaces that a dead process used are
    told; an interface that has no handler at all stops the kernel. *)
Definition used_panics (l : list InterfaceHash) c (r : panic_reason) : Prop :=
  notif_panics r ∨ r = PUnreachable ∧ ∃ i, i ∈ l ∧ interfaces c !! i = None.

Lemma core_ok_px c s' :
  core_ok c → px_ok [] [] s' → procs_ok s' → quiet_but (λ _, False) s' →
  requests_ok (interfaces c) s' → no_new (core_processes c) s' → core_ok (with_px s' c).
Proof. apply core_but_px. Qed.

Lemma notify_used_sound pid l c :
  core_ok c →
  wp (used_panics l c) (notify_used pid l c) (λ '(_, c'), core_ok c' ∧
    (∀ i, i ∈ l → is_Some (interfaces c !! i)) ∧ ∃ s', c' = with_px s' c).
Proof.
  revert c. induction l as [|i l IH]; intros c Hc.
  { simpl. split_and!; [done|set_solver|]. exists (core_processes c). by destruct c. }
  assert (Hrest : ∀ s', core_ok (with_px s' c) → is_Some (interfaces c !! i) →
    wp (used_panics (i :: l) c) (notify_used pid l (with_px s' c)) (λ '(_, c'), core_ok c' ∧
      (∀ j, j ∈ i :: l → is_Some (interfaces c !! j)) ∧ ∃ s'', c' = with_px s'' c)).
  { intros s' Hs' Hi. eapply wp_mono; [eapply wp_weaken; [by apply IH|]|].
    - intros r [?|(? & j & ? & ?)]; [by left|right]. split; [done|]. exists j. split; [by right|done].
    - intros [[] c'] (? & Hall & s'' & ->). split_and!; [done| |by eauto].
      intros j [->|Hj]%elem_of_cons; [done|]. by apply Hall. }
  unfold notify_used. cbn [for_each]. apply wp_Mbind, wp_Mbind. simpl.
  destruct (interfaces c !! i) as [[h|threads other]|] eqn:Hi.
  - apply wp_Mbind, wp_zoom.
    eapply wp_mono; [eapply wp_weaken; [eapply (notify_process_sound (deep := deep) []); [apply Hc|apply Hc|apply Hc|]|by left]|].
    { by exists pid, 0. }
    intros [b s'] (Hok & Hprocs & Hq & Hb). simpl. apply Hrest; [|by eauto].
    apply core_ok_px; try done; destruct b; destruct Hb as [_ Hn]; subst; eauto with no_new; try apply Hc.
    2:{ done. }
    eapply requests_notified; [done|]. apply Hc.
  - simpl. assert (c = with_px (core_processes c) c) as Heq by (by destruct c).
    rewrite Heq at 2. apply Hrest; [by rewrite <-Heq|by eauto].
  - simpl. right. split; [done|]. exists i. split; [by left|done].
Qed.

Lemma process_finished_sound pid u out c :
  core_ok c → proc_ok u →
  wp (used_panics (hash_iter (used_interfaces u)).*1 c) (process_finished pid u out c)
    (λ '(r, c'), core_ok c' ∧ r = Some (ProgramFinished pid [] [] [] out) ∧
      (∀ i, is_Some (used_interfaces u !! i) → is_Some (interfaces c !! i)) ∧
      ∃ s', c' = with_px s' c).
Proof.
  intros Hc (_ & Hreg & Hem & Hans). unfold process_finished. rewrite Hreg, Hem, Hans.
  apply wp_Mbind. simpl. apply wp_Mbind. simpl. apply wp_Mbind.
  eapply wp_mono; [by apply notify_used_sound|]. intros [[] c'] (? & Hall & ?). split_and!; try done.
  intros i [x Hx]. apply Hall. apply list_elem_of_fmap. exists (i, x). by rewrite elem_of_hash_iter.
Qed.

(** When a process ends, the handlers of the interfaces that it used are
    notified, and the end is reported with nothing to cancel and nothing to
    unregister.  It gets there only if every interface that the process used,
    the refused attempts included, has a handler or is being waited for:
    otherwise the kernel stops on an [unreachable!()]. *)
Theorem process_finished_ok pid u out c :
  core_ok c → proc_ok u →
  wp (used_panics (hash_iter (used_interfaces u)).*1 c) (process_finished pid u out c)
    (λ '(r, c'), core_ok c' ∧ r = Some (ProgramFinished pid [] [] [] out) ∧
      (∀ i, is_Some (used_interfaces u !! i) → is_Some (interfaces c !! i)) ∧
      ∃ s', c' = with_px s' c).
Proof. apply process_finished_sound. Qed.

(** What may stop [run_inner]. *)
Definition core_panics (r : panic_reason) : Prop :=
  run_panics r ∨ notif_panics r ∨ r = PUnreachable.

Lemma drop_event_sound pid c s' :
  core_ok c → px_ok [] [pid] s' → carried (px_inner (core_processes c)) (px_inner s') →
  wp no_panic (drop_proc pid s') (λ '(_, s''), core_ok (with_px s'' c)).
Proof.
  intros Hc Hok Hcar. destruct (carried_core [] [pid] c s' Hc Hok Hcar) as [Hc' _].
  eapply wp_mono; [by apply (drop_proc_sound [] [])|]. intros [[] s''] (Hok' & Hs & Hrq).
  assert (Hsame : same_but_handles s' s'') by done.
  apply core_ok_px; [done|done|..].
  - eapply (wake_procs_ok pid); [by left|]. apply (co_procs _ _ _ _ Hc').
  - eapply (wake_quiet _ pid); [by left|]. eapply quiet_mono; [|apply (co_quiet _ _ _ _ Hc')]. set_solver.
  - eapply requests_look; [intros h; by apply same_look|]. apply (co_requests _ _ _ _ Hc').
  - etrans; [by apply no_new_carried|]. eauto with no_new.
Qed.

Lemma answer_event_sound pid c s' id response :
  core_ok c → px_ok [] [pid] s' → carried (px_inner (core_processes c)) (px_inner s') →
  wp core_panics ((_ ← on_px (drop_proc pid); answer_message_inner id response) (with_px s' c))
    (λ '(_, c'), core_ok c').
Proof.
  intros Hc Hok Hcar. apply wp_Mbind, wp_zoom. simpl.
  eapply wp_mono; [eapply wp_weaken; [by apply (drop_event_sound pid c)|by intros ? []]|].
  intros [[] s''] Hc''. simpl.
  eapply wp_mono; [eapply wp_weaken; [by apply answer_inner_sound|]|].
  - intros r Hr. right. by left.
  - intros [r c'] [? _]. done.
Qed.

Lemma handle_event_sound fuel ev c s' :
  (deep = true → fresh_ids c) → core_ok c → inner_borrowed s' = false →
  run_post (px_inner (core_processes c)) (Some ev) (px_inner s') (local_run_queue s') →
  wlp (starved fuel c) core_panics (handle_event fuel ev (with_px s' c)) (λ '(_, c'), core_ok c').
Proof.
  intros Hfresh Hc Hb [Hcar Hev]. destruct ev as [pid u dead out|?|t|t|? pid id resp|? pid id|? pid id|]; simpl in Hev.
  - destruct Hev as (Hcore & _ & x & Hx & <-).
    destruct (carried_core [] [] c s' Hc (conj Hb Hcore) Hcar) as [Hc' _].
    assert (core_ok (with_px s' c)) as Hok.
    { destruct Hc'. split; try done. eapply quiet_mono; [|done]. set_solver. }
    simpl. eapply wlp_wp; [apply process_finished_sound; [done|]|..].
    + apply (co_procs _ _ _ _ Hc pid). unfold proc_of. by rewrite Hx.
    + intros r [?|[-> _]]; unfold core_panics; auto.
    + by intros [r c'] [? _].
  - done.
  - destruct Hev as [Hcore Hls].
    destruct (emit_event_core t c s' Hc (conj Hb Hcore) Hcar Hls) as [Hpre Hun].
    destruct (emitting_interface t [] [] s' (conj Hb Hcore) Hls) as (st & i & Hem & Hi & Hh & Hst).
    simpl.
    assert (Hfresh' : deep = true → fresh_ids (with_px s' c)).
    { intros Hdeep id pool pid p Hid (x & Hx & ->)%fmap_Some. destruct Hcar as [_ Hpl].
      destruct (Hpl _ _ Hx) as (x0 & Hx0 & <-). eapply (Hfresh Hdeep id pool pid); [done|].
      unfold proc_of. by rewrite Hx0. }
    pose proof (thread_emit_sound fuel t st i _ Hfresh' Hpre Hun Hst Hi) as Hres.
    destruct (thread_emit_message fuel t (with_px s' c)) as [[r c']|r|]; simpl in *; [apply Hres| |done].
    unfold core_panics. auto.
  - destruct Hev as [Hcore Hls].
    destruct (carried_core [t] [] c s' Hc (conj Hb Hcore) Hcar) as [Hc' _]. simpl.
    apply wlp_Mbind, wlp_zoom. simpl.
    eapply wlp_wp; [by apply (wait_event_sound t (with_px s' c))| |].
    + intros r ?. unfold core_panics. auto.
    + intros [[] s''] ?. done.
  - simpl. eapply wlp_wp; [by apply (answer_event_sound pid c s')|done|]. by intros [? ?].
  - simpl. eapply wlp_wp; [by apply (answer_event_sound pid c s')|done|]. by intros [? ?].
  - simpl. apply wlp_Mbind, wlp_zoom. simpl.
    eapply wlp_wp; [by apply (drop_event_sound pid c)|by intros ? []|].
    intros [[] s''] []. simpl. split; try done. by apply messages_delete.
  - simpl. destruct (carried_core [] [] c s' Hc (conj Hb Hev) Hcar) as [[] _].
    split; try done. eapply quiet_mono; [|done]. set_solver.
Qed.

Lemma run_inner_sound fuel c :
  (deep = true → fresh_ids c) → core_ok c →
  wlp (spins fuel (core_processes c) ∨ starved fuel c) core_panics (run_inner fuel c) (λ '(r, c'),
    core_ok c' ∧ match pending_events c with
      | ev :: rest => r = Some ev ∧ c' = with_events rest c
      | [] => True
      end).
Proof.
  intros Hfresh Hc. unfold run_inner. apply wlp_Mbind. simpl.
  destruct (pending_events c) as [|ev rest].
  2:{ simpl. split; [|done]. by destruct Hc. }
  apply wlp_Mbind, wlp_zoom. pose proof (px_run_sound fuel _ (co_px _ _ _ _ Hc)) as Hrun.
  destruct (px_run fuel (core_processes c)) as [[ev s']|r|]; simpl in *.
  - destruct Hrun as [Hb Hpost]. pose proof (handle_event_sound fuel ev c s' Hfresh Hc Hb Hpost) as Hev.
    destruct (handle_event fuel ev (with_px s' c)) as [[r c']|r|]; simpl in *; auto.
  - unfold core_panics. auto.
  - auto.
Qed.

End core.

Abbreviation core_but := (core_at (deep := false)).
Abbreviation core_ok := (core_ok_at (deep := false)).

Section claims.
Context `{Rng} `{!RngLaws} `{Wasmi} `{!HashIter Z} `{!HashIter (list Init.Byte.byte)} `{Extrinsics}.
Context `{!WasmiLaws} `{!WasmiMemoryLaws} `{!ExtrinsicsLaws}.
Local Abbreviation thread_lock := (ThreadLock (TTud := unit)).
Implicit Types (t : thread_lock) (c : Core).

(** C2: a message that a thread emits goes to the handler of its interface:
    it is given a fresh identifier if the thread wants an answer, the thread
    goes on, and the handler gets exactly one notification with the message
    (or the message is handed out if the handler is a reserved identifier).
    With no handler, the thread either waits in the list of the interface, in
    order of arrival, or learns at once that its message was refused.  The
    invariant is kept; the identifiers are the only source of non-termination,
    when every one that is drawn is unusable. *)
Theorem thread_emit_ok fuel t st i c :
  core_but [t] [] (λ _, False) c → unrequested (interfaces c) (tl_tid t) →
  lock_state (px_inner (core_processes c)) t (λ st', st' = st) → st_interface st = Some i →
  wlp (starved fuel c) notif_panics (thread_emit_message fuel t c) (λ '(r, c'),
    core_ok c' ∧ ∃ s1, used_by (tl_pid t) i (core_processes c) s1 ∧
      emit_outcome t st i (with_px s1 c) r c').
Proof. by apply thread_emit_sound. Qed.

(** No thread of any process waits, by itself or inside an extrinsic, for a
    notification that the queue of its process holds. *)
Definition all_quiet c : Prop := ∀ pid, all_woken pid (core_processes c).

Lemma core_deep c : core_ok c → all_quiet c → core_ok_at (deep := true) c.
Proof. intros [] Hq. split; try done. intros [pid i] st id v p Hl Hp. right. by eapply Hq. Qed.

(** C1: one step of the scheduler keeps the invariant of [Core]: the events
    already pending are reported first, in order; otherwise programs run until
    one of them stops, and the call that it made is carried out.  In
    particular no thread that asked for notifications is left blocked while its
    process has one for it, and every thread recorded as waiting for an interface
    emits on it.  The same holds of the threads that wait for an answer inside
    an extrinsic, as long as no identifier that is drawn is that of an answer
    that was not read yet.  What can stop the kernel is listed by
    [core_panics]; it runs forever only if the programs never stop or every
    identifier drawn is unusable. *)
Theorem run_inner_ok fuel c :
  core_ok c →
  wlp (spins fuel (core_processes c) ∨ starved fuel c) core_panics (run_inner fuel c) (λ '(r, c'),
    core_ok c' ∧ (all_quiet c → fresh_ids c → all_quiet c') ∧ match pending_events c with
      | ev :: rest => r = Some ev ∧ c' = with_events rest c
      | [] => True
      end).
Proof.
  intros Hc. pose proof (run_inner_sound (deep := false) fuel c ltac:(done) Hc) as Hshallow.
  pose proof (λ Hq Hf, run_inner_sound (deep := true) fuel c (λ _, Hf) (core_deep c Hc Hq)) as Hdeep.
  destruct (run_inner fuel c) as [[r c']| |]; try done. destruct Hshallow as [? ?].
  split; [done|]. split; [|done]. intros Hq Hf. destruct (Hdeep Hq Hf) as [Hc' _].
  intros pid i st id v p Hl Hp. by destruct (co_quiet _ _ _ _ Hc' _ _ _ _ _ Hl Hp).
Qed.

End claims.
