(* ===== verification/IpcHandlers.v ===== *)
(** Registering interfaces, and the messages and processes that come from the
    outside. *)
From S2P Require Import Prelude IdPool WasmValue Ffi Calls Vm ExtrinsicsApi Processes.
From S2P Require Import ProcessesFrame Extrinsics ExtrinsicsInv ExtrinsicsLocks ExtrinsicsLife.
From S2P Require Import Ipc IpcInv IpcWake IpcCore.

Section handlers.
Context `{Rng} `{!RngLaws} `{Wasmi} `{!HashIter Z} `{!HashIter (list Init.Byte.byte)} `{Extrinsics}.
Context `{!WasmiLaws} `{!WasmiMemoryLaws} `{!ExtrinsicsLaws}.
Local Abbreviation PX := (ProcessesCollectionExtrinsics (TPud := IpcProcess) (TTud := unit)).
Local Abbreviation thread_lock := (ThreadLock (TTud := unit)).
Implicit Types (s : PX) (t : thread_lock) (L : list thread_lock) (R : list Pid) (pid : Pid)
  (n : NotificationBuilder) (p : IpcProcess) (c : Core) (i : InterfaceHash)
  (d : Thread (LocalThreadUserData (TTud := unit))).

(** A message with its emitter and its identifier. *)
Local Abbreviation message := (Pid * option MessageId * EncodedMessage)%type.
Implicit Types (m : message).

Definition message_notif i m : NotificationBuilder :=
  NbInterface (build_interface_notification i m.1.2 m.1.1 0 m.2).
Definition message_event i m : CoreRunOutcome := ReservedPidInterfaceMessage m.1.1 m.1.2 i m.2.

Lemma message_notif_ok i m : is_hash i → notif_ok (message_notif i m).
Proof. intros Hi. destruct m as [[pid mid] data]. by exists i, mid, pid, 0, data. Qed.

(** * Fuel *)

(** [c'] was obtained from [c] by drawing identifiers, and every message that
    waits in [c'] waited in [c] or was given one of them. *)
Definition drawn_from c c' : Prop :=
  ∃ k ids, assign_n k (message_id_pool c) = Done (ids, message_id_pool c') ∧
    ∀ id, is_Some (messages_to_answer c' !! id) → is_Some (messages_to_answer c !! id) ∨ id ∈ ids.

#[global] Instance drawn_from_preorder : PreOrder drawn_from.
Proof.
  split.
  - intros c. exists 0%nat, []. split; [done|]. auto.
  - intros c1 c2 c3 (k1 & ids1 & ? & Hm1) (k2 & ids2 & ? & Hm2).
    exists (k1 + k2)%nat, (ids1 ++ ids2). split; [by eapply assign_n_app|].
    intros id [Hid|Hid]%Hm2; [|set_solver]. destruct (Hm1 _ Hid); set_solver.
Qed.

Definition starved_later fuel c : Prop := ∃ c', drawn_from c c' ∧ starved fuel c'.

Lemma starved_later_trans fuel c c' : drawn_from c c' → starved_later fuel c' → starved_later fuel c.
Proof. intros Hd (c'' & ? & ?). exists c''. split; [by etrans|done]. Qed.

Lemma starved_now fuel c : starved fuel c → starved_later fuel c.
Proof. intros. by exists c. Qed.

Lemma issued_drawn b pid c mid c' : issued b pid c mid c' → drawn_from c c'.
Proof.
  destruct b; [|by intros [_ ->]].
  intros (id & pool & _ & (ids & Hids & _ & _) & _ & _ & ->).
  exists (S (length ids)), (ids ++ [id]). split; [done|]. simpl. intros id'.
  rewrite lookup_insert. case_decide; [subst; set_solver|]. auto.
Qed.

(** * Queueing messages *)

(** The notifications [ns] are added at the end of the queue of [pid]. *)
Definition queued_all pid (ns : list NotificationBuilder) s s' : Prop :=
  (∀ h, look s' h = look s h) ∧
  ∀ pid', proc_of s' pid' = (if decide (pid' = pid)
    then λ p, with_notifications (notifications_queue p ++ ns) p else id) <$> proc_of s pid'.

(** The invariant while messages are queued for [pid], whose threads may have
    something new. *)
Definition core_but_proc pid c : Prop := core_but [] [] (thread_of pid (core_processes c)) c.

Lemma look_in_process pid s s' id : (∀ h, look s' h = look s h) → thread_of pid s id → thread_of pid s' id.
Proof. intros Hl (j & st & v & Hj). exists j, st, v. by rewrite Hl. Qed.

Lemma queued_core pid n c s' :
  core_but_proc pid c → px_ok [] [] s' → queued_all pid [n] (core_processes c) s' → notif_ok n →
  core_but_proc pid (with_px s' c).
Proof.
  intros Hc Hok [Hl Hp] Hn. apply (core_but_px _ _ _ _ _ _ _ _ Hc); [done|..].
  - intros pid' p'. rewrite Hp. intros (p & Hp0 & ->)%fmap_Some.
    destruct (co_procs _ _ _ _ Hc _ _ Hp0) as (? & ? & ? & ?). case_decide; [|done].
    split_and!; try done. apply Forall_app. split; [done|by constructor].
  - intros [pid' j] st id v p'. simpl. rewrite Hp. intros Hlook (p & Hp0 & ->)%fmap_Some.
    case_decide as Hpid; [left; subst; by exists j, st, v|].
    rewrite Hl in Hlook. destruct (co_quiet _ _ _ _ Hc _ _ _ _ _ Hlook Hp0); [left|by right].
    by eapply look_in_process.
  - eapply requests_look; [done|]. apply Hc.
  - intros pid' Hno. by rewrite Hp, Hno.
Qed.

(** One message is queued, and the handle is dropped. *)
Lemma push_drop_sound pid i m c s0 (Q : unit * Core → Prop) :
  core_but_proc pid c → px_ok [] [pid] s0 → same_but_handles (core_processes c) s0 →
  is_Some (proc_of (core_processes c) pid) → is_hash i →
  (∀ s', core_but_proc pid (with_px s' c) →
     queued_all pid [message_notif i m] (core_processes c) s' → Q (tt, with_px s' c)) →
  wp no_panic ((_ ← on_px (push_notification pid (message_notif i m)); on_px (drop_proc pid))
    (with_px s0 c)) Q.
Proof.
  intros Hc Hok Hs0 Hsome Hi HQ. apply wp_Mbind, wp_zoom. simpl.
  eapply wp_mono; [apply (push_notification_sound [] [pid]); [done|by rewrite (same_proc _ _ _ Hs0)]|].
  intros [[] s1] [Hok1 Hq1]. apply wp_zoom. simpl.
  eapply wp_mono; [by apply (drop_proc_sound [] [])|]. intros [[] s2] (Hok2 & Hs2 & Hrq2).
  assert (Hsame : same_but_handles s1 s2) by done.
  assert (Hqa : queued_all pid [message_notif i m] (core_processes c) s2).
  { destruct Hq1 as (_ & _ & Hl1 & Hp1). split.
    - intros h. by rewrite (same_look _ _ _ Hsame), Hl1, (same_look _ _ _ Hs0).
    - intros pid'. by rewrite (same_proc _ _ _ Hsame), Hp1, (same_proc _ _ _ Hs0). }
  apply HQ; [|done]. eapply queued_core; [done|done|done|]. by apply message_notif_ok.
Qed.

Lemma queued_all_nil pid s : queued_all pid [] s s.
Proof.
  split; [done|]. intros pid'. case_decide; [|by destruct (proc_of s pid')].
  destruct (proc_of s pid') as [p|]; [|done]. simpl. by rewrite app_nil_r, with_notifications_same.
Qed.

Lemma queued_all_app pid ns1 ns2 s s1 s2 :
  queued_all pid ns1 s s1 → queued_all pid ns2 s1 s2 → queued_all pid (ns1 ++ ns2) s s2.
Proof.
  intros [Hl1 Hp1] [Hl2 Hp2]. split; [intros h; by rewrite Hl2, Hl1|].
  intros pid'. rewrite Hp2, Hp1. case_decide; destruct (proc_of s pid') as [p|]; try done. simpl.
  unfold with_notifications. simpl. by rewrite app_assoc.
Qed.

Lemma queued_all_proc pid ns s s' pid' : queued_all pid ns s s' → is_Some (proc_of s' pid') ↔ is_Some (proc_of s pid').
Proof. intros [_ Hp]. by rewrite Hp, fmap_is_Some. Qed.

(** The messages that waited for a handler are queued, in order. *)
Lemma send_others_sound pid i other c :
  core_but_proc pid c → is_Some (proc_of (core_processes c) pid) ∨ other = [] → is_hash i →
  wp no_panic (for_each (send_other i pid) other c) (λ '(_, c'), ∃ s', c' = with_px s' c ∧
    core_but_proc pid c' ∧ queued_all pid (message_notif i <$> other) (core_processes c) s').
Proof.
  intros Hc Hsome Hi. revert c Hc Hsome. induction other as [|m other IH]; intros c Hc Hsome.
  { simpl. exists (core_processes c). split_and!; [by destruct c|done|apply queued_all_nil]. }
  destruct Hsome as [Hsome|]; [|done]. cbn [for_each]. apply wp_Mbind. unfold send_other at 1.
  destruct m as [[epid mid] data]. apply wp_Mbind, wp_zoom.
  eapply wp_mono; [apply (handle_sound [] []); apply Hc|]. intros [[pid'|] s1] Hpost.
  2:{ destruct Hpost as [_ Hno]. rewrite Hno in Hsome. by destruct Hsome. }
  destruct Hpost as (-> & _ & Hok1 & Hs1).
  eapply (push_drop_sound pid i (epid, mid, data) c s1); try done. intros s2 Hc2 Hq2.
  eapply wp_mono; [apply (IH (with_px s2 c)); [done|left; by eapply queued_all_proc]|].
  intros [[] c'] (s3 & -> & Hc3 & Hq3). exists s3. split_and!; try done.
  rewrite fmap_cons. by eapply (queued_all_app _ [_]).
Qed.

(** * Waiting threads *)

(** Thread [tid] waits for its message [m] to be accepted. *)
Definition waiting_message s (tid : ThreadId) m : Prop :=
  ∃ h st v, look s h = Some (st, tid, v) ∧ m.1.1 = h.1 ∧ m.2 = st_message st ∧
    bool_decide (is_Some m.1.2) = st_needs_answer st.

Definition dead s (tid : ThreadId) : Prop := ∀ h st v, look s h ≠ Some (st, tid, v).

(** Message [m] of thread [tid] is sent to [pid], the new handler of [i]. *)
Definition forwarded pid i (tid : ThreadId) m c c' : Prop :=
  drawn_from c c' ∧ interfaces c' = interfaces c ∧ reserved_pids c' = reserved_pids c ∧
  pending_events c' = pending_events c ++
    (if proc_of (core_processes c) pid then [] else [message_event i m]) ∧
  (∀ h st id v, id ≠ tid →
     look (core_processes c') h = Some (st, id, v) ↔ look (core_processes c) h = Some (st, id, v)) ∧
  ∀ pid', proc_of (core_processes c') pid' = (if decide (pid' = pid)
    then λ p, with_notifications (notifications_queue p ++ [message_notif i m]) p else id)
    <$> proc_of (core_processes c) pid'.

Lemma core_but_mono L R (E E' : ThreadId → Prop) c :
  core_but L R E c → (∀ id, E id → E' id) → core_but L R E' c.
Proof. intros [] HE. split; try done. eapply quiet_mono; [|done]. eauto. Qed.

Lemma core_but_same L R L' R' E c s' :
  core_but L R E c → px_ok L' R' s' → same_but_handles (core_processes c) s' →
  core_but L' R' E (with_px s' c).
Proof.
  intros Hc Hok Hs. apply (core_but_px _ _ _ _ _ _ _ _ Hc); [done|..].
  - eapply (wake_procs_ok 0); [by left|apply Hc].
  - eapply (wake_quiet _ 0); [by left|apply Hc].
  - eapply requests_look; [intros h; by apply same_look|apply Hc].
  - eauto with no_new.
Qed.

Lemma change_in_process pid s t d d' s' id :
  lock_change (px_inner s) t d d' (px_inner s') → thread_of pid s id → thread_of pid s' id.
Proof.
  intros (h & Hh & Hid & Hid' & Hl & _)%lock_change_look (j & st & v & Hj).
  destruct (decide ((pid, j) = h)) as [<-|Hne].
  - rewrite Hh in Hj. injection Hj as <- Hj <-. exists j, (state (th_user_data d')), (value_back d').
    rewrite Hl, decide_True by done. unfold summary. congruence.
  - exists j, st, v. by rewrite Hl, decide_False.
Qed.

(** The thread of [t] once its message is accepted. *)
Lemma accepted_others t mid s msg s' :
  tids_inj (px_inner s) → accepted_emit t mid s msg s' →
  (∀ h st id v, id ≠ tl_tid t → look s' h = Some (st, id, v) ↔ look s h = Some (st, id, v)) ∧
  ∀ pid, proc_of s' pid = proc_of s pid.
Proof.
  intros Hinj (d & d' & Hch & _ & _). apply lock_change_look in Hch as (h & Hh & Hid & Hid' & Hl & Hp).
  split; [|done]. intros h' st id v Hne. rewrite Hl. case_decide; [|done]. subst h'.
  rewrite Hh. unfold summary. rewrite Hid, Hid'. naive_solver.
Qed.

Section accept.
Context (fuel : nat) i pid (tid : ThreadId) c (Hc : core_but_proc pid c) (Hi : is_hash i)
  (Hres : proc_of (core_processes c) pid = None → pid ∈ reserved_pids c).

(** The end of [accept_waiting], once the message was accepted. *)
Lemma forward_sound t mid msg c1 s1 s2 (Q : unit * Core → Prop) :
  px_ok [t] [] s1 → same_but_handles (core_processes c) s1 → interfaces c1 = interfaces c →
  reserved_pids c1 = reserved_pids c → pending_events c1 = pending_events c → drawn_from c c1 →
  tl_tid t = tid → core_but_proc pid (with_px s2 c1) →
  accepted_emit t mid s1 msg s2 →
  (∀ c', core_but_proc pid c' → forwarded pid i tid (tl_pid t, mid, msg) c c' → Q (tt, c')) →
  wp no_panic ((p ← on_px (px_process_by_id pid);
      match p with
      | Some p =>
          _ ← on_px (push_notification p (NbInterface
                (build_interface_notification i mid (tl_pid t) 0 msg)));
          on_px (drop_proc p)
      | None =>
          c ← get;
          _ ← liftM (debug_assert (bool_decide (pid ∈ reserved_pids c)));
          modify (λ c, with_events (pending_events c
            ++ [ReservedPidInterfaceMessage (tl_pid t) mid i msg]) c)
      end) (with_px s2 c1)) Q.
Proof.
  intros Hok1 Hs1 Hint Hrp Hev Hdr Htid Hc2 Hacc HQ.
  destruct (accepted_others _ _ _ _ _ (pc_tids _ _ _ _ _ (proj2 Hok1)) Hacc) as [Hl Hp].
  setoid_rewrite (same_look _ _ _ Hs1) in Hl. setoid_rewrite (same_proc _ _ _ Hs1) in Hp.
  apply wp_Mbind, wp_zoom. simpl. eapply wp_mono; [apply (handle_sound [] []); apply Hc2|].
  intros [[pid'|] s3] Hpost.
  - destruct Hpost as (-> & Hsome & Hok3 & Hs3).
    eapply (push_drop_sound pid i (tl_pid t, mid, msg) (with_px s2 c1) s3); try done.
    intros s4 Hc4 [Hl4 Hp4]. apply HQ; [done|]. split_and!; try done.
    + rewrite Hp in Hsome. destruct Hsome as [p ->]. simpl. by rewrite app_nil_r.
    + intros h st id v Hne. simpl. rewrite Hl4. apply Hl. by rewrite Htid.
    + intros pid'. simpl. by rewrite Hp4, <-Hp.
  - destruct Hpost as [-> Hno]. rewrite Hp in Hno. apply wp_Mbind. simpl. apply wp_Mbind, wp_liftM.
    rewrite bool_decide_true by (rewrite Hrp; by apply Hres). simpl. apply HQ.
    + by destruct Hc2.
    + split_and!; try done.
      * simpl. by rewrite Hno, Hev.
      * intros h st id v Hne. simpl. apply Hl. by rewrite Htid.
      * intros pid'. simpl. rewrite Hp. case_decide; [subst; by rewrite Hno|by destruct (proc_of _ pid')].
Qed.

Lemma accept_waiting_sound :
  (∀ h st v, look (core_processes c) h = Some (st, tid, v) →
     st_interface st = Some i ∧ unrequested (interfaces c) tid) →
  wlp (starved fuel c) (λ r, notif_panics r ∨ r = PUnreachable ∧ dead (core_processes c) tid)
    (accept_waiting fuel i pid tid c) (λ '(_, c'), core_but_proc pid c' ∧
      ∃ m, waiting_message (core_processes c) tid m ∧ forwarded pid i tid m c c').
Proof.
  intros Hlive. unfold accept_waiting. apply wlp_Mbind, wlp_zoom.
  eapply wlp_wp; [apply (interrupted_thread_by_id_sound [] []); apply Hc|by intros ? []|].
  intros [[[]|[t|t]] s1] Hpost; simpl in Hpost.
  - destruct Hpost as [-> Hno]. simpl. right. split; [done|]. intros h st v Hl.
    pose proof (Hlive _ _ _ Hl) as [Hst _]. apply look_ud in Hl as (d & Hd & <- & Hid).
    destruct (Hno _ _ Hd Hid) as [Hne _]. destruct Hne. by eapply interface_emitting.
  - set_solver.
  - destruct Hpost as (Htid & Hok1 & Hs1 & Hrq1 & Hls).
    assert (Hsame : same_but_handles (core_processes c) s1) by done.
    pose proof (core_but_same [] [] [t] [] _ _ _ Hc Hok1 Hsame) as Hc1.
    destruct (emitting_interface t [] [] s1 Hok1 Hls) as (st & i' & Hem & Hi' & _ & Hst).
    pose proof Hst as (h & d & Hd & Hid & Hdst).
    assert (Hl : look (core_processes c) h = Some (st, tid, value_back d)).
    { rewrite <-(same_look _ _ _ Hsame). rewrite (ud_look _ _ _ Hd). unfold summary. congruence. }
    destruct (Hlive _ _ _ Hl) as [Hsti Hun]. assert (i' = i) as -> by congruence.
    assert (Hpid : tl_pid t = h.1).
    { destruct (pc_locks _ _ _ _ _ (proj2 Hok1) t) as (h1 & d1 & Hd1 & Hid1 & <-); [by left|].
      f_equal. eapply (pc_tids _ _ _ _ _ (proj2 Hok1)); [done|done|congruence]. }
    apply wlp_Mbind, wlp_zoom. simpl. rewrite (emit_interface_ok t [] [] _ Hok1 i) by (by eapply lock_state_and).
    simpl. apply wlp_Mbind, wlp_liftM. rewrite bool_decide_true by done. simpl.
    apply wlp_Mbind, wlp_zoom. simpl. rewrite (lock_pid_ok t [] [] _ Hok1). simpl.
    apply wlp_Mbind. change (with_px s1 (with_px s1 (with_px s1 c))) with (with_px s1 c).
    pose proof (message_id_for_sound fuel t [] [] (tl_pid t) (with_px s1 c) (st_needs_answer st)
      Hok1 (co_pool _ _ _ _ Hc) (lock_state_and _ _ _ _ Hst (conj Hem eq_refl))) as Hid'.
    eapply wlp_mono; [eapply wlp_weaken; [exact Hid'|done|by intros ? []]|].
    intros [mid c2] Hiss. pose proof (issued_same _ _ _ _ _ Hiss) as (Hpx2 & Hint2 & Hres2 & Hev2 & Hmid).
    pose proof (issued_but _ _ _ _ _ _ _ _ Hc1 Hiss) as Hc2. simpl in Hpx2, Hint2, Hres2, Hev2.
    apply wlp_Mbind, wlp_zoom.
    eapply wlp_wp; [apply (accept_core_sound _ t [] mid c2 Hc2)|by left|].
    { by rewrite Hint2, Htid. }
    { rewrite Hpx2. eapply lock_state_and; [done|]. by rewrite Hmid. }
    { done. }
    intros [msg s3] [Hc3 Hacc]. rewrite Hpx2 in Hacc.
    assert (Hmsg : msg = st_message st).
    { destruct Hacc as (d0 & d' & Hch & -> & _). f_equal.
      apply (lock_state_data _ _ _ _ _ (λ st', st' = st) (pc_tids _ _ _ _ _ (proj2 Hok1)) Hch Hst). }
    assert (Hc3' : core_but_proc pid (with_px s3 c2)).
    { eapply core_but_mono; [exact Hc3|]. intros id Hin.
      destruct Hacc as (d0 & d' & Hch & _). eapply change_in_process; [exact Hch|].
      eapply look_in_process; [|exact Hin]. intros h'. by apply same_look. }
    eapply (wlp_wp no_panic); [|by intros ? []|intros a Ha; exact Ha].
    eapply (forward_sound t mid msg c2 s1 s3); try done.
    { etrans; [|by eapply issued_drawn]. exists 0%nat, []. split; [done|]. auto. }
    intros c' Hc' Hfw. split; [done|]. exists (tl_pid t, mid, msg). split; [|done].
    exists h, st, (value_back d). by split_and!.
  - destruct Hpost as (Htid & Hok1 & Hs1 & Hrq1 & (h & d & Hd & Hid & Hw)). exfalso.
    assert (Hl : look (core_processes c) h = Some (state (th_user_data d), tid, value_back d)).
    { rewrite <-(same_look _ s1 _) by done. rewrite (ud_look _ _ _ Hd). unfold summary. congruence. }
    apply Hlive in Hl as [Hl _]. by destruct (state (th_user_data d)).
Qed.

End accept.

(** The messages [ms] of the threads [tids] are sent to [pid]. *)
Definition forwarded_all pid i (tids : list ThreadId) (ms : list message) c c' : Prop :=
  drawn_from c c' ∧ interfaces c' = interfaces c ∧ reserved_pids c' = reserved_pids c ∧
  pending_events c' = pending_events c ++
    (if proc_of (core_processes c) pid then [] else message_event i <$> ms) ∧
  (∀ h st id v, id ∉ tids →
     look (core_processes c') h = Some (st, id, v) ↔ look (core_processes c) h = Some (st, id, v)) ∧
  ∀ pid', proc_of (core_processes c') pid' = (if decide (pid' = pid)
    then λ p, with_notifications (notifications_queue p ++ (message_notif i <$> ms)) p else id)
    <$> proc_of (core_processes c) pid'.

Lemma forwarded_all_nil pid i c : forwarded_all pid i [] [] c c.
Proof.
  split_and!; try done.
  - destruct (proc_of _ pid); by rewrite app_nil_r.
  - apply queued_all_nil.
Qed.

Lemma forwarded_all_cons pid i tid tids m ms c c1 c2 :
  forwarded pid i tid m c c1 → forwarded_all pid i tids ms c1 c2 →
  forwarded_all pid i (tid :: tids) (m :: ms) c c2.
Proof.
  intros (Hd1 & Hi1 & Hr1 & He1 & Hl1 & Hp1) (Hd2 & Hi2 & Hr2 & He2 & Hl2 & Hp2).
  split_and!; [by etrans|congruence|congruence| | |].
  - rewrite He2, He1, Hp1, decide_True by done.
    destruct (proc_of _ pid); simpl; by rewrite <-!app_assoc, ?app_nil_r.
  - intros h st id v [? ?]%not_elem_of_cons. by rewrite Hl2, Hl1.
  - intros pid'. rewrite Hp2, Hp1. case_decide; destruct (proc_of _ pid') as [p|]; try done. simpl.
    unfold with_notifications. simpl. by rewrite <-app_assoc.
Qed.

Definition waits_panics (tids : list ThreadId) s (r : panic_reason) : Prop :=
  notif_panics r ∨ r = PUnreachable ∧ ∃ tid, tid ∈ tids ∧ dead s tid.

Lemma accept_all_sound fuel i pid tids c :
  core_but_proc pid c → is_hash i → (proc_of (core_processes c) pid = None → pid ∈ reserved_pids c) →
  NoDup tids → (∀ tid h st v, tid ∈ tids → look (core_processes c) h = Some (st, tid, v) →
    st_interface st = Some i ∧ unrequested (interfaces c) tid) →
  wlp (starved_later fuel c) (waits_panics tids (core_processes c))
    (for_each (accept_waiting fuel i pid) tids c) (λ '(_, c'), core_but_proc pid c' ∧
      ∃ ms, Forall2 (waiting_message (core_processes c)) tids ms ∧ forwarded_all pid i tids ms c c').
Proof.
  intros Hc Hi Hres Hnd. revert c Hc Hres.
  induction Hnd as [|tid tids Hnot Hnd IH]; intros c Hc Hres Hlive.
  { simpl. split; [done|]. exists []. split; [constructor|apply forwarded_all_nil]. }
  cbn [for_each]. apply wlp_Mbind.
  eapply wlp_mono; [eapply wlp_weaken; [apply (accept_waiting_sound fuel i pid tid c Hc Hi Hres)|..]|].
  - intros h st v. apply Hlive. by left.
  - apply starved_now.
  - intros r [?|[-> ?]]; [by left|right]. split; [done|]. exists tid. split; [by left|done].
  - intros [[] c1] (Hc1 & m & Hm & Hfw). pose proof Hfw as (Hd1 & Hi1 & Hr1 & He1 & Hl1 & Hp1).
    eapply wlp_mono; [eapply wlp_weaken; [apply (IH c1 Hc1)|..]|].
    + rewrite Hp1, Hr1, decide_True by done. by destruct (proc_of (core_processes c) pid); auto.
    + intros tid' h st v Hin Hlook. rewrite Hi1. eapply Hlive; [by right|].
      apply Hl1; [|exact Hlook]. set_solver.
    + by apply starved_later_trans.
    + intros r [?|(-> & tid' & Hin & Hdead)]; [by left|right]. split; [done|]. exists tid'.
      split; [by right|]. intros h st v Hlook. apply (Hdead h st v), Hl1; [|done]. set_solver.
    + intros [[] c2] (Hc2 & ms & Hms & Hfa). split; [done|]. exists (m :: ms).
      split; [|by eapply forwarded_all_cons]. constructor; [done|].
      clear -Hms Hl1 Hnot. induction Hms as [|tid' m' tids' ms' Hm' _ IH]; constructor.
      * destruct Hm' as (h & st & v & Hl & Hrest). exists h, st, v. split; [|done].
        apply Hl1; [set_solver|done].
      * apply IH. set_solver.
Qed.

(** * Registering an interface *)

(** [process_exists] changes nothing but handles. *)
Lemma process_exists_sound pid c :
  core_ok c →
  wp no_panic (process_exists pid (core_processes c)) (λ '(b, s'),
    b = bool_decide (is_Some (proc_of (core_processes c) pid)) ∧ px_ok [] [] s' ∧
    same_but_handles (core_processes c) s').
Proof.
  intros Hc. unfold process_exists. apply wp_Mbind.
  eapply wp_mono; [apply (handle_sound [] []); apply Hc|]. intros [[pid'|] s1] Hpost.
  - destruct Hpost as (-> & Hsome & Hok1 & Hs1). apply wp_Mbind.
    eapply wp_mono; [by apply (drop_proc_sound [] [])|]. intros [[] s2] (Hok2 & Hs2 & Hrq2).
    simpl. rewrite bool_decide_true by done. split_and!; try done. destruct Hs1.
    split; [by etrans|congruence].
  - destruct Hpost as [-> Hno]. simpl. rewrite Hno. split_and!; try done. apply Hc.
Qed.

(** What may stop the registration of a handler: a message from the outside
    waits and the handler is not a process, or a waiting thread is dead. *)
Definition handler_panics pid i c (r : panic_reason) : Prop :=
  notif_panics r ∨ r = PUnreachable ∧ ∃ threads other,
    interfaces c !! i = Some (Is_Requested threads other) ∧
    (proc_of (core_processes c) pid = None ∧ other ≠ [] ∨
     ∃ tid, tid ∈ threads ∧ dead (core_processes c) tid).

(** What registering [pid] as the handler of [i] does. *)
Definition handler_set pid i c (r : unit + unit) c' : Prop :=
  match r with
  | inl _ => (proc_of (core_processes c) pid = None ∧ pid ∉ reserved_pids c ∨
        ∃ pid', interfaces c !! i = Some (Is_Process pid')) ∧
      ∃ s', c' = with_px s' c ∧ same_but_handles (core_processes c) s'
  | inr _ => (is_Some (proc_of (core_processes c) pid) ∨ pid ∈ reserved_pids c) ∧
      let m := <[i := Is_Process pid]> (interfaces c) in
      match interfaces c !! i with
      | Some (Is_Process _) => False
      | None => ∃ s', c' = with_px s' (with_interfaces m c) ∧ same_but_handles (core_processes c) s'
      | Some (Is_Requested threads other) => ∃ s1 c2 s3 ms,
          queued_all pid (message_notif i <$> other) (core_processes c) s1 ∧
          Forall2 (waiting_message s1) threads ms ∧
          forwarded_all pid i threads ms (with_px s1 (with_interfaces m c)) c2 ∧
          rtc (wake pid) (core_processes c2) s3 ∧ c' = with_px s3 c2
      end
  end.

(** The interface gets its handler; its list of threads is forgotten. *)
Lemma register_core pid i c s1 :
  core_ok c → px_ok [] [] s1 → same_but_handles (core_processes c) s1 →
  core_ok (with_px s1 (with_interfaces (<[i := Is_Process pid]> (interfaces c)) c)).
Proof.
  intros Hc Hok Hs. destruct (core_but_same _ _ [] [] _ _ _ Hc Hok Hs) as [? ? ? ? ? Hreq ?]. split; try done.
  intros j threads other. simpl. intros [[_ [=]]|[_ ?]]%lookup_insert_Some. by eapply Hreq.
Qed.

(** The threads that waited are only in the list of [i]. *)
Lemma waiting_unrequested pid i c threads other :
  core_ok c → interfaces c !! i = Some (Is_Requested threads other) →
  ∀ tid, tid ∈ threads → (∃ h st v, look (core_processes c) h = Some (st, tid, v)) →
    unrequested (<[i := Is_Process pid]> (interfaces c)) tid.
Proof.
  intros Hc Hi tid Hin (h & st & v & Hl) j threads' other' Hj Hin'.
  apply lookup_insert_Some in Hj as [[_ [=]]|[Hne Hj]].
  destruct (co_requests _ _ _ _ Hc _ _ _ Hi) as (_ & _ & Hl1).
  destruct (co_requests _ _ _ _ Hc _ _ _ Hj) as (_ & _ & Hl2).
  pose proof (Hl1 _ _ _ _ Hl Hin). pose proof (Hl2 _ _ _ _ Hl Hin'). congruence.
Qed.

(** The end of [set_interface_handler]. *)
Lemma wake_handler_sound pid c :
  core_but_proc pid c →
  wp notif_panics ((p ← on_px (px_process_by_id pid);
      _ ← match p with
          | Some p => on_px (try_resume_notification_wait p)
          | None => mret tt
          end;
      mret (inr tt : unit + unit)) c) (λ '(r, c'), r = inr tt ∧ core_ok c' ∧
    ∃ s', rtc (wake pid) (core_processes c) s' ∧ c' = with_px s' c).
Proof.
  intros Hc. apply wp_Mbind, wp_zoom.
  eapply wp_mono; [eapply wp_weaken; [apply (handle_sound [] []); apply Hc|by intros ? []]|].
  intros [[pid'|] s1] Hpost.
  - destruct Hpost as (-> & _ & Hok1 & Hs1). apply wp_Mbind, wp_zoom. simpl.
    pose proof (core_but_same _ _ [] [pid] _ _ _ Hc Hok1 Hs1) as Hc1.
    eapply wp_mono; [apply (try_resume_wait_sound (deep := false) (λ _, False) pid []); [done|apply Hc1|]|].
    { eapply quiet_mono; [|apply Hc1]. intros h st id v _ Hin. left. right.
      eapply look_in_process; [|exact Hin]. intros h'. by apply same_look. }
    intros [[] s2] (Hok2 & Hw & Hq2). simpl. assert (Hw' : rtc (wake pid) (core_processes c) s2).
    { eapply rtc_l; [by left|done]. }
    split_and!; [done| |by eauto]. apply (core_but_px _ _ _ _ _ _ _ _ Hc); [done|..|done| |].
    + eapply wake_rtc_procs_ok; [done|apply Hc].
    + eapply requests_rtc; [done|apply Hc].
    + eauto with no_new.
  - destruct Hpost as [-> Hno]. simpl. split_and!; [done| |].
    + apply (core_but_px _ _ _ _ _ _ _ _ Hc); [apply Hc|apply Hc| |apply Hc|done].
      eapply quiet_mono; [|apply Hc]. intros h st id v _ (j & st' & v' & Hj).
      apply look_proc in Hj. simpl in Hj. rewrite Hno in Hj. by destruct Hj.
    + exists (core_processes c). done.
Qed.

(** The messages that come from the outside cannot be sent to a handler that
    is not a process. *)
Lemma send_others_stop pid i other c :
  px_ok [] [] (core_processes c) → proc_of (core_processes c) pid = None → other ≠ [] →
  wp (λ r, r = PUnreachable) (for_each (send_other i pid) other c) (λ _, False).
Proof.
  intros Hok Hno Hne. destruct other as [|[[epid mid] data] other]; [done|].
  cbn [for_each]. apply wp_Mbind. unfold send_other at 1. apply wp_Mbind, wp_zoom.
  eapply wp_mono; [eapply wp_weaken; [by apply (handle_sound [] [])|by intros ? []]|].
  intros [[pid'|] s1] Hpost; [|done]. destruct Hpost as (_ & Hsome & _).
  rewrite Hno in Hsome. by destruct Hsome.
Qed.

(** The threads that waited for [i], once the other messages are queued. *)
Lemma register_threads_sound fuel i pid c s1 threads other :
  let c1 := with_px s1 (with_interfaces (<[i := Is_Process pid]> (interfaces c)) c) in
  core_ok c → interfaces c !! i = Some (Is_Requested threads other) →
  is_Some (proc_of (core_processes c) pid) ∨ pid ∈ reserved_pids c →
  core_but_proc pid c1 → queued_all pid (message_notif i <$> other) (core_processes c) s1 →
  wlp (starved_later fuel c) (handler_panics pid i c) ((
      _ ← for_each (accept_waiting fuel i pid) threads;
      p ← on_px (px_process_by_id pid);
      _ ← match p with
          | Some p => on_px (try_resume_notification_wait p)
          | None => mret tt
          end;
      mret (inr tt)) c1)
    (λ '(r, c'), core_ok c' ∧ handler_set pid i c r c').
Proof.
  intros c1 Hc Hint Hsome Hc1 Hq. pose proof Hq as [Hl Hp].
  destruct (co_requests _ _ _ _ Hc _ _ _ Hint) as (Hnd & Hi & Hlive).
  apply wlp_Mbind.
  eapply wlp_mono; [eapply wlp_weaken; [apply (accept_all_sound fuel i pid threads c1 Hc1 Hi)|..]|].
  - simpl. rewrite Hp. destruct Hsome as [[p ->]|?]; [done|auto].
  - done.
  - intros tid h st v Hin Hlook. simpl in Hlook. rewrite Hl in Hlook.
    split; [by eapply Hlive|]. eapply waiting_unrequested; eauto.
  - intros (c' & ? & ?). by exists c'.
  - intros r [?|(-> & tid & Hin & Hdead)]; [by left|right]. split; [done|].
    exists threads, other. split; [done|]. right. exists tid. split; [done|].
    intros h st v. simpl in Hdead. rewrite <-Hl. apply Hdead.
  - intros [[] c2] (Hc2 & ms & Hms & Hfa).
    eapply wlp_wp; [by apply (wake_handler_sound pid c2)|by left|].
    intros [r c'] (-> & Hc' & s3 & Hw & ->). split; [done|]. split; [done|]. rewrite Hint.
    by exists s1, c2, s3, ms.
Qed.

Lemma set_handler_sound fuel i pid c :
  core_ok c → is_hash i →
  wlp (starved_later fuel c) (handler_panics pid i c) (set_interface_handler fuel i pid c)
    (λ '(r, c'), core_ok c' ∧ handler_set pid i c r c').
Proof.
  intros Hc Hi. pose proof (co_reserved _ _ _ _ Hc pid) as Hdisj. unfold set_interface_handler. apply wlp_Mbind, wlp_zoom.
  eapply wlp_wp; [by apply (process_exists_sound pid)|by intros ? []|].
  intros [b s1] (Hb & Hok1 & Hs1). apply wlp_Mbind. simpl.
  pose proof (core_but_same _ _ [] [] _ _ _ Hc Hok1 Hs1) as Hc1.
  assert (Hexist : if b then is_Some (proc_of (core_processes c) pid) else proc_of (core_processes c) pid = None).
  { subst b. case_bool_decide as Hx; [done|]. by apply eq_None_not_Some. }
  clear Hb. destruct (negb b && negb (bool_decide (pid ∈ reserved_pids c))) eqn:Hbad.
  { simpl. split; [done|]. split; [|by eauto]. left. destruct b; [done|].
    by case_bool_decide. }
  assert (Hsome : is_Some (proc_of (core_processes c) pid) ∨ pid ∈ reserved_pids c).
  { destruct b; [by left|]. right. by case_bool_decide. }
  apply wlp_Mbind, wlp_liftM.
  replace (negb b || negb (bool_decide (pid ∈ reserved_pids c))) with true.
  2:{ destruct b; [|done]. rewrite bool_decide_false; [done|]. intros Hin.
      rewrite Hdisj in Hexist by done. by destruct Hexist. }
  simpl. destruct (interfaces c !! i) as [[pid'|threads other]|] eqn:Hint.
  - simpl. split; [done|]. split; [|by eauto]. right. by exists pid'.
  - pose proof (register_core pid i c s1 Hc Hok1 Hs1) as Hc0. apply wlp_Mbind. simpl. apply wlp_Mbind.
    destruct (decide (is_Some (proc_of (core_processes c) pid) ∨ other = [])) as [Hsend|Hno].
    + eapply wlp_wp; [apply (send_others_sound pid i other)|by intros ? []|].
      * by eapply core_but_mono.
      * simpl. by rewrite (same_proc _ _ _ Hs1).
      * done.
      * intros [[] c1] (s2 & -> & Hc2 & [Hl2 Hp2]).
        eapply (register_threads_sound fuel i pid c s2 threads other); try done. split.
        -- intros h. by rewrite Hl2, <-(same_look _ _ _ Hs1).
        -- intros pid'. by rewrite Hp2, <-(same_proc _ _ _ Hs1).
    + eapply wlp_wp; [apply (send_others_stop pid i other)| |done].
      * done.
      * simpl. rewrite (same_proc _ _ _ Hs1). apply eq_None_not_Some. naive_solver.
      * naive_solver.
      * intros r ->. right. split; [done|]. exists threads, other. split; [done|]. left.
        split; [apply eq_None_not_Some|]; naive_solver.
  - simpl. pose proof (register_core pid i c s1 Hc Hok1 Hs1) as Hreg. split; [done|].
    split; [done|]. rewrite Hint. by exists s1.
Qed.

(** C4: registering a handler fails exactly if the process does not exist (and
    is not a reserved identifier) or the interface has a handler already;
    otherwise the handler gets, in order, the messages that were sent from the
    outside and those of the threads that waited, whose threads go on, and its
    own threads are woken up.  The invariant is kept.  The kernel stops if a
    waiting thread is dead, or if a message from the outside waits and the
    handler is a reserved identifier. *)
Theorem set_interface_handler_ok fuel i pid c :
  core_ok c → is_hash i →
  wlp (starved_later fuel c) (handler_panics pid i c) (set_interface_handler fuel i pid c)
    (λ '(r, c'), core_ok c' ∧ handler_set pid i c r c').
Proof. apply set_handler_sound. Qed.

(** * Messages from the outside *)

(** An identifier is drawn for a message, if [b]. *)
Definition chosen (b : bool) c (mid : option MessageId) c' : Prop :=
  if b then ∃ id pool, mid = Some id ∧ first_usable c id pool ∧ is_u64 id ∧ pool_ok pool ∧
    c' = with_message_pool pool c
  else mid = None ∧ c' = c.

(** The message waits for its answer. *)
Definition recorded (mid : option MessageId) pid c : Core :=
  match mid with
  | Some id => with_messages (<[id := pid]> (messages_to_answer c)) c
  | None => c
  end.

(** What a message [data] that [pid] sends from the outside becomes. *)
Definition outside_sent pid i (data : EncodedMessage) (b : bool) c (mid : option MessageId) c' : Prop :=
  ∃ c1, chosen b c mid c1 ∧
    match interfaces c !! i with
    | Some (Is_Process h) => match proc_of (core_processes c) h with
        | Some _ => ∃ s2, notified_process h (message_notif i (pid, mid, data)) (core_processes c) s2 ∧
            c' = recorded mid pid (with_px s2 c1)
        | None => pid ∈ reserved_pids c ∧
            c' = recorded mid pid (with_events (pending_events c
              ++ [message_event i (pid, None, data)]) c1)
        end
    | None => c' = with_interfaces (<[i := Is_Requested [] [(pid, mid, data)]]> (interfaces c)) c1
    | Some (Is_Requested threads other) => c' = with_interfaces
        (<[i := Is_Requested threads (other ++ [(pid, mid, data)])]> (interfaces c)) c1
    end.

Lemma core_recorded mid pid b c c1 c2 :
  core_ok c2 → chosen b c mid c1 → core_ok (recorded mid pid c2).
Proof.
  intros Hc Hch. destruct b; [|by destruct Hch as [-> _]].
  destruct Hch as (id & pool & -> & (ids & _ & _ & Hu) & Hid & _ & _).
  destruct Hc. split; try done. simpl. intros id' pid' [[<- <-]|[_ ?]]%lookup_insert_Some; [|by eauto].
  unfold usable in Hu. apply bool_decide_eq_true in Hu. unfold is_u64 in *. split; [done|]. lia.
Qed.

Lemma choose_sound fuel (b : bool) c :
  core_ok c →
  wlp (b = true ∧ starved fuel c) no_panic
    ((if b then (id ← choose_message_id fuel; mret (Some id)) else mret None) c)
    (λ '(mid, c1), core_ok c1 ∧ chosen b c mid c1).
Proof.
  intros Hc. destruct b; [|done]. apply wlp_Mbind.
  eapply wlp_mono; [eapply wlp_weaken; [apply choose_message_id_sound, Hc|done|done]|].
  intros [id c1] (pool & Hfu & Hid & Hpool & ->). simpl. split.
  - destruct Hc. by split.
  - by eexists _, _.
Qed.

Lemma request_other_core c1 i threads other :
  core_ok c1 → is_hash i →
  default (Is_Requested [] []) (interfaces c1 !! i) = Is_Requested threads other → ∀ other',
  core_ok (with_interfaces (<[i := Is_Requested threads other']> (interfaces c1)) c1).
Proof.
  intros Hc Hi Hd other'. destruct Hc as [? ? ? ? ? Hreq ?]. split; try done.
  intros j threads' other''. simpl. intros [[<- [= <- <-]]|[_ ?]]%lookup_insert_Some; [|by eapply Hreq].
  destruct (interfaces c1 !! i) as [st|] eqn:Hint; simpl in Hd; subst.
  - by destruct (Hreq _ _ _ Hint).
  - injection Hd as <- <-. split_and!; [constructor|done|]. intros ???? _ []%elem_of_nil.
Qed.

Lemma emit_interface_sound fuel pid i data b c :
  core_ok c → is_hash i →
  wlp (b = true ∧ starved fuel c) (λ r, notif_panics r ∨ r = PUnimplemented ∧ pid ∉ reserved_pids c)
    (emit_interface_message_inner fuel pid i data b c) (λ '(mid, c'),
      core_ok c' ∧ outside_sent pid i data b c mid c').
Proof.
  intros Hc Hi. unfold emit_interface_message_inner. apply wlp_Mbind.
  eapply wlp_mono; [eapply wlp_weaken; [by apply (choose_sound fuel b)|done|by intros ? []]|].
  intros [mid c1] [Hc1 Hch]. apply wlp_Mbind. simpl.
  assert (Hsame : core_processes c1 = core_processes c ∧ interfaces c1 = interfaces c ∧
    reserved_pids c1 = reserved_pids c ∧ pending_events c1 = pending_events c).
  { destruct b; [by destruct Hch as (? & ? & _ & _ & _ & _ & ->)|by destruct Hch as [_ ->]]. }
  destruct Hsame as (Hpx & Hint & Hres & Hev).
  destruct (default (Is_Requested [] []) (interfaces c1 !! i)) as [h|threads other] eqn:Hd.
  2:{ apply wlp_Mbind. simpl. split; [by eapply request_other_core|]. exists c1. split; [done|].
      rewrite Hint in Hd |- *. destruct (interfaces c !! i) as [[]|]; simplify_eq/=; done. }
  assert (Hi' : interfaces c !! i = Some (Is_Process h)).
  { rewrite Hint in Hd. destruct (interfaces c !! i); simplify_eq/=; done. }
  apply wlp_Mbind, wlp_zoom.
  eapply wlp_wp; [apply (notify_process_sound (deep := false) [] h (message_notif i (pid, mid, data)));
    [apply Hc1|apply Hc1|apply Hc1|by apply message_notif_ok]|by left|].
  intros [del s2] (Hok2 & Hprocs2 & Hq2 & Hdel). rewrite Hpx in Hdel.
  apply wlp_Mbind. destruct del; simpl.
  - destruct Hdel as [[p Hp] Hn]. apply wlp_Mbind.
    assert (Hc2 : core_ok (with_px s2 c1)).
    { apply core_ok_px; try done.
      - eapply requests_notified; [done|]. rewrite <-Hpx. apply Hc1.
      - rewrite Hpx. eauto with no_new. }
    assert (Hrec : core_ok (recorded mid pid (with_px s2 c1))) by (by eapply core_recorded).
    assert (Hout : outside_sent pid i data b c mid (recorded mid pid (with_px s2 c1))).
    { exists c1. split; [done|]. rewrite Hi', Hp. by exists s2. }
    by destruct mid.
  - destruct Hdel as [Hp ->]. apply wlp_Mbind. simpl. rewrite Hres. case_bool_decide as Hin; simpl.
    2:{ by right. }
    apply wlp_Mbind. rewrite <-Hpx.
    assert (Hc2 : core_ok (with_events (pending_events c1 ++ [message_event i (pid, None, data)]) c1))
      by (by destruct Hc1).
    assert (Hrec := core_recorded mid pid b c c1 _ Hc2 Hch).
    assert (Hout : outside_sent pid i data b c mid
      (recorded mid pid (with_events (pending_events c1 ++ [message_event i (pid, None, data)]) c1))).
    { exists c1. split; [done|]. rewrite Hi', Hp, Hev. done. }
    by destruct mid, c1.
Qed.

Lemma emit_outside_sound fuel pid i data c :
  core_ok c → is_hash i → pid ∈ reserved_pids c →
  wlp (starved fuel c) notif_panics (emit_interface_message_answer fuel pid i data c)
    (λ '(id, c'), core_ok c' ∧ outside_sent pid i data true c (Some id) c') ∧
  wp notif_panics (emit_interface_message_no_answer fuel pid i data c)
    (λ '(_, c'), core_ok c' ∧ outside_sent pid i data false c None c').
Proof.
  intros Hc Hi Hr. split.
  - unfold emit_interface_message_answer. apply wlp_Mbind. simpl. apply wlp_Mbind, wlp_liftM.
    rewrite bool_decide_true by done. simpl. apply wlp_Mbind.
    eapply wlp_mono; [eapply wlp_weaken; [by apply emit_interface_sound|by intros [_ ?]|]|].
    + intros r [?|[_ ?]]; done.
    + intros [mid c'] [? Hout]. apply wlp_liftM.
      assert (∃ id, mid = Some id) as [id ->] by (destruct Hout as (? & (id & ? & -> & _) & _); eauto). done.
  - unfold emit_interface_message_no_answer. apply wp_Mbind. simpl. apply wp_Mbind, wp_liftM.
    rewrite bool_decide_true by done. simpl. apply wp_Mbind.
    pose proof (emit_interface_sound fuel pid i data false c Hc Hi) as He.
    destruct (emit_interface_message_inner fuel pid i data false c) as [[mid c']|r|]; simpl in *.
    + destruct He as [? Hout]. assert (mid = None) as -> by (by destruct Hout as (? & [-> _] & _)).
      apply wp_liftM. by rewrite bool_decide_true.
    + by destruct He as [?|[_ ?]].
    + by destruct He.
Qed.

(** A message sent from the outside on behalf of a reserved identifier is
    given a fresh identifier if an answer is wanted, and goes to the handler of
    the interface, which gets exactly one notification; without a handler it
    is kept, in order, until one is registered.  Only then is the identifier
    recorded as waiting for its answer.  The invariant is kept, and neither the
    [unreachable!()] nor the assertions of the two entry points fail. *)
Theorem emit_interface_message_ok fuel pid i data c :
  core_ok c → is_hash i → pid ∈ reserved_pids c →
  wlp (starved fuel c) notif_panics (emit_interface_message_answer fuel pid i data c)
    (λ '(id, c'), core_ok c' ∧ outside_sent pid i data true c (Some id) c') ∧
  wp notif_panics (emit_interface_message_no_answer fuel pid i data c)
    (λ '(_, c'), core_ok c' ∧ outside_sent pid i data false c None c').
Proof. apply emit_outside_sound. Qed.

(** The answer to a message sent from the outside to an interface that
    has no handler yet is lost: its identifier is not recorded as waiting for
    an answer, so that answering it, even once a handler is found, changes
    nothing and reports nothing. *)
Theorem requested_answer_lost fuel pid i data c id c' response :
  core_ok c → is_hash i → pid ∈ reserved_pids c → (∀ h, interfaces c !! i ≠ Some (Is_Process h)) →
  emit_interface_message_answer fuel pid i data c = Done (id, c') →
  answer_message_inner id response c' = Done (None, c').
Proof.
  intros Hc Hi Hr Hno Hrun. unfold emit_interface_message_answer in Hrun. inv_done.
  match goal with Hx : emit_interface_message_inner _ _ _ _ _ _ = Done (?mid, _) |- _ =>
    pose proof (emit_interface_sound fuel pid i data true c Hc Hi) as He; rewrite Hx in He end.
  destruct He as [_ (c1 & (id' & pool & Hid & (ids & _ & _ & Hu) & _ & _ & ->) & Hout)].
  simplify_eq/=. assert (Hm : messages_to_answer c' = messages_to_answer c).
  { destruct (interfaces c !! i) as [[h|]|]; [by destruct (Hno h)|by subst..]. }
  unfold answer_message_inner, mbind, M_bind, get. rewrite Hm.
  unfold usable in Hu. apply bool_decide_eq_true in Hu as (_ & _ & ->). done.
Qed.

(** * Processes *)

Lemma execute_core_sound module c :
  core_ok c → can_execute module (core_processes c) →
  (∀ id tp, assign (tid_pool (px_inner (core_processes c))) = Done (id, tp) → unrequested (interfaces c) id) →
  (∀ pid pp, assign (pid_pool (px_inner (core_processes c))) = Done (pid, pp) → pid ∉ reserved_pids c) →
  match core_execute module c with
  | Done (inl e, c') => core_ok c' ∧ ∃ s', c' = with_px s' c
  | Done (inr pid, c') => core_but [] [pid] (λ _, False) c' ∧ ∃ s' id, c' = with_px s' c ∧
      proc_of (core_processes c) pid = None ∧
      executed pid id {| notifications_queue := []; registered_interfaces := [];
        used_interfaces := ∅; emitted_messages := []; pr_messages_to_answer := [] |} tt
        (core_processes c) s'
  | Panic r => ∃ d : Thread (LocalThreadUserData (TTud := unit)),
      ProcessStateMachine_new module d (resolve_extrinsic (px_inner (core_processes c))) = Panic r
  | NoFuel => False
  end.
Proof.
  intros Hc Hcan Hun Hres. pose proof Hcan as (Htid & _ & _).
  unfold core_execute, on_px, zoom. set (p0 := {| notifications_queue := [] |}).
  pose proof (px_execute_sound [] [] _ module p0 tt (co_px _ _ _ _ Hc) Hcan) as Hex.
  destruct (px_execute module p0 tt (core_processes c)) as [[[e|pid] s']|r|]; [| |done|done].
  - destruct Hex as (Hok & Hrq & Hu & Hpl). split; [|by eauto].
    assert (Hl : ∀ h, look s' h = look (core_processes c) h) by (intros h; unfold look; by rewrite Hu).
    apply core_ok_px; try done.
    + intros pid p. unfold proc_of. rewrite Hpl. apply (co_procs _ _ _ _ Hc).
    + intros h st id v p. rewrite Hl. unfold proc_of. rewrite Hpl. apply (co_quiet _ _ _ _ Hc).
    + eapply requests_look; [done|apply Hc].
    + apply no_new_proc. intros pid. unfold proc_of. by rewrite Hpl.
  - destruct Hex as (Hok & Hno & (pp & Hpp) & id & tp & Hid & Hex). pose proof Hex as (_ & Hu & Hpl).
    assert (Hnp : proc_of (core_processes c) pid = None) by (unfold proc_of, pl; by rewrite Hno).
    assert (Hl : ∀ h v, look s' h = Some v → v.1.1 = ReadyToRun ∧ v.1.2 = id ∧ h.1 = pid ∨
      h.1 ≠ pid ∧ look (core_processes c) h = Some v).
    { intros h v. unfold look. rewrite Hu. case_decide; [|by right]. case_decide; [|done].
      intros [= <-]. by left. }
    assert (Hp : ∀ pid', proc_of s' pid' = if decide (pid' = pid) then Some p0 else proc_of (core_processes c) pid')
      by apply Hpl.
    split; [|by exists s', id]. apply (core_but_with_px _ _ _ _ _ _ _ _ Hc); [done|..].
    + intros pid' p. rewrite Hp. case_decide; [|apply (co_procs _ _ _ _ Hc)]. by intros [= <-].
    + intros h st id' v p [(Hst & _ & _)|[Hne Hl']]%Hl; simpl in *; [subst; by right|].
      rewrite Hp, decide_False by done. intros Hp'. exact (co_quiet _ _ _ _ Hc _ _ _ _ _ Hl' Hp').
    + intros i threads other Hi. destruct (co_requests _ _ _ _ Hc _ _ _ Hi) as (? & ? & Hlive).
      split_and!; try done. intros h st id' v [(_ & Hid' & _)|[Hne Hl']]%Hl Hin; simpl in *.
      * subst. by destruct (Hun _ _ Hid _ _ _ Hi).
      * by eapply Hlive.
    + intros pid' Hin. rewrite Hp. case_decide; [|by apply Hc]. subst. by destruct (Hres _ _ Hpp).
Qed.

(** Executing a module whose instance has a memory, the identifiers that
    the pools give being unused, keeps the invariant: on success there is one
    more process, with no notification, whose only thread is ready to run, and
    a handle on it; on an error there is none. *)
Theorem core_execute_ok module c :
  core_ok c → can_execute module (core_processes c) →
  (∀ id tp, assign (tid_pool (px_inner (core_processes c))) = Done (id, tp) → unrequested (interfaces c) id) →
  (∀ pid pp, assign (pid_pool (px_inner (core_processes c))) = Done (pid, pp) → pid ∉ reserved_pids c) →
  match core_execute module c with
  | Done (inl e, c') => core_ok c' ∧ ∃ s', c' = with_px s' c
  | Done (inr pid, c') => core_but [] [pid] (λ _, False) c' ∧ ∃ s' id, c' = with_px s' c ∧
      proc_of (core_processes c) pid = None ∧
      executed pid id {| notifications_queue := []; registered_interfaces := [];
        used_interfaces := ∅; emitted_messages := []; pr_messages_to_answer := [] |} tt
        (core_processes c) s'
  | Panic r => ∃ d : Thread (LocalThreadUserData (TTud := unit)),
      ProcessStateMachine_new module d (resolve_extrinsic (px_inner (core_processes c))) = Panic r
  | NoFuel => False
  end.
Proof. apply execute_core_sound. Qed.

(** Any number of identifiers is reserved between the creation of the builder
    and the construction. *)
Fixpoint reserve_n (k : nat) : M CoreBuilder (list Pid) :=
  match k with
  | O => mret []
  | S k => pid ← core_reserve_pid; pids ← reserve_n k; mret (pid :: pids)
  end.

Local Abbreviation cb_ok := (λ b, builder_ok (hardcoded_extrinsics ++ other_extrinsics) (inner_builder b)).

Lemma reserve_sound (b : CoreBuilder) :
  cb_ok b →
  wp (λ r, r = PDebugAssert) (core_reserve_pid b) (λ '(pid, b'), cb_ok b' ∧
    pid ∉ cb_reserved_pids b ∧ cb_reserved_pids b' = {[ pid ]} ∪ cb_reserved_pids b).
Proof.
  intros Hb. destruct (assign_total (b_pid_pool (inner_builder b))) as (pid & pp & Hpid).
  unfold core_reserve_pid. apply wp_Mbind, wp_zoom. unfold px_reserve_pid, builder_reserve_pid.
  apply wp_zoom. rewrite Hpid. simpl. apply wp_Mbind. simpl. apply wp_Mbind. simpl. apply wp_Mbind, wp_liftM.
  case_bool_decide as Hnew; simpl; [|done]. split; [by destruct Hb|done].
Qed.

Lemma build_core_sound (b : CoreBuilder) :
  cb_ok b → ∃ c, core_build b = Done c ∧ core_ok c ∧ reserved_pids c = cb_reserved_pids b ∧
    interfaces c = ∅ ∧ messages_to_answer c = ∅ ∧ processes (px_inner (core_processes c)) = ∅.
Proof.
  intros Hb. unfold core_build.
  destruct (px_build_sound (TPud := IpcProcess) (TTud := unit) _ Hb) as (s & -> & Hok & Hps & Hrq). simpl.
  assert (Hno : ∀ pid, proc_of s pid = None) by (intros pid; unfold proc_of, pl; by rewrite Hps).
  eexists. split; [done|]. split_and!; [|done..]. split; simpl; [done|..|done|done|done].
  - intros pid p. by rewrite Hno.
  - intros h st id v p _. by rewrite Hno.
  - apply IdPool_new_ok.
Qed.

Lemma reserve_n_sound k (b : CoreBuilder) :
  cb_ok b →
  wp (λ r, r = PDebugAssert) (reserve_n k b) (λ '(pids, b'), cb_ok b' ∧ NoDup pids ∧
    cb_reserved_pids b' = list_to_set pids ∪ cb_reserved_pids b ∧
    ∀ pid, pid ∈ pids → pid ∉ cb_reserved_pids b).
Proof.
  revert b. induction k as [|k IH]; intros b Hb; cbn [reserve_n].
  { simpl. split_and!; [done|constructor|set_solver|set_solver]. }
  apply wp_Mbind. eapply wp_mono; [by apply reserve_sound|]. intros [pid b1] (Hb1 & Hnew & Hr1).
  apply wp_Mbind. eapply wp_mono; [by apply IH|]. intros [pids b'] (Hb' & Hnd & Hr & Hno). simpl.
  rewrite Hr, Hr1 in *. split_and!; [done|constructor; [|done]|set_solver|set_solver].
  intros Hx. specialize (Hno _ Hx). set_solver.
Qed.

Lemma core_build_sound k :
  wp (λ r, r = PDebugAssert) (b ← Core_new; '(pids, b) ← reserve_n k b; c ← core_build b; Done (pids, c))
    (λ '(pids, c), core_ok c ∧ reserved_pids c = list_to_set pids ∧ NoDup pids ∧
      interfaces c = ∅ ∧ messages_to_answer c = ∅ ∧ processes (px_inner (core_processes c)) = ∅).
Proof.
  unfold Core_new. destruct builder_default_sound as (b & -> & Hb). simpl.
  apply wp_bind. eapply wp_mono; [by apply (reserve_n_sound k)|].
  intros [pids b'] (Hb' & Hnd & Hr & _). destruct (build_core_sound _ Hb') as (c & -> & ? & Hc & ?).
  simpl in *. split_and!; try done; [|naive_solver..]. rewrite Hc, Hr. set_solver.
Qed.

(** The state that the builder gives satisfies the invariant, whatever
    the number of reserved identifiers, which are distinct; building stops only
    if the pool gives the same identifier twice (a debug assertion). *)
Theorem core_build_ok k :
  wp (λ r, r = PDebugAssert) (b ← Core_new; '(pids, b) ← reserve_n k b; c ← core_build b; Done (pids, c))
    (λ '(pids, c), core_ok c ∧ reserved_pids c = list_to_set pids ∧ NoDup pids ∧
      interfaces c = ∅ ∧ messages_to_answer c = ∅ ∧ processes (px_inner (core_processes c)) = ∅).
Proof. apply core_build_sound. Qed.

End handlers.
