(* ===== verification/IpcReserved.v ===== *)
(** The reserved identifiers of a [Core] never change, and what [Core::run]
    gives, from what its steps give. *)
From S2P Require Import Prelude IdPool WasmValue Ffi Calls Vm ExtrinsicsApi Processes.
From S2P Require Import ProcessesFrame Extrinsics ExtrinsicsInv ExtrinsicsLocks ExtrinsicsLife.
From S2P Require Import Ipc IpcInv IpcWake IpcCore IpcHandlers.

Section frame.
Context `{Rng} `{Wasmi} `{!HashIter Z} `{!HashIter (list Init.Byte.byte)} `{Extrinsics}.
Context {rp : gset Pid}.

(** A computation that keeps the set [rp] of reserved identifiers. *)
Definition keeps {A} (m : M Core A) : Prop :=
  ∀ c a c', reserved_pids c = rp → m c = Done (a, c') → reserved_pids c' = rp.

Lemma keeps_ret {A} (a : A) : keeps (mret a).
Proof. intros c a' c' Hc. by intros [= <- <-]. Qed.
Lemma keeps_panic {A} r : keeps (panic r : M Core A).
Proof. by intros c a c' _. Qed.
Lemma keeps_no_fuel {A} : keeps ((λ _, NoFuel) : M Core A).
Proof. by intros c a c' _. Qed.
Lemma keeps_put c : reserved_pids c = rp → keeps (put c).
Proof. intros Hc c0 a c' _. by intros [= <- <-]. Qed.
Lemma keeps_modify f : (∀ c, reserved_pids (f c) = reserved_pids c) → keeps (modify f).
Proof. intros Hf c a c' Hc. intros [= <- <-]. by rewrite Hf. Qed.
Lemma keeps_liftM {A} (m : outcome A) : keeps (liftM m).
Proof. intros c a c' Hc [_ <-]%liftM_Done. done. Qed.
Lemma keeps_on_px {A} (m : M _ A) : keeps (on_px m).
Proof. intros c a c' Hc (s & _ & ->)%zoom_Done. done. Qed.
Lemma keeps_pool {A} (m : M _ A) : keeps (zoom message_id_pool with_message_pool m).
Proof. intros c a c' Hc (s & _ & ->)%zoom_Done. done. Qed.
Lemma keeps_bind {A B} (m : M Core A) (f : A → M Core B) :
  keeps m → (∀ a, keeps (f a)) → keeps (m ≫= f).
Proof. intros Hm Hf c b c' Hc (a & c1 & Ha & Hb)%M_bind_Done. eapply Hf; [|done]. by eapply Hm. Qed.
Lemma keeps_get {B} (f : Core → M Core B) :
  (∀ c, reserved_pids c = rp → keeps (f c)) → keeps (get ≫= f).
Proof. intros Hf c b c' Hc. by apply Hf. Qed.
Lemma keeps_for_each {A} (f : A → M Core unit) l : (∀ x, keeps (f x)) → keeps (for_each f l).
Proof.
  intros Hf. induction l as [|x l IH]; simpl; [apply keeps_ret|]. by apply keeps_bind.
Qed.

End frame.

(** Follows the structure of a computation. *)
Ltac keeps_step :=
  lazymatch goal with
  | |- ∀ _, _ => intro
  | |- keeps (get ≫= _) => apply keeps_get
  | |- keeps (_ ≫= _) => apply keeps_bind
  | |- keeps (mret _) => apply keeps_ret
  | |- keeps (panic _) => apply keeps_panic
  | |- keeps (λ _, NoFuel) => apply keeps_no_fuel
  | |- keeps (liftM _) => apply keeps_liftM
  | |- keeps (on_px _) => apply keeps_on_px
  | |- keeps (zoom message_id_pool _ _) => apply keeps_pool
  | |- keeps (put _) => apply keeps_put; simpl; congruence
  | |- keeps (modify _) => apply keeps_modify; by intros
  | |- keeps (for_each _ _) => apply keeps_for_each
  | |- keeps match ?x with _ => _ end => destruct x
  | |- keeps _ => solve [auto with keeps]
  end.

Create HintDb keeps.

Section ops.
Context `{Rng} `{Wasmi} `{!HashIter Z} `{!HashIter (list Init.Byte.byte)} `{Extrinsics}.
Context (rp : gset Pid).
Local Abbreviation keeps := (keeps (rp := rp)).

Lemma choose_keeps fuel : keeps (choose_message_id fuel).
Proof. induction fuel; simpl; repeat keeps_step. Qed.
#[local] Hint Resolve choose_keeps : keeps.

Lemma message_id_for_keeps fuel t pid : keeps (message_id_for fuel t pid).
Proof. unfold message_id_for, record_message. repeat keeps_step. Qed.
#[local] Hint Resolve message_id_for_keeps : keeps.

Lemma answer_keeps id response : keeps (answer_message_inner id response).
Proof. unfold answer_message_inner. repeat keeps_step. Qed.
#[local] Hint Resolve answer_keeps : keeps.

Lemma answer_message_keeps id response : keeps (answer_message id response).
Proof. unfold answer_message. repeat keeps_step. Qed.

Lemma finished_keeps pid u out : keeps (process_finished pid u out).
Proof. unfold process_finished, unregister_interfaces, cancel_emitted, notify_used. repeat keeps_step. Qed.
#[local] Hint Resolve finished_keeps : keeps.

Lemma thread_emit_keeps fuel t : keeps (thread_emit_message fuel t).
Proof. unfold thread_emit_message, deliver_emit. repeat keeps_step. Qed.
#[local] Hint Resolve thread_emit_keeps : keeps.

Lemma run_inner_keeps fuel : keeps (run_inner fuel).
Proof. unfold run_inner, handle_event. repeat keeps_step. Qed.
#[local] Hint Resolve run_inner_keeps : keeps.

Lemma core_run_keeps fuel : keeps (core_run fuel).
Proof. induction fuel; simpl; repeat keeps_step. Qed.

Lemma set_handler_keeps fuel i pid : keeps (set_interface_handler fuel i pid).
Proof. unfold set_interface_handler, send_other, accept_waiting. repeat keeps_step. Qed.

Lemma emit_inner_keeps fuel pid i m b : keeps (emit_interface_message_inner fuel pid i m b).
Proof. unfold emit_interface_message_inner, record_message. repeat keeps_step. Qed.
#[local] Hint Resolve emit_inner_keeps : keeps.

Lemma emit_answer_keeps fuel pid i m : keeps (emit_interface_message_answer fuel pid i m).
Proof. unfold emit_interface_message_answer. repeat keeps_step. Qed.

Lemma emit_no_answer_keeps fuel pid i m : keeps (emit_interface_message_no_answer fuel pid i m).
Proof. unfold emit_interface_message_no_answer. repeat keeps_step. Qed.

Lemma core_execute_keeps m : keeps (core_execute m).
Proof. apply keeps_on_px. Qed.

End ops.

#[export] Hint Resolve answer_message_keeps core_run_keeps set_handler_keeps emit_answer_keeps
  emit_no_answer_keeps core_execute_keeps : keeps.

Section run.
Context `{Rng} `{!RngLaws} `{Wasmi} `{!HashIter Z} `{!HashIter (list Init.Byte.byte)} `{Extrinsics}.
Context `{!WasmiLaws} `{!WasmiMemoryLaws} `{!ExtrinsicsLaws}.
Implicit Types (c : Core).

(** [fuel] is not enough for [core_run]: the programs never stop, or every
    identifier drawn is unusable, or they make that many calls without an
    event to report. *)
Fixpoint core_spins (fuel : nat) c : Prop :=
  match fuel with
  | O => True
  | S fuel => spins fuel (core_processes c) ∨ starved fuel c ∨
      ∃ c', run_inner fuel c = Done (None, c') ∧ core_spins fuel c'
  end.

Lemma core_run_sound fuel c :
  core_ok c →
  wlp (core_spins fuel c) core_panics (core_run fuel c) (λ '(_, c'),
    core_ok c' ∧ reserved_pids c' = reserved_pids c).
Proof.
  intros Hc. eapply wlp_mono with (Q := λ '(ev, c'), core_ok c' ∧ core_run fuel c = Done (ev, c')).
  2:{ intros [ev c'] [? Hrun]. split; [done|]. by eapply core_run_keeps. }
  revert c Hc. induction fuel as [|fuel IH]; intros c Hc; [done|]. cbn [core_run core_spins].
  unfold mbind, M_bind. pose proof (run_inner_sound (deep := false) fuel c ltac:(done) Hc) as Hr.
  destruct (run_inner fuel c) as [[[ev|] c']|r|]; simpl in *; [by destruct Hr| |done|naive_solver].
  destruct Hr as [Hc' _]. eapply wlp_weaken; [by apply IH|naive_solver|done].
Qed.

End run.
