(* ===== verification/Wasi.v ===== *)
(** The WASI functions ([core/src/extrinsics/wasi.rs]).

    [WasiExtrinsics] is the implementation of the trait [Extrinsics] that
    programs compiled for WASI call: arguments and environment, a table of
    file descriptors over a virtual file system, clocks and random numbers
    (which are asked for by messages), and logging through the standard
    outputs.

    The constants of the [wasi] crate are the class [WasiCrate].  An inode is
    reached through an [Arc] and never changes: it is a value, which carries
    the address it was allocated at ([filestat_from_inode] shows it).  The
    spin locks are only held within one call and are their contents. *)
From S2P Require Import Prelude WasmValue Ffi Calls Messages ExtrinsicsApi.

(** The [wasi] crate. *)
Class WasiCrate := {
  ERRNO_BADF : Z; ERRNO_NOENT : Z; ERRNO_NOSYS : Z; ERRNO_NOTSUP : Z;
  CLOCKID_REALTIME : Z; CLOCKID_MONOTONIC : Z;
  CLOCKID_PROCESS_CPUTIME_ID : Z; CLOCKID_THREAD_CPUTIME_ID : Z;
  WHENCE_SET : Z; WHENCE_CUR : Z; WHENCE_END : Z;
  FILETYPE_CHARACTER_DEVICE : Z; FILETYPE_DIRECTORY : Z; FILETYPE_REGULAR_FILE : Z;
  FDFLAGS_APPEND : Z;
  PREOPENTYPE_DIR : Z;
  RIGHTS_FD_DATASYNC : Z; RIGHTS_FD_READ : Z; RIGHTS_FD_SEEK : Z; RIGHTS_FD_FDSTAT_SET_FLAGS : Z;
  RIGHTS_FD_SYNC : Z; RIGHTS_FD_TELL : Z; RIGHTS_FD_WRITE : Z; RIGHTS_FD_ADVISE : Z;
  RIGHTS_FD_ALLOCATE : Z; RIGHTS_PATH_CREATE_DIRECTORY : Z; RIGHTS_PATH_CREATE_FILE : Z;
  RIGHTS_PATH_LINK_SOURCE : Z; RIGHTS_PATH_LINK_TARGET : Z; RIGHTS_PATH_OPEN : Z;
  RIGHTS_FD_READDIR : Z; RIGHTS_PATH_READLINK : Z; RIGHTS_PATH_RENAME_SOURCE : Z;
  RIGHTS_PATH_RENAME_TARGET : Z; RIGHTS_PATH_FILESTAT_GET : Z; RIGHTS_PATH_FILESTAT_SET_SIZE : Z;
  RIGHTS_PATH_FILESTAT_SET_TIMES : Z; RIGHTS_FD_FILESTAT_GET : Z; RIGHTS_FD_FILESTAT_SET_SIZE : Z;
  RIGHTS_FD_FILESTAT_SET_TIMES : Z; RIGHTS_PATH_SYMLINK : Z; RIGHTS_PATH_REMOVE_DIRECTORY : Z;
  RIGHTS_PATH_UNLINK_FILE : Z; RIGHTS_POLL_FD_READWRITE : Z;
}.

(** The three ways of seeking are distinct. *)
Class WasiCrateLaws `{WasiCrate} := {
  whence_distinct : NoDup [WHENCE_SET; WHENCE_CUR; WHENCE_END];
}.

(** * State *)

(** A [String] is its bytes. *)
Inductive Inode :=
  | Directory (address : Z) (entries : gmap (list Init.Byte.byte) Inode)
  | File (address : Z) (content : list Init.Byte.byte).

Inductive FileDescriptor :=
  | Fd_Empty
  | Fd_LogOut (level : Log.Level)
  | Fd_FilesystemEntry (inode : Inode) (file_cursor_pos : Z).

Record WasiExtrinsics := {
  args : list bytes;
  env_vars : list bytes;
  file_descriptors : list (option FileDescriptor);
  file_system : Inode;
}.

Definition with_fds (l : list (option FileDescriptor)) (w : WasiExtrinsics) : WasiExtrinsics :=
  {| args := args w; env_vars := env_vars w; file_descriptors := l; file_system := file_system w |}.

Inductive ContextInner :=
  | WaitClockVal (out_ptr : Z)
  | WaitRandom (out_ptr remaining_len : Z)
  | Ctx_Resume (value : option WasmValue)
  | Finished.

Inductive ExtrinsicIdInner :=
  | ArgsGet | ArgsSizesGet | ClockTimeGet | EnvironGet | EnvironSizesGet | FdClose | FdFdstatGet
  | FdFdstatSetFlags | FdFilestatGet | FdPrestatDirName | FdPrestatGet | FdRead | FdSeek | FdTell
  | FdWrite | PathCreateDirectory | PathFilestatGet | PathOpen | PollOneOff | ProcExit | RandomGet
  | SchedYield.

(** * Calls *)

(** How the implementation of a call may end early: [return Ok(..)], or an
    error that [WasiCallErr] absorbs. *)
Inductive call_exit :=
  | Exit_Ok (context : ContextInner) (action : ExtrinsicsAction)
  | Exit_Err.

(** What a call runs on: the iterator over its parameters, [self], and the
    memory of the process. *)
Record call_state (Mem : Type) := {
  cs_params : list WasmValue;
  cs_wasi : WasiExtrinsics;
  cs_mem : Mem;
}.
Arguments cs_params {Mem}.
Arguments cs_wasi {Mem}.
Arguments cs_mem {Mem}.
Arguments Build_call_state {Mem}.

Definition call (Mem A : Type) : Type := M (call_state Mem) (call_exit + A).

#[global] Instance call_ret Mem : MRet (call Mem) := λ A a s, Done (inr a, s).
#[global] Instance call_bind Mem : MBind (call Mem) := λ A B f m s,
  match m s with
  | Done (inr a, s') => f a s'
  | Done (inl e, s') => Done (inl e, s')
  | Panic r => Panic r
  | NoFuel => NoFuel
  end.

Section wasi.
Context `{WasiCrate} `{Scale} {Mem : Type} (mem_access : ExtrinsicsMemoryAccess Mem).

Local Abbreviation wcall := (call Mem).

(** ** Steps *)

Definition stop {A} (r : panic_reason) : wcall A := λ _, Panic r.
Definition may_panic {A} (m : outcome A) : wcall A := λ s,
  match m with Done a => Done (inr a, s) | Panic r => Panic r | NoFuel => NoFuel end.

(** The [?] operator. *)
Definition question {A} (o : option A) : wcall A := λ s,
  match o with Some a => Done (inr a, s) | None => Done (inl Exit_Err, s) end.

Definition return_ok {A} (context : ContextInner) (action : ExtrinsicsAction) : wcall A := λ s,
  Done (inl (Exit_Ok context action), s).

(** [return Ok((ContextInner::Finished, ExtrinsicsAction::Resume(Some(I32(v)))))]. *)
Definition resume_with {A} (v : Z) : wcall A :=
  return_ok Finished (Action_Resume (Some (I32 v))).

(** [params.next().unwrap()]. *)
Definition next : wcall WasmValue := λ s,
  match cs_params s with
  | [] => Panic PUnwrap
  | v :: l => Done (inr v, {| cs_params := l; cs_wasi := cs_wasi s; cs_mem := cs_mem s |})
  end.
Definition next_i32 : wcall Z := v ← next; may_panic (unwrap (into_i32 v)).
Definition next_i64 : wcall Z := v ← next; may_panic (unwrap (into_i64 v)).
Definition next_u32 : wcall Z := v ← next_i32; question (u32_try_from v).
Definition next_usize : wcall Z := v ← next_i32; question (usize_try_from v).

(** [assert!(params.next().is_none())]. *)
Definition no_more : wcall unit := λ s,
  match cs_params s with [] => Done (inr tt, s) | _ => Panic PAssert end.

Definition self : wcall WasiExtrinsics := λ s, Done (inr (cs_wasi s), s).
Definition set_fds (l : list (option FileDescriptor)) : wcall unit := λ s,
  Done (inr tt, {| cs_params := cs_params s; cs_wasi := with_fds l (cs_wasi s); cs_mem := cs_mem s |}).

(** [mem_access.read_memory(start..end)?] and [mem_access.write_memory(offset, data)?]. *)
Definition mem_read (start end_ : Z) : wcall bytes := λ s,
  match ma_read_memory mem_access (cs_mem s) start end_ with
  | Done (Some bs) => Done (inr bs, s)
  | Done None => Done (inl Exit_Err, s)
  | Panic r => Panic r
  | NoFuel => NoFuel
  end.
Definition mem_write (offset : Z) (data : bytes) : wcall unit := λ s,
  match ma_write_memory mem_access offset data (cs_mem s) with
  | Done (r, m) =>
      let s := {| cs_params := cs_params s; cs_wasi := cs_wasi s; cs_mem := m |} in
      match r with Some _ => Done (inr tt, s) | None => Done (inl Exit_Err, s) end
  | Panic r => Panic r
  | NoFuel => NoFuel
  end.

(** The block that most calls start with: the file descriptor that the first
    parameter designates, or [ERRNO_BADF]. *)
Definition get_fd : wcall (nat * FileDescriptor) :=
  fd ← next_usize;
  w ← self;
  match file_descriptors w !! Z.to_nat fd with
  | Some (Some f) => mret (Z.to_nat fd, f)
  | _ => resume_with ERRNO_BADF
  end.

(** The list of pointers and lengths of [fd_read] and [fd_write]. *)
Definition get_buffers : wcall (list Z) :=
  addr ← next_u32;
  num ← next_u32;
  n ← may_panic (4 *u32 num)%rust;
  n ← may_panic (n *u32 2)%rust;
  end_ ← may_panic (addr +u32 n)%rust;
  list_buf ← mem_read addr end_;
  _ ← question (usize_try_from num);
  may_panic (map_outcome (uint_from_le_bytes 4) (chunks 4 list_buf)).

(** The path of [path_filestat_get] and [path_open]. *)
Definition get_path : wcall bytes :=
  path_buf ← next_u32;
  path_buf_len ← next_u32;
  end_ ← may_panic (path_buf +u32 path_buf_len)%rust;
  path_utf8 ← mem_read path_buf end_;
  if utf8_valid path_utf8 then mret path_utf8 else question None.

(** ** Utility functions *)

Definition u32_le (z : Z) : bytes := u32_to_le_bytes z.

Fixpoint args_loop (argv argv_buf argv_pos argv_buf_pos : Z) (list : list bytes) : wcall unit :=
  match list with
  | [] => mret tt
  | arg :: list =>
      at_ ← question (u32_checked_add argv argv_pos);
      buf ← question (u32_checked_add argv_buf argv_buf_pos);
      _ ← mem_write at_ (u32_le buf);
      argv_pos ← question (u32_checked_add argv_pos 4);
      buf ← question (u32_checked_add argv_buf argv_buf_pos);
      _ ← mem_write buf arg;
      len ← question (u32_try_from (Z.of_nat (length arg)));
      argv_buf_pos ← question (u32_checked_add argv_buf_pos len);
      buf ← question (u32_checked_add argv_buf argv_buf_pos);
      _ ← mem_write buf [Init.Byte.x00];
      argv_buf_pos ← question (u32_checked_add argv_buf_pos 1);
      args_loop argv argv_buf argv_pos argv_buf_pos list
  end.

Definition args_or_env_get (list : list bytes) : wcall (ContextInner * ExtrinsicsAction) :=
  argv ← next_u32;
  argv_buf ← next_u32;
  _ ← no_more;
  _ ← args_loop argv argv_buf 0 0 list;
  resume_with 0.

(** [usize::saturating_add]. *)
Definition usize_saturating_add (a b : Z) : Z := Z.min (a + b) usize_max.

Definition args_or_env_sizes_get (list : list bytes) : wcall (ContextInner * ExtrinsicsAction) :=
  argc_out ← next_u32;
  argv_buf_size_out ← next_u32;
  _ ← no_more;
  argc ← question (u32_try_from (Z.of_nat (length list)));
  _ ← mem_write argc_out (u32_le argc);
  let argv_buf_size := fold_left (λ s a,
    usize_saturating_add (usize_saturating_add s (Z.of_nat (length a))) 1) list 0 in
  size ← question (u32_try_from argv_buf_size);
  _ ← mem_write argv_buf_size_out (u32_le size);
  resume_with 0.

(** [wasi::Filestat]. *)
Record Filestat := {
  st_dev : Z; st_ino : Z; st_filetype : Z; st_nlink : Z; st_size : Z;
  st_atim : Z; st_mtim : Z; st_ctim : Z;
}.

Definition filestat_from_inode (inode : Inode) : Filestat :=
  {| st_dev := 1;
     st_ino := match inode with Directory a _ | File a _ => a end;
     st_filetype := match inode with
                    | Directory _ _ => FILETYPE_DIRECTORY
                    | File _ _ => FILETYPE_REGULAR_FILE
                    end;
     st_nlink := 1;
     st_size := match inode with
                | Directory _ _ => 0
                | File _ content => default u64_max (u64_try_from (Z.of_nat (length content)))
                end;
     st_atim := 0; st_mtim := 0; st_ctim := 0 |}.

(** [path.split('/')]. *)
Fixpoint split_path (path : bytes) : list bytes :=
  match path with
  | [] => [[]]
  | b :: path =>
      if bool_decide (b = Init.Byte.x2f) then [] :: split_path path
      else match split_path path with
           | c :: l => (b :: c) :: l
           | [] => [[b]]
           end
  end.

Fixpoint resolve_components (current : Inode) (components : list bytes) : outcome (option Inode) :=
  match components with
  | [] => Done (Some current)
  | component :: components =>
      if bool_decide (component = [Init.Byte.x2e]) then resolve_components current components
      else if bool_decide (component = [Init.Byte.x2e; Init.Byte.x2e]) then Panic PUnimplemented
      else match current with
           | File _ _ => Done None
           | Directory _ entries =>
               match entries !! component with
               | Some next => resolve_components next components
               | None => Done None
               end
           end
  end.

Definition resolve_path (root : Inode) (path : bytes) : outcome (option Inode) :=
  resolve_components root (split_path path).

(** ** The functions *)

Definition args_get : wcall (ContextInner * ExtrinsicsAction) :=
  state ← self; args_or_env_get (args state).
Definition args_sizes_get : wcall (ContextInner * ExtrinsicsAction) :=
  state ← self; args_or_env_sizes_get (args state).
Definition environ_get : wcall (ContextInner * ExtrinsicsAction) :=
  state ← self; args_or_env_get (env_vars state).
Definition environ_sizes_get : wcall (ContextInner * ExtrinsicsAction) :=
  state ← self; args_or_env_sizes_get (env_vars state).

Definition clock_time_get : wcall (ContextInner * ExtrinsicsAction) :=
  clock_id ← next_u32;
  _precision ← next_i64;
  time_out ← next_u32;
  _ ← no_more;
  if bool_decide (clock_id = CLOCKID_REALTIME) then
    mret (WaitClockVal time_out,
          Action_EmitMessage SystemTime.INTERFACE (encode_system_time SystemTime.GetSystem) true)
  else if bool_decide (clock_id = CLOCKID_MONOTONIC) then
    mret (WaitClockVal time_out,
          Action_EmitMessage Time.INTERFACE (encode_time Time.GetMonotonic) true)
  else if bool_decide (clock_id = CLOCKID_PROCESS_CPUTIME_ID) then stop PUnimplemented
  else if bool_decide (clock_id = CLOCKID_THREAD_CPUTIME_ID) then stop PUnimplemented
  else question None.

(** [while lock.last().map(|f| f.is_none()).unwrap_or(false) { lock.pop(); }];
    the length of the table is enough fuel. *)
Fixpoint pop_closed (fuel : nat) (l : list (option FileDescriptor)) : list (option FileDescriptor) :=
  match fuel with
  | O => l
  | S fuel =>
      match last l with
      | Some None => pop_closed fuel (removelast l)
      | _ => l
      end
  end.

Definition fd_close : wcall (ContextInner * ExtrinsicsAction) :=
  fd ← next_usize;
  _ ← no_more;
  w ← self;
  match file_descriptors w !! Z.to_nat fd with
  | None | Some None => resume_with ERRNO_BADF
  | Some (Some _) =>
      let l := <[Z.to_nat fd := None]> (file_descriptors w) in
      _ ← set_fds (pop_closed (length l) l);
      resume_with 0
  end.

(** [wasi::Fdstat]. *)
Record Fdstat := {
  fs_filetype : Z; fs_flags : Z; fs_rights_base : Z; fs_rights_inheriting : Z;
}.

Definition dirs_rights : Z := foldl Z.lor 0
  [ RIGHTS_FD_FDSTAT_SET_FLAGS; RIGHTS_FD_SYNC; RIGHTS_FD_ADVISE; RIGHTS_PATH_CREATE_DIRECTORY;
    RIGHTS_PATH_CREATE_FILE; RIGHTS_PATH_LINK_SOURCE; RIGHTS_PATH_LINK_TARGET; RIGHTS_PATH_OPEN;
    RIGHTS_FD_READDIR; RIGHTS_PATH_READLINK; RIGHTS_PATH_RENAME_SOURCE; RIGHTS_PATH_RENAME_TARGET;
    RIGHTS_PATH_FILESTAT_GET; RIGHTS_PATH_FILESTAT_SET_SIZE; RIGHTS_PATH_FILESTAT_SET_TIMES;
    RIGHTS_FD_FILESTAT_GET; RIGHTS_FD_FILESTAT_SET_SIZE; RIGHTS_FD_FILESTAT_SET_TIMES;
    RIGHTS_PATH_SYMLINK; RIGHTS_PATH_REMOVE_DIRECTORY; RIGHTS_PATH_UNLINK_FILE;
    RIGHTS_POLL_FD_READWRITE ].
Definition files_rights : Z := foldl Z.lor 0
  [ RIGHTS_FD_DATASYNC; RIGHTS_FD_READ; RIGHTS_FD_SEEK; RIGHTS_FD_FDSTAT_SET_FLAGS; RIGHTS_FD_SYNC;
    RIGHTS_FD_TELL; RIGHTS_FD_WRITE; RIGHTS_FD_ADVISE; RIGHTS_FD_ALLOCATE; RIGHTS_FD_FILESTAT_GET;
    RIGHTS_FD_FILESTAT_SET_SIZE; RIGHTS_FD_FILESTAT_SET_TIMES; RIGHTS_POLL_FD_READWRITE ].

Definition fdstat_of (f : FileDescriptor) : Fdstat :=
  match f with
  | Fd_Empty => {| fs_filetype := FILETYPE_CHARACTER_DEVICE; fs_flags := 0;
                   fs_rights_base := 0; fs_rights_inheriting := 0 |}
  | Fd_LogOut _ => {| fs_filetype := FILETYPE_CHARACTER_DEVICE; fs_flags := FDFLAGS_APPEND;
                      fs_rights_base := 0x820004a; fs_rights_inheriting := 0x820004a |}
  | Fd_FilesystemEntry (Directory _ _) _ =>
      {| fs_filetype := FILETYPE_DIRECTORY; fs_flags := 0; fs_rights_base := dirs_rights;
         fs_rights_inheriting := Z.lor files_rights dirs_rights |}
  | Fd_FilesystemEntry (File _ _) _ =>
      {| fs_filetype := FILETYPE_REGULAR_FILE; fs_flags := 0; fs_rights_base := files_rights;
         fs_rights_inheriting := files_rights |}
  end.

(** The writes of [fd_fdstat_get], [fd_prestat_get] and [path_filestat_get]: a
    zeroed structure, then its fields at their offsets. *)
Fixpoint write_fields (base : Z) (fields : list (Z * bytes)) : wcall unit :=
  match fields with
  | [] => mret tt
  | (0, data) :: fields => _ ← mem_write base data; write_fields base fields
  | (offset, data) :: fields =>
      at_ ← question (u32_checked_add base offset);
      _ ← mem_write at_ data;
      write_fields base fields
  end.

Definition fd_fdstat_get : wcall (ContextInner * ExtrinsicsAction) :=
  '(_, f) ← get_fd;
  let stat := fdstat_of f in
  stat_out_buf ← next_u32;
  _ ← no_more;
  _ ← write_fields stat_out_buf
        [ (0, replicate 24 Init.Byte.x00); (0, le_split 1 (fs_filetype stat));
          (2, le_split 2 (fs_flags stat)); (8, u64_to_le_bytes (fs_rights_base stat));
          (16, u64_to_le_bytes (fs_rights_inheriting stat)) ];
  resume_with 0.

Definition fd_filestat_get : wcall (ContextInner * ExtrinsicsAction) :=
  _ ← get_fd;
  _stat_out_buf ← next_u32;
  _ ← no_more;
  stop PUnimplemented.

Definition fd_prestat_dir_name : wcall (ContextInner * ExtrinsicsAction) :=
  '(_, f) ← get_fd;
  match f with
  | Fd_Empty | Fd_LogOut _ => resume_with ERRNO_BADF
  | Fd_FilesystemEntry _ _ =>
      let name : bytes := [] in
      path_out ← next_u32;
      len ← next_i32;
      let path_out_len := default usize_max (usize_try_from len) in
      _ ← no_more;
      let to_write := Z.min path_out_len (Z.of_nat (length name)) in
      data ← may_panic (slice name 0 (Z.to_nat to_write));
      _ ← mem_write path_out data;
      resume_with 0
  end.

Definition fd_prestat_get : wcall (ContextInner * ExtrinsicsAction) :=
  '(_, f) ← get_fd;
  match f with
  | Fd_Empty | Fd_LogOut _ | Fd_FilesystemEntry (File _ _) _ => resume_with ERRNO_NOTSUP
  | Fd_FilesystemEntry (Directory _ _) _ =>
      let pr_name_len := 0 in
      prestat_out_buf ← next_u32;
      _ ← no_more;
      _ ← write_fields prestat_out_buf
            [ (0, replicate 8 Init.Byte.x00); (0, le_split 1 PREOPENTYPE_DIR);
              (4, u32_le pr_name_len) ];
      resume_with 0
  end.

(** [for buffer in out_buffers_list.chunks(2)], on a file whose cursor is at
    [pos]; the number of bytes read. *)
Fixpoint read_file (fd : nat) (inode : Inode) (content : bytes) (pos : Z) (buffers : list (list Z))
    (total_read : Z) : wcall Z :=
  match buffers with
  | [] => mret total_read
  | buffer :: buffers =>
      buffer_ptr ← may_panic (index buffer 0);
      len ← may_panic (index buffer 1);
      buffer_len ← question (usize_try_from len);
      pos_usize ← may_panic (unwrap (usize_try_from pos));
      _ ← may_panic (debug_assert (bool_decide (pos_usize ≤ Z.of_nat (length content))));
      left_ ← may_panic (uint_checked usize_max (Z.of_nat (length content) - pos_usize));
      let to_copy := Z.min left_ buffer_len in
      if bool_decide (to_copy = 0) then mret total_read else
      data ← may_panic (slice content (Z.to_nat pos_usize) (Z.to_nat (pos_usize + to_copy)));
      _ ← mem_write buffer_ptr data;
      n ← question (u64_try_from to_copy);
      pos ← question (u64_try_from (pos + n));
      w ← self;
      _ ← set_fds (<[fd := Some (Fd_FilesystemEntry inode pos)]> (file_descriptors w));
      _ ← may_panic (debug_assert (bool_decide
            (pos ≤ default u64_max (u64_try_from (Z.of_nat (length content))))));
      total_read ← may_panic (uint_checked usize_max (total_read + to_copy));
      read_file fd inode content pos buffers total_read
  end.

Definition fd_read : wcall (ContextInner * ExtrinsicsAction) :=
  '(fd, f) ← get_fd;
  out_buffers_list ← get_buffers;
  total_read ← match f with
    | Fd_Empty | Fd_LogOut _ => mret 0
    | Fd_FilesystemEntry (Directory _ _) _ => resume_with ERRNO_BADF
    | Fd_FilesystemEntry (File a content) pos =>
        total_read ← read_file fd (File a content) content pos (chunks 2 out_buffers_list) 0;
        question (u32_try_from total_read)
    end;
  out_ptr ← next_u32;
  _ ← no_more;
  _ ← mem_write out_ptr (u32_le total_read);
  resume_with 0.

(** [offset as u64] and [max_offset as i64]. *)
Definition i64_as_u64 (z : Z) : Z := z `mod` 2 ^ 64.
Definition u64_as_i64 (z : Z) : Z := if bool_decide (z < 2 ^ 63) then z else z - 2 ^ 64.
(** [a + b] on [i64]. *)
Definition i64_add (a b : Z) : outcome Z :=
  if bool_decide (- 2 ^ 63 ≤ a + b < 2 ^ 63) then Done (a + b) else Panic POverflow.
(** [u64::saturating_add]. *)
Definition u64_saturating_add (a b : Z) : Z := Z.min (a + b) u64_max.

(** The position that seeking from [pos] in a file of [max_offset] bytes gives. *)
Definition seek_position (pos max_offset offset whence : Z) : wcall Z :=
  if bool_decide (whence = WHENCE_SET) then
    v ← question (u64_try_from (Z.max offset 0));
    mret (Z.min v max_offset)
  else if bool_decide (whence = WHENCE_CUR) then
    mret (Z.min (u64_saturating_add pos (i64_as_u64 offset)) max_offset)
  else if bool_decide (whence = WHENCE_END) then
    v ← may_panic (i64_add (u64_as_i64 max_offset) offset);
    v ← question (u64_try_from (Z.max 0 v));
    mret (Z.min v max_offset)
  else stop PExplicit.

Definition fd_seek : wcall (ContextInner * ExtrinsicsAction) :=
  '(fd, f) ← get_fd;
  offset ← next_i64;
  v ← next_i32;
  whence ← question (u8_try_from v);
  new_offset ← match f with
    | Fd_Empty | Fd_LogOut _ | Fd_FilesystemEntry (Directory _ _) _ => resume_with ERRNO_BADF
    | Fd_FilesystemEntry (File a content) pos =>
        max_offset ← question (u64_try_from (Z.of_nat (length content)));
        new_offset ← seek_position pos max_offset offset whence;
        w ← self;
        _ ← set_fds (<[fd := Some (Fd_FilesystemEntry (File a content) new_offset)]>
              (file_descriptors w));
        mret new_offset
    end;
  out_ptr ← next_u32;
  _ ← no_more;
  _ ← mem_write out_ptr (u64_to_le_bytes new_offset);
  resume_with 0.

(** [for ptr_and_len in list_to_write.chunks(2)]. *)
Fixpoint gather (list_to_write : list (list Z)) (encoded_message : bytes) (total_written : Z) :
    wcall (bytes * Z) :=
  match list_to_write with
  | [] => mret (encoded_message, total_written)
  | ptr_and_len :: list_to_write =>
      ptr ← may_panic (index ptr_and_len 0);
      len ← may_panic (index ptr_and_len 1);
      end_ ← may_panic (ptr +u32 len)%rust;
      data ← mem_read ptr end_;
      n ← question (usize_try_from len);
      total_written ← question (usize_try_from (total_written + n));
      gather list_to_write (encoded_message ++ data) total_written
  end.

Definition fd_write : wcall (ContextInner * ExtrinsicsAction) :=
  '(_, f) ← get_fd;
  list_to_write ← get_buffers;
  match f with
  | Fd_Empty => resume_with ERRNO_NOSYS
  | Fd_LogOut log_level =>
      '(encoded_message, total_written) ← gather (chunks 2 list_to_write)
        [Log.u8_from_level log_level] 0;
      expected ← may_panic (uint_checked usize_max (total_written + 1));
      _ ← may_panic (debug_assert (bool_decide (Z.of_nat (length encoded_message) = expected)));
      out_ptr ← next_u32;
      total_written ← question (u32_try_from total_written);
      _ ← mem_write out_ptr (u32_le total_written);
      _ ← no_more;
      mret (Ctx_Resume (Some (I32 0)), Action_EmitMessage Log.INTERFACE encoded_message false)
  | Fd_FilesystemEntry _ _ => stop PUnimplemented
  end.

(** The inode that a file descriptor designates, or [ERRNO_BADF]. *)
Definition fd_inode (f : FileDescriptor) : wcall Inode :=
  match f with
  | Fd_Empty | Fd_LogOut _ => resume_with ERRNO_BADF
  | Fd_FilesystemEntry inode _ => mret inode
  end.

(** The inode that the parameters of [path_filestat_get] and [path_open] lead
    to, or [ERRNO_NOENT]. *)
Definition get_resolved : wcall Inode :=
  '(_, f) ← get_fd;
  inode ← fd_inode f;
  _lookup_flags ← next_u32;
  path ← get_path;
  r ← may_panic (resolve_path inode path);
  match r with
  | Some p => mret p
  | None => resume_with ERRNO_NOENT
  end.

Definition path_filestat_get : wcall (ContextInner * ExtrinsicsAction) :=
  resolved_path ← get_resolved;
  let filestat := filestat_from_inode resolved_path in
  filestat_out_buf ← next_u32;
  _ ← no_more;
  _ ← write_fields filestat_out_buf
        [ (0, replicate 64 Init.Byte.x00); (0, u64_to_le_bytes (st_dev filestat));
          (8, u64_to_le_bytes (st_ino filestat)); (16, le_split 1 (st_filetype filestat));
          (24, u64_to_le_bytes (st_nlink filestat)); (32, u64_to_le_bytes (st_size filestat));
          (40, u64_to_le_bytes (st_atim filestat)); (48, u64_to_le_bytes (st_mtim filestat));
          (56, u64_to_le_bytes (st_ctim filestat)) ];
  resume_with 0.

(** The file descriptor that [path_open] takes: the first closed one, or one
    more. *)
Definition free_fd (l : list (option FileDescriptor)) : nat :=
  match list_find (λ f, f = None) l with
  | Some (fd_val, _) => fd_val
  | None => length l
  end.

Definition open_fd (inode : Inode) (l : list (option FileDescriptor)) : list (option FileDescriptor) :=
  match list_find (λ f, f = None) l with
  | Some (fd_val, _) => <[fd_val := Some (Fd_FilesystemEntry inode 0)]> l
  | None => l ++ [Some (Fd_FilesystemEntry inode 0)]
  end.

Definition path_open : wcall (ContextInner * ExtrinsicsAction) :=
  resolved_path ← get_resolved;
  _open_flags ← next_u32;
  v ← next_i64;
  _fs_rights_base ← question (u64_try_from v);
  v ← next_i64;
  _fs_rights_inherting ← question (u64_try_from v);
  _fd_flags ← next_u32;
  w ← self;
  _ ← set_fds (open_fd resolved_path (file_descriptors w));
  new_fd ← may_panic (unwrap (u32_try_from (Z.of_nat (free_fd (file_descriptors w)))));
  opened_fd_ptr ← next_u32;
  _ ← no_more;
  _ ← mem_write opened_fd_ptr (u32_le new_fd);
  resume_with 0.

Definition poll_oneoff : wcall (ContextInner * ExtrinsicsAction) :=
  _subscriptions_buf ← next_u32;
  _events_out_buf ← next_u32;
  _buf_size ← next_u32;
  _num_events_out ← next_u32;
  _ ← no_more;
  stop PUnimplemented.

Definition proc_exit : wcall (ContextInner * ExtrinsicsAction) :=
  _ret_val ← next_i32;
  _ ← no_more;
  stop PExplicit.

(** [u16::try_from(len).unwrap_or(u16::max_value())]. *)
Definition len_to_request (len : Z) : Z := default u16_max (u16_try_from len).

Definition random_get : wcall (ContextInner * ExtrinsicsAction) :=
  buf ← next_u32;
  len ← next_u32;
  _ ← no_more;
  _ ← may_panic (debug_assert (bool_decide (len_to_request len ≤ len)));
  mret (WaitRandom buf len,
        Action_EmitMessage Random.INTERFACE (encode_random (Random.Generate (len_to_request len))) true).

Definition sched_yield : wcall (ContextInner * ExtrinsicsAction) :=
  _ ← no_more;
  resume_with 0.

(** * The implementation of the trait *)

Definition dispatch (id : ExtrinsicIdInner) : wcall (ContextInner * ExtrinsicsAction) :=
  match id with
  | ArgsGet => args_get
  | ArgsSizesGet => args_sizes_get
  | ClockTimeGet => clock_time_get
  | EnvironGet => environ_get
  | EnvironSizesGet => environ_sizes_get
  | FdClose => fd_close
  | FdFdstatGet => fd_fdstat_get
  | FdFdstatSetFlags => stop PUnimplemented
  | FdFilestatGet => fd_filestat_get
  | FdPrestatDirName => fd_prestat_dir_name
  | FdPrestatGet => fd_prestat_get
  | FdRead => fd_read
  | FdSeek => fd_seek
  | FdTell => stop PUnimplemented
  | FdWrite => fd_write
  | PathCreateDirectory => stop PUnimplemented
  | PathFilestatGet => path_filestat_get
  | PathOpen => path_open
  | PollOneOff => poll_oneoff
  | ProcExit => proc_exit
  | RandomGet => random_get
  | SchedYield => sched_yield
  end.

Definition wasi_new_context (id : ExtrinsicIdInner) (params : list WasmValue) :
    M (WasiExtrinsics * Mem) (ContextInner * ExtrinsicsAction) := λ '(w, m),
  match dispatch id {| cs_params := params; cs_wasi := w; cs_mem := m |} with
  | Done (r, s) =>
      Done (match r with
            | inr (context, action) | inl (Exit_Ok context action) => (context, action)
            | inl Exit_Err => (Finished, Action_ProgramCrash)
            end, (cs_wasi s, cs_mem s))
  | Panic r => Panic r
  | NoFuel => NoFuel
  end.

(** [mem_access.write_memory(..).unwrap()]. *)
Definition write_unwrap (offset : Z) (data : bytes) : M (WasiExtrinsics * Mem) unit := λ '(w, m),
  '(r, m) ← ma_write_memory mem_access offset data m;
  _ ← unwrap r;
  Done (tt, (w, m)).

Definition wasi_inject_message_response (ctxt : ContextInner) (response : option EncodedMessage) :
    M (WasiExtrinsics * Mem) (ContextInner * ExtrinsicsAction) :=
  match ctxt with
  | WaitClockVal out_ptr =>
      response ← liftM (unwrap response);
      match decode_u128 response with
      | None => mret (ctxt, Action_ProgramCrash)
      | Some value =>
          converted_value ← liftM (unwrap (u64_try_from (value `mod` u64_max)));
          _ ← write_unwrap out_ptr (u64_to_le_bytes converted_value);
          mret (Finished, Action_Resume (Some (I32 0)))
      end
  | WaitRandom out_ptr remaining_len =>
      response ← liftM (unwrap response);
      match decode_generate_response response with
      | None => mret (ctxt, Action_ProgramCrash)
      | Some value =>
          let result := Random.result value in
          let len := Z.of_nat (length result) in
          _ ← liftM (assert_ (bool_decide (default u32_max (u32_try_from len) ≤ remaining_len)));
          _ ← write_unwrap out_ptr result;
          _ ← liftM (assert_ (bool_decide (len ≠ 0)));
          n ← liftM (unwrap (u32_try_from len));
          out_ptr ← liftM (out_ptr +u32 n)%rust;
          remaining_len ← liftM (remaining_len -u32 n)%rust;
          if bool_decide (remaining_len = 0) then mret (Finished, Action_Resume (Some (I32 0))) else
          _ ← liftM (debug_assert (bool_decide (len_to_request remaining_len ≤ remaining_len)));
          mret (WaitRandom out_ptr remaining_len,
                Action_EmitMessage Random.INTERFACE
                  (encode_random (Random.Generate (len_to_request remaining_len))) true)
      end
  | Ctx_Resume value => mret (Finished, Action_Resume value)
  | Finished => panic PUnreachable
  end.

End wasi.

(** [WasiExtrinsics::default]; [root] is the address of the root directory. *)
Definition wasi_default (root : Z) : WasiExtrinsics :=
  let fs_root := Directory root ∅ in
  {| args := [[Init.Byte.x66; Init.Byte.x6f; Init.Byte.x6f]];
     env_vars := [[Init.Byte.x48; Init.Byte.x4f; Init.Byte.x4d; Init.Byte.x45; Init.Byte.x3d;
                   Init.Byte.x2f; Init.Byte.x68; Init.Byte.x6f; Init.Byte.x6d; Init.Byte.x65]];
     file_descriptors := [ Some Fd_Empty; Some (Fd_LogOut Log.Info); Some (Fd_LogOut Log.Error);
                           Some (Fd_FilesystemEntry fs_root 0) ];
     file_system := fs_root |}.

(** One entry of the list of supported functions. *)
Definition wasi_function (id : ExtrinsicIdInner) (name : string) (params : list ValueType)
    (ret_ty : option ValueType) : SupportedExtrinsic ExtrinsicIdInner :=
  {| se_id := id; wasm_interface := "wasi_snapshot_preview1"; function_name := name;
     se_signature := Signature_new params ret_ty |}.

Definition wasi_supported_extrinsics : list (SupportedExtrinsic ExtrinsicIdInner) :=
  [
    wasi_function ArgsGet "args_get" [TI32; TI32] (Some TI32);
    wasi_function ArgsSizesGet "args_sizes_get" [TI32; TI32] (Some TI32);
    wasi_function ClockTimeGet "clock_time_get" [TI32; TI64; TI32] (Some TI32);
    wasi_function EnvironGet "environ_get" [TI32; TI32] (Some TI32);
    wasi_function EnvironSizesGet "environ_sizes_get" [TI32; TI32] (Some TI32);
    wasi_function FdClose "fd_close" [TI32] (Some TI32);
    wasi_function FdFdstatGet "fd_fdstat_get" [TI32; TI32] (Some TI32);
    wasi_function FdFdstatSetFlags "fd_fdstat_set_flags" [TI32; TI32] (Some TI32);
    wasi_function FdFilestatGet "fd_filestat_get" [TI32; TI32] (Some TI32);
    wasi_function FdPrestatDirName "fd_prestat_dir_name" [TI32; TI32; TI32] (Some TI32);
    wasi_function FdPrestatGet "fd_prestat_get" [TI32; TI32] (Some TI32);
    wasi_function FdRead "fd_read" [TI32; TI32; TI32; TI32] (Some TI32);
    wasi_function FdSeek "fd_seek" [TI32; TI64; TI32; TI32] (Some TI32);
    wasi_function FdTell "fd_tell" [TI32; TI32] (Some TI32);
    wasi_function FdWrite "fd_write" [TI32; TI32; TI32; TI32] (Some TI32);
    wasi_function PathCreateDirectory "path_create_directory" [TI32; TI32; TI32] (Some TI32);
    wasi_function PathFilestatGet "path_filestat_get" [TI32; TI32; TI32; TI32; TI32] (Some TI32);
    wasi_function PathOpen "path_open" [TI32; TI32; TI32; TI32; TI32; TI64; TI64; TI32; TI32] (Some TI32);
    wasi_function PollOneOff "poll_oneoff" [TI32; TI32; TI32; TI32] (Some TI32);
    wasi_function ProcExit "proc_exit" [TI32] (None);
    wasi_function RandomGet "random_get" [TI32; TI32] (Some TI32);
    wasi_function SchedYield "sched_yield" [] (Some TI32)
  ].

(** [impl Extrinsics for WasiExtrinsics]. *)
Definition WasiImpl `{WasiCrate} `{Scale} (root : Z) : Extrinsics := {|
  Ext := WasiExtrinsics;
  ExtrinsicId := ExtrinsicIdInner;
  Context := ContextInner;
  ext_default := wasi_default root;
  supported_extrinsics := wasi_supported_extrinsics;
  new_context := λ _ mem_access _ id params, wasi_new_context mem_access id params;
  inject_message_response := λ _ mem_access ctxt response,
    wasi_inject_message_response mem_access ctxt response;
|}.
