(* ===== verification/WasiInv.v ===== *)
(** Soundness of the WASI functions.

    The invariant of [WasiExtrinsics], and the proof that its implementation of
    the trait satisfies the laws that the scheduler relies on: whatever a
    program passes, a call ends in one of the listed ways. *)
From S2P Require Import Prelude WasmValue Ffi Calls Messages ExtrinsicsApi Wasi.

(** * The invariant *)

(** The cursor of a file is within it, and that of a directory is 0. *)
Definition fd_ok (f : FileDescriptor) : Prop :=
  match f with
  | Fd_Empty | Fd_LogOut _ => True
  | Fd_FilesystemEntry (Directory _ _) pos => pos = 0
  | Fd_FilesystemEntry (File _ content) pos => 0 ≤ pos ≤ Z.of_nat (length content)
  end.

(** And the table does not end in a closed descriptor. *)
Definition fds_ok (l : list (option FileDescriptor)) : Prop :=
  (∀ n f, l !! n = Some (Some f) → fd_ok f) ∧ last l ≠ Some None.

Definition wasi_ok (w : WasiExtrinsics) : Prop := fds_ok (file_descriptors w).

(** What a context waits for.  All functions that return something return an
    [i32]. *)
Definition wasi_waits (ctxt : ContextInner) (e : option ValueType) (answer : bool) : Prop :=
  e = Some TI32 ∧
  match ctxt with
  | WaitClockVal _ => answer = true
  | WaitRandom out_ptr remaining_len => answer = true ∧ 0 ≤ remaining_len ≤ u32_max
  | Ctx_Resume value => answer = false ∧ ty <$> value = e
  | Finished => False
  end.

Definition wasi_action_ok (ctxt : ContextInner) (action : ExtrinsicsAction) : Prop :=
  match action with
  | Action_ProgramCrash => True
  | Action_Resume v => ty <$> v = Some TI32
  | Action_EmitMessage interface _ b => is_hash interface ∧ wasi_waits ctxt (Some TI32) b
  end.

(** How a call may stop the kernel: a function or a case that is not
    implemented; the sum of an address and a size of the program that
    overflows; [proc_exit] or a bad [whence]; a random answer of the wrong
    size; an answer that cannot be written, or more than [2^32] open files. *)
Definition wasi_panics (r : panic_reason) : Prop :=
  r = PUnimplemented ∨ r = POverflow ∨ r = PExplicit ∨ r = PAssert ∨ r = PUnwrap.

(** * The table of file descriptors *)

Lemma fds_ok_insert l n f :
  fds_ok l → fd_ok f → fds_ok (<[n := Some f]> l).
Proof.
  intros [Hall Hlast] Hf. split.
  - intros n' f' [(-> & [= <-] & _)|[_ ?]]%list_lookup_insert_Some; [done|]. by eapply Hall.
  - rewrite last_lookup, length_insert, list_lookup_insert_Some.
    intros [(_ & [= ] & _)|[_ Hl]]. apply Hlast. by rewrite last_lookup.
Qed.

Lemma fds_ok_snoc l f : fds_ok l → fd_ok f → fds_ok (l ++ [Some f]).
Proof.
  intros [Hall _] Hf. split; [|by rewrite last_snoc].
  intros n f' [?|(_ & [_ [= <-]]%list_lookup_singleton_Some)]%lookup_app_Some; [by eapply Hall|done].
Qed.

(** The descriptors that remain after closed ones are dropped from the end. *)
Lemma pop_closed_spec fuel l :
  (length l ≤ fuel)%nat →
  last (pop_closed fuel l) ≠ Some None ∧
  ∃ k, l = pop_closed fuel l ++ replicate k None.
Proof.
  revert l. induction fuel as [|fuel IH]; intros l Hlen.
  - destruct l; [|simpl in Hlen; lia]. simpl. split; [done|]. by exists 0%nat.
  - simpl. destruct (last l) as [[f|]|] eqn:Hl.
    + split; [by rewrite Hl|]. exists 0%nat. by rewrite app_nil_r.
    + apply last_Some in Hl as [l' ->]. rewrite length_app in Hlen. simpl in Hlen.
      rewrite removelast_last. destruct (IH l') as [Hlast [k Hk]]; [lia|]. split; [done|].
      exists (k + 1)%nat. rewrite replicate_add, app_assoc, <-Hk. done.
    + split; [by rewrite Hl|]. exists 0%nat. by rewrite app_nil_r.
Qed.

Lemma pop_closed_lookup l n f :
  pop_closed (length l) l !! n = Some (Some f) ↔ l !! n = Some (Some f).
Proof.
  destruct (pop_closed_spec (length l) l) as (_ & k & Hk); [done|]. rewrite Hk at 3.
  rewrite lookup_app_Some. split; [by left|].
  intros [?|[_ [? _]%lookup_replicate]]; [done|congruence].
Qed.

Lemma fds_ok_close l n : fds_ok l → fds_ok (pop_closed (length (<[n := None]> l)) (<[n := None]> l)).
Proof.
  intros [Hall _]. split.
  - intros n' f Hf. apply (proj1 (pop_closed_lookup _ _ _)) in Hf.
    apply list_lookup_insert_Some in Hf as [(_ & [= ] & _)|[_ ?]]. by eapply Hall.
  - by apply pop_closed_spec.
Qed.

Lemma fds_ok_open inode l : fds_ok l → fds_ok (open_fd inode l).
Proof.
  intros Hl. assert (fd_ok (Fd_FilesystemEntry inode 0)).
  { destruct inode; simpl; [done|lia]. }
  unfold open_fd. destruct (list_find _ l) as [[n ?]|]; [by apply fds_ok_insert|by apply fds_ok_snoc].
Qed.

(** * Rules for the steps of a call *)

Section rules.
Context `{WasiCrate} `{Scale} {Mem : Type} (ma : ExtrinsicsMemoryAccess Mem) (I : Mem → Prop).
Context (Hma : accessor_ok ma I).

(** Started with parameters of types [tys] and the extrinsics [w], the step
    keeps the memory sound and ends in an allowed way; if it does not end the
    call, its result, the types of the parameters left and the extrinsics
    satisfy [Q]. *)
Definition spec {A} (tys : list ValueType) (w : WasiExtrinsics) (m : call Mem A)
    (Q : A → list ValueType → WasiExtrinsics → Prop) : Prop :=
  ∀ s, ty <$> cs_params s = tys → cs_wasi s = w → I (cs_mem s) →
    wp wasi_panics (m s) (λ '(r, s'), I (cs_mem s') ∧
      match r with
      | inr a => Q a (ty <$> cs_params s') (cs_wasi s')
      | inl e => wasi_ok (cs_wasi s') ∧
          match e with Exit_Ok ctxt action => wasi_action_ok ctxt action | Exit_Err => True end
      end).

(** Steps that leave the call as it is. *)
Lemma spec_ret {A} tys w (a : A) (Q : A → list ValueType → WasiExtrinsics → Prop) :
  Q a tys w → spec tys w (mret a) Q.
Proof. intros HQ s <- <- Hm. done. Qed.

Lemma spec_bind {A B} tys w (m : call Mem A) (f : A → call Mem B) Q :
  spec tys w m (λ a tys' w', spec tys' w' (f a) Q) → spec tys w (m ≫= f) Q.
Proof.
  intros Hspec s Ht Hw Hm. specialize (Hspec s Ht Hw Hm). unfold mbind, call_bind.
  destruct (m s) as [[[e|a] s']|r|]; [done| |done..]. destruct Hspec as [Hm' Hf]. by apply Hf.
Qed.

Lemma spec_mono {A} tys w (m : call Mem A) (Q Q' : A → list ValueType → WasiExtrinsics → Prop) :
  spec tys w m Q → (∀ a tys' w', Q a tys' w' → Q' a tys' w') → spec tys w m Q'.
Proof.
  intros Hspec HQ s Ht Hw Hm. eapply wp_mono; [by apply Hspec|].
  intros [[e|a] s'] [? ?]; split; auto.
Qed.

Lemma spec_stop {A} tys w r (Q : A → list ValueType → WasiExtrinsics → Prop) :
  wasi_panics r → spec tys w (stop r) Q.
Proof. by intros Hr s _ _ _. Qed.

Lemma spec_may_panic {A} tys w (m : outcome A) (Q : A → list ValueType → WasiExtrinsics → Prop) :
  wp wasi_panics m (λ a, Q a tys w) → spec tys w (may_panic m) Q.
Proof. intros Hwp s <- <- Hm. unfold may_panic. by destruct m. Qed.

Lemma spec_question {A} tys w (o : option A) (Q : A → list ValueType → WasiExtrinsics → Prop) :
  wasi_ok w → (∀ a, o = Some a → Q a tys w) → spec tys w (question o) Q.
Proof. intros Hok HQ s <- <- Hm. destruct o; simpl; auto. Qed.

Lemma spec_resume {A} tys w v (Q : A → list ValueType → WasiExtrinsics → Prop) :
  wasi_ok w → spec tys w (resume_with v) Q.
Proof. intros Hok s <- <- Hm. done. Qed.

Lemma spec_self tys w Q : Q w tys w → spec tys w self Q.
Proof. by intros HQ s <- <- Hm. Qed.

Lemma spec_set_fds tys w l Q : Q tt tys (with_fds l w) → spec tys w (set_fds l) Q.
Proof. by intros HQ s <- <- Hm. Qed.

(** The parameters. *)
Lemma spec_next t tys w Q : (∀ v, ty v = t → Q v tys w) → spec (t :: tys) w next Q.
Proof.
  intros HQ s Ht <- Hm. unfold next. destruct (cs_params s) as [|v l]; [done|].
  rewrite fmap_cons in Ht. injection Ht as Hv <-. simpl. auto.
Qed.

Lemma spec_next_i32 tys w Q : (∀ v, Q v tys w) → spec (TI32 :: tys) w next_i32 Q.
Proof.
  intros HQ. apply spec_bind, spec_next. intros [] Hv; try done. apply spec_may_panic. simpl. auto.
Qed.

Lemma spec_next_i64 tys w Q : (∀ v, Q v tys w) → spec (TI64 :: tys) w next_i64 Q.
Proof.
  intros HQ. apply spec_bind, spec_next. intros [] Hv; try done. apply spec_may_panic. simpl. auto.
Qed.

Lemma spec_next_u32 tys w Q :
  wasi_ok w → (∀ v, 0 ≤ v ≤ u32_max → Q v tys w) → spec (TI32 :: tys) w next_u32 Q.
Proof.
  intros Hok HQ. apply spec_bind, spec_next_i32. intros v. apply spec_question; [done|].
  intros z [-> ?]%uint_try_from_Some. auto.
Qed.

Lemma spec_next_usize tys w Q :
  wasi_ok w → (∀ v, 0 ≤ v → Q v tys w) → spec (TI32 :: tys) w next_usize Q.
Proof.
  intros Hok HQ. apply spec_bind, spec_next_i32. intros v. apply spec_question; [done|].
  intros z [-> [? _]]%uint_try_from_Some. auto.
Qed.

Lemma spec_no_more w Q : Q tt [] w → spec [] w no_more Q.
Proof.
  intros HQ s Ht <- Hm. unfold no_more. destruct (cs_params s) eqn:Hp; [|done]. simpl. by rewrite Hp.
Qed.

(** The memory. *)
Lemma spec_read tys w a b Q :
  wasi_ok w → 0 ≤ a ≤ b → b ≤ u32_max → (∀ bs, Z.of_nat (length bs) = b - a → Q bs tys w) →
  spec tys w (mem_read ma a b) Q.
Proof.
  intros Hok Hab Hb HQ s <- <- Hm. unfold mem_read.
  destruct (proj1 Hma _ a b Hm Hab Hb) as (r & -> & Hr). destruct r as [bs|]; simpl; auto.
Qed.

Lemma spec_write tys w off bs Q :
  wasi_ok w → Q tt tys w → spec tys w (mem_write ma off bs) Q.
Proof.
  intros Hok HQ s <- <- Hm. unfold mem_write.
  destruct (proj2 Hma off bs _ Hm) as (r & m' & -> & Hm'). destruct r; simpl; auto.
Qed.

Lemma wasi_overflow max z (Q : Z → Prop) :
  (0 ≤ z ≤ max → Q z) → wp wasi_panics (uint_checked max z) Q.
Proof.
  unfold uint_checked, uint_try_from. intros HQ. case_bool_decide; simpl; [auto|].
  unfold wasi_panics. tauto.
Qed.

Lemma wasi_unwrap max z (Q : Z → Prop) :
  (0 ≤ z ≤ max → Q z) → wp wasi_panics (unwrap (uint_try_from max z)) Q.
Proof.
  unfold uint_try_from. intros HQ. case_bool_decide; simpl; [auto|]. unfold wasi_panics. tauto.
Qed.

Lemma wasi_assert (b : bool) (Q : unit → Prop) : (b = true → Q tt) → wp wasi_panics (assert_ b) Q.
Proof. intros HQ. destruct b; simpl; [auto|]. unfold wasi_panics. tauto. Qed.

Lemma spec_try_from tys w max z (Q : Z → list ValueType → WasiExtrinsics → Prop) :
  wasi_ok w → (0 ≤ z ≤ max → Q z tys w) → spec tys w (question (uint_try_from max z)) Q.
Proof.
  intros Hok HQ. apply spec_question; [done|]. intros ? [-> ?]%uint_try_from_Some. auto.
Qed.

Lemma spec_u32 tys w z (Q : Z → list ValueType → WasiExtrinsics → Prop) :
  (0 ≤ z ≤ u32_max → Q z tys w) → spec tys w (may_panic (uint_checked u32_max z)) Q.
Proof. intros HQ. by apply spec_may_panic, wasi_overflow. Qed.

End rules.

(** One step of a call. *)
Ltac wasi_step :=
  lazymatch goal with
  | |- spec _ _ _ (_ ≫= _) _ => apply spec_bind
  | |- spec _ _ _ (mret _) _ => apply spec_ret
  | |- spec _ _ _ (stop _) _ => apply spec_stop; unfold wasi_panics; tauto
  | |- spec _ _ _ (resume_with _) _ => apply spec_resume; [try done]
  | |- spec _ _ _ self _ => apply spec_self
  | |- spec _ _ _ (set_fds _) _ => apply spec_set_fds
  | |- spec _ _ _ next_i32 _ => apply spec_next_i32; intros ?
  | |- spec _ _ _ next_i64 _ => apply spec_next_i64; intros ?
  | |- spec _ _ _ next_u32 _ => apply spec_next_u32; [try done|intros ? ?]
  | |- spec _ _ _ next_usize _ => apply spec_next_usize; [try done|intros ? ?]
  | |- spec _ _ _ no_more _ => apply spec_no_more
  | |- spec _ _ _ (mem_write _ _ _) _ => apply spec_write; [done|try done|]
  | |- spec _ _ _ (question (uint_try_from _ _)) _ => apply spec_try_from; [try done|intros ?]
  | |- spec _ _ _ (question _) _ => apply spec_question; [try done|intros ? ?]
  | |- spec _ _ _ (may_panic (_ +u32 _)%rust) _ => apply spec_u32; intros ?
  | |- spec _ _ _ (may_panic (_ *u32 _)%rust) _ => apply spec_u32; intros ?
  end; cbn beta iota.

(** * The functions *)

Section functions.
Context `{WasiCrate} `{Scale} {Mem : Type} (ma : ExtrinsicsMemoryAccess Mem) (I : Mem → Prop).
Context (Hma : accessor_ok ma I).

(** A call that ends normally. *)
Definition ended (r : ContextInner * ExtrinsicsAction) (_ : list ValueType) (w : WasiExtrinsics) :
    Prop := wasi_ok w ∧ wasi_action_ok r.1 r.2.

Lemma get_fd_spec tys w Q :
  wasi_ok w →
  (∀ n f, file_descriptors w !! n = Some (Some f) → Q (n, f) tys w) →
  spec I (TI32 :: tys) w get_fd Q.
Proof.
  intros Hok HQ. unfold get_fd. do 2 wasi_step. do 2 wasi_step.
  destruct (file_descriptors w !! _) as [[f|]|] eqn:Hf; wasi_step. by apply HQ.
Qed.

Lemma wp_le_list n bss (Q : list Z → Prop) :
  Forall (λ c, length c = n) bss →
  (∀ l, length l = length bss → Forall (λ z, 0 ≤ z) l → Q l) →
  wp wasi_panics (map_outcome (uint_from_le_bytes n) bss) Q.
Proof.
  intros Hall. revert Q. induction Hall as [|c bss Hc _ IH]; intros Q HQ; [by apply HQ|].
  cbn [map_outcome]. apply wp_bind. unfold uint_from_le_bytes. rewrite bool_decide_true by done.
  simpl. apply wp_bind. apply IH. intros l Hl Hpos. simpl. apply HQ; [simpl; lia|].
  constructor; [|done]. apply le_combine_range.
Qed.

(** The list of [fd_read] and [fd_write] has an even length. *)
Lemma get_buffers_spec tys w Q :
  wasi_ok w →
  (∀ l k, length l = (2 * k)%nat → Forall (λ z, 0 ≤ z) l → Q l tys w) →
  spec I (TI32 :: TI32 :: tys) w (get_buffers ma) Q.
Proof.
  intros Hok HQ. unfold get_buffers. repeat wasi_step. apply (spec_read ma I Hma); [done|lia..|].
  intros bs Hbs. do 2 wasi_step. apply spec_may_panic.
  match goal with _ : 0 ≤ 4 * ?n * 2 ≤ _ |- _ => set (num := n) in * end.
  destruct (chunks_exact 4 (2 * Z.to_nat num) bs) as (Hn & Hall & _); [lia|lia|].
  apply wp_le_list; [done|]. intros l Hl Hpos. by apply (HQ l (Z.to_nat num)); [lia|].
Qed.

(** Its elements, two by two. *)
Lemma pairs_ok (l : list Z) k :
  length l = (2 * k)%nat → Forall (λ z, 0 ≤ z) l →
  Forall (λ c, ∃ p n, c = [p; n] ∧ 0 ≤ p ∧ 0 ≤ n) (chunks 2 l).
Proof.
  intros Hl Hpos. destruct (chunks_exact 2 k l) as (_ & Hall & Hc); [lia|done|].
  rewrite <-Hc in Hpos. revert Hall Hpos. clear. induction (chunks 2 l) as [|c ls IH]; [done|].
  intros [Hc Hall]%Forall_cons [Hp Hpos]%Forall_app. constructor; [|by apply IH].
  destruct c as [|p [|n []]]; try done. rewrite !Forall_cons in Hp. naive_solver.
Qed.

Lemma get_path_spec tys w Q :
  wasi_ok w → (∀ path, Q path tys w) → spec I (TI32 :: TI32 :: tys) w (get_path ma) Q.
Proof.
  intros Hok HQ. unfold get_path. repeat wasi_step. apply (spec_read ma I Hma); [done|lia..|].
  intros bs _. destruct (utf8_valid bs); wasi_step; [done|]. discriminate.
Qed.

Lemma write_fields_spec tys w base fields Q :
  wasi_ok w → Q tt tys w → spec I tys w (write_fields ma base fields) Q.
Proof.
  intros Hok HQ. induction fields as [|[off data] fields IH]; [by simpl; wasi_step|]. simpl.
  destruct off; repeat wasi_step; done.
Qed.

Lemma args_loop_spec tys w argv buf pos bpos l Q :
  wasi_ok w → Q tt tys w → spec I tys w (args_loop ma argv buf pos bpos l) Q.
Proof.
  intros Hok HQ. revert pos bpos. induction l as [|arg l IH]; intros pos bpos; [by simpl; wasi_step|].
  cbn [args_loop]. repeat wasi_step. apply IH.
Qed.

(** ** Reading, seeking and writing *)

Lemma with_fds_ok w l : fds_ok l → wasi_ok (with_fds l w).
Proof. done. Qed.

Lemma read_file_spec tys w fd a content pos bufs total Q :
  wasi_ok w → 0 ≤ pos ≤ Z.of_nat (length content) →
  Forall (λ c, ∃ p n, c = [p; n] ∧ 0 ≤ p ∧ 0 ≤ n) bufs →
  (∀ total' w', wasi_ok w' → Q total' tys w') →
  spec I tys w (read_file ma fd (File a content) content pos bufs total) Q.
Proof.
  intros Hok Hpos Hbufs HQ. revert w pos total Hok Hpos.
  induction Hbufs as [|c bufs (p & n & -> & Hp & Hn) _ IH]; intros w pos total Hok Hpos.
  { simpl. wasi_step. by apply HQ. }
  cbn [read_file]. do 2 (apply spec_bind, spec_may_panic; simpl).
  do 2 wasi_step.
  apply spec_bind, spec_may_panic, wasi_unwrap. intros _.
  apply spec_bind, spec_may_panic. rewrite bool_decide_true by lia. simpl.
  apply spec_bind, spec_may_panic, wasi_overflow. intros _. case_bool_decide; [wasi_step; by apply HQ|].
  apply spec_bind, spec_may_panic. rewrite slice_total by lia. simpl.
  do 2 wasi_step. do 2 wasi_step.
  do 2 wasi_step.
  do 4 wasi_step. apply spec_bind, spec_may_panic. rewrite bool_decide_true.
  2:{ unfold uint_try_from. case_bool_decide; simpl; lia. }
  simpl. apply spec_bind, spec_may_panic, wasi_overflow. intros _. apply IH; [|lia].
  apply with_fds_ok, fds_ok_insert; [done|]. simpl. lia.
Qed.

Lemma fd_read_spec w : wasi_ok w → spec I [TI32; TI32; TI32; TI32] w (fd_read ma) ended.
Proof.
  intros Hok. unfold fd_read. apply spec_bind, get_fd_spec; [done|]. intros n f Hf.
  apply spec_bind, get_buffers_spec; [done..|]. intros l k Hl Hpos.
  assert (Hend : ∀ total w', wasi_ok w' → spec I [TI32] w' (out_ptr ← next_u32;
    _ ← no_more; _ ← mem_write ma out_ptr (u32_le total); resume_with 0) ended).
  { intros total w' Hok'. repeat wasi_step. }
  apply spec_bind. pose proof (proj1 Hok _ _ Hf) as Hfd.
  destruct f as [| |[a entries|a content] pos]; try wasi_step; try by apply Hend.
  apply read_file_spec; [done|done|by eapply pairs_ok|]. intros total w' Hok'.
  wasi_step. by apply Hend.
Qed.

Lemma seek_position_spec tys w pos max offset whence Q :
  wasi_ok w → 0 ≤ pos → 0 ≤ max → (∀ new, 0 ≤ new ≤ max → Q new tys w) →
  spec I tys w (seek_position pos max offset whence) Q.
Proof.
  intros Hok Hpos Hmax HQ. unfold seek_position. repeat case_bool_decide.
  - do 2 wasi_step.
    wasi_step. apply HQ. lia.
  - wasi_step. apply HQ. unfold u64_saturating_add, i64_as_u64.
    pose proof (Z.mod_pos_bound offset (2 ^ 64) ltac:(lia)). unfold u64_max. lia.
  - apply spec_bind, spec_may_panic. unfold i64_add. case_bool_decide; simpl; [|unfold wasi_panics; tauto].
    do 2 wasi_step.
    wasi_step. apply HQ. lia.
  - wasi_step.
Qed.

Lemma fd_seek_spec w : wasi_ok w → spec I [TI32; TI64; TI32; TI32] w (fd_seek ma) ended.
Proof.
  intros Hok. unfold fd_seek. apply spec_bind, get_fd_spec; [done|]. intros n f Hf.
  do 6 wasi_step. apply spec_bind. pose proof (proj1 Hok _ _ Hf) as Hfd.
  destruct f as [| |[a entries|a content] pos]; wasi_step. wasi_step.
  apply spec_bind, seek_position_spec; [done|simpl in Hfd; lia|lia|]. intros new Hnew.
  do 4 wasi_step. assert (Hok' : wasi_ok (with_fds (<[n:=Some (Fd_FilesystemEntry (File a content) new)]>
    (file_descriptors w)) w)) by (apply with_fds_ok, fds_ok_insert; [done|simpl; lia]).
  repeat wasi_step.
Qed.

Lemma gather_spec tys w bufs msg total Q :
  wasi_ok w → Z.of_nat (length msg) = total + 1 →
  Forall (λ c, ∃ p n, c = [p; n] ∧ 0 ≤ p ∧ 0 ≤ n) bufs →
  (∀ msg' total', Z.of_nat (length msg') = total' + 1 → Q (msg', total') tys w) →
  spec I tys w (gather ma bufs msg total) Q.
Proof.
  intros Hok Hmsg Hbufs HQ. revert msg total Hmsg.
  induction Hbufs as [|c bufs (p & n & -> & Hp & Hn) _ IH]; intros msg total Hmsg.
  { simpl. wasi_step. by apply HQ. }
  cbn [gather]. do 2 (apply spec_bind, spec_may_panic; simpl). do 2 wasi_step.
  apply spec_bind, (spec_read ma I Hma); [done|lia|lia|]. intros bs Hbs. do 2 wasi_step.
  do 2 wasi_step.
  apply IH. rewrite length_app. lia.
Qed.

Lemma fd_write_spec w : wasi_ok w → spec I [TI32; TI32; TI32; TI32] w (fd_write ma) ended.
Proof.
  intros Hok. unfold fd_write. apply spec_bind, get_fd_spec; [done|]. intros n f Hf.
  apply spec_bind, get_buffers_spec; [done..|]. intros l k Hl Hpos.
  destruct f as [|level|]; wasi_step.
  apply gather_spec; [done|done|by eapply pairs_ok|]. intros msg total Hmsg.
  apply spec_bind, spec_may_panic, wasi_overflow. intros _.
  apply spec_bind, spec_may_panic. rewrite bool_decide_true by done. simpl. repeat wasi_step. done.
Qed.

(** ** The other functions *)

Lemma resolve_components_stops inode l (Q : option Inode → Prop) :
  (∀ r, Q r) → wp wasi_panics (resolve_components inode l) Q.
Proof.
  intros HQ. revert inode. induction l as [|c l IH]; intros inode; [apply HQ|]. simpl.
  repeat case_bool_decide; [done|unfold wasi_panics; simpl; tauto|].
  destruct inode as [a entries|]; [|apply HQ]. destruct (entries !! c); [done|apply HQ].
Qed.

Lemma get_resolved_spec tys w Q :
  wasi_ok w → (∀ inode, Q inode tys w) →
  spec I (TI32 :: TI32 :: TI32 :: TI32 :: tys) w (get_resolved ma) Q.
Proof.
  intros Hok HQ. unfold get_resolved. apply spec_bind, get_fd_spec; [done|]. intros n f Hf.
  apply spec_bind. destruct f as [| |inode pos]; simpl; wasi_step. do 2 wasi_step.
  apply spec_bind, get_path_spec; [done..|]. intros path.
  apply spec_bind, spec_may_panic, resolve_components_stops. intros [p|]; wasi_step. apply HQ.
Qed.

Lemma path_open_spec w :
  wasi_ok w →
  spec I [TI32; TI32; TI32; TI32; TI32; TI64; TI64; TI32; TI32] w (path_open ma) ended.
Proof.
  intros Hok. unfold path_open. apply spec_bind, get_resolved_spec; [done|]. intros inode.
  repeat wasi_step. assert (Hok' : wasi_ok (with_fds (open_fd inode (file_descriptors w)) w)).
  { by apply with_fds_ok, fds_ok_open. }
  apply spec_may_panic, wasi_unwrap. intros _. repeat wasi_step.
Qed.

Lemma path_filestat_get_spec w :
  wasi_ok w → spec I [TI32; TI32; TI32; TI32; TI32] w (path_filestat_get ma) ended.
Proof.
  intros Hok. unfold path_filestat_get. apply spec_bind, get_resolved_spec; [done|]. intros inode.
  do 4 wasi_step. apply spec_bind, write_fields_spec; [done|]. wasi_step.
Qed.

Lemma fd_close_spec w : wasi_ok w → spec I [TI32] w fd_close ended.
Proof.
  intros Hok. unfold fd_close. do 6 wasi_step.
  destruct (file_descriptors w !! _) as [[f|]|]; wasi_step. do 2 wasi_step.
  by apply with_fds_ok, fds_ok_close.
Qed.

Lemma fd_stats_spec w :
  wasi_ok w →
  spec I [TI32; TI32] w (fd_fdstat_get ma) ended ∧ spec I [TI32; TI32] w fd_filestat_get ended ∧
  spec I [TI32; TI32; TI32] w (fd_prestat_dir_name ma) ended ∧
  spec I [TI32; TI32] w (fd_prestat_get ma) ended.
Proof.
  intros Hok. unfold fd_fdstat_get, fd_filestat_get, fd_prestat_dir_name, fd_prestat_get.
  split_and!; (apply spec_bind, get_fd_spec; [done|]); intros n f Hf.
  - do 4 wasi_step. apply spec_bind, write_fields_spec; [done|]. wasi_step.
  - repeat wasi_step.
  - destruct f as [| |inode pos]; wasi_step. repeat wasi_step.
    apply spec_may_panic. rewrite slice_total by (simpl; lia). simpl. repeat wasi_step.
  - destruct f as [| |[|] pos]; wasi_step. do 3 wasi_step.
    apply spec_bind, write_fields_spec; [done|]. wasi_step.
Qed.

Lemma args_spec l w :
  wasi_ok w →
  spec I [TI32; TI32] w (args_or_env_get ma l) ended ∧
  spec I [TI32; TI32] w (args_or_env_sizes_get ma l) ended.
Proof.
  intros Hok. unfold args_or_env_get, args_or_env_sizes_get. split.
  - repeat wasi_step. apply args_loop_spec; [done|]. wasi_step.
  - repeat wasi_step.
Qed.

Lemma len_to_request_le len : 0 ≤ len → 0 ≤ len_to_request len ≤ len.
Proof.
  intros Hlen. unfold len_to_request, uint_try_from, u16_max. case_bool_decide; simpl; lia.
Qed.

Lemma random_get_spec w : wasi_ok w → spec I [TI32; TI32] w random_get ended.
Proof.
  intros Hok. unfold random_get. repeat wasi_step. apply spec_may_panic.
  rewrite bool_decide_true by (apply len_to_request_le; lia). simpl. wasi_step. by split_and!.
Qed.

Lemma clock_time_get_spec w : wasi_ok w → spec I [TI32; TI64; TI32] w clock_time_get ended.
Proof.
  intros Hok. unfold clock_time_get. repeat wasi_step.
  repeat case_bool_decide; wasi_step; done.
Qed.

End functions.

(** * The laws *)

Section laws.
Context `{WasiCrate} `{Scale} `{!ScaleLaws} (root : Z).

Lemma wasi_default_ok : wasi_ok (wasi_default root).
Proof.
  split; [|done]. intros n f Hf. repeat (destruct n as [|n]; [by injection Hf as <-|]). done.
Qed.

(** The types of the parameters of each function are those that it reads. *)
Lemma dispatch_spec {Mem} (ma : ExtrinsicsMemoryAccess Mem) (I : Mem → Prop) e w :
  accessor_ok ma I → e ∈ wasi_supported_extrinsics → wasi_ok w →
  spec I (sig_params (se_signature e)) w (dispatch ma (se_id e)) ended.
Proof.
  intros Hma He Hok. destruct (fd_stats_spec ma I Hma w Hok) as (? & ? & ? & ?).
  unfold wasi_supported_extrinsics in He. repeat (apply elem_of_cons in He as [->|He]); simpl; try done.
  - apply spec_bind, spec_self. by apply args_spec.
  - apply spec_bind, spec_self. by apply args_spec.
  - by apply clock_time_get_spec.
  - apply spec_bind, spec_self. by apply args_spec.
  - apply spec_bind, spec_self. by apply args_spec.
  - by apply fd_close_spec.
  - wasi_step.
  - by apply fd_read_spec.
  - by apply fd_seek_spec.
  - wasi_step.
  - by apply fd_write_spec.
  - wasi_step.
  - by apply path_filestat_get_spec.
  - by apply path_open_spec.
  - unfold poll_oneoff. repeat wasi_step.
  - unfold proc_exit. repeat wasi_step.
  - by apply random_get_spec.
  - unfold sched_yield. repeat wasi_step.
  - by apply elem_of_nil in He.
Qed.

(** Every function but [proc_exit], which never returns, returns an [i32]. *)
Lemma supported_ret e :
  e ∈ wasi_supported_extrinsics →
  sig_ret_ty (se_signature e) = Some TI32 ∨ se_id e = ProcExit ∧ sig_ret_ty (se_signature e) = None.
Proof.
  unfold wasi_supported_extrinsics. intros He.
  repeat (apply elem_of_cons in He as [->|He]; [by (left + right)|]). by apply elem_of_nil in He.
Qed.

Lemma new_context_sound {Mem} (ma : ExtrinsicsMemoryAccess Mem) (I : Mem → Prop) e params w m :
  e ∈ wasi_supported_extrinsics → ty <$> params = sig_params (se_signature e) →
  accessor_ok ma I → I m → wasi_ok w →
  wp wasi_panics (wasi_new_context ma (se_id e) params (w, m)) (λ '((ctxt, action), (w', m')),
    I m' ∧ wasi_ok w' ∧ wasi_action_ok ctxt action ∧ sig_ret_ty (se_signature e) = Some TI32).
Proof.
  intros He Hty Hma Hm Hok. unfold wasi_new_context.
  pose proof (dispatch_spec ma I e w Hma He Hok
    {| cs_params := params; cs_wasi := w; cs_mem := m |} Hty eq_refl Hm) as Hd.
  destruct (supported_ret e He) as [Hr|[Hid Hr]].
  - destruct (dispatch ma _ _) as [[[[ctxt action|]|[ctxt action]] s]| |]; simpl in *; unfold ended in *; intuition.
  - rewrite Hid. simpl. unfold proc_exit, next_i32, next, mbind, call_bind, no_more, wasi_panics.
    destruct params as [|v params]; simpl; [tauto|]. destruct (into_i32 v); simpl; [|tauto].
    destruct params; simpl; tauto.
Qed.

Lemma write_unwrap_sound {Mem} (ma : ExtrinsicsMemoryAccess Mem) (I : Mem → Prop) off bs w m Q :
  accessor_ok ma I → I m → (∀ m', I m' → Q (tt, (w, m'))) →
  wp wasi_panics (write_unwrap ma off bs (w, m)) Q.
Proof.
  intros Hma Hm HQ. unfold write_unwrap. destruct (proj2 Hma off bs m Hm) as (r & m' & -> & Hm').
  simpl. destruct r; simpl; [by apply HQ|]. unfold wasi_panics. tauto.
Qed.

Lemma inject_sound {Mem} (ma : ExtrinsicsMemoryAccess Mem) (I : Mem → Prop) ctxt e resp w m :
  accessor_ok ma I → I m → wasi_ok w → wasi_waits ctxt e (bool_decide (is_Some resp)) →
  wp wasi_panics (wasi_inject_message_response ma ctxt resp (w, m)) (λ '((ctxt', action), (w', m')),
    I m' ∧ w' = w ∧ wasi_action_ok ctxt' action).
Proof.
  intros Hma Hm Hok [-> Hw]. destruct ctxt as [out|out rem|value|]; simpl in *; [..|done].
  - destruct resp as [bs|]; [|done]. apply wp_Mbind. simpl.
    destruct (decode_u128 bs) as [v|] eqn:Hv; [|done]. apply decode_u128_range in Hv.
    apply wp_Mbind, wp_liftM, wasi_unwrap. intros _. apply wp_Mbind.
    by eapply write_unwrap_sound.
  - destruct Hw as [Hr Hrem]. destruct resp as [bs|]; [|done]. apply wp_Mbind. simpl.
    destruct (decode_generate_response bs) as [v|]; [|done]. simpl.
    apply wp_Mbind, wp_liftM, wasi_assert. intros _.
    apply wp_Mbind. eapply write_unwrap_sound; [done|done|]. intros m' Hm'.
    apply wp_Mbind, wp_liftM, wasi_assert. intros _. apply wp_Mbind, wp_liftM, wasi_unwrap. intros Hn.
    apply wp_Mbind, wp_liftM, wasi_overflow. intros _.
    apply wp_Mbind, wp_liftM, wasi_overflow. intros Hrem'.
    destruct (bool_decide_reflect (rem - Z.of_nat (length (Random.result v)) = 0)); [done|].
    apply wp_Mbind, wp_liftM. rewrite bool_decide_true by (apply len_to_request_le; lia). simpl.
    by split_and!.
  - destruct Hw as [_ Hv]. done.
Qed.

#[global] Instance WasiImpl_laws : ExtrinsicsLaws (H := WasiImpl root).
Proof.
  unshelve refine {| ext_inv := (wasi_ok : Ext (Extrinsics := WasiImpl root) → Prop);
    context_waits := (wasi_waits : Context (Extrinsics := WasiImpl root) → _);
    ext_panics := wasi_panics |}.
  - apply wasi_default_ok.
  - apply (bool_decide_unpack _). vm_compute. exact I.
  - intros e He. simpl in *. unfold wasi_supported_extrinsics in He.
    repeat (apply elem_of_cons in He as [->|He]; [done|]). by apply elem_of_nil in He.
  - intros Mem ma I tid e params ext m He Hty Hma Hm Hok.
    eapply wp_mono; [by eapply (new_context_sound ma I e params ext m)|].
    intros [[ctxt action] [w' m']] (? & ? & Ha & Hr). split_and!; [done..|].
    refine (eq_ind_r (λ t, action_ok (H := WasiImpl root) wasi_waits t ctxt action) _ Hr).
    by destruct action.
  - intros Mem ma I ctxt e resp ext m Hma Hm Hok Hw.
    eapply wp_mono; [by eapply (inject_sound ma I ctxt e resp ext m)|].
    intros [[ctxt' action] [w' m']] (? & -> & Ha). destruct Hw as [-> _]. split_and!; try done.
Qed.

(** C18: whatever a program passes to a WASI function, with the types of its
    signature, the call ends: the memory is only changed through the accessor,
    the cursors of the open files stay within the files and the table does not
    end in a closed descriptor, and the program is resumed with an [i32], or
    waits for an answer, or is reported as crashed.  The kernel stops only
    for one of the listed reasons; in particular none of the assertions on
    cursors and sizes fails and no index is out of range. *)
Theorem wasi_new_context_ok {Mem} (ma : ExtrinsicsMemoryAccess Mem) (I : Mem → Prop) e params w m :
  e ∈ wasi_supported_extrinsics → ty <$> params = sig_params (se_signature e) →
  accessor_ok ma I → I m → wasi_ok w →
  wp wasi_panics (wasi_new_context ma (se_id e) params (w, m)) (λ '((ctxt, action), (w', m')),
    I m' ∧ wasi_ok w' ∧ wasi_action_ok ctxt action ∧ sig_ret_ty (se_signature e) = Some TI32).
Proof. apply new_context_sound. Qed.

End laws.
