(* ===== verification/WasiSpec.v ===== *)
(** What the WASI functions do.

    The table of file descriptors, reading, seeking, logging, and the exchange
    of messages that fills a buffer with random bytes, on the calls that
    programs make. *)
From S2P Require Import Prelude WasmValue Ffi Calls Messages ExtrinsicsApi Wasi WasiInv.

Section spec.
Context `{WasiCrate} `{Scale} {Mem : Type} (ma : ExtrinsicsMemoryAccess Mem).

(** A sequence of writes that all succeed. *)
Inductive writes : list (Z * bytes) → Mem → Mem → Prop :=
  | writes_nil m : writes [] m m
  | writes_cons off bs l m m1 m' :
      ma_write_memory ma off bs m = Done (Some tt, m1) → writes l m1 m' →
      writes ((off, bs) :: l) m m'.

Lemma writes_app l1 l2 m m' :
  writes (l1 ++ l2) m m' ↔ ∃ m1, writes l1 m m1 ∧ writes l2 m1 m'.
Proof.
  split.
  - revert m. induction l1 as [|[off bs] l1 IH]; intros m; simpl.
    + intros Hw. exists m. split; [constructor|done].
    + inversion 1 as [|? ? ? ? m1 ? Hw Hl]; subst. destruct (IH _ Hl) as (m2 & ? & ?).
      exists m2. split; [by econstructor|done].
  - intros (m1 & Hw & Hl2). induction Hw; [done|]. simpl. econstructor; eauto.
Qed.

(** What is read at an address. *)
Definition reads (m : Mem) (a : Z) (bs : bytes) : Prop :=
  ma_read_memory ma m a (a + Z.of_nat (length bs)) = Done (Some bs).

(** ** Evaluating a call *)

Lemma run_bind {A B} (m : call Mem A) (f : A → call Mem B) s a s' :
  m s = Done (inr a, s') → (m ≫= f) s = f a s'.
Proof. unfold mbind, call_bind. by intros ->. Qed.

Lemma run_exit {A B} (m : call Mem A) (f : A → call Mem B) s e s' :
  m s = Done (inl e, s') → (m ≫= f) s = Done (inl e, s').
Proof. unfold mbind, call_bind. by intros ->. Qed.

Lemma run_try {A} (o : option A) a (s : call_state Mem) :
  o = Some a → question o s = Done (inr a, s).
Proof. by intros ->. Qed.

Lemma run_may_panic {A} (o : outcome A) a (s : call_state Mem) :
  o = Done a → may_panic o s = Done (inr a, s).
Proof. by intros ->. Qed.

Lemma run_uint max z (s : call_state Mem) :
  0 ≤ z ≤ max → may_panic (uint_checked max z) s = Done (inr z, s).
Proof. intros Hz. apply run_may_panic. by rewrite uint_checked_Done. Qed.

Lemma run_u32 v l w (m : Mem) :
  0 ≤ v ≤ u32_max →
  next_u32 {| cs_params := I32 v :: l; cs_wasi := w; cs_mem := m |}
  = Done (inr v, {| cs_params := l; cs_wasi := w; cs_mem := m |}).
Proof.
  intros Hv. unfold next_u32. erewrite run_bind by done. apply run_try. by rewrite uint_try_from_Some.
Qed.

Lemma run_read m a bs (l : list WasmValue) w :
  reads m a bs →
  mem_read ma a (a + Z.of_nat (length bs)) {| cs_params := l; cs_wasi := w; cs_mem := m |}
  = Done (inr bs, {| cs_params := l; cs_wasi := w; cs_mem := m |}).
Proof. unfold reads, mem_read. simpl. by intros ->. Qed.

Lemma run_write m m' a bs (l : list WasmValue) w :
  ma_write_memory ma a bs m = Done (Some tt, m') →
  mem_write ma a bs {| cs_params := l; cs_wasi := w; cs_mem := m |}
  = Done (inr tt, {| cs_params := l; cs_wasi := w; cs_mem := m' |}).
Proof. unfold mem_write. simpl. by intros ->. Qed.

(** One step of a call that goes on. *)
Local Tactic Notation "run" tactic3(t) := erewrite run_bind by t; cbn beta iota delta [cs_params cs_wasi cs_mem].

(** The descriptor in the first parameter. *)
Lemma run_get_fd n f l w (m : Mem) :
  Z.of_nat n ≤ u32_max → file_descriptors w !! n = Some (Some f) →
  get_fd {| cs_params := I32 (Z.of_nat n) :: l; cs_wasi := w; cs_mem := m |}
  = Done (inr (n, f), {| cs_params := l; cs_wasi := w; cs_mem := m |}).
Proof.
  intros Hn Hf. unfold get_fd, next_usize. erewrite run_bind.
  2:{ run (done). apply run_try. rewrite uint_try_from_Some. split; [done|].
      unfold u32_max, usize_max, u64_max in *. lia. }
  run (done). simpl. by rewrite Nat2Z.id, Hf.
Qed.

(** ** The table of file descriptors *)

(** The open descriptors of [w'] are those of [w], but for [n]. *)
Definition other_fds (n : nat) (w w' : WasiExtrinsics) : Prop :=
  ∀ n' f, n' ≠ n → file_descriptors w' !! n' = Some (Some f) ↔ file_descriptors w !! n' = Some (Some f).

Definition is_open (w : WasiExtrinsics) (n : nat) : Prop :=
  ∃ f, file_descriptors w !! n = Some (Some f).

Lemma free_fd_first l :
  (∀ n, (n < free_fd l)%nat → ∃ f, l !! n = Some (Some f)) ∧ ¬ ∃ f, l !! free_fd l = Some (Some f).
Proof.
  unfold free_fd. destruct (list_find _ l) as [[n x]|] eqn:Hfind.
  - apply list_find_Some in Hfind as (Hn & -> & Hfirst). split; [|rewrite Hn; naive_solver].
    intros n' Hlt. destruct (lookup_lt_is_Some_2 l n') as [[f|] Hf]; [|by eauto|].
    + apply lookup_lt_Some in Hn. lia.
    + by destruct (Hfirst _ _ Hf Hlt).
  - apply list_find_None in Hfind. split.
    + intros n' [[f|] Hf]%lookup_lt_is_Some_2; [by eauto|]. rewrite Forall_lookup in Hfind.
      by destruct (Hfind _ _ Hf).
    + intros [f Hf]. apply lookup_lt_Some in Hf. lia.
Qed.

Lemma open_fd_lookup inode l n f :
  open_fd inode l !! n = Some (Some f) ↔
  if decide (n = free_fd l) then f = Fd_FilesystemEntry inode 0 else l !! n = Some (Some f).
Proof.
  unfold open_fd, free_fd. destruct (list_find _ l) as [[k x]|] eqn:Hfind.
  - apply list_find_Some in Hfind as (Hn & -> & _). apply lookup_lt_Some in Hn.
    case_decide; subst.
    + rewrite list_lookup_insert_eq by done. naive_solver.
    + by rewrite list_lookup_insert_ne.
  - case_decide; subst.
    + rewrite list_lookup_middle by done. naive_solver.
    + rewrite lookup_app_Some, list_lookup_singleton_Some. split; [|by left].
      intros [?|(? & ? & _)]; [done|lia].
Qed.

Lemma close_lookup l n n' f :
  let l' := <[n := None]> l in
  pop_closed (length l') l' !! n' = Some (Some f) ↔ n' ≠ n ∧ l !! n' = Some (Some f).
Proof.
  intros l'. rewrite pop_closed_lookup. unfold l'. rewrite list_lookup_insert_Some.
  split; [intros [(_ & [= ] & _)|[? ?]]|intros [? ?]; right]; done.
Qed.

(** [fd_close] on an open descriptor closes that one and no other, the
    memory is untouched, and the table is cut after its last open descriptor;
    on any other descriptor it returns [ERRNO_BADF] and changes nothing. *)
Theorem fd_close_ok n w m :
  Z.of_nat n ≤ u32_max →
  ∃ w', (is_open w n → is_open w' n → False) ∧ other_fds n w w' ∧
    (is_open w n → last (file_descriptors w') ≠ Some None) ∧ (¬ is_open w n → w' = w) ∧
    wasi_new_context ma FdClose [I32 (Z.of_nat n)] (w, m)
    = Done ((Finished, Action_Resume (Some (I32
        match file_descriptors w !! n with Some (Some _) => 0 | _ => ERRNO_BADF end))), (w', m)).
Proof.
  intros Hn. unfold wasi_new_context. cbn [dispatch]. unfold fd_close, next_usize.
  erewrite run_bind.
  2:{ run (done). apply run_try. rewrite uint_try_from_Some. split; [done|].
      unfold u32_max, usize_max, u64_max in *. lia. }
  run (done). run (done). simpl. rewrite Nat2Z.id.
  destruct (file_descriptors w !! n) as [[f|]|] eqn:Hf.
  - simpl. eexists. split_and!; [..|done].
    + intros _ [f' Hf']. simpl in Hf'. by apply close_lookup in Hf' as [? _].
    + intros n' f' Hne. simpl. rewrite close_lookup. naive_solver.
    + intros _. simpl. by apply pop_closed_spec.
    + intros Hc. destruct Hc. by exists f.
  - exists w. split_and!; try done; intros [? ?]; congruence.
  - exists w. split_and!; try done; intros [? ?]; congruence.
Qed.

(** ** Opening *)

(** C19: [path_open], from a directory and with a path that leads to an inode,
    takes the smallest descriptor that is not open, which designates the inode
    with the cursor at its start; the other descriptors are as they were, and
    the new descriptor is written where the program asked for it. *)
Theorem path_open_ok n dir pos flags ptr path oflags base inh fdflags out target w m m' :
  Z.of_nat n ≤ u32_max → file_descriptors w !! n = Some (Some (Fd_FilesystemEntry dir pos)) →
  0 ≤ flags ≤ u32_max → 0 ≤ ptr → ptr + Z.of_nat (length path) ≤ u32_max →
  reads m ptr path → utf8_valid path = true → resolve_path dir path = Done (Some target) →
  0 ≤ oflags ≤ u32_max → 0 ≤ base ≤ u64_max → 0 ≤ inh ≤ u64_max → 0 ≤ fdflags ≤ u32_max →
  0 ≤ out ≤ u32_max → Z.of_nat (length (file_descriptors w)) ≤ u32_max →
  let new_fd := free_fd (file_descriptors w) in
  ma_write_memory ma out (u32_to_le_bytes (Z.of_nat new_fd)) m = Done (Some tt, m') →
  ∃ w', ¬ is_open w new_fd ∧ (∀ k, (k < new_fd)%nat → is_open w k) ∧
    file_descriptors w' !! new_fd = Some (Some (Fd_FilesystemEntry target 0)) ∧
    other_fds new_fd w w' ∧
    wasi_new_context ma PathOpen [I32 (Z.of_nat n); I32 flags; I32 ptr; I32 (Z.of_nat (length path));
      I32 oflags; I64 base; I64 inh; I32 fdflags; I32 out] (w, m)
    = Done ((Finished, Action_Resume (Some (I32 0))), (w', m')).
Proof.
  intros Hn Hf Hflags Hptr Hend Hread Hutf Hres Ho Hb Hi Hfl Hout Hlen new_fd Hw.
  assert (Hnew : Z.of_nat new_fd ≤ Z.of_nat (length (file_descriptors w))).
  { unfold new_fd, free_fd. destruct (list_find _ _) as [[k x]|] eqn:Hk; [|lia].
    apply list_find_Some in Hk as (Hk & _). apply lookup_lt_Some in Hk. lia. }
  exists (with_fds (open_fd target (file_descriptors w)) w).
  destruct (free_fd_first (file_descriptors w)) as [Hfirst Hfree]. split_and!; [done|done|..].
  - simpl. rewrite open_fd_lookup. by rewrite decide_True.
  - intros n' f Hne. simpl. rewrite open_fd_lookup. by rewrite decide_False.
  - unfold wasi_new_context. cbn [dispatch]. unfold path_open, get_resolved.
    erewrite run_bind.
    2:{ run (by apply run_get_fd). run (done).
        run (by apply run_u32). erewrite run_bind.
        2:{ unfold get_path. run (apply run_u32; lia).
            run (apply run_u32; lia). run (apply run_uint; lia).
            run (by apply run_read). by rewrite Hutf. }
        run (by apply run_may_panic). done. }
    run (by apply run_u32). run (done).
    run (apply run_try; by rewrite uint_try_from_Some). run (done).
    run (apply run_try; by rewrite uint_try_from_Some).
    run (by apply run_u32). run (done). run (done).
    erewrite run_bind. 2:{ apply run_may_panic, unwrap_Done, uint_try_from_Some. split; [done|unfold new_fd in Hnew; lia]. }
    run (by apply run_u32). run (done).
    by run (by apply run_write).
Qed.

(** ** Lists of buffers *)

(** The list of pointers and sizes that a program gives. *)
Definition flat (bufs : list (Z * Z)) : list Z := concat ((λ b, [b.1; b.2]) <$> bufs).
Definition encode_bufs (bufs : list (Z * Z)) : bytes := concat (u32_to_le_bytes <$> flat bufs).
Definition bufs_ok (bufs : list (Z * Z)) : Prop := Forall (λ b, is_u32 b.1 ∧ is_u32 b.2) bufs.

Lemma length_encode_bufs bufs : length (encode_bufs bufs) = (8 * length bufs)%nat.
Proof.
  unfold encode_bufs. rewrite (length_concat_const 4) by (apply Forall_fmap, Forall_true; intros; apply length_u32_le).
  unfold flat. rewrite length_fmap, (length_concat_const 2) by (apply Forall_fmap, Forall_true; done).
  rewrite length_fmap. lia.
Qed.

Lemma chunks_flat bufs : chunks 2 (flat bufs) = (λ b, [b.1; b.2]) <$> bufs.
Proof. apply chunks_concat; [lia|]. by apply Forall_fmap, Forall_true. Qed.

Lemma flat_u32 bufs : bufs_ok bufs → Forall is_u32 (flat bufs).
Proof.
  induction 1 as [|b bufs [? ?] _ IH]; [constructor|].
  change (flat (b :: bufs)) with (b.1 :: b.2 :: flat bufs). by rewrite !Forall_cons.
Qed.

Lemma decode_flat l :
  Forall is_u32 l → map_outcome (uint_from_le_bytes 4) (u32_to_le_bytes <$> l) = Done l.
Proof.
  induction 1 as [|z l Hz _ IH]; [done|]. rewrite fmap_cons. cbn [map_outcome].
  rewrite u32_from_le_bytes by done. simpl. by rewrite IH.
Qed.

Lemma run_get_buffers addr bufs l w m :
  0 ≤ addr → addr + Z.of_nat (8 * length bufs) ≤ u32_max → bufs_ok bufs →
  reads m addr (encode_bufs bufs) →
  get_buffers ma {| cs_params := I32 addr :: I32 (Z.of_nat (length bufs)) :: l; cs_wasi := w; cs_mem := m |}
  = Done (inr (flat bufs), {| cs_params := l; cs_wasi := w; cs_mem := m |}).
Proof.
  intros Ha Hend Hbufs Hread. unfold get_buffers. run (apply run_u32; lia). run (apply run_u32; lia).
  run (apply run_uint; lia). run (apply run_uint; lia). run (apply run_uint; lia).
  replace (addr + 4 * Z.of_nat (length bufs) * 2) with (addr + Z.of_nat (length (encode_bufs bufs)))
    by (rewrite length_encode_bufs; lia).
  run (by apply run_read).
  run (apply run_try, uint_try_from_Some; split; [done|unfold u32_max, usize_max, u64_max in *; lia]).
  apply run_may_panic. unfold encode_bufs.
  rewrite (chunks_concat 4) by (lia || apply Forall_fmap, Forall_true; intros; apply length_u32_le).
  by apply decode_flat, flat_u32.
Qed.

(** ** Reading a file *)

(** What goes to each buffer: they are filled in order with consecutive parts
    of the data, up to the first one that gets nothing. *)
Fixpoint scatter (bufs : list (Z * Z)) (data : bytes) : list (Z * bytes) :=
  match bufs with
  | [] => []
  | (p, n) :: bufs =>
      if bool_decide (n = 0 ∨ data = []) then []
      else (p, take (Z.to_nat n) data) :: scatter bufs (drop (Z.to_nat n) data)
  end.

Definition scattered (bufs : list (Z * Z)) (data : bytes) : nat := length (concat (scatter bufs data).*2).

Lemma scatter_prefix bufs data : concat (scatter bufs data).*2 = take (scattered bufs data) data.
Proof.
  unfold scattered. revert data. induction bufs as [|[p n] bufs IH]; intros data; [done|]. simpl.
  case_bool_decide; [done|]. rewrite fmap_cons. cbn [concat snd]. rewrite length_app.
  trans (take (length (take (Z.to_nat n) data) +
    length (concat (scatter bufs (drop (Z.to_nat n) data)).*2))
    (take (Z.to_nat n) data ++ drop (Z.to_nat n) data)); [|by rewrite take_drop].
  rewrite take_app_add. by rewrite <-IH.
Qed.

(** No buffer is skipped: with non-empty buffers, as much is read as there is
    room and data for. *)
Lemma scatter_total bufs data :
  Forall (λ b, 0 < b.2) bufs →
  Z.of_nat (scattered bufs data) = Z.min (foldr Z.add 0 bufs.*2) (Z.of_nat (length data)).
Proof.
  intros Hb. revert data. induction Hb as [|[p n] bufs Hn _ IH]; intros data.
  { simpl. unfold scattered. simpl. lia. }
  assert (0 ≤ foldr Z.add 0 bufs.*2).
  { specialize (IH []). clear -IH. simpl in IH. lia. }
  unfold scattered, fmap in *. simpl in *. case_bool_decide as Hc; simpl.
  - destruct Hc as [| ->]; simpl; lia.
  - rewrite length_app, length_take, Nat2Z.inj_add, IH, length_drop. unfold fmap. lia.
Qed.

Lemma with_fds_id w n f :
  file_descriptors w !! n = Some f → with_fds (<[n := f]> (file_descriptors w)) w = w.
Proof. intros Hf. rewrite list_insert_id by done. by destruct w. Qed.

Lemma run_read_file fd inode content bufs pos total l w m m' :
  file_descriptors w !! fd = Some (Some (Fd_FilesystemEntry inode pos)) →
  0 ≤ pos ≤ Z.of_nat (length content) → Z.of_nat (length content) ≤ usize_max →
  bufs_ok bufs → 0 ≤ total ≤ pos →
  let data := drop (Z.to_nat pos) content in
  writes (scatter bufs data) m m' →
  read_file ma fd inode content pos ((λ b, [b.1; b.2]) <$> bufs) total
    {| cs_params := l; cs_wasi := w; cs_mem := m |}
  = Done (inr (total + Z.of_nat (scattered bufs data)), {| cs_params := l; cs_mem := m';
      cs_wasi := with_fds (<[fd := Some (Fd_FilesystemEntry inode
        (pos + Z.of_nat (scattered bufs data)))]> (file_descriptors w)) w |}).
Proof.
  intros Hf Hpos Hlen Hb Htot data Hw. subst data. revert pos total w m Hf Hpos Htot Hw.
  unfold scattered. induction Hb as [|[p n] bufs [Hp Hn] _ IH]; intros pos total w m Hf Hpos Htot Hw.
  { simpl in *. inversion Hw; subst. rewrite !Z.add_0_r. by rewrite with_fds_id. }
  rewrite fmap_cons. cbn [read_file]. unfold is_u32 in *. simpl in Hp, Hn.
  assert (Hdl : Z.of_nat (length (drop (Z.to_nat pos) content)) = Z.of_nat (length content) - pos)
    by (rewrite length_drop; lia).
  run (by apply run_may_panic). run (by apply run_may_panic).
  run (apply run_try, uint_try_from_Some; split; [done|unfold usize_max, u64_max; simpl; lia]).
  run (apply run_may_panic, unwrap_Done, uint_try_from_Some; split; [done|lia]).
  run (apply run_may_panic; rewrite bool_decide_true by lia; done). run (apply run_uint; lia).
  cbn [scatter fst snd] in Hw |- *. case_bool_decide as Hz.
  { rewrite bool_decide_true by (destruct Hz as [->|Hz]; [|rewrite Hz in Hdl; simpl in Hdl]; lia).
    inversion Hw; subst. simpl. rewrite !Z.add_0_r. by rewrite with_fds_id. }
  assert (Hk : Z.min (Z.of_nat (length content) - pos) n ≠ 0).
  { destruct (decide (n = 0)); [tauto|]. destruct (drop (Z.to_nat pos) content); [tauto|].
    simpl in Hdl. lia. }
  rewrite bool_decide_false by done.
  set (k := Z.min (Z.of_nat (length content) - pos) n) in *.
  assert (Hkb : 0 < k ∧ k ≤ Z.of_nat (length content) - pos ∧
    (k = n ∨ k < n ∧ k = Z.of_nat (length content) - pos)) by (unfold k in *; lia).
  assert (Htake : take (Z.to_nat n) (drop (Z.to_nat pos) content)
    = take (Z.to_nat k) (drop (Z.to_nat pos) content)).
  { destruct (decide (k = n)) as [->|]; [done|]. rewrite !take_ge by (rewrite length_drop; lia). done. }
  assert (Hdrop : drop (Z.to_nat n) (drop (Z.to_nat pos) content) = drop (Z.to_nat (pos + k)) content).
  { rewrite drop_drop. destruct (decide (k = n)) as [->|].
    - f_equal. lia.
    - rewrite !drop_ge by lia. done. }
  rewrite Htake, Hdrop in Hw |- *. inversion Hw as [|? ? ? ? m1 ? Hwr Hrest]; subst.
  run (apply run_may_panic, slice_total; lia).
  replace (Z.to_nat (pos + k) - Z.to_nat pos)%nat with (Z.to_nat k) by lia.
  run (by apply run_write).
  run (apply run_try, uint_try_from_Some; split; [done|unfold usize_max in *; lia]).
  run (apply run_try, uint_try_from_Some; split; [done|unfold usize_max in *; lia]).
  run (done). run (done). run (apply run_may_panic;
    rewrite bool_decide_true by (unfold uint_try_from; case_bool_decide; simpl; unfold usize_max in *; lia); done).
  run (apply run_uint; lia).
  rewrite (IH (pos + k) (total + k)); [|simpl|lia|lia|exact Hrest].
  2:{ apply list_lookup_insert_eq. by eapply lookup_lt_Some. }
  rewrite fmap_cons. cbn [concat snd]. rewrite length_app, length_take, length_drop, Nat2Z.inj_add.
  replace (Z.of_nat (Z.to_nat k `min` (length content - Z.to_nat pos))) with k by lia.
  simpl. by rewrite list_insert_insert_eq, !Z.add_assoc.
Qed.

(** C20: [fd_read] fills the buffers of the program, in order, with the part of
    the file that starts at the cursor; the number of bytes read is written
    last, and the cursor moves by that much and stays within the file.  With
    buffers that are not empty it reads as much as there is room and data for
    (an empty buffer ends the reading). *)
Theorem fd_read_ok n a content pos addr bufs out w m m' :
  wasi_ok w → Z.of_nat n ≤ u32_max →
  file_descriptors w !! n = Some (Some (Fd_FilesystemEntry (File a content) pos)) →
  Z.of_nat (length content) ≤ u32_max →
  0 ≤ addr → addr + Z.of_nat (8 * length bufs) ≤ u32_max → bufs_ok bufs → 0 ≤ out ≤ u32_max →
  reads m addr (encode_bufs bufs) →
  let data := drop (Z.to_nat pos) content in
  let total := scattered bufs data in
  writes (scatter bufs data ++ [(out, u32_to_le_bytes (Z.of_nat total))]) m m' →
  wasi_new_context ma FdRead [I32 (Z.of_nat n); I32 addr; I32 (Z.of_nat (length bufs)); I32 out] (w, m)
  = Done ((Finished, Action_Resume (Some (I32 0))),
      (with_fds (<[n := Some (Fd_FilesystemEntry (File a content) (pos + Z.of_nat total))]>
        (file_descriptors w)) w, m')) ∧
  concat (scatter bufs data).*2 = take total data ∧
  (Forall (λ b, 0 < b.2) bufs →
    Z.of_nat total = Z.min (foldr Z.add 0 bufs.*2) (Z.of_nat (length content) - pos)).
Proof.
  intros Hok Hn Hf Hlen Ha Hend Hb Hout Hread data total Hw.
  pose proof (proj1 Hok _ _ Hf) as Hpos. simpl in Hpos.
  assert (Hdl : Z.of_nat (length data) = Z.of_nat (length content) - pos)
    by (unfold data; rewrite length_drop; lia).
  assert (Htot : (total ≤ length data)%nat).
  { unfold total, scattered. rewrite scatter_prefix, length_take. lia. }
  apply writes_app in Hw as (m1 & Hw & Hlast). inversion Hlast as [|? ? ? ? m2 ? Hwr Hnil]; subst.
  inversion Hnil; subst. split_and!.
  - unfold wasi_new_context. cbn [dispatch]. unfold fd_read. run (by apply run_get_fd).
    run (by apply run_get_buffers). rewrite chunks_flat. erewrite run_bind.
    2:{ run (apply run_read_file; unfold u32_max, usize_max, u64_max in *; (done || lia)).
        apply run_try, uint_try_from_Some. split; [done|]. fold data total. lia. }
    rewrite Z.add_0_l. fold data total. run (by apply run_u32). run (done).
    by run (by apply run_write).
  - apply scatter_prefix.
  - intros Hpos'. unfold total. rewrite scatter_total by done. lia.
Qed.

(** ** Seeking *)

(** The positions that the three ways of seeking lead to. *)
Definition seek_target (pos max_offset offset whence : Z) : Z :=
  let clamp z := Z.max 0 (Z.min z max_offset) in
  if decide (whence = WHENCE_SET) then clamp offset
  else if decide (whence = WHENCE_CUR) then
    (if decide (0 ≤ offset) then clamp (pos + offset) else max_offset)
  else clamp (max_offset + offset).

Lemma seek_position_ok `{!WasiCrateLaws} pos max offset whence s :
  whence ∈ [WHENCE_SET; WHENCE_CUR; WHENCE_END] → 0 ≤ pos ≤ max → max < 2 ^ 63 →
  - 2 ^ 63 ≤ offset → max + offset < 2 ^ 63 →
  seek_position (Mem := Mem) pos max offset whence s
  = Done (inr (seek_target pos max offset whence), s).
Proof.
  intros Hin Hpos Hmax Hlo Hhi. unfold seek_position, seek_target.
  destruct (decide (whence = WHENCE_SET)).
  { rewrite bool_decide_true by done. run (apply run_try, uint_try_from_Some; split; [done|unfold u64_max; lia]).
    unfold mret, call_ret. do 3 f_equal. lia. }
  rewrite bool_decide_false by done. destruct (decide (whence = WHENCE_CUR)).
  { rewrite bool_decide_true by done. unfold u64_saturating_add, i64_as_u64, mret, call_ret, u64_max.
    do 3 f_equal. case_decide.
    - rewrite Z.mod_small by lia. lia.
    - rewrite <-(Z_mod_plus_full offset 1), Z.mod_small by lia. lia. }
  rewrite bool_decide_false by done. rewrite bool_decide_true by set_solver.
  unfold u64_as_i64, i64_add. rewrite (bool_decide_true (max < 2 ^ 63)) by done.
  rewrite bool_decide_true by lia. run (done).
  run (apply run_try, uint_try_from_Some; split; [done|unfold u64_max; lia]).
  unfold mret, call_ret. do 3 f_equal. lia.
Qed.

(** C21: [fd_seek] moves the cursor of a file to the requested position,
    brought back within the file, and writes the new position; seeking
    backwards from the current position, though, always leads to the end of
    the file, as the negative offset is taken for a large positive one. *)
Theorem fd_seek_ok `{!WasiCrateLaws} n a content pos offset whence out w m m' :
  wasi_ok w → Z.of_nat n ≤ u32_max →
  file_descriptors w !! n = Some (Some (Fd_FilesystemEntry (File a content) pos)) →
  let max := Z.of_nat (length content) in
  max < 2 ^ 63 → - 2 ^ 63 ≤ offset → max + offset < 2 ^ 63 →
  whence ∈ [WHENCE_SET; WHENCE_CUR; WHENCE_END] → 0 ≤ whence ≤ u8_max → 0 ≤ out ≤ u32_max →
  let new := seek_target pos max offset whence in
  ma_write_memory ma out (u64_to_le_bytes new) m = Done (Some tt, m') →
  0 ≤ new ≤ max ∧
  (whence = WHENCE_CUR → offset < 0 → new = max) ∧
  wasi_new_context ma FdSeek [I32 (Z.of_nat n); I64 offset; I32 whence; I32 out] (w, m)
  = Done ((Finished, Action_Resume (Some (I32 0))),
      (with_fds (<[n := Some (Fd_FilesystemEntry (File a content) new)]> (file_descriptors w)) w, m')).
Proof.
  intros Hok Hn Hf max Hmax Hlo Hhi Hin Hwh Hout new Hwr.
  pose proof (proj1 Hok _ _ Hf) as Hpos. simpl in Hpos. fold max in Hpos. split_and!.
  1,2: unfold new, seek_target; repeat case_decide; lia.
  - intros -> Hneg. unfold new, seek_target. pose proof whence_distinct as Hd.
    rewrite !NoDup_cons in Hd. rewrite decide_False by set_solver. by rewrite decide_True, decide_False by lia.
  - unfold wasi_new_context. cbn [dispatch]. unfold fd_seek. run (by apply run_get_fd). run (done).
    run (done). run (by apply run_try, uint_try_from_Some). erewrite run_bind.
    2:{ run (apply run_try, uint_try_from_Some; split; [done|unfold u64_max; lia]).
        run (by apply seek_position_ok). run (done). by run (done). }
    run (by apply run_u32). run (done). by run (by apply run_write).
Qed.

(** ** Logging *)

(** Each buffer is in memory. *)
Definition hold (m : Mem) (datas : list (Z * bytes)) : Prop :=
  Forall (λ d, 0 ≤ d.1 ∧ d.1 + Z.of_nat (length d.2) ≤ u32_max ∧ reads m d.1 d.2) datas.

Definition sizes (datas : list (Z * bytes)) : list (Z * Z) := (λ d, (d.1, Z.of_nat (length d.2))) <$> datas.

Lemma run_gather datas msg total l w m :
  hold m datas → 0 ≤ total → total + Z.of_nat (length (concat datas.*2)) ≤ u32_max →
  gather ma ((λ b, [b.1; b.2]) <$> sizes datas) msg total
    {| cs_params := l; cs_wasi := w; cs_mem := m |}
  = Done (inr (msg ++ concat datas.*2, total + Z.of_nat (length (concat datas.*2))),
      {| cs_params := l; cs_wasi := w; cs_mem := m |}).
Proof.
  intros Hh. revert msg total. induction Hh as [|[p d] datas (Hp & Hend & Hr) _ IH]; intros msg total Ht Htot.
  { simpl. by rewrite app_nil_r, Z.add_0_r. }
  simpl in Hp, Hend, Hr. rewrite fmap_cons in Htot |- *. unfold sizes. rewrite !fmap_cons.
  cbn [gather concat fst snd] in Htot |- *. rewrite length_app in Htot |- *.
  run (by apply run_may_panic). run (by apply run_may_panic). run (apply run_uint; lia).
  run (by apply run_read).
  run (apply run_try, uint_try_from_Some; split; [done|unfold u32_max, usize_max, u64_max in *; lia]).
  run (apply run_try, uint_try_from_Some; split; [done|unfold u32_max, usize_max, u64_max in *; lia]).
  rewrite IH by lia. by rewrite app_assoc, Nat2Z.inj_add, Z.add_assoc.
Qed.

(** [fd_write] to one of the standard outputs sends to the log the level
    of that output and the bytes of the buffers of the program, in order, as
    one message, which the handler of the log reads back (if it is text); the
    number of bytes is written, and the program goes on once the message is
    accepted. *)
Theorem fd_write_ok n level datas addr out w m m' :
  Z.of_nat n ≤ u32_max → file_descriptors w !! n = Some (Some (Fd_LogOut level)) →
  0 ≤ addr → addr + Z.of_nat (8 * length datas) ≤ u32_max → 0 ≤ out ≤ u32_max →
  reads m addr (encode_bufs (sizes datas)) → hold m datas →
  let msg := concat datas.*2 in
  Z.of_nat (length msg) ≤ u32_max →
  ma_write_memory ma out (u32_to_le_bytes (Z.of_nat (length msg))) m = Done (Some tt, m') →
  let ctxt := Ctx_Resume (Some (I32 0)) in
  wasi_new_context ma FdWrite [I32 (Z.of_nat n); I32 addr; I32 (Z.of_nat (length datas)); I32 out] (w, m)
  = Done ((ctxt, Action_EmitMessage Log.INTERFACE (Log.log level msg) false), (w, m')) ∧
  Log.decode (Log.log level msg) = Done (if utf8_valid msg
    then inr {| Log.dl_level := level; Log.buffer := Log.log level msg |} else inl tt) ∧
  wasi_inject_message_response ma ctxt None (w, m')
  = Done ((Finished, Action_Resume (Some (I32 0))), (w, m')).
Proof.
  intros Hn Hf Ha Hend Hout Hread Hh msg Hlen Hwr ctxt. split_and!; [|apply Log.decode_log|done].
  unfold wasi_new_context. cbn [dispatch]. unfold fd_write. run (by apply run_get_fd).
  assert (Hsz : length datas = length (sizes datas)) by (unfold sizes; by rewrite length_fmap).
  assert (Hb : bufs_ok (sizes datas)).
  { unfold bufs_ok, sizes. apply Forall_fmap. eapply Forall_impl; [exact Hh|].
    intros [p d] (? & ? & _). simpl in *. unfold is_u32, u32_max in *. lia. }
  rewrite Hsz in Hend |- *. run (by apply run_get_buffers).
  rewrite chunks_flat. run (apply run_gather; [done|lia|by rewrite Z.add_0_l]). rewrite Z.add_0_l.
  run (apply run_uint; unfold u32_max, usize_max, u64_max in *; fold msg; lia).
  run (apply run_may_panic; rewrite bool_decide_true by (rewrite length_app; simpl; lia); done).
  run (by apply run_u32). run (apply run_try, uint_try_from_Some; split; [done|fold msg; lia]).
  run (by apply run_write). by run (done).
Qed.

(** ** Random bytes *)

(** The answers are injected one after the other. *)
Fixpoint serve (answers : list EncodedMessage) (r : ContextInner * ExtrinsicsAction) :
    M (WasiExtrinsics * Mem) (ContextInner * ExtrinsicsAction) :=
  match answers with
  | [] => mret r
  | a :: answers => r ← wasi_inject_message_response ma r.1 (Some a); serve answers r
  end.

(** The request for the bytes that remain. *)
Definition request (remaining : Z) : ExtrinsicsAction :=
  Action_EmitMessage Random.INTERFACE
    (encode_random (Random.Generate (Z.min remaining u16_max))) true.

Fixpoint consecutive (out : Z) (rs : list bytes) : list (Z * bytes) :=
  match rs with
  | [] => []
  | r :: rs => (out, r) :: consecutive (out + Z.of_nat (length r)) rs
  end.

(** An answer with the bytes [r], of which there is at least one. *)
Definition answers_with (a : EncodedMessage) (r : bytes) : Prop :=
  decode_generate_response a = Some {| Random.result := r |} ∧ r ≠ [].

Lemma len_to_request_min len : 0 ≤ len → len_to_request len = Z.min len u16_max.
Proof.
  intros Hlen. unfold len_to_request, uint_try_from. case_bool_decide; simpl; lia.
Qed.

Lemma inject_random a r out rem w m m1 :
  answers_with a r → Z.of_nat (length r) ≤ rem → 0 ≤ out → out + rem ≤ u32_max →
  ma_write_memory ma out r m = Done (Some tt, m1) →
  let n := Z.of_nat (length r) in
  wasi_inject_message_response ma (WaitRandom out rem) (Some a) (w, m)
  = Done (if decide (n = rem) then (Finished, Action_Resume (Some (I32 0)))
          else (WaitRandom (out + n) (rem - n), request (rem - n)), (w, m1)).
Proof.
  intros [Hdec Hne] Hlen Hout Hend Hw n. unfold wasi_inject_message_response.
  assert (Hn : 0 < n ≤ u32_max).
  { unfold n. destruct r; [done|]. simpl length in *. lia. }
  unfold mbind, M_bind, liftM. simpl. rewrite Hdec. simpl. fold n.
  rewrite (proj2 (uint_try_from_Some u32_max n n)) by lia. simpl.
  rewrite bool_decide_true by lia. simpl. rewrite Hw. simpl. rewrite bool_decide_true by lia. simpl.
  unfold u32_add, u32_sub. rewrite (proj2 (uint_checked_Done _ _ (out + n))) by lia. simpl.
  rewrite (proj2 (uint_checked_Done _ _ (rem - n))) by lia. simpl. case_decide.
  - by rewrite bool_decide_true by lia.
  - rewrite bool_decide_false by lia. rewrite len_to_request_min by lia.
    by rewrite bool_decide_true by lia.
Qed.

Lemma serve_random answers rs out rem w m m' :
  Forall2 answers_with answers rs → 0 < rem → 0 ≤ out → out + rem ≤ u32_max →
  let n := Z.of_nat (length (concat rs)) in
  n ≤ rem → writes (consecutive out rs) m m' →
  serve answers (WaitRandom out rem, request rem) (w, m)
  = Done (if decide (n = rem) then (Finished, Action_Resume (Some (I32 0)))
          else (WaitRandom (out + n) (rem - n), request (rem - n)), (w, m')).
Proof.
  intros Hall. revert out rem m. induction Hall as [|a r answers rs Ha Hall IH];
    intros out rem m Hrem Hout Hend n Hn Hw; subst n.
  { simpl in *. inversion Hw; subst. rewrite decide_False by lia. by rewrite Z.add_0_r, Z.sub_0_r. }
  cbn [concat consecutive serve fst] in *. rewrite length_app in *.
  inversion Hw as [|? ? ? ? m1 ? Hwr Hrest]; subst. unfold mbind, M_bind.
  rewrite (inject_random a r out rem w m m1) by (done || lia). case_decide as Hlast.
  - assert (answers = [] ∧ rs = []) as [-> ->].
    { destruct Hall as [|a' r' ? ? [_ Hne] _]; [done|]. destruct r'; [done|]. simpl in Hn. lia. }
    simpl in *. inversion Hrest; subst. by rewrite decide_True by lia.
  - rewrite (IH _ _ m1) by (done || lia). rewrite Nat2Z.inj_add, Z.add_assoc, Z.sub_add_distr.
    case_decide; case_decide; done || lia.
Qed.

(** [random_get] asks for the bytes in requests of at most 65535, writes
    what each answer brings after what was written before, and returns once
    the buffer is full, provided that every answer brings at least one byte
    and no more than what is missing.  Asked for no byte at all, it still
    sends a request, and the kernel stops on the empty answer. *)
Theorem random_get_ok buf len answers rs w m m' :
  0 ≤ buf → 0 ≤ len → buf + len ≤ u32_max →
  Forall2 answers_with answers rs → Z.of_nat (length (concat rs)) ≤ len →
  writes (consecutive buf rs) m m' →
  let n := Z.of_nat (length (concat rs)) in
  wasi_new_context ma RandomGet [I32 buf; I32 len] (w, m)
  = Done ((WaitRandom buf len, request len), (w, m)) ∧
  (0 < len → serve answers (WaitRandom buf len, request len) (w, m)
    = Done (if decide (n = len) then (Finished, Action_Resume (Some (I32 0)))
            else (WaitRandom (buf + n) (len - n), request (len - n)), (w, m'))) ∧
  (len = 0 → ∀ a m1, decode_generate_response a = Some {| Random.result := [] |} →
    ma_write_memory ma buf [] m = Done (Some tt, m1) →
    serve [a] (WaitRandom buf len, request len) (w, m) = Panic PAssert).
Proof.
  intros Hbuf Hlen Hend Hall Hn Hw n. split_and!.
  - unfold wasi_new_context. cbn [dispatch]. unfold random_get. run (apply run_u32; lia).
    run (apply run_u32; lia). run (done).
    run (apply run_may_panic; rewrite bool_decide_true by (apply len_to_request_le; lia); done).
    simpl. unfold request. by rewrite len_to_request_min.
  - intros Hpos. by apply serve_random.
  - intros -> a m1 Hdec Hwr. cbn [serve fst]. unfold wasi_inject_message_response, mbind, M_bind, liftM.
    simpl. rewrite Hdec. simpl. by rewrite Hwr.
Qed.

End spec.
