(* ===== verification/LogCalls.v ===== *)
(** Logging of the calls of a program ([core/src/extrinsics/log_calls.rs]).

    [LogExtrinsics] wraps around another implementation of [Extrinsics] and,
    each time a call has finished, sends to the log the name of the function,
    its parameters and what it returned.  It is itself an implementation: the
    instance [LogImpl], which satisfies the laws if what it wraps does. *)
From stdpp Require Import pretty.
From S2P Require Import Prelude WasmValue Ffi ExtrinsicsApi Messages.

(** * Formatting *)

Definition str (s : string) : bytes := String.list_byte_of_string s.

(** [format!("{:?}", value)] of a [WasmValue] and of an [Option<WasmValue>]. *)
Definition debug_value (v : WasmValue) : bytes :=
  match v with
  | I32 v => str "I32(" ++ str (pretty v) ++ str ")"
  | I64 v => str "I64(" ++ str (pretty v) ++ str ")"
  | F32 bits => str "F32(" ++ str (pretty bits) ++ str ")"
  | F64 bits => str "F64(" ++ str (pretty bits) ++ str ")"
  end.

Definition debug_option_value (v : option WasmValue) : bytes :=
  match v with
  | Some v => str "Some(" ++ debug_value v ++ str ")"
  | None => str "None"
  end.

Section log_calls.
Context (TInner : Extrinsics).

Record LogExtrinsics := {
  log_inner : @Ext TInner;
  log_level : Log.Level;
}.

Definition LogExtrinsics_new (inner : @Ext TInner) : LogExtrinsics :=
  {| log_inner := inner; log_level := Log.Trace |}.

Record LogExtrinsicId := {
  f_name : string;
  id_inner : @ExtrinsicId TInner;
}.

Record LogContext := {
  ctxt_inner : @Context TInner;
  message_start : bytes;
  waiting_for_log_message : option ExtrinsicsAction;
}.

(** [LogIterator::next], on one item. *)
Definition log_next (item : SupportedExtrinsic (@ExtrinsicId TInner)) :
    SupportedExtrinsic LogExtrinsicId := {|
  se_id := {| f_name := wasm_interface item +:+ "::" +:+ function_name item;
              id_inner := se_id item |};
  wasm_interface := wasm_interface item;
  function_name := function_name item;
  se_signature := se_signature item;
|}.

Definition log_supported_extrinsics : list (SupportedExtrinsic LogExtrinsicId) :=
  log_next <$> @supported_extrinsics TInner.

(** The loop over [params.iter().enumerate()]. *)
Fixpoint format_params (n : nat) (params : list WasmValue) : bytes :=
  match params with
  | [] => []
  | param :: params =>
      (if bool_decide (n ≠ 0%nat) then str ", " else []) ++ debug_value param
      ++ format_params (S n) params
  end.

(** The value of [message_start] in [new_context]. *)
Definition log_message_start (level : Log.Level) (id : LogExtrinsicId) (params : list WasmValue) :
    bytes :=
  [Log.u8_from_level level] ++ str (f_name id) ++ str "(" ++ format_params 0 params ++ str ") -> ".

(** [ret_value_str] for an action that ends the call. *)
Definition ret_value_str (action : ExtrinsicsAction) : bytes :=
  match action with
  | Action_Resume val => debug_option_value val
  | _ => str "<crash>"
  end.

(** What [new_context] and [inject_message_response] do with the action of the
    inner implementation. *)
Definition log_action (ctxt : LogContext) (action : ExtrinsicsAction) :
    outcome (LogContext * ExtrinsicsAction) :=
  match action with
  | Action_EmitMessage _ _ _ => Done (ctxt, action)
  | Action_Resume _ | Action_ProgramCrash =>
      let ctxt' := {| ctxt_inner := ctxt_inner ctxt; message_start := [];
                      waiting_for_log_message := Some action |} in
      let message := message_start ctxt ++ ret_value_str action in
      _ ← debug_assert (bool_decide (is_Some (waiting_for_log_message ctxt')));
      Done (ctxt', Action_EmitMessage Log.INTERFACE message false)
  end.

Definition with_log_inner (inner : @Ext TInner) (s : LogExtrinsics) : LogExtrinsics :=
  {| log_inner := inner; log_level := log_level s |}.

Section mem.
Context {Mem : Type} (mem_access : ExtrinsicsMemoryAccess Mem).

(** [self.inner] and the memory. *)
Definition on_log_inner {A} (m : M (@Ext TInner * Mem) A) : M (LogExtrinsics * Mem) A :=
  zoom (λ s, (log_inner s.1, s.2)) (λ s' s, (with_log_inner s'.1 s.1, s'.2)) m.

Definition log_new_context (thread_id : ThreadId) (id : LogExtrinsicId) (params : list WasmValue) :
    M (LogExtrinsics * Mem) (LogContext * ExtrinsicsAction) :=
  level ← gets (λ s, log_level s.1);
  r ← on_log_inner (new_context mem_access thread_id (id_inner id) params);
  liftM (log_action {| ctxt_inner := r.1; message_start := log_message_start level id params;
                       waiting_for_log_message := None |} r.2).

Definition log_inject_message_response (ctxt : LogContext) (response : option EncodedMessage) :
    M (LogExtrinsics * Mem) (LogContext * ExtrinsicsAction) :=
  match waiting_for_log_message ctxt with
  | Some action =>
      _ ← liftM (debug_assert (bool_decide (response = None)));
      _ ← liftM (debug_assert (bool_decide (message_start ctxt = [])));
      mret ({| ctxt_inner := ctxt_inner ctxt; message_start := message_start ctxt;
               waiting_for_log_message := None |}, action)
  | None =>
      r ← on_log_inner (inject_message_response mem_access (ctxt_inner ctxt) response);
      liftM (log_action {| ctxt_inner := r.1; message_start := message_start ctxt;
                           waiting_for_log_message := None |} r.2)
  end.

End mem.

Definition LogImpl : Extrinsics := {|
  Ext := LogExtrinsics;
  ExtrinsicId := LogExtrinsicId;
  Context := LogContext;
  ext_default := LogExtrinsics_new ext_default;
  supported_extrinsics := log_supported_extrinsics;
  new_context := @log_new_context;
  inject_message_response := @log_inject_message_response;
|}.

End log_calls.

(** * The wrapper satisfies the laws *)

Section laws.
Context (TInner : Extrinsics) `{!ExtrinsicsLaws (H := TInner)}.

(** Either the inner call goes on, or it has ended and the wrapper waits for
    the log message to be accepted. *)
Definition log_waits (ctxt : LogContext TInner) (e : option ValueType) (b : bool) : Prop :=
  match waiting_for_log_message _ ctxt with
  | None => context_waits (ctxt_inner _ ctxt) e b
  | Some a => b = false ∧ message_start _ ctxt = [] ∧
      match a with
      | Action_ProgramCrash => True
      | Action_Resume v => ty <$> v = e
      | Action_EmitMessage _ _ _ => False
      end
  end.

Lemma log_action_sound ctxt start action e :
  action_ok context_waits e ctxt action →
  ∃ ctxt' action', log_action TInner {| ctxt_inner := ctxt; message_start := start;
      waiting_for_log_message := None |} action = Done (ctxt', action') ∧
    action_ok (H := LogImpl TInner) log_waits e ctxt' action'.
Proof.
  intros Ha. destruct action as [|v|i m b]; simpl; eexists _, _; (split; [done|]); simpl.
  - split; [apply Log.log_hash|done].
  - split; [apply Log.log_hash|done].
  - by destruct Ha.
Qed.

Local Ltac log_act Ha :=
  match goal with |- context [log_action _ {| message_start := ?start |} _] =>
    destruct (log_action_sound _ start _ _ Ha) as (? & ? & -> & ?); done
  end.

Lemma on_log_inner_sound {Mem A} (P : panic_reason → Prop) (m : M (@Ext TInner * Mem) A) s
    (Q : A * (@Ext TInner * Mem) → Prop) :
  wp P (m (log_inner _ s.1, s.2)) Q →
  wp P (on_log_inner TInner m s) (λ '(a, s'), Q (a, (log_inner _ s'.1, s'.2))).
Proof. intros Hm. apply wp_zoom. eapply wp_mono; [done|]. by intros [a []]. Qed.

#[global] Program Instance LogImpl_laws : ExtrinsicsLaws (H := LogImpl TInner) := {|
  ext_inv := λ s, ext_inv (log_inner _ s);
  context_waits := log_waits;
  ext_panics := ext_panics;
|}.
Next Obligation. apply ext_default_inv. Qed.
Next Obligation.
  cbn [supported_extrinsics LogImpl]. unfold log_supported_extrinsics. rewrite <-list_fmap_compose.
  apply supported_names.
Qed.
Next Obligation.
  intros e (item & -> & Hitem)%list_elem_of_fmap. by apply (supported_modules (H := TInner)).
Qed.
Next Obligation.
  intros Mem ma I tid e params ext m (item & -> & Hitem)%list_elem_of_fmap Hty Hma HI Hext.
  cbn [new_context LogImpl log_next se_id se_signature] in *. unfold log_new_context.
  apply wp_Mbind. simpl. apply wp_Mbind.
  eapply wp_mono; [apply on_log_inner_sound; by eapply new_context_law|].
  intros [[ctxt action] [ext' m']] (HI' & Hext' & Ha). apply wp_liftM. cbn [fst snd] in *.
  log_act Ha.
Qed.
Next Obligation.
  intros Mem ma I ctxt e resp ext m Hma HI Hext Hw.
  cbn [inject_message_response LogImpl] in *. unfold log_inject_message_response.
  unfold log_waits in Hw. destruct (waiting_for_log_message _ ctxt) as [a|].
  - destruct Hw as (Hresp & Hstart & Ha). apply wp_Mbind, wp_liftM.
    rewrite (bool_decide_true (resp = None)).
    2:{ by destruct resp. }
    simpl. apply wp_Mbind, wp_liftM. rewrite (bool_decide_true _) by done. simpl.
    split_and!; [done..|]. by destruct a.
  - apply wp_Mbind. eapply wp_mono; [apply on_log_inner_sound; by eapply inject_law|].
    intros [[ctxt' action] [ext' m']] (HI' & Hext' & Ha). apply wp_liftM. cbn [fst snd] in *.
    log_act Ha.
Qed.

End laws.

(** * What the wrapper changes *)

(** A call driven to its end: each message that it emits is accepted or
    answered with the next of [responses].  Gives the messages that were
    emitted and what the call ended with, or is still waiting for. *)
Fixpoint drive {E : Extrinsics} {Mem} (ma : ExtrinsicsMemoryAccess Mem)
    (responses : list (option EncodedMessage)) (r : @Context E * ExtrinsicsAction) :
    M (@Ext E * Mem) (list ExtrinsicsAction * (@Context E * ExtrinsicsAction)) :=
  match r.2, responses with
  | Action_EmitMessage _ _ _, response :: responses =>
      r' ← inject_message_response ma r.1 response;
      d ← drive ma responses r';
      mret (r.2 :: d.1, d.2)
  | _, _ => mret ([], r)
  end.

Definition ends (a : ExtrinsicsAction) : Prop :=
  match a with Action_EmitMessage _ _ _ => False | _ => True end.

Section transparent.
Context {TInner : Extrinsics} {Mem : Type} (ma : ExtrinsicsMemoryAccess Mem).
Implicit Types (ext : @Ext TInner) (m : Mem) (level : Log.Level) (start : bytes).

(** The state of the wrapper around [ext]. *)
Local Abbreviation wrap ext level := ({| log_inner := ext; log_level := level |} : @Ext (LogImpl TInner)).

(** The wrapper goes on with an inner call that is at [r]. *)
Lemma drive_log responses r level start ext m emitted ctxt final ext' m' :
  drive ma responses r (ext, m) = Done ((emitted, (ctxt, final)), (ext', m')) → ends final →
  length emitted = length responses →
  ∃ r', log_action TInner {| ctxt_inner := r.1; message_start := start;
      waiting_for_log_message := None |} r.2 = Done r' ∧
    ∃ ctxt', drive (E := LogImpl TInner) ma (responses ++ [None]) r' (wrap ext level, m)
    = Done ((emitted ++ [Action_EmitMessage Log.INTERFACE (start ++ ret_value_str final) false],
             (ctxt', final)), (wrap ext' level, m')).
Proof.
  intros Hd He. revert r ext m emitted Hd.
  induction responses as [|resp responses IH]; intros [c a] ext m emitted Hd Hlen; cbn [fst snd].
  - destruct a as [|v|i msg b]; cbn [drive snd] in Hd; inv_done; [..|done];
      (eexists; split; [done|]); by eexists.
  - destruct a as [|v|i msg b]; cbn [drive snd] in Hd; inv_done; [done..|].
    rename select (inject_message_response _ _ _ _ = _) into Hi.
    rename select (drive _ _ _ _ = _) into Hr.
    rename x into r1, x0 into s1, x1 into d1. destruct s1 as [ext1 m1], d1 as [emitted fin]. simplify_eq/=.
    destruct (IH _ _ _ _ Hr Hlen) as (r' & Hlog & ctxt' & Hr').
    eexists. split; [done|]. exists ctxt'. cbn [snd fst].
    unfold log_inject_message_response, mbind, M_bind, on_log_inner, zoom.
    cbn [waiting_for_log_message fst snd log_inner ctxt_inner message_start].
    rewrite Hi. cbn [fst snd]. rewrite Hlog. unfold liftM, with_log_inner. cbn [log_level]. by rewrite Hr'.
Qed.

(** Logging is transparent.  A call that the inner implementation carries
    to its end, whatever messages it emits on the way and whatever it is
    answered, does the same under the wrapper: the same messages in the same
    order, the same effects on the memory and on the inner state, and the same
    end.  In between, exactly one more message is emitted, for the log, which
    a handler of the log decodes to the name, the parameters and the result of
    the call. *)
Theorem log_transparent item tid params responses level ext m r s1 emitted ctxt final ext' m' :
  new_context ma tid (se_id item) params (ext, m) = Done (r, s1) →
  drive ma responses r s1 = Done ((emitted, (ctxt, final)), (ext', m')) → ends final →
  length emitted = length responses →
  let text := str (wasm_interface item +:+ "::" +:+ function_name item) ++ str "(" ++
    format_params 0 params ++ str ") -> " ++ ret_value_str final in
  (∃ ctxt', (r' ← new_context (Extrinsics := LogImpl TInner) ma tid (se_id (log_next TInner item)) params;
     drive ma (responses ++ [None]) r') (wrap ext level, m)
   = Done ((emitted ++ [Action_EmitMessage Log.INTERFACE (Log.log level text) false],
            (ctxt', final)), (wrap ext' level, m'))) ∧
  (utf8_valid text = true →
    Log.decode (Log.log level text)
    = Done (inr {| Log.dl_level := level; Log.buffer := Log.log level text |})).
Proof.
  intros Hnew Hd He Hlen text. split.
  2:{ intros Hu. by rewrite Log.decode_log, Hu. }
  destruct s1 as [ext1 m1].
  destruct (drive_log _ _ level (log_message_start TInner level (se_id (log_next TInner item)) params)
    _ _ _ _ _ _ _ Hd He Hlen) as (r' & Hlog & ctxt' & Hr').
  exists ctxt'. cbn [new_context LogImpl].
  unfold log_new_context, mbind, M_bind, on_log_inner, zoom, gets.
  cbn [fst snd log_inner log_level log_next se_id id_inner] in *. rewrite Hnew. cbn [fst snd]. rewrite Hlog.
  unfold liftM, with_log_inner. cbn [log_level].
  refine (eq_trans Hr' _). unfold log_message_start, text, Log.log. cbn [f_name]. by rewrite <-!app_assoc.
Qed.

End transparent.
