(* ===== verification/Native.v ===== *)
(** Programs that are part of the kernel ([core/src/native/traits.rs],
    [core/src/native/collection.rs]).

    [NativeProgramRef] is a class.  The programs of a collection may have
    different types, which [Box<dyn AdapterAbstract>] erases: [Prog] is their
    sum.  The methods take [&T] and change what is behind it, so they are
    computations on a [Prog].

    A future is polled once and dropped by the code ([poll_next_event] asks the
    program for a new one each time): [next_event_poll] is the creation and
    the first poll.  A [Spinlock] is its content: no method of a program can
    reach the collection while one is held. *)
From S2P Require Import Prelude Ffi Messages.

Inductive Poll (A : Type) := Ready (a : A) | Pending.
Arguments Ready {A} a.
Arguments Pending {A}.

Inductive NativeProgramEvent (TMsgIdWrite : Type) :=
  | NpEmit (interface : InterfaceHash) (message_id_write : option TMsgIdWrite)
      (message : EncodedMessage)
  | NpCancelMessage (message_id : MessageId)
  | NpAnswer (message_id : MessageId) (answer : unit + EncodedMessage).
Arguments NpEmit {TMsgIdWrite}.
Arguments NpCancelMessage {TMsgIdWrite}.
Arguments NpAnswer {TMsgIdWrite}.

(** [trait NativeProgramRef] and [trait NativeProgramMessageIdWrite]. *)
Class NativeProgramRef := {
  Prog : Type;
  MessageIdWrite : Type;
  next_event_poll : M Prog (Poll (NativeProgramEvent MessageIdWrite));
  np_interface_message : InterfaceHash → option MessageId → Pid → EncodedMessage → M Prog unit;
  np_process_destroyed : Pid → M Prog unit;
  np_message_response : MessageId → unit + EncodedMessage → M Prog unit;
  np_acknowledge : MessageIdWrite → MessageId → M Prog unit;
}.

Section native.
Context `{NativeProgramRef} `{Scale}.

(** [registered_interfaces] and [expected_responses] are sets. *)
Record Adapter := {
  ad_inner : Prog;
  ad_registered_interfaces : gset InterfaceHash;
  expected_responses : gset MessageId;
}.

(** [struct NativeProgramsCollection]. *)
Definition NativeProgramsCollection : Type := list (Pid * Adapter).
Local Abbreviation collection := (list (Pid * Adapter)).

(** [MessageIdWriteAdapter]: the program whose [expected_responses] it
    borrows, by its index, and the object of the program itself. *)
Record MessageIdWriteAdapter := {
  mw_process : nat;
  mw_inner : option MessageIdWrite;
}.

Inductive NativeProgramsCollectionEvent :=
  | NcEmit (interface : InterfaceHash) (emitter_pid : Pid) (message : EncodedMessage)
      (message_id_write : option MessageIdWriteAdapter)
  | NcCancelMessage (message_id : MessageId)
  | NcAnswer (message_id : MessageId) (answer : unit + EncodedMessage).

Definition with_inner (x : Prog) (a : Adapter) : Adapter :=
  {| ad_inner := x; ad_registered_interfaces := ad_registered_interfaces a;
     expected_responses := expected_responses a |}.
Definition with_registered (s : gset InterfaceHash) (a : Adapter) : Adapter :=
  {| ad_inner := ad_inner a; ad_registered_interfaces := s;
     expected_responses := expected_responses a |}.
Definition with_expected (s : gset MessageId) (a : Adapter) : Adapter :=
  {| ad_inner := ad_inner a; ad_registered_interfaces := ad_registered_interfaces a;
     expected_responses := s |}.

Definition on_program {A} (m : M Prog A) : M Adapter A := zoom ad_inner with_inner m.

(** [self.processes[i].1]. *)
Definition on_adapter {A} (i : nat) (m : M Adapter A) : M collection A :=
  col ← get;
  '(pid, a) ← liftM (index col i);
  r ← liftM (m a);
  _ ← put (<[i := (pid, r.2)]> col);
  mret r.1.

(** * [impl AdapterAbstract for Adapter] *)

(** [i] is the index of the adapter in the collection. *)
Definition poll_next_event (i : nat) : M Adapter (Poll (NativeProgramEvent MessageIdWriteAdapter)) :=
  ev ← on_program next_event_poll;
  match ev with
  | Ready (NpEmit interface message_id_write message) =>
      _ ← (if bool_decide (interface = Interface.INTERFACE) then
             match decode_interface_message message with
             | Some (Interface.Register to_reg) =>
                 modify (λ a, with_registered ({[ to_reg ]} ∪ ad_registered_interfaces a) a)
             | None => mret tt
             end
           else mret tt);
      mret (Ready (NpEmit interface
        ((λ inner, {| mw_process := i; mw_inner := Some inner |}) <$> message_id_write) message))
  | Ready (NpCancelMessage message_id) => mret (Ready (NpCancelMessage message_id))
  | Ready (NpAnswer message_id answer) => mret (Ready (NpAnswer message_id answer))
  | Pending => mret Pending
  end.

Definition deliver_interface_message (interface : InterfaceHash) (message_id : option MessageId)
    (emitter_pid : Pid) (message : EncodedMessage) : M Adapter (EncodedMessage + unit) :=
  a ← get;
  if bool_decide (interface ∈ ad_registered_interfaces a) then
    _ ← on_program (np_interface_message interface message_id emitter_pid message);
    mret (inr tt)
  else mret (inl message).

Definition deliver_response (message_id : MessageId) (response : unit + EncodedMessage) :
    M Adapter ((unit + EncodedMessage) + unit) :=
  a ← get;
  if bool_decide (message_id ∈ expected_responses a) then
    _ ← put (with_expected (expected_responses a ∖ {[ message_id ]}) a);
    _ ← on_program (np_message_response message_id response);
    mret (inr tt)
  else mret (inl response).

Definition ad_process_destroyed (pid : Pid) : M Adapter unit :=
  on_program (np_process_destroyed pid).

(** * [impl NativeProgramsCollection] *)

Definition NativeProgramsCollection_new : NativeProgramsCollection := [].

Definition push (pid : Pid) (program : Prog) : M collection unit :=
  let adapter := {| ad_inner := program; ad_registered_interfaces := ∅;
                    expected_responses := ∅ |} in
  processes ← get;
  _ ← liftM (assert_ (negb (existsb (λ p, bool_decide (p.1 = pid)) processes)));
  put (processes ++ [(pid, adapter)]).

(** The loop of [next_event]: from the [i]-th program on, [pids] being the
    identifiers of those that remain. *)
Fixpoint poll_programs (pids : list Pid) (i : nat) :
    M collection (Poll NativeProgramsCollectionEvent) :=
  match pids with
  | [] => mret Pending
  | pid :: pids =>
      ev ← on_adapter i (poll_next_event i);
      match ev with
      | Pending => poll_programs pids (S i)
      | Ready (NpEmit interface message_id_write message) =>
          mret (Ready (NcEmit interface pid message message_id_write))
      | Ready (NpCancelMessage message_id) => mret (Ready (NcCancelMessage message_id))
      | Ready (NpAnswer message_id answer) => mret (Ready (NcAnswer message_id answer))
      end
  end.

(** The future that [next_event] returns, polled once. *)
Definition next_event : M collection (Poll NativeProgramsCollectionEvent) :=
  processes ← get;
  poll_programs processes.*1 0.

(** The loop of [interface_message] and of [message_response], over the
    indices [l]: each program is offered the payload, and gives it back if it
    is not the one. *)
Fixpoint offer {X} (deliver : X → M Adapter (X + unit)) (l : list nat) (x : X) :
    M collection unit :=
  match l with
  | [] => panic PExplicit
  | i :: l =>
      r ← on_adapter i (deliver x);
      match r with
      | inr _ => mret tt
      | inl x => offer deliver l x
      end
  end.

Definition interface_message (interface : InterfaceHash) (message_id : option MessageId)
    (emitter_pid : Pid) (message : EncodedMessage) : M collection unit :=
  processes ← get;
  offer (deliver_interface_message interface message_id emitter_pid)
    (seq 0 (length processes)) message.

Definition process_destroyed (pid : Pid) : M collection unit :=
  processes ← get;
  for_each (λ i, on_adapter i (ad_process_destroyed pid)) (seq 0 (length processes)).

Definition message_response (message_id : MessageId) (response : unit + EncodedMessage) :
    M collection unit :=
  processes ← get;
  offer (deliver_response message_id) (seq 0 (length processes)) response.

(** [MessageIdWriteAdapter::acknowledge], through the box that
    [NativeProgramsCollectionMessageIdWrite] holds: the object is consumed. *)
Definition acknowledge (w : MessageIdWriteAdapter) (id : MessageId) :
    M collection unit :=
  on_adapter (mw_process w)
    (_ ← match mw_inner w with
         | Some inner => on_program (np_acknowledge inner id)
         | None => panic PUnreachable
         end;
     a ← get;
     _ ← put (with_expected ({[ id ]} ∪ expected_responses a) a);
     liftM (debug_assert (bool_decide (id ∉ expected_responses a)))).

(** * Routing *)

Implicit Types (col : collection) (a : Adapter).

(** The first program that satisfies [P]. *)
Definition first_such (P : Adapter → bool) col : option nat :=
  fst <$> list_find (λ p, P p.2) col.

Lemma on_adapter_run {A} i (m : M Adapter A) col pid a :
  col !! i = Some (pid, a) →
  on_adapter i m col = match m a with
    | Done (r, a') => Done (r, <[i := (pid, a')]> col)
    | Panic p => Panic p
    | NoFuel => NoFuel
    end.
Proof.
  intros Hi. assert (Hx : index col i = Done (pid, a)) by (by apply index_Done).
  unfold on_adapter, mbind, M_bind, get, liftM. rewrite Hx. by destruct (m a) as [[]| |].
Qed.

Lemma offer_from {X} (deliver : X → M Adapter (X + unit)) (act : X → M Adapter unit) P i n x col :
  (∀ a, P a = false → deliver x a = Done (inl x, a)) →
  (∀ a, P a = true → deliver x a = (_ ← act x; mret (inr tt)) a) →
  (i + n = length col)%nat →
  offer deliver (seq i n) x col =
  match first_such P (drop i col) with
  | Some k => on_adapter (i + k) (act x) col
  | None => Panic PExplicit
  end.
Proof.
  intros Hno Hyes. revert i. induction n as [|n IH]; intros i Hn; cbn [seq offer].
  { rewrite drop_ge by lia. done. }
  destruct (lookup_lt_is_Some_2 col i) as [[pid a] Hi]; [lia|].
  unfold mbind, M_bind. rewrite (on_adapter_run _ _ _ _ _ Hi).
  rewrite (drop_S _ _ _ Hi). unfold first_such. simpl. destruct (P a) eqn:HP; simpl.
  - rewrite Hyes by done. rewrite Nat.add_0_r, (on_adapter_run _ _ _ _ _ Hi).
    unfold mbind, M_bind. by destruct (act x a) as [[[] a']| |].
  - rewrite Hno by done. simpl. rewrite list_insert_id by done. rewrite IH by lia. unfold first_such.
    destruct (list_find _ (drop (S i) col)) as [[k p]|]; simpl; [|done]. by rewrite Nat.add_succ_r.
Qed.

Definition wants_message (interface : InterfaceHash) a : bool :=
  bool_decide (interface ∈ ad_registered_interfaces a).
Definition wants_response (message_id : MessageId) a : bool :=
  bool_decide (message_id ∈ expected_responses a).

Lemma interface_message_sound interface message_id pid message col :
  interface_message interface message_id pid message col =
  match first_such (wants_message interface) col with
  | Some k => on_adapter k (on_program (np_interface_message interface message_id pid message)) col
  | None => Panic PExplicit
  end.
Proof.
  unfold interface_message, mbind at 1, M_bind at 1, get at 1.
  apply (offer_from _ (λ m, on_program (np_interface_message interface message_id pid m))); [..|done];
    intros a HP; unfold deliver_interface_message, mbind at 1, M_bind at 1, get; unfold wants_message in HP;
    by rewrite HP.
Qed.

Lemma message_response_sound message_id response col :
  message_response message_id response col =
  match first_such (wants_response message_id) col with
  | Some k => on_adapter k
      (_ ← modify (λ a, with_expected (expected_responses a ∖ {[ message_id ]}) a);
       on_program (np_message_response message_id response)) col
  | None => Panic PExplicit
  end.
Proof.
  unfold message_response, mbind at 1, M_bind at 1, get at 1.
  apply (offer_from _ (λ r, _ ← modify (λ a, with_expected (expected_responses a ∖ {[ message_id ]}) a);
       on_program (np_message_response message_id r))); [..|done];
    intros a HP; unfold deliver_response, mbind at 1, M_bind at 1, get; unfold wants_response in HP;
    by rewrite HP.
Qed.

(** C11: a message for a native program reaches exactly one program, the first
    that has asked to handle its interface, with the contents it was sent
    with; a response reaches exactly the first program that expects it, which
    no longer expects it; no other program is touched.  If there is none, the
    kernel stops. *)
Theorem native_routing_ok interface message_id pid message id response col :
  interface_message interface message_id pid message col =
  match first_such (wants_message interface) col with
  | Some k => on_adapter k (on_program (np_interface_message interface message_id pid message)) col
  | None => Panic PExplicit
  end ∧
  message_response id response col =
  match first_such (wants_response id) col with
  | Some k => on_adapter k
      (_ ← modify (λ a, with_expected (expected_responses a ∖ {[ id ]}) a);
       on_program (np_message_response id response)) col
  | None => Panic PExplicit
  end.
Proof. split; [apply interface_message_sound|apply message_response_sound]. Qed.

End native.

(** What the kernel expects of a native program: an invariant [np_inv], the
    ways in which its methods may stop the kernel, and interface hashes of 32
    bytes. *)
Class NativeProgramLaws `{NativeProgramRef} := {
  np_inv : Prog → Prop;
  np_panics : panic_reason → Prop;
  next_event_law : ∀ x, np_inv x → wp np_panics (next_event_poll x) (λ '(ev, x'), np_inv x' ∧
    match ev with Ready (NpEmit interface _ _) => is_hash interface | _ => True end);
  interface_message_law : ∀ i mid pid m x, np_inv x →
    wp np_panics (np_interface_message i mid pid m x) (λ '(_, x'), np_inv x');
  process_destroyed_law : ∀ pid x, np_inv x →
    wp np_panics (np_process_destroyed pid x) (λ '(_, x'), np_inv x');
  message_response_law : ∀ mid r x, np_inv x →
    wp np_panics (np_message_response mid r x) (λ '(_, x'), np_inv x');
  acknowledge_law : ∀ w mid x, np_inv x → wp np_panics (np_acknowledge w mid x) (λ '(_, x'), np_inv x');
}.

Section native_laws.
Context `{NativeProgramRef} `{Scale} `{!NativeProgramLaws}.
Local Abbreviation collection := (list (Pid * Adapter)).
Implicit Types (col : collection) (a : Adapter) (x : Prog).

(** The programs satisfy their invariants. *)
Definition col_inv col : Prop := Forall (λ p, np_inv (ad_inner p.2)) col.

(** What is done of an event of the [i]-th program. *)
Definition wrap_event (i : nat) (pid : Pid) (ev : NativeProgramEvent MessageIdWrite) :
    NativeProgramsCollectionEvent :=
  match ev with
  | NpEmit interface w message => NcEmit interface pid message
      ((λ inner, {| mw_process := i; mw_inner := Some inner |}) <$> w)
  | NpCancelMessage message_id => NcCancelMessage message_id
  | NpAnswer message_id answer => NcAnswer message_id answer
  end.

Definition note_registration (ev : NativeProgramEvent MessageIdWrite) a : Adapter :=
  match ev with
  | NpEmit interface _ message =>
      match decode_interface_message message with
      | Some (Interface.Register h) => if bool_decide (interface = Interface.INTERFACE)
          then with_registered ({[ h ]} ∪ ad_registered_interfaces a) a else a
      | None => a
      end
  | _ => a
  end.

(** The [j]-th program was polled, and had nothing to say. *)
Definition polled_pending col col' (j : nat) : Prop :=
  ∀ pid a, col !! j = Some (pid, a) →
    ∃ x, next_event_poll (ad_inner a) = Done (Pending, x) ∧ col' !! j = Some (pid, with_inner x a).

(** The programs from the [i]-th on are polled in order until one is ready. *)
Definition polled_from (i : nat) col (r : Poll NativeProgramsCollectionEvent) col' : Prop :=
  col'.*1 = col.*1 ∧ (∀ j, (j < i)%nat → col' !! j = col !! j) ∧
  match r with
  | Pending => ∀ j, (i ≤ j)%nat → polled_pending col col' j
  | Ready ev => ∃ k pid a e x, (i ≤ k)%nat ∧ (∀ j, (i ≤ j < k)%nat → polled_pending col col' j) ∧
      col !! k = Some (pid, a) ∧ next_event_poll (ad_inner a) = Done (Ready e, x) ∧
      col' !! k = Some (pid, note_registration e (with_inner x a)) ∧ ev = wrap_event k pid e ∧
      match ev with NcEmit interface _ _ _ => is_hash interface | _ => True end ∧
      ∀ j, (k < j)%nat → col' !! j = col !! j
  end.

(** What [poll_next_event] gives, from the poll of the program. *)
Lemma poll_next_event_run i a r x :
  next_event_poll (ad_inner a) = Done (r, x) →
  poll_next_event i a = Done match r with
    | Pending => (Pending, with_inner x a)
    | Ready (NpEmit interface w message) =>
        (Ready (NpEmit interface ((λ inner, {| mw_process := i; mw_inner := Some inner |}) <$> w) message),
         note_registration (NpEmit interface w message) (with_inner x a))
    | Ready (NpCancelMessage message_id) => (Ready (NpCancelMessage message_id), with_inner x a)
    | Ready (NpAnswer message_id answer) => (Ready (NpAnswer message_id answer), with_inner x a)
    end.
Proof.
  intros Hp. unfold poll_next_event, on_program, zoom, mbind, M_bind. rewrite Hp.
  destruct r as [[interface w message|?|?]|]; [|done..]. unfold note_registration.
  case_bool_decide; [|by destruct (decode_interface_message message) as [[]|]].
  by destruct (decode_interface_message message) as [[]|].
Qed.

Lemma col_inv_insert col i pid a :
  col_inv col → np_inv (ad_inner a) → col_inv (<[i := (pid, a)]> col).
Proof. intros Hc Ha. by apply Forall_insert. Qed.

Lemma note_inner e a : ad_inner (note_registration e a) = ad_inner a.
Proof.
  destruct e; simpl; [|done..]. destruct (decode_interface_message _) as [[]|]; [|done]. by case_bool_decide.
Qed.

Lemma pids_insert col i pid a a' :
  col !! i = Some (pid, a) → (<[i := (pid, a')]> col).*1 = col.*1.
Proof. intros Hi. rewrite list_fmap_insert. simpl. apply list_insert_id. by rewrite list_lookup_fmap, Hi. Qed.

Lemma polled_ready i col pid a e x :
  col !! i = Some (pid, a) → next_event_poll (ad_inner a) = Done (Ready e, x) →
  match e with NpEmit interface _ _ => is_hash interface | _ => True end →
  polled_from i col (Ready (wrap_event i pid e))
    (<[i := (pid, note_registration e (with_inner x a))]> col).
Proof.
  intros Hi Hp Hh. split_and!.
  - by eapply pids_insert.
  - intros j Hj. by rewrite list_lookup_insert_ne by lia.
  - exists i, pid, a, e, x. split_and!; try done; [lia|..].
    + apply list_lookup_insert_eq. by eapply lookup_lt_Some.
    + by destruct e.
    + intros j Hj. by rewrite list_lookup_insert_ne by lia.
Qed.

Lemma polled_skip i col pid a x r col' :
  col !! i = Some (pid, a) → next_event_poll (ad_inner a) = Done (Pending, x) →
  polled_from (S i) (<[i := (pid, with_inner x a)]> col) r col' → polled_from i col r col'.
Proof.
  intros Hi Hp (Hpids & Hbefore & Hr). split_and!.
  { by rewrite Hpids; eapply pids_insert. }
  { intros j Hj. rewrite Hbefore by lia. by rewrite list_lookup_insert_ne by lia. }
  assert (Hpi : polled_pending col col' i).
  { intros pid' a' Ha'. rewrite Hi in Ha'. injection Ha' as <- <-. exists x. split; [done|].
    rewrite Hbefore by lia. apply list_lookup_insert_eq. by eapply lookup_lt_Some. }
  assert (Hext : ∀ j, (i ≤ j)%nat →
    (j ≠ i → polled_pending (<[i:=(pid, with_inner x a)]> col) col' j) → polled_pending col col' j).
  { intros j Hj Hpj. destruct (decide (j = i)) as [->|Hne]; [done|]. intros pid' a' Ha'.
    apply Hpj; [done|]. by rewrite list_lookup_insert_ne by lia. }
  destruct r as [ev|].
  - destruct Hr as (k & pid' & a' & e & x' & Hk & Hpend & Ha' & He & Hk' & Hev & Hh & Hafter).
    rewrite list_lookup_insert_ne in Ha' by lia.
    exists k, pid', a', e, x'. split_and!; try done; [lia|..].
    + intros j Hj. apply Hext; [lia|]. intros. apply Hpend. lia.
    + intros j Hj. rewrite Hafter by lia. by rewrite list_lookup_insert_ne by lia.
  - intros j Hj. apply Hext; [lia|]. intros. apply Hr. lia.
Qed.

Lemma poll_from n i col :
  col_inv col → (i + n = length col)%nat →
  wp np_panics (poll_programs (drop i col).*1 i col) (λ '(r, col'), col_inv col' ∧ polled_from i col r col').
Proof.
  revert i col. induction n as [|n IH]; intros i col Hinv Hn.
  { rewrite drop_ge by lia. simpl. split; [done|]. split_and!; [done..|].
    intros j Hj pid a Hl. apply lookup_lt_Some in Hl. lia. }
  destruct (lookup_lt_is_Some_2 col i) as [[pid a] Hi]; [lia|]. rewrite (drop_S _ _ _ Hi).
  cbn [fmap list_fmap poll_programs fst]. unfold mbind, M_bind. rewrite (on_adapter_run _ _ _ _ _ Hi).
  pose proof (next_event_law (ad_inner a) (proj1 (Forall_lookup _ _) Hinv _ _ Hi)) as Hlaw.
  destruct (next_event_poll (ad_inner a)) as [[r x]|p|] eqn:Hp; [|..|by destruct Hlaw].
  2:{ unfold poll_next_event, on_program, zoom, mbind, M_bind. by rewrite Hp. }
  destruct Hlaw as [Hx Hhash]. rewrite (poll_next_event_run i _ _ _ Hp).
  destruct r as [e|].
  - assert (Hready := polled_ready _ _ _ _ _ _ Hi Hp Hhash).
    destruct e; (split; [apply col_inv_insert; [done|by rewrite ?note_inner]|exact Hready]).
  - simpl. replace (drop (S i) col) with (drop (S i) (<[i:=(pid, with_inner x a)]> col)).
    2:{ by rewrite drop_insert_lt by lia. }
    eapply wp_mono; [apply IH; [by apply col_inv_insert|rewrite length_insert; lia]|].
    intros [r col'] [? ?]. split; [done|]. by eapply polled_skip.
Qed.

Lemma next_event_sound col :
  col_inv col →
  wp np_panics (next_event col) (λ '(r, col'), col_inv col' ∧ polled_from 0 col r col').
Proof. intros Hinv. apply (poll_from (length col) 0 col Hinv). done. Qed.

(** The native programs are polled in the order in which they were added,
    until one has something to say: the event is that program's, under its
    own identifier, the interface that it registers is noted, and the programs
    after it are not polled.  The system waits only if every program was polled
    and none was ready. *)
Theorem native_next_event_ok col :
  col_inv col →
  wp np_panics (next_event col) (λ '(r, col'), col_inv col' ∧ polled_from 0 col r col').
Proof. apply next_event_sound. Qed.

(** ** The other operations *)

Lemma on_adapter_sound (P : panic_reason → Prop) {A} i (m : M Adapter A) col pid a :
  col !! i = Some (pid, a) → col_inv col →
  wp P (m a) (λ '(_, a'), np_inv (ad_inner a')) →
  wp P (on_adapter i m col) (λ '(_, col'), col_inv col' ∧ col'.*1 = col.*1).
Proof.
  intros Hi Hinv Hm. rewrite (on_adapter_run _ _ _ _ _ Hi). destruct (m a) as [[r a']| |]; [|done..].
  simpl in *. split; [by apply col_inv_insert|by eapply pids_insert].
Qed.

Lemma on_program_sound (P : panic_reason → Prop) {A} (m : M Prog A) a :
  wp P (m (ad_inner a)) (λ '(_, x'), np_inv x') →
  wp P (on_program m a) (λ '(_, a'), np_inv (ad_inner a')).
Proof. intros Hm. apply wp_zoom. eapply wp_mono; [done|]. by intros []. Qed.

Lemma first_such_Some (P : Adapter → bool) col k :
  first_such P col = Some k → ∃ pid a, col !! k = Some (pid, a) ∧ P a = true.
Proof.
  unfold first_such. intros ([j [pid a]] & Hf & ->)%fmap_Some. apply list_find_Some in Hf as (? & Ha & _).
  exists pid, a. split; [done|]. by apply Is_true_true in Ha.
Qed.

Lemma first_such_None (P : Adapter → bool) col :
  first_such P col = None ↔ ∀ pid a, (pid, a) ∈ col → P a = false.
Proof.
  unfold first_such. rewrite fmap_None, list_find_None, Forall_forall. split.
  - intros Hall pid a Hin. specialize (Hall _ Hin). simpl in Hall. by destruct (P a).
  - intros Hall [pid a] Hin Hp. simpl in Hp. by rewrite (Hall _ _ Hin) in Hp.
Qed.

Lemma message_response_inv id response col :
  col_inv col →
  wp (λ r, np_panics r ∨ r = PExplicit ∧ ∀ pid a, (pid, a) ∈ col → id ∉ expected_responses a)
    (message_response id response col) (λ '(_, col'), col_inv col' ∧ col'.*1 = col.*1).
Proof.
  intros Hinv. rewrite message_response_sound. destruct (first_such _ col) as [k|] eqn:Hk.
  - apply first_such_Some in Hk as (pid & a & Hk & _). eapply on_adapter_sound; [done..|].
    apply wp_Mbind. simpl. eapply wp_weaken; [apply on_program_sound|by left]. apply message_response_law.
    apply (proj1 (Forall_lookup _ _) Hinv _ _ Hk).
  - simpl. right. split; [done|]. intros pid a Hin. rewrite first_such_None in Hk.
    specialize (Hk _ _ Hin). unfold wants_response in Hk. by apply bool_decide_eq_false in Hk.
Qed.

Lemma interface_message_inv i mid pid m col :
  col_inv col →
  wp (λ r, np_panics r ∨ r = PExplicit ∧ ∀ pid a, (pid, a) ∈ col → i ∉ ad_registered_interfaces a)
    (interface_message i mid pid m col) (λ '(_, col'), col_inv col' ∧ col'.*1 = col.*1).
Proof.
  intros Hinv. rewrite interface_message_sound. destruct (first_such _ col) as [k|] eqn:Hk.
  - apply first_such_Some in Hk as (pid' & a & Hk & _). eapply on_adapter_sound; [done..|].
    eapply wp_weaken; [apply on_program_sound|by left]. apply interface_message_law.
    apply (proj1 (Forall_lookup _ _) Hinv _ _ Hk).
  - simpl. right. split; [done|]. intros pid' a Hin. rewrite first_such_None in Hk.
    specialize (Hk _ _ Hin). unfold wants_message in Hk. by apply bool_decide_eq_false in Hk.
Qed.

Lemma process_destroyed_inv pid col :
  col_inv col → wp np_panics (process_destroyed pid col) (λ '(_, col'), col_inv col' ∧ col'.*1 = col.*1).
Proof.
  intros Hinv. unfold process_destroyed. apply wp_Mbind. simpl.
  assert (Hl : ∀ i, i ∈ seq 0 (length col) → (i < length col)%nat)
    by (intros i [_ ?]%elem_of_seq; lia).
  revert Hl. generalize (seq 0 (length col)). intros l. revert col Hinv.
  induction l as [|i l IH]; intros col Hinv Hl; [done|]. cbn [for_each]. apply wp_Mbind.
  destruct (lookup_lt_is_Some_2 col i) as [[pid' a] Hi]; [apply Hl; by left|].
  eapply wp_mono; [eapply on_adapter_sound; [done..|]|].
  { apply on_program_sound, process_destroyed_law. apply (proj1 (Forall_lookup _ _) Hinv _ _ Hi). }
  intros [[] col'] [Hinv' Hpids]. eapply wp_mono; [apply IH; [done|]|].
  { intros j Hj. rewrite <-(length_fmap fst col'), Hpids, length_fmap. apply Hl. by right. }
  intros [[] col''] [? ?]. split; [done|congruence].
Qed.

Lemma acknowledge_inv w id col pid a inner :
  col_inv col → col !! mw_process w = Some (pid, a) → mw_inner w = Some inner →
  wp (λ r, np_panics r ∨ r = PDebugAssert) (acknowledge w id col)
    (λ '(_, col'), col_inv col' ∧ col'.*1 = col.*1).
Proof.
  intros Hinv Hi Hw. unfold acknowledge. eapply on_adapter_sound; [done..|]. rewrite Hw. apply wp_Mbind.
  eapply wp_mono; [eapply wp_weaken; [apply on_program_sound, acknowledge_law|by left]|].
  { apply (proj1 (Forall_lookup _ _) Hinv _ _ Hi). }
  intros [[] a'] Ha'. apply wp_Mbind. simpl. apply wp_Mbind. simpl. apply wp_liftM.
  case_bool_decide; [done|by right].
Qed.

(** The response to a message comes back to the program that emitted it.
    Once the identifier that the core gave is acknowledged, and as long as no
    program expected it before, a response under this identifier is handed to
    the program whose message it was, the others are not touched, and the
    collection expects what it expected before the message. *)
Theorem native_response_returns w inner id response col pid a x x' :
  col !! mw_process w = Some (pid, a) → mw_inner w = Some inner →
  (∀ pid a, (pid, a) ∈ col → id ∉ expected_responses a) →
  np_acknowledge inner id (ad_inner a) = Done (tt, x) →
  np_message_response id response x = Done (tt, x') →
  (_ ← acknowledge w id; message_response id response) col
  = Done (tt, <[mw_process w := (pid, with_inner x' a)]> col).
Proof.
  intros Hi Hw Hno Hack Hresp.
  assert (Ha : id ∉ expected_responses a) by (eapply Hno; by eapply list_elem_of_lookup_2).
  unfold mbind at 1, M_bind at 1, acknowledge. rewrite (on_adapter_run _ _ _ _ _ Hi), Hw.
  unfold on_program, zoom, mbind, M_bind, get, put, liftM. rewrite Hack. cbn [expected_responses with_inner].
  rewrite bool_decide_true by done. simpl. rewrite message_response_sound.
  set (a1 := with_expected _ _). set (col1 := <[_ := _]> col).
  assert (Hi1 : col1 !! mw_process w = Some (pid, a1))
    by (apply list_lookup_insert_eq; by eapply lookup_lt_Some).
  assert (Hfirst : first_such (wants_response id) col1 = Some (mw_process w)).
  { unfold first_such. erewrite (proj2 (list_find_Some _ _ _ (pid, a1))); [done|]. split_and!; [done|..].
    - unfold wants_response. apply bool_decide_pack. set_solver.
    - intros j [pidj b] Hj Hlt HP. unfold wants_response in HP. apply bool_decide_unpack in HP.
      unfold col1 in Hj. rewrite list_lookup_insert_ne in Hj by lia.
      eapply Hno; [|exact HP]. by eapply list_elem_of_lookup_2. }
  rewrite Hfirst, (on_adapter_run _ _ _ _ _ Hi1). unfold on_program, zoom, mbind, M_bind, modify. simpl.
  rewrite Hresp. unfold col1. rewrite list_insert_insert_eq. do 3 f_equal. f_equal.
  unfold with_inner, with_expected. simpl. f_equal. set_solver.
Qed.

End native_laws.
