(* ===== verification/System.v ===== *)
(** Modules and the system ([core/src/module.rs], [core/src/system.rs]).

    A [System] joins the processes of [Core] with the native programs: it
    hands to the native programs what is addressed to them, carries out what
    they ask for, registers the handlers of interfaces, and loads programs
    through the handler of the loader interface.

    [wasmi::Module::from_buffer], [blake3] and [bs58] are the class
    [ModuleCrates].  Atomics and [RefCell]s are their contents; the [SegQueue]
    is a list.  The future that [run] returns is polled: [run_poll] is one
    poll. *)
From S2P Require Import Prelude IdPool WasmValue Ffi Calls Vm ExtrinsicsApi Processes Extrinsics.
From S2P Require Import Ipc Messages Native.

(** * Modules *)

(** [bs58::decode(..).into(&mut out)] with [out] of 32 bytes gives the bytes
    that it wrote. *)
Class ModuleCrates `{Wasmi} := {
  Module_from_buffer : bytes → option wasmi_Module;
  blake3_hash : bytes → bytes;
  bs58_decode_into_32 : string → option bytes;
}.

Class ModuleCratesLaws `{ModuleCrates} := {
  blake3_length : ∀ bs, length (blake3_hash bs) = 32%nat;
  bs58_length : ∀ s out, bs58_decode_into_32 s = Some out → (length out ≤ 32)%nat;
}.

Section module.
Context `{Wasmi} `{!ModuleCrates}.

(** [ModuleHash]: 32 bytes. *)
Definition ModuleHash : Type := bytes.

Record Module_ := {
  m_inner : wasmi_Module;
  m_hash : ModuleHash;
}.

Definition ModuleHash_from_bytes (buffer : bytes) : ModuleHash := blake3_hash buffer.

Definition Module_from_bytes (buffer : bytes) : option Module_ :=
  inner ← Module_from_buffer buffer;
  Some {| m_inner := inner; m_hash := ModuleHash_from_bytes buffer |}.

Definition from_base58 (encoding : string) : fallible unit ModuleHash :=
  out ← ok_or tt (bs58_decode_into_32 encoding);
  let written := length out in
  start ← lift (if bool_decide (written ≤ 32)%nat then Done (32 - written)%nat else Panic POverflow);
  lift (copy_at (replicate 32 Init.Byte.x00) start out).

End module.

Section system.
Context `{Rng} `{Wasmi} `{!HashIter Z} `{!HashIter (list Init.Byte.byte)} `{Extrinsics}.
Context `{NativeProgramRef} `{Scale} `{!ModuleCrates}.

Record System := {
  sys_core : Core;
  native_programs : NativeProgramsCollection;
  loader_pid : Z;
  programs_to_load : list ModuleHash;
  load_source_virtual_pid : Pid;
  loading_programs : gset MessageId;
}.

(** The error is the trap of the program, inside a [wasmi::Error]. *)
Inductive SystemRunOutcome :=
  | SysProgramFinished (pid : Pid) (outcome : wasmi_Trap + unit).

Inductive RunOnceOutcome :=
  | Report (out : SystemRunOutcome)
  | Idle
  | LoopAgain
  | LoopAgainNow.

Definition with_core (c : Core) (s : System) : System :=
  {| sys_core := c; native_programs := native_programs s; loader_pid := loader_pid s;
     programs_to_load := programs_to_load s;
     load_source_virtual_pid := load_source_virtual_pid s; loading_programs := loading_programs s |}.
Definition with_native (n : NativeProgramsCollection) (s : System) : System :=
  {| sys_core := sys_core s; native_programs := n; loader_pid := loader_pid s;
     programs_to_load := programs_to_load s;
     load_source_virtual_pid := load_source_virtual_pid s; loading_programs := loading_programs s |}.
Definition with_loader_pid (p : Z) (s : System) : System :=
  {| sys_core := sys_core s; native_programs := native_programs s; loader_pid := p;
     programs_to_load := programs_to_load s;
     load_source_virtual_pid := load_source_virtual_pid s; loading_programs := loading_programs s |}.
Definition with_programs_to_load (l : list ModuleHash) (s : System) : System :=
  {| sys_core := sys_core s; native_programs := native_programs s; loader_pid := loader_pid s;
     programs_to_load := l;
     load_source_virtual_pid := load_source_virtual_pid s; loading_programs := loading_programs s |}.
Definition with_loading (l : gset MessageId) (s : System) : System :=
  {| sys_core := sys_core s; native_programs := native_programs s; loader_pid := loader_pid s;
     programs_to_load := programs_to_load s;
     load_source_virtual_pid := load_source_virtual_pid s; loading_programs := l |}.

Definition on_core {A} (m : M Core A) : M System A := zoom sys_core with_core m.
Definition on_native {A} (m : M NativeProgramsCollection A) : M System A :=
  zoom native_programs with_native m.

(** Executes a module and drops the handle on the process. *)
Definition execute_pid (program : Module_) : M Core (NewErr + Pid) :=
  r ← core_execute (m_inner program);
  match r with
  | inr pid => _ ← on_px (drop_proc pid); mret (inr pid)
  | inl e => mret (inl e)
  end.

Definition system_execute (program : Module_) : M System (NewErr + Pid) :=
  on_core (execute_pid program).

(** ** One event of [Core] *)

(** A [MessageResponse]. *)
Definition handle_response (message_id : MessageId) (response : unit + EncodedMessage) :
    M System unit :=
  s ← get;
  if bool_decide (message_id ∈ loading_programs s) then
    _ ← put (with_loading (loading_programs s ∖ {[ message_id ]}) s);
    bs ← liftM (match response with inr bs => Done bs | inl _ => Panic PUnwrap end);
    r ← liftM (unwrap (decode_load_response bs));
    data ← liftM (match Loader.result r with inr d => Done d | inl _ => Panic PUnwrap end);
    module ← liftM (unwrap (Module_from_bytes data));
    e ← on_core (execute_pid module);
    match e with
    | inr _ => mret tt
    | inl _ => panic PExplicit
    end
  else on_native (message_response message_id response).

Definition answer_if (message_id : option MessageId) (response : unit + EncodedMessage) :
    M Core unit :=
  match message_id with
  | Some message_id => answer_message message_id response
  | None => mret tt
  end.

(** A message on the [interface] interface; tells whether to start the loop
    again without waiting for the native programs. *)
Definition handle_register (fuel : nat) (pid : Pid) (message_id : option MessageId)
    (message : EncodedMessage) : M System bool :=
  match decode_interface_message message with
  | Some (Interface.Register interface_hash) =>
      result ← on_core (set_interface_handler fuel interface_hash pid);
      let response := {| Interface.result := match result with
        | inr _ => inr tt | inl _ => inl Interface.AlreadyRegistered end |} in
      _ ← on_core (answer_if message_id (inr (encode_register_response response)));
      if bool_decide (result = inr tt) && bool_decide (interface_hash = Loader.INTERFACE) then
        _ ← liftM (debug_assert (bool_decide (pid ≠ 0)));
        _ ← modify (with_loader_pid pid);
        mret true
      else mret false
  | None =>
      _ ← on_core (answer_if message_id (inl tt));
      mret false
  end.

(** [run_once], on the outcome of [self.core.run()]. *)
Definition handle_outcome (fuel : nat) (ev : CoreRunOutcome) : M System RunOnceOutcome :=
  match ev with
  | CoreIdle => mret Idle
  | ProgramFinished pid _ _ _ outcome =>
      _ ← modify (λ s, with_loader_pid (if bool_decide (loader_pid s = pid) then 0 else loader_pid s) s);
      _ ← on_native (process_destroyed pid);
      mret (Report (SysProgramFinished pid
        (match outcome with inr _ => inr tt | inl err => inl err end)))
  | ThreadWaitUnavailableInterface _ _ => mret LoopAgain
  | MessageResponse message_id response =>
      _ ← handle_response message_id response;
      mret LoopAgain
  | ReservedPidInterfaceMessage pid message_id interface message =>
      if bool_decide (interface = Interface.INTERFACE) then
        now ← handle_register fuel pid message_id message;
        mret (if now : bool then LoopAgainNow else LoopAgain)
      else
        _ ← on_native (interface_message interface message_id pid message);
        mret LoopAgain
  end.

Definition system_run_once (fuel : nat) : M System RunOnceOutcome :=
  ev ← on_core (core_run fuel);
  handle_outcome fuel ev.

(** ** The loop *)

(** [while let Ok(hash) = self.programs_to_load.pop()]. *)
Fixpoint load_programs (fuel : nat) (hashes : list ModuleHash) : M System unit :=
  match hashes with
  | [] => mret tt
  | hash :: hashes =>
      _ ← modify (with_programs_to_load hashes);
      s ← get;
      message_id ← on_core (emit_interface_message_answer fuel (load_source_virtual_pid s)
        Loader.INTERFACE (encode_loader (Loader.Load hash)));
      _ ← modify (λ s, with_loading ({[ message_id ]} ∪ loading_programs s) s);
      load_programs fuel hashes
  end.

Definition load_pending (fuel : nat) : M System unit :=
  s ← get;
  if bool_decide (loader_pid s ≠ 0) then load_programs fuel (programs_to_load s) else mret tt.

(** The event of a native program. *)
Definition handle_native_event (fuel : nat) (event : NativeProgramsCollectionEvent) : M System unit :=
  match event with
  | NcEmit interface emitter_pid message (Some message_id_write) =>
      message_id ← on_core (emit_interface_message_answer fuel emitter_pid interface message);
      on_native (acknowledge message_id_write message_id)
  | NcEmit interface emitter_pid message None =>
      on_core (emit_interface_message_no_answer fuel emitter_pid interface message)
  | NcCancelMessage message_id => on_core (core_cancel_message message_id)
  | NcAnswer message_id answer => on_core (answer_message message_id answer)
  end.

(** One iteration of the loop: what the poll returns, or nothing if the loop
    goes on. *)
Definition poll_step (fuel : nat) : M System (option (Poll SystemRunOutcome)) :=
  _ ← load_pending fuel;
  run_once_outcome ← system_run_once fuel;
  match run_once_outcome with
  | Report out => mret (Some (Ready out))
  | LoopAgainNow => mret None
  | LoopAgain | Idle =>
      event ← on_native next_event;
      match event, run_once_outcome with
      | Ready event, _ => _ ← handle_native_event fuel event; mret None
      | Pending, LoopAgain => mret None
      | Pending, _ => mret (Some Pending)
      end
  end.

(** One poll of the future that [run] returns. *)
Fixpoint run_poll (fuel : nat) : M System (Poll SystemRunOutcome) :=
  match fuel with
  | O => λ _, NoFuel
  | S fuel =>
      r ← poll_step fuel;
      match r with
      | Some r => mret r
      | None => run_poll fuel
      end
  end.

(** ** Builder *)

Record SystemBuilder := {
  sb_core : CoreBuilder;
  sb_native_programs : NativeProgramsCollection;
  interface_interface_pid : Pid;
  sb_load_source_virtual_pid : Pid;
  startup_processes : list Module_;
  sb_programs_to_load : list ModuleHash;
}.

Definition SystemBuilder_new : outcome SystemBuilder :=
  core ← Core_new;
  '(interface_interface_pid, core) ← core_reserve_pid core;
  '(load_source_virtual_pid, core) ← core_reserve_pid core;
  Done {| sb_core := core; sb_native_programs := NativeProgramsCollection_new;
          interface_interface_pid := interface_interface_pid;
          sb_load_source_virtual_pid := load_source_virtual_pid;
          startup_processes := []; sb_programs_to_load := [] |}.

Definition with_native_program (program : Prog) (b : SystemBuilder) : outcome SystemBuilder :=
  '(pid, core) ← core_reserve_pid (sb_core b);
  '(_, native) ← push pid program (sb_native_programs b);
  Done {| sb_core := core; sb_native_programs := native;
          interface_interface_pid := interface_interface_pid b;
          sb_load_source_virtual_pid := sb_load_source_virtual_pid b;
          startup_processes := startup_processes b;
          sb_programs_to_load := sb_programs_to_load b |}.

Definition with_startup_process (process : Module_) (b : SystemBuilder) : SystemBuilder :=
  {| sb_core := sb_core b; sb_native_programs := sb_native_programs b;
     interface_interface_pid := interface_interface_pid b;
     sb_load_source_virtual_pid := sb_load_source_virtual_pid b;
     startup_processes := startup_processes b ++ [process];
     sb_programs_to_load := sb_programs_to_load b |}.

Definition with_main_programs (hashes : list ModuleHash) (b : SystemBuilder) : SystemBuilder :=
  {| sb_core := sb_core b; sb_native_programs := sb_native_programs b;
     interface_interface_pid := interface_interface_pid b;
     sb_load_source_virtual_pid := sb_load_source_virtual_pid b;
     startup_processes := startup_processes b;
     sb_programs_to_load := sb_programs_to_load b ++ hashes |}.

Definition with_main_program (hash : ModuleHash) : SystemBuilder → SystemBuilder :=
  with_main_programs [hash].

(** [for program in self.startup_processes]: stops at the first error. *)
Fixpoint start_all (programs : list Module_) : M Core (NewErr + unit) :=
  match programs with
  | [] => mret (inr tt)
  | program :: programs =>
      r ← execute_pid program;
      match r with
      | inl e => mret (inl e)
      | inr _ => start_all programs
      end
  end.

Definition system_build (fuel : nat) (b : SystemBuilder) : fallible NewErr System :=
  core ← lift (core_build (sb_core b));
  '(r, core) ← lift (set_interface_handler fuel Interface.INTERFACE (interface_interface_pid b) core);
  _ ← lift (match r with inr _ => Done tt | inl _ => Panic PUnreachable end);
  '(r, core) ← lift (start_all (startup_processes b) core);
  match r with
  | inl e => fail e
  | inr _ => mret {| sys_core := core; native_programs := sb_native_programs b; loader_pid := 0;
                     programs_to_load := sb_programs_to_load b;
                     load_source_virtual_pid := sb_load_source_virtual_pid b;
                     loading_programs := ∅ |}
  end.

End system.
