(* ===== verification/SystemInv.v ===== *)
(** What the system does: the invariant of [System] and its operations. *)
From S2P Require Import Prelude IdPool WasmValue Ffi Calls Vm ExtrinsicsApi Processes.
From S2P Require Import ProcessesFrame Extrinsics ExtrinsicsInv ExtrinsicsLocks ExtrinsicsLife.
From S2P Require Import Ipc IpcInv IpcWake IpcCore IpcHandlers IpcReserved Messages Native System.

(** * Modules *)

Section module.
Context `{Wasmi} `{!ModuleCrates} `{!ModuleCratesLaws}.

(** The hash of a module is the hash of the bytes it was parsed from. *)
Lemma module_hash buffer m :
  Module_from_bytes buffer = Some m → m_hash m = ModuleHash_from_bytes buffer ∧ length (m_hash m) = 32%nat.
Proof.
  unfold Module_from_bytes. destruct (Module_from_buffer buffer); [|done]. intros [= <-]. simpl.
  split; [done|apply blake3_length].
Qed.

(** A decoded hash has 32 bytes, padded with zeros on the left, and the
    subtraction and the copy are in range. *)
Lemma from_base58_sound s :
  from_base58 s = Done match bs58_decode_into_32 s with
    | Some out => inr (replicate (32 - length out) Init.Byte.x00 ++ out)
    | None => inl tt
    end.
Proof.
  unfold from_base58. destruct (bs58_decode_into_32 s) as [out|] eqn:Hs; [|done].
  apply bs58_length in Hs. unfold mbind, fallible_bind, ok_or, lift, copy_at.
  rewrite (bool_decide_true (length out ≤ 32)%nat), length_replicate by done. rewrite bool_decide_true by lia.
  rewrite take_replicate, drop_replicate, Nat.min_l by lia.
  replace (32 - (32 - length out + length out))%nat with 0%nat by lia. by rewrite app_nil_r.
Qed.

End module.

Section system_inv.
Context `{Rng} `{!RngLaws} `{Wasmi} `{!HashIter Z} `{!HashIter (list Init.Byte.byte)} `{Extrinsics}.
Context `{!WasmiLaws} `{!WasmiMemoryLaws} `{!ExtrinsicsLaws}.
Context `{NativeProgramRef} `{Scale} `{!ModuleCrates} `{!NativeProgramLaws} `{!ScaleLaws}.
Implicit Types (c : Core) (s : System) (pid : Pid) (i : InterfaceHash) (m : EncodedMessage).

Record system_ok s : Prop := {
  so_core : core_ok (sys_core s);
  so_native : col_inv (native_programs s);
  so_pids : ∀ pid, pid ∈ (native_programs s).*1 → pid ∈ reserved_pids (sys_core s);
  so_load : load_source_virtual_pid s ∈ reserved_pids (sys_core s);
}.

Lemma system_with_core s c :
  system_ok s → core_ok c → reserved_pids c = reserved_pids (sys_core s) → system_ok (with_core c s).
Proof. intros [] Hc Hr. split; simpl; [done|done|by rewrite Hr|by rewrite Hr]. Qed.

Lemma system_with_native s (col : NativeProgramsCollection) :
  system_ok s → col_inv col → col.*1 = (native_programs s).*1 → system_ok (with_native col s).
Proof. intros [] Hc Hp. split; simpl; [done|done|by rewrite Hp|done]. Qed.

(** * Loading *)

Lemma outside_drawn pid i m c id c' : outside_sent pid i m true c (Some id) c' → drawn_from c c'.
Proof.
  intros (c1 & (id' & pool & [= <-] & (ids & Hids & _) & _ & _ & ->) & Hc').
  exists (S (length ids)), (ids ++ [id]).
  assert (Hrec : ∀ c2, message_id_pool c2 = pool → messages_to_answer c2 = messages_to_answer c →
    assign_n (S (length ids)) (message_id_pool c)
      = Done (ids ++ [id], message_id_pool (recorded (Some id) pid c2)) ∧
    ∀ id', is_Some (messages_to_answer (recorded (Some id) pid c2) !! id') →
      is_Some (messages_to_answer c !! id') ∨ id' ∈ ids ++ [id]).
  { intros c2 Hp Hm. simpl. rewrite Hp, Hm. split; [done|]. intros id'. rewrite lookup_insert.
    case_decide; [subst; set_solver|]. auto. }
  destruct (interfaces c !! i) as [[h|threads other]|].
  - destruct (proc_of (core_processes c) h); [destruct Hc' as (s2 & _ & ->)|destruct Hc' as [_ ->]];
      by apply Hrec.
  - subst. simpl. auto.
  - subst. simpl. auto.
Qed.

(** [hashes] are requested from the loader, in order, each under a fresh
    identifier that is then awaited. *)
Fixpoint requested (hashes : list ModuleHash) s s' : Prop :=
  match hashes with
  | [] => s' = s
  | hash :: hashes => ∃ id c', id ∉ dom (messages_to_answer (sys_core s)) ∧
      outside_sent (load_source_virtual_pid s) Loader.INTERFACE (encode_loader (Loader.Load hash)) true
        (sys_core s) (Some id) c' ∧
      requested hashes (with_loading ({[ id ]} ∪ loading_programs s)
        (with_core c' (with_programs_to_load hashes s))) s'
  end.

Lemma first_usable_fresh c id pool : first_usable c id pool → id ∉ dom (messages_to_answer c).
Proof.
  intros (ids & _ & _ & Hu). unfold usable in Hu. apply bool_decide_eq_true in Hu.
  rewrite not_elem_of_dom. naive_solver.
Qed.

Lemma load_programs_sound fuel hashes s :
  system_ok s → programs_to_load s = hashes →
  wlp (starved_later fuel (sys_core s)) notif_panics (load_programs fuel hashes s) (λ '(_, s'),
    system_ok s' ∧ requested hashes s s' ∧ programs_to_load s' = []).
Proof.
  revert s. induction hashes as [|hash hashes IH]; intros s Hs Hl; cbn [load_programs]; [done|].
  apply wlp_Mbind. simpl. apply wlp_Mbind. simpl. apply wlp_Mbind, wlp_zoom. simpl.
  destruct (emit_outside_sound fuel (load_source_virtual_pid s) Loader.INTERFACE
    (encode_loader (Loader.Load hash)) (sys_core s)) as [Hsent _]; [apply Hs|apply Loader.loader_hash|apply (so_load _ Hs)|].
  destruct (emit_interface_message_answer fuel (load_source_virtual_pid s) Loader.INTERFACE
    (encode_loader (Loader.Load hash)) (sys_core s)) as [[id c']|r|] eqn:Hrun; simpl in *;
    [|done|by apply starved_now].
  destruct Hsent as [Hc' Hsent].
  assert (Hr : reserved_pids c' = reserved_pids (sys_core s)) by (by eapply emit_answer_keeps).
  eapply wlp_mono; [eapply wlp_weaken; [apply IH; [|done]| |done]|].
  - destruct (system_with_core s c' Hs Hc' Hr). by split.
  - simpl. apply starved_later_trans. by eapply outside_drawn.
  - intros [[] s'] (? & Hreq & ?). split_and!; [done| |done]. exists id, c'. split_and!; [|done|done].
    destruct Hsent as (c1 & (? & pool & [= <-] & Hfirst & _) & _). by eapply first_usable_fresh.
Qed.

Lemma load_pending_sound fuel s :
  system_ok s →
  wlp (starved_later fuel (sys_core s)) notif_panics (load_pending fuel s) (λ '(_, s'), system_ok s' ∧
    if decide (loader_pid s = 0) then s' = s
    else requested (programs_to_load s) s s' ∧ programs_to_load s' = []).
Proof.
  intros Hs. unfold load_pending. apply wlp_Mbind. simpl. case_bool_decide as Hp; case_decide; try done.
  eapply wlp_mono; [by apply load_programs_sound|]. naive_solver.
Qed.

(** As soon as the loader interface has a handler, every program that
    waits to be loaded is requested from it, in the order in which they were
    added, each once and under an identifier of its own that is then awaited;
    nothing is requested before.  The invariant is kept. *)
Theorem system_load_ok fuel s :
  system_ok s →
  wlp (starved_later fuel (sys_core s)) notif_panics (load_pending fuel s) (λ '(_, s'), system_ok s' ∧
    if decide (loader_pid s = 0) then s' = s
    else requested (programs_to_load s) s s' ∧ programs_to_load s' = []).
Proof. apply load_pending_sound. Qed.

(** * Registering interfaces *)

Definition registration_answered (mid : option MessageId) (response : unit + EncodedMessage) c c' : Prop :=
  match mid with
  | Some id => ∃ r, answered id response c r c'
  | None => c' = c
  end.

(** What a message on the [interface] interface does. *)
Definition registered pid (mid : option MessageId) m s (now : bool) s' : Prop :=
  match decode_interface_message m with
  | None => now = false ∧ ∃ c', registration_answered mid (inl tt) (sys_core s) c' ∧ s' = with_core c' s
  | Some (Interface.Register h) => ∃ result c1 c2,
      handler_set pid h (sys_core s) result c1 ∧
      registration_answered mid (inr (encode_register_response {| Interface.result :=
        match result with inr _ => inr tt | inl _ => inl Interface.AlreadyRegistered end |})) c1 c2 ∧
      now = bool_decide (result = inr tt) && bool_decide (h = Loader.INTERFACE) ∧
      s' = if now then with_loader_pid pid (with_core c2 s) else with_core c2 s
  end.

Definition register_panics pid m c (r : panic_reason) : Prop :=
  notif_panics r ∨ r = PDebugAssert ∧ pid = 0 ∨
  ∃ h, decode_interface_message m = Some (Interface.Register h) ∧ handler_panics pid h c r.

Lemma answer_if_sound mid response c :
  core_ok c →
  wp notif_panics (answer_if mid response c) (λ '(_, c'), core_ok c' ∧
    reserved_pids c' = reserved_pids c ∧ registration_answered mid response c c').
Proof.
  intros Hc. destruct mid as [id|]; simpl; [|done].
  assert (Hk := answer_message_keeps (reserved_pids c) id response c). unfold answer_message in *.
  apply wp_Mbind. pose proof (answer_inner_sound id response c Hc) as Ha.
  unfold mbind, M_bind in Hk. destruct (answer_message_inner id response c) as [[r c']| |]; [|done..].
  simpl in *. destruct Ha. split_and!; [done| |by eauto]. by eapply (Hk tt).
Qed.

Lemma system_register_sound fuel pid mid m s :
  system_ok s →
  wlp (starved_later fuel (sys_core s)) (register_panics pid m (sys_core s)) (handle_register fuel pid mid m s)
    (λ '(now, s'), system_ok s' ∧ registered pid mid m s now s').
Proof.
  intros Hs. unfold handle_register, registered.
  destruct (decode_interface_message m) as [[h]|] eqn:Hm.
  2:{ apply wlp_Mbind, wlp_zoom. eapply wlp_wp; [apply answer_if_sound, Hs|by left|].
      intros [[] c'] (? & ? & ?). simpl. split; [by apply system_with_core|]. eauto. }
  apply wlp_Mbind, wlp_zoom.
  pose proof (set_handler_sound fuel h pid (sys_core s) (so_core _ Hs) (decode_interface_hash _ _ Hm)) as Hset.
  assert (Hk := set_handler_keeps (reserved_pids (sys_core s)) fuel h pid (sys_core s)).
  destruct (set_interface_handler fuel h pid (sys_core s)) as [[result c1]|r|]; simpl in *; [|right; right; eauto|done].
  destruct Hset as [Hc1 Hset]. apply wlp_Mbind, wlp_zoom. simpl.
  eapply wlp_wp; [by apply answer_if_sound|by left|]. intros [[] c2] (Hc2 & Hr2 & Hans). simpl.
  assert (Hs2 : system_ok (with_core c2 s)) by (apply system_with_core; [done..|rewrite Hr2; by eapply Hk]).
  change (with_core c2 (with_core c1 s)) with (with_core c2 s).
  destruct (bool_decide (result = inr tt) && bool_decide (h = Loader.INTERFACE)) eqn:Hnow.
  - apply wlp_Mbind, wlp_liftM. destruct (bool_decide_reflect (pid ≠ 0)) as [Hpid|Hpid]; simpl.
    + split; [by destruct Hs2|]. exists result, c1, c2. by rewrite Hnow.
    + right. left. split; [done|]. destruct (decide (pid = 0)); [done|]. by destruct Hpid.
  - simpl. split; [done|]. exists result, c1, c2. by rewrite Hnow.
Qed.

(** A process, or a native program, that asks to handle an interface
    becomes its handler exactly if it exists and the interface has none, and
    is told which of the two if it wants to know; a message that is not
    understood is answered with an error and changes nothing else.  The
    handler of the loader interface is remembered, and only then does the loop
    start again at once.  The kernel stops only as registering a handler
    does, or if the loader has the identifier 0. *)
Theorem system_register_ok fuel pid mid m s :
  system_ok s →
  wlp (starved_later fuel (sys_core s)) (register_panics pid m (sys_core s)) (handle_register fuel pid mid m s)
    (λ '(now, s'), system_ok s' ∧ registered pid mid m s now s').
Proof. apply system_register_sound. Qed.

(** * Executing modules *)

(** The identifiers that the pools give are unused, and the instance has a
    memory. *)
Definition exec_ready (module : wasmi_Module) c : Prop :=
  can_execute module (core_processes c) ∧
  (∀ id tp, assign (tid_pool (px_inner (core_processes c))) = Done (id, tp) → unrequested (interfaces c) id) ∧
  (∀ pid pp, assign (pid_pool (px_inner (core_processes c))) = Done (pid, pp) → pid ∉ reserved_pids c).

(** The interpreter stops the kernel on [module]. *)
Definition instance_panics (module : wasmi_Module) c (r : panic_reason) : Prop :=
  ∃ d : Thread (LocalThreadUserData (TTud := unit)),
    ProcessStateMachine_new module d (resolve_extrinsic (px_inner (core_processes c))) = Panic r.

Definition started c (r : NewErr + Pid) c' : Prop :=
  match r with
  | inr pid => proc_of (core_processes c) pid = None ∧ is_Some (proc_of (core_processes c') pid) ∧
      interfaces c' = interfaces c ∧ ∀ pid', pid' ≠ pid →
        proc_of (core_processes c') pid' = proc_of (core_processes c) pid'
  | inl _ => True
  end.

Lemma execute_pid_sound module c :
  core_ok c → exec_ready (m_inner module) c →
  wp (instance_panics (m_inner module) c) (execute_pid module c) (λ '(r, c'),
    core_ok c' ∧ reserved_pids c' = reserved_pids c ∧ started c r c').
Proof.
  intros Hc (Hcan & Hun & Hres). unfold execute_pid, mbind, M_bind.
  pose proof (execute_core_sound (m_inner module) c Hc Hcan Hun Hres) as Hex.
  destruct (core_execute (m_inner module) c) as [[[e|pid] c1]|r|]; simpl; [|..|done|done].
  { destruct Hex as [? (s' & ->)]. done. }
  destruct Hex as (Hc1 & s1 & id & -> & Hno & _ & _ & Hp). unfold on_px, zoom. simpl.
  pose proof (drop_proc_sound [] [] s1 pid (co_px _ _ _ _ Hc1)) as Hd.
  destruct (drop_proc pid s1) as [[[] s2]| |]; simpl in *; [|done..]. destruct Hd as (Hok & Hs & Hrq).
  assert (Hsame : same_but_handles s1 s2) by done. split_and!; [|done|done|..].
  - exact (core_but_same [] [pid] [] [] _ _ _ Hc1 Hok Hsame).
  - simpl. rewrite (same_proc _ _ _ Hsame). unfold proc_of. rewrite Hp, decide_True by done. eauto.
  - done.
  - intros pid' Hne. simpl. rewrite (same_proc _ _ _ Hsame). unfold proc_of. by rewrite Hp, decide_False.
Qed.

(** * Responses *)

(** The module that the loader answers with. *)
Definition loaded_module (response : unit + EncodedMessage) : option Module_ :=
  match response with
  | inr bs => r ← decode_load_response bs;
      match Loader.result r with inr data => Module_from_bytes data | inl _ => None end
  | inl _ => None
  end.

(** Nobody waits for a response under [id]. *)
Definition orphan (id : MessageId) s : Prop :=
  id ∉ loading_programs s ∧ ∀ pid a, (pid, a) ∈ native_programs s → id ∉ expected_responses a.

Definition response_panics (id : MessageId) response s (r : panic_reason) : Prop :=
  np_panics r ∨ r = PExplicit ∧ orphan id s ∨
  id ∈ loading_programs s ∧ match loaded_module response with
    | None => r = PUnwrap
    | Some mo => r = PExplicit ∨ instance_panics (m_inner mo) (sys_core s) r
    end.

Definition responded (id : MessageId) response s s' : Prop :=
  loading_programs s' = loading_programs s ∖ {[ id ]} ∧
  (id ∈ loading_programs s → ∃ mo pid, loaded_module response = Some mo ∧
     started (sys_core s) (inr pid) (sys_core s') ∧ native_programs s' = native_programs s) ∧
  (id ∉ loading_programs s → sys_core s' = sys_core s ∧
     message_response id response (native_programs s) = Done (tt, native_programs s')).

Lemma handle_response_loading id response s :
  id ∈ loading_programs s →
  handle_response id response s = match loaded_module response with
    | None => Panic PUnwrap
    | Some mo => (e ← on_core (execute_pid mo); match e with inr _ => mret tt | inl _ => panic PExplicit end)
        (with_loading (loading_programs s ∖ {[ id ]}) s)
    end.
Proof.
  intros Hin. unfold handle_response, mbind, M_bind, get, put. rewrite bool_decide_true by done.
  destruct response as [|bs]; [done|]. simpl. destruct (decode_load_response bs) as [r|]; [|done]. simpl.
  destruct (Loader.result r) as [|data]; [done|]. simpl. by destruct (Module_from_bytes data).
Qed.

Lemma handle_response_sound id response s :
  system_ok s →
  (id ∈ loading_programs s → ∀ mo, loaded_module response = Some mo → exec_ready (m_inner mo) (sys_core s)) →
  wp (response_panics id response s) (handle_response id response s) (λ '(_, s'),
    system_ok s' ∧ responded id response s s').
Proof.
  intros Hs Hready. destruct (decide (id ∈ loading_programs s)) as [Hin|Hno].
  - rewrite handle_response_loading by done. specialize (Hready Hin).
    destruct (loaded_module response) as [mo|] eqn:Hmo; [|right; right; by rewrite Hmo].
    apply wp_Mbind, wp_zoom. cbn [sys_core with_loading].
    eapply wp_mono; [eapply wp_weaken; [apply execute_pid_sound; [apply Hs|by apply Hready]|]|].
    { intros r ?. right. right. rewrite Hmo. auto. }
    intros [[e|pid] c'] (Hc' & Hr & Hst); simpl; [right; right; rewrite Hmo; auto|].
    split; [by destruct (system_with_core s c' Hs Hc' Hr)|]. split_and!; [done|by eauto|done].
  - unfold handle_response. apply wp_Mbind. simpl. rewrite bool_decide_false by done. apply wp_zoom.
    pose proof (message_response_inv id response (native_programs s) (so_native _ Hs)) as Hm.
    destruct (message_response id response (native_programs s)) as [[[] col']|r|] eqn:Hrun; simpl in *; [| |done].
    + destruct Hm. split; [by apply system_with_native|]. split_and!; [set_solver|done|done].
    + destruct Hm as [?|[-> ?]]; [by left|]. right. left. done.
Qed.

(** ** Events of the core *)

Definition outcome_panics (ev : CoreRunOutcome) s (r : panic_reason) : Prop :=
  np_panics r ∨ match ev with
  | MessageResponse id response => response_panics id response s r
  | ReservedPidInterfaceMessage pid mid i m =>
      if bool_decide (i = Interface.INTERFACE) then register_panics pid m (sys_core s) r
      else r = PExplicit ∧ ∀ pid a, (pid, a) ∈ native_programs s → i ∉ ad_registered_interfaces a
  | _ => False
  end.

(** The module that a response brings can be started. *)
Definition load_ready (ev : CoreRunOutcome) s : Prop :=
  match ev with
  | MessageResponse id response => id ∈ loading_programs s →
      ∀ mo, loaded_module response = Some mo → exec_ready (m_inner mo) (sys_core s)
  | _ => True
  end.

(** What the system does of an event of the core. *)
Definition dispatched (ev : CoreRunOutcome) s (out : RunOnceOutcome) s' : Prop :=
  match ev with
  | CoreIdle => out = Idle ∧ s' = s
  | ThreadWaitUnavailableInterface _ _ => out = LoopAgain ∧ s' = s
  | ProgramFinished pid _ _ _ outcome =>
      out = Report (SysProgramFinished pid (match outcome with inr _ => inr tt | inl err => inl err end)) ∧
      loader_pid s' = (if decide (loader_pid s = pid) then 0 else loader_pid s) ∧
      sys_core s' = sys_core s ∧
      process_destroyed pid (native_programs s) = Done (tt, native_programs s')
  | MessageResponse id response => out = LoopAgain ∧ responded id response s s'
  | ReservedPidInterfaceMessage pid mid i m =>
      if bool_decide (i = Interface.INTERFACE) then
        ∃ now, out = (if now : bool then LoopAgainNow else LoopAgain) ∧ registered pid mid m s now s'
      else out = LoopAgain ∧ sys_core s' = sys_core s ∧
        interface_message i mid pid m (native_programs s) = Done (tt, native_programs s')
  end.

Lemma handle_outcome_sound fuel ev s :
  system_ok s → load_ready ev s →
  wlp (starved_later fuel (sys_core s)) (outcome_panics ev s) (handle_outcome fuel ev s) (λ '(out, s'),
    system_ok s' ∧ dispatched ev s out s').
Proof.
  intros Hs Hready. destruct ev as [pid ? ? ? out| |pid mid i m|id response|]; try done; simpl.
  - apply wlp_Mbind. simpl. apply wlp_Mbind, wlp_zoom. simpl.
    pose proof (process_destroyed_inv pid (native_programs s) (so_native _ Hs)) as Hd.
    destruct (process_destroyed pid (native_programs s)) as [[[] col']|r|]; simpl in *; [|by left|done].
    destruct Hd. split; [by destruct (system_with_native s col' Hs)|]. split_and!; try done.
    by case_bool_decide; case_decide.
  - unfold outcome_panics, dispatched. destruct (bool_decide (i = Interface.INTERFACE)).
    + apply wlp_Mbind. eapply wlp_mono; [eapply wlp_weaken; [by apply system_register_sound|done|]|].
      * intros r ?. by right.
      * intros [now s'] [? ?]. simpl. split; [by destruct now|]. by exists now; destruct now.
    + apply wlp_Mbind, wlp_zoom.
      pose proof (interface_message_inv i mid pid m (native_programs s) (so_native _ Hs)) as Hm.
      destruct (interface_message i mid pid m (native_programs s)) as [[[] col']|r|]; simpl in *; [| |done].
      * destruct Hm. split; [by apply system_with_native|done].
      * destruct Hm as [?|[-> ?]]; [by left|]. by right.
  - apply wlp_Mbind. eapply wlp_wp; [by apply handle_response_sound| |].
    + intros r ?. by right.
    + intros [[] s'] [? ?]. by simpl.
Qed.

Lemma system_run_once_sound fuel s :
  system_ok s →
  (∀ ev c, core_run fuel (sys_core s) = Done (ev, c) → load_ready ev (with_core c s)) →
  wlp (core_spins fuel (sys_core s) ∨
       ∃ ev c, core_run fuel (sys_core s) = Done (ev, c) ∧ starved_later fuel c)
    (λ r, core_panics r ∨
       ∃ ev c, core_run fuel (sys_core s) = Done (ev, c) ∧ outcome_panics ev (with_core c s) r)
    (system_run_once fuel s) (λ '(out, s'), system_ok s' ∧
      ∃ ev c, core_run fuel (sys_core s) = Done (ev, c) ∧ dispatched ev (with_core c s) out s').
Proof.
  intros Hs Hready. unfold system_run_once. apply wlp_Mbind, wlp_zoom.
  pose proof (core_run_sound fuel (sys_core s) (so_core _ Hs)) as Hrun.
  destruct (core_run fuel (sys_core s)) as [[ev c]|r|]; simpl in *; [|by left|by left].
  destruct Hrun as [Hc Hr].
  pose proof (handle_outcome_sound fuel ev (with_core c s) (system_with_core _ _ Hs Hc Hr) (Hready _ _ eq_refl)) as Ho.
  destruct (handle_outcome fuel ev (with_core c s)) as [[out s']|r|]; simpl in *; [|by eauto 10..].
  destruct Ho. split; [done|]. by exists ev, c.
Qed.

(** C8: one step of the system keeps its invariant, whatever the programs do:
    what the core reports is dispatched to the native program, the
    registration of interfaces or the loading of modules it is meant for, as
    [dispatched] says.  It stops only as the core does, or for the reasons
    that [outcome_panics] lists, and runs forever only if the programs do. *)
Theorem system_run_once_ok fuel s :
  system_ok s →
  (∀ ev c, core_run fuel (sys_core s) = Done (ev, c) → load_ready ev (with_core c s)) →
  wlp (core_spins fuel (sys_core s) ∨
       ∃ ev c, core_run fuel (sys_core s) = Done (ev, c) ∧ starved_later fuel c)
    (λ r, core_panics r ∨
       ∃ ev c, core_run fuel (sys_core s) = Done (ev, c) ∧ outcome_panics ev (with_core c s) r)
    (system_run_once fuel s) (λ '(out, s'), system_ok s' ∧
      ∃ ev c, core_run fuel (sys_core s) = Done (ev, c) ∧ dispatched ev (with_core c s) out s').
Proof. apply system_run_once_sound. Qed.

(** The answer to a message whose emitter has ended stops the kernel.
    The core does not forget the messages that a process waits for when it
    ends: once some process answers one of them, the answer is reported as if
    it were for a native program, and none expects it. *)
Theorem orphan_response_stops fuel t process id bs pid s px' :
  system_ok s → pending_events (sys_core s) = [] →
  px_run fuel (core_processes (sys_core s)) = Done (Px_ThreadEmitAnswer t process id bs, px') →
  messages_to_answer (sys_core s) !! id = Some pid → proc_of (core_processes (sys_core s)) pid = None →
  orphan id s →
  system_run_once (S fuel) s = Panic PExplicit.
Proof.
  intros Hs Hev Hrun Hid Hno [Hload Hexp].
  pose proof (px_run_sound fuel _ (co_px _ _ _ _ (so_core _ Hs))) as Hpost. rewrite Hrun in Hpost.
  destruct Hpost as [Hb [Hcar Hcore]]. simpl in Hcore.
  pose proof (drop_proc_sound [] [] px' process (conj Hb Hcore)) as Hd.
  destruct (drop_proc process px') as [[[] px2]| |] eqn:Hdrop; [|done..]. destruct Hd as (Hok2 & Hsame & Hrq).
  assert (Hno2 : proc_of px2 pid = None).
  { assert (Hs2 : same_but_handles px' px2) by done. rewrite (same_proc _ _ _ Hs2). by apply (no_new_carried _ _ Hcar). }
  pose proof (handle_sound [] [] px2 pid Hok2) as Hh.
  assert (Hby : px_process_by_id pid px2 = Done (None, px2)).
  { destruct (px_process_by_id pid px2) as [[[pid'|] px3]| |]; simpl in Hh; [|by destruct Hh as [-> _]|done..].
    destruct Hh as (_ & Hx & _). rewrite Hno2 in Hx. by destruct Hx. }
  unfold system_run_once, on_core, zoom, mbind, M_bind. cbn [core_run].
  unfold run_inner, mbind, M_bind, get. rewrite Hev. unfold on_px, zoom. rewrite Hrun.
  cbn [handle_event]. unfold mbind, M_bind, on_px, zoom. cbn [core_processes with_px]. rewrite Hdrop.
  unfold answer_message_inner, mbind, M_bind, get, put, on_px, zoom.
  cbn [messages_to_answer with_px with_messages core_processes]. rewrite Hid. cbn [core_processes with_px with_messages].
  rewrite Hby. simpl. unfold handle_response, mbind, M_bind, get. cbn [loading_programs with_core].
  rewrite bool_decide_false by done. unfold on_native, zoom. cbn [native_programs with_core].
  rewrite message_response_sound. replace (first_such (wants_response id) (native_programs s)) with (None : option nat); [done|].
  symmetry. apply first_such_None. intros pid' a Hin. unfold wants_response. apply bool_decide_eq_false. by eapply Hexp.
Qed.

(** * Native programs *)

(** What the system does when a native program is ready: polls them, and
    carries out the event. *)
Definition native_step (fuel : nat) : M System unit :=
  event ← on_native next_event;
  match event with
  | Ready event => handle_native_event fuel event
  | Pending => mret tt
  end.

Definition native_step_panics (r : panic_reason) : Prop :=
  np_panics r ∨ notif_panics r ∨ r = PDebugAssert ∨ r = PUnimplemented.

Lemma native_step_sound fuel s :
  system_ok s →
  wlp (starved fuel (sys_core s)) native_step_panics (native_step fuel s) (λ '(_, s'), system_ok s').
Proof.
  intros Hs. unfold native_step. apply wlp_Mbind, wlp_zoom.
  eapply wlp_wp; [by apply next_event_sound, Hs|by left|].
  intros [ev col'] (Hinv & Hpids & _ & Hev).
  assert (Hs' : system_ok (with_native col' s)) by (by apply system_with_native).
  destruct ev as [ev|]; [|done]. destruct Hev as (k & pid & a & e & x & _ & _ & Hk & _ & Hk' & -> & Hhash & _).
  assert (Hpid : pid ∈ reserved_pids (sys_core s)).
  { apply (so_pids _ Hs), list_elem_of_fmap. exists (pid, a). split; [done|]. by eapply list_elem_of_lookup_2. }
  destruct e as [i w m|id|id answer]; cbn [wrap_event handle_native_event] in *.
  - destruct (emit_outside_sound fuel pid i m (sys_core s) (so_core _ Hs) Hhash Hpid) as [Hyes Hnot].
    destruct w as [inner|]; simpl.
    + apply wlp_Mbind, wlp_zoom. cbn [sys_core with_native].
      assert (Hkp := emit_answer_keeps (reserved_pids (sys_core s)) fuel pid i m (sys_core s)).
      destruct (emit_interface_message_answer fuel pid i m (sys_core s)) as [[id c']|r|]; simpl in *;
        [|by right; left|done].
      destruct Hyes as [Hc' _]. apply wlp_zoom. cbn [native_programs with_core with_native].
      eapply wlp_wp; [by eapply (acknowledge_inv _ id col' pid)| |].
      * intros r [?| ->]; [by left|by right; right; left].
      * intros [[] col2] [Hi2 Hp2]. apply (system_with_native (with_core c' (with_native col' s)) col2); [|done|done].
        apply system_with_core; [done..|]. by eapply Hkp.
    + apply wlp_zoom. cbn [sys_core with_native].
      assert (Hkp := emit_no_answer_keeps (reserved_pids (sys_core s)) fuel pid i m (sys_core s)).
      destruct (emit_interface_message_no_answer fuel pid i m (sys_core s)) as [[[] c']|r|]; simpl in *;
        [|by right; left|done].
      destruct Hnot. apply system_with_core; [done..|]. by eapply Hkp.
  - simpl. by right; right; right.
  - apply wlp_zoom. cbn [sys_core with_native].
    eapply wlp_wp; [by apply (answer_if_sound (Some id) answer), Hs|by right; left|].
    intros [[] c'] (? & ? & _). by apply system_with_core.
Qed.

(** Carrying out what a native program asks for keeps the invariant: its
    messages go out under its own reserved identifier, the identifier that the
    core gives is written back to it, and its answers are delivered.  Asking
    to cancel a message stops the kernel. *)
Theorem native_step_ok fuel s :
  system_ok s →
  wlp (starved fuel (sys_core s)) native_step_panics (native_step fuel s) (λ '(_, s'), system_ok s') ∧
  ∀ id col', next_event (native_programs s) = Done (Ready (NcCancelMessage id), col') →
    native_step fuel s = Panic PUnimplemented.
Proof.
  intros Hs. split; [by apply native_step_sound|]. intros id col' Hev.
  unfold native_step, on_native, zoom, mbind, M_bind. by rewrite Hev.
Qed.

(** * The loop *)

(** The module that the next event may bring can be started. *)
Definition step_ready (fuel : nat) s : Prop :=
  ∀ s1 ev c, load_pending fuel s = Done (tt, s1) → core_run fuel (sys_core s1) = Done (ev, c) →
    load_ready ev (with_core c s1).

(** Why one iteration may not end: an identifier that is usable is never
    drawn, or the programs run forever. *)
Definition step_spins (fuel : nat) s : Prop :=
  starved_later fuel (sys_core s) ∨ ∃ s1, load_pending fuel s = Done (tt, s1) ∧
    (core_spins fuel (sys_core s1) ∨
     (∃ ev c, core_run fuel (sys_core s1) = Done (ev, c) ∧ starved_later fuel c) ∨
     ∃ out s2, system_run_once fuel s1 = Done (out, s2) ∧ starved fuel (sys_core s2)).

Definition step_panics (fuel : nat) s (r : panic_reason) : Prop :=
  core_panics r ∨ native_step_panics r ∨ ∃ s1 ev c, load_pending fuel s = Done (tt, s1) ∧
    core_run fuel (sys_core s1) = Done (ev, c) ∧ outcome_panics ev (with_core c s1) r.

(** The core has nothing to run, no native program is ready, and no module
    can be requested. *)
Definition nothing_to_do (fuel : nat) s : Prop :=
  (∃ c, core_run fuel c = Done (CoreIdle, sys_core s)) ∧
  (∃ col, next_event col = Done (Pending, native_programs s)) ∧
  (loader_pid s = 0 ∨ programs_to_load s = []).

(** What follows the dispatch of an event, when it is not [Report]; the loop
    goes on in any case if [b]. *)
Definition native_turn (fuel : nat) (b : bool) : M System (option (Poll SystemRunOutcome)) :=
  event ← on_native next_event;
  match event with
  | Ready event => _ ← handle_native_event fuel event; mret None
  | Pending => mret (if b then None else Some Pending)
  end.

Lemma native_turn_sound fuel s (b : bool) :
  system_ok s →
  wlp (starved fuel (sys_core s)) native_step_panics (native_turn fuel b s) (λ '(r, s'),
    system_ok s' ∧ match r with
      | None => True
      | Some r => b = false ∧ r = Pending ∧ ∃ col', s' = with_native col' s ∧
          next_event (native_programs s) = Done (Pending, col')
      end).
Proof.
  intros Hs. pose proof (native_step_sound fuel s Hs) as Hn. unfold native_turn, native_step, on_native, zoom, mbind, M_bind in *.
  destruct (next_event (native_programs s)) as [[[ev|] col']|r|]; simpl in *; [| |done|done].
  - destruct (handle_native_event fuel ev (with_native col' s)) as [[[] s']| |]; simpl in *; done.
  - destruct b; simpl; [done|]. eauto 10.
Qed.

Lemma poll_step_sound fuel s :
  system_ok s → step_ready fuel s →
  wlp (step_spins fuel s) (step_panics fuel s) (poll_step fuel s) (λ '(r, s'), system_ok s' ∧
    match r with Some Pending => nothing_to_do fuel s' | _ => True end).
Proof.
  intros Hs Hready. unfold poll_step. apply wlp_Mbind.
  assert (Hload : wlp (starved_later fuel (sys_core s)) notif_panics (load_pending fuel s) (λ '(_, s1),
    system_ok s1 ∧ (loader_pid s1 = 0 ∨ programs_to_load s1 = []) ∧ load_pending fuel s = Done (tt, s1))).
  { pose proof (load_pending_sound fuel s Hs) as Hl. destruct (load_pending fuel s) as [[[] s1]| |]; [|done..].
    simpl in *. destruct Hl as [? Hl]. split_and!; [done| |done]. case_decide; [subst; by left|naive_solver]. }
  eapply wlp_mono; [eapply wlp_weaken; [exact Hload|by left|]|].
  { intros r ?. unfold step_panics, native_step_panics. auto. }
  intros [[] s1] (Hs1 & Hidle & Hl1). apply wlp_Mbind.
  pose proof (system_run_once_sound fuel s1 Hs1 (λ ev c, Hready s1 ev c Hl1)) as Hrun.
  destruct (system_run_once fuel s1) as [[out s2]|r|] eqn:Hr2; simpl in *.
  2:{ destruct Hrun as [?|(ev & c & ? & ?)]; [by left|]. right. right. eauto 10. }
  2:{ right. exists s1. split; [done|]. destruct Hrun; auto. }
  destruct Hrun as (Hs2 & ev & c & Hcore & Hdisp).
  assert (Hnat : ∀ b, (b = false → out = Idle) → wlp (step_spins fuel s) (step_panics fuel s)
    (native_turn fuel b s2) (λ '(r, s'), system_ok s' ∧ match r with Some Pending => nothing_to_do fuel s' | _ => True end)).
  { intros b Hb. eapply wlp_mono; [eapply wlp_weaken; [by apply (native_turn_sound fuel s2 b)|..]|].
    - intros ?. right. exists s1. split; [done|]. right. right. by exists out, s2.
    - intros r ?. unfold step_panics. auto.
    - intros [[r|] s'] [Hs' Hr]; [|done]. split; [done|].
      destruct Hr as (Hbf & -> & col' & -> & Hnext). specialize (Hb Hbf). subst out.
      destruct ev; simpl in Hdisp; try (by destruct Hdisp).
      2:{ destruct Hdisp as [_ ->]. split_and!; eauto. }
      case_bool_decide; [destruct Hdisp as ([] & ? & _); done|by destruct Hdisp]. }
  destruct out; [done|apply (Hnat false); done|apply (Hnat true); done|done].
Qed.

(** The fuel is not enough for one poll: an iteration does not end, or the
    loop goes on for more than [fuel] iterations. *)
Fixpoint poll_spins (fuel : nat) s : Prop :=
  match fuel with
  | O => True
  | S fuel => step_spins fuel s ∨ ∃ s', poll_step fuel s = Done (None, s') ∧ poll_spins fuel s'
  end.

Fixpoint poll_ready (fuel : nat) s : Prop :=
  match fuel with
  | O => True
  | S fuel => step_ready fuel s ∧ ∀ s', poll_step fuel s = Done (None, s') → poll_ready fuel s'
  end.

Fixpoint poll_panics (fuel : nat) s (r : panic_reason) : Prop :=
  match fuel with
  | O => False
  | S fuel => step_panics fuel s r ∨ ∃ s', poll_step fuel s = Done (None, s') ∧ poll_panics fuel s' r
  end.

Lemma run_poll_sound fuel s :
  system_ok s → poll_ready fuel s →
  wlp (poll_spins fuel s) (poll_panics fuel s) (run_poll fuel s) (λ '(r, s'), system_ok s' ∧
    match r with Pending => ∃ fuel', nothing_to_do fuel' s' | Ready _ => True end).
Proof.
  revert s. induction fuel as [|fuel IH]; intros s Hs Hready; [done|]. cbn [run_poll poll_spins poll_panics].
  destruct Hready as [Hstep Hnext]. unfold mbind, M_bind.
  pose proof (poll_step_sound fuel s Hs Hstep) as Hp.
  destruct (poll_step fuel s) as [[[r|] s']|r|]; simpl in *; [|..|by left|by left].
  - destruct Hp. split; [done|]. destruct r; [done|]. eauto.
  - destruct Hp as [Hs' _]. eapply wlp_weaken; [apply IH; [done|by apply Hnext]|naive_solver|naive_solver].
Qed.

(** C7: a poll of the system keeps the invariant through any number of
    iterations, and the system goes to sleep only when there is nothing to do:
    the core is idle, every native program was polled and had nothing to say,
    and no module can be requested from the loader. *)
Theorem run_poll_ok fuel s :
  system_ok s → poll_ready fuel s →
  wlp (poll_spins fuel s) (poll_panics fuel s) (run_poll fuel s) (λ '(r, s'), system_ok s' ∧
    match r with Pending => ∃ fuel', nothing_to_do fuel' s' | Ready _ => True end).
Proof. apply run_poll_sound. Qed.

End system_inv.
