(* ===== verification/SystemBuild.v ===== *)
(** Building a system: the state that [SystemBuilder] gives satisfies the
    invariant. *)
From S2P Require Import Prelude IdPool WasmValue Ffi Calls Vm ExtrinsicsApi Processes.
From S2P Require Import ProcessesFrame Extrinsics ExtrinsicsInv ExtrinsicsLocks ExtrinsicsLife.
From S2P Require Import Ipc IpcInv IpcWake IpcCore IpcHandlers IpcReserved.
From S2P Require Import Messages Native System SystemInv.

Section build.
Context `{Rng} `{!RngLaws} `{Wasmi} `{!HashIter Z} `{!HashIter (list Init.Byte.byte)} `{Extrinsics}.
Context `{!WasmiLaws} `{!WasmiMemoryLaws} `{!ExtrinsicsLaws}.
Context `{NativeProgramRef} `{Scale} `{!ModuleCrates} `{!NativeProgramLaws} `{!ScaleLaws}.
Implicit Types (c : Core) (s : System) (pid : Pid) (sb : SystemBuilder).

Local Abbreviation cb_ok := (λ b, builder_ok (hardcoded_extrinsics ++ other_extrinsics) (inner_builder b)).

(** * The builder *)

Record builder_inv sb : Prop := {
  bi_core : cb_ok (sb_core sb);
  bi_native : col_inv (sb_native_programs sb);
  bi_distinct : NoDup (interface_interface_pid sb :: sb_load_source_virtual_pid sb :: (sb_native_programs sb).*1);
  bi_reserved : ∀ pid, pid ∈ interface_interface_pid sb :: sb_load_source_virtual_pid sb ::
    (sb_native_programs sb).*1 → pid ∈ cb_reserved_pids (sb_core sb);
}.

Lemma builder_new_sound :
  wp (λ r, r = PDebugAssert) SystemBuilder_new (λ sb, builder_inv sb ∧ sb_native_programs sb = [] ∧
    startup_processes sb = [] ∧ sb_programs_to_load sb = []).
Proof.
  unfold SystemBuilder_new, Core_new. destruct builder_default_sound as (b & -> & Hb). simpl.
  apply wp_bind. eapply wp_mono; [by apply reserve_sound|]. intros [pid1 b1] (Hb1 & Hnew1 & Hr1).
  apply wp_bind. eapply wp_mono; [by apply reserve_sound|]. intros [pid2 b2] (Hb2 & Hnew2 & Hr2). simpl in *.
  split_and!; try done. split; simpl; [done|constructor| |set_solver].
  apply NoDup_cons. split; [set_solver|apply NoDup_singleton].
Qed.

Lemma with_native_sound program sb :
  builder_inv sb → np_inv program →
  wp (λ r, r = PDebugAssert) (with_native_program program sb) (λ sb', builder_inv sb' ∧
    (∃ pid, sb_native_programs sb' = sb_native_programs sb ++
       [(pid, {| ad_inner := program; ad_registered_interfaces := ∅; expected_responses := ∅ |})]) ∧
    startup_processes sb' = startup_processes sb ∧ sb_programs_to_load sb' = sb_programs_to_load sb).
Proof.
  intros [Hb Hinv Hnd Hres] Hp. unfold with_native_program. apply wp_bind.
  eapply wp_mono; [by apply reserve_sound|]. intros [pid b'] (Hb' & Hnew & Hr).
  assert (Hfresh : pid ∉ interface_interface_pid sb :: sb_load_source_virtual_pid sb :: (sb_native_programs sb).*1)
    by (intros Hin; by apply Hnew, Hres).
  unfold push, mbind, M_bind, get, put, liftM. simpl.
  replace (existsb (λ p, bool_decide (p.1 = pid)) (sb_native_programs sb)) with false.
  2:{ symmetry. apply not_true_iff_false. rewrite existsb_exists. intros ([pid' a] & Hin & He).
      apply bool_decide_eq_true in He. simpl in He. subst. apply Hfresh. do 2 right.
      apply list_elem_of_fmap. exists (pid, a). split; [done|]. by apply list_elem_of_In. }
  simpl. split_and!; [|by eauto..]. split; simpl; [done|..].
  - by apply Forall_app; split; [|constructor].
  - rewrite fmap_app. simpl. rewrite (app_comm_cons _ _ (sb_load_source_virtual_pid sb)), app_comm_cons.
    apply NoDup_app. split_and!; [done|set_solver|apply NoDup_singleton].
  - rewrite fmap_app, Hr. set_solver.
Qed.

(** [with_native_program], for each of [programs]. *)
Fixpoint add_natives (programs : list Prog) sb : outcome SystemBuilder :=
  match programs with
  | [] => Done sb
  | program :: programs => sb ← with_native_program program sb; add_natives programs sb
  end.

(** A builder on which everything was configured. *)
Definition configured (programs : list Prog) (startup : list Module_) (hashes : list ModuleHash) :
    outcome SystemBuilder :=
  sb ← SystemBuilder_new;
  sb ← add_natives programs sb;
  Done (with_main_programs hashes (foldl (λ b p, with_startup_process p b) sb startup)).

Lemma add_natives_sound programs sb :
  builder_inv sb → Forall np_inv programs →
  wp (λ r, r = PDebugAssert) (add_natives programs sb) (λ sb', builder_inv sb' ∧
    ad_inner <$> (sb_native_programs sb').*2 = (ad_inner <$> (sb_native_programs sb).*2) ++ programs ∧
    startup_processes sb' = startup_processes sb ∧ sb_programs_to_load sb' = sb_programs_to_load sb).
Proof.
  intros Hb Hp. revert sb Hb. induction Hp as [|x l Hx _ IH]; intros sb Hb; simpl.
  { split_and!; [done| |done..]. by rewrite app_nil_r. }
  apply wp_bind. eapply wp_mono; [by apply with_native_sound|]. intros sb1 (Hb1 & (pid & Hn) & Hs1 & Hl1).
  eapply wp_mono; [by apply IH|]. intros sb2 (? & Hn2 & ? & ?). split_and!; [done| |congruence..].
  rewrite Hn2, Hn, !fmap_app. simpl. by rewrite <-app_assoc.
Qed.

Lemma add_startup_sound startup sb :
  let sb' := foldl (λ b p, with_startup_process p b) sb startup in
  (builder_inv sb → builder_inv sb') ∧ sb_native_programs sb' = sb_native_programs sb ∧
  startup_processes sb' = startup_processes sb ++ startup ∧ sb_programs_to_load sb' = sb_programs_to_load sb.
Proof.
  revert sb. induction startup as [|p l IH]; intros sb; simpl; [by rewrite app_nil_r|].
  destruct (IH (with_startup_process p sb)) as (Hi & -> & -> & ->). simpl. rewrite <-app_assoc.
  split_and!; [|done..]. intros Hb. apply Hi. by destruct Hb.
Qed.

Lemma configured_sound programs startup hashes :
  Forall np_inv programs →
  wp (λ r, r = PDebugAssert) (configured programs startup hashes) (λ sb, builder_inv sb ∧
    ad_inner <$> (sb_native_programs sb).*2 = programs ∧ startup_processes sb = startup ∧
    sb_programs_to_load sb = hashes).
Proof.
  intros Hp. unfold configured. apply wp_bind. eapply wp_mono; [apply builder_new_sound|].
  intros sb (Hb & Hn & Hs & Hl). apply wp_bind. eapply wp_mono; [by apply add_natives_sound|].
  intros sb1 (Hb1 & Hn1 & Hs1 & Hl1). simpl.
  destruct (add_startup_sound startup sb1) as (Hi & Hn2 & Hs2 & Hl2). specialize (Hi Hb1).
  rewrite Hn2, Hn1, Hn, Hs2, Hs1, Hs, Hl2, Hl1, Hl. split_and!; [by destruct Hi|done..].
Qed.

(** * Starting *)

Lemma first_handler_sound fuel i pid c :
  core_ok c → is_hash i → pid ∈ reserved_pids c → interfaces c = ∅ →
  wp no_panic (set_interface_handler fuel i pid c) (λ '(r, c'), r = inr tt ∧ core_ok c' ∧
    reserved_pids c' = reserved_pids c ∧ interfaces c' = {[ i := Is_Process pid ]}).
Proof.
  intros Hc Hi Hr Hint. unfold set_interface_handler. apply wp_Mbind, wp_zoom.
  eapply wp_mono; [by apply (process_exists_sound pid)|]. intros [b s1] (Hb & Hok1 & Hs1).
  rewrite (co_reserved _ _ _ _ Hc pid Hr), bool_decide_false in Hb by (by intros []). subst b.
  apply wp_Mbind. simpl. rewrite (bool_decide_true (pid ∈ reserved_pids c)) by done. simpl.
  apply wp_Mbind. simpl. rewrite Hint, lookup_empty. simpl.
  pose proof (register_core pid i c s1 Hc Hok1 Hs1) as Hreg. rewrite Hint in Hreg. done.
Qed.

(** The modules [ms] can be started one after the other from [c]. *)
Fixpoint can_start (ms : list Module_) c : Prop :=
  match ms with
  | [] => True
  | m :: ms => exec_ready (m_inner m) c ∧
      ∀ pid c', execute_pid m c = Done (inr pid, c') → can_start ms c'
  end.

Lemma start_all_sound ms c :
  core_ok c → can_start ms c →
  wp (λ r, ∃ mo c', mo ∈ ms ∧ instance_panics (m_inner mo) c' r) (start_all ms c) (λ '(r, c'),
    core_ok c' ∧ reserved_pids c' = reserved_pids c ∧ (r = inr tt → interfaces c' = interfaces c)).
Proof.
  revert c. induction ms as [|m ms IH]; intros c Hc Hcan; [done|]. destruct Hcan as [Hm Hrest]. cbn [start_all].
  pose proof (execute_pid_sound m c Hc Hm) as Hex. unfold mbind, M_bind.
  destruct (execute_pid m c) as [[[e|pid] c1]|r|]; simpl in *; [naive_solver|..|done].
  2:{ exists m, c. split; [by left|done]. }
  destruct Hex as (Hc1 & Hr1 & (_ & _ & Hi1 & _)). eapply wp_mono; [eapply wp_weaken; [apply IH; [done|by eapply Hrest]|]|].
  - intros r (mo & c' & ? & ?). exists mo, c'. split; [by right|done].
  - intros [r c'] (? & ? & Hi). split_and!; [done|congruence|]. intros Hr. by rewrite Hi, Hi1.
Qed.

Lemma system_build_sound fuel programs startup hashes :
  Forall np_inv programs →
  (∀ sb c c', configured programs startup hashes = Done sb → core_build (sb_core sb) = Done c →
     set_interface_handler fuel Interface.INTERFACE (interface_interface_pid sb) c = Done (inr tt, c') →
     can_start startup c') →
  wp (λ r, r = PDebugAssert ∨ ∃ mo c, mo ∈ startup ∧ instance_panics (m_inner mo) c r)
    (mbind (M := outcome) (system_build fuel) (configured programs startup hashes))
    (λ r, match r with
      | inl _ => startup ≠ []
      | inr s => system_ok s ∧ ad_inner <$> (native_programs s).*2 = programs ∧
          NoDup (native_programs s).*1 ∧ loader_pid s = 0 ∧ programs_to_load s = hashes ∧
          loading_programs s = ∅ ∧ ∃ pid, pid ∈ reserved_pids (sys_core s) ∧
            pid ∉ (native_programs s).*1 ∧ pid ≠ load_source_virtual_pid s ∧
            interfaces (sys_core s) = {[ Interface.INTERFACE := Is_Process pid ]}
      end).
Proof.
  intros Hp Hcan. pose proof (configured_sound programs startup hashes Hp) as Hconf.
  destruct (configured programs startup hashes) as [sb|r|]; simpl in *; [|by left|done].
  destruct Hconf as ([Hb Hinv Hnd Hres] & Hn & Hs & Hl).
  destruct (build_core_sound _ Hb) as (c & Hbuild & Hc & Hr & Hint & _).
  specialize (Hcan sb c). unfold system_build. rewrite Hbuild. simpl.
  pose proof (first_handler_sound fuel Interface.INTERFACE (interface_interface_pid sb) c Hc
    Interface.interface_interface_hash ltac:(rewrite Hr; apply Hres; by left) Hint) as Hset.
  destruct (set_interface_handler fuel _ _ c) as [[r c1]|r|]; simpl in *; [|done..].
  destruct Hset as (-> & Hc1 & Hr1 & Hi1). simpl. rewrite Hs.
  pose proof (start_all_sound startup c1 Hc1 (Hcan _ eq_refl Hbuild eq_refl)) as Hst.
  destruct (start_all startup c1) as [[[e|[]] c2]|r|] eqn:Hstart; simpl in *; [|..|by right|done].
  { intros ->. done. }
  destruct Hst as (Hc2 & Hr2 & Hi2). apply NoDup_cons in Hnd as [Hnd1 Hnd]. pose proof Hnd as Hnd'.
  apply NoDup_cons in Hnd' as [_ Hnd']. split_and!; try done.
  - split; simpl; [done|done|..]; rewrite Hr2, Hr1, Hr; intros; apply Hres; set_solver.
  - exists (interface_interface_pid sb). rewrite Hr2, Hr1, Hr, Hi2, Hi1 by done.
    split_and!; [apply Hres; by left|set_solver|set_solver|done].
Qed.

(** The system that the builder gives satisfies the invariant: its native
    programs are those that were added, in order and under distinct reserved
    identifiers, the [interface] interface is handled by an identifier of its
    own, no other interface has a handler, and the programs to load are those
    that were asked for.  It stops only if the pool gives the same identifier
    twice or the interpreter panics on one of the startup modules; in
    particular the registration of the first handler cannot fail. *)
Theorem system_build_ok fuel programs startup hashes :
  Forall np_inv programs →
  (∀ sb c c', configured programs startup hashes = Done sb → core_build (sb_core sb) = Done c →
     set_interface_handler fuel Interface.INTERFACE (interface_interface_pid sb) c = Done (inr tt, c') →
     can_start startup c') →
  wp (λ r, r = PDebugAssert ∨ ∃ mo c, mo ∈ startup ∧ instance_panics (m_inner mo) c r)
    (mbind (M := outcome) (system_build fuel) (configured programs startup hashes))
    (λ r, match r with
      | inl _ => startup ≠ []
      | inr s => system_ok s ∧ ad_inner <$> (native_programs s).*2 = programs ∧
          NoDup (native_programs s).*1 ∧ loader_pid s = 0 ∧ programs_to_load s = hashes ∧
          loading_programs s = ∅ ∧ ∃ pid, pid ∈ reserved_pids (sys_core s) ∧
            pid ∉ (native_programs s).*1 ∧ pid ≠ load_source_virtual_pid s ∧
            interfaces (sys_core s) = {[ Interface.INTERFACE := Is_Process pid ]}
      end).
Proof. apply system_build_sound. Qed.

End build.
