(* ===== verification/Hardware.v ===== *)
(** The handler of the hardware interface of the standalone kernel
    ([kernel/standalone/src/hardware.rs],
    [interfaces/hardware/src/ffi.rs], the trait [PlatformSpecific] of
    [kernel/standalone/src/arch.rs]).

    The hardware is the environment of a program: the program keeps the list
    of the accesses it made ([trace]), and the class [Platform] gives what
    each read sees, from the accesses before it.  Since a read is itself an
    access, no two reads have the same history, so every sequence of
    observations, also of devices that change on their own or that others
    use, is the one of some instance.  A vector that is allocated for a read is
    followed by that read, so the same holds of the allocator. *)
From S2P Require Import Prelude Ffi Messages Native.

(** * The platform *)

(** [w] is the number of bytes of the access. *)
Inductive access :=
  | MemWrite (w : nat) (address value : Z)
  | MemRead (w : nat) (address : Z)
  | PortWrite (w : nat) (port value : Z)
  | PortRead (w : nat) (port : Z)
  | WriteLog (message : bytes)
  | ReadClock
  | PollTimers
  | RdRand
  | Allocate (capacity : Z).

(** [read_volatile], [PlatformSpecific::read_port_*] ([None] is [PortErr]),
    [PlatformSpecific::monotonic_clock], and the address of a vector built by
    [Vec::with_capacity] for that many bytes ([None] if the allocation fails:
    [alloc_error_handler] of [kernel/standalone/src/mem_alloc.rs] panics).  The methods that write only leave their access in the
    trace; their [PortErr]s are ignored by the code. *)
Class Platform := {
  read_volatile : list access → nat → Z → Z;
  read_port : list access → nat → Z → option Z;
  monotonic_clock : list access → Z;
  with_capacity : list access → Z → option Z;
}.

(** An allocation does not wrap around the address space. *)
Class PlatformLaws `{Platform} := {
  with_capacity_range : ∀ tr capacity ptr, with_capacity tr capacity = Some ptr →
    1 ≤ ptr ∧ ptr + capacity ≤ u64_max;
}.

(** The memory of a machine without devices: the byte at [x] is the one that
    the last write over [x] put there, in little-endian order. *)
Definition written_byte (x : Z) (a : access) : option Z :=
  match a with
  | MemWrite w address value =>
      if bool_decide (address ≤ x < address + Z.of_nat w)
      then Some ((value ≫ (8 * (x - address))) mod 256)%Z else None
  | _ => None
  end.

Fixpoint ram_byte (x : Z) (tr : list access) : option Z :=
  match tr with
  | [] => None
  | a :: tr => match ram_byte x tr with Some b => Some b | None => written_byte x a end
  end.

Fixpoint ram_read (tr : list access) (w : nat) (address : Z) : option Z :=
  match w with
  | O => Some 0
  | S w =>
      b ← ram_byte address tr;
      rest ← ram_read tr w (address + 1);
      Some (b + 256 * rest)
  end.

Class PlatformMemory `{Platform} := {
  read_ram : ∀ tr w a v, ram_read tr w a = Some v → read_volatile tr w a = v;
}.

(** * Messages *)

Module Hardware.

Definition INTERFACE : InterfaceHash := byte_of_Z <$>
  [ 0x24; 0x5d; 0x25; 0x5e; 0x37; 0xf1; 0x8a; 0xce; 0x23; 0xd6; 0x68; 0xe9; 0xe2; 0xd8; 0xd1; 0xbc;
    0x37; 0xf3; 0xd3; 0x3c; 0xad; 0x55; 0xf8; 0xd9; 0x22; 0x3a; 0x57; 0xd1; 0x54; 0x46; 0x7b; 0x78 ].

End Hardware.

Inductive Operation :=
  | PhysicalMemoryMemset (address len value : Z)
  | PhysicalMemoryWriteU8 (address : Z) (data : list Z)
  | PhysicalMemoryWriteU16 (address : Z) (data : list Z)
  | PhysicalMemoryWriteU32 (address : Z) (data : list Z)
  | PhysicalMemoryReadU8 (address len : Z)
  | PhysicalMemoryReadU16 (address len : Z)
  | PhysicalMemoryReadU32 (address len : Z)
  | PortWriteU8 (port data : Z)
  | PortWriteU16 (port data : Z)
  | PortWriteU32 (port data : Z)
  | PortReadU8 (port : Z)
  | PortReadU16 (port : Z)
  | PortReadU32 (port : Z).

Inductive HardwareMessage :=
  | Malloc (size alignment : Z)
  | Free (ptr : Z)
  | HardwareAccess (operations : list Operation)
  | InterruptWait (int_id : Z).

Inductive HardwareAccessResponse :=
  | Resp_PhysicalMemoryReadU8 (data : list Z)
  | Resp_PhysicalMemoryReadU16 (data : list Z)
  | Resp_PhysicalMemoryReadU32 (data : list Z)
  | Resp_PortReadU8 (data : Z)
  | Resp_PortReadU16 (data : Z)
  | Resp_PortReadU32 (data : Z).

(** The codec at the types that the handlers of the kernel use. *)
Class ScaleHandlers := {
  encode_interface_message : Interface.InterfaceMessage → EncodedMessage;
  decode_hardware : EncodedMessage → option HardwareMessage;
  encode_access_responses : list HardwareAccessResponse → EncodedMessage;
  encode_u64 : Z → EncodedMessage;
  encode_u128 : Z → EncodedMessage;
  encode_unit : EncodedMessage;
  decode_time : EncodedMessage → option Time.TimeMessage;
  decode_system_time : EncodedMessage → option SystemTime.TimeMessage;
  decode_random : EncodedMessage → option Random.RandomMessage;
  encode_generate_response : Random.GenerateResponse → EncodedMessage;
}.

(** The address of the operation is a [u64]. *)
Definition op_ok (op : Operation) : Prop :=
  match op with
  | PhysicalMemoryMemset a _ _ | PhysicalMemoryWriteU8 a _ | PhysicalMemoryWriteU16 a _
  | PhysicalMemoryWriteU32 a _ | PhysicalMemoryReadU8 a _ | PhysicalMemoryReadU16 a _
  | PhysicalMemoryReadU32 a _ => 0 ≤ a ≤ u64_max
  | _ => True
  end.

(** Decoded integers are in the range of their types. *)
Class ScaleHandlersLaws `{Scale} `{ScaleHandlers} := {
  interface_message_roundtrip : ∀ h, is_hash h →
    decode_interface_message (encode_interface_message (Interface.Register h)) = Some (Interface.Register h);
  decode_malloc_range : ∀ bs size alignment, decode_hardware bs = Some (Malloc size alignment) →
    0 ≤ size ≤ u64_max ∧ 0 ≤ alignment ≤ u8_max;
  decode_access_range : ∀ bs ops, decode_hardware bs = Some (HardwareAccess ops) → Forall op_ok ops;
  decode_generate_range : ∀ bs len, decode_random bs = Some (Random.Generate len) → 0 ≤ len ≤ u16_max;
}.

(** * A program that answers requests *)

(** [registered] and [pending_messages], which the programs of the standalone
    kernel all have. *)
Record Requests := {
  rq_registered : bool;
  pending_messages : list (MessageId * (unit + EncodedMessage));
}.

Definition no_requests : Requests := {| rq_registered := false; pending_messages := [] |}.

(** [next_event] of these programs, polled: they ask for their interface the
    first time, and then give the answers that are ready. *)
Definition requests_next_event `{ScaleHandlers} {W} (interface : InterfaceHash) :
    M Requests (Poll (NativeProgramEvent W)) :=
  r ← get;
  if negb (rq_registered r) then
    _ ← put {| rq_registered := true; pending_messages := pending_messages r |};
    mret (Ready (NpEmit Interface.INTERFACE None (encode_interface_message (Interface.Register interface))))
  else
    match pending_messages r with
    | (message_id, answer) :: rest =>
        _ ← put {| rq_registered := true; pending_messages := rest |};
        mret (Ready (NpAnswer message_id answer))
    | [] => mret Pending
    end.

(** [self.pending_messages.push((message_id, answer))]. *)
Definition push_answer (message_id : MessageId) (answer : unit + EncodedMessage) : M Requests unit :=
  modify (λ r, {| rq_registered := rq_registered r;
                  pending_messages := pending_messages r ++ [(message_id, answer)] |}).

(** [if let Some(message_id) = message_id { .. }]. *)
Definition push_answer_if (message_id : option MessageId) (answer : unit + EncodedMessage) :
    M Requests unit :=
  match message_id with Some id => push_answer id answer | None => mret tt end.

(** * The handler *)

(** A [Vec<u8>]: where it is, how much it can hold, how much it holds. *)
Record Buffer := { buf_ptr : Z; buf_capacity : Z; buf_len : Z }.

Record HardwareHandler := {
  hh_requests : Requests;
  hh_trace : list access;
  allocations : gmap Pid (list Buffer);
}.

Section hardware.
Context `{Platform} `{ScaleHandlers}.

Definition HardwareHandler_new : HardwareHandler :=
  {| hh_requests := no_requests; hh_trace := []; allocations := ∅ |}.

(** ** Operations *)

(** [address.checked_add(n)] on a [usize] or a [u64]. *)
Definition checked_add_u64 (a n : Z) : option Z := u64_try_from (a + n).

Definition record (a : access) : M (list access) unit := modify (λ tr, tr ++ [a]).

Definition read_phys (w : nat) (address : Z) : M (list access) Z :=
  v ← gets (λ tr, read_volatile tr w address);
  _ ← record (MemRead w address);
  mret v.

(** The loop of [PhysicalMemoryMemset]. *)
Fixpoint memset (len : nat) (address value : Z) : M (list access) unit :=
  match len with
  | O => mret tt
  | S len =>
      _ ← record (MemWrite 1 address value);
      match checked_add_u64 address 1 with
      | Some addr_next => memset len addr_next value
      | None => mret tt
      end
  end.

(** The loops of [PhysicalMemoryWriteU8], [U16] and [U32], for a width of [w]
    bytes. *)
Fixpoint write_list (w : nat) (data : list Z) (address : Z) : M (list access) unit :=
  match data with
  | [] => mret tt
  | x :: data =>
      _ ← record (MemWrite w address x);
      match checked_add_u64 address (Z.of_nat w) with
      | Some addr_next => write_list w data addr_next
      | None => mret tt
      end
  end.

(** The loops of [PhysicalMemoryReadU8], [U16] and [U32]. *)
Fixpoint read_list (w : nat) (len : nat) (address : option Z) : M (list access) (list Z) :=
  match len with
  | O => mret []
  | S len =>
      match address with
      | Some addr =>
          x ← read_phys w addr;
          out ← read_list w len (checked_add_u64 addr (Z.of_nat w));
          mret (x :: out)
      | None =>
          out ← read_list w len None;
          mret (0 :: out)
      end
  end.

(** [platform_specific.read_port_*(port).unwrap_or(0)]. *)
Definition read_port_or_0 (w : nat) (port : Z) : M (list access) Z :=
  v ← gets (λ tr, default 0 (read_port tr w port));
  _ ← record (PortRead w port);
  mret v.

(** Whether a vector of [bytes] bytes is allocated: nothing is allocated for
    zero bytes, and more than [isize::MAX] is a capacity overflow. *)
Definition isize_max : Z := 2 ^ 63 - 1.
Definition can_allocate (tr : list access) (bytes : Z) : bool :=
  bool_decide (bytes ≤ 0) ||
  (bool_decide (bytes ≤ isize_max) && bool_decide (is_Some (with_capacity tr bytes))).

(** [Vec::with_capacity(len as usize)], for elements of [w] bytes. *)
Definition vec_with_capacity (w : nat) (len : Z) : M (list access) unit :=
  ok ← gets (λ tr : list access, can_allocate tr (Z.of_nat w * len));
  if (ok : bool) then mret tt else panic PExplicit.

Definition perform_operation (operation : Operation) :
    M (list access) (option HardwareAccessResponse) :=
  match operation with
  | PhysicalMemoryMemset address len value =>
      _ ← match usize_try_from address with
          | Some address => memset (Z.to_nat len) address value
          | None => mret tt
          end;
      mret None
  | PhysicalMemoryWriteU8 address data =>
      _ ← match usize_try_from address with
          | Some address => write_list 1 data address
          | None => mret tt
          end;
      mret None
  | PhysicalMemoryWriteU16 address data =>
      _ ← match usize_try_from address with
          | Some address => write_list 2 data address
          | None => mret tt
          end;
      mret None
  | PhysicalMemoryWriteU32 address data =>
      _ ← match usize_try_from address with
          | Some address => write_list 4 data address
          | None => mret tt
          end;
      mret None
  | PhysicalMemoryReadU8 address len =>
      _ ← vec_with_capacity 1 len;
      out ← read_list 1 (Z.to_nat len) (Some address);
      mret (Some (Resp_PhysicalMemoryReadU8 out))
  | PhysicalMemoryReadU16 address len =>
      _ ← vec_with_capacity 2 len;
      out ← read_list 2 (Z.to_nat len) (Some address);
      mret (Some (Resp_PhysicalMemoryReadU16 out))
  | PhysicalMemoryReadU32 address len =>
      _ ← vec_with_capacity 4 len;
      out ← read_list 4 (Z.to_nat len) (Some address);
      mret (Some (Resp_PhysicalMemoryReadU32 out))
  | PortWriteU8 port data => _ ← record (PortWrite 1 port data); mret None
  | PortWriteU16 port data => _ ← record (PortWrite 2 port data); mret None
  | PortWriteU32 port data => _ ← record (PortWrite 4 port data); mret None
  | PortReadU8 port => x ← read_port_or_0 1 port; mret (Some (Resp_PortReadU8 x))
  | PortReadU16 port => x ← read_port_or_0 2 port; mret (Some (Resp_PortReadU16 x))
  | PortReadU32 port => x ← read_port_or_0 4 port; mret (Some (Resp_PortReadU32 x))
  end.

(** [for operation in operations]. *)
Fixpoint perform_all (operations : list Operation) :
    M (list access) (list HardwareAccessResponse) :=
  match operations with
  | [] => mret []
  | operation :: operations =>
      outcome ← perform_operation operation;
      response ← perform_all operations;
      mret (match outcome with Some r => r :: response | None => response end)
  end.

(** ** Allocations *)

(** [while ptr % u64::from(alignment) != 0 { ptr += 1; }] *)
Fixpoint align_up (fuel : nat) (alignment ptr : Z) : outcome Z :=
  match fuel with
  | O => NoFuel
  | S fuel =>
      if bool_decide (alignment = 0) then Panic PDivZero else
      if bool_decide (ptr mod alignment ≠ 0) then
        ptr ← uint_checked u64_max (ptr + 1);
        align_up fuel alignment ptr
      else Done ptr
  end.

(** The fuel is the number of values of [alignment], a [u8]. *)
Definition ALIGN_FUEL : nat := 256.

(** What [list.retain] keeps in [Free]. *)
Definition retained (ptr : Z) (e : Buffer) : bool :=
  bool_decide (ptr < buf_ptr e) || bool_decide (buf_ptr e + buf_len e ≤ ptr).

Definition on_requests {A} (m : M Requests A) : M HardwareHandler A :=
  zoom hh_requests (λ r h, {| hh_requests := r; hh_trace := hh_trace h; allocations := allocations h |}) m.
Definition on_trace {A} (m : M (list access) A) : M HardwareHandler A :=
  zoom hh_trace (λ tr h, {| hh_requests := hh_requests h; hh_trace := tr; allocations := allocations h |}) m.
Definition with_allocations (a : gmap Pid (list Buffer)) (h : HardwareHandler) : HardwareHandler :=
  {| hh_requests := hh_requests h; hh_trace := hh_trace h; allocations := a |}.

(** [Vec::with_capacity(capacity)]. *)
Definition new_buffer (capacity : Z) : M (list access) Buffer :=
  ptr ← gets (λ tr, with_capacity tr capacity);
  _ ← record (Allocate capacity);
  match ptr with
  | Some ptr => mret {| buf_ptr := ptr; buf_capacity := capacity; buf_len := 0 |}
  | None => panic PExplicit
  end.

Definition malloc (size alignment : Z) (message_id : option MessageId) (emitter_pid : Pid) :
    M HardwareHandler unit :=
  size ← liftM (match usize_try_from size with Some s => Done s | None => Panic PExplicit end);
  n ← liftM (uint_checked usize_max (size + alignment));
  capacity ← liftM (uint_checked usize_max (n - 1));
  buffer ← on_trace (new_buffer capacity);
  ptr ← liftM (match u64_try_from (buf_ptr buffer) with Some p => Done p | None => Panic PExplicit end);
  ptr ← liftM (align_up ALIGN_FUEL alignment ptr);
  _ ← modify (λ h, with_allocations (<[emitter_pid :=
        default [] (allocations h !! emitter_pid) ++ [buffer]]> (allocations h)) h);
  on_requests (push_answer_if message_id (inr (encode_u64 ptr))).

Definition free (ptr : Z) (emitter_pid : Pid) : M HardwareHandler unit :=
  match usize_try_from ptr with
  | Some ptr => modify (λ h,
      match allocations h !! emitter_pid with
      | Some list => with_allocations (<[emitter_pid := filter (λ e, retained ptr e) list]> (allocations h)) h
      | None => h
      end)
  | None => mret tt
  end.

(** ** [impl NativeProgramRef for &HardwareHandler] *)

Definition hardware_next_event {W} : M HardwareHandler (Poll (NativeProgramEvent W)) :=
  on_requests (requests_next_event Hardware.INTERFACE).

Definition hardware_interface_message (interface : InterfaceHash) (message_id : option MessageId)
    (emitter_pid : Pid) (message : EncodedMessage) : M HardwareHandler unit :=
  _ ← liftM (debug_assert (bool_decide (interface = Hardware.INTERFACE)));
  match decode_hardware message with
  | Some (HardwareAccess operations) =>
      response ← on_trace (perform_all operations);
      match message_id with
      | Some message_id =>
          if bool_decide (response ≠ []) then
            on_requests (push_answer message_id (inr (encode_access_responses response)))
          else mret tt
      | None => mret tt
      end
  | Some (Malloc size alignment) => malloc size alignment message_id emitter_pid
  | Some (Free ptr) => free ptr emitter_pid
  | Some (InterruptWait _) => panic PUnimplemented
  | None => on_requests (push_answer_if message_id (inl tt))
  end.

Definition hardware_process_destroyed (pid : Pid) : M HardwareHandler unit :=
  modify (λ h, with_allocations (delete pid (allocations h)) h).

Definition hardware_message_response (id : MessageId) (r : unit + EncodedMessage) :
    M HardwareHandler unit := panic PUnreachable.

(** * What the operations do *)

(** The addresses of [n] elements of [w] bytes from [a] on, up to the end of
    the address space. *)
Definition addresses (w : Z) (n : nat) (a : Z) : list Z :=
  (λ i, a + Z.of_nat i * w) <$> seq 0 (Z.to_nat (Z.min (Z.of_nat n) ((u64_max - a) / w + 1))).

Lemma addresses_step w n a :
  0 < w → 0 ≤ a ≤ u64_max →
  addresses w (S n) a = a :: match checked_add_u64 a w with Some a' => addresses w n a' | None => [] end.
Proof.
  intros Hw Ha. unfold addresses, checked_add_u64.
  destruct (uint_try_from u64_max (a + w)) as [a'|] eqn:Hadd.
  - apply uint_try_from_Some in Hadd as [-> Hadd].
    assert (Hq : (u64_max - a) / w = (u64_max - (a + w)) / w + 1).
    { rewrite <-Z.div_add by lia. f_equal. lia. }
    assert (0 ≤ (u64_max - (a + w)) / w) by (apply Z.div_pos; lia).
    replace (Z.to_nat (Z.min (Z.of_nat (S n)) ((u64_max - a) / w + 1)))
      with (S (Z.to_nat (Z.min (Z.of_nat n) ((u64_max - (a + w)) / w + 1)))) by lia.
    cbn [seq fmap list_fmap]. f_equal; [lia|]. rewrite <-fmap_S_seq, <-list_fmap_compose.
    apply list_fmap_ext. intros _ i _. simpl. lia.
  - apply uint_try_from_None in Hadd. rewrite (Z.div_small (u64_max - a) w) by lia.
    replace (Z.to_nat (Z.min (Z.of_nat (S n)) (0 + 1))) with 1%nat by lia. simpl. f_equal. lia.
Qed.

Lemma addresses_0 w a : addresses w 0 a = [].
Proof. unfold addresses. by replace (Z.to_nat _) with 0%nat by lia. Qed.

Lemma length_addresses w n a : (length (addresses w n a) ≤ n)%nat.
Proof. unfold addresses. rewrite length_fmap, length_seq. lia. Qed.

(** The values read at [addrs], one after the other. *)
Fixpoint reads_at (tr : list access) (w : nat) (addrs : list Z) : list Z :=
  match addrs with
  | [] => []
  | a :: addrs => read_volatile tr w a :: reads_at (tr ++ [MemRead w a]) w addrs
  end.

Lemma length_reads_at tr w addrs : length (reads_at tr w addrs) = length addrs.
Proof. revert tr. induction addrs; intros; simpl; auto. Qed.

(** The accesses that an operation makes, and what it answers with. *)
Definition op_accesses (op : Operation) : list access :=
  match op with
  | PhysicalMemoryMemset a len v => (λ x, MemWrite 1 x v) <$> addresses 1 (Z.to_nat len) a
  | PhysicalMemoryWriteU8 a data => zip_with (MemWrite 1) (addresses 1 (length data) a) data
  | PhysicalMemoryWriteU16 a data => zip_with (MemWrite 2) (addresses 2 (length data) a) data
  | PhysicalMemoryWriteU32 a data => zip_with (MemWrite 4) (addresses 4 (length data) a) data
  | PhysicalMemoryReadU8 a len => MemRead 1 <$> addresses 1 (Z.to_nat len) a
  | PhysicalMemoryReadU16 a len => MemRead 2 <$> addresses 2 (Z.to_nat len) a
  | PhysicalMemoryReadU32 a len => MemRead 4 <$> addresses 4 (Z.to_nat len) a
  | PortWriteU8 port data => [PortWrite 1 port data]
  | PortWriteU16 port data => [PortWrite 2 port data]
  | PortWriteU32 port data => [PortWrite 4 port data]
  | PortReadU8 port => [PortRead 1 port]
  | PortReadU16 port => [PortRead 2 port]
  | PortReadU32 port => [PortRead 4 port]
  end.

(** Past the end of the address space, a read gives zeros. *)
Definition padded_reads (tr : list access) (w : nat) (len : Z) (a : Z) : list Z :=
  let addrs := addresses (Z.of_nat w) (Z.to_nat len) a in
  reads_at tr w addrs ++ replicate (Z.to_nat len - length addrs) 0.

Definition op_response (tr : list access) (op : Operation) : option HardwareAccessResponse :=
  match op with
  | PhysicalMemoryReadU8 a len => Some (Resp_PhysicalMemoryReadU8 (padded_reads tr 1 len a))
  | PhysicalMemoryReadU16 a len => Some (Resp_PhysicalMemoryReadU16 (padded_reads tr 2 len a))
  | PhysicalMemoryReadU32 a len => Some (Resp_PhysicalMemoryReadU32 (padded_reads tr 4 len a))
  | PortReadU8 port => Some (Resp_PortReadU8 (default 0 (read_port tr 1 port)))
  | PortReadU16 port => Some (Resp_PortReadU16 (default 0 (read_port tr 2 port)))
  | PortReadU32 port => Some (Resp_PortReadU32 (default 0 (read_port tr 4 port)))
  | _ => None
  end.

Lemma memset_run n a v tr :
  0 ≤ a ≤ u64_max → memset n a v tr = Done (tt, tr ++ ((λ x, MemWrite 1 x v) <$> addresses 1 n a)).
Proof.
  revert a tr. induction n as [|n IH]; intros a tr Ha; simpl.
  { by rewrite addresses_0, app_nil_r. }
  rewrite addresses_step by lia. unfold mbind, M_bind, record, modify. cbn [fmap list_fmap].
  destruct (checked_add_u64 a 1) as [a'|] eqn:Hadd; [|done].
  apply uint_try_from_Some in Hadd as [-> ?]. rewrite IH by done. by rewrite <-app_assoc.
Qed.

Lemma write_list_run w data a tr :
  (0 < w)%nat → 0 ≤ a ≤ u64_max →
  write_list w data a tr = Done (tt, tr ++ zip_with (MemWrite w) (addresses (Z.of_nat w) (length data) a) data).
Proof.
  intros Hw. revert a tr. induction data as [|x data IH]; intros a tr Ha; simpl.
  { by rewrite addresses_0, app_nil_r. }
  rewrite addresses_step by lia. unfold mbind, M_bind, record, modify. cbn [zip_with].
  destruct (checked_add_u64 a (Z.of_nat w)) as [a'|] eqn:Hadd; [|done].
  apply uint_try_from_Some in Hadd as [-> ?]. rewrite IH by done. by rewrite <-app_assoc.
Qed.

Lemma read_none w n tr : read_list w n None tr = Done (replicate n 0, tr).
Proof.
  induction n as [|n IH]; simpl; [done|]. unfold mbind, M_bind. by rewrite IH.
Qed.

Lemma read_phys_run w a tr :
  read_phys w a tr = Done (read_volatile tr w a, tr ++ [MemRead w a]).
Proof. done. Qed.

Lemma read_list_run w n a tr :
  (0 < w)%nat → 0 ≤ a ≤ u64_max →
  let addrs := addresses (Z.of_nat w) n a in
  read_list w n (Some a) tr
  = Done (reads_at tr w addrs ++ replicate (n - length addrs) 0, tr ++ (MemRead w <$> addrs)).
Proof.
  intros Hw. revert a tr. induction n as [|n IH]; intros a tr Ha addrs; subst addrs.
  { rewrite addresses_0. simpl. by rewrite app_nil_r. }
  rewrite addresses_step by lia. cbn [read_list]. unfold mbind, M_bind at 1. rewrite read_phys_run.
  unfold M_bind. destruct (checked_add_u64 a (Z.of_nat w)) as [a'|] eqn:Hadd.
  - apply uint_try_from_Some in Hadd as [-> ?]. rewrite IH by done. simpl. by rewrite <-app_assoc.
  - rewrite read_none. simpl. by rewrite Nat.sub_0_r.
Qed.

Lemma usize_ok a : 0 ≤ a ≤ u64_max → usize_try_from a = Some a.
Proof. intros Ha. by apply uint_try_from_Some. Qed.

(** The bytes of the vector that an operation allocates. *)
Definition op_bytes (op : Operation) : Z :=
  match op with
  | PhysicalMemoryReadU8 _ len => len
  | PhysicalMemoryReadU16 _ len => 2 * len
  | PhysicalMemoryReadU32 _ len => 4 * len
  | _ => 0
  end.

Lemma can_allocate_0 tr : can_allocate tr 0 = true.
Proof. done. Qed.

Lemma vec_with_capacity_run w len tr :
  vec_with_capacity w len tr =
    if can_allocate tr (Z.of_nat w * len) then Done (tt, tr) else Panic PExplicit.
Proof. unfold vec_with_capacity, mbind, M_bind, gets. by destruct (can_allocate _ _). Qed.

Lemma perform_operation_run op tr :
  op_ok op → perform_operation op tr =
    if can_allocate tr (op_bytes op) then Done (op_response tr op, tr ++ op_accesses op)
    else Panic PExplicit.
Proof.
  intros Ha. unfold padded_reads. destruct op; simpl in *; try rewrite (usize_ok _ Ha);
    unfold mbind, M_bind; rewrite ?vec_with_capacity_run, ?Z.mul_1_l;
    first [ by rewrite memset_run | by rewrite write_list_run by lia
          | destruct (can_allocate _ _); [by rewrite read_list_run by lia|done] | done ].
Qed.

(** The responses of the operations, each seeing the accesses before it. *)
Fixpoint responses (tr : list access) (ops : list Operation) : list HardwareAccessResponse :=
  match ops with
  | [] => []
  | op :: ops => option_list (op_response tr op) ++ responses (tr ++ op_accesses op) ops
  end.

(** The allocator serves the reads among the operations. *)
Fixpoint allocates (tr : list access) (ops : list Operation) : bool :=
  match ops with
  | [] => true
  | op :: ops => can_allocate tr (op_bytes op) && allocates (tr ++ op_accesses op) ops
  end.

Lemma perform_all_run ops tr :
  Forall op_ok ops →
  perform_all ops tr =
    if allocates tr ops then Done (responses tr ops, tr ++ concat (op_accesses <$> ops))
    else Panic PExplicit.
Proof.
  intros Hops. revert tr. induction Hops as [|op ops Hop _ IH]; intros tr; simpl.
  { by rewrite app_nil_r. }
  unfold mbind, M_bind. rewrite perform_operation_run by done.
  destruct (can_allocate _ _); [|done]. rewrite IH. simpl. destruct (allocates _ ops); [|done].
  rewrite <-app_assoc. by destruct (op_response tr op).
Qed.

(** Operations that allocate nothing. *)
Lemma allocates_free ops tr : Forall (λ op, op_bytes op = 0) ops → allocates tr ops = true.
Proof. intros Hops. revert tr. induction Hops as [|op ops Hop _ IH]; intros tr; simpl; [done|]. by rewrite Hop, IH. Qed.

(** If the allocator always has [n] bytes, it serves reads of [n] bytes. *)
Lemma can_allocate_up_to n bytes tr : n ≤ isize_max →
  (∀ b, 0 < b ≤ n → is_Some (with_capacity tr b)) → bytes ≤ n → can_allocate tr bytes = true.
Proof.
  intros Hn Hall Hb. unfold can_allocate. case_bool_decide; [done|].
  rewrite !bool_decide_true; [done|apply Hall; lia|lia].
Qed.

Lemma hardware_access_run (message_id : option MessageId) (pid : Pid) (message : EncodedMessage)
    (ops : list Operation) (h : HardwareHandler) :
  decode_hardware message = Some (HardwareAccess ops) → Forall op_ok ops →
  let rs := responses (hh_trace h) ops in
  hardware_interface_message Hardware.INTERFACE message_id pid message h =
  if negb (allocates (hh_trace h) ops) then Panic PExplicit else
  Done (tt, {|
    hh_requests := match message_id with
      | Some id => if bool_decide (rs ≠ []) then
          {| rq_registered := rq_registered (hh_requests h);
             pending_messages := pending_messages (hh_requests h)
               ++ [(id, inr (encode_access_responses rs))] |}
        else hh_requests h
      | None => hh_requests h
      end;
    hh_trace := hh_trace h ++ concat (op_accesses <$> ops);
    allocations := allocations h |}).
Proof.
  intros Hdec Hops rs. unfold hardware_interface_message. rewrite bool_decide_true by done.
  rewrite Hdec. unfold mbind, M_bind, liftM, debug_assert, on_trace, zoom.
  rewrite perform_all_run by done. fold rs. destruct (allocates _ _); [|done].
  destruct message_id as [id|]; [|done]. by case_bool_decide.
Qed.

(** C15: if the allocator serves the vectors of the reads of a request for
    hardware accesses, the request performs exactly the accesses of its
    operations, in their order, up to the end of the address space where
    zeros stand for what is read; if some operation reads and the emitter
    wants an answer, one answer is queued, with a response per operation that
    reads, each from the state of the hardware after the accesses before it.
    If the allocator fails on one of these vectors, the kernel panics. *)
Theorem hardware_access_ok `{Scale} `{!ScaleHandlersLaws} (message_id : option MessageId) (pid : Pid) (message : EncodedMessage)
    (ops : list Operation) (h : HardwareHandler) :
  decode_hardware message = Some (HardwareAccess ops) →
  let rs := responses (hh_trace h) ops in
  hardware_interface_message Hardware.INTERFACE message_id pid message h =
  if negb (allocates (hh_trace h) ops) then Panic PExplicit else
  Done (tt, {|
    hh_requests := match message_id with
      | Some id => if bool_decide (rs ≠ []) then
          {| rq_registered := rq_registered (hh_requests h);
             pending_messages := pending_messages (hh_requests h)
               ++ [(id, inr (encode_access_responses rs))] |}
        else hh_requests h
      | None => hh_requests h
      end;
    hh_trace := hh_trace h ++ concat (op_accesses <$> ops);
    allocations := allocations h |}).
Proof. intros Hdec. by apply hardware_access_run, (decode_access_range _ _ Hdec). Qed.

(** A large enough read stops the kernel: more than the memory of the machine
    for a program that is allowed to use the hardware interface. *)
Lemma large_read_panics `{Scale} `{!ScaleHandlersLaws} message_id pid message a len h :
  decode_hardware message = Some (HardwareAccess [PhysicalMemoryReadU8 a len]) →
  0 < len → with_capacity (hh_trace h) len = None →
  hardware_interface_message Hardware.INTERFACE message_id pid message h = Panic PExplicit.
Proof.
  intros Hdec Hlen Hcap. rewrite (hardware_access_run _ _ _ _ _ Hdec) by (by eapply decode_access_range).
  cbn [allocates op_bytes]. unfold can_allocate. rewrite Hcap, (bool_decide_false (len ≤ 0)) by lia.
  by rewrite (bool_decide_false (is_Some None)), andb_false_r by apply is_Some_None.
Qed.

(** ** Memory *)

Lemma ram_byte_snoc x tr a :
  ram_byte x (tr ++ [a]) = match written_byte x a with Some b => Some b | None => ram_byte x tr end.
Proof.
  induction tr as [|a' tr IH]; simpl; [by destruct (written_byte x a)|]. rewrite IH.
  by destruct (written_byte x a), (ram_byte x tr).
Qed.

Lemma ram_read_ext tr tr' w a :
  (∀ x, a ≤ x < a + Z.of_nat w → ram_byte x tr = ram_byte x tr') → ram_read tr w a = ram_read tr' w a.
Proof.
  revert a. induction w as [|w IH]; intros a Hx; simpl; [done|].
  rewrite Hx by lia. rewrite (IH (a + 1)) by (intros; apply Hx; lia). done.
Qed.

Lemma shiftr_byte_step v i :
  0 ≤ i → (v ≫ (8 * i) = (v ≫ (8 * i)) mod 256 + 256 * (v ≫ (8 * (i + 1))))%Z.
Proof.
  intros Hi. replace (8 * (i + 1)) with (8 * i + 8) by lia.
  rewrite <-(Z.shiftr_shiftr v (8 * i) 8) by lia. rewrite (Z.shiftr_div_pow2 (v ≫ (8 * i)) 8) by lia.
  pose proof (Z.div_mod (v ≫ (8 * i)) 256). change (2 ^ 8) with 256. lia.
Qed.

Lemma ram_read_suffix tr w a v n i :
  (i + n = w)%nat → 0 ≤ v < 2 ^ (8 * Z.of_nat w) →
  ram_read (tr ++ [MemWrite w a v]) n (a + Z.of_nat i) = Some (v ≫ (8 * Z.of_nat i))%Z.
Proof.
  intros Hin Hv. revert i Hin. induction n as [|n IH]; intros i Hin; simpl.
  - f_equal. rewrite Z.shiftr_div_pow2 by lia. replace i with w by lia. symmetry. by apply Z.div_small.
  - rewrite ram_byte_snoc. simpl. rewrite bool_decide_true by lia. simpl.
    replace (a + Z.of_nat i + 1) with (a + Z.of_nat (S i)) by lia. rewrite IH by lia. simpl. f_equal.
    replace (a + Z.of_nat i - a) with (Z.of_nat i) by lia.
    rewrite Nat2Z.inj_succ. symmetry. apply shiftr_byte_step. lia.
Qed.

Lemma ram_read_write tr w a v :
  0 ≤ v < 2 ^ (8 * Z.of_nat w) → ram_read (tr ++ [MemWrite w a v]) w a = Some v.
Proof.
  intros Hv. pose proof (ram_read_suffix tr w a v w 0 eq_refl Hv) as Hr.
  by rewrite Z.add_0_r, Z.mul_0_r, Z.shiftr_0_r in Hr.
Qed.

Lemma ram_read_other tr w a w' a' v :
  (a + Z.of_nat w ≤ a' ∨ a' + Z.of_nat w' ≤ a) →
  ram_read (tr ++ [MemWrite w' a' v]) w a = ram_read tr w a.
Proof.
  intros Hdis. apply ram_read_ext. intros x Hx. rewrite ram_byte_snoc. simpl.
  by rewrite bool_decide_false by lia.
Qed.

Lemma ram_read_read tr w a w' a' : ram_read (tr ++ [MemRead w' a']) w a = ram_read tr w a.
Proof. apply ram_read_ext. intros x _. by rewrite ram_byte_snoc. Qed.

(** [n] consecutive elements that fit in the address space. *)
Fixpoint addrs_from (w : Z) (n : nat) (a : Z) : list Z :=
  match n with O => [] | S n => a :: addrs_from w n (a + w) end.

Lemma addresses_fit w n a :
  0 < w → 0 ≤ a → a + Z.of_nat n * w ≤ u64_max + 1 → addresses w n a = addrs_from w n a.
Proof.
  intros Hw. revert a. induction n as [|n IH]; intros a Ha Hfit; [apply addresses_0|].
  rewrite addresses_step by nia. simpl. f_equal.
  destruct (checked_add_u64 a w) as [a'|] eqn:Hadd.
  - apply uint_try_from_Some in Hadd as [-> ?]. apply IH; lia.
  - apply uint_try_from_None in Hadd. assert (n = 0%nat) as -> by nia. done.
Qed.

Definition writes (w : nat) (data : list Z) (a : Z) : list access :=
  zip_with (MemWrite w) (addrs_from (Z.of_nat w) (length data) a) data.

Lemma ram_read_before tr w data a b :
  b + Z.of_nat w ≤ a → ram_read (tr ++ writes w data a) w b = ram_read tr w b.
Proof.
  revert tr a. induction data as [|x data IH]; intros tr a Hb; [by rewrite app_nil_r|].
  change (writes w (x :: data) a) with ([MemWrite w a x] ++ writes w data (a + Z.of_nat w)).
  rewrite (assoc_L (++)), IH by lia. apply ram_read_other. lia.
Qed.

Definition fits_width (w : nat) (v : Z) : Prop := 0 ≤ v < 2 ^ (8 * Z.of_nat w).

Lemma ram_read_writes tr w data a :
  Forall (fits_width w) data →
  Forall2 (λ b v, ram_read (tr ++ writes w data a) w b = Some v)
    (addrs_from (Z.of_nat w) (length data) a) data.
Proof.
  intros Hv. revert tr a. induction Hv as [|x data Hx _ IH]; intros tr a; simpl; [constructor|].
  change (writes w (x :: data) a) with ([MemWrite w a x] ++ writes w data (a + Z.of_nat w)).
  rewrite (assoc_L (++)). constructor; [|apply IH].
  rewrite ram_read_before by lia. by apply ram_read_write.
Qed.

Lemma reads_at_ram `{!PlatformMemory} tr w addrs data :
  Forall2 (λ b v, ram_read tr w b = Some v) addrs data → reads_at tr w addrs = data.
Proof.
  revert tr data. induction addrs as [|b addrs IH]; intros tr data Hram;
    inversion Hram as [|? v ? data' Hb Hrest]; subst; [done|]. simpl. f_equal; [by apply read_ram|].
  apply IH. eapply Forall2_impl; [exact Hrest|]. intros. by rewrite ram_read_read.
Qed.

Lemma padded_reads_ram `{!PlatformMemory} tr w data a :
  (0 < w)%nat → 0 ≤ a → a + Z.of_nat (length data) * Z.of_nat w ≤ u64_max + 1 →
  Forall (fits_width w) data →
  padded_reads (tr ++ zip_with (MemWrite w) (addresses (Z.of_nat w) (length data) a) data) w
    (Z.of_nat (length data)) a = data.
Proof.
  intros Hw Ha Hfit Hv. unfold padded_reads. rewrite Nat2Z.id, addresses_fit by lia.
  pose proof (ram_read_writes tr w data a Hv) as Hram. unfold writes in Hram.
  pose proof (Forall2_length _ _ _ Hram) as Hlen. rewrite (reads_at_ram _ _ _ _ Hram), Hlen.
  by rewrite Nat.sub_diag, app_nil_r.
Qed.

(** The write and the read of elements of [w] bytes. *)
Definition write_op (w : nat) (a : Z) (data : list Z) : Operation :=
  match w with
  | 1%nat => PhysicalMemoryWriteU8 a data
  | 2%nat => PhysicalMemoryWriteU16 a data
  | _ => PhysicalMemoryWriteU32 a data
  end.
Definition read_op (w : nat) (a len : Z) : Operation :=
  match w with
  | 1%nat => PhysicalMemoryReadU8 a len
  | 2%nat => PhysicalMemoryReadU16 a len
  | _ => PhysicalMemoryReadU32 a len
  end.
Definition read_resp (w : nat) (data : list Z) : HardwareAccessResponse :=
  match w with
  | 1%nat => Resp_PhysicalMemoryReadU8 data
  | 2%nat => Resp_PhysicalMemoryReadU16 data
  | _ => Resp_PhysicalMemoryReadU32 data
  end.

(** In memory, what one operation writes the next one reads, at the three
    widths, for as many elements as the address space holds. *)
Theorem hardware_memory_roundtrip `{!PlatformMemory} (w : nat) (a : Z) (data : list Z)
    (tr : list access) :
  w ∈ [1; 2; 4]%nat → 0 ≤ a ≤ u64_max → a + Z.of_nat (length data) * Z.of_nat w ≤ u64_max + 1 →
  Forall (fits_width w) data →
  allocates tr [write_op w a data; read_op w a (Z.of_nat (length data))] = true →
  fst <$> perform_all [write_op w a data; read_op w a (Z.of_nat (length data))] tr
  = Done [read_resp w data].
Proof.
  intros Hw Ha Hfit Hv Hall. rewrite perform_all_run.
  - rewrite Hall. simpl. repeat f_equal. rewrite !elem_of_cons, elem_of_nil in Hw.
    destruct Hw as [->|[->|[->|[]]]]; simpl; do 2 f_equal; (apply padded_reads_ram; [lia..|done]).
  - rewrite !elem_of_cons, elem_of_nil in Hw.
    by destruct Hw as [->|[->|[->|[]]]]; rewrite !Forall_cons, Forall_nil.
Qed.

(** ** Allocations *)

Lemma opp_mod_succ p al :
  0 < al → p mod al ≠ 0 → (- p) mod al = (- (p + 1)) mod al + 1.
Proof.
  intros Hal Hp. pose proof (Z.mod_pos_bound p al Hal). pose proof (Z.div_mod p al).
  rewrite <-(Z.mod_unique_pos (- p) al (- (p / al) - 1) (al - p mod al)) by lia.
  rewrite <-(Z.mod_unique_pos (- (p + 1)) al (- (p / al) - 1) (al - p mod al - 1)) by lia. lia.
Qed.

Lemma align_up_run fuel alignment ptr :
  0 < alignment → 0 ≤ ptr → ptr + (- ptr) mod alignment ≤ u64_max →
  (Z.to_nat ((- ptr) mod alignment) < fuel)%nat →
  align_up fuel alignment ptr = Done (ptr + (- ptr) mod alignment).
Proof.
  intros Hal. revert ptr. induction fuel as [|fuel IH]; intros ptr Hptr Hmax Hfuel; [lia|]. simpl.
  rewrite bool_decide_false by lia. case_bool_decide as Hm.
  - assert (Hs : (- ptr) mod alignment = (- (ptr + 1)) mod alignment + 1) by (by apply opp_mod_succ).
    pose proof (Z.mod_pos_bound (- (ptr + 1)) alignment Hal).
    assert (Hc : uint_checked u64_max (ptr + 1) = Done (ptr + 1)) by (apply uint_checked_Done; lia).
    rewrite Hc. simpl. rewrite IH by lia. f_equal. lia.
  - assert (Hz : (- ptr) mod alignment = 0).
    { apply Z.mod_opp_l_z; [lia|]. destruct (decide (ptr mod alignment = 0)); naive_solver. }
    rewrite Hz. f_equal. lia.
Qed.

Lemma aligned_ptr base al size :
  0 < al → let ptr := base + (- base) mod al in
  ptr mod al = 0 ∧ base ≤ ptr ∧ ptr + size ≤ base + (size + al - 1).
Proof.
  intros Hal ptr. subst ptr. pose proof (Z.mod_pos_bound (- base) al Hal). split_and!; [|lia..].
  rewrite <-Zplus_mod_idemp_r, Z.mod_mod, Zplus_mod_idemp_r by lia. by rewrite Z.add_opp_diag_r.
Qed.

Definition add_buffer (pid : Pid) (b : Buffer) (al : gmap Pid (list Buffer)) : gmap Pid (list Buffer) :=
  <[pid := default [] (al !! pid) ++ [b]]> al.

Definition push_request (message_id : option MessageId) (answer : unit + EncodedMessage) (r : Requests) :
    Requests :=
  match message_id with
  | Some id => {| rq_registered := rq_registered r; pending_messages := pending_messages r ++ [(id, answer)] |}
  | None => r
  end.

Lemma push_answer_if_run message_id answer r :
  push_answer_if message_id answer r = Done (tt, push_request message_id answer r).
Proof. by destruct message_id. Qed.

Lemma malloc_run `{!PlatformLaws} size al message_id pid h base :
  1 ≤ al ≤ u8_max → 0 ≤ size → size + al ≤ usize_max →
  with_capacity (hh_trace h) (size + al - 1) = Some base →
  malloc size al message_id pid h = Done (tt, {|
    hh_requests := push_request message_id (inr (encode_u64 (base + (- base) mod al))) (hh_requests h);
    hh_trace := hh_trace h ++ [Allocate (size + al - 1)];
    allocations := add_buffer pid {| buf_ptr := base; buf_capacity := size + al - 1; buf_len := 0 |}
      (allocations h) |}).
Proof.
  intros Hal Hsize Hmax Hcap. pose proof (with_capacity_range _ _ _ Hcap) as [? ?].
  pose proof (Z.mod_pos_bound (- base) al). unfold u8_max in *. unfold malloc.
  rewrite (usize_ok size) by (change u64_max with usize_max; lia).
  assert (Hadd : ∀ z, 0 ≤ z ≤ usize_max → uint_checked usize_max z = Done z) by (intros; by apply uint_checked_Done).
  unfold liftM, mbind, M_bind. cbv beta iota. rewrite (Hadd (size + al)) by lia. cbv beta iota. rewrite (Hadd (size + al - 1)) by lia.
  unfold on_trace, zoom, new_buffer, mbind, M_bind, gets, record, modify. rewrite Hcap. unfold mret, M_ret. cbn [buf_ptr].
  assert (Hb : u64_try_from base = Some base) by (apply uint_try_from_Some; lia). rewrite Hb.
  cbv beta iota. rewrite align_up_run by (unfold ALIGN_FUEL; lia). unfold on_requests, zoom. simpl.
  by rewrite push_answer_if_run.
Qed.

Lemma malloc_stops size al message_id pid h :
  0 ≤ size ≤ u64_max → 0 ≤ al →
  al = 0 ∨ usize_max < size + al ∨ with_capacity (hh_trace h) (size + al - 1) = None →
  ∃ r, malloc size al message_id pid h = Panic r ∧ r ∈ [PUnimplemented; POverflow; PDivZero; PExplicit].
Proof.
  intros Hs Hal Hbad. unfold malloc. rewrite (usize_ok size Hs). unfold liftM, mbind, M_bind. cbv beta iota.
  destruct (uint_checked_cases usize_max (size + al)) as [[-> Hn]| ->];
    [|exists POverflow; split; [done|set_solver]]. cbv beta iota.
  destruct (uint_checked_cases usize_max (size + al - 1)) as [[-> Hc]| ->];
    [|exists POverflow; split; [done|set_solver]]. cbv beta iota.
  unfold on_trace, zoom, new_buffer, mbind, M_bind, gets, record, modify.
  destruct (with_capacity (hh_trace h) (size + al - 1)) as [base|] eqn:Hcap;
    [|exists PExplicit; split; [done|set_solver]].
  assert (al = 0) as -> by (destruct Hbad as [?|[?|?]]; [done|lia|done]).
  unfold mret, M_ret. cbn [buf_ptr]. cbv beta iota.
  destruct (u64_try_from base) as [p|]; [|exists PExplicit; split; [done|set_solver]].
  exists PDivZero. split; [done|set_solver].
Qed.

(** An allocation that the allocator can serve returns, within the fuel,
    a pointer that is a multiple of the requested alignment, and from which on
    [size] bytes are inside a new buffer; the buffer is kept with those of
    the process, and the pointer is the answer. *)
Theorem hardware_malloc_ok `{!PlatformLaws} (message_id : option MessageId) (pid : Pid)
    (message : EncodedMessage) (size al base : Z) (h : HardwareHandler) :
  decode_hardware message = Some (Malloc size al) →
  1 ≤ al ≤ u8_max → 0 ≤ size → size + al ≤ usize_max →
  with_capacity (hh_trace h) (size + al - 1) = Some base →
  ∃ ptr, hardware_interface_message Hardware.INTERFACE message_id pid message h =
    Done (tt, {|
      hh_requests := push_request message_id (inr (encode_u64 ptr)) (hh_requests h);
      hh_trace := hh_trace h ++ [Allocate (size + al - 1)];
      allocations := add_buffer pid {| buf_ptr := base; buf_capacity := size + al - 1; buf_len := 0 |}
        (allocations h) |}) ∧
    ptr mod al = 0 ∧ base ≤ ptr ∧ ptr + size ≤ base + (size + al - 1).
Proof.
  intros Hdec Hal Hsize Hmax Hcap. exists (base + (- base) mod al). split; [|apply aligned_ptr; lia].
  unfold hardware_interface_message. rewrite bool_decide_true by done. rewrite Hdec.
  by apply malloc_run.
Qed.

(** No vector of the allocations is ever filled. *)
Definition hardware_inv (h : HardwareHandler) : Prop :=
  map_Forall (λ _ l, Forall (λ b, buf_len b = 0) l) (allocations h).

Lemma retained_all ptr l :
  Forall (λ b, buf_len b = 0) l → filter (λ e, retained ptr e) l = l.
Proof.
  induction 1 as [|b l Hb _ IH]; [done|]. rewrite filter_cons_True, IH; [done|].
  unfold retained. rewrite Hb. destruct (decide (ptr < buf_ptr b)).
  - by rewrite bool_decide_true.
  - by rewrite (bool_decide_true (buf_ptr b + 0 ≤ ptr)), orb_true_r by lia.
Qed.

Lemma free_run ptr pid h : hardware_inv h → free ptr pid h = Done (tt, h).
Proof.
  intros Hinv. unfold free. destruct (usize_try_from ptr) as [p|]; [|done]. unfold modify. do 2 f_equal.
  destruct (allocations h !! pid) as [l|] eqn:Hl; [|done]. rewrite (retained_all p l (Hinv _ _ Hl)).
  rewrite insert_id by done. by destruct h.
Qed.

(** Freeing an allocation does nothing: the test of [Free] looks for the
    pointer among the bytes that a vector holds, and the vectors hold none;
    the memory of a process is only given back when the process is destroyed,
    and then all of it. *)
Theorem hardware_free_keeps (message_id : option MessageId) (pid : Pid) (message : EncodedMessage)
    (ptr : Z) (h : HardwareHandler) :
  hardware_inv h → decode_hardware message = Some (Free ptr) →
  hardware_interface_message Hardware.INTERFACE message_id pid message h = Done (tt, h) ∧
  hardware_process_destroyed pid h = Done (tt, with_allocations (delete pid (allocations h)) h).
Proof.
  intros Hinv Hdec. split; [|done]. unfold hardware_interface_message.
  rewrite bool_decide_true by done. rewrite Hdec. by apply free_run.
Qed.

(** A request can stop the kernel: an allocation with an alignment of
    zero, whatever its size; one that is too large, for which the interface
    promises the answer 0; and a request to wait for an interrupt. *)
Theorem hardware_requests_stop (message_id : option MessageId) (pid : Pid) (message : EncodedMessage)
    (size al : Z) (n : Z) (h : HardwareHandler) :
  0 ≤ size ≤ u64_max → 0 ≤ al →
  decode_hardware message = Some (Malloc size al) ∧
    (al = 0 ∨ usize_max < size + al ∨ with_capacity (hh_trace h) (size + al - 1) = None) ∨
  decode_hardware message = Some (InterruptWait n) →
  ∃ r, hardware_interface_message Hardware.INTERFACE message_id pid message h = Panic r ∧
    r ∈ [PUnimplemented; POverflow; PDivZero; PExplicit].
Proof.
  intros Hs Hal Hdec. unfold hardware_interface_message. rewrite bool_decide_true by done.
  destruct Hdec as [[Hdec Hbad]|Hdec]; rewrite Hdec; [|exists PUnimplemented; set_solver].
  by apply malloc_stops.
Qed.

End hardware.
