(* ===== verification/Standalone.v ===== *)
(** The other native programs of the standalone kernel
    ([kernel/standalone/src/time.rs], [random/native.rs], [random/rng.rs],
    [klog/native.rs]), and the collection that the kernel makes of them all.

    Each is a state with the methods of [NativeProgramRef]; their sum is an
    instance of it, which satisfies [NativeProgramLaws].  The crates
    [rand_jitter], [blake3] and [rand_chacha] are the class [RngCrates]; the
    ready futures of a [FuturesUnordered] of timers are the class [Timers].
    A [SegQueue] is a list. *)
From S2P Require Import Prelude Ffi Messages Native Hardware.

Module KernelLog.

Definition INTERFACE : InterfaceHash := byte_of_Z <$>
  [ 0xcd; 0xba; 0x59; 0xb1; 0xb6; 0x5e; 0xd4; 0x9a; 0xfe; 0x25; 0xd0; 0x7c; 0x04; 0x1f; 0xae; 0x82;
    0x5b; 0xf3; 0xc9; 0xca; 0x89; 0x48; 0x81; 0xe0; 0x3b; 0x3a; 0xd2; 0x76; 0x29; 0x04; 0x21; 0x1b ].

End KernelLog.

(** * Time *)

(** A future of the set of timers: [None] is [future::pending()], and [Some]
    is [platform_specific.timer(value).map(move |_| message_id)]. *)
Definition TimerFuture : Type := option (Z * MessageId).

(** Which of the futures [poll_next] finds ready, if any. *)
Class Timers := {
  fired : list access → list TimerFuture → option nat;
}.

(** [PlatformSpecific::timer] "fires when the monotonic clock reaches the given
    value", and [poll_next] finds a future that has fired. *)
Class TimersLaws `{Platform} `{Timers} := {
  fired_reached : ∀ tr l i, fired tr l = Some i →
    ∃ v id, l !! i = Some (Some (v, id)) ∧ v ≤ monotonic_clock tr;
  fired_all : ∀ tr l v id, fired tr l = None → Some (v, id) ∈ l → monotonic_clock tr < v;
}.

Record TimeHandler := {
  th_requests : Requests;
  th_trace : list access;
  timers : list TimerFuture;
}.

Section time.
Context `{Platform} `{ScaleHandlers} `{Timers}.

Definition TimeHandler_new : TimeHandler :=
  {| th_requests := no_requests; th_trace := []; timers := [None] |}.

Definition time_requests {A} (m : M Requests A) : M TimeHandler A :=
  zoom th_requests (λ r h, {| th_requests := r; th_trace := th_trace h; timers := timers h |}) m.
Definition time_trace {A} (m : M (list access) A) : M TimeHandler A :=
  zoom th_trace (λ tr h, {| th_requests := th_requests h; th_trace := tr; timers := timers h |}) m.
Definition with_timers (l : list TimerFuture) (h : TimeHandler) : TimeHandler :=
  {| th_requests := th_requests h; th_trace := th_trace h; timers := l |}.

(** [Stream::poll_next(timers)]: a future that is ready is removed; the stream
    ends when there is no future left. *)
Definition poll_next_timer : M TimeHandler (Poll (option MessageId)) :=
  h ← get;
  _ ← time_trace (record PollTimers);
  if bool_decide (timers h = []) then mret (Ready None) else
  match fired (th_trace h) (timers h) with
  | Some i =>
      match timers h !! i with
      | Some (Some (_, message_id)) =>
          _ ← modify (with_timers (delete i (timers h)));
          mret (Ready (Some message_id))
      | _ => mret Pending
      end
  | None => mret Pending
  end.

Definition time_next_event {W} : M TimeHandler (Poll (NativeProgramEvent W)) :=
  r ← time_requests (requests_next_event Time.INTERFACE);
  match r with
  | Ready event => mret (Ready event)
  | Pending =>
      t ← poll_next_timer;
      match t with
      | Ready (Some message_id) => mret (Ready (NpAnswer message_id (inr encode_unit)))
      | Ready None => panic PUnreachable
      | Pending => mret Pending
      end
  end.

Definition time_interface_message (interface : InterfaceHash) (message_id : option MessageId)
    (emitter_pid : Pid) (message : EncodedMessage) : M TimeHandler unit :=
  _ ← liftM (debug_assert (bool_decide (interface = Time.INTERFACE)));
  match decode_time message with
  | Some Time.GetMonotonic =>
      now ← time_trace (now ← gets monotonic_clock; _ ← record ReadClock; mret now);
      id ← liftM (unwrap message_id);
      time_requests (push_answer id (inr (encode_u128 now)))
  | Some (Time.WaitMonotonic value) =>
      id ← liftM (unwrap message_id);
      modify (λ h, with_timers (timers h ++ [Some (value, id)]) h)
  | None =>
      id ← liftM (unwrap message_id);
      time_requests (push_answer id (inl tt))
  end.

(** [process_destroyed] does nothing; [message_response] is [unreachable!()]. *)
Definition time_process_destroyed (pid : Pid) : M TimeHandler unit := mret tt.
Definition time_message_response (id : MessageId) (r : unit + EncodedMessage) : M TimeHandler unit :=
  panic PUnreachable.

End time.

(** * Random numbers *)

(** The jitter generator reads the clock through the closure it was given. *)
Class RngCrates := {
  JitterRng : Type;
  new_with_timer : JitterRng;
  test_timer : M (list access) Z → JitterRng → M (list access) (option Z * JitterRng);
  set_rounds : Z → JitterRng → outcome JitterRng;
  jitter_next_u64 : M (list access) Z → JitterRng → M (list access) (Z * JitterRng);
  jitter_fill_bytes : M (list access) Z → JitterRng → nat → M (list access) (bytes * JitterRng);
  blake3 : bytes → bytes;
  ChaCha20Rng : Type;
  from_seed : bytes → ChaCha20Rng;
  fill_bytes : nat → ChaCha20Rng → bytes * ChaCha20Rng;
  RdRand_new : bool;
  rdrand_get_u64 : list access → option Z;
}.

Definition total {S A} (m : M S A) : Prop := ∀ s, returns (m s).

(** The crates panic only if the clock does; slices are filled entirely;
    [set_rounds] accepts what [test_timer] gives. *)
Class RngCratesLaws `{RngCrates} := {
  test_timer_law : ∀ timer rng tr, total timer → wp no_panic (test_timer timer rng tr)
    (λ '(r, rng', _), ∀ rounds, r = Some rounds → returns (set_rounds rounds rng'));
  jitter_next_law : ∀ timer rng, total timer → total (jitter_next_u64 timer rng);
  jitter_fill_law : ∀ timer rng n, total timer → total (jitter_fill_bytes timer rng n);
  fill_bytes_length : ∀ n rng, length (fill_bytes n rng).1 = n;
}.

Record RandomNativeProgram `{RngCrates} := {
  rp_requests : Requests;
  rp_trace : list access;
  rngs : list ChaCha20Rng;
}.

Section random.
Context `{Platform} `{ScaleHandlers} `{RngCrates}.

(** The closure of [JitterRng::new_with_timer]. *)
Definition jitter_timer : M (list access) Z :=
  now ← gets monotonic_clock;
  _ ← record ReadClock;
  liftM (unwrap (u64_try_from (Z.land now 0xffffffffffffffff))).

(** The loop of [add_hardware_entropy] over the chunks of the buffer: the bytes
    of the chunks that were filled. *)
Fixpoint rdrand_chunks (chunks : nat) : M (list access) bytes :=
  match chunks with
  | O => mret []
  | S chunks =>
      val ← gets rdrand_get_u64;
      _ ← record RdRand;
      match val with
      | Some val => rest ← rdrand_chunks chunks; mret (u64_to_le_bytes val ++ rest)
      | None => mret []
      end
  end.

(** [add_hardware_entropy], on [x86_64]: what it adds to the hash. *)
Definition add_hardware_entropy : M (list access) bytes :=
  if RdRand_new then rdrand_chunks (64 / 8) else mret [].

(** [KernelRng] is its [ChaCha20Rng]. *)
Definition KernelRng_new : M (list access) ChaCha20Rng :=
  '(rounds, rng) ← test_timer jitter_timer new_with_timer;
  rounds ← liftM (match rounds with Some r => Done r | None => Panic PExplicit end);
  rng ← liftM (set_rounds rounds rng);
  '(_, jitter) ← jitter_next_u64 jitter_timer rng;
  '(jitter_bytes, _) ← jitter_fill_bytes jitter_timer jitter 64;
  entropy ← add_hardware_entropy;
  mret (from_seed (blake3 (jitter_bytes ++ entropy))).

Definition RandomNativeProgram_new : RandomNativeProgram :=
  {| rp_requests := no_requests; rp_trace := []; rngs := [] |}.

Definition random_requests {A} (m : M Requests A) : M RandomNativeProgram A :=
  zoom rp_requests (λ r h, {| rp_requests := r; rp_trace := rp_trace h; rngs := rngs h |}) m.
Definition random_trace {A} (m : M (list access) A) : M RandomNativeProgram A :=
  zoom rp_trace (λ tr h, {| rp_requests := rp_requests h; rp_trace := tr; rngs := rngs h |}) m.
Definition with_rngs (l : list ChaCha20Rng) (h : RandomNativeProgram) : RandomNativeProgram :=
  {| rp_requests := rp_requests h; rp_trace := rp_trace h; rngs := l |}.

Definition random_next_event {W} : M RandomNativeProgram (Poll (NativeProgramEvent W)) :=
  random_requests (requests_next_event Random.INTERFACE).

(** [self.rngs.pop()], or a new generator. *)
Definition take_rng : M RandomNativeProgram ChaCha20Rng :=
  h ← get;
  match rngs h with
  | rng :: rest => _ ← put (with_rngs rest h); mret rng
  | [] => random_trace KernelRng_new
  end.

Definition random_interface_message (interface : InterfaceHash) (message_id : option MessageId)
    (emitter_pid : Pid) (message : EncodedMessage) : M RandomNativeProgram unit :=
  _ ← liftM (debug_assert (bool_decide (interface = Random.INTERFACE)));
  match message_id with
  | None => mret tt
  | Some message_id =>
      match decode_random message with
      | Some (Random.Generate len) =>
          rng ← take_rng;
          let '(out, rng) := fill_bytes (Z.to_nat len) rng in
          _ ← modify (λ h, with_rngs (rngs h ++ [rng]) h);
          random_requests (push_answer message_id
            (inr (encode_generate_response {| Random.result := out |})))
      | None => random_requests (push_answer message_id (inl tt))
      end
  end.

Definition random_process_destroyed (pid : Pid) : M RandomNativeProgram unit := mret tt.
Definition random_message_response (id : MessageId) (r : unit + EncodedMessage) :
    M RandomNativeProgram unit := panic PUnreachable.

End random.

(** * Logs of the kernel *)

Record KernelLogNativeProgram := {
  lp_requests : Requests;
  lp_trace : list access;
}.

Section log.
Context `{ScaleHandlers}.

Definition KernelLogNativeProgram_new : KernelLogNativeProgram :=
  {| lp_requests := no_requests; lp_trace := [] |}.

Definition log_requests {A} (m : M Requests A) : M KernelLogNativeProgram A :=
  zoom lp_requests (λ r h, {| lp_requests := r; lp_trace := lp_trace h |}) m.
Definition log_trace {A} (m : M (list access) A) : M KernelLogNativeProgram A :=
  zoom lp_trace (λ tr h, {| lp_requests := lp_requests h; lp_trace := tr |}) m.

(** [<[u8]>::is_ascii]. *)
Definition is_ascii (s : bytes) : bool := forallb (between 0 0x7F) s.

Definition klog_next_event {W} : M KernelLogNativeProgram (Poll (NativeProgramEvent W)) :=
  log_requests (requests_next_event KernelLog.INTERFACE).

Definition klog_interface_message (interface : InterfaceHash) (message_id : option MessageId)
    (emitter_pid : Pid) (message : EncodedMessage) : M KernelLogNativeProgram unit :=
  _ ← liftM (debug_assert (bool_decide (interface = KernelLog.INTERFACE)));
  match byte_to_Z <$> message !! 0%nat with
  | Some 0 =>
      message ← liftM (slice_from message 1);
      if is_ascii message then
        _ ← liftM (if utf8_valid message then Done tt else Panic PUnwrap);
        log_trace (record (WriteLog message))
      else mret tt
  | Some 1 => panic PUnimplemented
  | _ => log_requests (push_answer_if message_id (inl tt))
  end.

Definition klog_process_destroyed (pid : Pid) : M KernelLogNativeProgram unit := mret tt.
Definition klog_message_response (id : MessageId) (r : unit + EncodedMessage) :
    M KernelLogNativeProgram unit := panic PUnreachable.

End log.

(** * The programs of the kernel *)

Inductive StandaloneProgram `{RngCrates} :=
  | PHardware (h : HardwareHandler)
  | PTime (h : TimeHandler)
  | PRandom (h : RandomNativeProgram)
  | PLog (h : KernelLogNativeProgram).

(** Runs a method of a program, and puts the program back. *)
Definition wrap {S T A} (f : S → T) (r : outcome (A * S)) : outcome (A * T) :=
  match r with Done (a, s) => Done (a, f s) | Panic p => Panic p | NoFuel => NoFuel end.

Section programs.
Context `{Platform} `{ScaleHandlers} `{Timers} `{RngCrates}.

(** The programs of the kernel use [DummyMessageIdWrite], which has one value
    and ignores the identifier. *)
#[export] Instance standalone_programs : NativeProgramRef := {|
  Prog := StandaloneProgram;
  MessageIdWrite := unit;
  next_event_poll := λ p, match p with
    | PHardware h => wrap PHardware (hardware_next_event h)
    | PTime h => wrap PTime (time_next_event h)
    | PRandom h => wrap PRandom (random_next_event h)
    | PLog h => wrap PLog (klog_next_event h)
    end;
  np_interface_message := λ i id pid m p, match p with
    | PHardware h => wrap PHardware (hardware_interface_message i id pid m h)
    | PTime h => wrap PTime (time_interface_message i id pid m h)
    | PRandom h => wrap PRandom (random_interface_message i id pid m h)
    | PLog h => wrap PLog (klog_interface_message i id pid m h)
    end;
  np_process_destroyed := λ pid p, match p with
    | PHardware h => wrap PHardware (hardware_process_destroyed pid h)
    | PTime h => wrap PTime (time_process_destroyed pid h)
    | PRandom h => wrap PRandom (random_process_destroyed pid h)
    | PLog h => wrap PLog (klog_process_destroyed pid h)
    end;
  np_message_response := λ id r p, match p with
    | PHardware h => wrap PHardware (hardware_message_response id r h)
    | PTime h => wrap PTime (time_message_response id r h)
    | PRandom h => wrap PRandom (random_message_response id r h)
    | PLog h => wrap PLog (klog_message_response id r h)
    end;
  np_acknowledge := λ _ _, mret tt;
|}.

(** What [Kernel::run] gives to the builder, in its order. *)
Definition kernel_programs : list StandaloneProgram :=
  [PHardware HardwareHandler_new; PTime TimeHandler_new; PRandom RandomNativeProgram_new;
   PLog KernelLogNativeProgram_new].

End programs.
