(* ===== verification/StandaloneInv.v ===== *)
(** Correctness of the native programs of the standalone kernel: what each
    answers, that no answer is invented or given twice, and that together they
    satisfy what the kernel expects of native programs. *)
From S2P Require Import Prelude Ffi Messages Native Hardware Standalone.

(** * Requests *)

Section requests.
Context `{ScaleHandlers}.

Lemma requests_next_run {W} interface r :
  requests_next_event (W := W) interface r = Done
    (if rq_registered r then
       match pending_messages r with
       | (id, answer) :: rest =>
           (Ready (NpAnswer id answer), {| rq_registered := true; pending_messages := rest |})
       | [] => (Pending, r)
       end
     else (Ready (NpEmit Interface.INTERFACE None (encode_interface_message (Interface.Register interface))),
           {| rq_registered := true; pending_messages := pending_messages r |})).
Proof. destruct r as [[] [|[id answer] rest]]; done. Qed.

End requests.

(** * Logs *)

Lemma ascii_utf8 s : is_ascii s = true → utf8_valid s = true.
Proof.
  unfold is_ascii. induction s as [|a s IH]; [done|]. simpl. intros [Ha Hs]%andb_true_iff.
  rewrite Ha. by apply IH.
Qed.

Section log.
Context `{ScaleHandlers}.

(** What a message does. *)
Definition klog_effect (message_id : option MessageId) (message : EncodedMessage)
    (h : KernelLogNativeProgram) : outcome (unit * KernelLogNativeProgram) :=
  match message with
  | b :: text =>
      if bool_decide (byte_to_Z b = 0) then
        if is_ascii text
        then Done (tt, {| lp_requests := lp_requests h; lp_trace := lp_trace h ++ [WriteLog text] |})
        else Done (tt, h)
      else if bool_decide (byte_to_Z b = 1) then Panic PUnimplemented
      else Done (tt, {| lp_requests := push_request message_id (inl tt) (lp_requests h); lp_trace := lp_trace h |})
  | [] => Done (tt, {| lp_requests := push_request message_id (inl tt) (lp_requests h); lp_trace := lp_trace h |})
  end.

Lemma klog_run message_id pid message h :
  klog_interface_message KernelLog.INTERFACE message_id pid message h = klog_effect message_id message h.
Proof.
  unfold klog_interface_message, klog_effect. rewrite bool_decide_true by done. destruct message as [|b text]; simpl.
  { unfold log_requests, zoom, mbind, M_bind, liftM. simpl. by rewrite push_answer_if_run. }
  unfold mbind at 1, M_bind at 1, liftM at 1. simpl.
  destruct (byte_to_Z b) as [|p|p] eqn:Hb; simpl.
  - rewrite slice_from_total by (simpl; lia). unfold mbind at 1, M_bind at 1, liftM at 1.
    cbn [drop]. rewrite drop_0. destruct (is_ascii text) eqn:Ha; [|done]. by rewrite (ascii_utf8 _ Ha).
  - destruct (decide (p = 1%positive)) as [->|Hp]; [done|]. rewrite bool_decide_false by naive_solver.
    destruct p; try done; unfold log_requests, zoom; by rewrite push_answer_if_run.
  - unfold log_requests, zoom. by rewrite push_answer_if_run.
Qed.

(** The handler of the kernel logs prints the text of a message that
    starts with 0 if it is ASCII, and then it is always valid UTF-8; another
    text is dropped without an answer.  A message that starts with 1 stops the
    kernel; any other one is answered with an error. *)
Theorem klog_message_ok message_id pid message h :
  klog_interface_message KernelLog.INTERFACE message_id pid message h = klog_effect message_id message h.
Proof. apply klog_run. Qed.

End log.

(** * Time *)

Lemma none_delete (l : list TimerFuture) i v :
  None ∈ l → l !! i = Some (Some v) → None ∈ delete i l.
Proof.
  intros Hin Hi. rewrite delete_take_drop.
  rewrite <-(take_drop_middle l i _ Hi) in Hin. set_solver.
Qed.

Section time.
Context `{Platform} `{ScaleHandlers} `{Timers} `{!TimersLaws}.
Implicit Types h : TimeHandler.

(** There is always the future that never ends. *)
Definition time_inv h : Prop := None ∈ timers h.

Lemma time_new_sound : time_inv TimeHandler_new.
Proof. apply list_elem_of_here. Qed.

(** What the timers give: one that has fired and is removed, or nothing if
    none has. *)
Definition timer_polled h (r : Poll (option MessageId)) h' : Prop :=
  th_requests h' = th_requests h ∧
  match r with
  | Ready (Some id) => ∃ i v, timers h !! i = Some (Some (v, id)) ∧ v ≤ monotonic_clock (th_trace h) ∧
      timers h' = delete i (timers h)
  | Ready None => False
  | Pending => timers h' = timers h ∧ ∀ v id, Some (v, id) ∈ timers h → monotonic_clock (th_trace h) < v
  end.

Lemma poll_timer_sound h :
  time_inv h → wp no_panic (poll_next_timer h) (λ '(r, h'), time_inv h' ∧ timer_polled h r h').
Proof.
  intros Hinv. unfold poll_next_timer, mbind, M_bind, get, time_trace, zoom, record, modify. simpl.
  rewrite bool_decide_false by (intros Hn; red in Hinv; rewrite Hn in Hinv; set_solver).
  destruct (fired (th_trace h) (timers h)) as [i|] eqn:Hf; simpl.
  - destruct (fired_reached _ _ _ Hf) as (v & id & Hi & Hv). rewrite Hi. simpl.
    split; [by eapply none_delete|]. split; [done|]. eauto 6.
  - split; [done|]. split_and!; [done..|]. intros v id Hin. by eapply fired_all.
Qed.

Definition time_event h {W} (r : Poll (NativeProgramEvent W)) h' : Prop :=
  match r with
  | Ready (NpEmit interface w message) => rq_registered (th_requests h) = false ∧
      interface = Interface.INTERFACE ∧ w = None ∧
      message = encode_interface_message (Interface.Register Time.INTERFACE) ∧
      timers h' = timers h ∧ pending_messages (th_requests h') = pending_messages (th_requests h)
  | Ready (NpCancelMessage _) => False
  | Ready (NpAnswer id answer) => rq_registered (th_requests h) = true ∧
      (pending_messages (th_requests h) = (id, answer) :: pending_messages (th_requests h') ∧
         timers h' = timers h ∨
       pending_messages (th_requests h) = [] ∧ pending_messages (th_requests h') = [] ∧
         answer = inr encode_unit ∧ ∃ i v, timers h !! i = Some (Some (v, id)) ∧
           v ≤ monotonic_clock (th_trace h) ∧ timers h' = delete i (timers h))
  | Pending => rq_registered (th_requests h) = true ∧ pending_messages (th_requests h) = [] ∧
      timers h' = timers h ∧ th_requests h' = th_requests h ∧
      ∀ v id, Some (v, id) ∈ timers h → monotonic_clock (th_trace h) < v
  end.

Lemma time_next_sound {W} h :
  time_inv h → wp no_panic (time_next_event (W := W) h) (λ '(r, h'), time_inv h' ∧
    rq_registered (th_requests h') = true ∧ time_event h r h').
Proof.
  intros Hinv. unfold time_next_event. apply wp_Mbind, wp_zoom. rewrite requests_next_run. simpl.
  destruct (rq_registered (th_requests h)) eqn:Hreg; [|simpl; split_and!; done].
  destruct (pending_messages (th_requests h)) as [|[id answer] rest] eqn:Hpm; simpl.
  2:{ split_and!; [done..|]. by left. }
  apply wp_Mbind. eapply wp_mono; [apply poll_timer_sound; exact Hinv|].
  intros [[[id|]|] h'] [Hinv' [Hr Hp]]; simpl in *; [|done|].
  - split_and!; [done|by rewrite Hr|done|]. right. rewrite Hr. by split_and!.
  - split_and!; try done; [by rewrite Hr|..]; by destruct Hp.
Qed.

(** A program that waits for a time is answered once the clock has
    reached it and not before, and the handler reports nothing only when no
    answer is queued and no timer has expired; queued answers go out in
    order, and before them the registration of the interface.  The set of
    timers never becomes empty, so its end is never reached. *)
Theorem time_next_event_ok {W : Type} h :
  time_inv h → wp no_panic (time_next_event (W := W) h) (λ '(r, h'), time_inv h' ∧
    rq_registered (th_requests h') = true ∧ time_event h r h').
Proof. apply time_next_sound. Qed.

Definition time_received (message : EncodedMessage) (id : MessageId) h h' : Prop :=
  match decode_time message with
  | Some Time.GetMonotonic => timers h' = timers h ∧ pending_messages (th_requests h') =
      pending_messages (th_requests h) ++ [(id, inr (encode_u128 (monotonic_clock (th_trace h))))]
  | Some (Time.WaitMonotonic value) => timers h' = timers h ++ [Some (value, id)] ∧
      th_requests h' = th_requests h
  | None => timers h' = timers h ∧ pending_messages (th_requests h') =
      pending_messages (th_requests h) ++ [(id, inl tt)]
  end.

Lemma time_message_sound message_id pid message h :
  time_inv h → match message_id with
  | Some id => wp no_panic (time_interface_message Time.INTERFACE (Some id) pid message h)
      (λ '(_, h'), time_inv h' ∧ time_received message id h h')
  | None => time_interface_message Time.INTERFACE None pid message h = Panic PUnwrap
  end.
Proof.
  intros Hinv. unfold time_interface_message, time_received. rewrite bool_decide_true by done.
  destruct message_id as [id|]; [|by destruct (decode_time message) as [[]|]].
  destruct (decode_time message) as [[|value]|]; simpl; split_and!; try done.
  unfold time_inv. simpl. set_solver.
Qed.

(** Each message to the time handler is answered, now or when its timer
    expires, with the clock, a confirmation or an error; a message whose
    emitter does not want an answer stops the kernel. *)
Theorem time_message_ok message_id pid message h :
  time_inv h → match message_id with
  | Some id => wp no_panic (time_interface_message Time.INTERFACE (Some id) pid message h)
      (λ '(_, h'), time_inv h' ∧ time_received message id h h')
  | None => time_interface_message Time.INTERFACE None pid message h = Panic PUnwrap
  end.
Proof. apply time_message_sound. Qed.

End time.

(** * Random numbers *)

Section random.
Context `{Platform} `{ScaleHandlers} `{RngCrates} `{!RngCratesLaws}.
Implicit Types h : RandomNativeProgram.

Lemma jitter_timer_total : total jitter_timer.
Proof.
  intros tr. unfold jitter_timer, mbind, M_bind, gets, record, modify, liftM.
  assert (Hu : u64_try_from (Z.land (monotonic_clock tr) 0xffffffffffffffff)
               = Some (Z.land (monotonic_clock tr) 0xffffffffffffffff)).
  { apply uint_try_from_Some. split; [done|]. change 0xffffffffffffffff with (Z.ones 64).
    rewrite Z.land_ones by lia. pose proof (Z.mod_pos_bound (monotonic_clock tr) (2 ^ 64)).
    unfold u64_max. lia. }
  rewrite Hu. by eexists.
Qed.

Lemma rdrand_total n : total (rdrand_chunks n).
Proof.
  induction n as [|n IH]; intros tr; simpl; [by eexists|].
  unfold mbind, M_bind, gets, record, modify. destruct (rdrand_get_u64 tr); [|by eexists].
  destruct (IH (tr ++ [RdRand])) as [[bs tr'] ->]. by eexists.
Qed.

Lemma kernel_rng_sound tr : wp (λ r, r = PExplicit) (KernelRng_new tr) (λ _, True).
Proof.
  unfold KernelRng_new. apply wp_Mbind.
  eapply wp_mono; [eapply wp_weaken; [apply (test_timer_law _ _ _ jitter_timer_total)|done]|].
  intros [[rounds rng] tr1] Hr. apply wp_Mbind. destruct rounds as [rounds|]; [|done]. simpl.
  apply wp_Mbind. destruct (Hr rounds eq_refl) as [rng' Hset]. rewrite Hset. simpl. apply wp_Mbind.
  destruct (jitter_next_law _ rng' jitter_timer_total tr1) as [[[n rng2] tr2] ->]. simpl. apply wp_Mbind.
  destruct (jitter_fill_law _ rng2 64%nat jitter_timer_total tr2) as [[[bs rng3] tr3] ->]. simpl. apply wp_Mbind.
  unfold add_hardware_entropy. destruct RdRand_new; [|done].
  by destruct (rdrand_total (64 / 8) tr3) as [[e tr4] ->].
Qed.

Definition generated (id : MessageId) (len : Z) h h' : Prop :=
  (∃ out, length out = Z.to_nat len ∧ rp_requests h' =
     push_request (Some id) (inr (encode_generate_response {| Random.result := out |})) (rp_requests h)) ∧
  rngs h' ≠ [] ∧ (rngs h ≠ [] → rp_trace h' = rp_trace h).

Lemma random_generate_sound id pid message len h :
  decode_random message = Some (Random.Generate len) →
  wp (λ r, r = PExplicit ∧ rngs h = [])
    (random_interface_message Random.INTERFACE (Some id) pid message h)
    (λ '(_, h'), generated id len h h').
Proof.
  intros Hdec. unfold random_interface_message. rewrite bool_decide_true by done. rewrite Hdec.
  apply wp_Mbind. simpl. apply wp_Mbind. unfold take_rng, mbind at 1, M_bind at 1, get.
  destruct (rngs h) as [|rng rest] eqn:Hrngs.
  - unfold random_trace. apply wp_zoom. eapply wp_mono; [eapply wp_weaken; [apply kernel_rng_sound|naive_solver]|].
    intros [rng tr'] _. pose proof (fill_bytes_length (Z.to_nat len) rng) as Hlen.
    destruct (fill_bytes (Z.to_nat len) rng) as [out rng']. simpl in *.
    split_and!; [by eexists|by rewrite Hrngs|by rewrite Hrngs].
  - pose proof (fill_bytes_length (Z.to_nat len) rng) as Hlen. simpl.
    destruct (fill_bytes (Z.to_nat len) rng) as [out rng']. simpl in *.
    split_and!; [by eexists|by destruct rest|done].
Qed.

(** A request for random bytes is answered with exactly as many bytes as
    were asked for.  A generator is only created, and the clock and the
    processor only asked for entropy, if there is none to use again; the
    kernel stops only if the clock is then found too regular. *)
Theorem random_generate_ok id pid message len h :
  decode_random message = Some (Random.Generate len) →
  wp (λ r, r = PExplicit ∧ rngs h = [])
    (random_interface_message Random.INTERFACE (Some id) pid message h)
    (λ '(_, h'), generated id len h h').
Proof. apply random_generate_sound. Qed.

End random.

(** * Together *)

Section programs.
Context `{Platform} `{Scale} `{ScaleHandlers} `{Timers} `{RngCrates}.
Context `{!PlatformLaws} `{!ScaleHandlersLaws} `{!TimersLaws} `{!RngCratesLaws}.
Implicit Types p : StandaloneProgram.

(** The requests that a program still has to answer. *)
Definition owed p : list MessageId :=
  match p with
  | PHardware h => (pending_messages (hh_requests h)).*1
  | PTime h => (pending_messages (th_requests h)).*1 ++ omap (λ t : TimerFuture, snd <$> t) (timers h)
  | PRandom h => (pending_messages (rp_requests h)).*1
  | PLog h => (pending_messages (lp_requests h)).*1
  end.

Definition standalone_inv p : Prop :=
  match p with PHardware h => hardware_inv h | PTime h => time_inv h | _ => True end.

(** How a method may stop the kernel. *)
Definition standalone_panics (r : panic_reason) : Prop :=
  r ∈ [PDebugAssert; PUnwrap; PExplicit; POverflow; PDivZero; PUnimplemented; PUnreachable].

(** At most the request [message_id] is added. *)
Definition owes (message_id : option MessageId) (l l' : list MessageId) : Prop :=
  l' = l ∨ ∃ id, message_id = Some id ∧ l' ≡ₚ id :: l.

Lemma owes_same message_id l : owes message_id l l.
Proof. by left. Qed.

Lemma owes_push message_id answer r :
  owes message_id (pending_messages r).*1 (pending_messages (push_request message_id answer r)).*1.
Proof.
  destruct message_id as [id|]; [|by left]. right. exists id. split; [done|]. simpl.
  rewrite fmap_app. simpl. by rewrite <-Permutation_cons_append.
Qed.

Lemma wp_wrap {S T A} P (f : S → T) (m : outcome (A * S)) (Q : A * T → Prop) :
  wp P m (λ '(a, s), Q (a, f s)) → wp P (wrap f m) Q.
Proof. by destruct m as [[]| |]. Qed.

Lemma wp_assert P {S A} b (k : M S A) (s : S) (Q : A * S → Prop) :
  P PDebugAssert → (b = true → wp P (k s) Q) → wp P ((_ ← liftM (debug_assert b); k) s) Q.
Proof. intros HP Hk. by destruct b; [apply Hk|]. Qed.

(** ** Polling *)

(** An answer is of a request that was owed, and no longer is. *)
Definition answered {W} p (ev : Poll (NativeProgramEvent W)) p' : Prop :=
  match ev with
  | Ready (NpAnswer id _) => owed p ≡ₚ id :: owed p'
  | Ready (NpCancelMessage _) => False
  | Ready (NpEmit interface w _) => interface = Interface.INTERFACE ∧ w = None ∧ owed p' = owed p
  | Pending => owed p' = owed p
  end.

Lemma omap_delete {A B} (f : A → option B) (l : list A) i x b :
  l !! i = Some x → f x = Some b → omap f l ≡ₚ b :: omap f (delete i l).
Proof.
  intros Hi Hf. rewrite delete_take_drop, omap_app. rewrite <-(take_drop_middle l i x Hi) at 1.
  rewrite omap_app. simpl. rewrite Hf. by rewrite Permutation_middle.
Qed.

Lemma time_answered {W} h (r : Poll (NativeProgramEvent W)) h' :
  time_event h r h' → answered (PTime h) r (PTime h').
Proof.
  destruct r as [[interface w message|id|id answer]|]; simpl.
  - intros (_ & -> & -> & _ & -> & ->). done.
  - done.
  - intros (_ & [[-> ->]|(-> & -> & _ & i & v & Hi & _ & ->)]); [done|]. simpl. by eapply omap_delete.
  - intros (_ & _ & -> & -> & _). done.
Qed.

Lemma requests_answered {W} interface (r : Requests) :
  wp no_panic (requests_next_event (W := W) interface r) (λ '(ev, r'),
    match ev with
    | Ready (NpAnswer id _) => (pending_messages r).*1 = id :: (pending_messages r').*1
    | Ready (NpCancelMessage _) => False
    | Ready (NpEmit i w _) => i = Interface.INTERFACE ∧ w = None ∧ pending_messages r' = pending_messages r
    | Pending => r' = r
    end).
Proof.
  rewrite requests_next_run. destruct r as [[] [|[id answer] rest]]; simpl; first [done | by split_and!].
Qed.

Lemma standalone_next_sound p :
  standalone_inv p → wp no_panic (next_event_poll p) (λ '(ev, p'), standalone_inv p' ∧ answered p ev p').
Proof.
  destruct p as [h|h|h|h]; simpl; intros Hinv; apply wp_wrap.
  2:{ eapply wp_mono; [by apply time_next_sound|]. intros [ev h'] (? & _ & Hev).
      split; [done|]. by apply time_answered. }
  all: apply wp_zoom; (eapply wp_mono; [apply requests_answered|]);
    intros [[[i w m|id|id a]|] r'] Hr; simpl in *; try done; split; try done.
  all: try (destruct Hr as (-> & -> & Hr); split_and!; [done..|]); by rewrite Hr.
Qed.

(** ** Messages *)

Lemma add_buffer_inv pid b al :
  buf_len b = 0 → map_Forall (λ _ l, Forall (λ b, buf_len b = 0) l) al →
  map_Forall (λ _ l, Forall (λ b, buf_len b = 0) l) (add_buffer pid b al).
Proof.
  intros Hb Hal. apply map_Forall_insert_2; [|done]. apply Forall_app. split; [|by constructor].
  destruct (al !! pid) as [l|] eqn:Hl; [by eapply Hal|constructor].
Qed.

Lemma malloc_sound size al message_id pid h :
  0 ≤ size ≤ u64_max → 0 ≤ al ≤ u8_max → hardware_inv h →
  wp standalone_panics (malloc size al message_id pid h) (λ '(_, h'), hardware_inv h' ∧
    owes message_id (pending_messages (hh_requests h)).*1 (pending_messages (hh_requests h')).*1).
Proof.
  intros Hs Hal Hinv.
  destruct (with_capacity (hh_trace h) (size + al - 1)) as [base|] eqn:Hcap;
    [destruct (decide (al = 0 ∨ usize_max < size + al)) as [Hbad|Hok]|].
  2:{ rewrite (malloc_run _ _ _ _ _ base) by (try done; try lia).
      split; [by apply add_buffer_inv|apply owes_push]. }
  all: destruct (malloc_stops size al message_id pid h) as (r & -> & Hr); [done|lia|naive_solver|];
    unfold standalone_panics; simpl; set_solver.
Qed.

Lemma hardware_message_sound i message_id pid message h :
  hardware_inv h →
  wp standalone_panics (hardware_interface_message i message_id pid message h) (λ '(_, h'),
    hardware_inv h' ∧
    owes message_id (pending_messages (hh_requests h)).*1 (pending_messages (hh_requests h')).*1).
Proof.
  intros Hinv. apply wp_assert; [unfold standalone_panics; set_solver|]. intros _.
  destruct (decode_hardware message) as [[size al|ptr|ops|n]|] eqn:Hdec.
  - destruct (decode_malloc_range _ _ _ Hdec). by apply malloc_sound.
  - rewrite free_run by done. split; [done|apply owes_same].
  - apply wp_Mbind, wp_zoom. rewrite perform_all_run by (by eapply decode_access_range).
    destruct (allocates _ _); simpl; [|unfold standalone_panics; set_solver].
    destruct message_id as [id|]; [|split; [done|apply owes_same]].
    case_bool_decide; split; try done; [apply (owes_push (Some id))|apply owes_same].
  - simpl. unfold standalone_panics. set_solver.
  - apply wp_zoom. rewrite push_answer_if_run. split; [done|apply owes_push].
Qed.

Lemma time_message_owes i message_id pid message h :
  time_inv h →
  wp standalone_panics (time_interface_message i message_id pid message h) (λ '(_, h'), time_inv h' ∧
    owes message_id (owed (PTime h)) (owed (PTime h'))).
Proof.
  intros Hinv. destruct (decide (i = Time.INTERFACE)) as [->|Hi].
  2:{ apply wp_assert; [unfold standalone_panics; set_solver|]. by rewrite bool_decide_false. }
  pose proof (time_message_sound message_id pid message h Hinv) as Hm.
  destruct message_id as [id|]; [|rewrite Hm; simpl; unfold standalone_panics; set_solver].
  eapply wp_mono; [eapply wp_weaken; [exact Hm|done]|]. intros [[] h'] [Hinv' Hr]. split; [done|].
  right. exists id. split; [done|]. unfold time_received in Hr. simpl.
  destruct (decode_time message) as [[|value]|]; destruct Hr as [-> ->].
  2:{ rewrite omap_app. simpl. rewrite (assoc_L (++)). symmetry. apply Permutation_cons_append. }
  all: rewrite fmap_app, <-(assoc_L (++)); simpl; symmetry; apply Permutation_middle.
Qed.

Lemma random_message_sound i message_id pid message h :
  wp standalone_panics (random_interface_message i message_id pid message h) (λ '(_, h'),
    owes message_id (pending_messages (rp_requests h)).*1 (pending_messages (rp_requests h')).*1).
Proof.
  destruct (decide (i = Random.INTERFACE)) as [->|Hi].
  2:{ apply wp_assert; [unfold standalone_panics; set_solver|]. by rewrite bool_decide_false. }
  destruct message_id as [id|]; [|apply owes_same].
  destruct (decode_random message) as [[len]|] eqn:Hdec.
  - eapply wp_mono; [eapply wp_weaken; [by apply random_generate_sound|]|].
    + intros r [-> _]. unfold standalone_panics. set_solver.
    + intros [[] h'] [(out & _ & ->) _]. apply (owes_push (Some id)).
  - unfold random_interface_message. rewrite bool_decide_true by done. rewrite Hdec. simpl.
    apply (owes_push (Some id)).
Qed.

Lemma klog_message_sound i message_id pid message h :
  wp standalone_panics (klog_interface_message i message_id pid message h) (λ '(_, h'),
    owes message_id (pending_messages (lp_requests h)).*1 (pending_messages (lp_requests h')).*1).
Proof.
  destruct (decide (i = KernelLog.INTERFACE)) as [->|Hi].
  2:{ apply wp_assert; [unfold standalone_panics; set_solver|]. by rewrite bool_decide_false. }
  rewrite klog_run. unfold klog_effect. destruct message as [|b text]; [apply owes_push|].
  case_bool_decide; [destruct (is_ascii text); apply owes_same|].
  case_bool_decide; [simpl; unfold standalone_panics; set_solver|apply owes_push].
Qed.

Lemma standalone_message_sound i message_id pid message p :
  standalone_inv p →
  wp standalone_panics (np_interface_message i message_id pid message p) (λ '(_, p'),
    standalone_inv p' ∧ owes message_id (owed p) (owed p')).
Proof.
  destruct p as [h|h|h|h]; simpl; intros Hinv; apply wp_wrap.
  - by apply hardware_message_sound.
  - by apply time_message_owes.
  - eapply wp_mono; [apply random_message_sound|]. by intros [].
  - eapply wp_mono; [apply klog_message_sound|]. by intros [].
Qed.

Lemma destroyed_inv h pid :
  hardware_inv h → hardware_inv (with_allocations (delete pid (allocations h)) h).
Proof. intros Hinv. by apply map_Forall_delete. Qed.

(** The programs of the standalone kernel are what the kernel expects. *)
#[export] Instance standalone_laws : NativeProgramLaws.
Proof.
  refine {| np_inv := standalone_inv : Prog → Prop; np_panics := standalone_panics |}.
  - intros p Hp. eapply wp_mono; [eapply wp_weaken; [by apply standalone_next_sound|done]|].
    intros [[[i w m|id|id a]|] p'] [? Ha]; split; try done. by destruct Ha as (-> & _ & _).
  - intros i mid pid m p Hp. eapply wp_mono; [by apply standalone_message_sound|]. by intros [[] p'] [].
  - intros pid [h|h|h|h] Hp; simpl; [by apply destroyed_inv|done..].
  - intros mid r [h|h|h|h] Hp; simpl; unfold standalone_panics; set_solver.
  - done.
Defined.

Lemma kernel_programs_inv : Forall standalone_inv kernel_programs.
Proof.
  unfold kernel_programs. rewrite !Forall_cons, Forall_nil.
  split_and!; [apply map_Forall_empty|apply time_new_sound|done..].
Qed.

(** C14: the native programs of the kernel invent no answer and give none
    twice: an answer is of a request that is owed, and removes it; a message
    adds at most the request it came with. *)
Theorem standalone_answers_ok p i message_id pid message :
  standalone_inv p →
  wp no_panic (next_event_poll p) (λ '(ev, p'), standalone_inv p' ∧ answered p ev p') ∧
  wp standalone_panics (np_interface_message i message_id pid message p) (λ '(_, p'),
    standalone_inv p' ∧ owes message_id (owed p) (owed p')).
Proof. intros Hp. split; [by apply standalone_next_sound|by apply standalone_message_sound]. Qed.

End programs.
