(* ===== verification/Kernel.v ===== *)
(** The standalone kernel ([kernel/standalone/src/kernel.rs]): [Kernel::init]
    and [Kernel::run], on [x86_64].

    [run] is called once per CPU.  Its future is polled by the executor:
    [kernel_enter] is what it does before its loop, and [kernel_poll] one poll
    of the loop.  The images of the programs are built by [build_wasm_module!],
    at compile time: they are the argument [images]. *)
From S2P Require Import Prelude IdPool WasmValue Ffi Calls Vm ExtrinsicsApi Processes.
From S2P Require Import ProcessesFrame Extrinsics ExtrinsicsInv ExtrinsicsLocks ExtrinsicsLife.
From S2P Require Import Ipc IpcInv IpcWake IpcCore IpcHandlers IpcReserved.
From S2P Require Import Messages Native System SystemInv SystemBuild Hardware Standalone StandaloneInv.

Record Images := {
  p2p_loader_passive_node : bytes;
  log_to_kernel : bytes;
  hello_world : bytes;
  x86_pci : bytes;
  ne2000 : bytes;
}.

(** [platform_specific] is the class [Platform]. *)
Record Kernel := { running : bool }.

Definition Kernel_init : Kernel := {| running := false |}.

Section kernel.
Context `{Rng} `{Wasmi} `{!HashIter Z} `{!HashIter (list Init.Byte.byte)} `{Extrinsics}.
Context `{Platform} `{Scale} `{ScaleHandlers} `{Timers} `{RngCrates} `{!ModuleCrates}.
Local Existing Instance standalone_programs.

(** A CPU inside [run]. *)
Inductive Cpu := Parked | Looping (system : System).

(** [build_wasm_module!] gives [Module::from_bytes(..).unwrap()]. *)
Definition build_wasm_module (image : bytes) : outcome Module_ := unwrap (Module_from_bytes image).

(** [.with_startup_process(build_wasm_module!(..))]. *)
Definition start_image (image : bytes) (sb : SystemBuilder) : outcome SystemBuilder :=
  m ← build_wasm_module image;
  Done (with_startup_process m sb).

(** The [SystemBuilder] that [run] makes. *)
Definition system_builder (images : Images) : outcome SystemBuilder :=
  sb ← (SystemBuilder_new : outcome SystemBuilder);
  sb ← with_native_program (PHardware HardwareHandler_new) sb;
  sb ← with_native_program (PTime TimeHandler_new) sb;
  sb ← with_native_program (PRandom RandomNativeProgram_new) sb;
  sb ← with_native_program (PLog KernelLogNativeProgram_new) sb;
  sb ← start_image (p2p_loader_passive_node images) sb;
  sb ← start_image (log_to_kernel images) sb;
  sb ← start_image (hello_world images) sb;
  sb ← start_image (x86_pci images) sb;
  start_image (ne2000 images) sb.

Definition kernel_enter (fuel : nat) (images : Images) : M Kernel Cpu :=
  k ← get;
  _ ← put {| running := true |};
  if running k then mret Parked else
  system_builder ← liftM (system_builder images);
  system ← liftM (system_build fuel system_builder);
  match system with
  | inr system => mret (Looping system)
  | inl _ => panic PUnwrap
  end.

(** The loop of [run]: it goes on when a program ends. *)
Fixpoint kernel_loop (fuel : nat) : M System unit :=
  match fuel with
  | O => λ _, NoFuel
  | S fuel =>
      r ← run_poll fuel;
      match r with
      | Ready (SysProgramFinished _ _) => kernel_loop fuel
      | Pending => mret tt
      end
  end.

(** One poll of the future of [run], which is never ready. *)
Definition kernel_poll (fuel : nat) (cpu : Cpu) : outcome Cpu :=
  match cpu with
  | Parked => Done Parked
  | Looping s => '(_, s) ← kernel_loop fuel s; Done (Looping s)
  end.

(** * Starting *)

(** The modules of the images, in the order in which they are started. *)
Definition startup_modules (images : Images) : option (list Module_) :=
  mapM Module_from_bytes [p2p_loader_passive_node images; log_to_kernel images; hello_world images;
    x86_pci images; ne2000 images].

Lemma system_builder_configured images ms :
  startup_modules images = Some ms →
  system_builder images = configured (kernel_programs : list Prog) ms [].
Proof.
  unfold startup_modules, system_builder, configured, start_image, build_wasm_module, kernel_programs. intros Hms.
  repeat (rewrite mapM_Some in Hms || apply Forall2_cons_inv_l in Hms as (? & ? & ? & Hms & ->)).
  apply Forall2_nil_inv_l in Hms as ->.
  destruct SystemBuilder_new as [sb| |]; [|done..]. cbn [mbind outcome_bind add_natives].
  do 4 (destruct (with_native_program _ _) as [?| |]; [|done..]; cbn [mbind outcome_bind]).
  repeat match goal with Hm : Module_from_bytes _ = Some _ |- _ => rewrite Hm; clear Hm end. simpl.
  unfold with_main_programs, with_startup_process. simpl. by rewrite app_nil_r.
Qed.

End kernel.

Section kernel_inv.
Context `{Rng} `{!RngLaws} `{Wasmi} `{!HashIter Z} `{!HashIter (list Init.Byte.byte)} `{Extrinsics}.
Context `{!WasmiLaws} `{!WasmiMemoryLaws} `{!ExtrinsicsLaws}.
Context `{Platform} `{Scale} `{ScaleHandlers} `{Timers} `{RngCrates} `{!ModuleCrates}.
Context `{!ScaleLaws} `{!PlatformLaws} `{!ScaleHandlersLaws} `{!TimersLaws} `{!RngCratesLaws}.
Local Existing Instance standalone_programs.
Local Existing Instance standalone_laws.

(** The startup modules can be started when the builder has prepared the core. *)
Definition startable (fuel : nat) (ms : list Module_) : Prop :=
  ∀ sb c c', configured (kernel_programs : list Prog) ms [] = Done sb → core_build (sb_core sb) = Done c →
    set_interface_handler fuel Interface.INTERFACE (interface_interface_pid sb) c = Done (inr tt, c') →
    can_start ms c'.

Definition kernel_started (cpu : Cpu) : Prop :=
  ∃ s, cpu = Looping s ∧ system_ok s ∧
    ad_inner <$> (native_programs s).*2 = (kernel_programs : list Prog) ∧
    NoDup (native_programs s).*1 ∧ programs_to_load s = [] ∧
    dom (interfaces (sys_core s)) = {[ Interface.INTERFACE ]}.

Lemma kernel_enter_sound fuel images ms :
  startup_modules images = Some ms → startable fuel ms →
  wp (λ r, r = PDebugAssert ∨ r = PUnwrap ∨ ∃ mo c, mo ∈ ms ∧ instance_panics (m_inner mo) c r)
    (kernel_enter fuel images Kernel_init) (λ '(cpu, k), running k = true ∧ kernel_started cpu ∧
      ∀ fuel', kernel_enter fuel' images k = Done (Parked, k)).
Proof.
  intros Hms Hstart.
  pose proof (system_build_sound fuel (kernel_programs : list Prog) ms [] kernel_programs_inv Hstart) as Hb.
  unfold kernel_enter, mbind, M_bind, get, put, liftM. simpl. rewrite (system_builder_configured _ _ Hms).
  unfold mbind, outcome_bind in Hb. destruct (configured _ ms []) as [sb|r|]; simpl in *; [|naive_solver|done].
  destruct (system_build fuel sb) as [[e|s]|r|]; simpl in *; [by right; left| |naive_solver|done].
  destruct Hb as (Hs & Hn & Hnd & _ & Hl & _ & pid & _ & _ & _ & Hi). split_and!; [done| |done].
  exists s. split_and!; [done..|]. by rewrite Hi, dom_singleton_L.
Qed.

(** C12: the first CPU that enters the kernel builds a system that satisfies
    the invariant, with the handlers of hardware, time, random numbers and
    logs as its native programs, under distinct identifiers, and with nothing
    but the registration of interfaces handled at first; every other CPU is
    parked and touches nothing.  The kernel stops instead only if a startup
    program cannot be started, or a pool gives an identifier twice. *)
Theorem kernel_enter_ok fuel images ms :
  startup_modules images = Some ms → startable fuel ms →
  wp (λ r, r = PDebugAssert ∨ r = PUnwrap ∨ ∃ mo c, mo ∈ ms ∧ instance_panics (m_inner mo) c r)
    (kernel_enter fuel images Kernel_init) (λ '(cpu, k), running k = true ∧ kernel_started cpu ∧
      ∀ fuel', kernel_enter fuel' images k = Done (Parked, k)).
Proof. apply kernel_enter_sound. Qed.

(** * Running *)

Fixpoint loop_ready (fuel : nat) (s : System) : Prop :=
  match fuel with
  | O => True
  | S fuel => poll_ready fuel s ∧ ∀ r s', run_poll fuel s = Done (Ready r, s') → loop_ready fuel s'
  end.

Fixpoint loop_spins (fuel : nat) (s : System) : Prop :=
  match fuel with
  | O => True
  | S fuel => poll_spins fuel s ∨ ∃ r s', run_poll fuel s = Done (Ready r, s') ∧ loop_spins fuel s'
  end.

Fixpoint loop_panics (fuel : nat) (s : System) (p : panic_reason) : Prop :=
  match fuel with
  | O => False
  | S fuel => poll_panics fuel s p ∨ ∃ r s', run_poll fuel s = Done (Ready r, s') ∧ loop_panics fuel s' p
  end.

Lemma kernel_loop_sound fuel s :
  system_ok s → loop_ready fuel s →
  wlp (loop_spins fuel s) (loop_panics fuel s) (kernel_loop fuel s) (λ '(_, s'),
    system_ok s' ∧ ∃ fuel', nothing_to_do fuel' s').
Proof.
  revert s. induction fuel as [|fuel IH]; intros s Hs Hready; [done|].
  cbn [kernel_loop loop_spins loop_panics]. destruct Hready as [Hpoll Hnext].
  pose proof (run_poll_sound fuel s Hs Hpoll) as Hp. unfold mbind, M_bind.
  destruct (run_poll fuel s) as [[[[pid out]|] s']|r|]; simpl in *; [|done|by left|by left].
  destruct Hp as [Hs' _]. eapply wlp_weaken; [apply IH; [done|by eapply Hnext]|naive_solver|naive_solver].
Qed.

(** C13: a poll of the kernel goes on through programs that end, whatever they
    end with, keeps the invariant of the system, and gives the CPU back only
    when there is nothing to do; a parked CPU stays so. *)
Theorem kernel_poll_ok fuel s :
  system_ok s → loop_ready fuel s →
  kernel_poll fuel Parked = Done Parked ∧
  wlp (loop_spins fuel s) (loop_panics fuel s) (kernel_poll fuel (Looping s)) (λ cpu,
    ∃ s', cpu = Looping s' ∧ system_ok s' ∧ ∃ fuel', nothing_to_do fuel' s').
Proof.
  intros Hs Hready. split; [done|]. pose proof (kernel_loop_sound fuel s Hs Hready) as Hl.
  unfold kernel_poll, mbind, outcome_bind. destruct (kernel_loop fuel s) as [[[] s']|r|]; simpl in *; [|done..].
  eauto.
Qed.

End kernel_inv.
