(* ===== verification/Hosted.v ===== *)
(** Native programs of the hosted kernel ([kernel/hosted-time/src/lib.rs],
    [kernel/hosted-log/src/lib.rs], [kernel/hosted-random/src/lib.rs]).

    The clocks, the timers and the random generator of the host are the class
    [Host]: what the [n]-th observation of the program gives.  [ansi_term] is
    the class [AnsiTerm].  An unbounded channel whose two ends the program
    keeps is a list, and sending on it succeeds; the lock around a receiver is
    free whenever the program is polled, since the future that held it is
    dropped by then. *)
From S2P Require Import Prelude Ffi Messages Native Hardware Standalone StandaloneInv.

(** * The host *)

Record Duration := { as_secs : Z; subsec_nanos : Z }.

Class Host := {
  elapsed : nat → Duration;               (** [CLOCK_START.elapsed()] *)
  since_epoch : nat → option Duration;    (** [duration_since(UNIX_EPOCH)] *)
  host_fired : nat → list TimerFuture → option nat;
  thread_rng_fill : nat → nat → bytes;
}.

(** In nanoseconds. *)
Definition nanos (d : Duration) : Z := as_secs d * 1000000000 + subsec_nanos d.

(** A [Delay] is over once its duration has elapsed; a slice is filled
    entirely. *)
Class HostLaws `{Host} := {
  host_fired_reached : ∀ n l i, host_fired n l = Some i →
    ∃ v id, l !! i = Some (Some (v, id)) ∧ v ≤ nanos (elapsed n);
  host_fired_all : ∀ n l v id, host_fired n l = None → Some (v, id) ∈ l → nanos (elapsed n) < v;
  thread_rng_length : ∀ n len, length (thread_rng_fill n len) = len;
}.

(** * Time *)

Inductive TimerMessage :=
  | Msg_Time (m : Time.TimeMessage)
  | Msg_SystemTime (m : SystemTime.TimeMessage).

(** [ht_observed] is the number of observations so far. *)
Record TimerHandler := {
  time_registered : bool;
  system_time_registered : bool;
  ht_timers : list TimerFuture;
  messages_rx : list (TimerMessage * MessageId);
  ht_observed : nat;
}.

Section time.
Context `{Host} `{ScaleHandlers}.

Definition TimerHandler_new : TimerHandler :=
  {| time_registered := false; system_time_registered := false; ht_timers := [None];
     messages_rx := []; ht_observed := 0 |}.

Definition set_registered (a b : bool) (h : TimerHandler) : TimerHandler :=
  {| time_registered := a; system_time_registered := b; ht_timers := ht_timers h;
     messages_rx := messages_rx h; ht_observed := ht_observed h |}.
Definition set_timers (l : list TimerFuture) (h : TimerHandler) : TimerHandler :=
  {| time_registered := time_registered h; system_time_registered := system_time_registered h;
     ht_timers := l; messages_rx := messages_rx h; ht_observed := ht_observed h |}.
Definition set_messages (l : list (TimerMessage * MessageId)) (h : TimerHandler) : TimerHandler :=
  {| time_registered := time_registered h; system_time_registered := system_time_registered h;
     ht_timers := ht_timers h; messages_rx := l; ht_observed := ht_observed h |}.
Definition observe {A} (f : nat → A) : M TimerHandler A := λ h,
  Done (f (ht_observed h),
    {| time_registered := time_registered h; system_time_registered := system_time_registered h;
       ht_timers := ht_timers h; messages_rx := messages_rx h; ht_observed := S (ht_observed h) |}).

(** The multiplication is one of [u64]s. *)
Definition duration_to_u128 (d : Duration) : outcome Z :=
  secs ← uint_checked u64_max (as_secs d * 1000000000);
  Done (secs + subsec_nanos d).

Definition host_monotonic_clock : M TimerHandler Z :=
  d ← observe elapsed;
  liftM (duration_to_u128 d).

Definition host_system_clock : M TimerHandler Z :=
  d ← observe since_epoch;
  d ← liftM (unwrap d);
  liftM (duration_to_u128 d).

(** [inner.timers.next()], polled. *)
Definition poll_timers : M TimerHandler (Poll (option MessageId)) :=
  h ← get;
  i ← observe (λ n, host_fired n (ht_timers h));
  if bool_decide (ht_timers h = []) then mret (Ready None) else
  match i with
  | Some i =>
      match ht_timers h !! i with
      | Some (Some (_, message_id)) =>
          _ ← modify (set_timers (delete i (ht_timers h)));
          mret (Ready (Some message_id))
      | _ => mret Pending
      end
  | None => mret Pending
  end.

(** The loop of [next_event], [messages] being what the channel holds. *)
Fixpoint time_loop {W} (messages : list (TimerMessage * MessageId)) :
    M TimerHandler (Poll (NativeProgramEvent W)) :=
  t ← poll_timers;
  match t with
  | Ready (Some message_id) => mret (Ready (NpAnswer message_id (inr encode_unit)))
  | Ready None => panic PUnreachable
  | Pending =>
      match messages with
      | [] => mret Pending
      | (Msg_Time Time.GetMonotonic, message_id) :: rest =>
          _ ← modify (set_messages rest);
          now ← host_monotonic_clock;
          mret (Ready (NpAnswer message_id (inr (encode_u128 now))))
      | (Msg_Time (Time.WaitMonotonic until), message_id) :: rest =>
          _ ← modify (set_messages rest);
          now ← host_monotonic_clock;
          if bool_decide (until < now) then
            mret (Ready (NpAnswer message_id (inr encode_unit)))
          else
            _ ← (if bool_decide (until - now ≤ u64_max)
                 then modify (λ h, set_timers (ht_timers h ++ [Some (until, message_id)]) h)
                 else mret tt);
            time_loop rest
      | (Msg_SystemTime SystemTime.GetSystem, message_id) :: rest =>
          _ ← modify (set_messages rest);
          now ← host_system_clock;
          mret (Ready (NpAnswer message_id (inr (encode_u128 now))))
      end
  end.

Definition register_event {W} (interface : InterfaceHash) : Poll (NativeProgramEvent W) :=
  Ready (NpEmit Interface.INTERFACE None (encode_interface_message (Interface.Register interface))).

Definition hosted_time_next_event {W} : M TimerHandler (Poll (NativeProgramEvent W)) :=
  h ← get;
  if negb (time_registered h) then
    _ ← put (set_registered true (system_time_registered h) h);
    mret (register_event Time.INTERFACE)
  else if negb (system_time_registered h) then
    _ ← put (set_registered true true h);
    mret (register_event SystemTime.INTERFACE)
  else time_loop (messages_rx h).

Definition send_message (m : TimerMessage) (message_id : option MessageId) : M TimerHandler unit :=
  id ← liftM (unwrap message_id);
  modify (λ h, set_messages (messages_rx h ++ [(m, id)]) h).

Definition hosted_time_interface_message (interface : InterfaceHash) (message_id : option MessageId)
    (emitter_pid : Pid) (message : EncodedMessage) : M TimerHandler unit :=
  if bool_decide (interface = Time.INTERFACE) then
    match decode_time message with
    | Some msg => send_message (Msg_Time msg) message_id
    | None => mret tt
    end
  else if bool_decide (interface = SystemTime.INTERFACE) then
    match decode_system_time message with
    | Some msg => send_message (Msg_SystemTime msg) message_id
    | None => mret tt
    end
  else panic PUnreachable.

End time.

(** ** Answers in time *)

Section time_inv.
Context `{Host} `{ScaleHandlers} `{!HostLaws}.
Implicit Types h : TimerHandler.

Definition hosted_time_inv h : Prop := None ∈ ht_timers h.

(** Why a request may be answered, from the messages and the timers that there
    are, by observations between [n] and [n']: it asks for the time, which it
    is given, or it waits for a time that has come. *)
Inductive due (ms : list (TimerMessage * MessageId)) (ts : list TimerFuture) (n n' : nat) :
    MessageId → unit + EncodedMessage → Prop :=
  | due_monotonic id k :
      (Msg_Time Time.GetMonotonic, id) ∈ ms → (n ≤ k < n')%nat →
      due ms ts n n' id (inr (encode_u128 (nanos (elapsed k))))
  | due_system id k d :
      (Msg_SystemTime SystemTime.GetSystem, id) ∈ ms → (n ≤ k < n')%nat → since_epoch k = Some d →
      due ms ts n n' id (inr (encode_u128 (nanos d)))
  | due_wait id v k :
      (Msg_Time (Time.WaitMonotonic v), id) ∈ ms ∨ Some (v, id) ∈ ts → (n ≤ k < n')%nat →
      v ≤ nanos (elapsed k) → due ms ts n n' id (inr encode_unit).

Lemma due_mono ms ms' ts ts' n1 n n' id a :
  due ms ts n n' id a → ms ⊆ ms' → (n1 ≤ n)%nat →
  (∀ v i, Some (v, i) ∈ ts → (Msg_Time (Time.WaitMonotonic v), i) ∈ ms' ∨ Some (v, i) ∈ ts') →
  due ms' ts' n1 n' id a.
Proof.
  intros Hd Hms Hn Hts.
  destruct Hd as [id k Hin Hk|id k d Hin Hk Hs|id v k Hin Hk Hv].
  - eapply due_monotonic; [by apply Hms|lia].
  - apply (due_system _ _ _ _ id k d); [by apply Hms|lia|done].
  - eapply (due_wait _ _ _ _ _ v k); [|lia|done]. destruct Hin as [?|?]; [left; by apply Hms|by apply Hts].
Qed.

(** Nothing can be answered: the channel is empty and no timer has expired at
    the last observation. *)
Definition quiet h : Prop :=
  messages_rx h = [] ∧ ∃ k, ht_observed h = S k ∧
    ∀ v id, Some (v, id) ∈ ht_timers h → nanos (elapsed k) < v.

Definition answered_in_time {W} h (r : Poll (NativeProgramEvent W)) h' : Prop :=
  match r with
  | Ready (NpAnswer id a) => due (messages_rx h) (ht_timers h) (ht_observed h) (ht_observed h') id a
  | Ready _ => False
  | Pending => quiet h'
  end.

Lemma duration_sound d :
  wp (λ r, r = POverflow) (duration_to_u128 d) (λ z, z = nanos d).
Proof.
  unfold duration_to_u128. destruct (uint_checked_cases u64_max (as_secs d * 1000000000)) as [[-> _]| ->]; done.
Qed.


(** One more observation. *)
Definition observed h : TimerHandler :=
  {| time_registered := time_registered h; system_time_registered := system_time_registered h;
     ht_timers := ht_timers h; messages_rx := messages_rx h; ht_observed := S (ht_observed h) |}.

Lemma monotonic_sound h :
  wp (λ r, r = POverflow) (host_monotonic_clock h) (λ '(z, h'),
    z = nanos (elapsed (ht_observed h)) ∧ h' = observed h).
Proof.
  unfold host_monotonic_clock. apply wp_Mbind. simpl. apply wp_liftM.
  eapply wp_mono; [apply duration_sound|]. by intros z ->.
Qed.

Lemma system_sound h :
  wp (λ r, r = POverflow ∨ r = PUnwrap) (host_system_clock h) (λ '(z, h'),
    (∃ d, since_epoch (ht_observed h) = Some d ∧ z = nanos d) ∧ h' = observed h).
Proof.
  unfold host_system_clock. apply wp_Mbind. simpl. apply wp_Mbind, wp_liftM.
  destruct (since_epoch (ht_observed h)) as [d|]; simpl; [|by right]. apply wp_liftM.
  eapply wp_mono; [eapply wp_weaken; [apply duration_sound|by left]|]. intros z ->. eauto.
Qed.

Lemma poll_timers_sound h :
  hosted_time_inv h →
  wp no_panic (poll_timers h) (λ '(r, h'), hosted_time_inv h' ∧ match r with
    | Ready (Some id) => (∃ v, Some (v, id) ∈ ht_timers h ∧ v ≤ nanos (elapsed (ht_observed h))) ∧
        ht_observed h' = S (ht_observed h)
    | Ready None => False
    | Pending => h' = observed h ∧ ∀ v id, Some (v, id) ∈ ht_timers h → nanos (elapsed (ht_observed h)) < v
    end).
Proof.
  intros Hinv. unfold poll_timers, mbind, M_bind, get, observe, modify. simpl.
  rewrite bool_decide_false by (intros Hn; red in Hinv; rewrite Hn in Hinv; set_solver).
  destruct (host_fired _ _) as [i|] eqn:Hf.
  - destruct (host_fired_reached _ _ _ Hf) as (v & id & Hi & Hv). rewrite Hi. simpl.
    split; [by eapply none_delete|]. split; [|done]. exists v. split; [by eapply list_elem_of_lookup_2|done].
  - simpl. split; [done|]. split; [done|]. intros v id Hin.
    exact (host_fired_all _ _ v id Hf Hin).
Qed.

(** [h] once the timer of a request is set, if it is not too far. *)
Definition pushed (until : Z) (id : MessageId) h : TimerHandler :=
  if bool_decide (until - nanos (elapsed (pred (ht_observed h))) ≤ u64_max)
  then set_timers (ht_timers h ++ [Some (until, id)]) h else h.

Lemma answered_later {W} until id ms h (r : Poll (NativeProgramEvent W)) h' :
  messages_rx h = (Msg_Time (Time.WaitMonotonic until), id) :: ms →
  answered_in_time (pushed until id (observed (set_messages ms (observed h)))) r h' →
  answered_in_time h r h'.
Proof.
  intros Hms. destruct r as [[| |id' a]|]; [done|done| |done]. simpl. intros Hd.
  eapply due_mono; [exact Hd|..]; unfold pushed; rewrite ?Hms.
  - case_bool_decide; simpl; set_solver.
  - case_bool_decide; simpl; lia.
  - intros v i Hin. case_bool_decide; simpl in Hin; [|by right].
    apply elem_of_app in Hin as [?|Hin]; [by right|]. apply list_elem_of_singleton in Hin as [= -> ->].
    left. left.
Qed.

Lemma time_loop_sound {W} ms h :
  hosted_time_inv h → messages_rx h = ms →
  wp (λ r, r = POverflow ∨ r = PUnwrap) (time_loop (W := W) ms h) (λ '(r, h'),
    hosted_time_inv h' ∧ answered_in_time h r h').
Proof.
  revert h. induction ms as [|[m id] ms IH]; intros h Hinv Hms; cbn [time_loop].
  all: apply wp_Mbind; (eapply wp_mono; [eapply wp_weaken; [by apply poll_timers_sound|done]|]).
  all: intros [[[id'|]|] h'] [Hinv' Ht]; [|done|].
  all: try (destruct Ht as [(v & Hin & Hv) Ho]; split; [done|];
            eapply (due_wait _ _ _ _ _ v (ht_observed h)); [by right|rewrite Ho; lia|done]).
  { destruct Ht as [-> Hq]. split; [done|]. split; [done|]. by exists (ht_observed h). }
  destruct Ht as [-> _]. destruct m as [[|until]|[]]; apply wp_Mbind; simpl; apply wp_Mbind.
  - eapply wp_mono; [eapply wp_weaken; [apply monotonic_sound|by left]|]. intros [z h'] [-> ->].
    split; [done|]. eapply due_monotonic; [rewrite Hms; left|simpl; lia].
  - eapply wp_mono; [eapply wp_weaken; [apply monotonic_sound|by left]|]. intros [z h'] [-> ->].
    case_bool_decide as Hu.
    { split; [done|]. eapply (due_wait _ _ _ _ _ until (S (ht_observed h))); [|simpl; lia|simpl in Hu; lia].
      left. rewrite Hms. left. }
    apply wp_Mbind. eapply wp_Done with (a := (tt, pushed until id (observed (set_messages ms (observed h))))).
    { unfold pushed. cbn [observed set_messages ht_observed Init.Nat.pred]. by case_bool_decide. }
    eapply wp_mono; [apply IH|].
    + unfold hosted_time_inv, pushed. case_bool_decide; simpl; set_solver.
    + unfold pushed. by case_bool_decide.
    + intros [r h'] [Hinv2 Hr]. split; [done|]. by eapply answered_later.
  - eapply wp_mono; [apply system_sound|]. intros [z h'] [(d & Hd & ->) ->].
    split; [done|]. eapply due_system; [rewrite Hms; left| |exact Hd]. simpl. lia.
Qed.

Definition hosted_time_event {W} h (r : Poll (NativeProgramEvent W)) h' : Prop :=
  if time_registered h then
    if system_time_registered h then answered_in_time h r h'
    else r = register_event SystemTime.INTERFACE ∧ h' = set_registered true true h
  else r = register_event Time.INTERFACE ∧ h' = set_registered true (system_time_registered h) h.

(** The time handler of the hosted kernel registers its two interfaces,
    and then answers a request only when it may: with the time of an
    observation made since, or, for a request that waits, once an observation
    of the clock has reached the time.  It reports nothing only when the
    channel is empty and no timer has expired.  It stops only if the clock
    passes the range of its conversion or is before the epoch. *)
Theorem hosted_time_next_ok {W : Type} h :
  hosted_time_inv h →
  wp (λ r, r = POverflow ∨ r = PUnwrap) (hosted_time_next_event (W := W) h) (λ '(r, h'),
    hosted_time_inv h' ∧ hosted_time_event h r h').
Proof.
  intros Hinv. unfold hosted_time_next_event, hosted_time_event. apply wp_Mbind. simpl.
  destruct (time_registered h); [|done]. destruct (system_time_registered h); [|done].
  by apply time_loop_sound.
Qed.

End time_inv.

(** * Logs *)

Section text.

Definition valid_char (c : bytes) : bool :=
  match c with
  | [a] => between 0 0x7F a
  | [a; b] => utf8_two a b
  | [a; b; c] => utf8_three a b c
  | [a; b; c; d] => utf8_four a b c d
  | _ => false
  end.

(** [str::chars], each character being its encoding. *)
Fixpoint utf8_chars (s : bytes) : list bytes :=
  match s with
  | [] => []
  | a :: s1 =>
      if between 0 0x7F a then [a] :: utf8_chars s1 else
      match s1 with
      | [] => [[a]]
      | b :: s2 =>
          if utf8_two a b then [a; b] :: utf8_chars s2 else
          match s2 with
          | [] => [[a; b]]
          | c :: s3 =>
              if utf8_three a b c then [a; b; c] :: utf8_chars s3 else
              match s3 with
              | [] => [[a; b; c]]
              | d :: s4 => [a; b; c; d] :: utf8_chars s4
              end
          end
      end
  end.

(** [char::is_control]: U+0000 to U+001F and U+007F to U+009F. *)
Definition is_control (c : bytes) : bool :=
  match c with
  | [a] => between 0 0x1F a || between 0x7F 0x7F a
  | [a; b] => between 0xC2 0xC2 a && between 0x80 0x9F b
  | _ => false
  end.

(** The message that is printed. *)
Definition sanitize (s : bytes) : bytes :=
  if existsb is_control (utf8_chars s)
  then concat (filter (λ c, negb (is_control c)) (utf8_chars s))
  else s.

(** The lead bytes of the four forms are disjoint. *)
Lemma between_spec lo hi b : between lo hi b = true ↔ lo ≤ byte_to_Z b ≤ hi.
Proof. unfold between. by rewrite bool_decide_eq_true. Qed.

Lemma two_lead a b : utf8_two a b = true → 0xC2 ≤ byte_to_Z a ≤ 0xDF.
Proof. unfold utf8_two. rewrite andb_true_iff, !between_spec. tauto. Qed.

Lemma three_lead a b c : utf8_three a b c = true → 0xE0 ≤ byte_to_Z a ≤ 0xEF.
Proof.
  unfold utf8_three. rewrite !andb_true_iff, !orb_true_iff, !andb_true_iff, !between_spec. lia.
Qed.

Lemma four_lead a b c d : utf8_four a b c d = true → 0xF0 ≤ byte_to_Z a ≤ 0xF4.
Proof.
  unfold utf8_four. rewrite !andb_true_iff, !orb_true_iff, !andb_true_iff, !between_spec. lia.
Qed.

Lemma between_false lo hi b : ¬ lo ≤ byte_to_Z b ≤ hi → between lo hi b = false.
Proof. intros Hb. apply not_true_iff_false. by rewrite between_spec. Qed.

Lemma not_two a b : ¬ 0xC2 ≤ byte_to_Z a ≤ 0xDF → utf8_two a b = false.
Proof. intros Ha. apply not_true_iff_false. intros H. by apply two_lead in H. Qed.

Lemma not_three a b c : ¬ 0xE0 ≤ byte_to_Z a ≤ 0xEF → utf8_three a b c = false.
Proof. intros Ha. apply not_true_iff_false. intros H. by apply three_lead in H. Qed.

Lemma chars_app c s :
  valid_char c = true →
  utf8_chars (c ++ s) = c :: utf8_chars s ∧ utf8_valid (c ++ s) = utf8_valid s.
Proof.
  destruct c as [|a [|b [|c [|d [|]]]]]; try done; cbn [valid_char app utf8_chars utf8_valid]; intros Hc.
  - by rewrite Hc.
  - pose proof (two_lead _ _ Hc). rewrite between_false by lia. by rewrite Hc.
  - pose proof (three_lead _ _ _ Hc). rewrite between_false, not_two by lia. by rewrite Hc.
  - pose proof (four_lead _ _ _ _ Hc). rewrite between_false, not_two, not_three by lia. by rewrite Hc.
Qed.

Lemma chars_concat cs :
  Forall (λ c, valid_char c = true) cs → utf8_chars (concat cs) = cs ∧ utf8_valid (concat cs) = true.
Proof.
  induction 1 as [|c cs Hc _ [IH1 IH2]]; [done|]. simpl.
  destruct (chars_app c (concat cs) Hc) as [-> ->]. by rewrite IH1.
Qed.

(** A valid text is the concatenation of its characters. *)
Lemma valid_chars s :
  utf8_valid s = true → ∃ cs, Forall (λ c, valid_char c = true) cs ∧ s = concat cs.
Proof.
  induction s as [s IH] using (induction_ltof1 _ length). unfold ltof in IH. intros Hs.
  destruct s as [|a s1]; [by exists []|]. cbn [utf8_valid] in Hs.
  assert (Hstep : ∀ c rest, a :: s1 = c ++ rest → valid_char c = true → utf8_valid rest = true →
    ∃ cs, Forall (λ c, valid_char c = true) cs ∧ a :: s1 = concat cs).
  { intros c rest He Hc Hr. destruct (IH rest) as (cs & Hcs & ->); [|done|].
    - rewrite He, length_app. destruct c; [done|simpl; lia].
    - exists (c :: cs). split; [by constructor|done]. }
  destruct (between 0 0x7F a) eqn:H1; [by apply (Hstep [a] s1)|].
  destruct s1 as [|b s2]; [done|]. destruct (utf8_two a b) eqn:H2; [by apply (Hstep [a; b] s2)|].
  destruct s2 as [|c s3]; [done|]. destruct (utf8_three a b c) eqn:H3; [by apply (Hstep [a; b; c] s3)|].
  destruct s3 as [|d s4]; [done|]. apply andb_true_iff in Hs as [H4 Hs]. by apply (Hstep [a; b; c; d] s4).
Qed.

Lemma filter_no_control cs :
  existsb is_control cs = false → filter (λ c, negb (is_control c)) cs = cs.
Proof.
  induction cs as [|c cs IH]; [done|]. simpl. intros [Hc Hcs]%orb_false_iff.
  rewrite filter_cons_True, IH by (by rewrite ?Hc). done.
Qed.

Lemma sanitize_sound s :
  utf8_valid s = true →
  utf8_chars (sanitize s) = filter (λ c, negb (is_control c)) (utf8_chars s) ∧
  utf8_valid (sanitize s) = true ∧ existsb is_control (utf8_chars (sanitize s)) = false ∧
  (existsb is_control (utf8_chars s) = false → sanitize s = s).
Proof.
  intros (cs & Hcs & ->)%valid_chars. destruct (chars_concat cs Hcs) as [Hch Hv].
  unfold sanitize. rewrite Hch. destruct (existsb is_control cs) eqn:He.
  - destruct (chars_concat (filter (λ c, negb (is_control c)) cs)) as [-> ->].
    { apply Forall_forall. intros c [_ Hc]%list_elem_of_filter. rewrite Forall_forall in Hcs. by apply Hcs. }
    split_and!; [done..| |done]. apply not_true_iff_false. rewrite existsb_exists.
    intros (c & Hc%list_elem_of_In & Hctl). apply list_elem_of_filter in Hc as [Hn _]. by rewrite Hctl in Hn.
  - rewrite Hch. split_and!; [|done..]. symmetry. by apply filter_no_control.
Qed.

End text.

(** [ansi_term::Style::prefix] and [suffix], of a style that is dimmed or not. *)
Class AnsiTerm := {
  style_prefix : bool → bytes;
  style_suffix : bool → bytes;
}.

(** [stdout] is the list of the lines that were printed. *)
Record LogHandler := {
  lh_registered : bool;
  enable_colors : bool;
  stdout : list bytes;
}.

(** [impl Debug for Pid]: a number sign and twenty digits. *)
Fixpoint decimal (digits : nat) (z : Z) : bytes :=
  match digits with
  | O => []
  | S digits => decimal digits (z / 10) ++ [byte_of_Z (48 + z mod 10)]
  end.
Definition debug_pid (pid : Pid) : bytes := String.list_byte_of_string "#" ++ decimal 20 pid.

Definition level_str (level : Log.Level) : bytes :=
  String.list_byte_of_string match level with
  | Log.Error => "ERR "
  | Log.Warn => "WARN"
  | Log.Info => "INFO"
  | Log.Debug => "DEBG"
  | Log.Trace => "TRCE"
  end.

Section log.
Context `{AnsiTerm} `{ScaleHandlers}.

(** The argument is [atty::is(atty::Stream::Stdout)]. *)
Definition LogHandler_new (is_tty : bool) : LogHandler :=
  {| lh_registered := false; enable_colors := is_tty; stdout := [] |}.

Definition println (line : bytes) : M LogHandler unit :=
  modify (λ h, {| lh_registered := lh_registered h; enable_colors := enable_colors h;
                  stdout := stdout h ++ [line] |}).

Definition hosted_log_next_event {W} : M LogHandler (Poll (NativeProgramEvent W)) :=
  h ← get;
  if negb (lh_registered h) then
    _ ← put {| lh_registered := true; enable_colors := enable_colors h; stdout := stdout h |};
    mret (Ready (NpEmit Interface.INTERFACE None (encode_interface_message (Interface.Register Log.INTERFACE))))
  else mret Pending.

(** The text before the message. *)
Definition log_header (colors : bool) (pid : Pid) (level : Log.Level) : bytes :=
  style_prefix colors ++ String.list_byte_of_string "[" ++ debug_pid pid ++
  String.list_byte_of_string "] [" ++ level_str level ++ String.list_byte_of_string "]" ++
  style_suffix colors ++ String.list_byte_of_string " ".

Definition hosted_log_interface_message (interface : InterfaceHash) (message_id : option MessageId)
    (emitter_pid : Pid) (message : EncodedMessage) : M LogHandler unit :=
  _ ← liftM (debug_assert (bool_decide (interface = Log.INTERFACE)));
  decoded ← liftM (Log.decode message);
  match decoded with
  | inr decoded =>
      message ← liftM (Log.message decoded);
      h ← get;
      println (log_header (enable_colors h) emitter_pid (Log.dl_level decoded) ++ sanitize message)
  | inl _ => println (String.list_byte_of_string "bad log message from " ++ debug_pid emitter_pid)
  end.

(** What a program logs is printed on one line, after its identifier and
    the level, with every control character removed, and nothing else
    changed: the text that is printed is valid UTF-8 without a control
    character, and it is the text of the program if that had none.  A text
    that is not UTF-8 is reported, and nothing that a program sends stops the
    kernel. *)
Theorem hosted_log_ok message_id pid (level : Log.Level) (text : bytes) h :
  hosted_log_interface_message Log.INTERFACE message_id pid (Log.log level text) h =
  Done (tt, {| lh_registered := lh_registered h; enable_colors := enable_colors h;
    stdout := stdout h ++ [if utf8_valid text
      then log_header (enable_colors h) pid level ++ sanitize text
      else String.list_byte_of_string "bad log message from " ++ debug_pid pid] |}) ∧
  (utf8_valid text = true →
    utf8_chars (sanitize text) = filter (λ c, negb (is_control c)) (utf8_chars text) ∧
    utf8_valid (sanitize text) = true ∧ existsb is_control (utf8_chars (sanitize text)) = false ∧
    (existsb is_control (utf8_chars text) = false → sanitize text = text)).
Proof.
  split; [|apply sanitize_sound]. unfold hosted_log_interface_message. rewrite bool_decide_true by done.
  rewrite Log.decode_log. destruct (utf8_valid text) eqn:Hu; [|done].
  assert (Hm : Log.message {| Log.dl_level := level; Log.buffer := Log.log level text |} = Done text).
  { unfold Log.message, Log.log. rewrite slice_from_total by (simpl; lia). simpl. by rewrite drop_0, Hu. }
  unfold mbind, M_bind, liftM. simpl. by rewrite Hm.
Qed.

End log.

(** * Random numbers *)

(** [hr_observed] counts the uses of the generator of the host. *)
Record HostedRandom := {
  hr_requests : Requests;
  hr_observed : nat;
}.

Section random.
Context `{Host} `{ScaleHandlers}.

Definition HostedRandom_new : HostedRandom := {| hr_requests := no_requests; hr_observed := 0 |}.

Definition hr_on_requests {A} (m : M Requests A) : M HostedRandom A :=
  zoom hr_requests (λ r h, {| hr_requests := r; hr_observed := hr_observed h |}) m.

Definition hosted_random_next_event {W} : M HostedRandom (Poll (NativeProgramEvent W)) :=
  hr_on_requests (requests_next_event Random.INTERFACE).

Definition hosted_random_interface_message (interface : InterfaceHash) (message_id : option MessageId)
    (emitter_pid : Pid) (message : EncodedMessage) : M HostedRandom unit :=
  _ ← liftM (debug_assert (bool_decide (interface = Random.INTERFACE)));
  match message_id with
  | None => mret tt
  | Some message_id =>
      match decode_random message with
      | Some (Random.Generate len) =>
          h ← get;
          let out := thread_rng_fill (hr_observed h) (Z.to_nat len) in
          _ ← put {| hr_requests := hr_requests h; hr_observed := S (hr_observed h) |};
          hr_on_requests (push_answer message_id (inr (encode_generate_response {| Random.result := out |})))
      | None => hr_on_requests (push_answer message_id (inl tt))
      end
  end.

(** The next answer to a request for random bytes, once those before it are
    sent, has the requested length; the others are not delayed. *)
Lemma hosted_random_answer `{!HostLaws} id pid message len h :
  decode_random message = Some (Random.Generate len) →
  ∃ out, length out = Z.to_nat len ∧
    hosted_random_interface_message Random.INTERFACE (Some id) pid message h =
    Done (tt, {| hr_requests := push_request (Some id)
        (inr (encode_generate_response {| Random.result := out |})) (hr_requests h);
      hr_observed := S (hr_observed h) |}).
Proof.
  intros Hdec. exists (thread_rng_fill (hr_observed h) (Z.to_nat len)). split; [apply thread_rng_length|].
  unfold hosted_random_interface_message. rewrite bool_decide_true by done. by rewrite Hdec.
Qed.

End random.
