(* ===== verification/Tcp.v ===== *)
(** The handler of TCP of the hosted kernel ([kernel/hosted-tcp/src/lib.rs],
    [interfaces/tcp/src/ffi.rs]): a native program in front of background
    tasks, one per socket and per listening port.

    A task is the receiving end of one channel, so the channel is part of the
    task, and a sender is the number of the task.  A send to a task that has
    ended fails.  The channel to the front is a list: the front never drops its
    end, so sending succeeds, and waiting for room in it is a step that comes
    later.  The steps of a task are driven by what its socket or its channel
    gives it ([Io]); every interleaving of steps and calls is allowed.  The
    bytes that a socket took are remembered ([st_sent]). *)
From S2P Require Import Prelude Ffi Messages Native Hardware Standalone StandaloneInv.

(** * Messages *)

Module Tcp.

Definition INTERFACE : InterfaceHash := byte_of_Z <$>
  [ 0x10; 0x19; 0x16; 0x2a; 0x2b; 0x0c; 0x41; 0x36; 0x4a; 0x20; 0x01; 0x51; 0x47; 0x38; 0x27; 0x08;
    0x4a; 0x3c; 0x1e; 0x07; 0x18; 0x1c; 0x27; 0x11; 0x55; 0x15; 0x1d; 0x5f; 0x22; 0x5b; 0x16; 0x20 ].

End Tcp.

(** [ip] is eight 16-bit words. *)
Record TcpOpen := { open_listen : bool; open_ip : list Z; open_port : Z }.

Inductive TcpMessage :=
  | Tcp_Open (o : TcpOpen)
  | Tcp_Close (socket_id : Z)
  | Tcp_Read (socket_id : Z)
  | Tcp_Write (socket_id : Z) (data : bytes).

Record TcpSocketOpen := {
  so_socket_id : Z;
  so_local_ip : list Z;
  so_local_port : Z;
  so_remote_ip : list Z;
  so_remote_port : Z;
}.

Record TcpOpenResponse := { tor_result : unit + TcpSocketOpen }.
Record TcpReadResponse := { trr_result : unit + bytes }.
Record TcpWriteResponse := { twr_result : unit + unit }.

(** The codec at these messages. *)
Class ScaleTcp := {
  decode_tcp : EncodedMessage → option TcpMessage;
  encode_open_response : TcpOpenResponse → EncodedMessage;
  encode_read_response : TcpReadResponse → EncodedMessage;
  encode_write_response : TcpWriteResponse → EncodedMessage;
}.

(** [rand::random::<u32>()], by the number of earlier calls. *)
Class HostRandom := { random_u32 : nat → Z }.

Class HostRandomLaws `{HostRandom} := { random_u32_range : ∀ n, 0 ≤ random_u32 n ≤ u32_max }.

(** * State *)

(** The number of a task. *)
Abbreviation Sender := nat.

Inductive FrontSocketState :=
  | Orphan
  | Connected (sender : Sender)
  | Listener (sender : Sender).

Inductive FrontToBackSocket :=
  | Fb_Read (message_id : MessageId)
  | Fb_Write (message_id : MessageId) (data : bytes).

Inductive FrontToBackListener :=
  | Fb_NewSocket (socket_id : Z) (open_message_id : MessageId).

Inductive BackToFront :=
  | Bf_OpenOk (open_message_id : MessageId) (socket_id : Z) (sender : Sender)
  | Bf_OpenErr (open_message_id : MessageId) (socket_id : Z)
  | Bf_Read (message_id : MessageId) (result : unit + bytes)
  | Bf_Write (message_id : MessageId) (result : unit + unit).

Inductive SocketAddr :=
  | AddrV4 (high low : Z) (port : Z)
  | AddrV6 (ip : list Z) (port : Z).

(** The variables of [open_socket_task]. *)
Record SocketTask := {
  write_buffer : bytes;
  write_buffer_offset : nat;
  write_message : option MessageId;
  read_buffer : bytes;
  read_message : option MessageId;
  st_sent : bytes;
}.

Inductive Task :=
  | T_Connect (socket_id : Z) (open_message_id : MessageId) (socket_addr : SocketAddr)
  | T_Open (st : SocketTask) (commands_rx : list FrontToBackSocket)
  | T_Bind (local_socket_addr : SocketAddr) (front_to_back : list FrontToBackListener)
  | T_Listen (pending_sockets : list (Z * MessageId)) (front_to_back : list FrontToBackListener)
  | T_Ended.

Record TcpHandler := {
  tcp_registered : bool;
  receiver : list BackToFront;
  sockets : gmap Z FrontSocketState;
  tcp_listeners : gmap Z Sender;
  tcp_tasks : list Task;
  tcp_random : nat;
}.

Definition set_receiver (l : list BackToFront) (s : TcpHandler) : TcpHandler :=
  {| tcp_registered := tcp_registered s; receiver := l; sockets := sockets s;
     tcp_listeners := tcp_listeners s; tcp_tasks := tcp_tasks s; tcp_random := tcp_random s |}.
Definition set_sockets (m : gmap Z FrontSocketState) (s : TcpHandler) : TcpHandler :=
  {| tcp_registered := tcp_registered s; receiver := receiver s; sockets := m;
     tcp_listeners := tcp_listeners s; tcp_tasks := tcp_tasks s; tcp_random := tcp_random s |}.
Definition set_listeners (m : gmap Z Sender) (s : TcpHandler) : TcpHandler :=
  {| tcp_registered := tcp_registered s; receiver := receiver s; sockets := sockets s;
     tcp_listeners := m; tcp_tasks := tcp_tasks s; tcp_random := tcp_random s |}.
Definition set_tasks (l : list Task) (s : TcpHandler) : TcpHandler :=
  {| tcp_registered := tcp_registered s; receiver := receiver s; sockets := sockets s;
     tcp_listeners := tcp_listeners s; tcp_tasks := l; tcp_random := tcp_random s |}.

Definition TcpHandler_new : TcpHandler :=
  {| tcp_registered := false; receiver := []; sockets := ∅; tcp_listeners := ∅; tcp_tasks := [];
     tcp_random := 0 |}.

(** * Front *)

Section front.
Context `{ScaleHandlers} `{ScaleTcp} `{HostRandom}.
Local Abbreviation T := (M TcpHandler).

(** [task::spawn]. *)
Definition spawn (t : Task) : T Sender := λ s,
  Done (length (tcp_tasks s), set_tasks (tcp_tasks s ++ [t]) s).

(** [unbounded_send(..).unwrap()]. *)
Definition send_socket (k : Sender) (cmd : FrontToBackSocket) : T unit :=
  s ← get;
  match tcp_tasks s !! k with
  | Some (T_Open st rx) => put (set_tasks (<[k := T_Open st (rx ++ [cmd])]> (tcp_tasks s)) s)
  | _ => panic PUnwrap
  end.

Definition send_listener (k : Sender) (cmd : FrontToBackListener) : T unit :=
  s ← get;
  match tcp_tasks s !! k with
  | Some (T_Bind a rx) => put (set_tasks (<[k := T_Bind a (rx ++ [cmd])]> (tcp_tasks s)) s)
  | Some (T_Listen p rx) => put (set_tasks (<[k := T_Listen p (rx ++ [cmd])]> (tcp_tasks s)) s)
  | _ => panic PUnwrap
  end.

Definition zero_ip : list Z := replicate 8 0.

Definition tcp_next_event {W} : T (Poll (NativeProgramEvent W)) :=
  s ← get;
  if negb (tcp_registered s) then
    _ ← put {| tcp_registered := true; receiver := receiver s; sockets := sockets s;
               tcp_listeners := tcp_listeners s; tcp_tasks := tcp_tasks s; tcp_random := tcp_random s |};
    mret (Ready (NpEmit Interface.INTERFACE None (encode_interface_message (Interface.Register Tcp.INTERFACE))))
  else
    match receiver s with
    | [] => mret Pending
    | message :: rest =>
        _ ← put (set_receiver rest s);
        match message with
        | Bf_OpenOk open_message_id socket_id sender =>
            _ ← liftM (unwrap (sockets s !! socket_id));
            _ ← modify (λ s, set_sockets (<[socket_id := Connected sender]> (sockets s)) s);
            mret (Ready (NpAnswer open_message_id (inr (encode_open_response {| tor_result := inr {|
              so_socket_id := socket_id; so_local_ip := zero_ip; so_local_port := 0;
              so_remote_ip := zero_ip; so_remote_port := 0 |} |}))))
        | Bf_OpenErr open_message_id socket_id =>
            let front_state := sockets s !! socket_id in
            _ ← modify (λ s, set_sockets (delete socket_id (sockets s)) s);
            _ ← liftM (debug_assert match front_state with Some Orphan => true | _ => false end);
            mret (Ready (NpAnswer open_message_id (inr (encode_open_response {| tor_result := inl tt |}))))
        | Bf_Read message_id result =>
            mret (Ready (NpAnswer message_id (inr (encode_read_response {| trr_result := result |}))))
        | Bf_Write message_id result =>
            mret (Ready (NpAnswer message_id (inr (encode_write_response {| twr_result := result |}))))
        end
    end.

(** [Ipv6Addr::to_ipv4]: the addresses that start with five zero words and then
    zero or [0xffff]. *)
Definition socket_addr_of (o : TcpOpen) : SocketAddr :=
  match open_ip o with
  | [0; 0; 0; 0; 0; f; g; h] =>
      if bool_decide (f = 0) || bool_decide (f = 0xffff) then AddrV4 g h (open_port o)
      else AddrV6 (open_ip o) (open_port o)
  | ip => AddrV6 ip (open_port o)
  end.

(** The loop that looks for a vacant entry. *)
Fixpoint find_vacant (fuel : nat) (m : gmap Z FrontSocketState) (tentative : Z) : outcome Z :=
  match fuel with
  | O => NoFuel
  | S fuel =>
      match m !! tentative with
      | None => Done tentative
      | Some _ => find_vacant fuel m ((tentative + 1) mod 2 ^ 32)
      end
  end.

(** The fuel is one more than the number of sockets. *)
Definition vacant_entry : T Z :=
  s ← get;
  _ ← put {| tcp_registered := tcp_registered s; receiver := receiver s; sockets := sockets s;
             tcp_listeners := tcp_listeners s; tcp_tasks := tcp_tasks s; tcp_random := S (tcp_random s) |};
  liftM (find_vacant (S (size (sockets s))) (sockets s) (random_u32 (tcp_random s))).

(** [listeners.entry(port).or_insert_with(..)]. *)
Definition listener_sender (addr : SocketAddr) (port : Z) : T Sender :=
  s ← get;
  match tcp_listeners s !! port with
  | Some k => mret k
  | None =>
      k ← spawn (T_Bind addr []);
      _ ← modify (λ s, set_listeners (<[port := k]> (tcp_listeners s)) s);
      mret k
  end.

Definition tcp_open (o : TcpOpen) (message_id : MessageId) : T unit :=
  let socket_addr := socket_addr_of o in
  socket_id ← vacant_entry;
  if open_listen o then
    k ← listener_sender socket_addr (open_port o);
    _ ← send_listener k (Fb_NewSocket socket_id message_id);
    modify (λ s, set_sockets (<[socket_id := Listener k]> (sockets s)) s)
  else
    _ ← spawn (T_Connect socket_id message_id socket_addr);
    modify (λ s, set_sockets (<[socket_id := Orphan]> (sockets s)) s).

(** [as_mut_connected]. *)
Definition as_mut_connected (f : FrontSocketState) : option Sender :=
  match f with Connected k => Some k | _ => None end.

(** [sockets.get_mut(..).unwrap().as_mut_connected().unwrap()]. *)
Definition connected_sender (socket_id : Z) : T Sender :=
  s ← get;
  f ← liftM (unwrap (sockets s !! socket_id));
  liftM (unwrap (as_mut_connected f)).

Definition tcp_interface_message (interface : InterfaceHash) (message_id : option MessageId)
    (emitter_pid : Pid) (message : EncodedMessage) : T unit :=
  _ ← liftM (debug_assert (bool_decide (interface = Tcp.INTERFACE)));
  match decode_tcp message, message_id with
  | None, _ => mret tt
  | Some (Tcp_Open o), Some id => tcp_open o id
  | Some (Tcp_Close socket_id), _ =>
      modify (λ s, set_sockets (delete socket_id (sockets s)) s)
  | Some (Tcp_Read socket_id), Some id =>
      k ← connected_sender socket_id;
      send_socket k (Fb_Read id)
  | Some (Tcp_Write socket_id data), Some id =>
      k ← connected_sender socket_id;
      send_socket k (Fb_Write id data)
  | Some _, None => mret tt
  end.

End front.

(** * Back *)

(** What a task waits for, and gets. *)
Inductive Io :=
  | Io_Command                  (** the channel of the task *)
  | Io_Connect (ok : bool)      (** [TcpStream::connect] *)
  | Io_Write (written : option nat)   (** [write], [None] if it fails *)
  | Io_Read (data : option bytes)     (** [read] *)
  | Io_Bind (ok : bool)         (** [TcpListener::bind] *)
  | Io_Accept (ok : bool).      (** [accept] *)

Definition new_socket_task : SocketTask :=
  {| write_buffer := []; write_buffer_offset := 0; write_message := None; read_buffer := [];
     read_message := None; st_sent := [] |}.

(** The size of the buffer that is read into. *)
Definition READ_SIZE : nat := 512.

(** [partial_write], up to the call of [write]. *)
Definition check_write (st : SocketTask) : outcome unit :=
  if bool_decide (is_Some (write_message st)) then
    _ ← debug_assert (bool_decide (write_buffer st ≠ []));
    debug_assert (bool_decide (write_buffer_offset st < length (write_buffer st))%nat)
  else Done tt.

(** [read], up to the call of [read]. *)
Definition check_read (st : SocketTask) : outcome unit :=
  if bool_decide (is_Some (read_message st)) then assert_ (bool_decide (read_buffer st ≠ [])) else Done tt.

(** [WhatHappened::ReadCmd] and [WriteCmd]. *)
Definition on_command (cmd : FrontToBackSocket) (st : SocketTask) : outcome SocketTask :=
  match cmd with
  | Fb_Read message_id =>
      if bool_decide (is_Some (read_message st)) then Panic PExplicit else
      _ ← assert_ (bool_decide (read_buffer st = []));
      Done {| write_buffer := write_buffer st; write_buffer_offset := write_buffer_offset st;
              write_message := write_message st; read_buffer := replicate READ_SIZE Init.Byte.x00;
              read_message := Some message_id; st_sent := st_sent st |}
  | Fb_Write message_id data =>
      if bool_decide (is_Some (write_message st)) then Panic PExplicit else
      _ ← debug_assert (bool_decide (write_buffer st = []));
      _ ← debug_assert (bool_decide (write_buffer_offset st = 0%nat));
      Done {| write_buffer := data; write_buffer_offset := 0; write_message := Some message_id;
              read_buffer := read_buffer st; read_message := read_message st; st_sent := st_sent st |}
  end.

(** The end of [partial_write], which took [n] bytes, and
    [WhatHappened::WriteFinished]: the message to the front, if any. *)
Definition on_written (n : nat) (st : SocketTask) : outcome (SocketTask * option BackToFront) :=
  rest ← slice_from (write_buffer st) (write_buffer_offset st);
  _ ← debug_assert (bool_decide (write_buffer_offset st + n ≤ length (write_buffer st))%nat);
  let offset := (write_buffer_offset st + n)%nat in
  let sent := st_sent st ++ take n rest in
  if bool_decide (offset = length (write_buffer st)) then
    message_id ← unwrap (write_message st);
    Done ({| write_buffer := []; write_buffer_offset := 0; write_message := None;
             read_buffer := read_buffer st; read_message := read_message st; st_sent := sent |},
          Some (Bf_Write message_id (inr tt)))
  else
    Done ({| write_buffer := write_buffer st; write_buffer_offset := offset;
             write_message := write_message st; read_buffer := read_buffer st;
             read_message := read_message st; st_sent := sent |}, None).

(** The end of [read], which gave [data], and [WhatHappened::ReadFinished]. *)
Definition on_read (data : bytes) (st : SocketTask) : outcome (SocketTask * option BackToFront) :=
  message_id ← unwrap (read_message st);
  Done ({| write_buffer := write_buffer st; write_buffer_offset := write_buffer_offset st;
           write_message := write_message st; read_buffer := []; read_message := None;
           st_sent := st_sent st |},
        Some (Bf_Read message_id (inr data))).

Section back.
Local Abbreviation T := (M TcpHandler).

Definition set_task (k : nat) (t : Task) : T unit :=
  modify (λ s, set_tasks (<[k := t]> (tcp_tasks s)) s).

(** [back_to_front.send(..).await]. *)
Definition to_front (m : BackToFront) : T unit :=
  modify (λ s, set_receiver (receiver s ++ [m]) s).

Definition to_front_opt (m : option BackToFront) : T unit :=
  match m with Some m => to_front m | None => mret tt end.

(** Whether the sender of the task [k] still exists. *)
Definition sender_alive (k : Sender) (s : TcpHandler) : bool :=
  existsb (λ p, match p.2 with Connected k' => bool_decide (k' = k) | _ => false end)
    (map_to_list (sockets s)) ||
  existsb (λ m, match m with Bf_OpenOk _ _ k' => bool_decide (k' = k) | _ => false end) (receiver s).

(** One iteration of the loop of [open_socket_task].  The write is polled
    first, then the read, then the commands.  A read gives at most the size of
    the buffer, and a write takes at most what it is given; otherwise nothing
    happens here. *)
Definition open_socket_step (k : nat) (st : SocketTask) (rx : list FrontToBackSocket) (e : Io) : T unit :=
  _ ← liftM (check_write st);
  match e, write_message st, read_message st with
  | Io_Write None, Some _, _ => panic PUnwrap
  | Io_Write (Some n), Some _, _ =>
      if bool_decide (write_buffer_offset st + n ≤ length (write_buffer st))%nat then
        '(st, m) ← liftM (on_written n st);
        _ ← set_task k (T_Open st rx);
        to_front_opt m
      else mret tt
  | Io_Read None, _, Some _ =>
      _ ← liftM (check_read st);
      panic PUnwrap
  | Io_Read (Some data), _, Some _ =>
      _ ← liftM (check_read st);
      if bool_decide (length data ≤ length (read_buffer st))%nat then
        '(st, m) ← liftM (on_read data st);
        _ ← set_task k (T_Open st rx);
        to_front_opt m
      else mret tt
  | Io_Command, _, _ =>
      _ ← liftM (check_read st);
      match rx with
      | cmd :: rx =>
          st ← liftM (on_command cmd st);
          set_task k (T_Open st rx)
      | [] =>
          s ← get;
          if sender_alive k s then mret tt else set_task k T_Ended
      end
  | _, _, _ => mret tt
  end.

(** One iteration of [listener_task], once bound. *)
Definition listener_step (k : nat) (pending : list (Z * MessageId)) (rx : list FrontToBackListener)
    (e : Io) : T unit :=
  match e with
  | Io_Command =>
      match rx with
      | Fb_NewSocket socket_id open_message_id :: rx =>
          set_task k (T_Listen (pending ++ [(socket_id, open_message_id)]) rx)
      | [] => mret tt
      end
  | Io_Accept true =>
      match pending with
      | (socket_id, open_message_id) :: pending =>
          _ ← set_task k (T_Listen pending rx);
          tx ← spawn (T_Open new_socket_task []);
          to_front (Bf_OpenOk open_message_id socket_id tx)
      | [] => mret tt
      end
  | Io_Accept false => panic PExplicit
  | _ => mret tt
  end.

(** A step of the task [k]. *)
Definition task_step (k : nat) (e : Io) : T unit :=
  s ← get;
  match tcp_tasks s !! k with
  | Some (T_Connect socket_id open_message_id _) =>
      match e with
      | Io_Connect true =>
          _ ← set_task k (T_Open new_socket_task []);
          to_front (Bf_OpenOk open_message_id socket_id k)
      | Io_Connect false =>
          _ ← set_task k T_Ended;
          to_front (Bf_OpenErr open_message_id socket_id)
      | _ => mret tt
      end
  | Some (T_Open st rx) => open_socket_step k st rx e
  | Some (T_Bind _ rx) =>
      match e with
      | Io_Bind true => set_task k (T_Listen [] rx)
      | Io_Bind false => set_task k T_Ended
      | _ => mret tt
      end
  | Some (T_Listen pending rx) => listener_step k pending rx e
  | Some T_Ended | None => mret tt
  end.

End back.
