(* ===== verification/TcpInv.v ===== *)
(** Correctness of the handler of TCP: requests are answered at most once
    whatever the interleaving of its tasks, a connected socket always has its
    task, and what a program writes is sent whole and in order. *)
From S2P Require Import Prelude Ffi Messages Native Hardware Standalone StandaloneInv Tcp.

(** * Requests that are owed an answer *)

Definition command_id (c : FrontToBackSocket) : MessageId :=
  match c with Fb_Read id | Fb_Write id _ => id end.
Definition listener_id (c : FrontToBackListener) : MessageId :=
  match c with Fb_NewSocket _ id => id end.
Definition back_id (m : BackToFront) : MessageId :=
  match m with Bf_OpenOk id _ _ | Bf_OpenErr id _ | Bf_Read id _ | Bf_Write id _ => id end.

Definition task_owed (t : Task) : list MessageId :=
  match t with
  | T_Connect _ id _ => [id]
  | T_Open st rx => option_list (write_message st) ++ option_list (read_message st) ++ (command_id <$> rx)
  | T_Bind _ rx => listener_id <$> rx
  | T_Listen pending rx => pending.*2 ++ (listener_id <$> rx)
  | T_Ended => []
  end.

Definition tcp_owed (s : TcpHandler) : list MessageId :=
  concat (task_owed <$> tcp_tasks s) ++ (back_id <$> receiver s).

Lemma concat_delete {A B} (f : A → list B) (l : list A) k x :
  l !! k = Some x → concat (f <$> l) ≡ₚ f x ++ concat (f <$> delete k l).
Proof.
  intros Hk. rewrite delete_take_drop. rewrite <-(take_drop_middle l k x Hk) at 1.
  rewrite !fmap_app, !concat_app. cbn [fmap list_fmap concat]. rewrite !(assoc_L (++)).
  by rewrite (comm (++) (concat (f <$> take k l)) (f x)).
Qed.

Lemma concat_insert {A B} (f : A → list B) (l : list A) k x y :
  l !! k = Some x → concat (f <$> <[k := y]> l) ≡ₚ f y ++ concat (f <$> delete k l).
Proof.
  intros Hk. rewrite (concat_delete f (<[k := y]> l) k y).
  - by rewrite !delete_take_drop, take_insert_ge, drop_insert_lt by lia.
  - apply list_lookup_insert_eq. by eapply lookup_lt_Some.
Qed.

(** A task moves on, and tells the front [new]. *)
Lemma owed_step s k t t' new :
  tcp_tasks s !! k = Some t → task_owed t' ++ (back_id <$> new) ⊆+ task_owed t →
  tcp_owed (set_receiver (receiver s ++ new) (set_tasks (<[k := t']> (tcp_tasks s)) s)) ⊆+ tcp_owed s.
Proof.
  intros Hk Hsub. unfold tcp_owed. simpl. rewrite (concat_insert _ _ _ _ t' Hk), (concat_delete _ _ _ _ Hk).
  rewrite fmap_app. etrans; [|apply submseteq_app; [apply submseteq_app; [exact Hsub|reflexivity]|reflexivity]].
  apply Permutation_submseteq. rewrite <-!(assoc_L (++)). apply Permutation_app_head.
  rewrite !(assoc_L (++)). by rewrite (comm (++) _ (back_id <$> new)), (assoc_L (++)).
Qed.

(** A task is sent [id]. *)
Lemma owed_send s k t t' id :
  tcp_tasks s !! k = Some t → task_owed t' ≡ₚ id :: task_owed t →
  tcp_owed (set_tasks (<[k := t']> (tcp_tasks s)) s) ≡ₚ id :: tcp_owed s.
Proof.
  intros Hk Hp. unfold tcp_owed. simpl.
  rewrite (concat_insert _ _ _ _ t' Hk), (concat_delete _ _ _ _ Hk), Hp. done.
Qed.

Lemma owed_spawn s t :
  tcp_owed (set_tasks (tcp_tasks s ++ [t]) s) ≡ₚ task_owed t ++ tcp_owed s.
Proof.
  unfold tcp_owed. simpl. rewrite fmap_app, concat_app. simpl. rewrite app_nil_r.
  rewrite !(assoc_L (++)). by rewrite (comm (++) _ (task_owed t)).
Qed.

(** * The invariant *)

(** The variables of the task of a socket. *)
Definition socket_inv (st : SocketTask) : Prop :=
  match write_message st with
  | None => write_buffer st = [] ∧ write_buffer_offset st = 0%nat
  | Some _ => write_buffer_offset st < length (write_buffer st) ∨
      write_buffer st = [] ∧ write_buffer_offset st = 0
  end%nat ∧
  match read_message st with
  | None => read_buffer st = []
  | Some _ => length (read_buffer st) = READ_SIZE
  end.

Definition task_inv (t : Task) : Prop :=
  match t with T_Open st _ => socket_inv st | _ => True end.

(** The task [k] is that of an open socket. *)
Definition open_task (l : list Task) (k : nat) : Prop := ∃ st rx, l !! k = Some (T_Open st rx).

Record tcp_inv (s : TcpHandler) : Prop := {
  ti_tasks : Forall task_inv (tcp_tasks s);
  ti_connected : ∀ i k, sockets s !! i = Some (Connected k) → open_task (tcp_tasks s) k;
  ti_open : ∀ id i k, Bf_OpenOk id i k ∈ receiver s → open_task (tcp_tasks s) k;
}.

Lemma tcp_new_inv : tcp_inv TcpHandler_new.
Proof. split; [constructor|done|set_solver]. Qed.

Lemma open_task_insert l k t k' :
  open_task l k' → (k' = k → ∃ st rx, t = T_Open st rx) → open_task (<[k := t]> l) k'.
Proof.
  intros (st & rx & Hk') Ht. destruct (decide (k' = k)) as [->|Hne].
  - destruct (Ht eq_refl) as (st' & rx' & ->). exists st', rx'. apply list_lookup_insert_eq.
    by eapply lookup_lt_Some.
  - exists st, rx. by rewrite list_lookup_insert_ne.
Qed.

Lemma open_task_app l l' k : open_task l k → open_task (l ++ l') k.
Proof. intros (st & rx & Hk). exists st, rx. by apply lookup_app_l_Some. Qed.

(** A task that is not one of an open socket may become anything, and one that
    is may only go on. *)
Lemma inv_set_task s k t t' new :
  tcp_inv s → tcp_tasks s !! k = Some t → task_inv t' →
  (∀ st rx, t = T_Open st rx → (∃ st' rx', t' = T_Open st' rx') ∨ sender_alive k s = false) →
  (∀ id i k', Bf_OpenOk id i k' ∈ new → k' = k ∧ ∃ st rx, t' = T_Open st rx) →
  tcp_inv (set_receiver (receiver s ++ new) (set_tasks (<[k := t']> (tcp_tasks s)) s)).
Proof.
  intros [Ht Hc Ho] Hk Hinv Hgo Hnew.
  assert (Hkeep : ∀ k', open_task (tcp_tasks s) k' → (k' = k → sender_alive k s = true) →
    open_task (<[k := t']> (tcp_tasks s)) k').
  { intros k' Hopen Halive. apply open_task_insert; [done|]. intros ->.
    destruct Hopen as (st & rx & Hk'). rewrite Hk in Hk'. injection Hk' as ->.
    destruct (Hgo st rx eq_refl) as [?|Hdead]; [done|]. by rewrite Halive in Hdead. }
  split; simpl.
  - by apply Forall_insert.
  - intros i k' Hi. apply Hkeep; [by eapply Hc|]. intros ->. unfold sender_alive. apply orb_true_iff. left.
    apply existsb_exists. exists (i, Connected k). split; [|by apply bool_decide_eq_true].
    by apply list_elem_of_In, elem_of_map_to_list.
  - intros id i k' [Hin|Hin]%elem_of_app.
    + apply Hkeep; [by eapply Ho|]. intros ->. unfold sender_alive. apply orb_true_iff. right.
      apply existsb_exists. exists (Bf_OpenOk id i k). split; [by apply list_elem_of_In|by apply bool_decide_eq_true].
    + destruct (Hnew _ _ _ Hin) as (-> & st & rx & ->). exists st, rx. apply list_lookup_insert_eq.
      by eapply lookup_lt_Some.
Qed.

(** * The tasks *)

(** Why a step of the task [k] may stop: the socket fails, a second read or
    write is asked for before the first is done, or a program writes nothing. *)
Definition step_panics (s : TcpHandler) (k : nat) (e : Io) (r : panic_reason) : Prop :=
  r = PUnwrap ∧ (e = Io_Write None ∨ e = Io_Read None) ∨
  r = PExplicit ∧ (e = Io_Command ∨ e = Io_Accept false) ∨
  r = PDebugAssert ∧ ∃ st rx, tcp_tasks s !! k = Some (T_Open st rx) ∧ is_Some (write_message st) ∧
    write_buffer st = [].

(** The task [k] becomes [t], and the front is told [new]. *)
Definition moved (k : nat) (t : Task) (new : list BackToFront) (s : TcpHandler) : TcpHandler :=
  set_receiver (receiver s ++ new) (set_tasks (<[k := t]> (tcp_tasks s)) s).

Lemma moved_nil k t s : moved k t [] s = set_tasks (<[k := t]> (tcp_tasks s)) s.
Proof. unfold moved. rewrite app_nil_r. by destruct s. Qed.

(** What a step keeps. *)
Definition kept (s s' : TcpHandler) : Prop :=
  tcp_inv s' ∧ tcp_owed s' ⊆+ tcp_owed s ∧ sockets s' = sockets s ∧ tcp_listeners s' = tcp_listeners s.

Lemma kept_refl s : tcp_inv s → kept s s.
Proof. intros Hs. unfold kept. by split_and!. Qed.

(** A step of an open socket goes on, with [new] for the front. *)
Lemma kept_open s k st rx st' rx' new :
  tcp_inv s → tcp_tasks s !! k = Some (T_Open st rx) → socket_inv st' →
  task_owed (T_Open st' rx') ++ (back_id <$> new) ⊆+ task_owed (T_Open st rx) →
  (∀ id i k', Bf_OpenOk id i k' ∉ new) → kept s (moved k (T_Open st' rx') new s).
Proof.
  intros Hs Hk Hst Hsub Hnew. unfold kept. split_and!; [|by eapply owed_step|done..].
  eapply inv_set_task; [done..|by eauto|]. intros id i k' Hin. by apply Hnew in Hin.
Qed.

(** A step of a task that is not an open socket. *)
Lemma kept_other s k t t' new :
  tcp_inv s → tcp_tasks s !! k = Some t → (∀ st rx, t ≠ T_Open st rx) → task_inv t' →
  task_owed t' ++ (back_id <$> new) ⊆+ task_owed t →
  (∀ id i k', Bf_OpenOk id i k' ∈ new → k' = k ∧ ∃ st rx, t' = T_Open st rx) →
  kept s (moved k t' new s).
Proof.
  intros Hs Hk Hno Ht Hsub Hnew. unfold kept. split_and!; [|by eapply owed_step|done..].
  eapply inv_set_task; [done..| |done]. intros st rx ->. by destruct (Hno st rx).
Qed.

Lemma socket_inv_at s k st rx : tcp_inv s → tcp_tasks s !! k = Some (T_Open st rx) → socket_inv st.
Proof. intros Hs Hk. exact (Forall_lookup_1 _ _ _ _ (ti_tasks _ Hs) Hk). Qed.

Lemma check_write_sound s k e st rx :
  socket_inv st → tcp_tasks s !! k = Some (T_Open st rx) →
  wp (step_panics s k e) (check_write st) (λ _, is_Some (write_message st) →
    (write_buffer_offset st < length (write_buffer st))%nat).
Proof.
  intros [Hw _] Hk. unfold check_write. destruct (write_message st) as [id|] eqn:Hm.
  2:{ rewrite bool_decide_false by (apply is_Some_None). simpl. by intros []. }
  rewrite (bool_decide_true (is_Some (Some id))) by done. destruct Hw as [Hlt|[He Ho]].
  - rewrite (bool_decide_true (write_buffer st ≠ []))
      by (intros He; rewrite He in Hlt; simpl in Hlt; lia).
    rewrite (bool_decide_true (write_buffer_offset st < length (write_buffer st))%nat) by done. by intros _.
  - rewrite (bool_decide_false (write_buffer st ≠ [])) by naive_solver. simpl. right. right. split; [done|].
    exists st, rx. by rewrite Hm.
Qed.

Lemma check_read_sound st : socket_inv st → check_read st = Done tt.
Proof.
  intros [_ Hr]. unfold check_read. destruct (read_message st) as [id|].
  2:{ by rewrite bool_decide_false by (apply is_Some_None). }
  rewrite (bool_decide_true (is_Some (Some id))) by done. by rewrite (bool_decide_true (read_buffer st ≠ [])) by (intros He; rewrite He in Hr; done).
Qed.

Lemma on_written_sound n st id :
  socket_inv st → write_message st = Some id → (write_buffer_offset st < length (write_buffer st))%nat →
  (write_buffer_offset st + n ≤ length (write_buffer st))%nat →
  ∃ st' m, on_written n st = Done (st', m) ∧ socket_inv st' ∧ read_message st' = read_message st ∧
    st_sent st' = st_sent st ++ take n (drop (write_buffer_offset st) (write_buffer st)) ∧
    if bool_decide (write_buffer_offset st + n = length (write_buffer st))%nat
    then m = Some (Bf_Write id (inr tt)) ∧ write_message st' = None ∧ write_buffer st' = []
    else m = None ∧ write_message st' = Some id ∧ write_buffer st' = write_buffer st ∧
         write_buffer_offset st' = (write_buffer_offset st + n)%nat.
Proof.
  intros [Hw Hr] Hm Hlt Hle. unfold on_written. rewrite slice_from_total by lia. simpl.
  rewrite (bool_decide_true (write_buffer_offset st + n ≤ length (write_buffer st))%nat) by done. simpl.
  rewrite Hm. simpl. case_bool_decide; eexists _, _; split_and!; try done.
  split; [simpl|done]. left. lia.
Qed.

Lemma on_command_sound cmd st :
  socket_inv st →
  wp (λ r, r = PExplicit) (on_command cmd st) (λ st', socket_inv st' ∧ st_sent st' = st_sent st ∧
    option_list (write_message st') ++ option_list (read_message st') ≡ₚ
      command_id cmd :: option_list (write_message st) ++ option_list (read_message st)).
Proof.
  intros [Hw Hr]. destruct cmd as [id|id data]; simpl.
  - destruct (read_message st) as [id'|] eqn:Hm; simpl; [done|]. rewrite Hr. simpl.
    split_and!; [by split|done|]. symmetry. rewrite app_nil_r. apply Permutation_cons_append.
  - destruct (write_message st) as [id'|] eqn:Hm; simpl; [done|]. destruct Hw as [-> ->]. simpl.
    split_and!; [|done..]. split; [|done]. simpl. destruct data; [right|left]; simpl; [done|lia].
Qed.

Lemma written_step s k st rx n :
  tcp_inv s → tcp_tasks s !! k = Some (T_Open st rx) → is_Some (write_message st) →
  (write_buffer_offset st < length (write_buffer st))%nat →
  (write_buffer_offset st + n ≤ length (write_buffer st))%nat →
  ∃ st' m, on_written n st = Done (st', m) ∧ kept s (moved k (T_Open st' rx) (option_list m) s).
Proof.
  intros Hs Hk [id Hid] Hlt Hle. pose proof (socket_inv_at _ _ _ _ Hs Hk) as Hst.
  destruct (on_written_sound n st id Hst Hid Hlt Hle) as (st' & m & He & Hst' & Hr & _ & Hm).
  exists st', m. split; [done|]. eapply kept_open; try done.
  - simpl. rewrite Hr, Hid. case_bool_decide.
    + destruct Hm as (-> & -> & _). simpl. by rewrite (comm (++)).
    + destruct Hm as (-> & -> & _). simpl. by rewrite app_nil_r.
  - case_bool_decide; destruct Hm as (-> & _); set_solver.
Qed.

Lemma read_step s k st rx id data :
  tcp_inv s → tcp_tasks s !! k = Some (T_Open st rx) → read_message st = Some id →
  ∃ st', on_read data st = Done (st', Some (Bf_Read id (inr data))) ∧
    kept s (moved k (T_Open st' rx) [Bf_Read id (inr data)] s).
Proof.
  intros Hs Hk Hid. destruct (socket_inv_at _ _ _ _ Hs Hk) as [Hw _]. unfold on_read. rewrite Hid. simpl.
  eexists. split; [done|]. eapply kept_open; try done; [|set_solver]. simpl. rewrite Hid. simpl.
  apply Permutation_submseteq. rewrite <-(assoc_L (++)). apply Permutation_app_head.
  symmetry. apply Permutation_cons_append.
Qed.

Lemma open_socket_sound s k st rx e :
  tcp_inv s → tcp_tasks s !! k = Some (T_Open st rx) →
  wp (step_panics s k e) (open_socket_step k st rx e s) (λ '(_, s'), kept s s').
Proof.
  intros Hs Hk. pose proof (socket_inv_at _ _ _ _ Hs Hk) as Hst. unfold open_socket_step.
  apply wp_Mbind, wp_liftM. eapply wp_mono; [by eapply check_write_sound|]. intros [] Hlt.
  pose proof (kept_refl s Hs) as Hrefl.
  destruct e as [| |[n|]|[data|]| |]; try done.
  - rewrite (check_read_sound _ Hst). unfold mbind, M_bind, liftM at 1. cbv beta iota.
    destruct rx as [|cmd rx].
    + simpl. destruct (sender_alive k s) eqn:Ha; [done|]. simpl. rewrite <-moved_nil.
      unfold kept. split_and!; [|eapply owed_step; [done|apply submseteq_nil_l]|done..].
      eapply inv_set_task; [done..|by eauto|set_solver].
    + apply wp_Mbind, wp_liftM. eapply wp_mono; [eapply wp_weaken; [by apply on_command_sound|]|].
      { intros r ->. right. left. by auto. }
      intros st' (Hst' & _ & Hp). simpl. rewrite <-moved_nil. eapply kept_open; try done; [|set_solver].
      simpl. rewrite app_nil_r, !(assoc_L (++)), Hp. simpl. by rewrite Permutation_middle.
  - destruct (write_message st) as [id|] eqn:Hid; [|done]. case_bool_decide as Hle; [|done].
    destruct (written_step s k st rx n) as (st' & m & He & Hkept); [done..|by rewrite Hid|by apply Hlt|done|].
    unfold mbind, M_bind, liftM. rewrite He. by destruct m; simpl; rewrite <-?moved_nil.
  - destruct (write_message st); [|done]. left. auto.
  - destruct (read_message st) as [id|] eqn:Hid; [|by destruct (write_message st)].
    destruct (read_step s k st rx id data Hs Hk Hid) as (st' & He & Hkept).
    assert (Hread : wp (step_panics s k (Io_Read (Some data))) ((_ ← liftM (check_read st);
      if bool_decide (length data ≤ length (read_buffer st))%nat then
        '(st, m) ← liftM (on_read data st); _ ← set_task k (T_Open st rx); to_front_opt m
      else mret tt) s) (λ '(_, s'), kept s s')).
    { apply wp_Mbind, wp_liftM. rewrite (check_read_sound _ Hst). simpl. case_bool_decide; [|done].
      apply wp_Mbind, wp_liftM. by rewrite He. }
    by destruct (write_message st).
  - destruct (write_message st), (read_message st) as [id|] eqn:Hid; try done.
    all: apply wp_Mbind, wp_liftM; rewrite (check_read_sound _ Hst); left; auto.
Qed.

(** A new task that owes nothing. *)
Lemma kept_spawn s s' :
  kept s s' → kept s (set_tasks (tcp_tasks s' ++ [T_Open new_socket_task []]) s').
Proof.
  intros ([Ht Hc Ho] & Hsub & ? & ?). unfold kept. split_and!; [|by rewrite owed_spawn|done..].
  split; simpl.
  - apply Forall_app. split; [done|]. by repeat constructor.
  - intros i k Hi. apply open_task_app. by eapply Hc.
  - intros id i k Hi. apply open_task_app. by eapply Ho.
Qed.

(** A connection is accepted: its task is the new one. *)
Lemma accept_sound s k pending rx id i :
  tcp_inv s → tcp_tasks s !! k = Some (T_Listen ((i, id) :: pending) rx) →
  kept s (set_receiver (receiver s ++ [Bf_OpenOk id i (length (tcp_tasks s))])
    (set_tasks (<[k := T_Listen pending rx]> (tcp_tasks s) ++ [T_Open new_socket_task []]) s)).
Proof.
  intros Hs Hk. pose proof (lookup_lt_Some _ _ _ Hk) as Hlt.
  destruct (kept_spawn s (moved k (T_Listen pending rx) [] s)) as ([Ht Hc Ho] & _ & _ & _).
  { eapply kept_other; [done..| |set_solver]. simpl. rewrite app_nil_r. apply submseteq_cons. done. }
  unfold kept. split_and!; [|..|done|done].
  - split; [exact Ht|exact Hc|]. simpl in *. intros id' i' k' [Hin|Hin]%elem_of_app.
    + eapply Ho. rewrite app_nil_r. exact Hin.
    + apply list_elem_of_singleton in Hin as [= -> -> ->]. exists new_socket_task, [].
      rewrite lookup_app_r; rewrite length_insert; [|done]. by rewrite Nat.sub_diag.
  - unfold tcp_owed. simpl. rewrite !fmap_app, concat_app. simpl. rewrite !app_nil_r.
    rewrite (concat_insert _ _ _ _ _ Hk), (concat_delete _ _ _ _ Hk). simpl.
    apply Permutation_submseteq. rewrite (assoc_L (++)), <-Permutation_cons_append. by rewrite <-!(assoc_L (++)).
Qed.

Lemma listener_sound s k pending rx e :
  tcp_inv s → tcp_tasks s !! k = Some (T_Listen pending rx) →
  wp (step_panics s k e) (listener_step k pending rx e s) (λ '(_, s'), kept s s').
Proof.
  intros Hs Hk. pose proof (kept_refl s Hs). destruct e as [| | | | |[]]; try done; simpl.
  - destruct rx as [|[i id] rx]; [done|]. simpl. rewrite <-moved_nil.
    eapply kept_other; [done..| |set_solver]. simpl. rewrite app_nil_r, fmap_app, <-(assoc_L (++)). done.
  - destruct pending as [|[i id] pending]; [done|]. simpl. rewrite length_insert. exact (accept_sound s k pending rx id i Hs Hk).
  - right. left. auto.
Qed.

Lemma task_step_sound s k e :
  tcp_inv s → wp (step_panics s k e) (task_step k e s) (λ '(_, s'), kept s s').
Proof.
  intros Hs. pose proof (kept_refl s Hs). unfold task_step, mbind at 1, M_bind at 1, get.
  destruct (tcp_tasks s !! k) as [[i id addr|st rx|addr rx|pending rx|]|] eqn:Hk; [| | | |done|done].
  - destruct e as [|[]| | | |]; try done; simpl.
    + eapply (kept_other s k _ (T_Open new_socket_task []) [Bf_OpenOk id i k]); [done..|by repeat constructor|done|].
      intros id' i' k' Hin. apply list_elem_of_singleton in Hin as [= -> -> ->]. eauto.
    + eapply (kept_other s k _ T_Ended [Bf_OpenErr id i]); [done..|set_solver].
  - by apply open_socket_sound.
  - destruct e as [| | | |[]|]; try done; simpl; rewrite <-moved_nil;
      (eapply kept_other; [done..| |set_solver]); simpl; [by rewrite app_nil_r|apply submseteq_nil_l].
  - by apply listener_sound.
Qed.

(** * The front *)

Section front.
Context `{ScaleHandlers} `{ScaleTcp} `{HostRandom} `{!HostRandomLaws}.

(** The front stops on the outcome of an opening if the program has closed the
    socket in between. *)
Definition front_panics (s : TcpHandler) (r : panic_reason) : Prop :=
  match receiver s with
  | Bf_OpenOk _ i _ :: _ => r = PUnwrap ∧ sockets s !! i = None
  | Bf_OpenErr _ i :: _ => r = PDebugAssert ∧ sockets s !! i ≠ Some Orphan
  | _ => False
  end.

Definition tcp_answered {W} (s : TcpHandler) (ev : Poll (NativeProgramEvent W)) (s' : TcpHandler) : Prop :=
  match ev with
  | Ready (NpAnswer id _) => tcp_owed s ≡ₚ id :: tcp_owed s'
  | Ready (NpCancelMessage _) => False
  | Ready (NpEmit interface w _) => interface = Interface.INTERFACE ∧ w = None ∧ tcp_owed s' = tcp_owed s
  | Pending => s' = s ∧ receiver s = []
  end.


Lemma pop_inv s m rest :
  tcp_inv s → receiver s = m :: rest → tcp_inv (set_receiver rest s).
Proof.
  intros [Ht Hc Ho] Hr. split; [done..|]. simpl. intros id i k Hin. apply (Ho id i k). rewrite Hr. by right.
Qed.

Lemma delete_socket_inv s i : tcp_inv s → tcp_inv (set_sockets (delete i (sockets s)) s).
Proof.
  intros [Ht Hc Ho]. split; [done| |done]. simpl. intros j k Hj. apply lookup_delete_Some in Hj as [_ Hj]. eauto.
Qed.

Lemma insert_socket_inv s i f :
  tcp_inv s → (∀ k, f = Connected k → open_task (tcp_tasks s) k) →
  tcp_inv (set_sockets (<[i := f]> (sockets s)) s).
Proof.
  intros [Ht Hc Ho] Hf. split; [done| |done]. simpl. intros j k Hj.
  apply lookup_insert_Some in Hj as [[_ Hj]|[_ Hj]]; eauto.
Qed.

Lemma tcp_next_sound {W} s :
  tcp_inv s → wp (front_panics s) (tcp_next_event (W := W) s) (λ '(ev, s'), tcp_inv s' ∧ tcp_answered s ev s').
Proof.
  intros Hs. unfold tcp_next_event, mbind at 1, M_bind at 1, get.
  destruct (tcp_registered s); simpl; [|by destruct Hs].
  destruct (receiver s) as [|m rest] eqn:Hr; simpl; [done|].
  assert (Hpop : tcp_owed s ≡ₚ back_id m :: concat (task_owed <$> tcp_tasks s) ++ (back_id <$> rest)).
  { unfold tcp_owed. rewrite Hr. simpl. by rewrite Permutation_middle. }
  pose proof (pop_inv _ _ _ Hs Hr) as Hinv. unfold front_panics. rewrite Hr.
  destruct m as [id i k|id i|id res|id res]; simpl.
  - unfold mbind, M_bind, put, liftM. destruct (sockets s !! i) as [f|] eqn:Hi; simpl; [|done].
    split; [|done]. apply (insert_socket_inv _ _ _ Hinv). intros k' [= <-].
    apply (ti_open _ Hs id i k). rewrite Hr. by left.
  - unfold mbind, M_bind, put, modify, liftM. destruct (sockets s !! i) as [[]|] eqn:Hi; simpl; try done.
    split; [|done]. apply (delete_socket_inv _ i Hinv).
  - done.
  - done.
Qed.


(** ** The identifiers of sockets *)

Lemma find_vacant_cases fuel (m : gmap Z FrontSocketState) z :
  0 ≤ z < 2 ^ 32 →
  (∃ i, find_vacant fuel m z = Done i ∧ m !! i = None ∧ 0 ≤ i < 2 ^ 32) ∨
  find_vacant fuel m z = NoFuel ∧ ∀ j, (j < fuel)%nat → is_Some (m !! ((z + Z.of_nat j) mod 2 ^ 32)).
Proof.
  revert z. induction fuel as [|fuel IH]; intros z Hz; [right; split; [done|lia]|]. cbn [find_vacant].
  destruct (m !! z) as [f|] eqn:Hm; [|by eauto].
  destruct (IH ((z + 1) mod 2 ^ 32)) as [Hfound|[Hno Hall]]; [by apply Z.mod_pos_bound|by left|right].
  split; [done|]. intros [|j] Hj.
  - rewrite Z.add_0_r, Z.mod_small by done. by rewrite Hm.
  - specialize (Hall j ltac:(lia)). rewrite Zplus_mod_idemp_l in Hall.
    by replace (z + Z.of_nat (S j)) with (z + 1 + Z.of_nat j) by lia.
Qed.

(** The search ends: there are more identifiers to try than sockets. *)
Lemma find_vacant_sound (m : gmap Z FrontSocketState) z :
  0 ≤ z < 2 ^ 32 → Z.of_nat (size m) < 2 ^ 32 →
  ∃ i, find_vacant (S (size m)) m z = Done i ∧ m !! i = None ∧ 0 ≤ i < 2 ^ 32.
Proof.
  intros Hz Hsize. destruct (find_vacant_cases (S (size m)) m z Hz) as [?|[_ Hall]]; [done|exfalso].
  set (l := (λ j, (z + Z.of_nat j) mod 2 ^ 32) <$> seq 0 (S (size m))).
  assert (Hnd : NoDup l).
  { apply NoDup_fmap_2_strong; [|apply NoDup_seq]. intros x y Hx%elem_of_seq Hy%elem_of_seq He.
    pose proof (Z.div_mod (z + Z.of_nat x) (2 ^ 32)). pose proof (Z.div_mod (z + Z.of_nat y) (2 ^ 32)). lia. }
  assert (Hsub : (list_to_set l : gset Z) ⊆ dom m).
  { intros x [j [-> Hj%elem_of_seq]]%elem_of_list_to_set%list_elem_of_fmap.
    apply elem_of_dom, Hall. lia. }
  apply subseteq_size in Hsub. rewrite size_list_to_set, size_dom in Hsub by done. unfold l in Hsub.
  rewrite length_fmap, length_seq in Hsub. lia.
Qed.

(** ** Messages *)

(** Why a message stops the kernel: it is not for this interface, or it is
    about a socket that is not connected, or it listens on a port where binding
    failed. *)
Definition message_panics (interface : InterfaceHash) (message : EncodedMessage) (s : TcpHandler)
    (r : panic_reason) : Prop :=
  interface ≠ Tcp.INTERFACE ∧ r = PDebugAssert ∨
  r = PUnwrap ∧ match decode_tcp message with
    | Some (Tcp_Read i | Tcp_Write i _) => ∀ k, sockets s !! i ≠ Some (Connected k)
    | Some (Tcp_Open o) => open_listen o = true ∧ ∃ k, tcp_listeners s !! open_port o = Some k ∧
        ∀ a p rx, tcp_tasks s !! k ≠ Some (T_Bind a rx) ∧ tcp_tasks s !! k ≠ Some (T_Listen p rx)
    | _ => False
    end.

(** A task of an open socket is sent a command. *)
Lemma send_socket_sound s k cmd :
  tcp_inv s → open_task (tcp_tasks s) k →
  wp no_panic (send_socket k cmd s) (λ '(_, s'), tcp_inv s' ∧ tcp_owed s' ≡ₚ command_id cmd :: tcp_owed s).
Proof.
  intros Hs (st & rx & Hk). unfold send_socket, mbind, M_bind, get. rewrite Hk. simpl. split.
  - rewrite <-moved_nil. eapply inv_set_task; [done..|by eapply socket_inv_at|by eauto|set_solver].
  - eapply owed_send; [done|]. simpl. rewrite fmap_app. simpl.
    rewrite !(assoc_L (++)). symmetry. apply Permutation_cons_append.
Qed.

Lemma connected_sound s i cmd P :
  tcp_inv s → (∀ r, r = PUnwrap → (∀ k, sockets s !! i ≠ Some (Connected k)) → P r) →
  wp P ((k ← connected_sender i; send_socket k cmd) s) (λ '(_, s'),
    tcp_inv s' ∧ tcp_owed s' ≡ₚ command_id cmd :: tcp_owed s).
Proof.
  intros Hs HP. unfold connected_sender. apply wp_Mbind. unfold mbind, M_bind, get, liftM.
  destruct (sockets s !! i) as [[|k|k]|] eqn:Hi; simpl; [by apply HP| |by apply HP|by apply HP].
  eapply wp_weaken; [apply send_socket_sound; [done|]|done]. by eapply ti_connected.
Qed.

(** A listening task is sent a request. *)
Lemma send_listener_sound s k i id :
  tcp_inv s →
  wp (λ r, r = PUnwrap ∧ ∀ a p rx, tcp_tasks s !! k ≠ Some (T_Bind a rx) ∧ tcp_tasks s !! k ≠ Some (T_Listen p rx))
    (send_listener k (Fb_NewSocket i id) s) (λ '(_, s'), tcp_inv s' ∧ tcp_owed s' ≡ₚ id :: tcp_owed s).
Proof.
  intros Hs. unfold send_listener, mbind, M_bind, get.
  destruct (tcp_tasks s !! k) as [[]|] eqn:Hk; try (split; [done|]; by intros).
  all: simpl; split; [rewrite <-moved_nil; eapply inv_set_task; [done..|naive_solver|set_solver]|].
  all: eapply owed_send; [done|]; simpl; rewrite fmap_app; simpl; rewrite ?(assoc_L (++)); symmetry;
    apply Permutation_cons_append.
Qed.

Lemma inv_spawn s t : tcp_inv s → task_inv t → tcp_inv (set_tasks (tcp_tasks s ++ [t]) s).
Proof.
  intros [Ht Hc Ho] Htask. split; simpl.
  - apply Forall_app. split; [done|by constructor].
  - intros i k Hi. apply open_task_app. by eapply Hc.
  - intros id i k Hi. apply open_task_app. by eapply Ho.
Qed.

Lemma vacant_sound s :
  tcp_inv s → Z.of_nat (size (sockets s)) < 2 ^ 32 →
  wp no_panic (vacant_entry s) (λ '(i, s'), sockets s !! i = None ∧ tcp_inv s' ∧ tcp_owed s' = tcp_owed s ∧
    tcp_listeners s' = tcp_listeners s ∧ tcp_tasks s' = tcp_tasks s ∧ sockets s' = sockets s).
Proof.
  intros [Ht Hc Ho] Hsize. unfold vacant_entry, mbind, M_bind, get, put, liftM.
  assert (Hr : 0 ≤ random_u32 (tcp_random s) < 2 ^ 32).
  { pose proof (random_u32_range (tcp_random s)) as Hr. unfold u32_max in Hr. lia. }
  destruct (find_vacant_sound (sockets s) _ Hr Hsize) as (i & -> & Hi & _).
  split; [done|]. split_and!; [by split|done..].
Qed.

Lemma listener_sender_sound s addr port :
  tcp_inv s →
  wp no_panic (listener_sender addr port s) (λ '(k, s'), tcp_inv s' ∧ tcp_owed s' ≡ₚ tcp_owed s ∧
    sockets s' = sockets s ∧
    ((∃ k', tcp_listeners s !! port = Some k' ∧ k = k' ∧ s' = s) ∨ ∃ a rx, tcp_tasks s' !! k = Some (T_Bind a rx))).
Proof.
  intros Hs. unfold listener_sender, mbind at 1, M_bind at 1, get.
  destruct (tcp_listeners s !! port) as [k|] eqn:Hk; simpl; [by eauto 10|]. split_and!.
  - destruct (inv_spawn s (T_Bind addr []) Hs I). by split.
  - rewrite <-(owed_spawn s (T_Bind addr [])). done.
  - done.
  - right. exists addr, []. rewrite lookup_app_r by done. by rewrite Nat.sub_diag.
Qed.

Lemma tcp_open_sound o id s :
  tcp_inv s → Z.of_nat (size (sockets s)) < 2 ^ 32 →
  wp (λ r, r = PUnwrap ∧ open_listen o = true ∧ ∃ k, tcp_listeners s !! open_port o = Some k ∧
        ∀ a p rx, tcp_tasks s !! k ≠ Some (T_Bind a rx) ∧ tcp_tasks s !! k ≠ Some (T_Listen p rx))
    (tcp_open o id s) (λ '(_, s'), tcp_inv s' ∧ tcp_owed s' ≡ₚ id :: tcp_owed s).
Proof.
  intros Hs Hsize. unfold tcp_open. apply wp_Mbind.
  eapply wp_mono; [eapply wp_weaken; [by apply vacant_sound|done]|].
  intros [i s1] (Hi & Hs1 & Ho1 & Hl1 & Ht1 & Hk1). destruct (open_listen o) eqn:Hlisten.
  - apply wp_Mbind. eapply wp_mono; [eapply wp_weaken; [by apply listener_sender_sound|done]|].
    intros [k s2] (Hs2 & Ho2 & Hk2 & Hcase). apply wp_Mbind.
    eapply wp_mono; [eapply wp_weaken; [by apply send_listener_sound|]|].
    + intros r [-> Hno]. split_and!; [done..|]. destruct Hcase as [(k' & Hk' & -> & ->)|(a & rx & Hk')].
      * rewrite Hl1 in Hk'. rewrite Ht1 in Hno. eauto.
      * by destruct (Hno a [] rx).
    + intros [[] s3] [Hs3 Ho3]. split; [by apply insert_socket_inv|].
      rewrite <-Ho1, <-Ho2. exact Ho3.
  - split.
    + apply (insert_socket_inv (set_tasks (tcp_tasks s1 ++ [T_Connect i id (socket_addr_of o)]) s1)); [|done].
      by apply inv_spawn.
    + rewrite <-Ho1. exact (owed_spawn s1 (T_Connect i id (socket_addr_of o))).
Qed.

Lemma owes_perm message_id id l l' : message_id = Some id → l' ≡ₚ id :: l → owes message_id l l'.
Proof. intros -> Hp. right. eauto. Qed.

Lemma tcp_message_sound interface message_id pid message s :
  tcp_inv s → Z.of_nat (size (sockets s)) < 2 ^ 32 →
  wp (message_panics interface message s) (tcp_interface_message interface message_id pid message s)
    (λ '(_, s'), tcp_inv s' ∧ owes message_id (tcp_owed s) (tcp_owed s')).
Proof.
  intros Hs Hsize. unfold tcp_interface_message. apply wp_Mbind, wp_liftM. unfold message_panics.
  case_bool_decide as Hi; simpl; [|by left].
  assert (Hsame : tcp_inv s ∧ owes message_id (tcp_owed s) (tcp_owed s)) by (split; [done|apply owes_same]).
  destruct (decode_tcp message) as [[o|i|i|i data]|]; [| | | |done].
  - destruct message_id as [id|]; [|done].
    eapply wp_mono; [eapply wp_weaken; [by apply tcp_open_sound|naive_solver]|].
    intros [[] s'] [? ?]. split; [done|by eapply owes_perm].
  - assert (Hclose : wp (message_panics interface message s)
      (modify (λ s, set_sockets (delete i (sockets s)) s) s)
      (λ '(_, s'), tcp_inv s' ∧ owes message_id (tcp_owed s) (tcp_owed s')))
      by (split; [by apply delete_socket_inv|apply owes_same]).
    by destruct message_id.
  - destruct message_id as [id|]; [|done]. eapply wp_mono; [apply connected_sound; [done|naive_solver]|].
    intros [[] s'] [? ?]. split; [done|by eapply owes_perm].
  - destruct message_id as [id|]; [|done]. eapply wp_mono; [apply connected_sound; [done|naive_solver]|].
    intros [[] s'] [? ?]. split; [done|by eapply owes_perm].
Qed.

(** C16: whatever the interleaving of messages, polls and steps of the
    background tasks, the handler of TCP invents no answer and gives none
    twice, and a connected socket always has its task, so that a command for
    it is never lost.  A message adds at most the request it came with, a step
    of a task adds none, and an answer removes the request it is for.  The
    search for the identifier of a new socket ends.  The program stops only
    for the reasons that [message_panics], [front_panics] and [step_panics]
    list. *)
Theorem tcp_answers_ok {W : Type} interface message_id pid message k e s :
  tcp_inv s → Z.of_nat (size (sockets s)) < 2 ^ 32 →
  wp (message_panics interface message s) (tcp_interface_message interface message_id pid message s)
    (λ '(_, s'), tcp_inv s' ∧ owes message_id (tcp_owed s) (tcp_owed s')) ∧
  wp (front_panics s) (tcp_next_event (W := W) s) (λ '(ev, s'), tcp_inv s' ∧ tcp_answered s ev s') ∧
  wp (step_panics s k e) (task_step k e s) (λ '(_, s'), tcp_inv s' ∧ tcp_owed s' ⊆+ tcp_owed s).
Proof.
  intros Hs Hsize. split_and!; [by apply tcp_message_sound|by apply tcp_next_sound|].
  eapply wp_mono; [by apply task_step_sound|]. intros [[] s'] (? & ? & _). done.
Qed.

End front.

(** * Writing *)

Lemma check_write_ready st :
  (write_buffer_offset st < length (write_buffer st))%nat → check_write st = Done tt.
Proof.
  intros Hlt. unfold check_write. case_bool_decide; [|done].
  rewrite (bool_decide_true (write_buffer st ≠ [])) by (intros He; rewrite He in Hlt; simpl in Hlt; lia).
  simpl. by rewrite (bool_decide_true (write_buffer_offset st < length (write_buffer st))%nat).
Qed.

Lemma write_step_run s k st rx id n st' m :
  tcp_tasks s !! k = Some (T_Open st rx) → write_message st = Some id →
  (write_buffer_offset st < length (write_buffer st))%nat →
  (write_buffer_offset st + n ≤ length (write_buffer st))%nat → on_written n st = Done (st', m) →
  task_step k (Io_Write (Some n)) s = Done (tt, moved k (T_Open st' rx) (option_list m) s).
Proof.
  intros Hk Hid Hlt Hle He. unfold task_step, mbind at 1, M_bind at 1, get. rewrite Hk. unfold open_socket_step.
  rewrite check_write_ready by done. unfold mbind at 1, M_bind at 1, liftM at 1. rewrite Hid.
  rewrite (bool_decide_true (write_buffer_offset st + n ≤ length (write_buffer st))%nat) by done.
  unfold mbind, M_bind, liftM. rewrite He. destruct m; simpl; [done|]. by rewrite <-moved_nil.
Qed.

Lemma moved_lookup s k t t' new : tcp_tasks s !! k = Some t → tcp_tasks (moved k t' new s) !! k = Some t'.
Proof. intros Hk. apply list_lookup_insert_eq. by eapply lookup_lt_Some. Qed.

Definition write_all (k : nat) (ns : list nat) : M TcpHandler unit :=
  for_each (λ n, task_step k (Io_Write (Some n))) ns.

(** What is left of the buffer is sent, in pieces of any sizes. *)
Lemma write_all_run k rx id ns s st :
  tcp_tasks s !! k = Some (T_Open st rx) → socket_inv st → write_message st = Some id →
  (write_buffer_offset st < length (write_buffer st))%nat → Forall (λ n, 0 < n)%nat ns →
  (write_buffer_offset st + sum_list ns = length (write_buffer st))%nat →
  ∃ st' s', write_all k ns s = Done (tt, s') ∧ tcp_tasks s' !! k = Some (T_Open st' rx) ∧ socket_inv st' ∧
    st_sent st' = st_sent st ++ drop (write_buffer_offset st) (write_buffer st) ∧ write_message st' = None ∧
    read_message st' = read_message st ∧ receiver s' = receiver s ++ [Bf_Write id (inr tt)].
Proof.
  intros Hk Hst Hid Hlt Hpos Hsum. revert s st Hk Hst Hid Hlt Hsum.
  induction Hpos as [|n ns Hn Hns IH]; intros s st Hk Hst Hid Hlt Hsum; cbn [sum_list sum_list_with] in Hsum; [simpl in Hsum; lia|].
  assert (Hle : (write_buffer_offset st + n ≤ length (write_buffer st))%nat) by (simpl in Hsum; lia).
  destruct (on_written_sound n st id Hst Hid Hlt Hle) as (st1 & m & He & Hst1 & Hr1 & Hsent & Hm).
  unfold write_all. cbn [for_each]. unfold mbind, M_bind.
  rewrite (write_step_run s k st rx id n st1 m) by done.
  pose proof (moved_lookup s k _ (T_Open st1 rx) (option_list m) Hk) as Hk1.
  case_bool_decide as Hend.
  - destruct Hm as (-> & Hw1 & Hb1). destruct ns as [|n' ns].
    2:{ inversion Hns. simpl in Hsum. lia. }
    exists st1, (moved k (T_Open st1 rx) [Bf_Write id (inr tt)] s). split_and!; try done.
    rewrite Hsent, firstn_all2; [done|]. rewrite length_drop. lia.
  - destruct Hm as (-> & Hw1 & Hb1 & Ho1).
    destruct (IH _ st1 Hk1 Hst1 Hw1) as (st' & s' & Hrun & Hk' & Hst' & Hs' & Hw' & Hr' & Hrec).
    { rewrite Ho1, Hb1. lia. }
    { rewrite Ho1, Hb1. simpl in Hsum. lia. }
    exists st', s'. split_and!; try done; [|congruence|].
    + rewrite Hs', Hsent, Hb1, Ho1, <-drop_drop, <-(assoc_L (++)). by rewrite take_drop.
    + rewrite Hrec. simpl. by rewrite app_nil_r.
Qed.

(** C23: what a program writes on a socket is sent whole and in order, in
    however many pieces the host takes it, and the program is told once, when
    the last piece is sent. *)
Theorem tcp_write_ok k id data ns rx s st :
  tcp_inv s → tcp_tasks s !! k = Some (T_Open st (Fb_Write id data :: rx)) → write_message st = None →
  data ≠ [] → Forall (λ n, 0 < n)%nat ns → sum_list ns = length data →
  ∃ st' s', (_ ← task_step k Io_Command; write_all k ns) s = Done (tt, s') ∧
    tcp_tasks s' !! k = Some (T_Open st' rx) ∧ st_sent st' = st_sent st ++ data ∧ write_message st' = None ∧
    receiver s' = receiver s ++ [Bf_Write id (inr tt)].
Proof.
  intros Hs Hk Hw Hdata Hpos Hsum. pose proof (socket_inv_at _ _ _ _ Hs Hk) as Hst.
  set (st1 := {| write_buffer := data; write_buffer_offset := 0; write_message := Some id;
                 read_buffer := read_buffer st; read_message := read_message st; st_sent := st_sent st |}).
  assert (Hcmd : task_step k Io_Command s = Done (tt, moved k (T_Open st1 rx) [] s)).
  { unfold task_step, mbind at 1, M_bind at 1, get. rewrite Hk. unfold open_socket_step.
    unfold check_write. rewrite Hw, bool_decide_false by (apply is_Some_None).
    unfold mbind at 1, M_bind at 1, liftM at 1. rewrite (check_read_sound _ Hst).
    unfold mbind, M_bind, liftM. cbn [on_command]. rewrite Hw, bool_decide_false by (apply is_Some_None).
    destruct Hst as [Hst _]. rewrite Hw in Hst. destruct Hst as [-> ->]. simpl. by rewrite moved_nil. }
  assert (Hlen : (0 < length data)%nat) by (destruct data; [done|simpl; lia]).
  destruct (write_all_run k rx id ns (moved k (T_Open st1 rx) [] s) st1) as (st' & s' & Hrun & ? & _ & Hsent & ? & _ & Hrec);
    try done.
  - by eapply moved_lookup.
  - split; [left; done|]. by destruct Hst.
  - exists st', s'. unfold mbind, M_bind. rewrite Hcmd. split_and!; try done.
    rewrite Hrec. simpl. by rewrite app_nil_r.
Qed.
