(* ===== verification/X86.v ===== *)
(** The machine layer of the x86_64 kernel: the interrupts table
    ([arch/x86_64/interrupts.rs]), the local APICs ([apic/local.rs]), the I/O
    APICs ([apic/io_apic.rs], [apic/io_apics.rs]), the legacy PIC
    ([apic/pic.rs]) and the PIT ([pit.rs]) of [kernel/standalone/src].

    The processor is the environment of this code: [X86] keeps the list of the
    accesses made so far, the interrupt flag, the three static arrays of
    [interrupts.rs] and the wakers woken, and the class [Machine] gives what a
    read sees, from the accesses before it.  A waker is a number; two wakers
    wake the same task exactly when they are equal. *)
From S2P Require Import Prelude.

(** * The machine *)

(** The bytes of the widths used here are 4 for memory and 1 for ports. *)
Inductive x86_access :=
  | WriteU32 (address value : Z)
  | ReadU32 (address : Z)
  | OutB (port value : Z)
  | RdMsr (msr : Z)
  | WrMsr (msr value : Z)
  | RdTsc
  | Cli
  | Sti.

(** [read_volatile], [Msr::read], [_rdtsc], and [edx] and [ecx] of [__cpuid(1)]. *)
Class Machine := {
  mmio_read : list x86_access → Z → Z;
  rdmsr : list x86_access → Z → Z;
  rdtsc_at : list x86_access → Z;
  cpuid1_edx : Z;
  cpuid1_ecx : Z;
}.

(** Registers have the width that the code reads. *)
Class MachineLaws `{Machine} := {
  mmio_read_range : ∀ tr a, 0 ≤ mmio_read tr a ≤ u32_max;
  rdmsr_range : ∀ tr a, 0 ≤ rdmsr tr a ≤ u64_max;
  rdtsc_range : ∀ tr, 0 ≤ rdtsc_at tr ≤ u64_max;
}.

Abbreviation Waker := nat (only parsing).

Record X86 := {
  cpu_trace : list x86_access;
  interrupts_enabled : bool;
  WAKERS : list (option Waker);
  RESERVATIONS : list bool;
  END_OF_INTERRUPT : list bool;
  woken : list Waker;
}.

(** The statics at their initial values: [256 - 32] entries each. *)
Definition WAKERS_init : list (option Waker) := replicate 224 None.
Definition RESERVATIONS_init : list bool := replicate 224 false.
Definition END_OF_INTERRUPT_init : list bool := replicate 224 false.

Definition x86_init : X86 :=
  {| cpu_trace := []; interrupts_enabled := false; WAKERS := WAKERS_init;
     RESERVATIONS := RESERVATIONS_init; END_OF_INTERRUPT := END_OF_INTERRUPT_init; woken := [] |}.

Definition with_trace (tr : list x86_access) (b : bool) (s : X86) : X86 :=
  {| cpu_trace := tr; interrupts_enabled := b; WAKERS := WAKERS s; RESERVATIONS := RESERVATIONS s;
     END_OF_INTERRUPT := END_OF_INTERRUPT s; woken := woken s |}.
Definition with_wakers (l : list (option Waker)) (w : list Waker) (s : X86) : X86 :=
  {| cpu_trace := cpu_trace s; interrupts_enabled := interrupts_enabled s; WAKERS := l;
     RESERVATIONS := RESERVATIONS s; END_OF_INTERRUPT := END_OF_INTERRUPT s; woken := w |}.
Definition with_reservations (l e : list bool) (s : X86) : X86 :=
  {| cpu_trace := cpu_trace s; interrupts_enabled := interrupts_enabled s; WAKERS := WAKERS s;
     RESERVATIONS := l; END_OF_INTERRUPT := e; woken := woken s |}.

Definition access_ (a : x86_access) : M X86 unit :=
  modify (λ s, with_trace (cpu_trace s ++ [a]) (interrupts_enabled s) s).
Definition write_u32 (address value : Z) : M X86 unit := access_ (WriteU32 address value).
Definition write_to_port (port value : Z) : M X86 unit := access_ (OutB port value).
Definition msr_write (msr value : Z) : M X86 unit := access_ (WrMsr msr value).

Section reads.
Context `{Machine}.

Definition read_u32 (address : Z) : M X86 Z :=
  v ← gets (λ s, mmio_read (cpu_trace s) address);
  _ ← access_ (ReadU32 address);
  mret v.
Definition msr_read (msr : Z) : M X86 Z :=
  v ← gets (λ s, rdmsr (cpu_trace s) msr);
  _ ← access_ (RdMsr msr);
  mret v.
Definition rdtsc : M X86 Z :=
  v ← gets (λ s, rdtsc_at (cpu_trace s));
  _ ← access_ RdTsc;
  mret v.

End reads.

(** [x86_64::instructions::interrupts]. *)
Definition interrupts_enable : M X86 unit :=
  modify (λ s, with_trace (cpu_trace s ++ [Sti]) true s).
Definition interrupts_disable : M X86 unit :=
  modify (λ s, with_trace (cpu_trace s ++ [Cli]) false s).
Definition are_enabled : M X86 bool := gets interrupts_enabled.

(** [self.woken] is what [Waker::wake] leaves here; what it does to the task is
    the executor's. *)
Definition wake (w : Waker) : M X86 unit :=
  modify (λ s, with_wakers (WAKERS s) (woken s ++ [w]) s).

(** * Local APICs *)

Definition APIC_BASE_ADDR : Z := 0xfee00000.

Record LocalApicsControl := { tsc_deadline_supported : bool }.

Section local.
Context `{Machine}.

Definition is_apic_supported : bool := negb (bool_decide (Z.land cpuid1_edx (1 ≪ 9) = 0)).
Definition is_tsc_deadline_supported : bool := negb (bool_decide (Z.land cpuid1_ecx (1 ≪ 24) = 0)).

Definition local_init : outcome LocalApicsControl :=
  _ ← assert_ is_apic_supported;
  mret {| tsc_deadline_supported := is_tsc_deadline_supported |}.

Definition end_of_interrupt : M X86 unit := write_u32 (APIC_BASE_ADDR + 0xB0) 0x0.

Definition init_local (apics : LocalApicsControl) : M X86 unit :=
  _ ← liftM (assert_ is_apic_supported);
  _ ← liftM (assert_ (bool_decide (tsc_deadline_supported apics = is_tsc_deadline_supported)));
  v ← msr_read 0x1b;
  let base_addr := Z.land v (Z.lxor u64_max 0xfff) in
  _ ← liftM (assert_ (bool_decide (usize_try_from base_addr = Some APIC_BASE_ADDR)));
  _ ← msr_write 0x1b (Z.lor base_addr (1 ≪ 11));
  val ← read_u32 (APIC_BASE_ADDR + 0xf0);
  write_u32 (APIC_BASE_ADDR + 0xf0) (Z.lor val 0x100).

(** Also [LocalApicsControl::current_apic_id]. *)
Definition current_apic_id : M X86 Z :=
  v ← read_u32 (APIC_BASE_ADDR + 0x20);
  liftM (unwrap (u8_try_from (v ≫ 24))).

Definition enable_local_timer_interrupt_tsc_deadline (apics : LocalApicsControl) (vector : Z) :
    M X86 unit :=
  _ ← liftM (assert_ (tsc_deadline_supported apics));
  _ ← liftM (assert_ (bool_decide (32 ≤ vector)));
  _ ← write_u32 (APIC_BASE_ADDR + 0x320) (Z.lor (2 ≪ 17) vector);
  write_u32 (APIC_BASE_ADDR + 0x3e0) 10.

Definition enable_local_timer_interrupt (apics : LocalApicsControl) (periodic : bool) (vector : Z) :
    M X86 unit :=
  _ ← liftM (assert_ (negb (tsc_deadline_supported apics)));
  _ ← liftM (assert_ (bool_decide (32 ≤ vector)));
  let periodic := if periodic then 1 ≪ 17 else 0 in
  _ ← write_u32 (APIC_BASE_ADDR + 0x320) (Z.lor periodic vector);
  write_u32 (APIC_BASE_ADDR + 0x3e0) 10.

(** A [NonZeroU32] or a [NonZeroU64] is its value. *)
Definition set_local_timer_value (apics : LocalApicsControl) (value : option Z) : M X86 unit :=
  _ ← liftM (assert_ (negb (tsc_deadline_supported apics)));
  write_u32 (APIC_BASE_ADDR + 0x380) (default 0 value).

Definition disable_local_timer_interrupt : M X86 unit :=
  write_u32 (APIC_BASE_ADDR + 0x320) 0x00010000.

Definition set_local_tsc_deadline (apics : LocalApicsControl) (value : option Z) : M X86 unit :=
  _ ← liftM (assert_ (tsc_deadline_supported apics));
  msr_write 0x6e0 (default 0 value).

Definition send_ipi_inner (target_apic_id delivery vector : Z) : M X86 unit :=
  _ ← liftM (debug_assert (bool_decide (delivery ≤ 6)));
  _ ← liftM (debug_assert (negb (bool_decide (delivery = 3))));
  _ ← liftM (debug_assert (negb (bool_decide (delivery = 1))));
  _ ← liftM (debug_assert (negb (bool_decide (delivery = 2)) || bool_decide (vector = 0)));
  _ ← liftM (debug_assert (negb (bool_decide (delivery = 5)) || bool_decide (vector = 0)));
  let level_bit := if bool_decide (delivery = 5) then 0 else 1 ≪ 15 in
  let value_lo := Z.lor (Z.lor level_bit (delivery ≪ 8)) vector in
  let value_hi := target_apic_id ≪ 24 in
  enabled ← are_enabled;
  if enabled : bool then
    _ ← interrupts_disable;
    _ ← write_u32 (APIC_BASE_ADDR + 0x310) value_hi;
    _ ← write_u32 (APIC_BASE_ADDR + 0x300) value_lo;
    interrupts_enable
  else
    _ ← write_u32 (APIC_BASE_ADDR + 0x310) value_hi;
    write_u32 (APIC_BASE_ADDR + 0x300) value_lo.

Definition send_interprocessor_interrupt (target_apic_id vector : Z) : M X86 unit :=
  _ ← liftM (assert_ (bool_decide (32 ≤ vector)));
  send_ipi_inner target_apic_id 0 vector.

Definition send_interprocessor_init (target_apic_id : Z) : M X86 unit :=
  me ← current_apic_id;
  _ ← liftM (assert_ (negb (bool_decide (me = target_apic_id))));
  send_ipi_inner target_apic_id 5 0.

Definition send_interprocessor_sipi (target_apic_id boot_fn : Z) : M X86 unit :=
  me ← current_apic_id;
  _ ← liftM (assert_ (negb (bool_decide (me = target_apic_id))));
  _ ← liftM (assert_ (bool_decide ((boot_fn ≫ 12) ≪ 12 = boot_fn)));
  _ ← liftM (assert_ (bool_decide (boot_fn ≫ 12 ≤ u8_max)));
  vector ← liftM (unwrap (u8_try_from (boot_fn ≫ 12)));
  send_ipi_inner target_apic_id 6 vector.

End local.

(** * The interrupts table *)

Inductive ReserveErr := Full.

(** [ReservedInterruptVector { interrupt }] is its number. *)
Abbreviation ReservedInterruptVector := Z (only parsing).

(** The loop of [reserve_any_vector]; [n] is the index of the first entry of
    [l]. *)
Fixpoint reserve_from (apic_eoi : bool) (l : list bool) (n : nat) :
    M X86 (ReserveErr + ReservedInterruptVector) :=
  match l with
  | [] => mret (inl Full)
  | was_reserved :: l =>
      _ ← modify (λ s, with_reservations (<[n := true]> (RESERVATIONS s)) (END_OF_INTERRUPT s) s);
      if negb was_reserved then
        _ ← modify (λ s, with_reservations (RESERVATIONS s) (<[n := apic_eoi]> (END_OF_INTERRUPT s)) s);
        interrupt ← liftM (unwrap (u8_try_from (Z.of_nat n + 32)));
        mret (inr interrupt)
      else reserve_from apic_eoi l (S n)
  end.

Definition reserve_any_vector (apic_eoi : bool) : M X86 (ReserveErr + ReservedInterruptVector) :=
  s ← get;
  reserve_from apic_eoi (RESERVATIONS s) 0.

(** [.unwrap()] on a [Result]. *)
Definition unwrap_ok {E A} (r : E + A) : outcome A :=
  match r with inr a => Done a | inl _ => Panic PUnwrap end.

(** [usize::from(self.interrupt - 32)], an index in the arrays. *)
Definition vector_index (interrupt : ReservedInterruptVector) : outcome nat :=
  n ← uint_checked u8_max (interrupt - 32);
  mret (Z.to_nat n).

Definition register_waker (interrupt : ReservedInterruptVector) (waker : Waker) : M X86 unit :=
  _ ← liftM (debug_assert (bool_decide (32 ≤ interrupt)));
  i ← liftM (vector_index interrupt);
  s ← get;
  _ ← liftM (index (WAKERS s) i);
  put (with_wakers (<[i := Some waker]> (WAKERS s)) (woken s) s).

Definition vector_drop (interrupt : ReservedInterruptVector) : M X86 unit :=
  i ← liftM (vector_index interrupt);
  s ← get;
  was_reserved ← liftM (index (RESERVATIONS s) i);
  _ ← put (with_reservations (<[i := false]> (RESERVATIONS s)) (END_OF_INTERRUPT s) s);
  liftM (debug_assert was_reserved).

(** The functions that the entries of the table point to.  [interrupt_panic!]
    differs only by its message. *)
Inductive Handler :=
  | InterruptPanic (msg : string)  (** [interrupt_panic!(msg, frame)] *)
  | DebugInterrupt                 (** [int1] *)
  | DoubleFault                    (** [int8]: halts forever, without a panic *)
  | IrqHandler (n : nat).          (** [handler] of [set_entry!(idt[n])] *)

(** The handlers of the first 32 vectors. *)
Definition exception_handlers : list (option Handler) :=
  [ Some (InterruptPanic "Division by zero"); Some DebugInterrupt; Some (InterruptPanic "NMI");
    Some (InterruptPanic "Breakpoint"); Some (InterruptPanic "Overflow");
    Some (InterruptPanic "Bounds"); Some (InterruptPanic "Invalid opcode");
    Some (InterruptPanic "Coprocessor not available"); Some DoubleFault;
    Some (InterruptPanic "Coprocessor segment overrun"); Some (InterruptPanic "Invalid TSS");
    Some (InterruptPanic "Segment not present"); Some (InterruptPanic "Stack segment fault");
    Some (InterruptPanic "General protection fault"); Some (InterruptPanic "Page fault"); None;
    Some (InterruptPanic "x87 exception"); Some (InterruptPanic "Alignment error");
    Some (InterruptPanic "Machine check"); Some (InterruptPanic "SIMD error");
    Some (InterruptPanic "Virtualization exception");
    None; None; None; None; None; None; None; None; None;
    Some (InterruptPanic "Security exception"); None ]%string.

(** The table: [set_entry!] fills the vectors 32 to 255. *)
Definition IDT : list (option Handler) := exception_handlers ++ (Some ∘ IrqHandler <$> seq 32 224).

(** [handler] of [set_entry!]. *)
Definition irq_handler (n : nat) : M X86 unit :=
  s ← get;
  waker ← liftM (index (WAKERS s) (n - 32));
  _ ← put (with_wakers (<[n - 32 := None]> (WAKERS s)) (woken s) s)%nat;
  _ ← match waker with Some w => wake w | None => mret tt end;
  s ← get;
  eoi ← liftM (index (END_OF_INTERRUPT s) (n - 32));
  if eoi : bool then end_of_interrupt else mret tt.

(** What the processor runs on the interrupt [n]: [None] on a vector without a
    handler, [Some (Panic _)] on an exception. *)
Definition interrupt (n : nat) : option (M X86 unit) :=
  h ← mjoin (IDT !! n);
  match h with
  | InterruptPanic _ | DebugInterrupt => Some (panic PExplicit)
  | DoubleFault => None
  | IrqHandler n => Some (irq_handler n)
  end.

Definition load_idt : M X86 unit := interrupts_enable.

(** * The legacy PIC *)

Definition init_and_disable_pic : M X86 unit :=
  _ ← write_to_port 0xa1 0xff;
  _ ← write_to_port 0x21 0xff;
  _ ← write_to_port 0x20 (Z.lor 0x10 0x01);
  _ ← write_to_port 0xa0 (Z.lor 0x10 0x01);
  _ ← write_to_port 0x21 0x20;
  _ ← write_to_port 0xa1 0x28;
  _ ← write_to_port 0x21 4;
  _ ← write_to_port 0xa1 2;
  _ ← write_to_port 0x21 0x01;
  _ ← write_to_port 0xa1 0x01;
  _ ← write_to_port 0xa1 0xff;
  write_to_port 0x21 0xff.

(** * I/O APICs *)

Record IoApicControl := {
  io_reg_sel_register : Z;
  io_win_register : Z;
  global_system_interrupt_base : Z;
  maximum_redirection_entry : Z;
}.

Record IoApicDescription := { iad_address : Z; iad_interrupt_base : Z }.

Record IsaRedirectConfig := { isa_interrupt : Z; new_interrupt : Z }.

Record IoApicsControl := {
  io_apics : list IoApicControl;
  legacy_redirects : list IsaRedirectConfig;
}.

(** [Irq { control, irq_offset }]: the borrowed controller and the offset. *)
Definition Irq : Type := IoApicControl * Z.

Section io_apic.
Context `{Machine}.

Definition init_io_apic (config : IoApicDescription) : M X86 IoApicControl :=
  let io_reg_sel_register := iad_address config in
  io_win_register ← liftM (unwrap (usize_try_from (iad_address config + 0x10)));
  _ ← write_u32 io_reg_sel_register 0x1;
  io_apic_ver ← read_u32 io_win_register;
  maximum_redirection_entry ← liftM (unwrap (u8_try_from (Z.land (io_apic_ver ≫ 16) 0xff)));
  mret {| io_reg_sel_register := io_reg_sel_register; io_win_register := io_win_register;
          global_system_interrupt_base := iad_interrupt_base config;
          maximum_redirection_entry := maximum_redirection_entry |}.

(** A lazy iterator is the list of the computations of its items. *)
Fixpoint init_all (l : list (outcome IoApicDescription)) : M X86 (list IoApicControl) :=
  match l with
  | [] => mret []
  | cfg :: l =>
      cfg ← liftM cfg;
      c ← init_io_apic cfg;
      cs ← init_all l;
      mret (c :: cs)
  end.

Fixpoint collect {A} (l : list (outcome A)) : outcome (list A) :=
  match l with
  | [] => mret []
  | x :: l => x ← x; l ← collect l; mret (x :: l)
  end.

Definition init_io_apics (l : list (outcome IoApicDescription))
    (legacy : list (outcome IsaRedirectConfig)) : M X86 IoApicsControl :=
  cs ← init_all l;
  redirects ← liftM (collect legacy);
  mret {| io_apics := cs; legacy_redirects := redirects |}.

(** [IoApicControl::irq]; [checked_sub] on [u8]s. *)
Definition apic_irq (c : IoApicControl) (irq : Z) : option Irq :=
  irq_offset ← u8_try_from (irq - global_system_interrupt_base c);
  if bool_decide (irq_offset > maximum_redirection_entry c) then None else Some (c, irq_offset).

Definition write_register (c : IoApicControl) (reg_num value : Z) : M X86 unit :=
  _ ← write_u32 (io_reg_sel_register c) reg_num;
  write_u32 (io_win_register c) value.

Definition set_irq (c : IoApicControl) (irq_offset destination destination_interrupt : Z) :
    M X86 unit :=
  _ ← liftM (assert_ (bool_decide (irq_offset ≤ maximum_redirection_entry c)));
  _ ← liftM (assert_ (bool_decide (32 ≤ destination_interrupt)));
  _ ← liftM (assert_ (bool_decide (destination < 1 ≪ 4)));
  let value := Z.lor (destination ≪ 56) destination_interrupt in
  twice ← liftM (unwrap (u8_try_from (irq_offset * 2)));
  register_base ← liftM (unwrap (u8_try_from (0x10 + twice)));
  interrupts_enabled ← are_enabled;
  _ ← interrupts_disable;
  lo ← liftM (unwrap (u32_try_from (Z.land value 0xffffffff)));
  _ ← write_register c register_base lo;
  next ← liftM (uint_checked u8_max (register_base + 1));
  hi ← liftM (unwrap (u32_try_from (value ≫ 32)));
  _ ← write_register c next hi;
  if interrupts_enabled : bool then interrupts_enable else mret tt.

(** [Irq::set_destination] of both modules. *)
Definition set_destination (irq : Irq) (destination destination_interrupt : Z) : M X86 unit :=
  set_irq (fst irq) (snd irq) destination destination_interrupt.

(** [IoApicsControl::irq]: the first I/O APIC that handles the IRQ. *)
Definition apics_irq (c : IoApicsControl) (irq : Z) : option Irq :=
  list_find (λ io_apic, is_Some (apic_irq io_apic irq)) (io_apics c) ≫= λ '(_, io_apic), apic_irq io_apic irq.

Definition isa_irq (c : IoApicsControl) (isa_irq : Z) : option Irq :=
  let target := new_interrupt ∘ snd <$>
    list_find (λ red, isa_interrupt red = isa_irq) (legacy_redirects c) in
  match target with
  | Some dest => apics_irq c dest
  | None => apics_irq c isa_irq
  end.

End io_apic.

(** The tables of ACPI, which another crate parses. *)
Record AcpiApic := {
  acpi_io_apics : list (Z * Z);                    (** [address], [global_system_interrupt_base] *)
  interrupt_source_overrides : list (Z * Z);       (** [isa_source], [global_system_interrupt] *)
}.

(** The conversions of the two iterators, which panic on a number that is not
    a [u8] (the base of an I/O APIC, the target of an override). *)
Definition description_of (p : Z * Z) : outcome IoApicDescription :=
  address ← unwrap (usize_try_from (fst p));
  base ← unwrap (u8_try_from (snd p));
  mret {| iad_address := address; iad_interrupt_base := base |}.
Definition redirect_of (p : Z * Z) : outcome IsaRedirectConfig :=
  n ← unwrap (u8_try_from (snd p));
  mret {| isa_interrupt := fst p; new_interrupt := n |}.

Definition init_from_acpi `{Machine} (info : AcpiApic) : M X86 IoApicsControl :=
  init_io_apics (description_of <$> acpi_io_apics info)
                (redirect_of <$> interrupt_source_overrides info).

(** * The PIT *)

(** [PitControl { interrupt_vector }] is its vector. *)
Definition init_pit `{Machine} (io_apics : IoApicsControl) : M X86 ReservedInterruptVector :=
  r ← reserve_any_vector true;
  interrupt_vector ← liftM (unwrap_ok r);
  irq ← liftM (unwrap (isa_irq io_apics 0));
  me ← current_apic_id;
  _ ← set_destination irq me interrupt_vector;
  mret interrupt_vector.

(** [raised] is shared with the waker that [poll] registers. *)
Record PitFuture := {
  pit_vector : ReservedInterruptVector;
  raised : bool;
  num_major_ticks : Z;
  minor_modulus : Z;
}.

Definition TICKS_PER_SEC : Z := 1193182.
Definition NANOS_PER_TICK : Z := 1 + 1000000000 / TICKS_PER_SEC.

(** [PitControl::timer], for a duration of [nanos] nanoseconds. *)
Definition pit_timer (pit : ReservedInterruptVector) (nanos : Z) : outcome PitFuture :=
  let num_ticks := if bool_decide (nanos = 0) then 0 else 1 + nanos / NANOS_PER_TICK in
  let num_major_ticks := num_ticks / u16_max in
  minor_modulus ← unwrap (u16_try_from (num_ticks mod u16_max));
  mret {| pit_vector := pit; raised := true; num_major_ticks := num_major_ticks;
          minor_modulus := minor_modulus |}.

Definition channel0_one_shot (ticks : Z) : M X86 unit :=
  _ ← write_to_port 0x43 0x30;
  _ ← write_to_port 0x40 (ticks mod 256);
  write_to_port 0x40 (ticks / 256 mod 256).

Definition pit_with (f : PitFuture) (r : bool) (major minor : Z) : PitFuture :=
  {| pit_vector := pit_vector f; raised := r; num_major_ticks := major; minor_modulus := minor |}.

(** [PitFuture::poll]: whether the future is ready.  [waker] is the number of
    the [RaisingArc] built around the waker of the context. *)
Definition pit_poll (waker : Waker) (f : PitFuture) : M X86 (bool * PitFuture) :=
  if negb (raised f) then mret (false, f) else
  let '(num_ticks, f) :=
    if bool_decide (num_major_ticks f = 0)
    then (minor_modulus f, pit_with f false (num_major_ticks f) 0)
    else (u16_max, pit_with f false (num_major_ticks f - 1) (minor_modulus f)) in
  if bool_decide (num_ticks = 0) then mret (true, f) else
  _ ← register_waker (pit_vector f) waker;
  _ ← channel0_one_shot num_ticks;
  mret (false, f).

(** [RaisingArc::wake_by_ref], on the flag; it then wakes the inner waker. *)
Definition raising_wake (f : PitFuture) : outcome PitFuture :=
  _ ← assert_ (negb (raised f));
  mret (pit_with f true (num_major_ticks f) (minor_modulus f)).

(** * Interrupts: reservation and delivery *)

(** The arrays keep their size. *)
Record x86_wf (s : X86) : Prop := {
  wf_WAKERS : length (WAKERS s) = 224%nat;
  wf_RESERVATIONS : length (RESERVATIONS s) = 224%nat;
  wf_END_OF_INTERRUPT : length (END_OF_INTERRUPT s) = 224%nat;
}.

Lemma x86_init_wf : x86_wf x86_init.
Proof. by split. Qed.

(** The state after the reservation of the entry [i]. *)
Definition reserved (i : nat) (apic_eoi : bool) (s : X86) : X86 :=
  with_reservations (<[i := true]> (RESERVATIONS s)) (<[i := apic_eoi]> (END_OF_INTERRUPT s)) s.

Lemma reserve_from_ok apic_eoi pre l (s : X86) :
  RESERVATIONS s = pre ++ l → (length pre + length l = 224)%nat →
  match list_find (λ b, b = false) l with
  | Some (j, _) => reserve_from apic_eoi l (length pre) s =
      Done (inr (Z.of_nat (length pre + j) + 32), reserved (length pre + j) apic_eoi s)
  | None => reserve_from apic_eoi l (length pre) s = Done (inl Full, s)
  end.
Proof.
  revert pre s. induction l as [|b l IH]; intros pre s Hl Hlen; simpl; [done|].
  assert (Hb : RESERVATIONS s !! length pre = Some b) by (by rewrite Hl, list_lookup_middle).
  simpl in Hlen. destruct b; simpl; unfold mbind, M_bind, modify, liftM.
  - rewrite list_insert_id by done.
    replace (with_reservations (RESERVATIONS s) (END_OF_INTERRUPT s) s) with s by (by destruct s).
    specialize (IH (pre ++ [true]) s). rewrite length_app, Nat.add_1_r in IH. simpl in IH.
    destruct (list_find _ l) as [[j ?]|]; simpl;
      (rewrite IH; [|by rewrite Hl, <- app_assoc|lia]); repeat f_equal; lia.
  - rewrite (proj2 (uint_try_from_Some _ (Z.of_nat (length pre) + 32) _))
      by (split; [reflexivity|unfold u8_max; lia]).
    simpl. by rewrite Nat.add_0_r.
Qed.

(** [reserve_any_vector] reserves the first vector that is free: it gives
    its number (between 32 and 255), marks it and it alone, and sets its
    end-of-interrupt flag; it fails exactly when all the 224 vectors are
    reserved, and then changes nothing.  It never panics. *)
Theorem reserve_any_vector_ok (apic_eoi : bool) (s : X86) : x86_wf s →
  (∃ i, reserve_any_vector apic_eoi s = Done (inr (Z.of_nat i + 32), reserved i apic_eoi s) ∧
        RESERVATIONS s !! i = Some false ∧ (∀ j, (j < i)%nat → RESERVATIONS s !! j = Some true)) ∨
  (reserve_any_vector apic_eoi s = Done (inl Full, s) ∧ Forall (eq true) (RESERVATIONS s)).
Proof.
  intros [_ Hr _]. pose proof (reserve_from_ok apic_eoi [] (RESERVATIONS s) s eq_refl) as Hok.
  specialize (Hok Hr). unfold reserve_any_vector, get, mbind, M_bind. simpl in *.
  destruct (list_find _ _) as [[i b]|] eqn:Hf.
  - left. exists i. apply list_find_Some in Hf as (Hi & -> & Hlt). split_and!; [done..|].
    intros j Hj. destruct (lookup_lt_is_Some_2 (RESERVATIONS s) j) as [b Hb].
    { apply lookup_lt_Some in Hi. lia. }
    rewrite Hb. specialize (Hlt _ _ Hb Hj). by destruct b.
  - right. split; [done|]. apply list_find_None in Hf.
    eapply Forall_impl; [exact Hf|]. by intros [].
Qed.

Lemma reserved_wf i b s : x86_wf s → x86_wf (reserved i b s).
Proof. intros []. split; simpl; rewrite ?length_insert; done. Qed.

Lemma vector_index_ok (i : nat) : (i < 224)%nat → vector_index (Z.of_nat i + 32) = Done i.
Proof.
  intros. unfold vector_index.
  rewrite (proj2 (uint_checked_Done _ _ (Z.of_nat i)));
    [|split; [lia|unfold u8_max; lia]].
  simpl. unfold mret, outcome_ret. f_equal. lia.
Qed.

(** [register_waker] on a vector of the table. *)
Lemma register_waker_ok (i : nat) (w : Waker) (s : X86) : x86_wf s → (i < 224)%nat →
  register_waker (Z.of_nat i + 32) w s = Done (tt, with_wakers (<[i := Some w]> (WAKERS s)) (woken s) s).
Proof.
  intros [Hw _ _] Hi. unfold register_waker, mbind, M_bind, liftM, get, put.
  rewrite bool_decide_true by lia. simpl. rewrite vector_index_ok by done.
  destruct (index_total (WAKERS s) i) as (x & -> & _); [lia|]. done.
Qed.

(** The entry of the table for a vector that can be reserved. *)
Lemma IDT_irq (i : nat) : (i < 224)%nat → IDT !! (i + 32)%nat = Some (Some (IrqHandler (i + 32))).
Proof.
  intros Hi. unfold IDT. rewrite lookup_app_r by (simpl; lia). simpl length.
  replace (i + 32 - 32)%nat with i by lia.
  rewrite list_lookup_fmap, lookup_seq_lt by done. simpl. by rewrite Nat.add_comm.
Qed.

(** What an interrupt does: it empties the slot of its vector and wakes the
    waker it held, and ends the interrupt if the vector was reserved so. *)
Definition delivered (i : nat) (s : X86) : X86 :=
  let w := mjoin (WAKERS s !! i) in
  let tr := if default false (END_OF_INTERRUPT s !! i)
            then cpu_trace s ++ [WriteU32 (APIC_BASE_ADDR + 0xB0) 0] else cpu_trace s in
  {| cpu_trace := tr; interrupts_enabled := interrupts_enabled s; WAKERS := <[i := None]> (WAKERS s);
     RESERVATIONS := RESERVATIONS s; END_OF_INTERRUPT := END_OF_INTERRUPT s;
     woken := woken s ++ option_list w |}.

Lemma interrupt_ok (i : nat) (s : X86) : x86_wf s → (i < 224)%nat →
  ∃ h, interrupt (i + 32) = Some h ∧ h s = Done (tt, delivered i s).
Proof.
  intros [Hw _ He] Hi. unfold interrupt. rewrite IDT_irq by done. simpl.
  eexists. split; [done|]. unfold irq_handler, mbind, M_bind, liftM, get, put, delivered.
  replace (i + 32 - 32)%nat with i by lia.
  destruct (index_total (WAKERS s) i) as (x & -> & Hx); [lia|]. rewrite Hx. simpl.
  destruct (index_total (END_OF_INTERRUPT s) i) as (b & Hb & Hb'); [lia|].
  rewrite Hb'. destruct x, b; unfold wake, modify; simpl; rewrite Hb; simpl;
    unfold mret, M_ret; rewrite ?app_nil_r; done.
Qed.

(** What happens to the table between reservations: a task registers its waker
    on a vector, or the vector is raised. *)
Inductive irq_op :=
  | OpRegister (i : nat) (w : Waker)
  | OpInterrupt (i : nat).

Definition op_index (o : irq_op) : nat := match o with OpRegister i _ | OpInterrupt i => i end.

Definition irq_step (o : irq_op) : M X86 unit :=
  match o with
  | OpRegister i w => register_waker (Z.of_nat i + 32) w
  | OpInterrupt i => default (mret tt) (interrupt (i + 32))
  end.

(** The waker that an interrupt on [i] must wake after [ops]: the one of the
    last operation on [i], if it is a registration; [w0] is the waker
    registered before [ops]. *)
Definition waiting (w0 : option Waker) (i : nat) (ops : list irq_op) : option Waker :=
  match last (filter (λ o, op_index o = i) ops) with
  | Some (OpRegister _ w) => Some w
  | Some (OpInterrupt _) => None
  | None => w0
  end.

Lemma waiting_snoc w0 i ops o :
  waiting w0 i (ops ++ [o]) =
  if bool_decide (op_index o = i)
  then match o with OpRegister _ w => Some w | OpInterrupt _ => None end
  else waiting w0 i ops.
Proof.
  unfold waiting. rewrite filter_app, filter_cons, filter_nil. case_decide as Hd.
  - rewrite bool_decide_true, last_snoc by done. by destruct o.
  - by rewrite bool_decide_false, app_nil_r.
Qed.

Lemma for_each_snoc {S A} (f : A → M S unit) l x (s : S) :
  for_each f (l ++ [x]) s = match for_each f l s with Done (_, s) => f x s | Panic r => Panic r | NoFuel => NoFuel end.
Proof.
  revert s. induction l as [|y l IH]; intros s; simpl.
  - unfold mbind, M_bind, mret, M_ret. by destruct (f x s) as [[[] ?]| |].
  - unfold mbind, M_bind. destruct (f y s) as [[[] s']| |]; [apply IH|done..].
Qed.

(** The state after a history: the slots hold the waiting wakers, and the
    history touches neither the reservations nor the end-of-interrupt flags. *)
Definition after_ops (s : X86) (ops : list irq_op) (s' : X86) : Prop :=
  for_each irq_step ops s = Done (tt, s') ∧ x86_wf s' ∧
  RESERVATIONS s' = RESERVATIONS s ∧ END_OF_INTERRUPT s' = END_OF_INTERRUPT s ∧
  ∀ i, (i < 224)%nat → WAKERS s' !! i = Some (waiting (mjoin (WAKERS s !! i)) i ops).

Lemma irq_history_ok s ops : x86_wf s → Forall (λ o, (op_index o < 224)%nat) ops →
  ∃ s', after_ops s ops s'.
Proof.
  intros Hwf. unfold after_ops. induction ops as [|o ops IH] using rev_ind; intros Hops.
  { exists s. split_and!; try done. intros i Hi.
    destruct (lookup_lt_is_Some_2 (WAKERS s) i) as [w Hw]; [by rewrite (wf_WAKERS _ Hwf)|].
    unfold waiting. simpl. by rewrite Hw. }
  apply Forall_app in Hops as [Hops Ho]. rewrite Forall_singleton in Ho.
  destruct (IH Hops) as (s1 & Hs1 & Hwf1 & Hr & He & Hw).
  setoid_rewrite for_each_snoc. rewrite Hs1.
  assert (∃ s', irq_step o s1 = Done (tt, s') ∧ WAKERS s' = <[op_index o :=
      match o with OpRegister _ w => Some w | OpInterrupt _ => None end]> (WAKERS s1) ∧
    RESERVATIONS s' = RESERVATIONS s1 ∧ END_OF_INTERRUPT s' = END_OF_INTERRUPT s1)
    as (s' & Hs' & HW & HR & HE).
  { destruct o as [i w|i]; simpl in *.
    - rewrite register_waker_ok by done. by eexists.
    - destruct (interrupt_ok i s1) as (h & -> & Hh); [done..|]. by eexists. }
  exists s'. split_and!; [done| |congruence..|].
  - destruct Hwf1. split; [rewrite HW, length_insert|rewrite HR|rewrite HE]; done.
  - intros i Hi. rewrite HW, waiting_snoc. destruct (decide (op_index o = i)) as [->|Hne].
    + rewrite bool_decide_true, list_lookup_insert_eq by (done || by rewrite (wf_WAKERS _ Hwf1)).
      done.
    + rewrite bool_decide_false, list_lookup_insert_ne by done. by apply Hw.
Qed.

(** C31: After any history of registrations and interrupts, an interrupt on a
    vector wakes exactly the waker of the last registration on that vector
    that no interrupt has consumed, and nothing when there is none; it tells
    the local APIC that the interrupt ended exactly when the vector was
    reserved that way.  No registration or interrupt panics, and other
    vectors are not touched. *)
Theorem interrupt_delivery_ok (s : X86) (ops : list irq_op) (i : nat) :
  x86_wf s → Forall (λ o, (op_index o < 224)%nat) ops → (i < 224)%nat →
  ∃ s1 s2, for_each irq_step ops s = Done (tt, s1) ∧ irq_step (OpInterrupt i) s1 = Done (tt, s2) ∧
    woken s2 = woken s1 ++ option_list (waiting (mjoin (WAKERS s !! i)) i ops) ∧
    cpu_trace s2 = cpu_trace s1 ++
      (if bool_decide (END_OF_INTERRUPT s !! i = Some true) then [WriteU32 (APIC_BASE_ADDR + 0xB0) 0] else []) ∧
    (∀ j, j ≠ i → WAKERS s2 !! j = WAKERS s1 !! j) ∧ RESERVATIONS s2 = RESERVATIONS s.
Proof.
  intros Hwf Hops Hi. destruct (irq_history_ok s ops) as (s1 & Hs1 & Hwf1 & Hr & He & Hw); [done..|].
  destruct (interrupt_ok i s1) as (h & Hh & Hd); [done..|].
  exists s1, (delivered i s1). simpl. rewrite Hh. split_and!; [done..| | | |done].
  - by rewrite (Hw i Hi).
  - rewrite He. destruct (END_OF_INTERRUPT s !! i) as [[]|]; simpl; by rewrite ?app_nil_r.
  - intros j Hj. by rewrite list_lookup_insert_ne.
Qed.
