(* ===== verification/X86Inv.v ===== *)
(** What the accesses of [X86.v] mean to the devices: the interrupt command
    register of the local APIC, the redirection tables of the I/O APICs, the
    legacy PICs and the channel 0 of the PIT, as functions of the accesses. *)
From S2P Require Import Prelude X86.

#[local] Arguments Z.add : simpl never.
#[local] Arguments Z.mul : simpl never.
#[local] Arguments Z.sub : simpl never.
#[local] Arguments Z.shiftl : simpl never.
#[local] Arguments Z.shiftr : simpl never.
#[local] Arguments Z.land : simpl never.
#[local] Arguments Z.lor : simpl never.

(** Runs a straight-line computation of [X86.v]. *)
Ltac run_x86 :=
  unfold write_u32, write_to_port, access_, interrupts_enable, interrupts_disable, are_enabled,
    mbind, M_bind, liftM, mret, M_ret, outcome_ret, modify, get, put, gets; simpl.

Lemma liftM_bind_Done {S A B} (m : outcome A) (f : A → M S B) a (s : S) :
  m = Done a → (liftM m ≫= f) s = f a s.
Proof. by intros ->. Qed.

Lemma liftM_bind_Panic {S A B} (m : outcome A) (f : A → M S B) r (s : S) :
  m = Panic r → (liftM m ≫= f) s = Panic r.
Proof. by intros ->. Qed.

Lemma assert_true b : b = true → assert_ b = Done tt.
Proof. by intros ->. Qed.

(** * Inter-processor interrupts *)

(** The command that writing [lo] in the low half of the interrupt command
    register sends, [hi] being in the high half: the target, the delivery mode
    and the vector. *)
Definition ipi_command (hi lo : Z) : Z * Z * Z := (hi ≫ 24, (lo ≫ 8) mod 8, lo mod 256).

(** The commands sent by a list of accesses, [hi] being the high half before. *)
Fixpoint ipis (hi : Z) (tr : list x86_access) : list (Z * Z * Z) :=
  match tr with
  | [] => []
  | WriteU32 a v :: tr =>
      if bool_decide (a = APIC_BASE_ADDR + 0x310) then ipis v tr
      else if bool_decide (a = APIC_BASE_ADDR + 0x300) then ipi_command hi v :: ipis hi tr
      else ipis hi tr
  | _ :: tr => ipis hi tr
  end.

(** No interrupt handler of this processor runs between two accesses made
    while interrupts are disabled: no [Sti] comes between them. *)
Fixpoint masked_between (enabled : bool) (tr : list x86_access) : Prop :=
  match tr with
  | [] => True
  | Sti :: tr => masked_between true tr
  | Cli :: tr => masked_between false tr
  | WriteU32 _ _ :: tr => enabled = false ∧ masked_between enabled tr
  | _ :: tr => masked_between enabled tr
  end.

Lemma ipi_command_ok target delivery vector level :
  0 ≤ target ≤ u8_max → 0 ≤ delivery ≤ 6 → 0 ≤ vector ≤ u8_max → level = 0 ∨ level = 1 ≪ 15 →
  ipi_command (target ≪ 24) (Z.lor (Z.lor level (delivery ≪ 8)) vector) = (target, delivery, vector).
Proof.
  unfold ipi_command, u8_max. intros Ht Hd Hv Hl.
  assert (∃ h, 0 ≤ h ∧ Z.lor level (delivery ≪ 8) = h ≪ 8 ∧ h mod 8 = delivery) as (h & Hh & -> & Hm).
  { destruct Hl as [-> | ->].
    - exists delivery. split_and!; [lia|by rewrite Z.lor_0_l|apply Z.mod_small; lia].
    - exists (Z.lor (1 ≪ 7) delivery).
      assert (delivery = 0 ∨ delivery = 1 ∨ delivery = 2 ∨ delivery = 3 ∨ delivery = 4 ∨
        delivery = 5 ∨ delivery = 6) as [->|[->|[->|[->|[->|[->| ->]]]]]] by lia; by split_and!. }
  change 256 with (2 ^ 8).
  rewrite shiftr_lor_high, mod_lor_low by lia. rewrite Hm.
  by rewrite Z.shiftr_shiftl_l, Z.sub_diag, Z.shiftl_0_r by lia.
Qed.

(** The accesses of [send_ipi_inner]. *)
Lemma send_ipi_inner_ok (s : X86) target delivery vector :
  0 ≤ target ≤ u8_max → 0 ≤ vector ≤ u8_max →
  delivery = 0 ∨ delivery = 6 ∨ (delivery = 5 ∧ vector = 0) →
  ∃ tr, send_ipi_inner target delivery vector s =
      Done (tt, with_trace (cpu_trace s ++ tr) (interrupts_enabled s) s) ∧
    (∀ hi, ipis hi tr = [(target, delivery, vector)]) ∧ masked_between (interrupts_enabled s) tr.
Proof.
  intros Ht Hv Hd. unfold send_ipi_inner. unfold u8_max in *.
  assert (0 ≤ delivery ≤ 6) by lia.
  rewrite (bool_decide_true (delivery ≤ 6)), (bool_decide_false (delivery = 3)),
    (bool_decide_false (delivery = 1)), (bool_decide_false (delivery = 2)) by lia.
  assert ((negb (bool_decide (delivery = 5)) || bool_decide (vector = 0)) = true) as ->.
  { destruct Hd as [->|[->|[-> ->]]]; done. }
  set (level := if bool_decide (delivery = 5) then 0 else 1 ≪ 15).
  set (lo := Z.lor (Z.lor level (delivery ≪ 8)) vector).
  assert (Hcmd : ipi_command (target ≪ 24) lo = (target, delivery, vector)).
  { apply ipi_command_ok; [done..|]. subst level. case_bool_decide; auto. }
  run_x86. destruct (interrupts_enabled s) eqn:Hen; run_x86; rewrite ?Hen.
  - exists [Cli; WriteU32 (APIC_BASE_ADDR + 0x310) (target ≪ 24); WriteU32 (APIC_BASE_ADDR + 0x300) lo; Sti].
    rewrite <- !app_assoc. simpl. split_and!; try done. intros hi. unfold ipis. simpl. by rewrite Hcmd.
  - exists [WriteU32 (APIC_BASE_ADDR + 0x310) (target ≪ 24); WriteU32 (APIC_BASE_ADDR + 0x300) lo].
    rewrite <- !app_assoc. simpl. split_and!; try done. intros hi. unfold ipis. simpl. by rewrite Hcmd.
Qed.

(** The high half after some accesses. *)
Fixpoint icr_high (hi : Z) (tr : list x86_access) : Z :=
  match tr with
  | [] => hi
  | WriteU32 a v :: tr => icr_high (if bool_decide (a = APIC_BASE_ADDR + 0x310) then v else hi) tr
  | _ :: tr => icr_high hi tr
  end.

Lemma ipis_app hi tr1 tr2 : ipis hi (tr1 ++ tr2) = ipis hi tr1 ++ ipis (icr_high hi tr1) tr2.
Proof.
  revert hi. induction tr1 as [|a tr1 IH]; intros hi; simpl; [done|]. destruct a; auto.
  case_bool_decide; [auto|]. case_bool_decide; simpl; [by rewrite IH|auto].
Qed.

(** The identifier that [current_apic_id] reads, from the accesses before. *)
Definition apic_id_at `{Machine} (tr : list x86_access) : Z := mmio_read tr (APIC_BASE_ADDR + 0x20) ≫ 24.

Lemma current_apic_id_ok `{MachineLaws} (s : X86) :
  current_apic_id s = Done (apic_id_at (cpu_trace s),
    with_trace (cpu_trace s ++ [ReadU32 (APIC_BASE_ADDR + 0x20)]) (interrupts_enabled s) s).
Proof.
  unfold current_apic_id, read_u32, access_, mbind, M_bind, gets, modify, mret, M_ret, liftM. cbn beta iota.
  fold (apic_id_at (cpu_trace s)). rewrite unwrap_try_from; [done|]. unfold apic_id_at. pose proof (mmio_read_range (cpu_trace s) (APIC_BASE_ADDR + 0x20)) as Hr.
  rewrite Z.shiftr_div_pow2 by lia. unfold u8_max, u32_max in *.
  split; [apply Z.div_pos; lia|]. apply Z.lt_succ_r, Z.div_lt_upper_bound; lia.
Qed.

(** A processor never changes its identifier. *)
Definition apic_id_is `{Machine} (id : Z) : Prop := ∀ tr, apic_id_at tr = id.

(** [send_interprocessor_init] and [send_interprocessor_sipi] send one command
    to another processor. *)
Lemma send_init_ok `{MachineLaws} (s : X86) me target : apic_id_is me → me ≠ target → 0 ≤ target ≤ u8_max →
  ∃ tr, send_interprocessor_init target s =
      Done (tt, with_trace (cpu_trace s ++ tr) (interrupts_enabled s) s) ∧
    (∀ hi, ipis hi tr = [(target, 5, 0)]).
Proof.
  intros Hid Hne Ht. unfold send_interprocessor_init, mbind, M_bind.
  rewrite current_apic_id_ok, Hid. cbn beta iota. unfold liftM. rewrite bool_decide_false by done. simpl.
  set (s1 := with_trace _ _ s).
  destruct (send_ipi_inner_ok s1 target 5 0) as (tr & -> & Hi & _); [done|done|auto|].
  exists (ReadU32 (APIC_BASE_ADDR + 0x20) :: tr). split; [|done].
  subst s1. simpl. unfold with_trace. simpl. by rewrite <- app_assoc.
Qed.

Lemma send_sipi_ok `{MachineLaws} (s : X86) me target page : apic_id_is me → me ≠ target → 0 ≤ target ≤ u8_max →
  0 ≤ page ≤ u8_max →
  ∃ tr, send_interprocessor_sipi target (page * 0x1000) s =
      Done (tt, with_trace (cpu_trace s ++ tr) (interrupts_enabled s) s) ∧
    (∀ hi, ipis hi tr = [(target, 6, page)]).
Proof.
  intros Hid Hne Ht Hp. unfold send_interprocessor_sipi, mbind, M_bind.
  rewrite current_apic_id_ok, Hid. cbn beta iota. unfold liftM. rewrite bool_decide_false by done. simpl.
  assert (Hsh : (page * 0x1000) ≫ 12 = page).
  { rewrite Z.shiftr_div_pow2 by lia. change (2 ^ 12) with 0x1000. by apply (Z.div_mul page 0x1000). }
  rewrite Hsh. rewrite bool_decide_true by (by rewrite Z.shiftl_mul_pow2). simpl.
  rewrite bool_decide_true by lia. simpl. rewrite unwrap_try_from by lia.
  set (s1 := with_trace _ _ s).
  destruct (send_ipi_inner_ok s1 target 6 page) as (tr & -> & Hi & _); [done|done|auto|].
  exists (ReadU32 (APIC_BASE_ADDR + 0x20) :: tr). split; [|done].
  subst s1. simpl. unfold with_trace. simpl. by rewrite <- app_assoc.
Qed.

(** * I/O APICs *)

(** The selected register and the registers of the I/O APIC [c], after an
    access.  The selector is a byte. *)
Definition io_step (c : IoApicControl) (d : Z * gmap Z Z) (a : x86_access) : Z * gmap Z Z :=
  match a with
  | WriteU32 addr v =>
      if bool_decide (addr = io_reg_sel_register c) then (v mod 256, snd d)
      else if bool_decide (addr = io_win_register c) then (fst d, <[fst d := v]> (snd d))
      else d
  | _ => d
  end.

Definition io_regs (c : IoApicControl) (tr : list x86_access) : gmap Z Z :=
  snd (fold_left (io_step c) tr (0, ∅)).

(** The entry of the redirection table at [offset]: the destination and the
    vector. *)
Definition redirection (regs : gmap Z Z) (offset : Z) : option (Z * Z) :=
  lo ← regs !! (0x10 + 2 * offset);
  hi ← regs !! (0x10 + 2 * offset + 1);
  Some ((hi ≫ 24) mod 16, lo mod 256).

(** The two windows of an I/O APIC are distinct from those of another. *)
Definition io_distinct (c c' : IoApicControl) : Prop :=
  io_reg_sel_register c ≠ io_reg_sel_register c' ∧ io_reg_sel_register c ≠ io_win_register c' ∧
  io_win_register c ≠ io_reg_sel_register c' ∧ io_win_register c ≠ io_win_register c'.

(** A controller built by [init_io_apic]. *)
Definition io_wf (c : IoApicControl) : Prop :=
  io_win_register c = io_reg_sel_register c + 0x10 ∧
  0 ≤ global_system_interrupt_base c ≤ u8_max ∧ 0 ≤ maximum_redirection_entry c ≤ u8_max.

(** The accesses of [set_irq]. *)
Definition irq_accesses (c : IoApicControl) (offset lo hi : Z) : list x86_access :=
  [ WriteU32 (io_reg_sel_register c) (0x10 + offset * 2); WriteU32 (io_win_register c) lo;
    WriteU32 (io_reg_sel_register c) (0x10 + offset * 2 + 1); WriteU32 (io_win_register c) hi ].

Lemma io_regs_other c c' tr offset lo hi : io_distinct c c' →
  fold_left (io_step c') (tr ++ irq_accesses c offset lo hi) (0, ∅) =
  fold_left (io_step c') tr (0, ∅).
Proof.
  intros (? & ? & ? & ?). rewrite fold_left_app. simpl.
  by rewrite !bool_decide_false by done.
Qed.

Lemma io_regs_set c tr offset lo hi :
  io_reg_sel_register c ≠ io_win_register c → 0 ≤ offset ≤ 119 →
  io_regs c (tr ++ irq_accesses c offset lo hi) =
  <[0x10 + 2 * offset + 1 := hi]> (<[0x10 + 2 * offset := lo]> (io_regs c tr)).
Proof.
  intros Hne Ho. unfold io_regs. rewrite fold_left_app. simpl.
  rewrite (bool_decide_true (io_reg_sel_register c = _)), (bool_decide_true (io_win_register c = io_win_register c)),
    (bool_decide_false (io_win_register c = _)) by done. simpl.
  rewrite !Z.mod_small by lia. by rewrite (Z.mul_comm offset 2).
Qed.

(** Masking interrupts is invisible to the I/O APICs. *)
Lemma io_fold_masked c tr b accesses :
  fold_left (io_step c) (tr ++ [Cli] ++ accesses ++ (if b : bool then [Sti] else [])) (0, ∅) =
  fold_left (io_step c) (tr ++ accesses) (0, ∅).
Proof. rewrite !fold_left_app. simpl. by destruct b. Qed.

(** [set_irq] on an offset of the table. *)
Lemma set_irq_ok (c : IoApicControl) offset destination interrupt (s : X86) :
  0 ≤ offset ≤ 119 → offset ≤ maximum_redirection_entry c →
  0 ≤ destination < 16 → 32 ≤ interrupt ≤ u8_max →
  set_irq c offset destination interrupt s =
    Done (tt, with_trace (cpu_trace s ++ [Cli] ++ irq_accesses c offset interrupt (destination ≪ 24) ++
                (if interrupts_enabled s then [Sti] else [])) (interrupts_enabled s) s).
Proof.
  intros Ho Hm Hd Hi. unfold set_irq.
  assert (Hlo : Z.land (Z.lor (destination ≪ 56) interrupt) 0xffffffff = interrupt).
  { change 0xffffffff with (Z.ones 32). rewrite Z.land_ones by lia.
    replace (destination ≪ 56) with ((destination ≪ 24) ≪ 32) by (by rewrite Z.shiftl_shiftl).
    apply mod_lor_low; [apply Z.shiftl_nonneg; lia|unfold u8_max in *; lia|lia]. }
  assert (Hhi : Z.lor (destination ≪ 56) interrupt ≫ 32 = destination ≪ 24).
  { replace (destination ≪ 56) with ((destination ≪ 24) ≪ 32) by (by rewrite Z.shiftl_shiftl).
    apply shiftr_lor_high; [apply Z.shiftl_nonneg; lia|unfold u8_max in *; lia|lia]. }
  assert (Hr : 0 ≤ destination ≪ 24 ≤ u32_max) by (rewrite Z.shiftl_mul_pow2; unfold u32_max; lia).
  rewrite Hlo, Hhi. unfold u8_max in *. change (1 ≪ 4) with 16.
  rewrite (bool_decide_true (offset ≤ _)), (bool_decide_true (32 ≤ _)), 
    (bool_decide_true (destination < _)) by lia.
  unfold write_register. run_x86.
  rewrite (proj2 (uint_try_from_Some _ (offset * 2) _)) by (split; [reflexivity|lia]). simpl.
  rewrite (proj2 (uint_try_from_Some _ (16 + offset * 2) _)) by (split; [reflexivity|lia]). simpl.
  rewrite (proj2 (uint_try_from_Some _ interrupt _)) by (split; [reflexivity|unfold u32_max; lia]). simpl.
  rewrite (proj2 (uint_checked_Done _ (16 + offset * 2 + 1) _)) by (split; [reflexivity|lia]). simpl.
  rewrite (proj2 (uint_try_from_Some _ (destination ≪ 24) _)) by (split; [reflexivity|lia]). simpl.
  destruct (interrupts_enabled s) eqn:Hen; run_x86;
    rewrite <- !app_assoc; done.
Qed.

(** All the I/O APICs of the machine: each well formed, no two sharing a
    window. *)
Definition apics_wf (cs : IoApicsControl) : Prop :=
  Forall io_wf (io_apics cs) ∧
  ∀ i j c c', io_apics cs !! i = Some c → io_apics cs !! j = Some c' → i ≠ j → io_distinct c c'.

Lemma apic_irq_Some c irq x : apic_irq c irq = Some x →
  fst x = c ∧ irq = global_system_interrupt_base c + snd x ∧ 0 ≤ snd x ≤ maximum_redirection_entry c.
Proof.
  unfold apic_irq. intros (o & Ho & Hx)%bind_Some. apply uint_try_from_Some in Ho as [-> Ho].
  case_bool_decide; simplify_eq. simpl. split_and!; [done|lia..].
Qed.

Lemma apics_irq_Some cs irq x : apics_irq cs irq = Some x →
  ∃ i, io_apics cs !! i = Some (fst x) ∧ apic_irq (fst x) irq = Some x.
Proof.
  unfold apics_irq. intros ([i c] & Hf & Hx)%bind_Some.
  apply list_find_Some in Hf as (Hi & _ & _).
  pose proof (proj1 (apic_irq_Some _ _ _ Hx)). subst. eauto.
Qed.

Lemma redirection_other regs offset offset' lo hi : offset ≠ offset' →
  redirection (<[0x10 + 2 * offset + 1 := hi]> (<[0x10 + 2 * offset := lo]> regs)) offset' =
  redirection regs offset'.
Proof. intros. unfold redirection. by rewrite !lookup_insert_ne by lia. Qed.

(** [set_destination], on the IRQ that [IoApicsControl::irq] found, makes
    the redirection table of its I/O APIC send this IRQ to the given processor
    with the given vector; every other entry of that table and every other
    I/O APIC keeps its registers, no interrupt can happen between the writes,
    and the interrupt flag is restored.  It does not panic for the first 120
    entries of an I/O APIC, a processor below 16 and a vector from 32 on. *)
Theorem set_destination_ok (cs : IoApicsControl) (irq : Z) (x : Irq) (destination interrupt : Z) (s : X86) :
  apics_wf cs → apics_irq cs irq = Some x → snd x ≤ 119 →
  0 ≤ destination < 16 → 32 ≤ interrupt ≤ u8_max →
  ∃ tr, set_destination x destination interrupt s =
      Done (tt, with_trace (cpu_trace s ++ tr) (interrupts_enabled s) s) ∧
    redirection (io_regs (fst x) (cpu_trace s ++ tr)) (irq - global_system_interrupt_base (fst x)) =
      Some (destination, interrupt) ∧
    (∀ offset, offset ≠ snd x →
       redirection (io_regs (fst x) (cpu_trace s ++ tr)) offset =
       redirection (io_regs (fst x) (cpu_trace s)) offset) ∧
    (∀ c, c ∈ io_apics cs → c ≠ fst x → io_regs c (cpu_trace s ++ tr) = io_regs c (cpu_trace s)) ∧
    masked_between (interrupts_enabled s) tr.
Proof.
  intros [Hwf Hdis] Hx Ho Hd Hi. apply apics_irq_Some in Hx as (i & Hc & Hx).
  apply apic_irq_Some in Hx as (_ & -> & Hm).
  pose proof (Forall_lookup_1 _ _ _ _ Hwf Hc) as (Hwin & _ & _).
  eexists. split; [unfold set_destination; apply set_irq_ok; lia|].
  unfold io_regs at 1 2 4. rewrite !io_fold_masked. fold (io_regs (fst x) (cpu_trace s ++ irq_accesses (fst x) (snd x) interrupt (destination ≪ 24))).
  rewrite io_regs_set by lia.
  replace (global_system_interrupt_base (fst x) + snd x - global_system_interrupt_base (fst x)) with (snd x) by lia.
  split_and!.
  - unfold redirection. rewrite lookup_insert_eq, lookup_insert_ne, lookup_insert_eq by lia. simpl.
    rewrite Z.shiftr_shiftl_l, Z.sub_diag, Z.shiftl_0_r by lia. unfold u8_max in *.
    by rewrite !Z.mod_small by lia.
  - intros offset Hne. by apply redirection_other.
  - intros c [j Hj]%list_elem_of_lookup Hne. unfold io_regs. rewrite io_fold_masked, io_regs_other; [done|].
    apply (Hdis i j); [done..|]. intros ->. congruence.
  - simpl. by destruct (interrupts_enabled s).
Qed.

(** From the 121st entry on, the number of the register does not fit in a
    [u8], and [set_destination] panics although the vector is valid. *)
Theorem set_destination_overflow (c : IoApicControl) offset destination interrupt (s : X86) :
  120 ≤ offset ≤ maximum_redirection_entry c → maximum_redirection_entry c ≤ u8_max →
  0 ≤ destination < 16 → 32 ≤ interrupt ≤ u8_max →
  set_destination (c, offset) destination interrupt s = Panic PUnwrap.
Proof.
  intros Ho Hm Hd Hi. unfold set_destination, set_irq. cbn [fst snd].
  rewrite !(liftM_bind_Done (assert_ _) _ tt) by (apply assert_true, bool_decide_true; lia || (change (1 ≪ 4) with 16; lia)).
  destruct (decide (offset * 2 ≤ u8_max)).
  - rewrite (liftM_bind_Done _ _ (offset * 2)) by (apply unwrap_try_from; lia).
    apply liftM_bind_Panic, unwrap_try_from_out. unfold u8_max in *. lia.
  - apply liftM_bind_Panic, unwrap_try_from_out. lia.
Qed.

(** * The PIT *)

(** The channel 0 of the PIT: which byte of a count comes next, and the counts
    programmed so far. *)
Inductive PitPhase := PitIdle | PitLow | PitHigh (lo : Z).

Definition pit_step (d : PitPhase * list Z) (a : x86_access) : PitPhase * list Z :=
  match a with
  | OutB port v =>
      if bool_decide (port = 0x43) then (if bool_decide (v = 0x30) then (PitLow, snd d) else (PitIdle, snd d))
      else if bool_decide (port = 0x40) then
        match fst d with
        | PitIdle => d
        | PitLow => (PitHigh v, snd d)
        | PitHigh lo => (PitLow, snd d ++ [lo + 256 * v])
        end
      else d
  | _ => d
  end.

Definition pit_counts (s : X86) : list Z := snd (fold_left pit_step (cpu_trace s) (PitIdle, [])).

(** The future polled, then polled again after each of [k] interrupts of its
    vector, which wake the [RaisingArc] that the poll registered. *)
Fixpoint pit_drive (w : Waker) (f : PitFuture) (k : nat) : M X86 (bool * PitFuture) :=
  r ← pit_poll w f;
  match k with
  | O => mret r
  | S k =>
      _ ← default (mret tt) (interrupt (Z.to_nat (pit_vector f)));
      f ← liftM (raising_wake (snd r));
      pit_drive w f k
  end.

(** The counts that a future still has to program. *)
Definition pit_left (f : PitFuture) : list Z :=
  replicate (Z.to_nat (num_major_ticks f)) u16_max ++
  (if bool_decide (minor_modulus f = 0) then [] else [minor_modulus f]).

Definition pit_wf (i : nat) (f : PitFuture) : Prop :=
  pit_vector f = Z.of_nat i + 32 ∧ 0 ≤ num_major_ticks f ∧ 0 ≤ minor_modulus f < u16_max ∧ raised f = true.

Lemma channel0_one_shot_ok ticks (s : X86) : 0 ≤ ticks ≤ u16_max →
  ∃ s', channel0_one_shot ticks s = Done (tt, s') ∧ pit_counts s' = pit_counts s ++ [ticks] ∧
    WAKERS s' = WAKERS s ∧ RESERVATIONS s' = RESERVATIONS s ∧ END_OF_INTERRUPT s' = END_OF_INTERRUPT s.
Proof.
  intros Ht. eexists. split; [unfold channel0_one_shot; run_x86; reflexivity|].
  split_and!; [|done..]. unfold pit_counts. simpl. rewrite !fold_left_app. simpl.
  f_equal. f_equal. rewrite (Z.mod_small (ticks / 256)).
  - pose proof (Z.div_mod ticks 256). lia.
  - unfold u16_max in *. split; [apply Z.div_pos; lia|apply Z.div_lt_upper_bound; lia].
Qed.

(** An interrupt programs nothing. *)
Lemma delivered_counts i s : pit_counts (delivered i s) = pit_counts s.
Proof. unfold pit_counts, delivered. simpl. destruct (default _ _); [|done]. by rewrite fold_left_app. Qed.

(** A poll of a future that has nothing left is ready. *)
Lemma pit_poll_ready i w f (s : X86) : pit_wf i f → pit_left f = [] →
  ∃ f', pit_poll w f s = Done ((true, f'), s).
Proof.
  intros (_ & Hma & Hmi & Hr) Hl. unfold pit_left in Hl. apply app_eq_nil in Hl as [Hl1 Hl2].
  unfold pit_poll. rewrite Hr. simpl.
  assert (num_major_ticks f = 0) as H0.
  { destruct (Z.to_nat _) eqn:E; [lia|done]. }
  case_bool_decide; [|done]. rewrite bool_decide_true by done. rewrite bool_decide_true by done.
  by eexists.
Qed.

(** Otherwise it programs the next count, and waits for the interrupt. *)
Lemma pit_poll_next i w f t l (s : X86) : x86_wf s → (i < 224)%nat → pit_wf i f → pit_left f = t :: l →
  ∃ f' s', pit_poll w f s = Done ((false, f'), s') ∧ x86_wf s' ∧ pit_counts s' = pit_counts s ++ [t] ∧
    WAKERS s' !! i = Some (Some w) ∧ 1 ≤ t ≤ u16_max ∧
    raised f' = false ∧ pit_left f' = l ∧ pit_vector f' = pit_vector f ∧
    0 ≤ num_major_ticks f' ∧ 0 ≤ minor_modulus f' < u16_max.
Proof.
  intros Hwf Hi (Hv & Hma & Hmi & Hr) Hl. unfold pit_poll. rewrite Hr. simpl.
  set (p := if bool_decide (num_major_ticks f = 0) then _ else _).
  assert (∃ f', p = (t, f') ∧ 1 ≤ t ≤ u16_max ∧ raised f' = false ∧ pit_left f' = l ∧
    pit_vector f' = pit_vector f ∧ 0 ≤ num_major_ticks f' ∧ 0 ≤ minor_modulus f' < u16_max)
    as (f' & -> & Ht & Hr' & Hl' & Hv' & ? & ?).
  { subst p. unfold pit_left in Hl. unfold u16_max in *.
    destruct (bool_decide_reflect (num_major_ticks f = 0)) as [E|E].
    - rewrite E in Hl. simpl in Hl. case_bool_decide as E'; [done|]. simplify_eq/=.
      eexists. split; [done|]. unfold pit_left. simpl. rewrite E. split_and!; done || lia.
    - replace (Z.to_nat (num_major_ticks f)) with (S (Z.to_nat (num_major_ticks f - 1))) in Hl by lia.
      simpl in Hl. injection Hl as <- <-.
      eexists. split; [done|]. unfold pit_left. simpl. split_and!; done || lia. }
  simpl. rewrite bool_decide_false by lia. rewrite Hv', Hv.
  unfold mbind, M_bind. rewrite register_waker_ok by done.
  destruct (channel0_one_shot_ok t (with_wakers (<[i:=Some w]> (WAKERS s)) (woken s) s))
    as (s' & -> & Hc & HW & HR & HE); [lia|].
  exists f', s'. destruct Hwf as [Hw1 Hw2 Hw3]. split_and!; try done || congruence || lia.
  - split; [rewrite HW|rewrite HR|rewrite HE]; simpl; rewrite ?length_insert; done.
  - rewrite HW. simpl. apply list_lookup_insert_eq. lia.
Qed.

Lemma delivered_wf i s : x86_wf s → x86_wf (delivered i s).
Proof. intros []. split; simpl; rewrite ?length_insert; done. Qed.

Lemma pit_drive_ok i w f (s : X86) k : x86_wf s → (i < 224)%nat → pit_wf i f → (k ≤ length (pit_left f))%nat →
  ∃ f' s', pit_drive w f k s = Done ((bool_decide (k = length (pit_left f)), f'), s') ∧
    pit_counts s' = pit_counts s ++ take (S k) (pit_left f).
Proof.
  revert f s. induction k as [|k IH]; intros f s Hwf Hi Hf Hk; cbn [pit_drive]; unfold mbind, M_bind.
  - destruct (pit_left f) as [|t l] eqn:Hl.
    + destruct (pit_poll_ready i w f s) as (f' & ->); [done..|]. exists f', s.
      rewrite app_nil_r. done.
    + destruct (pit_poll_next i w f t l s) as (f' & s' & -> & _ & Hc & _); [done..|].
      exists f', s'. rewrite bool_decide_false by (simpl; lia). by rewrite Hc.
  - destruct (pit_left f) as [|t l] eqn:Hl; [simpl in Hk; lia|].
    destruct (pit_poll_next i w f t l s) as (f' & s' & -> & Hwf' & Hc & Hw & Ht & Hr & Hl' & Hv & ? & ?); [done..|].
    destruct Hf as (Hv0 & _). rewrite Hv0. replace (Z.to_nat (Z.of_nat i + 32)) with (i + 32)%nat by lia.
    destruct (interrupt_ok i s') as (h & -> & Hh); [done..|]. simpl. rewrite Hh.
    unfold raising_wake, liftM. rewrite Hr. simpl.
    destruct (IH (pit_with f' true (num_major_ticks f') (minor_modulus f')) (delivered i s'))
      as (f2 & s2 & Hd & Hc2).
    + by apply delivered_wf.
    + done.
    + unfold pit_wf. simpl. rewrite Hv. done.
    + unfold pit_left in *. simpl in *. rewrite Hl'. lia.
    + exists f2, s2. change (pit_left (pit_with _ _ _ _)) with (pit_left f') in Hd, Hc2.
      rewrite Hl' in Hd, Hc2. unfold mbind, M_bind in Hd. rewrite Hd, Hc2, delivered_counts, Hc.
      rewrite <- app_assoc. simpl. split; [|done]. repeat f_equal.
      apply bool_decide_ext. lia.
Qed.

Definition sum (l : list Z) : Z := foldr Z.add 0 l.

Lemma sum_app l1 l2 : sum (l1 ++ l2) = sum l1 + sum l2.
Proof. unfold sum. induction l1 as [|x l1 IH]; simpl; [done|]. rewrite IH. lia. Qed.

Lemma sum_replicate n x : sum (replicate n x) = Z.of_nat n * x.
Proof. induction n as [|n IH]; [done|]. change (sum (replicate (S n) x)) with (x + sum (replicate n x)). rewrite IH. lia. Qed.

(** The number of ticks that the PIT counts for a duration. *)
Definition pit_ticks (nanos : Z) : Z := if bool_decide (nanos = 0) then 0 else 1 + nanos / NANOS_PER_TICK.

(** C32: A timer of the PIT completes: the counts it programs are between 1 and
    65535 (the counter has 16 bits), add up to the number of ticks of the
    duration, and the future is ready exactly when there has been one
    interrupt for each of them; neither the polls nor the interrupts panic. *)
Theorem pit_timer_ok (i : nat) (w : Waker) (nanos : Z) (s : X86) :
  x86_wf s → (i < 224)%nat → 0 ≤ nanos →
  ∃ f counts, pit_timer (Z.of_nat i + 32) nanos = Done f ∧
    Forall (λ t, 1 ≤ t ≤ u16_max) counts ∧ sum counts = pit_ticks nanos ∧
    ∀ k, (k ≤ length counts)%nat → ∃ f' s',
      pit_drive w f k s = Done ((bool_decide (k = length counts), f'), s') ∧
      pit_counts s' = pit_counts s ++ take (S k) counts.
Proof.
  intros Hwf Hi Hn. unfold pit_timer. fold (pit_ticks nanos).
  assert (Ht : 0 ≤ pit_ticks nanos).
  { unfold pit_ticks. case_bool_decide; [done|].
    pose proof (Z.div_pos nanos NANOS_PER_TICK Hn ltac:(done)). lia. }
  pose proof (Z.mod_pos_bound (pit_ticks nanos) u16_max ltac:(done)) as Hm.
  pose proof (Z.div_pos (pit_ticks nanos) u16_max Ht ltac:(done)) as Hd.
  rewrite unwrap_try_from by lia. simpl.
  match goal with |- context [mret ?f] => exists f, (pit_left f) end. split; [done|]. split_and!.
  - unfold pit_left. simpl. apply Forall_app. split.
    + apply Forall_replicate. done.
    + case_bool_decide; simpl in *; [by constructor|]. constructor; [lia|done].
  - unfold pit_left. cbn [num_major_ticks minor_modulus]. rewrite sum_app, sum_replicate.
    pose proof (Z.div_mod (pit_ticks nanos) u16_max ltac:(done)).
    rewrite Z2Nat.id by lia. case_bool_decide as E; unfold sum; simpl; lia.
  - intros k Hk. eapply pit_drive_ok; [done..| |done].
    unfold pit_wf. simpl. split_and!; done || lia.
Qed.

(** * The legacy PIC *)

(** An 8259: the initialisation words it still expects, the first vector that
    it raises, and the lines that are masked. *)
Record Pic := { pic_init : nat; pic_vector : Z; pic_mask : Z }.

Definition pic_command (p : Pic) (v : Z) : Pic :=
  if Z.testbit v 4 then {| pic_init := if Z.testbit v 0 then 3 else 2; pic_vector := pic_vector p; pic_mask := 0 |}
  else p.
Definition pic_data (p : Pic) (v : Z) : Pic :=
  match pic_init p with
  | O => {| pic_init := 0; pic_vector := pic_vector p; pic_mask := v |}
  | S n => {| pic_init := n; pic_mask := pic_mask p;
              pic_vector := if bool_decide (n = 2%nat) then v else pic_vector p |}
  end.

Definition pics_step (ps : Pic * Pic) (a : x86_access) : Pic * Pic :=
  match a with
  | OutB port v =>
      if bool_decide (port = 0x20) then (pic_command (fst ps) v, snd ps)
      else if bool_decide (port = 0x21) then (pic_data (fst ps) v, snd ps)
      else if bool_decide (port = 0xa0) then (fst ps, pic_command (snd ps) v)
      else if bool_decide (port = 0xa1) then (fst ps, pic_data (snd ps) v)
      else ps
  | _ => ps
  end.

(** Whatever the state of the two PICs, [init_and_disable_pic] leaves them
    raising the vectors 32 to 47, with every line masked. *)
Theorem init_and_disable_pic_ok (s : X86) (ps : Pic * Pic) :
  ∃ tr, init_and_disable_pic s = Done (tt, with_trace (cpu_trace s ++ tr) (interrupts_enabled s) s) ∧
    fold_left pics_step tr ps =
      ({| pic_init := 0; pic_vector := 32; pic_mask := 0xff |},
       {| pic_init := 0; pic_vector := 40; pic_mask := 0xff |}).
Proof.
  eexists. split; [unfold init_and_disable_pic; run_x86; rewrite <- !app_assoc; reflexivity|].
  by destruct ps as [[] []].
Qed.
