(* ===== verification/Executor.v ===== *)
(** The executor of the x86_64 kernel ([arch/x86_64/executor.rs]): the loop of
    [Executor::block_on] on one processor, and [Waker::wake_by_ref] running on
    any processor, as a step relation in which every access to the two atomic
    flags is one step (all are [SeqCst]).

    The future that is polled is not looked into: it may be woken at any time,
    by another processor, by an interrupt handler of this one, or by itself
    while it is polled.  An inter-processor interrupt stays pending until the
    target accepts it. *)
From S2P Require Import Prelude X86.

(** * Programs *)

(** Where [block_on] is. *)
Inductive Pc :=
  | PcPoll      (** in [Future::poll] *)
  | PcLoop      (** at the beginning of the inner loop *)
  | PcStore     (** before [need_ipi.store(true)] *)
  | PcCas       (** before [woken_up.compare_and_swap(true, false)] *)
  | PcClear     (** before [need_ipi.store(false)] *)
  | PcEnable    (** before [interrupts::enable()] and [break] *)
  | PcHlt       (** before [interrupts::enable()] and [hlt()] *)
  | PcHalted    (** halted *)
  | PcReturned  (** the future was ready *)
  | PcPanic.    (** the [debug_assert!] failed *)

#[global] Instance Pc_eq_dec : EqDecision Pc.
Proof. solve_decision. Defined.

(** Where a call to [wake_by_ref] is. *)
Inductive WakePc :=
  | WakeStore   (** before [woken_up.store(true)] *)
  | WakeCas     (** before [need_ipi.compare_and_swap(true, false)] *)
  | WakeSend.   (** before [send_interprocessor_interrupt] *)

#[global] Instance WakePc_eq_dec : EqDecision WakePc.
Proof. solve_decision. Defined.

(** [remote] are the calls in progress on other processors, [local] those of
    this processor, innermost first: they run to completion before
    [block_on] goes on.  [polls] counts the calls to [poll]. *)
Record Exec := {
  pc : Pc;
  need_ipi : bool;
  woken_up : bool;
  interrupt_flag : bool;
  ipi_pending : bool;
  remote : list WakePc;
  local : list WakePc;
  polls : nat;
}.

(** [block_on] is called with interrupts enabled. *)
Definition exec_init : Exec :=
  {| pc := PcPoll; need_ipi := false; woken_up := false; interrupt_flag := true; ipi_pending := false;
     remote := []; local := []; polls := 1 |}.

Definition set_pc (p : Pc) (f : bool) (s : Exec) : Exec :=
  {| pc := p; need_ipi := need_ipi s; woken_up := woken_up s; interrupt_flag := f;
     ipi_pending := ipi_pending s; remote := remote s; local := local s;
     polls := if bool_decide (p = PcPoll) then S (polls s) else polls s |}.
Definition set_flags (need wok pend : bool) (s : Exec) : Exec :=
  {| pc := pc s; need_ipi := need; woken_up := wok; interrupt_flag := interrupt_flag s;
     ipi_pending := pend; remote := remote s; local := local s; polls := polls s |}.
Definition set_wakes (r l : list WakePc) (s : Exec) : Exec :=
  {| pc := pc s; need_ipi := need_ipi s; woken_up := woken_up s; interrupt_flag := interrupt_flag s;
     ipi_pending := ipi_pending s; remote := r; local := l; polls := polls s |}.

(** A step of [block_on] whose [poll] gives [Pending]; [None] when the
    processor is halted or the function has returned. *)
Definition cpu_step (s : Exec) : option Exec :=
  match pc s with
  | PcPoll => Some (set_pc PcLoop (interrupt_flag s) s)
  | PcLoop => Some (if interrupt_flag s then set_pc PcStore false s else set_pc PcPanic false s)
  | PcStore => Some (set_pc PcCas (interrupt_flag s) (set_flags true (woken_up s) (ipi_pending s) s))
  | PcCas =>
      Some (if woken_up s
            then set_pc PcClear (interrupt_flag s) (set_flags (need_ipi s) false (ipi_pending s) s)
            else set_pc PcHlt (interrupt_flag s) s)
  | PcClear => Some (set_pc PcEnable (interrupt_flag s) (set_flags false (woken_up s) (ipi_pending s) s))
  | PcEnable => Some (set_pc PcPoll true s)
  | PcHlt => Some (set_pc PcHalted true s)
  | PcHalted | PcReturned | PcPanic => None
  end.

(** A step of [wake_by_ref] on this processor ([here]) or another: where the
    call is afterwards, if it is not over. *)
Definition wake_step (here : bool) (w : WakePc) (s : Exec) : option WakePc * Exec :=
  match w with
  | WakeStore => (Some WakeCas, set_flags (need_ipi s) true (ipi_pending s) s)
  | WakeCas =>
      if need_ipi s
      then (if here then None else Some WakeSend, set_flags false (woken_up s) (ipi_pending s) s)
      else (None, s)
  | WakeSend => (None, set_flags (need_ipi s) (woken_up s) true s)
  end.

(** This processor accepts an interrupt: it is no longer halted. *)
Definition resume (s : Exec) : Exec :=
  match pc s with PcHalted => set_pc PcLoop (interrupt_flag s) s | _ => s end.

(** * Interleavings *)

Inductive exec_step : Exec → Exec → Prop :=
  | Step_cpu s s' : local s = [] → cpu_step s = Some s' → exec_step s s'
  | Step_ready s : local s = [] → pc s = PcPoll → exec_step s (set_pc PcReturned (interrupt_flag s) s)
  (** the future wakes its own task *)
  | Step_self s : pc s = PcPoll → exec_step s (set_wakes (remote s) (WakeStore :: local s) s)
  (** an interrupt of another device, whose handler wakes the task or not *)
  | Step_interrupt s (l : list WakePc) : interrupt_flag s = true → l = [] ∨ l = [WakeStore] →
      exec_step s (resume (set_wakes (remote s) (l ++ local s) s))
  | Step_ipi s : interrupt_flag s = true → ipi_pending s = true →
      exec_step s (resume (set_flags (need_ipi s) (woken_up s) false s))
  | Step_local s w l w' s' : local s = w :: l → wake_step true w s = (w', s') →
      exec_step s (set_wakes (remote s') (option_list w' ++ l) s')
  (** another processor starts a wake, or goes on with one *)
  | Step_start s : exec_step s (set_wakes (WakeStore :: remote s) (local s) s)
  | Step_remote s r1 w r2 w' s' : remote s = r1 ++ w :: r2 → wake_step false w s = (w', s') →
      exec_step s (set_wakes (r1 ++ option_list w' ++ r2) (local s') s').

Definition reachable : Exec → Prop := rtc exec_step exec_init.

(** * No wake-up is lost *)

(** The interrupts are enabled except between the [disable] and the [enable]
    of the loop. *)
Definition pc_flag (p : Pc) : bool :=
  match p with PcStore | PcCas | PcClear | PcEnable | PcHlt | PcPanic => false | _ => true end.

(** Something will take the processor out of its sleep without looking at the
    flags again. *)
Definition alarm (s : Exec) : Prop := ipi_pending s = true ∨ WakeSend ∈ remote s.

Record exec_inv (s : Exec) : Prop := {
  inv_flag : interrupt_flag s = pc_flag (pc s);
  inv_no_panic : pc s ≠ PcPanic;
  inv_local : local s ≠ [] → pc s = PcPoll ∨ pc s = PcLoop ∨ pc s = PcReturned;
  (** on the way to sleep, a wake that comes finds [need_ipi], or the alarm is
      already on *)
  inv_armed : pc s = PcCas ∨ pc s = PcHlt ∨ pc s = PcHalted → need_ipi s = true ∨ alarm s;
  (** once it will sleep, a wake that has come has turned the alarm on, or is
      about to *)
  inv_woken : pc s = PcHlt ∨ pc s = PcHalted → woken_up s = true →
    alarm s ∨ (need_ipi s = true ∧ WakeCas ∈ remote s);
}.

Lemma exec_init_inv : exec_inv exec_init.
Proof. split; simpl; naive_solver. Qed.

(** The invariant on the fields that the steps change. *)
Ltac split_inv := split; unfold alarm in *; simpl in *; try (intuition congruence).

Lemma cpu_step_inv s s' : exec_inv s → local s = [] → cpu_step s = Some s' → exec_inv s'.
Proof.
  intros [Hf Hp Hl Ha Hw] Hloc. unfold cpu_step.
  destruct (pc s) eqn:E; simpl in *; intros ?; simplify_eq/=;
    try destruct (woken_up s) eqn:Ewk; rewrite ?Hf in *; split_inv.
Qed.

Lemma resume_inv s : exec_inv s → interrupt_flag s = true →
  ∀ r l n w p, (pc s ≠ PcHalted → p = ipi_pending s ∨ (pc s ≠ PcCas ∧ pc s ≠ PcHlt)) →
    r = remote s → n = need_ipi s → w = woken_up s →
  exec_inv (resume (set_wakes r l (set_flags n w p s))).
Proof.
  intros [Hf Hp Hl Ha Hw] HIF r l n w p Hpend -> -> ->. unfold resume, alarm in *. simpl.
  destruct (pc s) eqn:E; rewrite Hf in *; simpl in HIF; try done; split_inv; by rewrite E.
Qed.

(** A call to [wake_by_ref] of another processor. *)
Lemma remote_inv s r1 w r2 w' s' : exec_inv s → remote s = r1 ++ w :: r2 → wake_step false w s = (w', s') →
  exec_inv (set_wakes (r1 ++ option_list w' ++ r2) (local s') s').
Proof.
  intros [Hf Hp Hl Ha Hw] Hr Hstep.
  assert (Hin : ∀ x, x ∈ remote s → x = w ∨ x ∈ r1 ++ option_list w' ++ r2) by (rewrite Hr; set_solver).
  assert (Hnew : ∀ x, w' = Some x → x ∈ r1 ++ option_list w' ++ r2) by (intros x ->; set_solver).
  pose proof (Hin WakeSend) as H1. pose proof (Hin WakeCas) as H2.
  pose proof (Hnew WakeSend) as H3. pose proof (Hnew WakeCas) as H4.
  split; unfold alarm in *; simpl; (set (l := r1 ++ option_list w' ++ r2) in *; clearbody l);
    clear Hin Hnew Hr;
    (destruct w; simpl in Hstep; [|destruct (need_ipi s) eqn:En|]); simplify_eq/=; intuition congruence.
Qed.

Lemma local_inv s w l w' s' : exec_inv s → local s = w :: l → wake_step true w s = (w', s') →
  exec_inv (set_wakes (remote s') (option_list w' ++ l) s').
Proof.
  intros [Hf Hp Hl Ha Hw] Hr Hstep.
  assert (Hpc : pc s = PcPoll ∨ pc s = PcLoop ∨ pc s = PcReturned) by (apply Hl; by rewrite Hr).
  destruct w; simpl in Hstep; [|destruct (need_ipi s) eqn:En|]; simplify_eq/=;
    destruct Hpc as [E|[E|E]]; rewrite E in Hf, Ha, Hw; split_inv; rewrite ?E in *; intuition congruence.
Qed.

Lemma exec_step_inv s s' : exec_inv s → exec_step s s' → exec_inv s'.
Proof.
  intros Hinv Hstep. destruct Hstep as [s s'|s Hloc E|s E|s l HIF Hl|s HIF Hp|s w l w' s'|s|s r1 w r2 w' s'].
  - by eapply cpu_step_inv.
  - destruct Hinv. split_inv; rewrite inv_flag0, E; done.
  - destruct Hinv. split_inv.
  - pose proof (resume_inv s Hinv HIF (remote s) (l ++ local s) (need_ipi s) (woken_up s) (ipi_pending s)) as H.
    apply H; auto.
  - pose proof (resume_inv s Hinv HIF (remote s) (local s) (need_ipi s) (woken_up s) false) as H.
    apply H; auto. intros _. right. rewrite (inv_flag _ Hinv) in HIF. by destruct (pc s).
  - by eapply local_inv.
  - destruct Hinv. split_inv; unfold alarm in *; set_solver.
  - by eapply remote_inv.
Qed.

Lemma reachable_inv s : reachable s → exec_inv s.
Proof.
  unfold reachable. intros Hr. pose proof exec_init_inv as Hi. induction Hr; [done|].
  eauto using exec_step_inv.
Qed.

(** * Progress *)

(** What the processor does when no wake is in progress: it accepts a pending
    interrupt as soon as it can, and runs [block_on] otherwise. *)
Definition cpu_run (s : Exec) : Exec :=
  if interrupt_flag s && ipi_pending s
  then resume (set_flags (need_ipi s) (woken_up s) false s)
  else default s (cpu_step s).

Lemma cpu_run_step s : local s = [] → cpu_run s = s ∨ exec_step s (cpu_run s).
Proof.
  intros Hl. unfold cpu_run. destruct (interrupt_flag s && ipi_pending s) eqn:E.
  - apply andb_prop in E as [? ?]. right. by apply Step_ipi.
  - destruct (cpu_step s) as [s'|] eqn:Hs; [right|by left]. by apply Step_cpu.
Qed.

(** C24: No wake-up is lost: in every interleaving of [block_on] with calls to
    [wake_by_ref] from other processors, from interrupt handlers and from the
    future itself, once a wake has set [woken_up] and no call is still in
    progress, the processor polls the future again within seven of its own
    steps, whether it was polling, checking the flags or halted.  The assertion
    on the interrupt flag never fails. *)
Theorem no_lost_wakeup (s : Exec) : reachable s → pc s ≠ PcReturned →
  woken_up s = true → remote s = [] → local s = [] →
  pc s ≠ PcPanic ∧
  ∃ n, (n ≤ 7)%nat ∧ polls (Nat.iter n cpu_run s) = S (polls s) ∧ pc (Nat.iter n cpu_run s) = PcPoll.
Proof.
  intros [Hf Hp _ _ Hw]%reachable_inv Hret Hwk Hr Hl. split; [done|]. unfold alarm in Hw.
  destruct s as [p ni wk f pend r l n]. simpl in *. subst wk r l f.
  destruct p; try done.
  1: destruct pend; [exists 7%nat|exists 6%nat]; by split_and!; [lia|..].
  1: destruct pend; [exists 6%nat|exists 5%nat]; by split_and!; [lia|..].
  1: exists 4%nat. 2: exists 3%nat. 3: exists 2%nat. 4: exists 1%nat.
  1-4: by split_and!; [lia|..].
  all: assert (pend = true) as -> by (destruct Hw as [[?|?%not_elem_of_nil]|[_ ?%not_elem_of_nil]]; auto; done).
  1: exists 7%nat. 2: exists 6%nat. all: by split_and!; [lia|..].
Qed.
