(* ===== verification/X86Timers.v ===== *)
(** The timers of the x86_64 kernel ([arch/x86_64/apic/timers.rs]) and the
    clock and timer methods of its [PlatformSpecific]
    ([arch/x86_64.rs]).

    The list of timers and the machine are the state; the list is behind a
    spinlock, which is free at each call.  A [Duration] is a number of seconds
    and a number of nanoseconds below one second. *)
From S2P Require Import Prelude X86.
From Stdlib Require Import Sorted.

(** The fields of [Timers] that never change. *)
Record TimersConfig := {
  tc_local_apics : LocalApicsControl;
  tc_interrupt_vector : ReservedInterruptVector;
  monotonic_clock_zero : Z;
  rdtsc_ticks_per_sec : Z;
}.

(** [timers], and the machine. *)
Record Timers := {
  timer_list : list (Z * Waker);
  timer_x86 : X86;
}.

Record TimerFuture := {
  tsc_value : Z;
  in_timers_list : bool;
}.

Definition on_x86 {A} (m : M X86 A) : M Timers A :=
  zoom timer_x86 (λ x t, {| timer_list := timer_list t; timer_x86 := x |}) m.
Definition set_timer_list (l : list (Z * Waker)) : M Timers unit :=
  modify (λ t, {| timer_list := l; timer_x86 := timer_x86 t |}).

Section timers.
Context `{Machine}.

(** [init], once [executor.block_on] has waited for one second ([wait]). *)
Definition timers_init (local_apics : LocalApicsControl) (wait : M X86 unit) :
    M X86 (TimersConfig * list (Z * Waker)) :=
  before ← rdtsc;
  _ ← wait;
  after ← rdtsc;
  _ ← liftM (assert_ (negb (bool_decide (after = before))));
  rdtsc_ticks_per_sec ← liftM (uint_checked u64_max (after - before));
  r ← reserve_any_vector true;
  interrupt_vector ← liftM (unwrap_ok r);
  _ ← (if tsc_deadline_supported local_apics
       then enable_local_timer_interrupt_tsc_deadline local_apics interrupt_vector
       else enable_local_timer_interrupt local_apics false interrupt_vector);
  zero ← rdtsc;
  mret ({| tc_local_apics := local_apics; tc_interrupt_vector := interrupt_vector;
           monotonic_clock_zero := zero; rdtsc_ticks_per_sec := rdtsc_ticks_per_sec |}, []).

Definition register_tsc_timer (cfg : TimersConfig) (secs nanos : Z) : outcome TimerFuture :=
  a ← unwrap (u64_try_from (secs * rdtsc_ticks_per_sec cfg));
  b ← unwrap (u64_try_from (nanos * rdtsc_ticks_per_sec cfg));
  tsc_value ← unwrap (u64_try_from (a + b / 1000000000));
  mret {| tsc_value := tsc_value; in_timers_list := false |}.

(** [Timers::monotonic_clock]: the seconds and the nanoseconds. *)
Definition tsc_clock (cfg : TimersConfig) : M X86 (Z * Z) :=
  now ← rdtsc;
  _ ← liftM (debug_assert (bool_decide (monotonic_clock_zero cfg ≤ now)));
  diff_ticks ← liftM (uint_checked u64_max (now - monotonic_clock_zero cfg));
  if bool_decide (rdtsc_ticks_per_sec cfg = 0) then panic PDivZero else
  let whole_secs := diff_ticks / rdtsc_ticks_per_sec cfg in
  scaled ← liftM (uint_checked u64_max (1000000000 * (diff_ticks mod rdtsc_ticks_per_sec cfg)));
  nanos ← liftM (unwrap (u32_try_from (scaled / rdtsc_ticks_per_sec cfg)));
  mret (whole_secs, nanos).

(** [update_apic_timer_state]. *)
Definition update_apic_timer_state (cfg : TimersConfig) (now : Z) : M Timers unit :=
  t ← get;
  match timer_list t with
  | [] => mret tt
  | (tsc, waker) :: _ =>
      _ ← liftM (debug_assert (bool_decide (now < tsc)));
      _ ← on_x86 (register_waker (tc_interrupt_vector cfg) waker);
      _ ← liftM (debug_assert (negb (bool_decide (tsc = 0))));
      if tsc_deadline_supported (tc_local_apics cfg) then
        _ ← liftM (if bool_decide (tsc = 0) then Panic PUnwrap else Done tt);
        on_x86 (set_local_tsc_deadline (tc_local_apics cfg) (Some tsc))
      else
        delta ← liftM (uint_checked u64_max (tsc - now));
        ticks ← liftM (uint_checked u64_max (1 + delta / 128));
        match u32_try_from ticks with
        | Some ticks =>
            _ ← liftM (if bool_decide (ticks = 0) then Panic PUnwrap else Done tt);
            on_x86 (set_local_timer_value (tc_local_apics cfg) (Some ticks))
        | None => mret tt
        end
  end.

(** The loop of [poll] that removes the timers that are over: it wakes their
    wakers, except the one that is being polled.  The result is
    [removed_any]. *)
Fixpoint pop_expired (rdtsc : Z) (me : Waker) (l : list (Z * Waker)) : M Timers bool :=
  match l with
  | (tsc, waker) :: rest =>
      if bool_decide (tsc ≤ rdtsc) then
        _ ← set_timer_list rest;
        _ ← (if bool_decide (waker ≠ me) then on_x86 (wake waker) else mret tt);
        _ ← pop_expired rdtsc me rest;
        mret true
      else mret false
  | [] => mret false
  end.

(** [VecDeque::insert]. *)
Definition insert_at {A} (i : nat) (x : A) (l : list A) : list A := take i l ++ x :: drop i l.

(** [TimerFuture::poll]: whether the future is ready.  [me] is the waker of
    the context. *)
Definition timer_poll (cfg : TimersConfig) (me : Waker) (this : TimerFuture) : M Timers (bool * TimerFuture) :=
  now ← on_x86 rdtsc;
  if bool_decide (tsc_value this ≤ now) then
    if negb (in_timers_list this) then mret (true, this) else
    t ← get;
    removed_any ← pop_expired now me (timer_list t);
    let this := {| tsc_value := tsc_value this; in_timers_list := false |} in
    _ ← (if removed_any : bool then update_apic_timer_state cfg now else mret tt);
    mret (true, this)
  else
    _ ← liftM (debug_assert (bool_decide (now < tsc_value this)));
    if negb (in_timers_list this) then
      t ← get;
      let insert_position :=
        default 0%nat (fst <$> list_find (λ v, tsc_value this < fst v) (timer_list t)) in
      _ ← set_timer_list (insert_at insert_position (tsc_value this, me) (timer_list t));
      let this := {| tsc_value := tsc_value this; in_timers_list := true |} in
      _ ← (if bool_decide (insert_position = 0%nat) then update_apic_timer_state cfg now else mret tt);
      mret (false, this)
    else mret (false, this).

Definition timer_drop (cfg : TimersConfig) (this : TimerFuture) : M Timers unit :=
  if negb (in_timers_list this) then mret tt else
  t ← get;
  match fst <$> list_find (λ v, fst v = tsc_value this) (timer_list t) with
  | None => mret tt
  | Some my_position =>
      if bool_decide (fst <$> timer_list t !! S my_position = Some (tsc_value this)) then mret tt else
      _ ← set_timer_list (delete my_position (timer_list t));
      if bool_decide (my_position = 0%nat) then
        now ← on_x86 rdtsc;
        update_apic_timer_state cfg now
      else mret tt
  end.

(** * [PlatformSpecificImpl] *)

(** [monotonic_clock().as_nanos()]. *)
Definition platform_monotonic_clock (cfg : TimersConfig) : M X86 Z :=
  d ← tsc_clock cfg;
  mret (fst d * 1000000000 + snd d).

(** [timer]; [Duration::new] does not carry, since the nanoseconds are less
    than one second. *)
Definition platform_timer (cfg : TimersConfig) (clock_value : Z) : outcome TimerFuture :=
  let secs := default u64_max (u64_try_from (clock_value / 1000000000)) in
  nanos ← unwrap (u32_try_from (clock_value mod 1000000000));
  register_tsc_timer cfg secs nanos.

End timers.

(** * The clock *)

#[local] Arguments Z.add : simpl never.
#[local] Arguments Z.mul : simpl never.
#[local] Arguments Z.sub : simpl never.
#[local] Arguments Z.div : simpl never.
#[local] Arguments Z.modulo : simpl never.

(** The machine after a read of the time-stamp counter. *)
Definition ticked (x : X86) : X86 := with_trace (cpu_trace x ++ [RdTsc]) (interrupts_enabled x) x.

(** Up to this frequency, about 18 GHz, the conversions to nanoseconds fit in
    a [u64]. *)
Definition max_rate : Z := 18446744073.

Section clock.
Context `{Machine} `{!MachineLaws} (cfg : TimersConfig).
Hypothesis Hrate : 2 ≤ rdtsc_ticks_per_sec cfg ≤ max_rate.

Local Abbreviation rate := (rdtsc_ticks_per_sec cfg).

Lemma scaled_range n : 0 ≤ n < 1000000000 → 0 ≤ n * rate ≤ u64_max.
Proof using Hrate. intros Hn. unfold max_rate, u64_max in *. nia. Qed.

(** The monotonic clock of the x86_64 kernel never panics (for a processor
    below 18 GHz, whose counter does not go back before its value at boot), and gives exactly the
    time elapsed since the boot, rounded down to the nanosecond. *)
Theorem platform_monotonic_clock_ok (x : X86) :
  0 ≤ monotonic_clock_zero cfg ≤ rdtsc_at (cpu_trace x) →
  platform_monotonic_clock cfg x =
    Done (1000000000 * (rdtsc_at (cpu_trace x) - monotonic_clock_zero cfg) / rate, ticked x).
Proof using All.
  intros Hz. pose proof (rdtsc_range (cpu_trace x)) as Hr.
  set (d := rdtsc_at (cpu_trace x) - monotonic_clock_zero cfg).
  pose proof (Z.mod_pos_bound d rate ltac:(lia)) as Hm.
  unfold platform_monotonic_clock, tsc_clock, rdtsc, access_, mbind, M_bind, gets, modify, liftM, mret, M_ret.
  simpl. rewrite bool_decide_true by lia. simpl.
  rewrite (proj2 (uint_checked_Done _ _ d)) by (subst d; lia).
  rewrite bool_decide_false by lia.
  rewrite (proj2 (uint_checked_Done _ (1000000000 * (d mod rate)) _))
    by (split; [reflexivity|unfold max_rate, u64_max in *; lia]).
  assert (0 ≤ 1000000000 * (d mod rate) / rate < 1000000000).
  { split; [apply Z.div_pos; lia|apply Z.div_lt_upper_bound; lia]. }
  rewrite (proj2 (uint_try_from_Some _ (1000000000 * (d mod rate) / rate) _))
    by (split; [reflexivity|unfold u32_max; lia]).
  simpl. do 2 f_equal.
  rewrite (Z.div_mod d rate) at 3 by lia.
  replace (1000000000 * (rate * (d / rate) + d mod rate))
    with ((1000000000 * (d / rate)) * rate + 1000000000 * (d mod rate)) by lia.
  rewrite Z.div_add_l by lia. lia.
Qed.

(** [register_tsc_timer] computes the number of ticks of a duration: it panics
    when it is more than a [u64] holds. *)
Lemma register_tsc_timer_ok secs nanos : 0 ≤ secs ≤ u64_max → 0 ≤ nanos < 1000000000 →
  let ticks := (secs * 1000000000 + nanos) * rate / 1000000000 in
  register_tsc_timer cfg secs nanos =
    if bool_decide (ticks ≤ u64_max)
    then Done {| tsc_value := ticks; in_timers_list := false |} else Panic PUnwrap.
Proof using Hrate.
  intros Hs Hn ticks. pose proof (scaled_range nanos Hn) as Hsc.
  assert (Ht : ticks = secs * rate + nanos * rate / 1000000000).
  { subst ticks. replace ((secs * 1000000000 + nanos) * rate)
      with ((secs * rate) * 1000000000 + nanos * rate) by lia. by rewrite Z.div_add_l by lia. }
  assert (0 ≤ nanos * rate / 1000000000) by (apply Z.div_pos; lia).
  unfold register_tsc_timer, mbind, outcome_bind, unwrap.
  destruct (decide (secs * rate ≤ u64_max)) as [Hle|Hgt].
  - rewrite (proj2 (uint_try_from_Some _ (secs * rate) _)) by (split; [reflexivity|nia]).
    rewrite (proj2 (uint_try_from_Some _ (nanos * rate) _)) by (split; [reflexivity|lia]).
    rewrite <- Ht. case_bool_decide.
    + by rewrite (proj2 (uint_try_from_Some _ ticks _)) by (split; [reflexivity|nia]).
    + by rewrite (proj2 (uint_try_from_None _ ticks)) by lia.
  - rewrite (proj2 (uint_try_from_None _ (secs * rate))) by lia.
    rewrite bool_decide_false by lia. done.
Qed.

(** The ticks that [PlatformSpecific::timer] waits for. *)
Definition timer_ticks (clock_value : Z) : Z := clock_value * rate / 1000000000.

(** [PlatformSpecific::timer] gives a future for the counter [timer_ticks], and
    panics when this is more than a [u64] holds, which a program can ask for. *)
Theorem platform_timer_ok (clock_value : Z) : 0 ≤ clock_value →
  platform_timer cfg clock_value =
    if bool_decide (timer_ticks clock_value ≤ u64_max)
    then Done {| tsc_value := timer_ticks clock_value; in_timers_list := false |} else Panic PUnwrap.
Proof using Hrate.
  intros Hc. unfold platform_timer, timer_ticks.
  pose proof (Z.mod_pos_bound clock_value 1000000000 ltac:(lia)) as Hm.
  pose proof (Z.div_pos clock_value 1000000000 Hc ltac:(lia)) as Hd.
  pose proof (Z.div_mod clock_value 1000000000 ltac:(lia)) as Hdm.
  assert (Hn : unwrap (u32_try_from (clock_value mod 1000000000)) = Done (clock_value mod 1000000000)).
  { rewrite (proj2 (uint_try_from_Some _ _ (clock_value mod 1000000000))); [done|]. unfold u32_max. lia. }
  rewrite Hn. simpl. destruct (decide (clock_value / 1000000000 ≤ u64_max)) as [Hle|Hgt].
  - rewrite (proj2 (uint_try_from_Some _ (clock_value / 1000000000) _)) by (split; [reflexivity|lia]).
    simpl. rewrite register_tsc_timer_ok by lia.
    replace (clock_value / 1000000000 * 1000000000 + clock_value mod 1000000000) with clock_value by lia.
    done.
  - rewrite (proj2 (uint_try_from_None _ (clock_value / 1000000000))) by lia. simpl.
    rewrite register_tsc_timer_ok by (done || lia).
    rewrite !bool_decide_false; [done| |].
    + assert (u64_max + 1 ≤ clock_value * rate / 1000000000); [|lia].
      apply Z.div_le_lower_bound; [lia|]. nia.
    + assert (u64_max + 1 ≤ (u64_max * 1000000000 + clock_value mod 1000000000) * rate / 1000000000); [|lia].
      apply Z.div_le_lower_bound; [lia|]. unfold u64_max in *. nia.
Qed.

End clock.

(** * The list of timers *)

(** "Always ordered by ascending TSC value". *)
Definition by_tsc (a b : Z * nat) : Prop := fst a ≤ fst b.
Definition ascending (l : list (Z * Waker)) : Prop := StronglySorted by_tsc l.

(** The value in the TSC deadline MSR. *)
Definition deadline_of (a : x86_access) : option Z :=
  match a with WrMsr m v => if bool_decide (m = 0x6e0) then Some v else None | _ => None end.
Definition deadline (x : X86) : option Z := last (omap deadline_of (cpu_trace x)).

(** The initial count of the APIC timer, which it counts down once. *)
Definition count_of (a : x86_access) : option Z :=
  match a with WriteU32 a v => if bool_decide (a = APIC_BASE_ADDR + 0x380) then Some v else None | _ => None end.
Definition count (x : X86) : option Z := last (omap count_of (cpu_trace x)).

(** The count for a timer, from a value of the counter. *)
Definition oneshot_ticks (tsc now : Z) : Z := 1 + (tsc - now) / 128.

(** A 32-bit count reaches that far; a deadline always does. *)
Definition in_reach (cfg : TimersConfig) (now tsc : Z) : Prop :=
  tsc_deadline_supported (tc_local_apics cfg) = true ∨ oneshot_ticks tsc now ≤ u32_max.

(** A value that the counter has had. *)
Definition seen `{Machine} (now : Z) (x : X86) : Prop := ∃ tr, tr `prefix_of` cpu_trace x ∧ rdtsc_at tr = now.

(** The APIC is set for [tsc]: it is in the deadline MSR, or, on a processor
    without that mode, the count is the one from an earlier value of the
    counter. *)
Definition fires_for `{Machine} (cfg : TimersConfig) (tsc : Z) (x : X86) : Prop :=
  if tsc_deadline_supported (tc_local_apics cfg) then deadline x = Some tsc
  else ∃ now, seen now x ∧ now < tsc ∧ count x = Some (oneshot_ticks tsc now).

(** The documented invariant: the list is ordered, and its first element is
    what the APIC and the interrupt vector hold. *)
Definition in_sync `{Machine} (cfg : TimersConfig) (i : nat) (t : Timers) : Prop :=
  match timer_list t with
  | [] => True
  | (tsc, w) :: _ => fires_for cfg tsc (timer_x86 t) ∧ WAKERS (timer_x86 t) !! i = Some (Some w)
  end.

Definition timers_inv `{Machine} (cfg : TimersConfig) (i : nat) (t : Timers) : Prop :=
  x86_wf (timer_x86 t) ∧ ascending (timer_list t) ∧ in_sync cfg i t.

(** The invariant, but for the first element: what holds when the interrupt
    has just fired. *)
Definition timers_wf (t : Timers) : Prop := x86_wf (timer_x86 t) ∧ ascending (timer_list t).

Section queue.
Context `{Machine} (cfg : TimersConfig) (i : nat).
Hypothesis Hi : (i < 224)%nat.
Hypothesis Hvec : tc_interrupt_vector cfg = Z.of_nat i + 32.

Lemma deadline_snoc x a b : deadline (with_trace (cpu_trace x ++ [a]) b x) =
  match deadline_of a with Some v => Some v | None => deadline x end.
Proof.
  unfold deadline. simpl. rewrite omap_app. simpl.
  destruct (deadline_of a); [by rewrite last_snoc|by rewrite app_nil_r].
Qed.

Lemma count_snoc x a b : count (with_trace (cpu_trace x ++ [a]) b x) =
  match count_of a with Some v => Some v | None => count x end.
Proof.
  unfold count. simpl. rewrite omap_app. simpl.
  destruct (count_of a); [by rewrite last_snoc|by rewrite app_nil_r].
Qed.

Lemma seen_app now x tr b : seen now x → seen now (with_trace (cpu_trace x ++ tr) b x).
Proof. intros (tr0 & Hp & Hn). exists tr0. split; [by apply prefix_app_r|done]. Qed.

(** The machine with the first element in the APIC and in the vector. *)
Definition arm_access (now tsc : Z) : x86_access :=
  if tsc_deadline_supported (tc_local_apics cfg) then WrMsr 0x6e0 tsc
  else WriteU32 (APIC_BASE_ADDR + 0x380) (oneshot_ticks tsc now).
Definition armed (now tsc : Z) (w : Waker) (x : X86) : X86 :=
  with_trace (cpu_trace x ++ [arm_access now tsc]) (interrupts_enabled x)
    (with_wakers (<[i := Some w]> (WAKERS x)) (woken x) x).

Lemma armed_wf now tsc w x : x86_wf x → x86_wf (armed now tsc w x).
Proof. intros []. split; simpl; rewrite ?length_insert; done. Qed.

Lemma armed_fires now tsc w x : seen now x → now < tsc → fires_for cfg tsc (armed now tsc w x).
Proof.
  intros Hs Hlt. unfold fires_for, armed. set (x' := with_wakers _ _ x).
  change (cpu_trace x) with (cpu_trace x'). rewrite deadline_snoc, count_snoc. unfold arm_access.
  destruct (tsc_deadline_supported _); [done|]. exists now. split; [by apply (seen_app now x')|done].
Qed.

Lemma update_apic_cons now tsc w l x : 0 ≤ now < tsc → in_reach cfg now tsc → x86_wf x →
  update_apic_timer_state cfg now {| timer_list := (tsc, w) :: l; timer_x86 := x |} =
    Done (tt, {| timer_list := (tsc, w) :: l; timer_x86 := armed now tsc w x |}).
Proof using Hi Hvec.
  intros Hlt Hreach Hwf. unfold update_apic_timer_state, mbind, M_bind, get. simpl.
  unfold liftM, on_x86, zoom. rewrite bool_decide_true by lia. simpl. rewrite Hvec.
  rewrite register_waker_ok by done. simpl. rewrite bool_decide_false by lia. simpl. unfold armed, arm_access, in_reach in *.
  destruct (tsc_deadline_supported (tc_local_apics cfg)) eqn:Hdl.
  { unfold set_local_tsc_deadline, liftM, mbind, M_bind, msr_write, access_, modify. by rewrite Hdl. }
  destruct Hreach as [?|Hreach]; [done|]. unfold oneshot_ticks in *.
  pose proof (Z.div_pos (tsc - now) 128). pose proof (Z.div_mod (tsc - now) 128). pose proof (Z.mod_pos_bound (tsc - now) 128).
  rewrite (proj2 (uint_checked_Done u64_max _ (tsc - now))) by (unfold u64_max, u32_max in *; lia).
  rewrite (proj2 (uint_checked_Done u64_max _ (1 + (tsc - now) / 128))) by (unfold u64_max, u32_max in *; lia).
  rewrite (proj2 (uint_try_from_Some u32_max _ (1 + (tsc - now) / 128))) by lia.
  rewrite bool_decide_false by lia.
  unfold set_local_timer_value, liftM, mbind, M_bind, write_u32, access_, modify. by rewrite Hdl.
Qed.

(** A timer that is beyond the reach of the count leaves the APIC as it was. *)
Lemma update_apic_far now tsc w l x : 0 ≤ now < tsc → tsc ≤ u64_max → x86_wf x →
  tsc_deadline_supported (tc_local_apics cfg) = false → u32_max < oneshot_ticks tsc now →
  update_apic_timer_state cfg now {| timer_list := (tsc, w) :: l; timer_x86 := x |} =
    Done (tt, {| timer_list := (tsc, w) :: l; timer_x86 := with_wakers (<[i := Some w]> (WAKERS x)) (woken x) x |}).
Proof using Hi Hvec.
  intros Hlt Hmax Hwf Hdl Hfar. unfold update_apic_timer_state, mbind, M_bind, get. simpl.
  unfold liftM, on_x86, zoom. rewrite bool_decide_true by lia. simpl. rewrite Hvec.
  rewrite register_waker_ok by done. simpl. rewrite bool_decide_false by lia. simpl. rewrite Hdl. unfold oneshot_ticks in *.
  assert ((tsc - now) / 128 ≤ tsc - now) by (apply Z.div_le_upper_bound; lia).
  rewrite (proj2 (uint_checked_Done u64_max _ (tsc - now))) by lia.
  assert ((tsc - now) / 128 < u64_max) by (apply Z.div_lt_upper_bound; unfold u64_max in *; lia).
  rewrite (proj2 (uint_checked_Done u64_max _ (1 + (tsc - now) / 128))) by (unfold u32_max in *; lia).
  by rewrite (proj2 (uint_try_from_None u32_max (1 + (tsc - now) / 128))) by lia.
Qed.

(** [update_apic_timer_state] puts the first element in the APIC and in the
    vector, provided it is in the future and in reach. *)
Lemma update_apic_ok (now : Z) (t : Timers) : timers_wf t → 0 ≤ now → seen now (timer_x86 t) →
  (∀ v, head (timer_list t) = Some v → now < fst v ∧ in_reach cfg now (fst v)) →
  ∃ t', update_apic_timer_state cfg now t = Done (tt, t') ∧ timers_inv cfg i t' ∧
    timer_list t' = timer_list t ∧ woken (timer_x86 t') = woken (timer_x86 t).
Proof using Hi Hvec.
  intros [Hwf Hs] Hnow Hseen Hl. destruct t as [[|[tsc w] l] x]; simpl in *; [by eexists|].
  destruct (Hl (tsc, w)) as [Hlt Hreach]; [done|]. simpl in *.
  rewrite update_apic_cons by (done || lia). eexists. split; [done|]. split_and!; [|done|done].
  split_and!; [by apply armed_wf|done|]. split; [by apply armed_fires|].
  apply list_lookup_insert_eq. by rewrite (wf_WAKERS _ Hwf).
Qed.

Lemma filter_none {A} (P : A → Prop) `{!∀ x, Decision (P x)} (l : list A) :
  (∀ x, x ∈ l → ¬ P x) → filter P l = [].
Proof.
  induction l as [|x l IH]; [done|]. intros Hl. rewrite filter_cons_False by (apply Hl; left).
  apply IH. intros y Hy. apply Hl. by right.
Qed.

Lemma filter_all {A} (P : A → Prop) `{!∀ x, Decision (P x)} (l : list A) :
  (∀ x, x ∈ l → P x) → filter P l = l.
Proof.
  induction l as [|x l IH]; [done|]. intros Hl. rewrite filter_cons_True by (apply Hl; left).
  f_equal. apply IH. intros y Hy. apply Hl. by right.
Qed.

(** The wakers that [pop_expired] wakes. *)
Definition to_wake (me : Waker) (l : list (Z * Waker)) : list Waker :=
  filter (λ w, w ≠ me) (snd <$> l).

Definition expired (now : Z) (v : Z * Waker) : Prop := fst v ≤ now.
#[local] Instance expired_dec now v : Decision (expired now v) := decide (fst v ≤ now).

(** On an ordered list, the loop removes all the timers that are over. *)
Lemma pop_expired_ok (now : Z) (me : Waker) (t : Timers) l : ascending l → timer_list t = l →
  ∃ t', pop_expired now me l t = Done (bool_decide (filter (expired now) l ≠ []), t') ∧
    timer_list t' = filter (λ v, ¬ expired now v) l ∧
    timer_x86 t' = with_wakers (WAKERS (timer_x86 t))
      (woken (timer_x86 t) ++ to_wake me (filter (expired now) l)) (timer_x86 t).
Proof.
  revert t. induction l as [|[tsc w] l IH]; intros t Hs Ht; simpl.
  { exists t. split_and!; [done..|]. unfold to_wake. simpl. rewrite app_nil_r. by destruct t as [? []]. }
  apply StronglySorted_inv in Hs as [Hs Hhd]. simpl.
  destruct (bool_decide_reflect (tsc ≤ now)) as [Hle|Hle].
  - rewrite filter_cons_True by done. rewrite filter_cons_False by (intros Hn; by apply Hn).
    set (x := if bool_decide (w ≠ me) then with_wakers (WAKERS (timer_x86 t)) (woken (timer_x86 t) ++ [w]) (timer_x86 t) else timer_x86 t).
    destruct (IH {| timer_list := l; timer_x86 := x |} Hs eq_refl) as (t' & Hp & Hl' & Hx').
    exists t'. unfold mbind, M_bind, set_timer_list, modify in *.
    assert ((if bool_decide (w ≠ me) then on_x86 (wake w) else mret tt) {| timer_list := l; timer_x86 := timer_x86 t |}
      = Done (tt, {| timer_list := l; timer_x86 := x |})) as -> by (subst x; by case_bool_decide).
    rewrite Hp. split_and!; [done|done|]. rewrite Hx'. subst x. unfold to_wake. simpl.
    rewrite filter_cons. case_bool_decide; [rewrite decide_True by done|rewrite decide_False by tauto];
      simpl; unfold with_wakers; simpl; by rewrite <- ?app_assoc.
  - rewrite filter_cons_False by done. rewrite filter_cons_True by done.
    assert (Hno : ∀ v, v ∈ l → ¬ expired now v).
    { intros v Hv. unfold expired. pose proof (proj1 (Forall_forall _ _) Hhd v Hv) as Hb. unfold by_tsc in Hb.
      simpl in Hb. lia. }
    assert (filter (expired now) l = []) as ->.
    { by apply filter_none. }
    assert (filter (λ v, ¬ expired now v) l = l) as ->.
    { by apply filter_all. }
    exists t. split_and!; [done..|]. unfold to_wake. simpl. rewrite app_nil_r. by destruct t as [? []].
Qed.

Lemma ascending_filter (P : Z * nat → Prop) `{!∀ x, Decision (P x)} l : ascending l → ascending (filter P l).
Proof.
  unfold ascending. induction 1 as [|v l Hs IH Hf]; [constructor|]. rewrite filter_cons. case_decide; [|done].
  constructor; [done|]. apply Forall_forall. intros y [_ Hy]%list_elem_of_filter.
  by apply (proj1 (Forall_forall _ _) Hf).
Qed.

Lemma ascending_insert l k v : ascending l →
  (∀ w, w ∈ take k l → by_tsc w v) → (∀ w, w ∈ drop k l → by_tsc v w) → ascending (insert_at k v l).
Proof.
  unfold ascending, insert_at. revert k. induction l as [|x l IH]; intros [|k] Hs Hb Ha; simpl in *.
  - repeat constructor.
  - repeat constructor.
  - constructor; [done|]. by apply Forall_forall.
  - apply StronglySorted_inv in Hs as [Hs Hx]. constructor.
    + apply IH; [done| |done]. intros w Hw. apply Hb. by right.
    + apply Forall_app. split.
      { apply Forall_forall. intros y Hy. apply (proj1 (Forall_forall _ _) Hx).
        rewrite <- (take_drop k l). apply elem_of_app. by left. }
      constructor; [apply Hb; by left|].
      apply Forall_forall. intros y Hy. apply (proj1 (Forall_forall _ _) Hx).
      rewrite <- (take_drop k l). apply elem_of_app. by right.
Qed.

(** The order of the list is kept: it is empty, or another timer is later. *)
Definition fits (v : Z) (l : list (Z * Waker)) : Prop :=
  l = [] ∨ ∃ w, w ∈ l ∧ v < fst w.

Definition now_of (t : Timers) : Z := rdtsc_at (cpu_trace (timer_x86 t)).

(** The position that [poll] finds, when the new timer fits. *)
Lemma insert_position_ok (v : Z * Waker) l : ascending l → fits (fst v) l →
  let k := default 0%nat (fst <$> list_find (λ w, fst v < fst w) l) in
  ascending (insert_at k v l) ∧ (k ≠ 0%nat → head (insert_at k v l) = head l).
Proof.
  intros Hs Hf k. subst k. destruct (list_find (λ w, fst v < fst w) l) as [[k w]|] eqn:Hk; simpl.
  - apply list_find_Some in Hk as (Hk & Hw & Hlt). split.
    + apply ascending_insert; [done| |].
      * intros y [j [Hj Hjk]%lookup_take_Some]%list_elem_of_lookup. unfold by_tsc.
        specialize (Hlt _ _ Hj Hjk). lia.
      * intros y Hy. assert (Hd : ascending (drop k l)).
        { rewrite <- (take_drop k l) in Hs. clear -Hs. unfold ascending in *.
          induction (take k l) as [|z l1 IH]; [done|]. apply StronglySorted_inv in Hs as [Hs _]. auto. }
        rewrite (drop_S _ _ _ Hk) in Hd, Hy. apply StronglySorted_inv in Hd as [_ Hd].
        unfold by_tsc in *. apply elem_of_cons in Hy as [->|Hy]; [lia|].
        pose proof (proj1 (Forall_forall _ _) Hd y Hy) as Hb. simpl in Hb. lia.
    + intros Hne. unfold insert_at. destruct l as [|x l], k; done.
  - split; [|done]. apply list_find_None in Hk. destruct Hf as [-> | (w & Hw & Hlt)].
    + repeat constructor.
    + pose proof (proj1 (Forall_forall _ _) Hk w Hw). done.
Qed.

Lemma fires_ticked tsc x : fires_for cfg tsc x → fires_for cfg tsc (ticked x).
Proof.
  unfold fires_for, ticked. rewrite deadline_snoc, count_snoc. destruct (tsc_deadline_supported _); [done|].
  intros (now & Hs & Hrest). exists now. split; [by apply seen_app|done].
Qed.

Lemma seen_ticked x : seen (rdtsc_at (cpu_trace x)) (ticked x).
Proof. exists (cpu_trace x). split; [by apply prefix_app_r|done]. Qed.

Lemma ticked_wf x : x86_wf x → x86_wf (ticked x).
Proof. by intros []. Qed.

(** What a poll leaves. *)
Definition polled (me : Waker) (this : TimerFuture) (t : Timers) (ready : bool) (this' : TimerFuture) (t' : Timers) : Prop :=
  ready = bool_decide (tsc_value this ≤ now_of t) ∧ timers_wf t' ∧
  (in_sync cfg i t → in_sync cfg i t') ∧
  if ready then
    if in_timers_list this then
      timer_list t' = filter (λ v, ¬ expired (now_of t) v) (timer_list t) ∧
      woken (timer_x86 t') = woken (timer_x86 t) ++ to_wake me (filter (expired (now_of t)) (timer_list t)) ∧
      (filter (expired (now_of t)) (timer_list t) ≠ [] → in_sync cfg i t')
    else timer_list t' = timer_list t
  else
    in_timers_list this' = true ∧
    if in_timers_list this then timer_list t' = timer_list t
    else Permutation (timer_list t') ((tsc_value this, me) :: timer_list t).

Lemma insert_at_perm {A} k (x : A) l : Permutation (insert_at k x l) (x :: l).
Proof. unfold insert_at. rewrite <- Permutation_middle. by rewrite take_drop. Qed.

Lemma timer_poll_sound (me : Waker) (this : TimerFuture) (t : Timers) :
  0 ≤ now_of t → timers_wf t →
  (in_timers_list this = false → now_of t < tsc_value this → fits (tsc_value this) (timer_list t)) →
  Forall (λ v, in_reach cfg (now_of t) (fst v)) ((tsc_value this, me) :: timer_list t) →
  ∃ ready this' t', timer_poll cfg me this t = Done ((ready, this'), t') ∧ polled me this t ready this' t'.
Proof using Hi Hvec.
  intros Hnow [Hwf Hs] Hfits [Hreach Hall]%Forall_cons.
  set (t1 := {| timer_list := timer_list t; timer_x86 := ticked (timer_x86 t) |}).
  assert (Hwf1 : x86_wf (timer_x86 t1)) by (by apply ticked_wf).
  assert (Hsync1 : in_sync cfg i t → in_sync cfg i t1).
  { unfold in_sync. simpl. destruct (timer_list t) as [|[]]; [done|]. intros [? ?]. split; [by apply fires_ticked|done]. }
  assert (Hrd : on_x86 rdtsc t = Done (now_of t, t1)) by done.
  unfold timer_poll, mbind, M_bind. rewrite Hrd. unfold polled.
  destruct (bool_decide_reflect (tsc_value this ≤ now_of t)) as [Hr|Hr].
  - destruct (in_timers_list this) eqn:Hin; simpl.
    2: { eexists _, _, t1. split; [done|]. by split_and!. }
    unfold get. destruct (pop_expired_ok (now_of t) me t1 (timer_list t)) as (t2 & Hp & Hl2 & Hx2); [done..|].
    change (timer_list t1) with (timer_list t). rewrite Hp.
    assert (Hwf2 : timers_wf t2).
    { split; [rewrite Hx2; by destruct Hwf1; split|rewrite Hl2; by apply ascending_filter]. }
    assert (Hw2 : woken (timer_x86 t2) = woken (timer_x86 t) ++ to_wake me (filter (expired (now_of t)) (timer_list t)))
      by (by rewrite Hx2).
    case_bool_decide as Hany.
    + destruct (update_apic_ok (now_of t) t2) as (t3 & -> & (? & ? & ?) & Hl3 & Hw3); [done..| | |].
      { rewrite Hx2. apply seen_ticked. }
      { intros v Hv. assert (Hin' : v ∈ timer_list t2).
        { destruct (timer_list t2); [done|]. simplify_eq/=. by left. }
        rewrite Hl2 in Hin'. apply list_elem_of_filter in Hin' as [Hne Hin']. unfold expired in Hne.
        split; [lia|]. by eapply Forall_forall in Hall. }
      eexists _, _, t3. split; [done|]. split_and!; try done; congruence.
    + eexists _, _, t2. split; [done|]. split_and!; try done.
      intros Hsync. specialize (Hsync1 Hsync). unfold in_sync in *. rewrite Hl2, Hx2. simpl in *.
      rewrite filter_all; [done|]. intros v Hv Hexp.
      assert (v ∈ filter (expired (now_of t)) (timer_list t)) as Hbad by (by apply list_elem_of_filter).
      rewrite Hany in Hbad. by apply not_elem_of_nil in Hbad.
  - unfold liftM. rewrite bool_decide_true by lia. simpl.
    destruct (in_timers_list this) eqn:Hin; simpl.
    { eexists _, _, t1. split; [done|]. by split_and!. }
    unfold get, set_timer_list, modify. cbn [timer_list timer_x86].
    destruct (insert_position_ok (tsc_value this, me) (timer_list t)) as [Has Hhd]; [done|apply Hfits; [done|lia]|].
    cbn [fst] in Has, Hhd. change (timer_list t1) with (timer_list t).
    set (k := default 0%nat (fst <$> list_find (λ w, tsc_value this < fst w) (timer_list t))) in *.
    set (t2 := {| timer_list := insert_at k (tsc_value this, me) (timer_list t); timer_x86 := ticked (timer_x86 t) |}).
    case_bool_decide as Hk.
    + destruct (update_apic_ok (now_of t) t2) as (t3 & -> & (? & ? & ?) & Hl3 & Hw3); [by split|done|apply seen_ticked| |].
      { intros v Hv. subst t2. rewrite Hk in Hv. simpl in Hv. simplify_eq/=. split; [lia|done]. }
      eexists _, _, t3. split; [done|]. split_and!; try done.
      rewrite Hl3. apply insert_at_perm.
    + eexists _, _, t2. split; [done|]. split_and!; try done.
      * intros Hsync. specialize (Hsync1 Hsync). specialize (Hhd Hk). unfold in_sync in *.
        subst t2. cbn [timer_list timer_x86]. change (timer_list t1) with (timer_list t) in Hsync1.
        destruct (insert_at k _ _) as [|[]], (timer_list t) as [|[]]; simplify_eq/=; done.
      * apply insert_at_perm.
Qed.

(** C33: Polling a timer of the x86_64 kernel, on a processor with or without
    the TSC-deadline mode: it is ready exactly when the counter has reached its
    value.  On an ordered list, a poll that is ready takes all the timers that
    are over off the list and wakes their tasks (except the one being polled); a
    first poll that is not ready adds the timer; the list stays ordered, its
    first element stays the one that the APIC (the deadline MSR, or the count of
    its one-shot timer) and the interrupt vector are set for, and becomes so
    again when timers were removed.  The hypotheses exclude the two exceptions: a
    new timer that is not before some timer of a list that is not empty
    ([timer_poll_late]), and, without the deadline mode, a timer beyond the
    reach of a 32-bit count ([timer_poll_unarmed]). *)
Theorem timer_poll_ok (me : Waker) (this : TimerFuture) (t : Timers) :
  0 ≤ now_of t → timers_wf t →
  (in_timers_list this = false → now_of t < tsc_value this → fits (tsc_value this) (timer_list t)) →
  Forall (λ v, in_reach cfg (now_of t) (fst v)) ((tsc_value this, me) :: timer_list t) →
  ∃ ready this' t', timer_poll cfg me this t = Done ((ready, this'), t') ∧ polled me this t ready this' t'.
Proof using Hi Hvec. apply timer_poll_sound. Qed.

(** The first poll of a timer, on an empty list. *)
Lemma timer_poll_first (me : Waker) (this : TimerFuture) (t : Timers) :
  0 ≤ now_of t < tsc_value this → in_timers_list this = false → timer_list t = [] →
  timer_poll cfg me this t =
    ('(_, t') ← update_apic_timer_state cfg (now_of t) {| timer_list := [(tsc_value this, me)]; timer_x86 := ticked (timer_x86 t) |};
     Done ((false, {| tsc_value := tsc_value this; in_timers_list := true |}), t')).
Proof using Type.
  clear Hi Hvec.
  intros [Hnow Hlt] Hin Hl.
  assert (Hrd : on_x86 rdtsc t = Done (now_of t, {| timer_list := timer_list t; timer_x86 := ticked (timer_x86 t) |})) by done.
  unfold timer_poll, mbind, M_bind, liftM, get, set_timer_list, modify. rewrite Hrd.
  rewrite bool_decide_false by lia. rewrite bool_decide_true by lia. simpl. rewrite Hin, Hl. simpl.
  by destruct (update_apic_timer_state _ _ _) as [[[] ?]| |].
Qed.

(** Without the deadline mode, the timer of an empty list that is beyond the
    reach of the count waits for an interrupt that nothing will send: the APIC
    is left as it was. *)
Theorem timer_poll_unarmed (me : Waker) (this : TimerFuture) (t : Timers) :
  0 ≤ now_of t < tsc_value this → tsc_value this ≤ u64_max → x86_wf (timer_x86 t) → in_timers_list this = false →
  timer_list t = [] → tsc_deadline_supported (tc_local_apics cfg) = false → u32_max < oneshot_ticks (tsc_value this) (now_of t) →
  ∃ this' t', timer_poll cfg me this t = Done ((false, this'), t') ∧ timer_list t' = [(tsc_value this, me)] ∧
    cpu_trace (timer_x86 t') = cpu_trace (timer_x86 t) ++ [RdTsc].
Proof using Hi Hvec.
  intros Hnow Hmax Hwf Hin Hl Hdl Hfar. rewrite timer_poll_first by done.
  rewrite update_apic_far by (done || by apply ticked_wf). by eexists _, _.
Qed.

(** A new timer that is later than all the timers of the list goes to the
    front ([unwrap_or(0)]): the list is no longer ordered, and the APIC is set
    for the last one instead of the first. *)
Theorem timer_poll_late (me : Waker) (this : TimerFuture) (t : Timers) (v : Z * Waker) :
  0 ≤ now_of t < tsc_value this → timers_wf t → in_timers_list this = false → in_reach cfg (now_of t) (tsc_value this) →
  v ∈ timer_list t → Forall (λ w, fst w < tsc_value this) (timer_list t) →
  ∃ this' t', timer_poll cfg me this t = Done ((false, this'), t') ∧
    timer_list t' = (tsc_value this, me) :: timer_list t ∧ ¬ ascending (timer_list t') ∧
    fires_for cfg (tsc_value this) (timer_x86 t') ∧ fst v < tsc_value this.
Proof using Hi Hvec.
  intros [Hnow Hlt] [Hwf Hs] Hin Hreach Hv Hall.
  assert (Hpos : list_find (λ w, tsc_value this < fst w) (timer_list t) = None).
  { apply list_find_None. eapply Forall_impl; [exact Hall|]. intros w Hw. simpl in Hw. lia. }
  pose proof (proj1 (Forall_forall _ _) Hall v Hv) as Hvlt. simpl in Hvlt.
  assert (Hrd : on_x86 rdtsc t = Done (now_of t, {| timer_list := timer_list t; timer_x86 := ticked (timer_x86 t) |})) by done.
  unfold timer_poll, mbind, M_bind, liftM, get, set_timer_list, modify. rewrite Hrd.
  rewrite bool_decide_false by lia. rewrite bool_decide_true by lia. simpl. rewrite Hin. simpl.
  rewrite Hpos. simpl. unfold insert_at. simpl. rewrite drop_0.
  rewrite update_apic_cons by (done || by apply ticked_wf). eexists _, _. split; [done|]. simpl.
  split_and!; [done| |by apply armed_fires; [apply seen_ticked|]|done].
  intros [_ Hb]%StronglySorted_inv.
  pose proof (proj1 (Forall_forall _ _) Hb v Hv) as Hbv. unfold by_tsc in Hbv. simpl in Hbv. lia.
Qed.

(** Dropping such a timer, once an earlier one is over, makes the assertion of
    [update_apic_timer_state] fail. *)
Theorem timer_drop_panics (this : TimerFuture) (me w : Waker) v (l : list (Z * Waker)) (t : Timers) :
  in_timers_list this = true → timer_list t = (tsc_value this, me) :: (v, w) :: l →
  v < tsc_value this → v ≤ now_of t → timer_drop cfg this t = Panic PDebugAssert.
Proof.
  intros Hin Hl Hv Hnow. unfold timer_drop. rewrite Hin. simpl. unfold mbind, M_bind, get.
  rewrite Hl. simpl. rewrite decide_True by done. simpl.
  rewrite bool_decide_false by (intros [=]; lia). simpl.
  change (on_x86 rdtsc {| timer_list := (v, w) :: l; timer_x86 := timer_x86 t |}) with
    (Done (now_of t, {| timer_list := (v, w) :: l; timer_x86 := ticked (timer_x86 t) |})).
  unfold update_apic_timer_state, mbind, M_bind, get, liftM. simpl.
  unfold now_of in Hnow. by rewrite (bool_decide_false (rdtsc_at _ < v)) by lia.
Qed.

End queue.

(** [PlatformSpecific::timer] promises a future that fires when the monotonic
    clock reaches the given value, but the value is compared with the counter
    of the processor, whose value at boot the clock subtracts: a timer for a
    value that the clock has not reached can be ready at once. *)
Theorem timer_fires_early `{Machine} `{!MachineLaws} (cfg : TimersConfig) (me : Waker) (v : Z) (t : Timers) :
  2 ≤ rdtsc_ticks_per_sec cfg ≤ max_rate → 0 ≤ v → timer_ticks cfg v ≤ now_of t →
  0 ≤ monotonic_clock_zero cfg ≤ now_of t →
  1000000000 * (now_of t - monotonic_clock_zero cfg) / rdtsc_ticks_per_sec cfg < v →
  ∃ f clock x t', platform_monotonic_clock cfg (timer_x86 t) = Done (clock, x) ∧ clock < v ∧
    platform_timer cfg v = Done f ∧ timer_poll cfg me f t = Done ((true, f), t').
Proof.
  intros Hrate Hv Ht Hz Hlt. pose proof (rdtsc_range (cpu_trace (timer_x86 t))) as Hr. fold (now_of t) in Hr.
  exists {| tsc_value := timer_ticks cfg v; in_timers_list := false |}.
  eexists _, _, {| timer_list := timer_list t; timer_x86 := ticked (timer_x86 t) |}.
  split; [by apply platform_monotonic_clock_ok|]. split; [done|]. split.
  - rewrite platform_timer_ok by done. by rewrite bool_decide_true by lia.
  - assert (Hrd : on_x86 rdtsc t = Done (now_of t, {| timer_list := timer_list t; timer_x86 := ticked (timer_x86 t) |})) by done.
    unfold timer_poll, mbind, M_bind. rewrite Hrd. simpl. by rewrite bool_decide_true by done.
Qed.

(** ** After the initialization *)

Lemma reserve_from_trace eoi l : ∀ n (x : X86) r x', reserve_from eoi l n x = Done (r, x') → cpu_trace x' = cpu_trace x.
Proof.
  induction l as [|b l IH]; intros n x r x' Hr; cbn [reserve_from] in Hr; [by inv_done|].
  apply M_bind_Done in Hr as ([] & x1 & [= <-] & Hr). destruct b; cbn [negb] in Hr.
  - apply IH in Hr. exact Hr.
  - by inv_done.
Qed.

(** The ticks of one second that [init] measures are no more than the counter
    after it, if the counter does not go back: a timer for a duration of a second
    or less is over as soon as it is created. *)
Theorem timers_init_late `{Machine} `{!MachineLaws} (local_apics : LocalApicsControl) (wait : M X86 unit) (x x' : X86)
    (cfg : TimersConfig) (l : list (Z * Waker)) :
  (∀ tr tr', tr `prefix_of` tr' → rdtsc_at tr ≤ rdtsc_at tr') →
  timers_init local_apics wait x = Done ((cfg, l), x') →
  ∀ tr, cpu_trace x' `prefix_of` tr → rdtsc_ticks_per_sec cfg ≤ rdtsc_at tr.
Proof.
  intros Hmono Hinit tr Htr. unfold timers_init, rdtsc, access_, reserve_any_vector in Hinit.
  apply M_bind_Done in Hinit as (before & x1 & Hb & Hinit). apply M_bind_Done in Hinit as ([] & x2 & _ & Hinit).
  apply M_bind_Done in Hinit as (after & x3 & Ha & Hinit). inv_done.
  repeat match goal with Hr : reserve_from _ _ _ _ = Done _ |- _ => apply reserve_from_trace in Hr; simpl in Hr end.
  pose proof (rdtsc_range (cpu_trace x)) as Hrange.
  assert (Hle : rdtsc_at (cpu_trace x2) ≤ rdtsc_at tr).
  { apply Hmono. etrans; [|exact Htr].
    unfold enable_local_timer_interrupt_tsc_deadline, enable_local_timer_interrupt, write_u32, access_ in *.
    destruct (tsc_deadline_supported _); inv_done;
      repeat match goal with
      | Hm : modify _ _ = Done _ |- _ => injection Hm as <-
      | Hr : cpu_trace _ = _ |- _ => rewrite Hr; clear Hr
      | _ => progress simpl
      end; rewrite <- ?app_assoc; by apply prefix_app_r. }
  repeat match goal with Hu : uint_checked _ _ = Done _ |- _ => apply uint_checked_Done in Hu as [-> ?] end. lia.
Qed.
