(* ===== verification/Boot.v ===== *)
(** The boot of the x86_64 kernel: which memory becomes the heap and the area
    of the associated processors ([find_free_memory_ranges] of
    [arch/x86_64.rs], [filter_build_ap_boot_alloc] of
    [arch/x86_64/ap_boot.rs], [mem_alloc.rs]), and how an associated processor
    is started ([boot_associated_processor]).

    The multiboot2 information is a record of what the code reads of it, the
    machine code of the template is a parameter, as are the allocators.  The
    iterators are lazy: an area goes through the three stages before the next
    one is looked at. *)
From S2P Require Import Prelude X86 X86Inv X86Timers.

(** * Memory *)

(** [Range { start, end }]. *)
Abbreviation Range := (Z * Z)%type (only parsing).

Definition in_range (r : Range) (x : Z) : Prop := fst r ≤ x < snd r.

Record BootInformation := {
  memory_areas : list Range;
  elf_sections : list Range;
  mb_start_address : Z;
  mb_end_address : Z;
}.

(** [to_avoid], in order. *)
Definition to_avoid (info : BootInformation) : list Range :=
  elf_sections info ++ [(0xa0000, 0xfffff)] ++ [(0, 0x500); (0x80000, 0xa0000)] ++
  [(mb_start_address info, mb_end_address info)] ++ [(0x80000000, u64_max)].

(** The body of [for section in to_avoid]; [None] is [return None]. *)
Definition avoid (section area : Range) : option Range :=
  let '(section_start, section_end) := section in
  let '(area_start, area_end) := area in
  if bool_decide (area_start ≤ section_start ∧ section_end ≤ area_end) then
    let off_bef := section_start - area_start in
    let off_aft := area_end - section_end in
    if bool_decide (off_bef > off_aft) then Some (area_start, section_start)
    else Some (section_end, area_end)
  else if bool_decide (section_start < area_start ∧ area_end < section_end) then None
  else if bool_decide (section_start ≤ area_start ∧ area_start < section_end) then Some (section_end, area_end)
  else if bool_decide (section_start < area_end ∧ area_end ≤ section_end) then Some (area_start, section_start)
  else Some area.

Fixpoint avoid_all (sections : list Range) (area : Range) : option Range :=
  match sections with
  | [] => Some area
  | section :: sections => avoid section area ≫= avoid_all sections
  end.

(** The closure of [find_free_memory_ranges]. *)
Definition find_free_memory_range (info : BootInformation) (area : Range) : outcome (option Range) :=
  _ ← debug_assert (bool_decide (fst area ≤ snd area));
  match avoid_all (to_avoid info) area with
  | None => mret None
  | Some (area_start, area_end) =>
      area_start ← unwrap (usize_try_from area_start);
      area_end ← unwrap (usize_try_from area_end);
      mret (Some (area_start, area_end))
  end.

Definition WANTED : Z := 0x4000.

(** The closure of [filter_build_ap_boot_alloc]: what remains of the range,
    and the start of the heap of [ApBootAlloc] ([WANTED] bytes). *)
Definition filter_ap_boot (alloc : option Z) (range : Range) : outcome (option Range * option Z) :=
  match alloc with
  | Some _ => mret (Some range, alloc)
  | None =>
      range_size ← unwrap (usize_try_from (snd range - fst range));
      if bool_decide (Z.min usize_max (fst range + WANTED) ≤ 0x100000 ∧ WANTED ≤ range_size) then
        if bool_decide (range_size > WANTED)
        then mret (Some (fst range + WANTED, snd range), Some (fst range))
        else mret (None, Some (fst range))
      else mret (Some range, None)
  end.

(** [max_by_key] with the key of [mem_alloc::initialize], a step at a time; of
    two equal keys it keeps the last. *)
Definition largest (best : option (Z * Range)) (r : Range) : outcome (option (Z * Range)) :=
  _ ← assert_ (bool_decide (fst r ≤ snd r));
  key ← uint_checked usize_max (snd r - fst r);
  mret (Some match best with
             | Some (k, r') => if bool_decide (k > key) then (k, r') else (key, r)
             | None => (key, r)
             end).

(** The areas through the three stages. *)
Fixpoint scan_areas (info : BootInformation) (areas : list Range) (alloc : option Z) (best : option (Z * Range)) :
    outcome (option Z * option (Z * Range)) :=
  match areas with
  | [] => mret (alloc, best)
  | area :: areas =>
      range ← find_free_memory_range info area;
      match range with
      | None => scan_areas info areas alloc best
      | Some range =>
          '(rest, alloc) ← filter_ap_boot alloc range;
          match rest with
          | None => scan_areas info areas alloc best
          | Some rest =>
              best ← largest best rest;
              scan_areas info areas alloc best
          end
      end
  end.

(** The end of [initialize]: the start and the size of the heap. *)
Definition initialize (range : option Range) : outcome (option (Z * Z)) :=
  match range with
  | None => mret None
  | Some range =>
      if bool_decide (fst range = snd range) then mret None else
      _ ← assert_ (bool_decide (fst range ≤ snd range));
      size ← uint_checked usize_max (snd range - fst range);
      mret (Some (fst range, size))
  end.

(** The first block of [after_boot]: the heap, and the one of the associated
    processors. *)
Definition boot_memory (info : BootInformation) : outcome (option (Z * Z) * Z) :=
  '(alloc, best) ← scan_areas info (memory_areas info) None None;
  heap ← initialize (snd <$> best);
  match alloc with
  | Some b => mret (heap, b)
  | None => Panic PExplicit
  end.

(** ** What is used is free *)

(** An address of memory that the loader declared, that is not of the kernel nor
    of the boot information, not in the areas of the BIOS, of the video memory
    and of the ROMs, and below 2 GiB. *)
Definition free (info : BootInformation) (area : Range) (x : Z) : Prop :=
  in_range area x ∧ Forall (λ s, ¬ in_range s x) (elf_sections info) ∧
  ¬ in_range (mb_start_address info, mb_end_address info) x ∧
  (0x500 ≤ x < 0x80000 ∨ 0xfffff ≤ x < 0x80000000).

Definition well_formed (r : Range) : Prop := fst r ≤ snd r.

Lemma avoid_ok (section area area' : Range) x : avoid section area = Some area' →
  in_range area' x → well_formed section → in_range area x ∧ ¬ in_range section x.
Proof.
  unfold avoid, in_range, well_formed. destruct section as [ss se], area as [a b]. intros Ha Hx Hs.
  repeat case_bool_decide; simplify_eq/=; lia.
Qed.

Lemma avoid_all_ok sections area area' x : avoid_all sections area = Some area' →
  Forall well_formed sections → in_range area' x →
  in_range area x ∧ Forall (λ s, ¬ in_range s x) sections.
Proof.
  revert area. induction sections as [|s sections IH]; intros area; simpl.
  - intros [= ->] _ Hx. by split; [|constructor].
  - intros (area1 & Ha & Hall)%bind_Some [Hs Hss]%Forall_cons Hx.
    destruct (IH area1) as [Hx1 Hn]; [done..|]. destruct (avoid_ok s area area1 x) as [? ?]; [done..|].
    split; [done|]. by constructor.
Qed.

(** The regions that the loader describes are well formed. *)
Definition boot_wf (info : BootInformation) : Prop :=
  Forall well_formed (elf_sections info) ∧ mb_start_address info ≤ mb_end_address info.

Lemma to_avoid_wf info : boot_wf info → Forall well_formed (to_avoid info).
Proof.
  intros [He Hm]. unfold to_avoid. apply Forall_app. split; [done|]. unfold well_formed.
  repeat constructor; simpl; unfold u64_max; lia.
Qed.

Lemma find_free_ok info area r x : boot_wf info →
  find_free_memory_range info area = Done (Some r) → in_range r x → free info area x.
Proof.
  intros Hwf Hf Hx. unfold find_free_memory_range, debug_assert in Hf.
  case_bool_decide; [|done]. simpl in Hf.
  destruct (avoid_all _ _) as [[a b]|] eqn:Ha; [|done].
  apply outcome_bind_Done in Hf as (a' & Ea & Hf). apply outcome_bind_Done in Hf as (b' & Eb & Hf).
  apply unwrap_Done, uint_try_from_Some in Ea as [-> Ha0]. apply unwrap_Done, uint_try_from_Some in Eb as [-> Hb0].
  injection Hf as <-.
  destruct (avoid_all_ok _ _ _ x Ha) as [Hin Hav]; [by apply to_avoid_wf|done|]. split; [done|].
  unfold to_avoid in Hav. rewrite !Forall_app, !Forall_cons in Hav. unfold in_range in *. simpl in *. unfold usize_max, u64_max in *.
  split_and!; [by apply Hav|by apply Hav|]. lia.
Qed.

(** The regions taken so far: those of the areas already scanned, free, and
    distinct. *)
Definition ap_region (alloc : option Z) (x : Z) : Prop := ∃ b, alloc = Some b ∧ in_range (b, b + WANTED) x.
Definition best_region (best : option (Z * Range)) (x : Z) : Prop := ∃ k r, best = Some (k, r) ∧ in_range r x.

Definition scan_inv (info : BootInformation) (done : list Range) (alloc : option Z) (best : option (Z * Range)) : Prop :=
  (∀ x, ap_region alloc x → ∃ area, area ∈ done ∧ free info area x) ∧
  (∀ x, best_region best x → ∃ area, area ∈ done ∧ free info area x) ∧
  (∀ x, ap_region alloc x → best_region best x → False) ∧
  (∀ b, alloc = Some b → b + WANTED ≤ 0x100000).

(** What [filter_ap_boot] gives is in the range, and apart from what it keeps. *)
Lemma filter_ap_boot_ok alloc r rest alloc' : filter_ap_boot alloc r = Done (rest, alloc') →
  (alloc' = alloc ∧ rest = Some r) ∨
  (∃ b, alloc = None ∧ alloc' = Some b ∧ b + WANTED ≤ 0x100000 ∧
     (∀ x, in_range (b, b + WANTED) x → in_range r x) ∧
     (∀ r' x, rest = Some r' → in_range r' x → in_range r x ∧ ¬ in_range (b, b + WANTED) x)).
Proof.
  unfold filter_ap_boot. destruct alloc as [b|].
  - intros [= -> ->]. by left.
  - unfold unwrap. destruct (uint_try_from _ _) as [size|] eqn:Es; [|done].
    apply uint_try_from_Some in Es as [-> Hs]. simpl. case_bool_decide as Hc.
    + intros Heq. right. exists (fst r). destruct r as [a b].
      unfold in_range, WANTED, usize_max, u64_max in *. cbn [fst snd] in *.
      revert Heq. case_bool_decide; intros [= <- <-]; split_and!; try done; try lia; intros; simplify_eq/=; lia.
    + intros [= -> ->]. by left.
Qed.

Lemma largest_ok best r best' x : largest best r = Done best' → best_region best' x →
  best_region best x ∨ in_range r x.
Proof.
  unfold largest, assert_. case_bool_decide; [|done]. simpl.
  destruct (uint_checked_cases usize_max (snd r - fst r)) as [[-> _]| ->]; [|done]. simpl.
  intros [= <-] (k & r' & [= Heq] & Hx). destruct best as [[k0 r0]|]; [|simplify_eq; by right].
  case_bool_decide; simplify_eq; [left|by right]. by eexists _, _.
Qed.

Lemma scan_inv_skip info done area alloc best :
  scan_inv info done alloc best → scan_inv info (done ++ [area]) alloc best.
Proof.
  intros (H1 & H2 & H3 & H4). split_and!; [| |done|done].
  - intros x Hx. destruct (H1 x Hx) as (a & Ha & ?). exists a. split; [|done]. apply elem_of_app. by left.
  - intros x Hx. destruct (H2 x Hx) as (a & Ha & ?). exists a. split; [|done]. apply elem_of_app. by left.
Qed.

(** The areas do not overlap. *)
Definition apart (areas : list Range) : Prop :=
  ∀ i j a b x, areas !! i = Some a → areas !! j = Some b → i ≠ j → in_range a x → in_range b x → False.

(** An area that comes after those already scanned shares nothing with them. *)
Lemma apart_new info done area areas x : apart (done ++ area :: areas) →
  free info area x → ¬ (∃ a, a ∈ done ∧ free info a x).
Proof.
  intros Hap [Hx _] (a & [i Hi]%list_elem_of_lookup & [Hax _]).
  assert (i < length done)%nat by (by eapply lookup_lt_Some).
  eapply (Hap i (length done) a area x); [by rewrite lookup_app_l|by rewrite list_lookup_middle|lia|done|done].
Qed.

Lemma scan_step_ok info done area areas alloc best r rest alloc' best' :
  boot_wf info → apart (done ++ area :: areas) → scan_inv info done alloc best →
  find_free_memory_range info area = Done (Some r) → filter_ap_boot alloc r = Done (rest, alloc') →
  (∀ x, best_region best' x → best_region best x ∨ ∃ r', rest = Some r' ∧ in_range r' x) →
  scan_inv info (done ++ [area]) alloc' best'.
Proof.
  intros Hwf Hap (H1 & H2 & H3 & H4) Hfree Hfil Hbest.
  assert (Hr : ∀ x, in_range r x → free info area x) by (intros; by eapply find_free_ok).
  assert (Hlast : area ∈ done ++ [area]) by (apply elem_of_app; right; by left).
  assert (Hold : ∀ x, (∃ a, a ∈ done ∧ free info a x) → ∃ a, a ∈ done ++ [area] ∧ free info a x).
  { intros x (a & Ha & ?). exists a. split; [apply elem_of_app; by left|done]. }
  destruct (filter_ap_boot_ok _ _ _ _ Hfil) as [[-> ->]|(b & -> & -> & Hb & Hbr & Hrest)].
  - split_and!; [auto| | |done].
    + intros x [?|(r' & [= <-] & ?)]%Hbest; eauto.
    + intros x Ha [?|(r' & [= <-] & ?)]%Hbest; [eauto|]. by eapply apart_new; eauto.
  - split_and!.
    + intros x (b' & [= <-] & Hx). eauto.
    + intros x [?|(r' & Hr' & Hx)]%Hbest; [eauto|]. destruct (Hrest _ _ Hr' Hx). eauto.
    + intros x (b' & [= <-] & Hx) [?|(r' & Hr' & Hx')]%Hbest.
      * eapply apart_new; [done|eauto|]. eauto.
      * by destruct (Hrest _ _ Hr' Hx').
    + by intros b' [= <-].
Qed.

Lemma scan_areas_ok info areas done alloc best alloc' best' :
  boot_wf info → apart (done ++ areas) → scan_inv info done alloc best →
  scan_areas info areas alloc best = Done (alloc', best') → scan_inv info (done ++ areas) alloc' best'.
Proof.
  intros Hwf. revert done alloc best. induction areas as [|area areas IH]; intros done alloc best Hap Hinv.
  - intros [= <- <-]. by rewrite app_nil_r.
  - cbn [scan_areas]. intros (range & Hfree & Hs)%outcome_bind_Done.
    assert (Happ : done ++ area :: areas = (done ++ [area]) ++ areas) by (by rewrite <- app_assoc).
    assert (Hgo : ∀ alloc best, scan_inv info (done ++ [area]) alloc best →
      scan_areas info areas alloc best = Done (alloc', best') → scan_inv info (done ++ area :: areas) alloc' best').
    { intros. rewrite Happ. eapply IH; [by rewrite <- Happ|done..]. }
    destruct range as [range|]; [|by eapply Hgo; [apply scan_inv_skip|]].
    apply outcome_bind_Done in Hs as ([rest alloc1] & Hfil & Hs).
    destruct rest as [rest|].
    + apply outcome_bind_Done in Hs as (best1 & Hl & Hs).
      eapply Hgo; [|exact Hs]. eapply scan_step_ok; [done..|].
      intros x Hx. destruct (largest_ok _ _ _ _ Hl Hx); eauto.
    + eapply Hgo; [|exact Hs]. eapply scan_step_ok; [done..|]. auto.
Qed.

(** What is left of the area is a range, possibly empty. *)
Definition area_ok (info : BootInformation) (area : Range) : Prop :=
  ∃ o, find_free_memory_range info area = Done o ∧ from_option well_formed True o.

(** There is room for the boot code of the associated processors in what is left
    of the area. *)
Definition area_low (info : BootInformation) (area : Range) : Prop :=
  ∃ r, find_free_memory_range info area = Done (Some r) ∧ fst r + WANTED ≤ 0x100000 ∧ WANTED ≤ snd r - fst r.

Definition range_ok (r : Range) : Prop := 0 ≤ fst r ≤ snd r ∧ snd r ≤ usize_max.

Lemma area_ok_range info area r : area_ok info area → find_free_memory_range info area = Done (Some r) → range_ok r.
Proof.
  intros (o & Heq & Ho) Hf. rewrite Hf in Heq. injection Heq as <-. simpl in Ho. unfold find_free_memory_range, debug_assert in Hf.
  revert Hf. case_bool_decide; [|done]. simpl. destruct (avoid_all _ _) as [[a b]|]; [|done].
  intros (a' & Ea & (b' & Eb & Hf)%outcome_bind_Done)%outcome_bind_Done. injection Hf as <-.
  apply unwrap_Done, uint_try_from_Some in Ea as [-> ?]. apply unwrap_Done, uint_try_from_Some in Eb as [-> ?].
  unfold well_formed, range_ok in *. simpl in *. lia.
Qed.

Lemma initialize_returns o : from_option range_ok True o →
  ∃ heap, initialize o = Done heap ∧
    ∀ start size x, heap = Some (start, size) → start ≤ x < start + size → ∃ r, o = Some r ∧ in_range r x.
Proof.
  intros Ho. unfold initialize. destruct o as [r|]; [|by eexists]. simpl in Ho. destruct Ho as [Hr Hmax].
  case_bool_decide; [by eexists|]. rewrite bool_decide_true by lia. simpl.
  rewrite (proj2 (uint_checked_Done usize_max _ (snd r - fst r))) by lia. simpl. eexists. split; [done|].
  intros start size x [= <- <-] Hx. exists r. split; [done|]. unfold in_range. lia.
Qed.

Lemma filter_ap_boot_returns alloc r : range_ok r → ∃ rest alloc', filter_ap_boot alloc r = Done (rest, alloc') ∧
  from_option range_ok True rest ∧
  (alloc ≠ None ∨ (fst r + WANTED ≤ 0x100000 ∧ WANTED ≤ snd r - fst r) → alloc' ≠ None).
Proof.
  intros [Hr Hmax]. unfold filter_ap_boot. destruct alloc as [b|]; [by eexists _, _|].
  rewrite (proj2 (uint_try_from_Some usize_max _ (snd r - fst r))) by lia. simpl.
  unfold WANTED, usize_max, u64_max in *. repeat case_bool_decide; eexists _, _; (split; [done|]);
    unfold range_ok, usize_max, u64_max; simpl; (split; [lia|]); intros [?|?]; done || lia.
Qed.

Lemma largest_returns best r : range_ok r → from_option (λ b, range_ok (snd b)) True best →
  ∃ best', largest best r = Done best' ∧ from_option (λ b, range_ok (snd b)) True best'.
Proof.
  intros Hr Hb. unfold largest. rewrite bool_decide_true by apply Hr. simpl.
  rewrite (proj2 (uint_checked_Done usize_max _ (snd r - fst r))) by (destruct Hr; lia). simpl. eexists. split; [done|].
  simpl. destruct best as [[k r']|]; [|done]. by case_bool_decide.
Qed.

Lemma scan_areas_returns info areas alloc best : Forall (area_ok info) areas →
  from_option (λ b, range_ok (snd b)) True best → alloc ≠ None ∨ Exists (area_low info) areas →
  ∃ ap best', scan_areas info areas alloc best = Done (Some ap, best') ∧ from_option (λ b, range_ok (snd b)) True best'.
Proof.
  intros Ha. revert alloc best. induction Ha as [|area areas Harea _ IH]; intros alloc best Hb Hex.
  - destruct Hex as [Hex|Hex]; [|by apply Exists_nil in Hex]. destruct alloc; [|done]. by eexists _, _.
  - cbn [scan_areas]. destruct (Harea) as (o & Ho & _). rewrite Ho. cbn [mbind outcome_bind].
    destruct o as [r|].
    + pose proof (area_ok_range _ _ _ Harea Ho) as Hr. destruct (filter_ap_boot_returns alloc r Hr) as (rest & alloc' & -> & Hrest & Hal).
      cbn [mbind outcome_bind].
      assert (Hex' : alloc' ≠ None ∨ Exists (area_low info) areas).
      { destruct Hex as [Hex|Hex]; [left; by apply Hal; left|]. apply Exists_cons in Hex as [(r' & Hr' & Hlow)|Hex]; [|by right].
        left. apply Hal. right. rewrite Ho in Hr'. by injection Hr' as <-. }
      destruct rest as [rest|]; [|by apply IH].
      destruct (largest_returns best rest) as (best' & -> & Hb'); [done..|]. by apply IH.
    + apply IH; [done|]. destruct Hex as [Hex|Hex]; [by left|]. right. apply Exists_cons in Hex as [(r & Hr & _)|Hex]; [congruence|done].
Qed.

(** C29: The boot finds the memory it needs, and what it takes is free: if none
    of the declared areas is turned inside out by the regions to avoid, and one
    has room below one mebibyte, the boot does not panic; every byte of the heap
    and of the area of the associated processors is in a memory area declared by
    the loader, not in a section of the kernel nor in the multiboot information,
    not in the ROM and video memory nor in the areas of the BIOS, and below
    2 GiB; the two do not overlap, and the second one ends below one
    mebibyte. *)
Theorem boot_memory_ok (info : BootInformation) :
  boot_wf info → apart (memory_areas info) →
  Forall (area_ok info) (memory_areas info) → Exists (area_low info) (memory_areas info) →
  ∃ heap ap, boot_memory info = Done (heap, ap) ∧
    (∀ start size x, heap = Some (start, size) → start ≤ x < start + size →
       (∃ area, area ∈ memory_areas info ∧ free info area x) ∧ ¬ in_range (ap, ap + WANTED) x) ∧
    (∀ x, in_range (ap, ap + WANTED) x → ∃ area, area ∈ memory_areas info ∧ free info area x) ∧
    ap + WANTED ≤ 0x100000.
Proof.
  intros Hwf Hap Hok Hlow. destruct (scan_areas_returns info (memory_areas info) None None) as (b & best & Hscan & Hb);
    [done|done|by right|].
  assert (Hinv : scan_inv info ([] ++ memory_areas info) (Some b) best).
  { eapply scan_areas_ok; [done..| |exact Hscan]. unfold scan_inv.
    split_and!; [by intros x (? & ? & ?)|by intros x (? & ? & ? & ?)|by intros x (? & ? & ?)|done]. }
  destruct Hinv as (H1 & H2 & H3 & H4). simpl in H1, H2. unfold boot_memory. rewrite Hscan. cbn [mbind outcome_bind].
  destruct (initialize_returns (snd <$> best)) as (heap & -> & Hheap); [by destruct best|].
  exists heap, b. split; [done|]. split_and!; [| |by apply H4].
  - intros start size x Hs Hx. destruct (Hheap _ _ _ Hs Hx) as (r & Hr & Hx'). apply fmap_Some in Hr as ([k r'] & -> & ->).
    assert (Hbr : best_region (Some (k, r')) x) by (by exists k, r').
    split; [by apply H2|]. intros Hxa. eapply H3; [|exact Hbr]. by exists b.
  - intros x Hx. apply H1. by exists b.
Qed.

(** A region to avoid that starts exactly where an area starts, and ends after
    it, turns the area into a range whose start is after its end. *)
Lemma avoid_inverts a b e : a < b < e → avoid (a, e) (a, b) = Some (e, b).
Proof.
  intros H. unfold avoid. rewrite (bool_decide_false (a ≤ a ∧ e ≤ b)) by lia.
  rewrite (bool_decide_false (a < a ∧ b < e)) by lia. by rewrite bool_decide_true by lia.
Qed.

Lemma avoid_apart s a b : snd s ≤ a ∨ b ≤ fst s → fst s < snd s → a < b → avoid s (a, b) = Some (a, b).
Proof.
  destruct s as [s e]. simpl. intros H Hs Hab. unfold avoid. rewrite (bool_decide_false (a ≤ s ∧ e ≤ b)) by lia.
  rewrite (bool_decide_false (s < a ∧ b < e)) by lia. rewrite (bool_decide_false (s ≤ a ∧ a < e)) by lia.
  by rewrite (bool_decide_false (s < b ∧ b ≤ e)) by lia.
Qed.

Lemma avoid_all_apart sections s a b :
  Forall (λ s, snd s ≤ a ∧ fst s < snd s) sections → a < b →
  avoid_all (sections ++ [s]) (a, b) = avoid s (a, b).
Proof.
  intros Hs Hab. induction Hs as [|t sections [Ht Ht'] _ IH]; simpl.
  - by destruct (avoid s (a, b)).
  - rewrite avoid_apart by (auto || done). simpl. done.
Qed.

(** The boot panics on a machine whose memory map has an area that starts
    at the 2 GiB limit: the range that is left of it ends before it starts,
    instead of being empty, and [checked_sub] or the assertion of the allocator
    fails. *)
Theorem area_at_limit_panics (info : BootInformation) b areas :
  memory_areas info = (0x80000000, b) :: areas → 0x80000000 < b < u64_max →
  Forall (λ s, snd s ≤ 0x80000000 ∧ fst s < snd s) (elf_sections info) →
  mb_start_address info < mb_end_address info ≤ 0x80000000 →
  boot_memory info = Panic PUnwrap.
Proof.
  intros Hareas Hb Helf Hmb. unfold boot_memory. rewrite Hareas. cbn [scan_areas].
  assert (find_free_memory_range info (0x80000000, b) = Done (Some (u64_max, b))) as ->.
  { unfold find_free_memory_range, debug_assert. simpl. rewrite bool_decide_true by lia. simpl.
    assert (avoid_all (to_avoid info) (0x80000000, b) = Some (u64_max, b)) as ->.
    { unfold to_avoid. rewrite !app_assoc. rewrite avoid_all_apart; [by apply avoid_inverts| |lia].
      rewrite <- !app_assoc. apply Forall_app. split; [done|]. repeat constructor; simpl; lia. }
    rewrite (unwrap_try_from usize_max u64_max) by done. simpl.
    by rewrite (unwrap_try_from usize_max b) by (unfold usize_max; lia). }
  simpl. by rewrite unwrap_try_from_out by (cbn [fst snd]; unfold u64_max in *; lia).
Qed.

(** * Associated processors *)

(** The template: the code between [_ap_boot_start] and [_ap_boot_end] as the
    assembler gives it, and the offsets of its markers. *)
Record Template := {
  ap_boot_code : bytes;
  marker1 : nat;
  marker2 : nat;
  marker3 : nat;
}.

Definition placeholder1 : bytes := byte_of_Z <$> [0x66; 0xea; 0xad; 0xde; 0xad; 0xde; 0x08].
Definition placeholder2 : bytes := byte_of_Z <$>
  [0x48; 0xbc; 0xef; 0xcd; 0xab; 0x90; 0x78; 0x56; 0x34; 0x12;
   0x48; 0xb8; 0xff; 0xff; 0x22; 0x22; 0xcc; 0xcc; 0x99; 0x99].
Definition placeholder3 : bytes := byte_of_Z <$> [0x66; 0xba; 0xdd; 0xba; 0x00; 0xff].

(** [assert_eq!(slice::from_raw_parts(loc, n), expected)]. *)
Definition assert_slice (buf : bytes) (at_ : nat) (expected : bytes) : outcome unit :=
  s ← slice buf at_ (at_ + length expected);
  assert_ (bool_decide (s = expected)).

(** [assert_eq!(ptr.read_unaligned(), old)] and [ptr.write_unaligned(new)]. *)
Definition replace_at (buf : bytes) (at_ : nat) (old new : bytes) : outcome bytes :=
  _ ← assert_slice buf at_ old;
  copy_at buf at_ new.

(** The block that adjusts the copy of the template at [buf_ptr]. *)
Definition adjust_template (t : Template) (buf : bytes) (buf_ptr stack_top param pml_addr : Z) : outcome bytes :=
  _ ← assert_slice buf (marker1 t) placeholder1;
  _ ← assert_slice buf (marker2 t) placeholder2;
  _ ← assert_slice buf (marker3 t) placeholder3;
  buf ← replace_at buf (marker2 t + 2) (u64_to_le_bytes 0x1234567890abcdef) (u64_to_le_bytes stack_top);
  buf ← replace_at buf (marker2 t + 12) (u64_to_le_bytes 0x9999cccc2222ffff) (u64_to_le_bytes param);
  target ← unwrap (u32_try_from (buf_ptr + Z.of_nat (marker2 t)));
  buf ← replace_at buf (marker1 t + 2) (u32_to_le_bytes 0xdeaddead) (u32_to_le_bytes target);
  pml ← unwrap (u32_try_from pml_addr);
  replace_at buf (marker3 t + 2) (u32_to_le_bytes 0xff00badd) (u32_to_le_bytes pml).

(** The allocators: where [ApBootAlloc], a heap of [WANTED] bytes at [region],
    puts a buffer, where the global allocator puts the stack ([None] is a null
    pointer), and the box of the boot code, as an integer; the page table in
    [cr3].  What happens outside of this processor while it waits is a function
    of the accesses that it has made: whether the boot code has sent on the
    channel, and the interrupts taken each time the processor halts ([i] is the
    vector [i + 32]) before its task is woken.  Each poll reads the counter, so
    no two of them have the same history. *)
Class ApBoot := {
  ap_alloc : Z → Z → Z → option Z;
  alloc_stack : Z → option Z;
  boxed_boot_code : Z;
  cr3 : Z;
  ap_started : list x86_access → bool;
  taken_interrupts : list x86_access → list (list nat);
}.

(** An allocation is aligned and inside the heap; the vectors are those of the
    table. *)
Class ApBootLaws `{ApBoot} := {
  ap_alloc_ok : ∀ region size align p, ap_alloc region size align = Some p →
    region ≤ p ∧ p + size ≤ region + WANTED ∧ p mod align = 0;
  taken_range : ∀ tr, Forall (Forall (λ i, i < 224)%nat) (taken_interrupts tr);
}.

Inductive BootError := Timeout.

(** [futures::future::Either], without the futures. *)
Inductive Either := EitherLeft | EitherRight.

Section ap.
Context `{Machine} `{ApBoot}.

(** ** [Executor::block_on]

    The flags of the waker and the wake-ups are those of [Executor.v]; here are
    the accesses of the processor that waits. *)

(** The inner loop, when the task is not woken: the processor halts until it
    takes interrupts. *)
Definition halt_round (taken : list nat) : M X86 unit :=
  enabled ← are_enabled;
  _ ← liftM (debug_assert enabled);
  _ ← interrupts_disable;
  _ ← interrupts_enable;
  for_each (λ i, irq_handler (i + 32)) taken.

(** From a poll that is not ready to the next one: the last round finds the
    task woken. *)
Definition sleep : M X86 unit :=
  rounds ← gets (λ x, taken_interrupts (cpu_trace x));
  _ ← for_each halt_round rounds;
  halt_round [].

Fixpoint poll_until {F R} (fuel : nat) (poll : F → M Timers (option R * F)) (f : F) : M Timers (R * F) :=
  match fuel with
  | O => λ _, NoFuel
  | S fuel =>
      r ← poll f;
      match r with
      | (Some v, f) => mret (v, f)
      | (None, f) => _ ← on_x86 sleep; poll_until fuel poll f
      end
  end.

Definition block_on {F R} (fuel : nat) (poll : F → M Timers (option R * F)) (f : F) : M Timers (R * F) :=
  _ ← on_x86 current_apic_id;
  poll_until fuel poll f.

(** ** The futures *)

Definition poll_timer (cfg : TimersConfig) (w : Waker) (f : TimerFuture) : M Timers (option unit * TimerFuture) :=
  '(over, f) ← timer_poll cfg w f;
  mret (if over : bool then Some tt else None, f).

(** [future::select(ap_ready_timeout, &mut init_finished_future)]: the timer is
    polled first. *)
Definition poll_select (cfg : TimersConfig) (w : Waker) (f : TimerFuture) : M Timers (option Either * TimerFuture) :=
  '(over, f) ← timer_poll cfg w f;
  if over : bool then mret (Some EitherLeft, f) else
  started ← gets (λ t, ap_started (cpu_trace (timer_x86 t)));
  mret (if started : bool then Some EitherRight else None, f).

(** The loop over [attempts], [n] of them being left.  [wakers] are the wakers
    of the calls to [block_on]. *)
Fixpoint boot_attempts (fuel : nat) (cfg : TimersConfig) (wakers : nat → Waker) (target buf_ptr : Z) (n attempts : nat) :
    M Timers (BootError + unit) :=
  match n with
  | O => mret (inl Timeout)
  | S n =>
      let attempts := S attempts in
      _ ← on_x86 (send_interprocessor_sipi target buf_ptr);
      ap_ready_timeout ← liftM (register_tsc_timer cfg 1 0);
      '(either, ap_ready_timeout) ← block_on fuel (poll_select cfg (wakers attempts)) ap_ready_timeout;
      _ ← timer_drop cfg ap_ready_timeout;
      match either with
      | EitherLeft => boot_attempts fuel cfg wakers target buf_ptr n attempts
      | EitherRight => mret (inr tt)
      end
  end.

(** [boot_associated_processor]: its result, and what the buffer holds when the
    processor is started. *)
Definition boot_associated_processor (fuel : nat) (cfg : TimersConfig) (wakers : nat → Waker) (region : Z) (target : Z)
    (t : Template) : M Timers ((BootError + unit) * bytes) :=
  let size := Z.of_nat (length (ap_boot_code t)) in
  _ ← liftM (assert_ (bool_decide (size ≤ 0x1000)));
  buf_ptr ← liftM (unwrap (ap_alloc region size 0x1000));
  _ ← on_x86 (send_interprocessor_init target);
  wait_after_init ← liftM (register_tsc_timer cfg 0 10000000);
  stack ← liftM (match alloc_stack (10 * 1024 * 1024) with Some p => Done p | None => Panic PAssert end);
  stack_top ← liftM (uint_checked usize_max (stack + 10 * 1024 * 1024));
  code ← liftM (adjust_template t (ap_boot_code t) buf_ptr stack_top boxed_boot_code cr3);
  '(_, wait_after_init) ← block_on fuel (poll_timer cfg (wakers 0%nat)) wait_after_init;
  _ ← timer_drop cfg wait_after_init;
  result ← boot_attempts fuel cfg wakers target buf_ptr 2 0;
  mret (result, code).

End ap.

Lemma slice_at (buf l1 x l2 : bytes) n : buf = l1 ++ x ++ l2 → n = length l1 → slice buf n (n + length x) = Done x.
Proof.
  intros -> ->. rewrite slice_skip with (n := length l1) by lia.
  rewrite Nat.sub_diag. replace (length l1 + length x - length l1)%nat with (length x) by lia.
  by apply slice_hit.
Qed.

Lemma assert_slice_ok (buf l1 x l2 : bytes) n : buf = l1 ++ x ++ l2 → n = length l1 → assert_slice buf n x = Done tt.
Proof. intros Hb Hn. unfold assert_slice. rewrite (slice_at buf l1 x l2) by done. simpl. by rewrite bool_decide_true. Qed.

Lemma replace_at_ok (buf l1 old l2 new : bytes) n : buf = l1 ++ old ++ l2 → n = length l1 → length old = length new →
  replace_at buf n old new = Done (l1 ++ new ++ l2).
Proof.
  intros Hb Hn Hl. unfold replace_at. rewrite (assert_slice_ok buf l1 old l2) by done. simpl. subst.
  rewrite copy_at_skip with (n := length l1) by lia. rewrite Nat.sub_diag, copy_at_hit by done. done.
Qed.

Section adjust.
#[local] Transparent u32_to_le_bytes u64_to_le_bytes.

Lemma placeholder1_split : placeholder1 = (byte_of_Z <$> [0x66; 0xea]) ++ u32_to_le_bytes 0xdeaddead ++ (byte_of_Z <$> [0x08]).
Proof. reflexivity. Qed.
Lemma placeholder2_split : placeholder2 = (byte_of_Z <$> [0x48; 0xbc]) ++ u64_to_le_bytes 0x1234567890abcdef ++
  (byte_of_Z <$> [0x48; 0xb8]) ++ u64_to_le_bytes 0x9999cccc2222ffff.
Proof. reflexivity. Qed.
Lemma placeholder3_split : placeholder3 = (byte_of_Z <$> [0x66; 0xba]) ++ u32_to_le_bytes 0xff00badd.
Proof. reflexivity. Qed.

End adjust.

(** The instructions once adjusted. *)
Definition ljmpl (target : Z) : bytes := (byte_of_Z <$> [0x66; 0xea]) ++ u32_to_le_bytes target ++ (byte_of_Z <$> [0x08]).
Definition movabs_rsp_rax (stack param : Z) : bytes :=
  (byte_of_Z <$> [0x48; 0xbc]) ++ u64_to_le_bytes stack ++ (byte_of_Z <$> [0x48; 0xb8]) ++ u64_to_le_bytes param.
Definition mov_edx (pml : Z) : bytes := (byte_of_Z <$> [0x66; 0xba]) ++ u32_to_le_bytes pml.

(** The template has its three placeholders, in the order of the assembly. *)
Definition template_wf (t : Template) (p0 p1 p2 p3 : bytes) : Prop :=
  ap_boot_code t = p0 ++ placeholder3 ++ p1 ++ placeholder1 ++ p2 ++ placeholder2 ++ p3 ∧
  marker3 t = length p0 ∧ marker1 t = length (p0 ++ placeholder3 ++ p1) ∧
  marker2 t = length (p0 ++ placeholder3 ++ p1 ++ placeholder1 ++ p2).

(** The copy of the boot template of an associated processor, once
    adjusted, is the template in which the four placeholders are the address of
    the page table, the address of the 64-bit code in this copy, the stack and
    the parameter, and in which nothing else has changed. *)
Theorem adjust_template_ok (t : Template) (p0 p1 p2 p3 : bytes) (buf_ptr stack_top param pml_addr : Z) :
  template_wf t p0 p1 p2 p3 → 0 ≤ buf_ptr → buf_ptr + Z.of_nat (marker2 t) ≤ u32_max → 0 ≤ pml_addr ≤ u32_max →
  adjust_template t (ap_boot_code t) buf_ptr stack_top param pml_addr =
    Done (p0 ++ mov_edx pml_addr ++ p1 ++ ljmpl (buf_ptr + Z.of_nat (marker2 t)) ++ p2 ++
          movabs_rsp_rax stack_top param ++ p3).
Proof.
  intros (Hcode & H3 & H1 & H2) Hbuf Htarget Hpml. unfold adjust_template.
  rewrite (assert_slice_ok _ (p0 ++ placeholder3 ++ p1) placeholder1 (p2 ++ placeholder2 ++ p3))
    by (rewrite ?Hcode, <- ?app_assoc; done). cbn [mbind outcome_bind].
  rewrite (assert_slice_ok _ (p0 ++ placeholder3 ++ p1 ++ placeholder1 ++ p2) placeholder2 p3)
    by (rewrite ?Hcode, <- ?app_assoc; done). cbn [mbind outcome_bind].
  rewrite (assert_slice_ok _ p0 placeholder3 (p1 ++ placeholder1 ++ p2 ++ placeholder2 ++ p3)) by done. cbn [mbind outcome_bind].
  rewrite (replace_at_ok _ (p0 ++ placeholder3 ++ p1 ++ placeholder1 ++ p2 ++ (byte_of_Z <$> [0x48; 0xbc])) _
    ((byte_of_Z <$> [0x48; 0xb8]) ++ u64_to_le_bytes 0x9999cccc2222ffff ++ p3));
    [|rewrite Hcode, placeholder2_split, <- ?app_assoc; done|rewrite H2, !length_app; simpl; lia|done]. cbn [mbind outcome_bind].
  rewrite (replace_at_ok _ (p0 ++ placeholder3 ++ p1 ++ placeholder1 ++ p2 ++ (byte_of_Z <$> [0x48; 0xbc]) ++
      u64_to_le_bytes stack_top ++ (byte_of_Z <$> [0x48; 0xb8])) _ p3);
    [|rewrite <- ?app_assoc; done|rewrite H2, !length_app, length_u64_le; simpl; lia|done]. cbn [mbind outcome_bind].
  rewrite (unwrap_try_from _ (buf_ptr + _)) by lia. cbn [mbind outcome_bind].
  rewrite (replace_at_ok _ (p0 ++ placeholder3 ++ p1 ++ (byte_of_Z <$> [0x66; 0xea])) _
    ((byte_of_Z <$> [0x08]) ++ p2 ++ movabs_rsp_rax stack_top param ++ p3));
    [|unfold movabs_rsp_rax; rewrite placeholder1_split, <- ?app_assoc; done|rewrite H1, !length_app; simpl; lia|done]. cbn [mbind outcome_bind].
  rewrite (unwrap_try_from _ pml_addr) by lia. cbn [mbind outcome_bind].
  rewrite (replace_at_ok _ (p0 ++ (byte_of_Z <$> [0x66; 0xba])) _
    (p1 ++ ljmpl (buf_ptr + Z.of_nat (marker2 t)) ++ p2 ++ movabs_rsp_rax stack_top param ++ p3));
    [|unfold ljmpl; rewrite placeholder3_split, <- ?app_assoc; done|rewrite H3, length_app; simpl; lia|done].
  unfold mov_edx. by rewrite <- ?app_assoc.
Qed.

(** * Starting a processor *)

(** Accesses that send no inter-processor interrupt. *)
Definition sends_nothing (a : x86_access) : Prop :=
  match a with WriteU32 a _ => a ≠ APIC_BASE_ADDR + 0x310 ∧ a ≠ APIC_BASE_ADDR + 0x300 | _ => True end.

Lemma ipis_nothing hi tr : Forall sends_nothing tr → ipis hi tr = [] ∧ icr_high hi tr = hi.
Proof.
  induction 1 as [|a tr Ha _ IH]; [done|]. destruct a; try done. simpl in *.
  by rewrite (bool_decide_false (address = APIC_BASE_ADDR + 0x310)), (bool_decide_false (address = APIC_BASE_ADDR + 0x300)) by apply Ha.
Qed.

(** A machine that waits: it can take interrupts. *)
Definition waiting_ok (x : X86) : Prop := x86_wf x ∧ interrupts_enabled x = true.

(** [x'] comes after [x], and the commands sent from one to the other. *)
Definition came (l : list (Z * Z * Z)) (x x' : X86) : Prop :=
  ∃ tr, cpu_trace x' = cpu_trace x ++ tr ∧ ∀ hi, ipis hi tr = l.

Lemma came_refl x : came [] x x.
Proof. exists []. split; [by rewrite app_nil_r|done]. Qed.

Lemma came_trans l1 l2 x1 x2 x3 : came l1 x1 x2 → came l2 x2 x3 → came (l1 ++ l2) x1 x3.
Proof.
  intros (tr1 & Htr1 & Hi1) (tr2 & Htr2 & Hi2). exists (tr1 ++ tr2). split; [by rewrite Htr2, Htr1, app_assoc|].
  intros hi. by rewrite ipis_app, Hi1, Hi2.
Qed.

Lemma came_nothing tr x x' : cpu_trace x' = cpu_trace x ++ tr → Forall sends_nothing tr → came [] x x'.
Proof. intros Htr Hn. exists tr. split; [done|]. intros hi. by apply ipis_nothing. Qed.

Lemma came_prefix l x x' : came l x x' → cpu_trace x `prefix_of` cpu_trace x'.
Proof. intros (tr & -> & _). by apply prefix_app_r. Qed.

(** The counter reaches [v], or the processor answers before that, between two
    states. *)
Definition over_in `{Machine} (v : Z) (x x' : X86) : Prop := ∃ tr,
  cpu_trace x `prefix_of` tr ∧ tr `prefix_of` cpu_trace x' ∧ v ≤ rdtsc_at tr.
Definition started_in `{Machine} `{ApBoot} (v : Z) (x x' : X86) : Prop := ∃ tr tr',
  cpu_trace x `prefix_of` tr ∧ tr `prefix_of` tr' ∧ tr' `prefix_of` cpu_trace x' ∧ rdtsc_at tr < v ∧ ap_started tr' = true.

(** What the attempts give: an answer before the end of the first second; or
    that second is over, and the same for the second attempt. *)
Definition attempted `{Machine} `{ApBoot} (v : Z) (x x' : X86) (n : nat) (result : BootError + unit) : Prop :=
  (n = 1%nat ∧ result = inr tt ∧ started_in v x x') ∨
  (n = 2%nat ∧ ∃ x1, over_in v x x1 ∧ cpu_trace x1 `prefix_of` cpu_trace x' ∧
     (result = inr tt ∧ started_in v x1 x' ∨ result = inl Timeout ∧ over_in v x1 x')).

Section start.
Context `{Machine} `{!MachineLaws} `{ApBoot} `{!ApBootLaws}.
Context (cfg : TimersConfig) (i : nat).
Hypothesis Hi : (i < 224)%nat.
Hypothesis Hvec : tc_interrupt_vector cfg = Z.of_nat i + 32.
Hypothesis Hrate : 2 ≤ rdtsc_ticks_per_sec cfg ≤ max_rate.

Local Abbreviation rate := (rdtsc_ticks_per_sec cfg).

(** ** Sleeping *)

Lemma irq_handler_ok j (x : X86) : waiting_ok x → (j < 224)%nat →
  ∃ x', irq_handler (j + 32) x = Done (tt, x') ∧ waiting_ok x' ∧ came [] x x'.
Proof.
  intros [Hwf He] Hj. destruct (interrupt_ok j x Hwf Hj) as (h & Hh & Hrun). unfold interrupt in Hh. rewrite IDT_irq in Hh by done.
  injection Hh as <-. exists (delivered j x). split; [done|]. split; [split; [by apply delivered_wf|done]|].
  unfold delivered. destruct (default false _).
  - by eapply came_nothing; [simpl; reflexivity|repeat constructor].
  - eapply came_nothing; [simpl; by rewrite app_nil_r|constructor].
Qed.

Lemma irq_handlers_ok taken : Forall (λ j, j < 224)%nat taken → ∀ x, waiting_ok x →
  ∃ x', for_each (λ j, irq_handler (j + 32)) taken x = Done (tt, x') ∧ waiting_ok x' ∧ came [] x x'.
Proof.
  induction 1 as [|j taken Hj _ IH]; intros x Hx; [exists x; split_and!; [done..|apply came_refl]|]. cbn [for_each].
  destruct (irq_handler_ok j x Hx Hj) as (x1 & Hrun1 & Hx1 & Hc1). rewrite (bind_run _ _ _ _ _ Hrun1).
  destruct (IH x1 Hx1) as (x2 & Hrun2 & Hx2 & Hc2). exists x2. split_and!; [done..|]. by apply (came_trans [] []  _ x1).
Qed.

Lemma halt_round_ok taken x : Forall (λ j, j < 224)%nat taken → waiting_ok x →
  ∃ x', halt_round taken x = Done (tt, x') ∧ waiting_ok x' ∧ came [] x x'.
Proof.
  intros Ht [Hwf He]. unfold halt_round, are_enabled, gets, liftM, interrupts_disable, interrupts_enable, modify, mbind, M_bind.
  rewrite He. simpl. set (x1 := with_trace _ _ _).
  destruct (irq_handlers_ok taken Ht x1) as (x2 & Hrun & Hx2 & Hc); [split; [by destruct Hwf|done]|].
  exists x2. split_and!; [done..|]. apply (came_trans [] [] _ x1); [|done].
  eapply (came_nothing [Cli; Sti]); [subst x1; simpl; by rewrite <- app_assoc|by repeat constructor].
Qed.

Lemma halt_rounds_ok rounds : Forall (Forall (λ j, j < 224)%nat) rounds → ∀ x, waiting_ok x →
  ∃ x', for_each halt_round rounds x = Done (tt, x') ∧ waiting_ok x' ∧ came [] x x'.
Proof.
  induction 1 as [|taken rounds Ht _ IH]; intros x Hx; [exists x; split_and!; [done..|apply came_refl]|]. cbn [for_each].
  destruct (halt_round_ok taken x Ht Hx) as (x1 & Hrun1 & Hx1 & Hc1). rewrite (bind_run _ _ _ _ _ Hrun1).
  destruct (IH x1 Hx1) as (x2 & Hrun2 & Hx2 & Hc2). exists x2. split_and!; [done..|]. by apply (came_trans [] [] _ x1).
Qed.

Lemma sleep_ok x : waiting_ok x → ∃ x', sleep x = Done (tt, x') ∧ waiting_ok x' ∧ came [] x x'.
Proof using All.
  intros Hx. unfold sleep, gets, mbind at 1, M_bind at 1.
  destruct (halt_rounds_ok _ (taken_range (cpu_trace x)) x Hx) as (x1 & Hrun1 & Hx1 & Hc1). rewrite (bind_run _ _ _ _ _ Hrun1).
  destruct (halt_round_ok [] x1) as (x2 & Hrun2 & Hx2 & Hc2); [constructor|done|].
  exists x2. split_and!; [done..|]. by apply (came_trans [] [] _ x1).
Qed.

(** ** A timer on an otherwise empty list *)

Lemma on_x86_run {A} (m : M X86 A) (t : Timers) a x' : m (timer_x86 t) = Done (a, x') →
  on_x86 m t = Done (a, {| timer_list := timer_list t; timer_x86 := x' |}).
Proof. intros Hm. unfold on_x86, zoom. by rewrite Hm. Qed.

(** The future [f] of the timer [v], which is the list unless it has not been
    polled or is over. *)
Definition alone (v : Z) (w : Waker) (f : TimerFuture) (t : Timers) : Prop :=
  tsc_value f = v ∧ (in_timers_list f = false ∧ timer_list t = [] ∨ in_timers_list f = true ∧ timer_list t = [(v, w)]).

Lemma rate_in_reach v now : v ≤ rate → 0 ≤ now < v → in_reach cfg now v.
Proof using Hrate.
  clear Hi Hvec.  intros Hv Hnow. right. unfold oneshot_ticks. assert ((v - now) / 128 < u32_max); [|lia].
  apply Z.div_lt_upper_bound; unfold max_rate, u32_max in *; lia.
Qed.

Lemma poll_alone v w f (t : Timers) : v ≤ rate → waiting_ok (timer_x86 t) → alone v w f t →
  ∃ f' t', timer_poll cfg w f t = Done ((bool_decide (v ≤ now_of t), f'), t') ∧ waiting_ok (timer_x86 t') ∧
    alone v w f' t' ∧ ∃ tr, cpu_trace (timer_x86 t') = cpu_trace (timer_x86 t) ++ RdTsc :: tr ∧ Forall sends_nothing tr.
Proof using All.
  intros Hv [Hwf He] [Hf Hl]. assert (Hnow : 0 ≤ now_of t) by apply rdtsc_range.
  assert (Hrd : on_x86 rdtsc t = Done (now_of t, {| timer_list := timer_list t; timer_x86 := ticked (timer_x86 t) |})) by done.
  destruct Hl as [[Hin Hl]|[Hin Hl]].
  - destruct (decide (v ≤ now_of t)) as [Hover|Hover].
    + unfold timer_poll. rewrite (bind_run _ _ _ _ _ Hrd), Hf. rewrite (bool_decide_true _ Hover). rewrite Hin. cbn [negb].
      eexists f, _. split; [done|]. split; [split; [by apply ticked_wf|done]|]. split; [split; [done|by left]|]. by exists [].
    + rewrite timer_poll_first by (done || lia). rewrite Hf, (bool_decide_false _ Hover).
      rewrite (update_apic_cons cfg i Hi Hvec) by (try apply rate_in_reach; try apply ticked_wf; done || lia).
      eexists _, _. split; [done|]. split; [split; [by apply armed_wf, ticked_wf|done]|]. split; [split; [done|by right]|].
      exists [arm_access cfg (now_of t) v]. split; [simpl; by rewrite <- app_assoc|]. constructor; [|done].
      unfold arm_access. by destruct (tsc_deadline_supported _).
  - unfold timer_poll. rewrite (bind_run _ _ _ _ _ Hrd), Hf.
    destruct (decide (v ≤ now_of t)) as [Hover|Hover].
    + rewrite (bool_decide_true _ Hover), Hin. unfold get, mbind, M_bind. cbn [negb timer_list]. rewrite Hl. cbn [pop_expired].
      rewrite (bool_decide_true _ Hover). rewrite (bool_decide_false (w ≠ w)) by (intros Hw; by apply Hw).
      cbn. eexists _, _. split; [done|]. split; [split; [by apply ticked_wf|done]|]. split; [split; [done|by left]|]. by exists [].
    + rewrite (bool_decide_false _ Hover). unfold liftM, mbind, M_bind. rewrite bool_decide_true by lia. cbn [debug_assert]. rewrite Hin. cbn [negb].
      eexists f, _. split; [done|]. split; [split; [by apply ticked_wf|done]|]. split; [split; [done|by right]|]. by exists [].
Qed.

Lemma drop_alone v w f (t : Timers) : waiting_ok (timer_x86 t) → alone v w f t →
  ∃ t', timer_drop cfg f t = Done (tt, t') ∧ waiting_ok (timer_x86 t') ∧ timer_list t' = [] ∧ came [] (timer_x86 t) (timer_x86 t').
Proof.
  intros [Hwf He] [Hf [[Hin Hl]|[Hin Hl]]]; unfold timer_drop; rewrite Hin; cbn [negb].
  - exists t. split_and!; [done..|apply came_refl].
  - unfold get, mbind, M_bind. cbn. rewrite Hl, Hf. cbn. rewrite decide_True by done. cbn.
    eexists. split; [done|]. split; [split; [by apply ticked_wf|done]|]. split; [done|].
    by eapply (came_nothing [RdTsc]); [|repeat constructor].
Qed.

(** ** Waiting

    [fuel] polls are enough once the counter has reached the value of the timer
    after as many accesses. *)
Definition reached (v : Z) (x : X86) (fuel : nat) : Prop := ∀ tr,
  cpu_trace x `prefix_of` tr → (length (cpu_trace x) + fuel ≤ S (length tr))%nat → v ≤ rdtsc_at tr.

Lemma reached_later v x x' fuel a tr :
  reached v x (S fuel) → cpu_trace x' = cpu_trace x ++ a :: tr → reached v x' fuel.
Proof using Type.
  clear Hi Hvec Hrate. intros Hr Htr tr' Hp Hlen. rewrite Htr, length_app in Hlen. simpl in Hlen. apply Hr; [|lia].
  etrans; [|exact Hp]. rewrite Htr. by apply prefix_app_r.
Qed.

Lemma reached_came v l x x' fuel : reached v x fuel → came l x x' → reached v x' fuel.
Proof using Type.
  clear Hi Hvec Hrate. intros Hr (tr & Htr & _) tr' Hp Hlen. rewrite Htr, length_app in Hlen. apply Hr; [|lia].
  etrans; [|exact Hp]. rewrite Htr. by apply prefix_app_r.
Qed.

Lemma over_in_weaken v x1 x2 x3 x4 : over_in v x2 x3 → cpu_trace x1 `prefix_of` cpu_trace x2 → cpu_trace x3 `prefix_of` cpu_trace x4 →
  over_in v x1 x4.
Proof. intros (tr & Hp1 & Hp2 & Hv) Hp3 Hp4. exists tr. split_and!; [by etrans..|done]. Qed.

Lemma started_in_weaken v x1 x2 x3 x4 : started_in v x2 x3 → cpu_trace x1 `prefix_of` cpu_trace x2 → cpu_trace x3 `prefix_of` cpu_trace x4 →
  started_in v x1 x4.
Proof. intros (tr & tr' & Hp1 & Hp2 & Hp3 & Hv & Ha) Hp4 Hp5. exists tr, tr'. split_and!; [by etrans|done|by etrans|done..]. Qed.

(** A loop over polls of a timer that may end otherwise: [ends r x x'] is what
    the result tells of the states of a poll that gives it. *)
Lemma poll_until_ok {R} (poll : TimerFuture → M Timers (option R * TimerFuture)) v w (ends : R → X86 → X86 → Prop) :
  (∀ f t, waiting_ok (timer_x86 t) → alone v w f t → ∃ r f' t', poll f t = Done ((r, f'), t') ∧ waiting_ok (timer_x86 t') ∧
     alone v w f' t' ∧ (∃ tr, cpu_trace (timer_x86 t') = cpu_trace (timer_x86 t) ++ RdTsc :: tr ∧ Forall sends_nothing tr) ∧
     match r with Some r => ends r (timer_x86 t) (timer_x86 t') | None => now_of t < v end) →
  (∀ r x1 x2 x3, ends r x2 x3 → cpu_trace x1 `prefix_of` cpu_trace x2 → ends r x1 x3) →
  ∀ fuel f t, (0 < fuel)%nat → reached v (timer_x86 t) fuel → waiting_ok (timer_x86 t) → alone v w f t →
  ∃ r f' t', poll_until fuel poll f t = Done ((r, f'), t') ∧ waiting_ok (timer_x86 t') ∧ alone v w f' t' ∧
    came [] (timer_x86 t) (timer_x86 t') ∧ ends r (timer_x86 t) (timer_x86 t').
Proof using All.
  intros Hpoll Hweak. induction fuel as [|fuel IH]; intros f t Hpos Hreach Hok Hal; [lia|]. cbn [poll_until].
  destruct (Hpoll f t Hok Hal) as (r & f' & t' & Hrun & Hok' & Hal' & (tr & Htr & Hn) & Hr). rewrite (bind_run _ _ _ _ _ Hrun).
  assert (Hc : came [] (timer_x86 t) (timer_x86 t')) by (eapply came_nothing; [exact Htr|by constructor]).
  destruct r as [r|]; [by eexists r, f', t'|].
  destruct (sleep_ok (timer_x86 t') Hok') as (x2 & Hsleep & Hok2 & Hc2).
  rewrite (bind_run _ _ _ _ _ (on_x86_run _ _ _ _ Hsleep)). set (t2 := {| timer_list := timer_list t'; timer_x86 := x2 |}).
  assert (Hpos' : (0 < fuel)%nat).
  { destruct fuel; [|lia]. exfalso. assert (v ≤ now_of t); [|lia]. apply Hreach; [done|lia]. }
  destruct (IH f' t2) as (r & f3 & t3 & Hrun3 & Hok3 & Hal3 & Hc3 & He3); [done| |done|by destruct Hal' as [? [[? ?]|[? ?]]]; split; auto|].
  { eapply reached_came; [by eapply reached_later|exact Hc2]. }
  exists r, f3, t3. split_and!; [done..| |].
  - apply (came_trans [] [] _ (timer_x86 t')); [done|]. by apply (came_trans [] [] _ x2).
  - eapply Hweak; [exact He3|]. etrans; [by eapply came_prefix|]. by eapply came_prefix.
Qed.

Lemma prefix_rdtsc x x' tr : cpu_trace x' = cpu_trace x ++ tr → cpu_trace x `prefix_of` cpu_trace x'.
Proof. intros ->. by apply prefix_app_r. Qed.

Lemma wait_timer_ok v w fuel f (t : Timers) : v ≤ rate → (0 < fuel)%nat → reached v (timer_x86 t) fuel →
  waiting_ok (timer_x86 t) → alone v w f t →
  ∃ f' t', block_on fuel (poll_timer cfg w) f t = Done ((tt, f'), t') ∧ waiting_ok (timer_x86 t') ∧ alone v w f' t' ∧
    came [] (timer_x86 t) (timer_x86 t') ∧ over_in v (timer_x86 t) (timer_x86 t').
Proof using All.
  intros Hv Hpos Hreach [Hwf He] Hal. unfold block_on. erewrite bind_run by (apply on_x86_run, current_apic_id_ok).
  set (t1 := {| timer_list := timer_list t; timer_x86 := _ |}).
  assert (Hc1 : came [] (timer_x86 t) (timer_x86 t1)) by (by eapply came_nothing; [|repeat constructor]).
  destruct (poll_until_ok (poll_timer cfg w) v w (λ _, over_in v)) with (fuel := fuel) (f := f) (t := t1)
    as ([] & f' & t' & Hrun & Hok' & Hal' & Hc & Hover); [| |done|by eapply reached_came|by split; [destruct Hwf|]|done|].
  - intros g u Hok Halu. destruct (poll_alone v w g u Hv Hok Halu) as (g' & u' & Hrun & Hok' & Hal' & tr & Htr & Hn).
    unfold poll_timer. rewrite (bind_run _ _ _ _ _ Hrun). eexists _, g', u'. split; [done|]. split_and!; [done..|by exists tr|].
    case_bool_decide as Hb; [|lia]. exists (cpu_trace (timer_x86 u)). split_and!; [done|by eapply prefix_rdtsc|done].
  - intros r x1 x2 x3 Ho Hp. by eapply over_in_weaken.
  - exists f', t'. split_and!; [done..|by apply (came_trans [] [] _ (timer_x86 t1))|]. eapply over_in_weaken; [exact Hover|by eapply came_prefix|done].
Qed.

Lemma wait_select_ok v w fuel f (t : Timers) : v ≤ rate → (0 < fuel)%nat → reached v (timer_x86 t) fuel →
  waiting_ok (timer_x86 t) → alone v w f t →
  ∃ e f' t', block_on fuel (poll_select cfg w) f t = Done ((e, f'), t') ∧ waiting_ok (timer_x86 t') ∧ alone v w f' t' ∧
    came [] (timer_x86 t) (timer_x86 t') ∧
    match e with EitherLeft => over_in v | EitherRight => started_in v end (timer_x86 t) (timer_x86 t').
Proof using All.
  intros Hv Hpos Hreach [Hwf He] Hal. unfold block_on. erewrite bind_run by (apply on_x86_run, current_apic_id_ok).
  set (t1 := {| timer_list := timer_list t; timer_x86 := _ |}).
  assert (Hc1 : came [] (timer_x86 t) (timer_x86 t1)) by (by eapply came_nothing; [|repeat constructor]).
  destruct (poll_until_ok (poll_select cfg w) v w (λ e, match e with EitherLeft => over_in v | EitherRight => started_in v end))
    with (fuel := fuel) (f := f) (t := t1)
    as (e & f' & t' & Hrun & Hok' & Hal' & Hc & Hend); [| |done|by eapply reached_came|by split; [destruct Hwf|]|done|].
  - intros g u Hok Halu. destruct (poll_alone v w g u Hv Hok Halu) as (g' & u' & Hrun & Hok' & Hal' & tr & Htr & Hn).
    unfold poll_select. rewrite (bind_run _ _ _ _ _ Hrun). case_bool_decide as Hb.
    + eexists _, g', u'. split; [done|]. split_and!; [done..|by exists tr|]. exists (cpu_trace (timer_x86 u)). split_and!; [done|by eapply prefix_rdtsc|done].
    + unfold gets, mbind, M_bind. eexists _, g', u'. split; [done|]. split_and!; [done..|by exists tr|].
      destruct (ap_started _) eqn:Hst; [|unfold now_of in *; lia]. exists (cpu_trace (timer_x86 u)), (cpu_trace (timer_x86 u')).
      unfold now_of in Hb. split_and!; [done|by eapply prefix_rdtsc|done|lia|done].
  - intros [] x1 x2 x3 Ho Hp; [by eapply over_in_weaken|by eapply started_in_weaken].
  - exists e, f', t'. split_and!; [done..|by apply (came_trans [] [] _ (timer_x86 t1))|].
    destruct e; [eapply over_in_weaken|eapply started_in_weaken]; try exact Hend; try done; by eapply came_prefix.
Qed.

(** ** The attempts *)

Lemma second_timer : register_tsc_timer cfg 1 0 = Done {| tsc_value := rate; in_timers_list := false |}.
Proof using Hrate.
  clear Hi Hvec.
  rewrite register_tsc_timer_ok by (done || unfold u64_max; lia). replace ((1 * 1000000000 + 0) * rate) with (rate * 1000000000) by lia.
  rewrite Z.div_mul by done. rewrite bool_decide_true; [done|]. unfold max_rate, u64_max in *. lia.
Qed.

(** The ticks of 10 ms. *)
Definition init_delay : Z := 10000000 * rate / 1000000000.

Lemma init_delay_le : init_delay ≤ rate.
Proof using Hrate.
  clear Hi Hvec. unfold init_delay. apply Z.div_le_upper_bound; lia. Qed.

Lemma delay_timer : register_tsc_timer cfg 0 10000000 = Done {| tsc_value := init_delay; in_timers_list := false |}.
Proof using Hrate.
  clear Hi Hvec.
  rewrite register_tsc_timer_ok by (done || unfold u64_max; lia). change (0 * 1000000000 + 10000000) with 10000000. fold init_delay.
  rewrite bool_decide_true; [done|]. pose proof init_delay_le. unfold max_rate, u64_max in *. lia.
Qed.

Lemma alone_new v w t : timer_list t = [] → alone v w {| tsc_value := v; in_timers_list := false |} t.
Proof. intros Hl. split; [done|by left]. Qed.

Context (me target page : Z) (wakers : nat → Waker) (fuel : nat).
Hypothesis Hme : apic_id_is me.
Hypothesis Hne : me ≠ target.
Hypothesis Htarget : 0 ≤ target ≤ u8_max.
Hypothesis Hpage : 0 ≤ page ≤ u8_max.
Hypothesis Hfuel : (0 < fuel)%nat.

(** One attempt: the start-up command, and what [select] gives. *)
Lemma attempt_ok k (t : Timers) : waiting_ok (timer_x86 t) → timer_list t = [] → reached rate (timer_x86 t) fuel →
  ∃ e t', waiting_ok (timer_x86 t') ∧ timer_list t' = [] ∧ came [(target, 6, page)] (timer_x86 t) (timer_x86 t') ∧
    match e with EitherLeft => over_in rate | EitherRight => started_in rate end (timer_x86 t) (timer_x86 t') ∧
    ∀ n, boot_attempts fuel cfg wakers target (page * 0x1000) (S n) k t =
      match e with
      | EitherLeft => boot_attempts fuel cfg wakers target (page * 0x1000) n (S k) t'
      | EitherRight => Done (inr tt, t')
      end.
Proof using All.
  intros [Hwf He] Hl Hreach. destruct (send_sipi_ok (timer_x86 t) me target page) as (tr & Hsipi & Hipi); [done..|].
  set (x1 := with_trace _ _ _) in Hsipi. set (t1 := {| timer_list := timer_list t; timer_x86 := x1 |}).
  assert (Hc1 : came [(target, 6, page)] (timer_x86 t) x1) by (by exists tr).
  destruct (wait_select_ok rate (wakers (S k)) fuel {| tsc_value := rate; in_timers_list := false |} t1)
    as (e & f2 & t2 & Hwait & Hok2 & Hal2 & Hc2 & Hend); [lia|done|by eapply reached_came|split; [by destruct Hwf|done]|by apply alone_new|].
  destruct (drop_alone rate (wakers (S k)) f2 t2 Hok2 Hal2) as (t3 & Hdrop & Hok3 & Hl3 & Hc3).
  exists e, t3. split; [done|]. split; [done|]. split.
  { apply (came_trans [_] [] _ x1); [done|]. by apply (came_trans [] [] _ (timer_x86 t2)). }
  split.
  { pose proof (came_prefix _ _ _ Hc1). pose proof (came_prefix _ _ _ Hc3).
    destruct e; [eapply over_in_weaken|eapply started_in_weaken]; try exact Hend; done. }
  intros n. cbn [boot_attempts]. rewrite (bind_run _ _ _ _ _ (on_x86_run _ _ _ _ Hsipi)).
  rewrite (liftM_bind_Done _ _ _ _ second_timer). fold t1. rewrite (bind_run _ _ _ _ _ Hwait), (bind_run _ _ _ _ _ Hdrop). by destruct e.
Qed.

Lemma boot_attempts_ok (t : Timers) : waiting_ok (timer_x86 t) → timer_list t = [] → reached rate (timer_x86 t) fuel →
  ∃ n result t', boot_attempts fuel cfg wakers target (page * 0x1000) 2 0 t = Done (result, t') ∧
    timer_list t' = [] ∧ waiting_ok (timer_x86 t') ∧ came (replicate n (target, 6, page)) (timer_x86 t) (timer_x86 t') ∧
    attempted rate (timer_x86 t) (timer_x86 t') n result.
Proof using All.
  intros Hok Hl Hreach. destruct (attempt_ok 0 t Hok Hl Hreach) as ([] & t1 & Hok1 & Hl1 & Hc1 & He1 & Hrun1); rewrite Hrun1.
  2:{ exists 1%nat, (inr tt), t1. split_and!; [done..|by left]. }
  destruct (attempt_ok 1 t1 Hok1 Hl1) as (e & t2 & Hok2 & Hl2 & Hc2 & He2 & Hrun2); [by eapply reached_came|]. rewrite Hrun2.
  assert (Hc : came (replicate 2 (target, 6, page)) (timer_x86 t) (timer_x86 t2)) by (by apply (came_trans [_] [_] _ (timer_x86 t1))).
  exists 2%nat. pose proof (came_prefix _ _ _ Hc2). destruct e.
  - exists (inl Timeout), t2. split_and!; [done..|]. right. split; [done|]. exists (timer_x86 t1). split_and!; [done..|by right].
  - exists (inr tt), t2. split_and!; [done..|]. right. split; [done|]. exists (timer_x86 t1). split_and!; [done..|by left].
Qed.

End start.

(** Once the counter is past the first second, no attempt is answered. *)
Lemma attempted_late `{Machine} `{ApBoot} v x x' n result : attempted v x x' n result →
  (∀ tr, cpu_trace x `prefix_of` tr → v ≤ rdtsc_at tr) → n = 2%nat ∧ result = inl Timeout.
Proof.
  intros Hatt Hlate. assert (Hno : ∀ x1 x2, cpu_trace x `prefix_of` cpu_trace x1 → started_in v x1 x2 → False).
  { intros x1 x2 Hp (tr & tr' & Hp1 & _ & _ & Hlt & _). specialize (Hlate tr). assert (v ≤ rdtsc_at tr); [|lia]. apply Hlate. by etrans. }
  destruct Hatt as [(_ & _ & Hst)|(-> & x1 & Hover & _ & [[_ Hst]|[-> _]])]; [by destruct (Hno x x')| |done].
  destruct (Hno x1 x'); [|done]. destruct Hover as (tr & ? & ? & _). by etrans.
Qed.

(** C30: Starting an associated processor, with the area that [boot_memory]
    found and an empty list of timers: none of the assertions fails (the buffer
    is a page below one mebibyte), and the call returns, provided that each wait
    lasts for less than [fuel] polls.  The processor is sent one INIT, then one
    start-up command, or a second one, all pointing to the page that holds the
    adjusted template.  The first command is sent after a reading of the counter
    of at least the ticks of 10 ms; the second one after a reading of at least
    those of one second; the result is [Ok] only if at the end of the last
    attempt the boot code had signalled after a reading that was below that, and
    an error only if both attempts had such a reading.  So if all the readings
    are past the ticks of one second, as the code compares the counter itself
    with them, the result is an error, whatever the processor does. *)
Theorem boot_associated_processor_ok `{Machine} `{!MachineLaws} `{ApBoot} `{!ApBootLaws} (cfg : TimersConfig) (i : nat)
    (me target : Z) (wakers : nat → Waker) (fuel : nat) (t : Template) (p0 p1 p2 p3 : bytes)
    (region stack : Z) (s : Timers) (ap : Z) :
  (i < 224)%nat → tc_interrupt_vector cfg = Z.of_nat i + 32 → 2 ≤ rdtsc_ticks_per_sec cfg ≤ max_rate →
  apic_id_is me → me ≠ target → 0 ≤ target ≤ u8_max → template_wf t p0 p1 p2 p3 →
  0 ≤ region → region + WANTED ≤ 0x100000 → (Z.of_nat (length (ap_boot_code t)) ≤ 0x1000) → (0 < length (ap_boot_code t))%nat →
  ap_alloc region (Z.of_nat (length (ap_boot_code t))) 0x1000 = Some ap →
  alloc_stack (10 * 1024 * 1024) = Some stack → 0 ≤ stack → stack + 10 * 1024 * 1024 ≤ usize_max → 0 ≤ cr3 ≤ u32_max →
  waiting_ok (timer_x86 s) → timer_list s = [] → (0 < fuel)%nat → reached (rdtsc_ticks_per_sec cfg) (timer_x86 s) fuel →
  ∃ n result s0 s' page, boot_associated_processor fuel cfg wakers region target t s =
      Done ((result, p0 ++ mov_edx cr3 ++ p1 ++ ljmpl (ap + Z.of_nat (marker2 t)) ++ p2 ++
                     movabs_rsp_rax (stack + 10 * 1024 * 1024) boxed_boot_code ++ p3), s') ∧
    ap = page * 0x1000 ∧ timer_list s' = [] ∧ waiting_ok (timer_x86 s') ∧
    came [(target, 5, 0)] (timer_x86 s) s0 ∧ over_in (init_delay cfg) (timer_x86 s) s0 ∧
    came (replicate n (target, 6, page)) s0 (timer_x86 s') ∧
    attempted (rdtsc_ticks_per_sec cfg) s0 (timer_x86 s') n result ∧
    ((∀ tr, cpu_trace (timer_x86 s) `prefix_of` tr → rdtsc_ticks_per_sec cfg ≤ rdtsc_at tr) → result = inl Timeout).
Proof.
  intros Hi Hvec Hrate Hme Hne Htarget Htemplate Hreg Hlow Hsize Hpos Hap Hstack Hst Hst2 Hcr3 [Hwf He] Hl Hfuel Hreach.
  pose proof (ap_alloc_ok _ _ _ _ Hap) as (Hap1 & Hap2 & Hal).
  apply Z.mod_divide in Hal as [page Hpage]; [|done].
  assert (Hp : 0 ≤ page ≤ u8_max) by (unfold u8_max, WANTED in *; lia).
  assert (Hm2 : Z.of_nat (marker2 t) ≤ 0x1000).
  { destruct Htemplate as (Hc & _ & _ & Hm). rewrite Hc, !length_app in Hsize. rewrite Hm, !length_app. lia. }
  unfold boot_associated_processor. rewrite (liftM_bind_Done _ _ tt) by (apply assert_true, bool_decide_true; done).
  rewrite Hap. rewrite (liftM_bind_Done _ _ ap) by done.
  destruct (send_init_ok (timer_x86 s) me target) as (tr1 & Hinit & Hi1); [done..|].
  rewrite (bind_run _ _ _ _ _ (on_x86_run _ _ _ _ Hinit)). set (x1 := with_trace _ _ _). set (s1 := {| timer_list := timer_list s; timer_x86 := x1 |}).
  rewrite (liftM_bind_Done _ _ _ _ (delay_timer cfg Hrate)). rewrite Hstack. rewrite (liftM_bind_Done _ _ stack) by done.
  rewrite (liftM_bind_Done _ _ (stack + 10 * 1024 * 1024)) by (apply uint_checked_Done; lia).
  assert (Hadj := adjust_template_ok t p0 p1 p2 p3 ap (stack + 10 * 1024 * 1024) boxed_boot_code cr3 Htemplate).
  rewrite (liftM_bind_Done _ _ _ _ (Hadj ltac:(lia) ltac:(unfold u32_max, WANTED in *; lia) Hcr3)).
  assert (Hc1 : came [(target, 5, 0)] (timer_x86 s) x1) by (by exists tr1).
  destruct (wait_timer_ok cfg i Hi Hvec Hrate (init_delay cfg) (wakers 0%nat) fuel
      {| tsc_value := init_delay cfg; in_timers_list := false |} s1)
    as (f2 & s2 & Hwait & Hok2 & Hal2 & Hc2 & Hover); [by apply init_delay_le|done| |split; [by destruct Hwf|done]|by apply alone_new|].
  { refine (reached_came (init_delay cfg) _ _ _ fuel _ Hc1). intros tr Htr Hlen. etrans; [by apply init_delay_le|]. by apply Hreach. }
  rewrite (bind_run _ _ _ _ _ Hwait).
  destruct (drop_alone cfg _ _ _ _ Hok2 Hal2) as (s3 & Hdrop & Hok3 & Hl3 & Hc3). rewrite (bind_run _ _ _ _ _ Hdrop).
  assert (Hc13 : came [(target, 5, 0)] (timer_x86 s) (timer_x86 s3)).
  { apply (came_trans [_] [] _ x1); [done|]. by apply (came_trans [] [] _ (timer_x86 s2)). }
  subst ap. destruct (boot_attempts_ok cfg i Hi Hvec Hrate me target page wakers fuel Hme Hne Htarget Hp Hfuel s3 Hok3 Hl3)
    as (n & result & s4 & Hatt & Hl4 & Hok4 & Hc4 & Hres); [by eapply reached_came|]. rewrite (bind_run _ _ _ _ _ Hatt).
  exists n, result, (timer_x86 s3), s4, page. split_and!; try done.
  - eapply over_in_weaken; [exact Hover|by eapply came_prefix|by eapply came_prefix].
  - intros Hlate. eapply attempted_late in Hres as [_ ->]; [done|]. intros tr Htr. apply Hlate. etrans; [by eapply came_prefix|done].
Qed.
