(* ===== verification/Video.v ===== *)
(** The logs of the standalone kernel on a screen
    ([kernel/standalone/src/klog/video.rs], [klog/logger.rs]).

    The memory is a function from addresses to bytes.  Addresses are not
    wrapped: the theorems ask for a framebuffer that is inside the address
    space.  The font is generated by the build, and is the class [Font]. *)
From S2P Require Import Prelude.

(** * Framebuffers *)

Inductive FramebufferFormat :=
  | Text
  | Rgb (red_size red_position green_size green_position blue_size blue_position : Z).

Record FramebufferInfo := {
  address : Z;
  width : Z;
  height : Z;
  pitch : Z;
  bytes_per_character : Z;
  format : FramebufferFormat;
}.

Record KernelLogMethod := {
  enabled : bool;
  framebuffer : option FramebufferInfo;
  uart : option unit;
}.

Definition memory : Type := Z → Z.

(** [ptr::write_bytes], [ptr::copy], and a write of the bytes of a list. *)
Definition write_bytes (dst value count : Z) (m : memory) : memory :=
  λ x, if bool_decide (dst ≤ x < dst + count) then value else m x.
Definition copy_bytes (src dst count : Z) (m : memory) : memory :=
  λ x, if bool_decide (dst ≤ x < dst + count) then m (src + (x - dst)) else m x.
Fixpoint write_list (dst : Z) (l : list Z) (m : memory) : memory :=
  match l with
  | [] => m
  | b :: l => write_list (dst + 1) l (write_bytes dst b 1 m)
  end.

(** [a.saturating_mul(b)] and [a.saturating_add(b)] on [usize] or [u64]. *)
Definition saturating (max z : Z) : Z := Z.min max z.

Definition bpp (info : FramebufferInfo) : Z := bytes_per_character info.

(** [pitch.saturating_mul(y)] from the address of the framebuffer. *)
Definition row_address (info : FramebufferInfo) (y : Z) : Z :=
  address info + saturating usize_max (pitch info * y).
(** [bpp.saturating_mul(width)]. *)
Definition row_bytes (info : FramebufferInfo) : Z := saturating usize_max (bpp info * width info).

(** [for y in a..b]. *)
Fixpoint for_rows (f : Z → memory → memory) (a : Z) (n : nat) (m : memory) : memory :=
  match n with
  | O => m
  | S n => for_rows f (a + 1) n (f a m)
  end.

Definition clear_screen (info : FramebufferInfo) (m : memory) : memory :=
  for_rows (λ y, write_bytes (row_address info y) 0 (row_bytes info)) 0 (Z.to_nat (height info)) m.

(** [height - rows_up] is computed before the loop. *)
Definition copy_row_up (info : FramebufferInfo) (rows_up : Z) (m : memory) : outcome memory :=
  if bool_decide (rows_up = 0) then mret m else
  last ← uint_checked usize_max (height info - rows_up);
  let m := for_rows (λ y, copy_bytes (row_address info (y + rows_up)) (row_address info y) (row_bytes info))
             0 (Z.to_nat last) m in
  mret (for_rows (λ y, write_bytes (row_address info y) 0 (row_bytes info)) last (Z.to_nat rows_up) m).

(** * Colours *)

Definition Color : Type := Z * Z * Z.

Definition mix (v1 v2 : Z) : Z := (v1 * v2 / 255) mod 256.

Definition AVAILABLE : list (Z * Z * Z * Z) :=
  [ (0x00, 0x00, 0x00, 0x0); (0x00, 0x00, 0xaa, 0x1); (0x00, 0xaa, 0x00, 0x2); (0x00, 0xaa, 0xaa, 0x3);
    (0xaa, 0x00, 0x00, 0x4); (0xaa, 0x00, 0xaa, 0x5); (0xaa, 0xaa, 0x00, 0x6); (0xaa, 0xaa, 0xaa, 0x7);
    (0x55, 0x55, 0x55, 0x8); (0x55, 0x55, 0xff, 0x9); (0x55, 0xff, 0x55, 0xa); (0x55, 0xff, 0xff, 0xb);
    (0xff, 0x55, 0x55, 0xc); (0xff, 0x55, 0xff, 0xd); (0xff, 0xff, 0x55, 0xe); (0xff, 0xff, 0xff, 0xf) ].

Definition distance (color : Color) (val : Z * Z * Z * Z) : Z :=
  let '(r, g, b) := color in
  let '(r', g', b', _) := val in
  Z.abs (r - r') + Z.abs (g - g') + Z.abs (b - b').

(** [min_by_key]: the first of the smallest. *)
Fixpoint closest (color : Color) (best : Z * Z * Z * Z) (l : list (Z * Z * Z * Z)) : Z * Z * Z * Z :=
  match l with
  | [] => best
  | v :: l => closest color (if bool_decide (distance color v < distance color best) then v else best) l
  end.

Definition term_color (color : Color) : Z :=
  match AVAILABLE with [] => 0 | v :: l => snd (closest color v l) end.

(** A component of a pixel: [size] bits wide, [wrapping_shl] and
    [wrapping_shr] taking the shift modulo 32. *)
Definition wrapping_shl (v n : Z) : Z := (v ≪ (n mod 32)) mod 2 ^ 32.
Definition wrapping_shr (v n : Z) : Z := v ≫ (n mod 32).
Definition component (size v : Z) : Z :=
  if bool_decide (8 ≤ size) then wrapping_shl v (size - 8) else wrapping_shr v (8 - size).

Definition write_rgb_color (dst : Z) (info : FramebufferInfo) (color : Color) (m : memory) : memory :=
  if bool_decide (bytes_per_character info > 4) then m else
  let pixel_to_write :=
    match format info with
    | Rgb rs rp gs gp bs bp =>
        let '(r, g, b) := color in
        Z.lor (Z.lor (wrapping_shl (component rs r) rp) (wrapping_shl (component gs g) gp))
              (wrapping_shl (component bs b) bp)
    | Text => 0
    end in
  write_list dst (take (Z.to_nat (bytes_per_character info)) (byte_to_Z <$> u32_to_le_bytes pixel_to_write)) m.

(** * The terminal *)

Class Font := { FONT_DATA : list Z }.

(** [memory] is what the terminal writes to. *)
Record Terminal := {
  term_framebuffer : FramebufferInfo;
  cursor_x : Z;
  cursor_y : Z;
  character_width : Z;
  character_height : Z;
  screen_cleared : bool;
}.

Definition Terminal_new (framebuffer : FramebufferInfo) : Terminal :=
  let character_dims := match format framebuffer with Text => 1 | Rgb _ _ _ _ _ _ => 8 end in
  {| term_framebuffer := framebuffer; cursor_x := 0; cursor_y := 0; character_width := character_dims;
     character_height := character_dims; screen_cleared := false |}.

(** The terminal and the memory. *)
Definition Display : Type := Terminal * memory.

Definition set_cursor (x y : Z) (t : Terminal) : Terminal :=
  {| term_framebuffer := term_framebuffer t; cursor_x := x; cursor_y := y;
     character_width := character_width t; character_height := character_height t;
     screen_cleared := screen_cleared t |}.

Definition on_memory (f : memory → memory) : M Display unit := modify (λ d, (fst d, f (snd d))).
Definition set_terminal (t : Terminal) : M Display unit := modify (λ d, (t, snd d)).

Definition cursor_mem_address (t : Terminal) : Z :=
  let info := term_framebuffer t in
  let y_offset := saturating u64_max (pitch info * cursor_y t) in
  let x_offset := saturating usize_max (cursor_x t * bytes_per_character info) in
  address info + saturating usize_max (x_offset + y_offset).

Section font.
Context `{Font}.

(** The pixels of a row of a character, from [x] on. *)
Fixpoint draw_row (info : FramebufferInfo) (src_data : list Z) (color : Color) (addr y x : Z) (n : nat) :
    M memory unit :=
  match n with
  | O => mret tt
  | S n =>
      src_px ← liftM (index src_data (Z.to_nat (y * 8 + x)));
      let '(r, g, b) := color in
      _ ← modify (write_rgb_color (addr + saturating usize_max (x * bpp info)) info
                    (mix src_px r, mix src_px g, mix src_px b));
      draw_row info src_data color addr y (x + 1) n
  end.

Fixpoint draw_rows (info : FramebufferInfo) (src_data : list Z) (color : Color) (chr_width : nat) (addr y : Z) (n : nat) :
    M memory unit :=
  match n with
  | O => mret tt
  | S n =>
      _ ← draw_row info src_data color (addr + saturating usize_max (y * pitch info)) y 0 chr_width;
      draw_rows info src_data color chr_width addr (y + 1) n
  end.

Definition print_at_cursor (chr : Z) (color : Color) : M Display unit :=
  d ← get;
  let t := fst d in
  let info := term_framebuffer t in
  let addr := cursor_mem_address t in
  match format info with
  | Text =>
      let attrs := term_color color ≪ 8 in
      let v := Z.lor chr attrs in
      on_memory (write_list addr [v mod 256; v / 256])
  | Rgb _ _ _ _ _ _ =>
      let idx := chr * 64 in
      if bool_decide (idx + 64 > Z.of_nat (length FONT_DATA)) then mret tt else
      src_data ← liftM (slice FONT_DATA (Z.to_nat idx) (Z.to_nat (idx + 64)));
      zoom snd (λ m d, (fst d, m))
        (draw_rows info src_data color (Z.to_nat (character_width t)) addr 0 (Z.to_nat (character_height t)))
  end.

Definition line_down : M Display unit :=
  d ← get;
  let t := fst d in
  m ← liftM (copy_row_up (term_framebuffer t) (character_height t) (snd d));
  put (set_cursor (cursor_x t) (Z.max 0 (cursor_y t - character_height t)) t, m).

(** The fuel of a loop is over. *)
Definition no_fuel {S A} : M S A := λ _, NoFuel.

(** [while self.cursor_y >= self.framebuffer.height]. *)
Fixpoint scroll (fuel : nat) : M Display unit :=
  d ← get;
  if bool_decide (height (term_framebuffer (fst d)) ≤ cursor_y (fst d)) then
    match fuel with
    | O => no_fuel
    | S fuel => _ ← line_down; scroll fuel
    end
  else mret tt.

(** One line is enough, since the cursor was on the screen. *)
Definition scroll_fuel : nat := 1.

Definition carriage_return : M Display unit :=
  d ← get;
  let t := fst d in
  _ ← set_terminal (set_cursor 0 (saturating u32_max (cursor_y t + character_height t)) t);
  scroll scroll_fuel.

(** The body of the loop of [print], for a character given by its code. *)
Definition print_char (color : Color) (chr : Z) : M Display unit :=
  if bool_decide (128 ≤ chr) then mret tt else
  if bool_decide (chr = 10) then carriage_return else
  _ ← print_at_cursor chr color;
  d ← get;
  let t := fst d in
  let w := width (term_framebuffer t) in
  _ ← liftM (debug_assert (bool_decide (cursor_x t < w)));
  let x := saturating u32_max (cursor_x t + character_width t) in
  _ ← set_terminal (set_cursor x (cursor_y t) t);
  if bool_decide (x > Z.max 0 (w - character_width t)) then carriage_return else mret tt.

Definition print (message : list Z) (color : Color) : M Display unit := for_each (print_char color) message.

(** [Terminal::printer] and [write_str] of the printer it gives. *)
Definition terminal_write (color : Color) (message : list Z) : M Display unit :=
  d ← get;
  _ ← (if negb (screen_cleared (fst d)) then
         put ({| term_framebuffer := term_framebuffer (fst d); cursor_x := cursor_x (fst d);
                 cursor_y := cursor_y (fst d); character_width := character_width (fst d);
                 character_height := character_height (fst d); screen_cleared := true |},
              clear_screen (term_framebuffer (fst d)) (snd d))
       else mret tt);
  print message color.

(** * The logger *)

Inductive KLogger :=
  | Disabled (method : KernelLogMethod)
  | Enabled (terminal : option Terminal).

Definition KLogger_new (method : KernelLogMethod) : KLogger :=
  if enabled method then Enabled (Terminal_new <$> framebuffer method) else Disabled method.

(** [Printer::write_str]. *)
Definition klog_write_str (color : Color) (message : list Z) : M (KLogger * memory) unit :=
  d ← get;
  match fst d with
  | Disabled _ => mret tt
  | Enabled None => mret tt
  | Enabled (Some terminal) =>
      zoom (λ d, (terminal, snd d)) (λ d' _, (Enabled (Some (fst d')), snd d')) (terminal_write color message)
  end.

Definition log_color : Color := (0xdd, 0xdd, 0xdd).
Definition panic_color : Color := (0xff, 0x0, 0x0).

Definition set_method (_ : KernelLogMethod) : M (KLogger * memory) unit := panic PUnimplemented.

End font.

(** * Safety *)

#[local] Arguments Z.add : simpl never.
#[local] Arguments Z.mul : simpl never.
#[local] Arguments Z.sub : simpl never.

Definition dims (f : FramebufferFormat) : Z := match f with Text => 1 | Rgb _ _ _ _ _ _ => 8 end.

Lemma dims_pos f : 1 ≤ dims f.
Proof. destruct f; simpl; lia. Qed.

(** A framebuffer on which the terminal can work: inside the address space,
    with rows as long as they must be, and room for a whole number of lines. *)
Record fb_ok (info : FramebufferInfo) : Prop := {
  fb_address : 0 ≤ address info;
  fb_width : dims (format info) ≤ width info ≤ u32_max;
  fb_height : dims (format info) ≤ height info ≤ u32_max;
  fb_bpp : 0 ≤ bpp info;
  fb_pitch : bpp info * width info ≤ pitch info;
  fb_end : address info + pitch info * height info ≤ u64_max;
  fb_lines : (dims (format info) | height info);
  fb_text : format info = Text → bpp info = 2;
}.

(** The memory of the framebuffer. *)
Definition in_fb (info : FramebufferInfo) (x : Z) : Prop :=
  address info ≤ x < address info + pitch info * height info.

Definition same_outside (info : FramebufferInfo) (m m' : memory) : Prop := ∀ x, ¬ in_fb info x → m' x = m x.

#[global] Instance same_outside_preorder info : PreOrder (same_outside info).
Proof. split; unfold same_outside; [done|]. intros m1 m2 m3 H1 H2 x Hx. by rewrite H2, H1. Qed.

Section safety.
Context `{Font} (info : FramebufferInfo).
Hypothesis Hfb : fb_ok info.

Lemma pitch_nonneg : 0 ≤ pitch info.
Proof using Hfb. destruct Hfb. pose proof (dims_pos (format info)). nia. Qed.

Lemma row_offset y : 0 ≤ y < height info → 0 ≤ pitch info * y ∧ pitch info * y + pitch info ≤ pitch info * height info.
Proof using Hfb. intros Hy. pose proof pitch_nonneg. nia. Qed.

Lemma row_address_ok y : 0 ≤ y < height info → row_address info y = address info + pitch info * y.
Proof using Hfb.
  intros Hy. pose proof (row_offset y Hy). pose proof pitch_nonneg. destruct Hfb.
  unfold row_address, saturating. rewrite Z.min_r; [done|]. unfold usize_max. lia.
Qed.

Lemma row_bytes_ok : row_bytes info = bpp info * width info ∧ bpp info * width info ≤ pitch info.
Proof using Hfb.
  pose proof pitch_nonneg. pose proof (dims_pos (format info)). destruct Hfb. unfold row_bytes, saturating. split; [|done].
  rewrite Z.min_r; [done|]. unfold usize_max. nia.
Qed.

Lemma write_bytes_frame dst v n m : (∀ x, dst ≤ x < dst + n → in_fb info x) → same_outside info m (write_bytes dst v n m).
Proof. intros Hin x Hx. unfold write_bytes. case_bool_decide; [|done]. exfalso. by apply Hx, Hin. Qed.

Lemma copy_bytes_frame src dst n m : (∀ x, dst ≤ x < dst + n → in_fb info x) → same_outside info m (copy_bytes src dst n m).
Proof. intros Hin x Hx. unfold copy_bytes. case_bool_decide; [|done]. exfalso. by apply Hx, Hin. Qed.

Lemma write_list_frame dst l m : (∀ x, dst ≤ x < dst + Z.of_nat (length l) → in_fb info x) →
  same_outside info m (write_list dst l m).
Proof.
  revert dst m. induction l as [|b l IH]; intros dst m Hin; simpl in *; [reflexivity|].
  etransitivity; [apply (write_bytes_frame dst b 1); intros; apply Hin; lia|].
  apply IH. intros x Hx. apply Hin. lia.
Qed.

Lemma for_rows_frame f a n m : (∀ y m, a ≤ y < a + Z.of_nat n → same_outside info m (f y m)) →
  same_outside info m (for_rows f a n m).
Proof.
  revert a m. induction n as [|n IH]; intros a m Hf; simpl; [reflexivity|].
  etransitivity; [apply (Hf a); lia|]. apply IH. intros y m' Hy. apply Hf. lia.
Qed.

Lemma row_in_fb y x : 0 ≤ y < height info →
  row_address info y ≤ x < row_address info y + row_bytes info → in_fb info x.
Proof using Hfb.
  intros Hy. rewrite row_address_ok by done. destruct row_bytes_ok as [-> ?]. pose proof (row_offset y Hy).
  unfold in_fb. lia.
Qed.

Lemma clear_screen_frame m : same_outside info m (clear_screen info m).
Proof using Hfb.
  apply for_rows_frame. intros y m' Hy. apply write_bytes_frame. intros x. apply row_in_fb. lia.
Qed.

Lemma copy_row_up_frame rows_up m : 0 < rows_up ≤ height info →
  ∃ m', copy_row_up info rows_up m = Done m' ∧ same_outside info m m'.
Proof using Hfb.
  intros Hr. destruct Hfb. unfold copy_row_up. rewrite bool_decide_false by lia.
  rewrite (proj2 (uint_checked_Done _ _ (height info - rows_up))) by (unfold usize_max, u64_max, u32_max in *; lia).
  simpl. eexists. split; [done|].
  etransitivity; [apply for_rows_frame|apply for_rows_frame].
  - intros y m' Hy. apply copy_bytes_frame. intros x. apply row_in_fb. lia.
  - intros y m' Hy. apply write_bytes_frame. intros x. apply row_in_fb. lia.
Qed.

(** The state of the terminal between two characters. *)
Definition term_inv (t : Terminal) : Prop :=
  term_framebuffer t = info ∧ character_width t = dims (format info) ∧ character_height t = dims (format info) ∧
  0 ≤ cursor_x t ≤ width info - dims (format info) ∧ 0 ≤ cursor_y t < height info ∧ (dims (format info) | cursor_y t).

(** A whole line is left at the cursor. *)
Lemma line_fits t : term_inv t → cursor_y t + dims (format info) ≤ height info.
Proof using Hfb.
  intros (_ & _ & _ & _ & Hy & [k Hk]). destruct Hfb as [_ _ _ _ _ _ [j Hj] _].
  pose proof (dims_pos (format info)) as Hd. rewrite Hk in *. rewrite Hj in Hy |- *.
  clear Hk Hj. assert (k < j) by nia. nia.
Qed.

(** The address of a byte of the character at the cursor. *)
Lemma pixel_in_fb t y x k : term_inv t → 0 ≤ y < dims (format info) → 0 ≤ x < dims (format info) → 0 ≤ k < bpp info →
  cursor_mem_address t = address info + (cursor_x t * bpp info + pitch info * cursor_y t) ∧
  in_fb info (address info + (cursor_x t * bpp info + pitch info * cursor_y t) + y * pitch info + x * bpp info + k).
Proof using Hfb.
  intros Ht Hy Hx Hk. pose proof (line_fits t Ht) as Hl. pose proof pitch_nonneg as Hp.
  destruct Ht as (Hf & _ & _ & Hcx & Hcy & _).
  destruct (row_offset (cursor_y t)) as [Hr1 Hr2]; [done|]. destruct (row_offset (cursor_y t + y)) as [Hr3 Hr4]; [lia|].
  destruct Hfb. split.
  - unfold cursor_mem_address. rewrite Hf. fold (bpp info). unfold saturating, usize_max.
    assert (0 ≤ cursor_x t * bpp info ≤ pitch info) by nia.
    rewrite !Z.min_r by lia. done.
  - unfold in_fb. assert (0 ≤ (cursor_x t + x) * bpp info ∧ (cursor_x t + x) * bpp info + bpp info ≤ bpp info * width info) by nia.
    assert (address info + (cursor_x t * bpp info + pitch info * cursor_y t) + y * pitch info + x * bpp info + k =
      address info + pitch info * (cursor_y t + y) + (cursor_x t + x) * bpp info + k) as -> by lia.
    lia.
Qed.

(** A write of a pixel of the character at the cursor. *)
Lemma write_rgb_frame t y x color m : term_inv t → 0 ≤ y < dims (format info) → 0 ≤ x < dims (format info) →
  same_outside info m (write_rgb_color (cursor_mem_address t + y * pitch info + x * bpp info) info color m).
Proof using Hfb.
  intros Ht Hy Hx. unfold write_rgb_color. case_bool_decide; [reflexivity|]. apply write_list_frame.
  intros z Hz. rewrite length_take in Hz. destruct (pixel_in_fb t y x (z - (cursor_mem_address t + y * pitch info + x * bpp info)) Ht Hy Hx) as [Ha Hin].
  - unfold bpp in *. lia.
  - rewrite Ha in *. unfold in_fb in *. lia.
Qed.

Lemma draw_row_ok t src color y x n m : term_inv t → format info ≠ Text → length src = 64%nat →
  0 ≤ y < 8 → 0 ≤ x → x + Z.of_nat n = 8 →
  ∃ m', draw_row info src color (cursor_mem_address t + y * pitch info) y x n m = Done (tt, m') ∧ same_outside info m m'.
Proof using Hfb.
  intros Ht Hf Hsrc Hy. assert (Hd : dims (format info) = 8) by (by destruct (format info)).
  revert x m. induction n as [|n IH]; intros x m Hx Hn; simpl; [by eexists|].
  unfold mbind, M_bind, liftM, modify.
  destruct (index_total src (Z.to_nat (y * 8 + x))) as (px & -> & _); [lia|]. destruct color as [[r g] b].
  assert (saturating usize_max (x * bpp info) = x * bpp info) as ->.
  { pose proof (pitch_nonneg). pose proof row_bytes_ok as [Hrb Hrb']. unfold row_bytes, saturating in *.
    destruct Hfb. assert (x * bpp info ≤ bpp info * width info) by (rewrite Hd in *; nia). lia. }
  destruct (IH (x + 1) (write_rgb_color (cursor_mem_address t + y * pitch info + x * bpp info) info (mix px r, mix px g, mix px b) m))
    as (m' & Hr & Hs); [lia..|].
  exists m'. split; [done|]. etransitivity; [|exact Hs]. apply write_rgb_frame; [done|lia..].
Qed.

Lemma draw_rows_ok t src color y n m : term_inv t → format info ≠ Text → length src = 64%nat →
  0 ≤ y → y + Z.of_nat n = 8 →
  ∃ m', draw_rows info src color 8 (cursor_mem_address t) y n m = Done (tt, m') ∧ same_outside info m m'.
Proof using Hfb.
  intros Ht Hf Hsrc. assert (Hd : dims (format info) = 8) by (by destruct (format info)).
  revert y m. induction n as [|n IH]; intros y m Hy Hn; cbn [draw_rows]; [by eexists|].
  assert (saturating usize_max (y * pitch info) = y * pitch info) as ->.
  { unfold saturating. pose proof (fb_height _ Hfb). destruct (row_offset y); [lia|]. destruct Hfb.
    rewrite Z.min_r; [done|]. unfold usize_max. lia. }
  unfold mbind, M_bind.
  destruct (draw_row_ok t src color y 0 8 m) as (m1 & -> & H1); [done|done|done|lia|lia|done|].
  destruct (IH (y + 1) m1) as (m2 & -> & H2); [lia..|]. exists m2. split; [done|]. by etransitivity.
Qed.

Lemma print_at_cursor_ok (t : Terminal) m chr color : term_inv t → 0 ≤ chr < 128 →
  ∃ m', print_at_cursor chr color (t, m) = Done (tt, (t, m')) ∧ same_outside info m m'.
Proof using Hfb.
  intros Ht Hchr. assert (Hd := Ht). destruct Hd as (Hi & Hw & Hh & _). unfold print_at_cursor, mbind, M_bind, get.
  cbn [fst snd]. rewrite Hi. destruct (format info) as [|rs rp gs gp bs bp] eqn:Hf.
  - eexists. split; [done|]. apply write_list_frame. intros x Hx. cbn [length] in Hx.
    pose proof (fb_text _ Hfb Hf) as Hb.
    destruct (pixel_in_fb t 0 0 (x - cursor_mem_address t) Ht) as [Ha Hin]; rewrite ?Hf; simpl; [lia..|].
    rewrite Ha in *. unfold in_fb in *. lia.
  - case_bool_decide as Hlen; [by eexists|].
    assert (∃ src, slice FONT_DATA (Z.to_nat (chr * 64)) (Z.to_nat (chr * 64 + 64)) = Done src) as [src Hsrc].
    { eexists. apply slice_total; lia. }
    rewrite Hsrc. pose proof (slice_length _ _ _ _ Hsrc) as Hls.
    unfold liftM, zoom. cbn [fst snd]. rewrite Hw, Hh. simpl dims.
    destruct (draw_rows_ok t src color 0 8 m) as (m' & Hm & Hs); [done|by rewrite Hf|lia|lia|done|].
    change (Z.to_nat 8) with 8%nat. rewrite Hm. by exists m'.
Qed.

Lemma carriage_return_ok (t : Terminal) m : term_inv t →
  ∃ t' m', carriage_return (t, m) = Done (tt, (t', m')) ∧ term_inv t' ∧ screen_cleared t' = screen_cleared t ∧ same_outside info m m'.
Proof using Hfb.
  intros Ht. pose proof (line_fits t Ht) as Hl. assert (Hd := Ht). destruct Hd as (Hi & Hw & Hh & Hx & Hy & Hdiv).
  pose proof (dims_pos (format info)) as Hpos.
  unfold carriage_return, scroll_fuel, mbind, M_bind, get, set_terminal, modify. cbn [fst snd scroll].
  assert (saturating u32_max (cursor_y t + character_height t) = cursor_y t + dims (format info)) as ->.
  { rewrite Hh. unfold saturating. destruct Hfb. lia. }
  unfold mbind, M_bind, get. cbn [fst snd set_cursor cursor_y term_framebuffer]. rewrite Hi.
  case_bool_decide as Hge.
  - unfold line_down, mbind, M_bind, get, liftM, put. cbn [fst snd set_cursor term_framebuffer cursor_y character_height cursor_x]. rewrite Hi, Hh.
    destruct (copy_row_up_frame (dims (format info)) m) as (m' & -> & Hs); [lia|].
    cbn [fst snd set_cursor cursor_y term_framebuffer].
    rewrite Hi, bool_decide_false by lia. eexists _, m'. split; [done|]. split_and!; [|done|done].
    unfold term_inv. cbn [term_framebuffer character_width character_height cursor_x cursor_y set_cursor].
    split_and!; try done; try lia. rewrite Z.max_r by lia.
    by replace (cursor_y t + dims (format info) - dims (format info)) with (cursor_y t) by lia.
  - eexists _, m. split; [done|]. split_and!; [|done|reflexivity].
    unfold term_inv. cbn [term_framebuffer character_width character_height cursor_x cursor_y set_cursor].
    split_and!; try done; try lia. apply Z.divide_add_r; [done|]. apply Z.divide_refl.
Qed.

(** The return does not look at the column. *)
Lemma carriage_return_any (t t0 : Terminal) m : term_inv t0 → t = set_cursor (cursor_x t) (cursor_y t0) t0 →
  ∃ t' m', carriage_return (t, m) = Done (tt, (t', m')) ∧ term_inv t' ∧ screen_cleared t' = screen_cleared t0 ∧ same_outside info m m'.
Proof using Hfb.
  intros Ht Heq. destruct (carriage_return_ok t0 m Ht) as (t' & m' & Hc & Hr). exists t', m'. split; [|done].
  rewrite <- Hc. rewrite Heq. done.
Qed.

Lemma print_char_ok (t : Terminal) m color chr : term_inv t → 0 ≤ chr →
  ∃ t' m', print_char color chr (t, m) = Done (tt, (t', m')) ∧ term_inv t' ∧ screen_cleared t' = screen_cleared t ∧ same_outside info m m'.
Proof using Hfb.
  intros Ht Hchr. unfold print_char. case_bool_decide as Ha; [by exists t, m|].
  case_bool_decide; [by apply carriage_return_ok|].
  destruct (print_at_cursor_ok t m chr color Ht) as (m1 & Hp & Hs1); [lia|].
  unfold mbind, M_bind. rewrite Hp. unfold get, liftM, set_terminal, modify. cbn [fst snd].
  assert (Hd := Ht). destruct Hd as (Hi & Hw & Hh & Hx & Hy & Hdiv). pose proof (dims_pos (format info)).
  rewrite Hi, Hw. rewrite bool_decide_true by lia. simpl debug_assert.
  assert (saturating u32_max (cursor_x t + dims (format info)) = cursor_x t + dims (format info)) as ->.
  { unfold saturating. destruct Hfb. lia. }
  destruct (bool_decide_reflect (cursor_x t + dims (format info) > Z.max 0 (width info - dims (format info)))) as [Hgt|Hle].
  - destruct (carriage_return_any (set_cursor (cursor_x t + dims (format info)) (cursor_y t) t) t m1) as (t' & m' & Hc & Hinv & Hsc & Hs); [done..|].
    cbn [snd]. rewrite Hc. exists t', m'. split_and!; [done..|]. by etransitivity.
  - eexists _, m1. split; [done|]. split_and!; [|done|done].
    unfold term_inv. cbn [term_framebuffer character_width character_height cursor_x cursor_y set_cursor].
    split_and!; try done; lia.
Qed.

Lemma print_sound (t : Terminal) m color message : term_inv t → Forall (λ c, 0 ≤ c) message →
  ∃ t' m', print message color (t, m) = Done (tt, (t', m')) ∧ term_inv t' ∧ screen_cleared t' = screen_cleared t ∧ same_outside info m m'.
Proof using Hfb.
  intros Ht Hm. revert t m Ht. induction Hm as [|c message Hc _ IH]; intros t m Ht; [by exists t, m|].
  unfold print. cbn [for_each]. unfold mbind, M_bind.
  destruct (print_char_ok t m color c Ht Hc) as (t1 & m1 & -> & Ht1 & Hsc1 & Hs1).
  destruct (IH t1 m1 Ht1) as (t2 & m2 & Hp & Ht2 & Hsc2 & Hs2). unfold print in Hp.
  exists t2, m2. split_and!; [done|done|congruence|]. by etransitivity.
Qed.

Lemma terminal_new_inv : term_inv (Terminal_new info).
Proof using Hfb.
  pose proof (dims_pos (format info)). destruct Hfb. unfold term_inv, Terminal_new, dims in *. simpl.
  split_and!; try done; try lia. apply Z.divide_0_r.
Qed.

Lemma terminal_write_sound (t : Terminal) m color message : term_inv t → Forall (λ c, 0 ≤ c) message →
  ∃ t' m', terminal_write color message (t, m) = Done (tt, (t', m')) ∧ term_inv t' ∧ screen_cleared t' = true ∧
    same_outside info m m'.
Proof using Hfb.
  intros Ht Hm. unfold terminal_write, mbind, M_bind, get. cbn [fst snd].
  destruct (screen_cleared t) eqn:Hsc; cbn [negb].
  - destruct (print_sound t m color message Ht Hm) as (t' & m' & Hp & Ht' & Hsc' & Hs).
    unfold mret, M_ret. rewrite Hp. exists t', m'. split_and!; [done|done|congruence|done].
  - unfold put. set (t1 := {| term_framebuffer := _ |}).
    destruct (print_sound t1 (clear_screen info m) color message) as (t' & m' & Hp & Ht' & Hsc' & Hs); [done..|].
    destruct Ht as (-> & _). rewrite Hp. exists t', m'. split_and!; [done..|].
    etransitivity; [|exact Hs]. apply clear_screen_frame.
Qed.

(** On a framebuffer that is inside the address space, has room for a
    character and a whole number of lines, writing a log message never panics
    nor loops, keeps the cursor on a whole character, and changes no byte of
    the memory outside of the framebuffer; in graphics as in text mode. *)
Theorem terminal_write_ok (t : Terminal) m color message : term_inv t → Forall (λ c, 0 ≤ c) message →
  ∃ t' m', terminal_write color message (t, m) = Done (tt, (t', m')) ∧ term_inv t' ∧ screen_cleared t' = true ∧
    same_outside info m m'.
Proof using Hfb. apply terminal_write_sound. Qed.

End safety.
