(* ===== verification/VideoSpec.v ===== *)
(** The terminal of the kernel in text mode, against its specification: a page
    of lines of characters that scrolls; and what happens on a screen whose
    height is not a whole number of lines. *)
From S2P Require Import Prelude Video.

#[local] Arguments Z.add : simpl never.
#[local] Arguments Z.mul : simpl never.
#[local] Arguments Z.sub : simpl never.

(** * The specification *)

(** A page: its lines, and where the next character goes. *)
Record Page := {
  lines : list (list Z);
  col : nat;
  row : nat;
}.

Section page.
Variables (w h : nat).

Definition blank_line : list Z := replicate w 0.
Definition blank_page : Page := {| lines := replicate h blank_line; col := 0; row := 0 |}.

(** To the next line; on the last one, the page moves up. *)
Definition newline (p : Page) : Page :=
  if bool_decide (S (row p) < h)%nat then {| lines := lines p; col := 0; row := S (row p) |}
  else {| lines := tail (lines p) ++ [blank_line]; col := 0; row := row p |}.

(** A cell of the screen: the character and its attributes. *)
Definition cell_of (attrs chr : Z) : Z := Z.lor chr (attrs ≪ 8).

Definition page_char (attrs : Z) (p : Page) (chr : Z) : Page :=
  if bool_decide (128 ≤ chr) then p
  else if bool_decide (chr = 10) then newline p
  else
    let p' := {| lines := alter (<[col p := cell_of attrs chr]>) (row p) (lines p); col := S (col p); row := row p |} in
    if bool_decide (S (col p) < w)%nat then p' else newline p'.

Definition page_print (attrs : Z) (message : list Z) (p : Page) : Page := foldl (page_char attrs) p message.

End page.

(** * What the memory shows *)

(** The byte [k] of the row [y], and the cell of the column [x]. *)
Definition fb_byte (info : FramebufferInfo) (m : memory) (y k : Z) : Z := m (address info + pitch info * y + k).
Definition fb_cell (info : FramebufferInfo) (m : memory) (y x : Z) : Z :=
  fb_byte info m y (2 * x) + 256 * fb_byte info m y (2 * x + 1).

(** The screen shows the lines. *)
Definition shows (info : FramebufferInfo) (m : memory) (l : list (list Z)) : Prop :=
  length l = Z.to_nat (height info) ∧
  ∀ y line, l !! y = Some line → length line = Z.to_nat (width info) ∧
    ∀ x c, line !! x = Some c → fb_cell info m (Z.of_nat y) (Z.of_nat x) = c.

Definition displays (info : FramebufferInfo) (t : Terminal) (m : memory) (p : Page) : Prop :=
  shows info m (lines p) ∧ cursor_x t = Z.of_nat (col p) ∧ cursor_y t = Z.of_nat (row p).

Section refine.
Context `{Font} (info : FramebufferInfo).
Hypothesis Hfb : fb_ok info.
Hypothesis Htext : format info = Text.

Local Abbreviation w := (Z.to_nat (width info)).
Local Abbreviation h := (Z.to_nat (height info)).

Lemma text_dims : dims (format info) = 1.
Proof using Htext. by rewrite Htext. Qed.

Lemma sizes : bpp info = 2 ∧ 1 ≤ width info ∧ 1 ≤ height info ∧ 2 * width info ≤ pitch info.
Proof using Hfb Htext.
  pose proof (fb_text _ Hfb Htext) as Hb. pose proof text_dims as Hd. destruct Hfb. rewrite Hd, Hb in *. lia.
Qed.

(** The bytes of a row. *)
Definition on_row (k : Z) : Prop := 0 ≤ k < 2 * width info.

Lemma same_byte y k y' k' : on_row k → on_row k' → pitch info * y + k = pitch info * y' + k' → y = y' ∧ k = k'.
Proof using Hfb Htext.
  pose proof sizes as (_ & _ & _ & Hp). unfold on_row. intros Hk Hk' Heq.
  assert (y = y') as -> by nia. lia.
Qed.

Lemma row_bytes_text : row_bytes info = 2 * width info.
Proof using Hfb Htext. destruct (row_bytes_ok info Hfb) as [-> _]. destruct sizes as [-> _]. done. Qed.

(** The effect of an operation on one row: the other rows keep their bytes. *)
Lemma write_row_byte y0 m y k : 0 ≤ y0 < height info → on_row k →
  fb_byte info (write_bytes (row_address info y0) 0 (row_bytes info) m) y k =
  if bool_decide (y = y0) then 0 else fb_byte info m y k.
Proof using Hfb Htext.
  intros Hy0 Hk. unfold fb_byte, write_bytes. rewrite (row_address_ok info Hfb) by done. rewrite row_bytes_text.
  unfold on_row in Hk. case_bool_decide as Hb.
  - rewrite bool_decide_true; [done|].
    destruct (same_byte y k y0 (pitch info * y + k - pitch info * y0)); unfold on_row; lia.
  - rewrite bool_decide_false; [done|]. intros ->. apply Hb. lia.
Qed.

Lemma copy_row_byte y0 m y k : 0 ≤ y0 → y0 + 1 < height info → on_row k →
  fb_byte info (copy_bytes (row_address info (y0 + 1)) (row_address info y0) (row_bytes info) m) y k =
  if bool_decide (y = y0) then fb_byte info m (y0 + 1) k else fb_byte info m y k.
Proof using Hfb Htext.
  intros Hy0 Hy1 Hk. unfold fb_byte, copy_bytes. rewrite !(row_address_ok info Hfb) by lia. rewrite row_bytes_text.
  unfold on_row in Hk. case_bool_decide as Hb.
  - assert (y = y0) as ->.
    { destruct (same_byte y k y0 (pitch info * y + k - pitch info * y0)); unfold on_row; lia. }
    rewrite bool_decide_true by done. f_equal. lia.
  - rewrite bool_decide_false; [done|]. intros ->. apply Hb. lia.
Qed.

(** Loops over the rows. *)
Lemma clear_rows_byte a n m y k : 0 ≤ a → a + Z.of_nat n ≤ height info → on_row k →
  fb_byte info (for_rows (λ y, write_bytes (row_address info y) 0 (row_bytes info)) a n m) y k =
  if bool_decide (a ≤ y < a + Z.of_nat n) then 0 else fb_byte info m y k.
Proof using Hfb Htext.
  revert a m. induction n as [|n IH]; intros a m Ha Hn Hk; cbn [for_rows].
  - by rewrite bool_decide_false by lia.
  - rewrite IH by (done || lia). rewrite write_row_byte by (done || lia).
    repeat case_bool_decide; done || lia.
Qed.

Lemma copy_rows_byte a n m y k : 0 ≤ a → a + Z.of_nat n < height info → on_row k →
  fb_byte info (for_rows (λ y, copy_bytes (row_address info (y + 1)) (row_address info y) (row_bytes info)) a n m) y k =
  if bool_decide (a ≤ y < a + Z.of_nat n) then fb_byte info m (y + 1) k else fb_byte info m y k.
Proof using Hfb Htext.
  revert a m. induction n as [|n IH]; intros a m Ha Hn Hk; cbn [for_rows].
  - by rewrite bool_decide_false by lia.
  - rewrite IH by (done || lia). rewrite !copy_row_byte by (done || lia).
    repeat case_bool_decide; subst; done || lia.
Qed.

Lemma on_row_cell x : (x < w)%nat → on_row (2 * Z.of_nat x) ∧ on_row (2 * Z.of_nat x + 1).
Proof. unfold on_row. lia. Qed.

Lemma shows_clear m : shows info (clear_screen info m) (replicate h (blank_line w)).
Proof using Hfb Htext.
  split; [by rewrite length_replicate|]. intros y line [-> Hy]%lookup_replicate. unfold blank_line.
  split; [by rewrite length_replicate|]. intros x c [-> Hx]%lookup_replicate.
  destruct (on_row_cell x Hx). unfold fb_cell, clear_screen. rewrite !clear_rows_byte by (done || lia).
  by rewrite bool_decide_true by lia.
Qed.

Lemma shows_scroll m l : shows info m l →
  ∃ m', copy_row_up info 1 m = Done m' ∧ shows info m' (tail l ++ [blank_line w]).
Proof using Hfb Htext.
  intros [Hl Hs]. pose proof sizes as (_ & _ & Hh & _). unfold copy_row_up. rewrite bool_decide_false by done.
  rewrite (proj2 (uint_checked_Done _ _ (height info - 1))) by (destruct Hfb; unfold usize_max, u64_max, u32_max in *; lia).
  cbn [mbind outcome_bind]. eexists. split; [done|].
  destruct l as [|l0 l]; [simpl in Hl; lia|]. cbn [tail length] in *. split; [rewrite length_app; simpl; lia|].
  intros y line Hy.
  assert (Hcell : ∀ x, (x < w)%nat → ∀ m',
    m' = for_rows (λ y, write_bytes (row_address info y) 0 (row_bytes info)) (height info - 1) (Z.to_nat 1)
      (for_rows (λ y, copy_bytes (row_address info (y + 1)) (row_address info y) (row_bytes info)) 0 (Z.to_nat (height info - 1)) m) →
    fb_cell info m' (Z.of_nat y) (Z.of_nat x) =
    if bool_decide (Z.of_nat y = height info - 1) then 0
    else if bool_decide (Z.of_nat y < height info - 1) then fb_cell info m (Z.of_nat (S y)) (Z.of_nat x) else fb_cell info m (Z.of_nat y) (Z.of_nat x)).
  { intros x Hx m' ->. destruct (on_row_cell x Hx). unfold fb_cell.
    rewrite !clear_rows_byte by (done || lia). rewrite !copy_rows_byte by (done || lia).
    replace (Z.of_nat (S y)) with (Z.of_nat y + 1) by lia.
    repeat case_bool_decide; done || lia. }
  apply lookup_app_Some in Hy as [Hy|[Hy Hlast]].
  - assert (y < length l)%nat by (by eapply lookup_lt_Some).
    destruct (Hs (S y) line Hy) as [Hlen Hc]. split; [done|]. intros x c Hx.
    rewrite (Hcell x) by (done || (apply lookup_lt_Some in Hx; lia)).
    rewrite bool_decide_false, bool_decide_true by lia. by apply Hc.
  - apply list_lookup_singleton_Some in Hlast as [Hy0 <-]. unfold blank_line. split; [by rewrite length_replicate|].
    intros x c [-> Hx]%lookup_replicate. rewrite (Hcell x) by done. by rewrite bool_decide_true by lia.
Qed.

Lemma fb_byte_write m y0 x0 v y k : on_row k → (x0 < w)%nat →
  fb_byte info (write_list (address info + pitch info * y0 + 2 * Z.of_nat x0) [v mod 256; v / 256] m) y k =
  if bool_decide (y = y0 ∧ k = 2 * Z.of_nat x0) then v mod 256
  else if bool_decide (y = y0 ∧ k = 2 * Z.of_nat x0 + 1) then v / 256
  else fb_byte info m y k.
Proof using Hfb Htext.
  intros Hk Hx0. destruct (on_row_cell x0 Hx0) as [H0 H1]. unfold fb_byte. cbn [write_list]. unfold write_bytes.
  destruct (bool_decide_reflect (y = y0 ∧ k = 2 * Z.of_nat x0)) as [[-> ->]|Hn].
  - rewrite bool_decide_false by lia. by rewrite bool_decide_true by lia.
  - destruct (bool_decide_reflect (y = y0 ∧ k = 2 * Z.of_nat x0 + 1)) as [[-> ->]|Hn'].
    + by rewrite bool_decide_true by lia.
    + rewrite bool_decide_false; [rewrite bool_decide_false; [done|]|].
      * intros Hb. apply Hn. apply same_byte; [done..|lia].
      * intros Hb. apply Hn'. apply same_byte; [done..|lia].
Qed.

Lemma shows_put m l (y x : nat) v : shows info m l → (x < w)%nat →
  shows info (write_list (address info + pitch info * Z.of_nat y + 2 * Z.of_nat x) [v mod 256; v / 256] m)
    (alter (<[x := v]>) y l).
Proof using Hfb Htext.
  intros [Hl Hs] Hx. split; [by rewrite length_alter|].
  intros y' line Hline.
  assert (Hcell : ∀ x', (x' < w)%nat →
    fb_cell info (write_list (address info + pitch info * Z.of_nat y + 2 * Z.of_nat x) [v mod 256; v / 256] m) (Z.of_nat y') (Z.of_nat x')
    = if bool_decide (y' = y ∧ x' = x) then v else fb_cell info m (Z.of_nat y') (Z.of_nat x')).
  { intros x' Hx'. destruct (on_row_cell x' Hx'). unfold fb_cell. rewrite !fb_byte_write by done.
    destruct (bool_decide_reflect (y' = y ∧ x' = x)) as [[-> ->]|Hne].
    - rewrite (bool_decide_true (_ ∧ 2 * Z.of_nat x = 2 * Z.of_nat x)) by lia.
      rewrite (bool_decide_false (_ ∧ 2 * Z.of_nat x + 1 = 2 * Z.of_nat x)) by lia.
      rewrite (bool_decide_true (_ ∧ 2 * Z.of_nat x + 1 = _)) by lia.
      pose proof (Z.div_mod v 256). lia.
    - rewrite !(bool_decide_false (Z.of_nat y' = Z.of_nat y ∧ _)) by lia. done. }
  destruct (decide (y' = y)) as [->|Hne].
  - rewrite list_lookup_alter_eq in Hline. apply fmap_Some in Hline as (line0 & Hl0 & ->).
    destruct (Hs y line0 Hl0) as [Hlen Hc]. split; [by rewrite length_insert|]. intros x' c Hx'.
    assert (x' < w)%nat by (apply lookup_lt_Some in Hx'; rewrite length_insert in Hx'; lia).
    rewrite Hcell by done. destruct (decide (x' = x)) as [->|Hnx].
    + rewrite bool_decide_true by done. rewrite list_lookup_insert_eq in Hx' by lia. by simplify_eq.
    + rewrite bool_decide_false by naive_solver. rewrite list_lookup_insert_ne in Hx' by done. by apply Hc.
  - rewrite list_lookup_alter_ne in Hline by done. destruct (Hs y' line Hline) as [Hlen Hc]. split; [done|].
    intros x' c Hx'. rewrite Hcell by (apply lookup_lt_Some in Hx'; lia).
    rewrite bool_decide_false by naive_solver. by apply Hc.
Qed.

(** A return, from any column. *)
Lemma carriage_return_refines t m p : character_height t = 1 → term_framebuffer t = info → 0 ≤ cursor_y t < height info →
  shows info m (lines p) → cursor_y t = Z.of_nat (row p) →
  ∃ t' m', carriage_return (t, m) = Done (tt, (t', m')) ∧ displays info t' m' (newline w h p) ∧
    screen_cleared t' = screen_cleared t ∧
    term_framebuffer t' = info ∧ character_height t' = 1 ∧ character_width t' = character_width t.
Proof using Hfb Htext.
  intros Hch Hi Hy Hs Hrow. pose proof sizes as (_ & _ & Hh & _).
  unfold carriage_return, scroll_fuel, mbind, M_bind, get, set_terminal, modify. cbn [fst snd scroll].
  assert (saturating u32_max (cursor_y t + character_height t) = cursor_y t + 1) as ->.
  { rewrite Hch. unfold saturating. destruct Hfb. lia. }
  unfold mbind, M_bind, get. cbn [fst snd set_cursor cursor_y term_framebuffer]. rewrite Hi. unfold newline.
  case_bool_decide as Hge.
  - rewrite bool_decide_false by lia.
    unfold line_down, mbind, M_bind, get, liftM, put.
    cbn [fst snd set_cursor term_framebuffer cursor_y character_height cursor_x]. rewrite Hi, Hch.
    destruct (shows_scroll m (lines p) Hs) as (m' & -> & Hs').
    cbn [fst snd set_cursor cursor_y term_framebuffer]. rewrite Hi, bool_decide_false by lia.
    eexists _, m'. split; [done|]. split_and!; try done. split_and!; [done..|]. simpl. lia.
  - rewrite bool_decide_true by lia. eexists _, m. split; [done|]. split_and!; try done. split_and!; [done..|]. simpl. lia.
Qed.

(** The terminal and the page agree, and the terminal is in its range. *)
Definition agree (t : Terminal) (m : memory) (p : Page) : Prop :=
  displays info t m p ∧ term_framebuffer t = info ∧ character_width t = 1 ∧ character_height t = 1 ∧
  0 ≤ cursor_x t < width info ∧ 0 ≤ cursor_y t < height info.

Lemma newline_bounds p : (row p < h)%nat → (col (newline w h p) = 0 ∧ row (newline w h p) < h)%nat.
Proof. unfold newline. case_bool_decide; simpl; lia. Qed.

Lemma return_agrees t m p : character_width t = 1 → character_height t = 1 → term_framebuffer t = info →
  0 ≤ cursor_y t < height info → shows info m (lines p) → cursor_y t = Z.of_nat (row p) →
  ∃ t' m', carriage_return (t, m) = Done (tt, (t', m')) ∧ agree t' m' (newline w h p) ∧ screen_cleared t' = screen_cleared t.
Proof using Hfb Htext.
  intros Hcw Hch Hi Hy Hs Hrow. pose proof sizes as (_ & Hw & Hh & _).
  destruct (carriage_return_refines t m p) as (t' & m' & Hc & Hd & Hsc & Hi' & Hch' & Hcw'); [done..|].
  exists t', m'. split; [done|]. split; [|done]. assert (Hd' := Hd). destruct Hd' as (_ & Hx' & Hy').
  destruct (newline_bounds p) as [Hb1 Hb2]; [lia|]. split_and!; try done; try congruence; lia.
Qed.

Lemma print_char_refines t m p color chr : agree t m p → 0 ≤ chr →
  ∃ t' m', print_char color chr (t, m) = Done (tt, (t', m')) ∧
    agree t' m' (page_char w h (term_color color) p chr) ∧ screen_cleared t' = screen_cleared t.
Proof using Hfb Htext.
  intros Ha Hchr. assert (Hag := Ha). destruct Ha as ((Hs & Hx & Hy) & Hi & Hcw & Hch & Hcx & Hcy).
  pose proof sizes as (Hb & Hw & Hh & Hp). unfold print_char, page_char.
  case_bool_decide; [by exists t, m|].
  case_bool_decide; [by apply return_agrees|].
  unfold print_at_cursor, mbind, M_bind, get, on_memory, modify, liftM, set_terminal. cbn [fst snd]. rewrite Hi, Htext.
  cbn [fst snd]. rewrite Hcw. rewrite Hi.
  set (v := Z.lor chr (term_color color ≪ 8)). fold (cell_of (term_color color) chr) in v.
  assert (cursor_mem_address t = address info + pitch info * Z.of_nat (row p) + 2 * Z.of_nat (col p)) as ->.
  { destruct (row_offset info Hfb (cursor_y t) Hcy). unfold cursor_mem_address. rewrite Hi. fold (bpp info). rewrite Hb.
    destruct Hfb. unfold saturating, usize_max. rewrite !Z.min_r by lia. lia. }
  pose proof (shows_put m (lines p) (row p) (col p) v Hs ltac:(lia)) as Hs'.
  rewrite (bool_decide_true (cursor_x t < width info)) by lia. cbn [debug_assert].
  assert (saturating u32_max (cursor_x t + 1) = cursor_x t + 1) as -> by (unfold saturating; destruct Hfb; lia).
  destruct (bool_decide_reflect (cursor_x t + 1 > Z.max 0 (width info - 1))) as [Hgt|Hle].
  - rewrite bool_decide_false by lia. cbn [snd].
    apply (return_agrees (set_cursor (cursor_x t + 1) (cursor_y t) t) _
      {| lines := alter (<[col p := v]>) (row p) (lines p); col := S (col p); row := row p |}); done.
  - rewrite bool_decide_true by lia. cbn [snd]. eexists _, _. split; [done|]. split; [|done].
    split_and!; try done; simpl; try lia. split_and!; [done|simpl; lia|done].
Qed.

Lemma print_refines t m p color message : agree t m p → Forall (λ c, 0 ≤ c) message →
  ∃ t' m', print message color (t, m) = Done (tt, (t', m')) ∧
    agree t' m' (page_print w h (term_color color) message p) ∧ screen_cleared t' = screen_cleared t.
Proof using Hfb Htext.
  intros Ha Hm. revert t m p Ha. induction Hm as [|c message Hc _ IH]; intros t m p Ha; [by exists t, m|].
  unfold print. cbn [for_each]. unfold mbind, M_bind.
  destruct (print_char_refines t m p color c Ha Hc) as (t1 & m1 & -> & Ha1 & Hsc1).
  destruct (IH t1 m1 _ Ha1) as (t2 & m2 & Hp & Ha2 & Hsc2). exists t2, m2. split_and!; [done|done|congruence].
Qed.

Lemma agree_inv t m p : agree t m p → term_inv info t.
Proof using Hfb Htext.
  intros (_ & Hi & Hcw & Hch & Hx & Hy). unfold term_inv. rewrite text_dims. split_and!; try done; try lia. apply Z.divide_1_l.
Qed.

(** What is on the screen before a message. *)
Definition ready (t : Terminal) (m : memory) (p : Page) : Prop :=
  (screen_cleared t = true ∧ agree t m p) ∨ (t = Terminal_new info ∧ p = blank_page w h).

Lemma terminal_write_refines t m p color message : ready t m p → Forall (λ c, 0 ≤ c) message →
  ∃ t' m', terminal_write color message (t, m) = Done (tt, (t', m')) ∧
    screen_cleared t' = true ∧ agree t' m' (page_print w h (term_color color) message p).
Proof using Hfb Htext.
  pose proof sizes as (_ & Hw & Hh & _).
  intros [[Hsc Ha]|[-> ->]] Hm; unfold terminal_write, mbind, M_bind, get; cbn [fst snd].
  - rewrite Hsc. cbn [negb]. unfold mret, M_ret.
    destruct (print_refines t m p color message Ha Hm) as (t' & m' & Hp & Ha' & Hsc'). rewrite Hp.
    exists t', m'. split_and!; [done|congruence|done].
  - cbn [screen_cleared Terminal_new negb]. unfold put.
    match goal with |- context [print message color (?t, ?m)] =>
      destruct (print_refines t m (blank_page w h) color message) as (t' & m' & Hp & Ha' & Hsc') end.
    { unfold agree, displays. cbn [term_framebuffer character_width character_height cursor_x cursor_y Terminal_new lines row col blank_page].
      rewrite Htext. split_and!; try done; try lia; apply shows_clear. }
    { done. }
    rewrite Hp. exists t', m'. split_and!; [done|by rewrite Hsc'|done].
Qed.

Definition page_log (p : Page) (msg : Color * list Z) : Page := page_print w h (term_color (fst msg)) (snd msg) p.

Lemma klog_writes t m p (msgs : list (Color * list Z)) : ready t m p → term_inv info t → Forall (λ msg, Forall (λ c, 0 ≤ c) (snd msg)) msgs →
  ∃ t' m', for_each (λ msg, klog_write_str (fst msg) (snd msg)) msgs (Enabled (Some t), m) =
      Done (tt, (Enabled (Some t'), m')) ∧ ready t' m' (foldl page_log p msgs) ∧ same_outside info m m' ∧
    (msgs ≠ [] → screen_cleared t' = true).
Proof using Hfb Htext.
  intros Hr Hinv Hm. revert t m p Hr Hinv. induction Hm as [|[color msg] msgs Hc _ IH]; intros t m p Hr Hinv.
  { exists t, m. by split_and!. }
  cbn [for_each]. unfold mbind, M_bind.
  destruct (terminal_write_refines t m p color msg Hr Hc) as (t1 & m1 & Hw & Hsc & Ha).
  destruct (terminal_write_sound info Hfb t m color msg Hinv Hc) as (t1' & m1' & Hw' & Hinv1 & _ & Hs1).
  rewrite Hw in Hw'. injection Hw' as <- <-.
  unfold klog_write_str at 1, mbind, M_bind, get, zoom. cbn [fst snd]. rewrite Hw. cbn [fst snd].
  destruct (IH t1 m1 (page_log p (color, msg))) as (t2 & m2 & Hf & Hr2 & Hs2 & Hsc2); [by left|done|].
  exists t2, m2. split_and!; [done|done|by etransitivity|]. intros _. destruct msgs; [|by apply Hsc2].
  injection Hf as <- <-. done.
Qed.

(** C28: In text mode, what the screen shows after any sequence of log and
    panic messages is what a terminal of the same size shows: a page on which
    the characters are written one after the other with the attributes closest
    to the colour of the message, that goes to the next line at the end of a
    line or on a line feed, moves up by one line when it is full, and ignores
    what is not ASCII.  The memory outside of the framebuffer is not touched. *)
Theorem klog_refines (m : memory) (msgs : list (Color * list Z)) :
  msgs ≠ [] → Forall (λ msg, Forall (λ c, 0 ≤ c) (snd msg)) msgs →
  ∃ t m', for_each (λ msg, klog_write_str (fst msg) (snd msg)) msgs
      (KLogger_new {| enabled := true; framebuffer := Some info; uart := None |}, m) =
      Done (tt, (Enabled (Some t), m')) ∧
    displays info t m' (foldl page_log (blank_page w h) msgs) ∧ same_outside info m m'.
Proof using Hfb Htext.
  intros Hne Hm. destruct (klog_writes (Terminal_new info) m (blank_page w h) msgs) as (t & m' & Hf & Hr & Hs & Hsc);
    [by right|by apply terminal_new_inv|done|].
  exists t, m'. split; [done|]. split; [|done]. destruct Hr as [[_ [Hd _]]|[-> _]]; [done|].
  by specialize (Hsc Hne).
Qed.

End refine.

(** * Screens that do not fit *)

(** On a screen that is smaller than a line, the first line feed panics. *)
Theorem short_screen_panics `{Font} (info : FramebufferInfo) m :
  0 ≤ height info < dims (format info) →
  carriage_return (Terminal_new info, m) = Panic POverflow.
Proof.
  intros Hh. unfold carriage_return, scroll_fuel, mbind, M_bind, get, set_terminal, modify. cbn [fst snd scroll].
  unfold mbind, M_bind, get. cbn [fst snd set_cursor cursor_y term_framebuffer Terminal_new character_height].
  fold (dims (format info)). assert (saturating u32_max (0 + dims (format info)) = dims (format info)) as ->.
  { by destruct (format info). }
  rewrite bool_decide_true by lia. unfold line_down, mbind, M_bind, get, liftM.
  cbn [fst snd set_cursor cursor_y term_framebuffer character_height]. unfold copy_row_up.
  change (character_height (Terminal_new info)) with (dims (format info)).
  change (term_framebuffer (Terminal_new info)) with info.
  rewrite bool_decide_false by lia. unfold uint_checked.
  rewrite (proj2 (uint_try_from_None _ _)) by lia. done.
Qed.

(** In graphics mode, on a screen whose height is not a multiple of the height
    of a character (12 rows here, as the 900 rows of a 1440x900 screen), a
    character of the last line is drawn past the end of the framebuffer. *)
Definition odd_screen : FramebufferInfo :=
  {| address := 1000; width := 8; height := 12; pitch := 8; bytes_per_character := 1; format := Rgb 8 0 8 0 8 0 |}.

Theorem graphics_writes_outside :
  let font : Font := {| FONT_DATA := replicate 8192 255 |} in
  let outside := 1000 + 8 * 12 in
  ∃ t m, terminal_write log_color [10; 65] (Terminal_new odd_screen, λ _, 7) = Done (tt, (t, m)) ∧
    ¬ in_fb odd_screen outside ∧ m outside ≠ 7.
Proof.
  cbv zeta.
  set (r := terminal_write log_color [10; 65] (Terminal_new odd_screen, λ _, 7)).
  assert (Hm : (match r with Done (_, (_, m)) => m 1096 | _ => 7 end) = 0xdd) by (vm_compute; reflexivity).
  destruct r as [[[] [t m]]| |] eqn:Hr; [|discriminate Hm..].
  exists t, m. split_and!; [done|unfold in_fb; simpl; lia|]. change (1000 + 8 * 12) with 1096. by rewrite Hm.
Qed.
