(* ===== verification/Arm.v ===== *)
(** The ARM platform of the standalone kernel ([arch/arm/time_arm.rs],
    [arch/arm/executor.rs] and the methods of [arch/arm.rs]).

    A [usize] has 32 bits here.  The spinlock around the list of timers is free
    at each call.  What the physical counter reads at a poll is an argument.
    The hardware timer is its two registers. *)
From S2P Require Import Prelude.
From Stdlib Require Import Sorted.

Abbreviation Waker := nat (only parsing).

(** * Time *)

Definition CNTFRQ : Z := 0x80000000.
Definition u128_max : Z := 2 ^ 128 - 1.
Definition usize32_max : Z := u32_max.

Record Timer := {
  timer_id : Z;
  timer_counter_value : Z;
  timer_waker : option Waker;
}.

(** [TimeControl], and the registers [CNTP_CTL] and [CNTP_CVAL]. *)
Record TimeControl := {
  timers : list Timer;
  next_timer_id : Z;
  cntp_ctl : Z;
  cntp_cval : Z;
}.

Record TimerFuture := {
  fut_id : option Z;
  fut_value : Z;
}.

Definition set_timers (l : list Timer) (t : TimeControl) : TimeControl :=
  {| timers := l; next_timer_id := next_timer_id t; cntp_ctl := cntp_ctl t; cntp_cval := cntp_cval t |}.
Definition set_next_id (n : Z) (t : TimeControl) : TimeControl :=
  {| timers := timers t; next_timer_id := n; cntp_ctl := cntp_ctl t; cntp_cval := cntp_cval t |}.
Definition set_hardware (ctl cval : Z) (t : TimeControl) : TimeControl :=
  {| timers := timers t; next_timer_id := next_timer_id t; cntp_ctl := ctl; cntp_cval := cval |}.

Definition time_init (ctl cval : Z) : TimeControl :=
  {| timers := []; next_timer_id := 1; cntp_ctl := ctl; cntp_cval := cval |}.

(** [physical_counter], on the two words that are read. *)
Definition physical_counter (lo hi : Z) : Z := Z.lor (hi ≪ 32) lo.

Definition monotonic_clock (counter_value : Z) : outcome Z :=
  p ← uint_checked u128_max (1000000000 * counter_value);
  mret (p / CNTFRQ).

Definition timer (deadline : Z) : outcome TimerFuture :=
  p ← uint_checked u128_max (deadline * CNTFRQ);
  mret {| fut_id := None; fut_value := default u64_max (u64_try_from (p / 1000000000)) |}.

(** [mcrr] writes the two words of the register. *)
Definition update_hardware : M TimeControl unit :=
  t ← get;
  match timers t with
  | [] => put (set_hardware 0 (cntp_cval t) t)
  | first :: _ =>
      lo ← liftM (unwrap (u32_try_from (Z.land (timer_counter_value first) 0xffffffff)));
      hi ← liftM (unwrap (u32_try_from (timer_counter_value first ≫ 32)));
      put (set_hardware 1 (Z.lor (hi ≪ 32) lo) t)
  end.

(** [timers.iter_mut().find(|t| t.id == id).unwrap().waker = waker]. *)
Fixpoint set_waker (id : Z) (waker : Waker) (l : list Timer) : outcome (list Timer) :=
  match l with
  | [] => Panic PUnwrap
  | t :: l =>
      if bool_decide (timer_id t = id)
      then Done ({| timer_id := timer_id t; timer_counter_value := timer_counter_value t; timer_waker := Some waker |} :: l)
      else l ← set_waker id waker l; mret (t :: l)
  end.

(** [fetch_add], and the two assertions. *)
Definition assign_timer_id : M TimeControl Z :=
  t ← get;
  let assigned_id := next_timer_id t in
  _ ← put (set_next_id ((assigned_id + 1) mod (usize32_max + 1)) t);
  _ ← liftM (assert_ (negb (bool_decide (assigned_id = usize32_max))));
  _ ← liftM (assert_ (negb (bool_decide (assigned_id = 0))));
  mret assigned_id.

Definition insert_timer (to_insert : Timer) : M TimeControl unit :=
  t ← get;
  match list_find (λ x, timer_counter_value to_insert < timer_counter_value x) (timers t) with
  | Some (pos, _) =>
      _ ← put (set_timers (take pos (timers t) ++ to_insert :: drop pos (timers t)) t);
      if bool_decide (pos = 0%nat) then update_hardware else mret tt
  | None =>
      let was_empty := bool_decide (timers t = []) in
      _ ← put (set_timers (timers t ++ [to_insert]) t);
      if was_empty then update_hardware else mret tt
  end.

(** [poll]: whether the timer is over. *)
Definition timer_poll (cnt_value : Z) (waker : Waker) (this : TimerFuture) : M TimeControl (bool * TimerFuture) :=
  if bool_decide (fut_value this ≤ cnt_value) then mret (true, this) else
  match fut_id this with
  | Some id =>
      t ← get;
      l ← liftM (set_waker id waker (timers t));
      _ ← put (set_timers l t);
      mret (false, this)
  | None =>
      assigned_id ← assign_timer_id;
      _ ← insert_timer {| timer_id := assigned_id; timer_counter_value := fut_value this; timer_waker := Some waker |};
      mret (false, {| fut_id := Some assigned_id; fut_value := fut_value this |})
  end.

Definition timer_drop (this : TimerFuture) : M TimeControl unit :=
  match fut_id this with
  | None => mret tt
  | Some my_id =>
      t ← get;
      match list_find (λ x, timer_id x = my_id) (timers t) with
      | Some (pos, _) =>
          _ ← put (set_timers (delete pos (timers t)) t);
          if bool_decide (pos = 0%nat) then update_hardware else mret tt
      | None => mret tt
      end
  end.

(** * The platform *)

Definition num_cpus : Z := 1.

(** The ports: [PortErr::Unsupported]. *)
Definition write_port (port value : Z) : option unit := None.
Definition read_port (port : Z) : option Z := None.

(** * The executor *)

(** Where the processor is in [block_on]: polling the future, checking the
    flag, in [wfe], or done. *)
Inductive Pc := PcPoll | PcCheck | PcWfe | PcDone.

(** The flag of the task, the event register of the processor, and the number of
    wakes that have set the flag and have not yet sent the event. *)
Record Exec := {
  pc : Pc;
  woken_up : bool;
  event : bool;
  wakes : nat;
}.

Definition exec_init : Exec := {| pc := PcPoll; woken_up := false; event := false; wakes := 0 |}.

Definition at_pc (p : Pc) (s : Exec) : Exec := {| pc := p; woken_up := woken_up s; event := event s; wakes := wakes s |}.

(** A step of the processor; [ready] says whether the future is ready when it is
    polled.  [wfe] ends when the event register is set, and clears it. *)
Definition cpu_step (ready : bool) (s : Exec) : Exec :=
  match pc s with
  | PcPoll => at_pc (if ready then PcDone else PcCheck) s
  | PcCheck =>
      if woken_up s then {| pc := PcPoll; woken_up := false; event := event s; wakes := wakes s |}
      else at_pc PcWfe s
  | PcWfe => if event s then {| pc := PcCheck; woken_up := woken_up s; event := false; wakes := wakes s |} else s
  | PcDone => s
  end.

(** [wake_by_ref]: the store, then [sev], by any processor or interrupt. *)
Definition wake_store (s : Exec) : Exec := {| pc := pc s; woken_up := true; event := event s; wakes := S (wakes s) |}.
Definition wake_sev (s : Exec) : Exec :=
  match wakes s with
  | O => s
  | S n => {| pc := pc s; woken_up := woken_up s; event := true; wakes := n |}
  end.

(** What happens: a step of the processor, of a wake, or another event, which
    any processor or device can send. *)
Inductive Happening := Cpu (ready : bool) | Store | Sev | OtherEvent.

Definition happen (s : Exec) (h : Happening) : Exec :=
  match h with
  | Cpu ready => cpu_step ready s
  | Store => wake_store s
  | Sev => wake_sev s
  | OtherEvent => {| pc := pc s; woken_up := woken_up s; event := true; wakes := wakes s |}
  end.
