(* ===== verification/ArmInv.v ===== *)
(** Theorems on the ARM platform ([Arm.v]): the timers of any number of
    futures, the clock, and the wake-ups of the executor. *)
From stdpp Require Import sorting.
From S2P Require Import Prelude Arm.

(** * The list of timers *)

Definition before (t u : Timer) : Prop := timer_counter_value t ≤ timer_counter_value u.
Definition value_ok (v : Z) : Prop := 0 ≤ v ≤ u64_max.

(** The hardware timer is that of the first timer. *)
Definition armed (t : TimeControl) : Prop :=
  match timers t with
  | [] => True
  | first :: _ => cntp_ctl t = 1 ∧ cntp_cval t = timer_counter_value first
  end.

Record list_ok (l : list Timer) (next : Z) : Prop := {
  lo_sorted : StronglySorted before l;
  lo_ids : NoDup (timer_id <$> l);
  lo_range : Forall (λ t, 0 < timer_id t < next ∧ value_ok (timer_counter_value t)) l;
}.

Record time_ok (t : TimeControl) : Prop := {
  to_list : list_ok (timers t) (next_timer_id t);
  to_next : 1 ≤ next_timer_id t;
  to_armed : armed t;
}.

Lemma words_value v : value_ok v → Z.lor ((v ≫ 32) ≪ 32) (Z.land v 0xffffffff) = v.
Proof.
  intros [Hv1 Hv2]. change 0xffffffff with (2 ^ 32 - 1). rewrite land_low by done. pose proof (Z.mod_pos_bound v (2 ^ 32)).
  rewrite lor_disjoint_add; [|by apply Z.shiftr_nonneg|lia|done]. rewrite Z.shiftr_div_pow2 by done.
  pose proof (Z.div_mod v (2 ^ 32)). lia.
Qed.

Lemma update_run t first l : timers t = first :: l → value_ok (timer_counter_value first) →
  update_hardware t = Done (tt, set_hardware 1 (timer_counter_value first) t).
Proof.
  intros Ht Hv. unfold update_hardware. erewrite bind_run by done. rewrite Ht.
  erewrite bind_run; cycle 1.
  { unfold liftM. change 0xffffffff with (2 ^ 32 - 1). rewrite land_low, unwrap_try_from; [done| |done].
    pose proof (Z.mod_pos_bound (timer_counter_value first) (2 ^ 32)). unfold u32_max. lia. }
  erewrite bind_run; cycle 1.
  { unfold liftM. rewrite unwrap_try_from; [done|]. destruct Hv as [H1 H2]. rewrite Z.shiftr_div_pow2 by done.
    unfold u64_max, u32_max in *. split; [apply Z.div_pos; lia|]. apply Z.lt_succ_r, Z.div_lt_upper_bound; lia. }
  unfold put. do 3 f_equal. rewrite <- (words_value (timer_counter_value first)) at 3 by done. change 0xffffffff with (2 ^ 32 - 1). by rewrite land_low by done.
Qed.

(** The list with its first timer at the hardware. *)
Lemma update_armed t next : list_ok (timers t) next → ∃ ctl cval,
  update_hardware t = Done (tt, set_hardware ctl cval t) ∧ armed (set_hardware ctl cval t).
Proof.
  intros [_ _ Hr]. destruct (timers t) as [|first l] eqn:Ht.
  - exists 0, (cntp_cval t). unfold update_hardware. erewrite bind_run by done. rewrite Ht. split; [done|]. unfold armed. cbn. by rewrite Ht.
  - apply Forall_cons in Hr as [[_ Hv] _]. exists 1, (timer_counter_value first). split; [by eapply update_run|]. unfold armed. cbn. by rewrite Ht.
Qed.

(** ** Insertion *)

Definition inserted (x : Timer) (l : list Timer) : list Timer :=
  match list_find (λ y, timer_counter_value x < timer_counter_value y) l with
  | Some (pos, _) => take pos l ++ x :: drop pos l
  | None => l ++ [x]
  end.

Lemma inserted_perm x l : inserted x l ≡ₚ x :: l.
Proof.
  unfold inserted. destruct (list_find _ l) as [[pos y]|]; [|by rewrite Permutation_app_comm].
  rewrite <- Permutation_middle. by rewrite take_drop.
Qed.

Lemma inserted_sorted x l : StronglySorted before l → StronglySorted before (inserted x l).
Proof.
  intros Hs. unfold inserted. destruct (list_find _ l) as [[pos y]|] eqn:Hf.
  - apply list_find_Some in Hf as (Hy & Hlt & Hno). pose proof (lookup_lt_Some _ _ _ Hy).
    rewrite <- (take_drop pos l) in Hs.
    assert (Hhead : drop pos l = y :: drop (S pos) l) by (by apply drop_S).
    apply StronglySorted_app in Hs as (Hcross & Hs1 & Hs2). apply StronglySorted_app. split_and!; [|done|].
    + intros a b Ha [->|Hb]%elem_of_cons; [|by apply Hcross].
      apply list_elem_of_lookup in Ha as [i Hi]. apply lookup_take_Some in Hi as [Hi Hlt']. unfold before. pose proof (Hno i a Hi Hlt'). lia.
    + constructor; [done|]. rewrite Hhead in *. apply StronglySorted_inv in Hs2 as [_ Hall]. constructor; [unfold before; lia|].
      eapply Forall_impl; [exact Hall|]. unfold before. intros z. lia.
  - apply list_find_None in Hf. apply StronglySorted_app. split_and!; [|done|repeat constructor].
    intros a b Ha Hb. apply list_elem_of_singleton in Hb as ->. rewrite Forall_forall in Hf. unfold before. specialize (Hf a Ha). simpl in Hf. lia.
Qed.

Lemma inserted_ok x l next : list_ok l next → timer_id x = next → 0 < next → value_ok (timer_counter_value x) →
  list_ok (inserted x l) (next + 1).
Proof.
  intros [Hs Hid Hr] Hx Hn Hv. split.
  - by apply inserted_sorted.
  - rewrite inserted_perm. cbn. apply NoDup_cons. split; [|done]. intros (t & Ht & Hin)%list_elem_of_fmap.
    rewrite Forall_forall in Hr. destruct (Hr t Hin) as [? _]. lia.
  - rewrite inserted_perm. apply Forall_cons. split; [split; [lia|done]|]. eapply Forall_impl; [exact Hr|]. intros t [? ?]. split; [lia|done].
Qed.

(** Inserting a timer keeps the hardware at the first one. *)
Lemma insert_run x t next : armed t → list_ok (inserted x (timers t)) next → ∃ t',
  insert_timer x t = Done (tt, t') ∧ timers t' = inserted x (timers t) ∧ next_timer_id t' = next_timer_id t ∧ armed t'.
Proof.
  intros Ha Hok. unfold insert_timer. erewrite bind_run by done. unfold inserted in *.
  destruct (list_find _ (timers t)) as [[pos y]|] eqn:Hf.
  - erewrite bind_run by done. case_bool_decide as Hpos.
    + destruct (update_armed (set_timers (take pos (timers t) ++ x :: drop pos (timers t)) t) _ Hok) as (ctl & cval & Hrun & Harm). by eexists.
    + eexists. split; [done|]. split; [done|]. split; [done|]. apply list_find_Some in Hf as (Hy & _).
      unfold armed in *. cbn. destruct pos as [|pos]; [done|]. by destruct (timers t).
  - erewrite bind_run by done. case_bool_decide as Hempty.
    + destruct (update_armed (set_timers (timers t ++ [x]) t) _ Hok) as (ctl & cval & Hrun & Harm). by eexists.
    + eexists. split; [done|]. split; [done|]. split; [done|]. unfold armed in *. cbn. by destruct (timers t).
Qed.

(** ** Removal *)

Lemma deleted_ok l next i : list_ok l next → list_ok (delete i l) next.
Proof.
  intros [Hs Hid Hr]. rewrite delete_take_drop. assert (Hsub : take i l ++ drop (S i) l `sublist_of` l).
  { rewrite <- delete_take_drop. apply sublist_delete. }
  split.
  - destruct (decide (i < length l)%nat) as [Hi|Hi].
    + destruct (lookup_lt_is_Some_2 _ _ Hi) as [x Hx]. rewrite <- (take_drop_middle l i x Hx) in Hs.
      apply StronglySorted_app in Hs as (Hc & H1 & H2). apply StronglySorted_inv in H2 as [H2 _].
      apply StronglySorted_app. split_and!; [|done..]. intros a b Ha Hb. apply Hc; [done|]. by right.
    + rewrite take_ge, drop_ge by lia. by rewrite app_nil_r.
  - eapply sublist_NoDup; [exact Hid|]. by rewrite Hsub.
  - by eapply Forall_sublist.
Qed.

(** * Any number of futures *)

(** The futures that are alive, by name, and for those that were polled the
    last poll: its result, what the counter read, and the waker. *)
Record World := {
  control : TimeControl;
  futures : gmap nat TimerFuture;
  polls : gmap nat (bool * Z * Waker);
}.

Inductive Op :=
  | OpTimer (name : nat) (deadline : Z)
  | OpPoll (name : nat) (cnt_value : Z) (waker : nat)
  | OpDrop (name : nat).

Definition polled (name : nat) (f : TimerFuture) (cnt : Z) (waker : Waker) (w : World) : outcome World :=
  r ← timer_poll cnt waker f (control w);
  let '((ready, f), t) := (r : bool * TimerFuture * TimeControl) in
  Done {| control := t; futures := <[name := f]> (futures w); polls := <[name := (ready, cnt, waker)]> (polls w) |}.

Definition dropped (name : nat) (f : TimerFuture) (w : World) : outcome World :=
  r ← timer_drop f (control w);
  Done {| control := snd r; futures := delete name (futures w); polls := delete name (polls w) |}.

(** A name that is used when a timer is created, or not used when it is polled
    or dropped, is skipped. *)
Definition world_step (w : World) (op : Op) : outcome World :=
  match op with
  | OpTimer name deadline =>
      match futures w !! name with
      | Some _ => Done w
      | None => f ← timer deadline; Done {| control := control w; futures := <[name := f]> (futures w); polls := polls w |}
      end
  | OpPoll name cnt waker => match futures w !! name with Some f => polled name f cnt waker w | None => Done w end
  | OpDrop name => match futures w !! name with Some f => dropped name f w | None => Done w end
  end.

Fixpoint world_run (w : World) (ops : list Op) : outcome World :=
  match ops with
  | [] => Done w
  | op :: ops => w ← world_step w op; world_run w ops
  end.

(** A future that is registered, with its identifier. *)
Definition registered (w : World) (name : nat) (f : TimerFuture) (i : Z) : Prop :=
  futures w !! name = Some f ∧ fut_id f = Some i.

(** The timer of the list for a future that waits, with the waker of its last
    poll. *)
Definition waits_in (w : World) (name : nat) (f : TimerFuture) (waker : Waker) : Prop :=
  ∃ i t, registered w name f i ∧ t ∈ timers (control w) ∧ timer_id t = i ∧
    timer_counter_value t = fut_value f ∧ timer_waker t = Some waker.

(** The last poll of each future was ready exactly if the counter had reached
    its value; if it was not, the future is in the list with the waker of that
    poll. *)
Definition polls_ok (w : World) : Prop := ∀ name ready cnt waker, polls w !! name = Some (ready, cnt, waker) →
  ∃ f, futures w !! name = Some f ∧ ready = bool_decide (fut_value f ≤ cnt) ∧ (ready = false → waits_in w name f waker).

(** The registered futures and the timers of the list are the same. *)
Record world_ok (w : World) : Prop := {
  wo_time : time_ok (control w);
  wo_listed name f i : registered w name f i →
    ∃ t, t ∈ timers (control w) ∧ timer_id t = i ∧ timer_counter_value t = fut_value f;
  wo_alive t : t ∈ timers (control w) → ∃ name f, registered w name f (timer_id t) ∧ timer_counter_value t = fut_value f;
  wo_unique name name' f f' i : registered w name f i → registered w name' f' i → name = name';
  wo_value name f : futures w !! name = Some f → value_ok (fut_value f);
  wo_polls : polls_ok w;
}.

Definition op_ok (op : Op) : Prop :=
  match op with OpTimer _ deadline => 0 ≤ deadline ≤ u128_max | _ => True end.

(** A deadline that [timer] cannot convert: more than 2^97
    nanoseconds. *)
Definition too_far (op : Op) : Prop :=
  match op with OpTimer _ deadline => u128_max < deadline * CNTFRQ | _ => False end.

(** The conversion of such a deadline overflows before the result is capped. *)
Lemma timer_overflows deadline : u128_max < deadline * CNTFRQ → timer deadline = Panic POverflow.
Proof. intros Hd. unfold timer, uint_checked, uint_try_from. by rewrite bool_decide_false by lia. Qed.

Lemma timer_run deadline : 0 ≤ deadline → deadline * CNTFRQ ≤ u128_max → ∃ v,
  timer deadline = Done {| fut_id := None; fut_value := v |} ∧ v = Z.min (deadline * CNTFRQ / 1000000000) u64_max ∧ value_ok v.
Proof.
  intros H1 H2. unfold timer. rewrite (proj2 (uint_checked_Done u128_max _ (deadline * CNTFRQ))) by (unfold CNTFRQ in *; lia).
  cbn [mbind outcome_bind]. assert (Hp : 0 ≤ deadline * CNTFRQ / 1000000000) by (apply Z.div_pos; unfold CNTFRQ; lia).
  destruct (u64_try_from (deadline * CNTFRQ / 1000000000)) as [v|] eqn:Hv.
  - apply uint_try_from_Some in Hv as [-> Hv]. eexists. split; [done|]. cbn. split; [lia|]. exact Hv.
  - apply uint_try_from_None in Hv. exists u64_max. split; [done|]. split; [lia|]. split; unfold u64_max; lia.
Qed.

Lemma set_waker_run id waker l : id ∈ (timer_id <$> l) → ∃ l', set_waker id waker l = Done l' ∧
  (timer_id <$> l' = timer_id <$> l ∧ timer_counter_value <$> l' = timer_counter_value <$> l) ∧
  (∃ t, t ∈ l' ∧ timer_id t = id ∧ timer_waker t = Some waker) ∧ ∀ t, t ∈ l → timer_id t ≠ id → t ∈ l'.
Proof.
  induction l as [|t l IH]; cbn [fmap list_fmap set_waker]; [by intros ?%not_elem_of_nil|]. intros Hin. case_bool_decide as Ht.
  - eexists. split; [done|]. split; [done|]. split; [eexists; split; [by left|done]|].
    intros u [->|Hu]%elem_of_cons Hne; [done|by right].
  - apply elem_of_cons in Hin as [?|Hin]; [congruence|]. destruct (IH Hin) as (l' & -> & [Hids Hvals] & (u & Hu & ?) & Hrest). eexists. split; [done|].
    cbn. rewrite Hids, Hvals. split; [done|]. split; [exists u; split; [by right|done]|].
    intros u' [->|Hu']%elem_of_cons Hne; [by left|right; by apply Hrest].
Qed.

(** A list with the same identifiers and values. *)
Definition same_timers (l l' : list Timer) : Prop :=
  timer_id <$> l' = timer_id <$> l ∧ timer_counter_value <$> l' = timer_counter_value <$> l.

Lemma same_timers_lookup l l' i t' : same_timers l l' → l' !! i = Some t' →
  ∃ t, l !! i = Some t ∧ timer_id t = timer_id t' ∧ timer_counter_value t = timer_counter_value t'.
Proof.
  intros [H1 H2] Hi. pose proof (f_equal (.!! i) H1) as E1. pose proof (f_equal (.!! i) H2) as E2. simpl in E1, E2.
  rewrite !list_lookup_fmap, Hi in E1, E2. destruct (l !! i) as [t|]; [|done]. injection E1. injection E2. intros. by exists t.
Qed.

Lemma same_timers_elem l l' t' : same_timers l l' → t' ∈ l' → ∃ t, t ∈ l ∧ timer_id t = timer_id t' ∧ timer_counter_value t = timer_counter_value t'.
Proof.
  intros Hs [i Hi]%list_elem_of_lookup. destruct (same_timers_lookup _ _ _ _ Hs Hi) as (t & Ht & ?). exists t. split; [|done]. by eapply list_elem_of_lookup_2.
Qed.

Lemma same_timers_sym l l' : same_timers l l' → same_timers l' l.
Proof. by intros [? ?]. Qed.

Lemma sorted_values l : StronglySorted before l ↔ StronglySorted Z.le (timer_counter_value <$> l).
Proof.
  induction l as [|t l IH]; [by split; constructor|]. cbn. rewrite !StronglySorted_cons, IH. f_equiv.
  rewrite Forall_fmap. done.
Qed.

Lemma same_timers_ok l l' next : same_timers l l' → list_ok l next → list_ok l' next.
Proof.
  intros Hs [H1 H2 H3]. split.
  - apply sorted_values. destruct Hs as [_ ->]. by apply sorted_values.
  - by destruct Hs as [-> _].
  - apply Forall_forall. intros t' Ht'. destruct (same_timers_elem _ _ _ Hs Ht') as (t & Ht & <- & <-). rewrite Forall_forall in H3. by apply H3.
Qed.

(** ** One operation *)

(** A future that is polled: the others wait where they did. *)
Lemma polls_polled c fs ps w name f ready cnt waker :
  polls_ok w → polls w = ps → fs !! name = Some f → ready = bool_decide (fut_value f ≤ cnt) →
  let w' := {| control := c; futures := fs; polls := <[name := (ready, cnt, waker)]> ps |} in
  (ready = false → waits_in w' name f waker) →
  (∀ m g, m ≠ name → futures w !! m = Some g → fs !! m = Some g) →
  (∀ m g k, m ≠ name → waits_in w m g k → waits_in w' m g k) → polls_ok w'.
Proof.
  intros Hok <- Hf Hready w' Hwait Hfs Hothers m r c' k Hm.
  cbn in Hm. apply lookup_insert_Some in Hm as [[<- [= <- <- <-]]|[Hne Hm]]; [by exists f|].
  destruct (Hok m r c' k Hm) as (g & Hg & Hr & Hw). exists g. split; [by apply Hfs|]. split; [done|]. intros Hno. apply Hothers; [done|]. by apply Hw.
Qed.

Lemma polled_is_ready w name f cnt waker : world_ok w → futures w !! name = Some f → fut_value f ≤ cnt →
  ∃ w', polled name f cnt waker w = Done w' ∧ world_ok w' ∧ next_timer_id (control w') = next_timer_id (control w).
Proof.
  intros [H1 H2 H3 H4 H5 H6] Hf Hover. unfold polled, timer_poll. rewrite bool_decide_true by done. eexists. split; [done|]. split; [|done].
  split; cbn [control futures]; rewrite ?(insert_id _ _ _ Hf); try done.
  eapply polls_polled; rewrite ?bool_decide_true; try done.
Qed.

Lemma poll_again w name f i cnt waker : world_ok w → registered w name f i →
  ∃ w', polled name f cnt waker w = Done w' ∧ world_ok w' ∧ next_timer_id (control w') = next_timer_id (control w).
Proof.
  intros Hok [Hf Hi]. destruct (decide (fut_value f ≤ cnt)) as [Hover|Hover]; [by apply polled_is_ready|].
  pose proof Hok as [[Hl Hn Ha] H2 H3 H4 H5 H6]. unfold polled, timer_poll. rewrite bool_decide_false by done.
  rewrite Hi. destruct (H2 name f i (conj Hf Hi)) as (t & Ht & Hti & Htv).
  destruct (set_waker_run i waker (timers (control w))) as (l' & Hrun & Hsame & Hmine & Hothers); [rewrite <- Hti; by apply list_elem_of_fmap_2|].
  erewrite bind_run by done. erewrite bind_run by (unfold liftM; by rewrite Hrun). erewrite bind_run by done.
  assert (H3' : ∀ u', u' ∈ l' → ∃ m g, registered w m g (timer_id u') ∧ timer_counter_value u' = fut_value g).
  { intros u' Hu'. destruct (same_timers_elem _ _ _ Hsame Hu') as (u & Hu & <- & <-). by apply H3. }
  eexists. split; [done|]. split; [|done]. split; cbn [control futures set_timers timers]; rewrite ?(insert_id _ _ _ Hf); try done.
  - split; [by eapply same_timers_ok|done|]. unfold armed in *. cbn. destruct Hsame as [_ Hval].
    destruct (timers (control w)), l'; try done. injection Hval as -> _. done.
  - intros n g j Hg. destruct (H2 n g j Hg) as (u & Hu & <- & <-). destruct (same_timers_elem _ _ u (same_timers_sym _ _ Hsame) Hu) as (u' & ? & ? & ?). by exists u'.
  - eapply polls_polled; try done; [by rewrite bool_decide_false| |].
    + intros _. destruct Hmine as (u & Hu & Hui & Huw). exists i, u. split; [done|]. split; [done|]. split; [done|]. split; [|done].
      destruct (H3' u Hu) as (m & g & Hg & ->). rewrite Hui in Hg. assert (m = name) as -> by (eapply H4; [exact Hg|by split]).
      destruct Hg as [Hg _]. congruence.
    + intros m g k Hne (j & u & Hg & Hu & Huj & Huv & Huk). exists j, u. split; [done|]. split; [|done].
      apply Hothers; [done|]. intros Hui. apply Hne. eapply H4; [exact Hg|]. split; [done|]. congruence.
Qed.

Lemma poll_first w name f cnt waker : world_ok w → futures w !! name = Some f → fut_id f = None → next_timer_id (control w) < usize32_max →
  ∃ w', polled name f cnt waker w = Done w' ∧ world_ok w' ∧ next_timer_id (control w') ≤ next_timer_id (control w) + 1.
Proof.
  intros Hok Hf Hi Hmax. destruct (decide (fut_value f ≤ cnt)) as [Hover|Hover].
  { destruct (polled_is_ready w name f cnt waker Hok Hf Hover) as (w' & ? & ? & ?). exists w'. split_and!; [done..|lia]. }
  pose proof Hok as [[Hl Hn Ha] H2 H3 H4 H5 H6]. unfold polled, timer_poll. rewrite bool_decide_false by done.
  rewrite Hi. set (n := next_timer_id (control w)) in *. unfold assign_timer_id. fold n.
  erewrite bind_run; cycle 1.
  { erewrite bind_run by done. erewrite bind_run by done. rewrite !bool_decide_false by (fold n; lia). done. }
  rewrite Z.mod_small by (unfold usize32_max, u32_max in *; lia).
  set (x := {| timer_id := n; timer_counter_value := fut_value f; timer_waker := Some waker |}).
  assert (Hins : list_ok (inserted x (timers (control w))) (n + 1)) by (apply inserted_ok; [done|done|lia|by eapply H5]).
  destruct (insert_run x (set_next_id (n + 1) (control w)) (n + 1) Ha Hins) as (t' & Hrun & Hl' & Hn' & Ha').
  erewrite bind_run by exact Hrun. eexists. split; [done|].
  assert (Hfresh : ∀ m g, registered w m g n → False).
  { intros m g Hg. destruct (H2 m g n Hg) as (t & Ht & Htn & _). destruct Hl as [_ _ Hr]. rewrite Forall_forall in Hr. destruct (Hr t Ht). lia. }
  assert (Hreg : ∀ m g j, registered {| control := t'; futures := <[name := {| fut_id := Some n; fut_value := fut_value f |}]> (futures w);
      polls := <[name := (false, cnt, waker)]> (polls w) |} m g j →
    m = name ∧ g = {| fut_id := Some n; fut_value := fut_value f |} ∧ j = n ∨ m ≠ name ∧ registered w m g j).
  { intros m g j [Hg Hj]. cbn in Hg. apply lookup_insert_Some in Hg as [[<- <-]|[Hne Hg]]; [left; by injection Hj as <-|right; done]. }
  split; [|cbn; rewrite Hn'; cbn; lia]. split; cbn [control futures].
  - split; [rewrite Hl', Hn'; exact Hins|rewrite Hn'; cbn; lia|done].
  - intros m g j [(-> & -> & ->)|[Hne Hg]]%Hreg; rewrite Hl'.
    + exists x. split; [rewrite inserted_perm; by left|done].
    + destruct (H2 m g j Hg) as (t & Ht & ?). exists t. split; [rewrite inserted_perm; by right|done].
  - intros t Ht. rewrite Hl', inserted_perm in Ht. apply elem_of_cons in Ht as [->|Ht].
    + exists name, {| fut_id := Some n; fut_value := fut_value f |}. split; [|done]. split; [|done]. cbn. by rewrite lookup_insert_eq.
    + destruct (H3 t Ht) as (m & g & [Hg Hj] & Hv). exists m, g. split; [|done]. split; [|done]. cbn. rewrite lookup_insert_ne; [done|]. congruence.
  - intros m m' g g' j [(-> & -> & ->)|[Hne Hg]]%Hreg [(-> & -> & Hj)|[Hne' Hg']]%Hreg; [done|by destruct (Hfresh _ _ Hg')|subst j; by destruct (Hfresh _ _ Hg)|by eapply H4].
  - intros m g [[<- <-]|[_ Hg]]%lookup_insert_Some; [cbn; by eapply H5|by eapply H5].
  - eapply polls_polled; try done; [by rewrite lookup_insert_eq|cbn; by rewrite bool_decide_false| | |].
    + intros _. exists n, x. split; [split; [apply lookup_insert_eq|done]|]. cbn. rewrite Hl', inserted_perm. split; [by left|done].
    + intros m g Hne Hg. by rewrite lookup_insert_ne.
    + intros m g k Hne (j & u & [Hg Hj] & Hu & Hrest). exists j, u. cbn. rewrite Hl', inserted_perm.
      split; [split; [cbn; by rewrite lookup_insert_ne|done]|]. split; [by right|done].
Qed.

Lemma drop_ok w name f : world_ok w → futures w !! name = Some f →
  ∃ w', dropped name f w = Done w' ∧
    world_ok w' ∧ next_timer_id (control w') = next_timer_id (control w).
Proof.
  intros Hok Hf. pose proof Hok as [[Hl Hn Ha] H2 H3 H4 H5 H6]. unfold dropped, timer_drop.
  assert (Hreg : ∀ t' m g j, registered {| control := t'; futures := delete name (futures w); polls := delete name (polls w) |} m g j → m ≠ name ∧ registered w m g j).
  { intros t' m g j [Hg Hj]. cbn in Hg. apply lookup_delete_Some in Hg as [? ?]. by split. }
  assert (Hpolls : ∀ t', (∀ m g j u, m ≠ name → registered w m g j → u ∈ timers (control w) → timer_id u = j → u ∈ timers t') →
    polls_ok {| control := t'; futures := delete name (futures w); polls := delete name (polls w) |}).
  { intros t' Hkeep m r cnt k Hm. cbn in Hm. apply lookup_delete_Some in Hm as [Hne Hm]. destruct (H6 m r cnt k Hm) as (g & Hg & Hr & Hw). exists g.
    split; [cbn; by rewrite lookup_delete_ne|]. split; [done|]. intros Hno. destruct (Hw Hno) as (j & u & [Hg' Hj] & Hu & Huj & Hrest).
    exists j, u. split; [split; [cbn; by rewrite lookup_delete_ne|done]|]. split; [by eapply Hkeep|done]. }
  destruct (fut_id f) as [id|] eqn:Hi; cycle 1.
  { eexists. split; [done|]. split; [|done]. split; cbn [control futures snd]; try done.
    - intros m g j [_ Hg]%Hreg. by eapply H2.
    - intros t Ht. destruct (H3 t Ht) as (m & g & [Hg Hj] & Hv). exists m, g. split; [|done]. split; [|done]. cbn. rewrite lookup_delete_ne; congruence.
    - intros m m' g g' j [_ Hg]%Hreg [_ Hg']%Hreg. by eapply H4.
    - intros m g [_ Hg]%lookup_delete_Some. by eapply H5.
    - by apply Hpolls. }
  destruct (H2 name f id (conj Hf Hi)) as (t & Ht & Hti & Htv). erewrite bind_run by done.
  destruct (list_find _ (timers (control w))) as [[pos y]|] eqn:Hfind; cycle 1.
  { apply list_find_None in Hfind. rewrite Forall_forall in Hfind. by destruct (Hfind t Ht). }
  apply list_find_Some in Hfind as (Hy & Hyi & _). erewrite bind_run by done.
  assert (Hdel : ∃ t', (if bool_decide (pos = 0%nat) then update_hardware else mret tt) (set_timers (delete pos (timers (control w))) (control w)) = Done (tt, t') ∧
    timers t' = delete pos (timers (control w)) ∧ next_timer_id t' = next_timer_id (control w) ∧ armed t').
  { case_bool_decide as Hpos.
    - destruct (update_armed (set_timers (delete pos (timers (control w))) (control w)) _ (deleted_ok _ _ pos Hl)) as (ctl & cval & Hrun & Harm). by eexists.
    - eexists. split; [done|]. split; [done|]. split; [done|]. unfold armed in *. cbn. destruct pos; [done|]. by destruct (timers (control w)). }
  destruct Hdel as (t' & Hrun & Hl' & Hn' & Ha'). rewrite Hrun. eexists. split; [done|]. cbn [snd].
  assert (Hsplit : timers (control w) ≡ₚ y :: delete pos (timers (control w))) by (by apply delete_Permutation).
  split; [|done]. split; cbn [control futures].
  - split; [rewrite Hl', Hn'; by apply deleted_ok|by rewrite Hn'|done].
  - intros m g j [Hne Hg]%Hreg. rewrite Hl'. destruct (H2 m g j Hg) as (u & Hu & Huj & Huv). exists u. split; [|done].
    rewrite Hsplit in Hu. apply elem_of_cons in Hu as [->|Hu]; [|done]. destruct Hne. eapply H4; [exact Hg|]. rewrite <- Huj, Hyi. by split.
  - intros u Hu. rewrite Hl' in Hu. destruct (H3 u) as (m & g & [Hg Hj] & Hv); [rewrite Hsplit; by right|]. exists m, g. split; [|done]. split; [|done].
    cbn. rewrite lookup_delete_ne; [done|]. intros <-. assert (timer_id u = timer_id y) as Heq by congruence.
    destruct Hl as [_ Hnd _]. rewrite Hsplit in Hnd. cbn in Hnd. apply NoDup_cons in Hnd as [Hnot _]. rewrite <- Heq in Hnot. by destruct Hnot; apply list_elem_of_fmap_2.
  - intros m m' g g' j [_ Hg]%Hreg [_ Hg']%Hreg. by eapply H4.
  - intros m g [_ Hg]%lookup_delete_Some. by eapply H5.
  - apply Hpolls. intros m g j u Hne Hg Hu Huj. rewrite Hl'. rewrite Hsplit in Hu. apply elem_of_cons in Hu as [->|Hu]; [|done].
    destruct Hne. eapply H4; [exact Hg|]. rewrite <- Huj, Hyi. by split.
Qed.

(** ** The claims *)

Lemma timer_ok w name v : world_ok w → futures w !! name = None → value_ok v →
  world_ok {| control := control w; futures := <[name := {| fut_id := None; fut_value := v |}]> (futures w); polls := polls w |}.
Proof.
  intros [H1 H2 H3 H4 H5 H6] Hf Hv. set (w' := {| control := _ |}).
  assert (Hreg : ∀ m g j, registered w' m g j ↔ registered w m g j).
  { intros m g j. unfold registered. cbn. rewrite lookup_insert_Some. split; [intros [[[<- <-]|[_ Hg]] Hj]; done|].
    intros [Hg Hj]. split; [right; split; congruence|done]. }
  split; cbn [control futures w'].
  - done.
  - intros m g j Hg%Hreg. by eapply H2.
  - intros t Ht. destruct (H3 t Ht) as (m & g & Hg & Hval). exists m, g. split; [by apply Hreg|done].
  - intros m m' g g' j Hg%Hreg Hg'%Hreg. by eapply H4.
  - intros m g [[<- <-]|[_ Hg]]%lookup_insert_Some; [done|by eapply H5].
  - intros m r cnt k Hm. destruct (H6 m r cnt k Hm) as (g & Hg & Hr & Hw). exists g. split; [cbn; rewrite lookup_insert_ne; congruence|].
    split; [done|]. intros Hno. destruct (Hw Hno) as (j & u & Hg' & Hrest). exists j, u. split; [by apply Hreg|done].
Qed.

(** An operation goes through, or creates a timer that is too far. *)
Lemma world_step_ok w op : world_ok w → op_ok op → next_timer_id (control w) < usize32_max →
  (world_step w op = Panic POverflow ∧ too_far op) ∨
  ∃ w', world_step w op = Done w' ∧ world_ok w' ∧ next_timer_id (control w') ≤ next_timer_id (control w) + 1.
Proof.
  intros Hok Hop Hmax. destruct op as [name deadline|name cnt waker|name]; unfold world_step; destruct (futures w !! name) as [f|] eqn:Hf;
    try (right; eexists; split; [done|split; [done|lia]]).
  - destruct (decide (deadline * CNTFRQ ≤ u128_max)) as [Hd|Hd]; [right|left; split; [rewrite timer_overflows by lia; done|cbn; lia]].
    destruct (timer_run deadline (proj1 Hop) Hd) as (v & -> & _ & Hv). eexists. split; [done|]. split; [by apply timer_ok|cbn; lia].
  - right. destruct (fut_id f) as [i|] eqn:Hi.
    + destruct (poll_again w name f i cnt waker Hok (conj Hf Hi)) as (w' & Hrun & Hok' & Hn). exists w'. split; [exact Hrun|]. split; [done|lia].
    + by apply poll_first.
  - right. destruct (drop_ok w name f Hok Hf) as (w' & Hrun & Hok' & Hn). exists w'. split; [exact Hrun|]. split; [done|lia].
Qed.

Lemma world_run_ok ops : ∀ w, world_ok w → Forall op_ok ops → next_timer_id (control w) + Z.of_nat (length ops) < usize32_max + 1 →
  (world_run w ops = Panic POverflow ∧ Exists too_far ops) ∨ ∃ w', world_run w ops = Done w' ∧ world_ok w'.
Proof.
  induction ops as [|op ops IH]; intros w Hok Hops Hmax; [right; by exists w|]. apply Forall_cons in Hops as [Hop Hops]. cbn [length] in Hmax.
  cbn [world_run]. destruct (world_step_ok w op Hok Hop) as [[Hrun Hfar]|(w1 & Hrun & Hok1 & Hn)]; [lia| |]; rewrite Hrun.
  - left. split; [done|by left].
  - destruct (IH w1 Hok1 Hops) as [[? ?]|?]; [lia|left; split; [done|by right]|by right].
Qed.

Definition world_init (ctl cval : Z) : World := {| control := time_init ctl cval; futures := ∅; polls := ∅ |}.

Lemma world_init_ok ctl cval : world_ok (world_init ctl cval).
Proof.
  split; cbn.
  - split; [split; constructor|cbn; lia|done].
  - intros m g j [Hg _]. cbn in Hg. by rewrite lookup_empty in Hg.
  - by intros t ?%not_elem_of_nil.
  - intros m m' g g' j [Hg _]. cbn in Hg. by rewrite lookup_empty in Hg.
  - intros m g Hg. by rewrite lookup_empty in Hg.
  - intros m r cnt k Hm. cbn in Hm. by rewrite lookup_empty in Hm.
Qed.

(** The hardware fires for the earliest of the registered futures, which all
    those whose last poll was not ready are. *)
Definition earliest (w : World) : Prop := ∀ name f i, registered w name f i →
  cntp_ctl (control w) = 1 ∧ cntp_cval (control w) ≤ fut_value f ∧
  ∃ name' f' i', registered w name' f' i' ∧ cntp_cval (control w) = fut_value f'.

Lemma world_earliest w : world_ok w → earliest w.
Proof.
  intros Hok name f i Hreg. destruct Hok as [[[Hs _ _] _ Ha] H2 H3 _ _ _].
  destruct (H2 name f i Hreg) as (t & Ht & _ & <-). unfold armed in Ha.
  destruct (timers (control w)) as [|first l] eqn:Htim; [by apply not_elem_of_nil in Ht|]. destruct Ha as [Hctl Hcval].
  split; [done|]. rewrite Hcval. split.
  - apply StronglySorted_inv in Hs as [_ Hall]. apply elem_of_cons in Ht as [->|Ht]; [lia|]. rewrite Forall_forall in Hall. by apply (Hall t).
  - destruct (H3 first) as (m & g & Hg & Hv); [by left|]. exists m, g, (timer_id first). by split.
Qed.

(** C39: whatever timers are created, polled and dropped on ARM, in any order
    and at any value of the counter: the only panic, as long as the identifiers
    last, is the overflow in the conversion of a deadline whose product with the
    frequency does not fit in 128 bits.  Otherwise the last poll of each future
    was ready exactly if the counter had reached its value, and if it was not
    the list has a timer for the future, with its value and the waker of that
    poll; the timers of the list are those of the registered futures, each once
    and in the order of their values; and the hardware timer is enabled and set
    to the earliest of them. *)
Theorem arm_timers_ok (ctl cval : Z) (ops : list Op) : Forall op_ok ops → Z.of_nat (length ops) < usize32_max →
  match world_run (world_init ctl cval) ops with
  | Done w => polls_ok w ∧ world_ok w ∧ earliest w
  | Panic r => r = POverflow ∧ Exists too_far ops
  | NoFuel => False
  end.
Proof.
  intros Hops Hlen. destruct (world_run_ok ops (world_init ctl cval)) as [[Hrun Hfar]|(w & Hrun & Hok)];
    [apply world_init_ok|done|cbn; lia| |]; rewrite Hrun; [done|].
  split; [apply Hok|]. split; [done|by apply world_earliest].
Qed.

(** The clock of ARM and its timers agree to a nanosecond: at a value of
    the counter at which the timer for a deadline is not over, the clock has not
    reached the deadline; at one at which it is over, the clock has reached it
    or is one nanosecond before it. *)
Theorem arm_clock_ok (deadline cnt_value : Z) :
  0 ≤ deadline → deadline * CNTFRQ / 1000000000 ≤ u64_max → deadline * CNTFRQ ≤ u128_max → 0 ≤ cnt_value ≤ u64_max →
  ∃ f now, timer deadline = Done f ∧ monotonic_clock cnt_value = Done now ∧
    if bool_decide (fut_value f ≤ cnt_value) then deadline - 1 ≤ now else now < deadline.
Proof.
  intros Hd Hfit Hmax Hc. destruct (timer_run deadline Hd Hmax) as (v & Hrun & Hv & _). eexists _, (1000000000 * cnt_value / CNTFRQ).
  split; [exact Hrun|]. split.
  { unfold monotonic_clock. rewrite (proj2 (uint_checked_Done u128_max _ (1000000000 * cnt_value))); [done|]. unfold u64_max, u128_max in *. lia. }
  cbn [fut_value]. rewrite Z.min_l in Hv by lia. unfold CNTFRQ in *.
  pose proof (Z.div_mod (deadline * 0x80000000) 1000000000). pose proof (Z.mod_pos_bound (deadline * 0x80000000) 1000000000).
  pose proof (Z.div_mod (1000000000 * cnt_value) 0x80000000). pose proof (Z.mod_pos_bound (1000000000 * cnt_value) 0x80000000).
  case_bool_decide; lia.
Qed.

(** The timer for the first nanosecond is over before the clock says so. *)
Lemma arm_timer_early : timer 1 = Done {| fut_id := None; fut_value := 2 |} ∧ monotonic_clock 2 = Done 0.
Proof. by split. Qed.

(** * The executor *)

(** A processor that is in [wfe] while its task is woken has an event to come
    back from, or a wake that has not sent it yet. *)
Definition exec_ok (s : Exec) : Prop :=
  pc s = PcWfe → woken_up s = true → event s = true ∨ (0 < wakes s)%nat.

Lemma happen_ok s h : exec_ok s → exec_ok (happen s h).
Proof.
  unfold exec_ok. intros Hs. destruct s as [p w e n], h; cbn in *.
  - destruct p; cbn; try done; [by destruct ready|by destruct w|by destruct e].
  - intros -> _. right. lia.
  - destruct n; cbn; [done|by left].
  - by left.
Qed.

Definition cpu_steps (n : nat) (s : Exec) : Exec := Nat.iter n (cpu_step false) s.

(** Whatever the interleaving of the processor, of wakes and of other
    events, a task of the ARM executor that was woken is polled again within
    three steps of the processor once the wakes are over: [wfe] never sleeps on
    a wake-up. *)
Theorem arm_no_lost_wakeup (hs : list Happening) (s : Exec) :
  s = foldl happen exec_init hs → woken_up s = true → wakes s = 0%nat → pc s ≠ PcDone →
  ∃ n, (n ≤ 3)%nat ∧ pc (cpu_steps n s) = PcPoll ∧ (pc s ≠ PcPoll → woken_up (cpu_steps n s) = false).
Proof.
  intros Hs Hw Hn Hdone. assert (Hok : exec_ok s).
  { subst s. assert (Hgen : ∀ hs s, exec_ok s → exec_ok (foldl happen s hs)) by (clear; induction hs as [|h hs IH]; intros s Hs; [done|by apply IH, happen_ok]).
    by apply Hgen. }
  destruct s as [p w e n]. cbn in *. subst w n. destruct p; try done.
  - exists 0%nat. split_and!; [lia|done|done].
  - exists 1%nat. split_and!; [lia|done|done].
  - destruct (Hok eq_refl eq_refl) as [He|?]; [|cbn in *; lia]. cbn in He. subst e. exists 2%nat. split_and!; [lia|done|done].
Qed.
