(* ===== verification/Drivers.v ===== *)
(** The hardware accesses of the drivers ([interfaces/hardware/src/lib.rs] and
    [malloc.rs]), on the handler of the kernel that performs them
    ([Hardware.v]).

    A driver is a program whose messages to the hardware interface are handled
    in the order in which it emits them.  Sending operations runs the handler
    of the kernel on the message, which extends the trace of the accesses to
    the hardware; waiting for the answer polls the events of the handler.  The
    state of a driver is that trace: between two of its messages the handler is
    registered and has no answer left to give, and its list of buffers plays
    no part in accesses. *)
From S2P Require Import Prelude Ffi Messages Native Hardware.

(** * Operations that only write *)

Record HardwareWriteOperationsBuilder := { wb_operations : list Operation }.

Definition HardwareWriteOperationsBuilder_new : HardwareWriteOperationsBuilder := {| wb_operations := [] |}.

Definition wb_push (op : Operation) (b : HardwareWriteOperationsBuilder) : HardwareWriteOperationsBuilder :=
  {| wb_operations := wb_operations b ++ [op] |}.
Definition wb_memset (address len value : Z) := wb_push (PhysicalMemoryMemset address len value).
Definition wb_write (address : Z) (data : list Z) := wb_push (PhysicalMemoryWriteU8 address data).
Definition wb_write_one_u32 (address data : Z) := wb_push (PhysicalMemoryWriteU32 address [data]).
Definition wb_port_write_u8 (port data : Z) := wb_push (PortWriteU8 port data).
Definition wb_port_write_u16 (port data : Z) := wb_push (PortWriteU16 port data).
Definition wb_port_write_u32 (port data : Z) := wb_push (PortWriteU32 port data).

(** * Operations that read *)

(** Where the answers go: the slices have a length. *)
Inductive Out :=
  | MemReadU8 (len : nat)
  | MemReadU16 (len : nat)
  | MemReadU32 (len : nat)
  | PortU8
  | PortU16
  | PortU32
  | Discard.

Record HardwareOperationsBuilder := {
  operations : list Operation;
  out : list Out;
}.

Definition HardwareOperationsBuilder_new : HardwareOperationsBuilder := {| operations := []; out := [] |}.

Definition ob_push (op : Operation) (o : option Out) (b : HardwareOperationsBuilder) : HardwareOperationsBuilder :=
  {| operations := operations b ++ [op]; out := out b ++ option_list o |}.

(** [out.len() as u32]. *)
Definition len_u32 (len : nat) : Z := Z.of_nat len mod 2 ^ 32.

Definition ob_read (address : Z) (len : nat) := ob_push (PhysicalMemoryReadU8 address (len_u32 len)) (Some (MemReadU8 len)).
Definition ob_read_u32 (address : Z) (len : nat) := ob_push (PhysicalMemoryReadU32 address (len_u32 len)) (Some (MemReadU32 len)).
Definition ob_memset (address len value : Z) := ob_push (PhysicalMemoryMemset address len value) None.
Definition ob_write (address : Z) (data : list Z) := ob_push (PhysicalMemoryWriteU8 address data) None.
Definition ob_write_one_u32 (address data : Z) := ob_push (PhysicalMemoryWriteU32 address [data]) None.
Definition ob_port_write_u8 (port data : Z) := ob_push (PortWriteU8 port data) None.
Definition ob_port_write_u16 (port data : Z) := ob_push (PortWriteU16 port data) None.
Definition ob_port_write_u32 (port data : Z) := ob_push (PortWriteU32 port data) None.
Definition ob_port_read_u8 (port : Z) := ob_push (PortReadU8 port) (Some PortU8).
Definition ob_port_read_u16 (port : Z) := ob_push (PortReadU16 port) (Some PortU16).
Definition ob_port_read_u32 (port : Z) := ob_push (PortReadU32 port) (Some PortU32).
Definition ob_port_read_u8_discard (port : Z) := ob_push (PortReadU8 port) (Some Discard).
Definition ob_port_read_u16_discard (port : Z) := ob_push (PortReadU16 port) (Some Discard).
Definition ob_port_read_u32_discard (port : Z) := ob_push (PortReadU32 port) (Some Discard).

(** What ends up at the place of an [Out]. *)
Inductive Filled :=
  | Slice (data : list Z)
  | Value (data : Z)
  | Untouched.

(** [copy_from_slice]. *)
Definition fill_slice (data : list Z) (len : nat) : outcome Filled :=
  if bool_decide (length data = len) then Done (Slice data) else Panic PExplicit.

Definition fill (response_elem : HardwareAccessResponse) (out : Out) : outcome Filled :=
  match response_elem, out with
  | _, Discard => Done Untouched
  | Resp_PortReadU8 val, PortU8 => Done (Value val)
  | Resp_PortReadU16 val, PortU16 => Done (Value val)
  | Resp_PortReadU32 val, PortU32 => Done (Value val)
  | Resp_PhysicalMemoryReadU8 val, MemReadU8 len => fill_slice val len
  | Resp_PhysicalMemoryReadU16 val, MemReadU16 len => fill_slice val len
  | Resp_PhysicalMemoryReadU32 val, MemReadU32 len => fill_slice val len
  | _, _ => Panic PUnreachable
  end.

(** [for (response_elem, out) in response.into_iter().zip(out)]. *)
Fixpoint fill_all (response : list HardwareAccessResponse) (outs : list Out) : outcome (list Filled) :=
  match response, outs with
  | r :: response, o :: outs =>
      f ← fill r o;
      fs ← fill_all response outs;
      mret (f :: fs)
  | _, _ => mret ((λ _, Untouched) <$> outs)
  end.

(** A loop that is still running. *)
Definition never {S A} : M S A := λ _, NoFuel.

(** ** The messages to the kernel *)

(** The codec at the types of the drivers. *)
Class ScaleDrivers := {
  encode_hardware : HardwareMessage → EncodedMessage;
  decode_access_responses : EncodedMessage → option (list HardwareAccessResponse);
}.

(** What was encoded is decoded. *)
Class ScaleDriversLaws `{ScaleHandlers} `{ScaleDrivers} := {
  hardware_access_roundtrip : ∀ ops, Forall op_ok ops →
    decode_hardware (encode_hardware (HardwareAccess ops)) = Some (HardwareAccess ops);
  access_responses_roundtrip : ∀ rs, decode_access_responses (encode_access_responses rs) = Some rs;
}.

(** The handler between two messages of a driver. *)
Definition handler_at (tr : list access) : HardwareHandler :=
  {| hh_requests := {| rq_registered := true; pending_messages := [] |}; hh_trace := tr; allocations := ∅ |}.

Definition on_kernel {A} (m : M HardwareHandler A) : M (list access) A := λ tr,
  '(x, h) ← m (handler_at tr); Done (x, hh_trace h).

(** The driver and the identifier that the core gives to its message. *)
Definition DRIVER_PID : Pid := 1.
Definition DRIVER_MESSAGE : MessageId := 2.

Section driver.
Context `{Platform} `{ScaleHandlers} `{ScaleDrivers}.

(** [emit_message_with_response] and [emit_message_without_response]: the core
    hands the message to the handler. *)
Definition emit_hardware (needs_answer : bool) (message : HardwareMessage) : M HardwareHandler unit :=
  hardware_interface_message Hardware.INTERFACE (if needs_answer then Some DRIVER_MESSAGE else None)
    DRIVER_PID (encode_hardware message).

(** The core polls the events of the handler until one answers the message. *)
Fixpoint wait_answer (polls : nat) (id : MessageId) : M HardwareHandler (unit + EncodedMessage) :=
  match polls with
  | O => never
  | S polls =>
      ev ← hardware_next_event (W := unit);
      match ev with
      | Ready (NpAnswer id' answer) =>
          if bool_decide (id' = id) then mret answer else wait_answer polls id
      | _ => wait_answer polls id
      end
  end.

(** [Decode::decode(response.actual_data.unwrap()).unwrap()]. *)
Definition decode_answer (answer : unit + EncodedMessage) : outcome (list HardwareAccessResponse) :=
  match answer with
  | inr data => unwrap (decode_access_responses data)
  | inl _ => Panic PUnwrap
  end.

Definition access_with_response (polls : nat) (ops : list Operation) :
    M (list access) (list HardwareAccessResponse) :=
  on_kernel (
    _ ← emit_hardware true (HardwareAccess ops);
    answer ← wait_answer polls DRIVER_MESSAGE;
    liftM (decode_answer answer)).

Definition wb_send (b : HardwareWriteOperationsBuilder) : M (list access) unit :=
  match wb_operations b with
  | [] => mret tt
  | ops => on_kernel (emit_hardware false (HardwareAccess ops))
  end.

(** [send], awaited for that many polls of the handler.  The answer, if there
    is one, is the first event after the message; [driver_send_ok] holds for
    any number of polls. *)
Definition ob_send_within (polls : nat) (b : HardwareOperationsBuilder) : M (list access) (list Filled) :=
  response ← access_with_response polls (operations b);
  liftM (fill_all response (out b)).
Definition ob_send : HardwareOperationsBuilder → M (list access) (list Filled) := ob_send_within 1.

Definition hw_write (address : Z) (data : list Z) : M (list access) unit :=
  wb_send (wb_write address data HardwareWriteOperationsBuilder_new).
Definition hw_write_one_u32 (address data : Z) : M (list access) unit :=
  wb_send (wb_write_one_u32 address data HardwareWriteOperationsBuilder_new).
Definition hw_port_write_u8 (port data : Z) : M (list access) unit :=
  wb_send (wb_port_write_u8 port data HardwareWriteOperationsBuilder_new).

(** A variable that is not written keeps its initial value, 0. *)
Definition value_of (f : Filled) : Z := match f with Value v => v | _ => 0 end.

Definition hw_read_one_u32 (address : Z) : M (list access) Z :=
  fs ← ob_send (ob_read_u32 address 1 HardwareOperationsBuilder_new);
  match fs with
  | Slice (v :: _) :: _ => mret v
  | _ => mret 0
  end.
Definition hw_port_read_u8 (port : Z) : M (list access) Z :=
  fs ← ob_send (ob_port_read_u8 port HardwareOperationsBuilder_new);
  mret (default 0 (value_of <$> head fs)).

(** * Buffers in physical memory *)

(** [PhysicalBuffer<T>] is its pointer; a [T] is the list of its bytes. *)
Record PhysicalBuffer := { pb_ptr : Z }.

(** [malloc], on the pointer that the kernel answers with. *)
Definition driver_malloc (alignment ptr : Z) : outcome Z :=
  _ ← assert_ (negb (bool_decide (ptr = 0)));
  _ ← (if bool_decide (alignment = 0) then Panic PDivZero else Done tt);
  _ ← debug_assert (bool_decide (ptr mod alignment = 0));
  mret ptr.

Definition pb_write (buf : PhysicalBuffer) (data : list Z) : M (list access) unit :=
  wb_send (wb_write (pb_ptr buf) data HardwareWriteOperationsBuilder_new).

(** [PhysicalBuffer::new], [ptr] being what the kernel answers with. *)
Definition PhysicalBuffer_new (alignment ptr : Z) (data : list Z) : M (list access) PhysicalBuffer :=
  alignment ← liftM (unwrap (u8_try_from alignment));
  ptr ← liftM (driver_malloc alignment ptr);
  let buf := {| pb_ptr := ptr |} in
  _ ← pb_write buf data;
  mret buf.

Definition pb_read_inner (buf : PhysicalBuffer) (size : nat) : M (list access) (list Z) :=
  len ← liftM (unwrap (u32_try_from (Z.of_nat size)));
  response ← access_with_response 1 [PhysicalMemoryReadU8 (pb_ptr buf) len];
  _ ← liftM (debug_assert (bool_decide (length response = 1%nat)));
  match response with
  | Resp_PhysicalMemoryReadU8 val :: _ => mret val
  | _ => panic PUnreachable
  end.

End driver.

(** * What a driver reads *)

(** The calls of a driver to the builder. *)
Inductive Call :=
  | CallRead (address : Z) (len : nat)
  | CallReadU32 (address : Z) (len : nat)
  | CallMemset (address len value : Z)
  | CallWrite (address : Z) (data : list Z)
  | CallWriteOneU32 (address data : Z)
  | CallPortWriteU8 (port data : Z)
  | CallPortWriteU16 (port data : Z)
  | CallPortWriteU32 (port data : Z)
  | CallPortReadU8 (port : Z)
  | CallPortReadU16 (port : Z)
  | CallPortReadU32 (port : Z)
  | CallDiscardU8 (port : Z)
  | CallDiscardU16 (port : Z)
  | CallDiscardU32 (port : Z).

Definition do_call (b : HardwareOperationsBuilder) (c : Call) : HardwareOperationsBuilder :=
  match c with
  | CallRead a len => ob_read a len b
  | CallReadU32 a len => ob_read_u32 a len b
  | CallMemset a len v => ob_memset a len v b
  | CallWrite a data => ob_write a data b
  | CallWriteOneU32 a data => ob_write_one_u32 a data b
  | CallPortWriteU8 p data => ob_port_write_u8 p data b
  | CallPortWriteU16 p data => ob_port_write_u16 p data b
  | CallPortWriteU32 p data => ob_port_write_u32 p data b
  | CallPortReadU8 p => ob_port_read_u8 p b
  | CallPortReadU16 p => ob_port_read_u16 p b
  | CallPortReadU32 p => ob_port_read_u32 p b
  | CallDiscardU8 p => ob_port_read_u8_discard p b
  | CallDiscardU16 p => ob_port_read_u16_discard p b
  | CallDiscardU32 p => ob_port_read_u32_discard p b
  end.

(** Addresses are [u64]s, and a slice has at most [u32::MAX] elements. *)
Definition call_ok (c : Call) : Prop :=
  match c with
  | CallRead a len | CallReadU32 a len => 0 ≤ a ≤ u64_max ∧ Z.of_nat len ≤ u32_max
  | CallMemset a _ _ | CallWrite a _ | CallWriteOneU32 a _ => 0 ≤ a ≤ u64_max
  | _ => True
  end.

Section calls.
Context `{Platform} `{ScaleHandlers} `{ScaleDrivers} `{!ScaleDriversLaws}.

(** ** The messages of a driver *)

(** Without an answer in the handler, nothing ends the wait. *)
Lemma wait_nothing polls id tr : wait_answer polls id (handler_at tr) = NoFuel.
Proof. induction polls as [|polls IH]; [done|]. apply IH. Qed.

Lemma wait_answer_first polls id answer rest tr al :
  wait_answer (S polls) id
    {| hh_requests := {| rq_registered := true; pending_messages := (id, answer) :: rest |}; hh_trace := tr; allocations := al |}
  = Done (answer, {| hh_requests := {| rq_registered := true; pending_messages := rest |}; hh_trace := tr; allocations := al |}).
Proof.
  cbn [wait_answer]. unfold hardware_next_event, on_requests, zoom, requests_next_event, mbind, M_bind.
  cbn. by rewrite bool_decide_true.
Qed.

Lemma access_with_response_run polls ops tr : (0 < polls)%nat → Forall op_ok ops →
  access_with_response polls ops tr =
    if negb (allocates tr ops) then Panic PExplicit
    else if bool_decide (responses tr ops = []) then NoFuel
    else Done (responses tr ops, tr ++ concat (op_accesses <$> ops)).
Proof.
  intros Hpolls Hops. unfold access_with_response, on_kernel, emit_hardware, mbind, M_bind.
  rewrite (hardware_access_run _ _ _ ops) by (by try apply hardware_access_roundtrip).
  cbn [hh_trace handler_at]. destruct (allocates tr ops); [|done]. cbn [negb].
  destruct (decide (responses tr ops = [])) as [Hr|Hr].
  - rewrite (bool_decide_true _ Hr), (bool_decide_false (responses tr ops ≠ [])) by naive_solver.
    pose proof (wait_nothing polls DRIVER_MESSAGE (tr ++ concat (op_accesses <$> ops))) as Hw.
    unfold handler_at in Hw |- *. cbn [allocations hh_requests]. by rewrite Hw.
  - rewrite (bool_decide_true _ Hr), (bool_decide_false _ Hr). destruct polls as [|polls]; [lia|].
    unfold handler_at. cbn [hh_requests rq_registered pending_messages allocations app].
    rewrite wait_answer_first. cbn. by rewrite access_responses_roundtrip.
Qed.

Lemma wb_send_run b tr : wb_operations b ≠ [] → Forall op_ok (wb_operations b) →
  wb_send b tr = if allocates tr (wb_operations b) then Done (tt, tr ++ concat (op_accesses <$> wb_operations b))
                 else Panic PExplicit.
Proof.
  intros Hne Hok. unfold wb_send. destruct (wb_operations b) as [|op ops] eqn:Hb; [done|]. rewrite <-Hb in *.
  unfold on_kernel, emit_hardware. rewrite (hardware_access_run _ _ _ (wb_operations b)) by (by try apply hardware_access_roundtrip).
  cbn [hh_trace handler_at]. by destruct (allocates _ _).
Qed.

(** ** The calls *)

(** What the hardware does on a call: the accesses, and what is read when it is
    made, if the call reads. *)
Definition call_accesses (c : Call) : list access :=
  match c with
  | CallRead a len => MemRead 1 <$> addresses 1 len a
  | CallReadU32 a len => MemRead 4 <$> addresses 4 len a
  | CallMemset a len v => (λ x, MemWrite 1 x v) <$> addresses 1 (Z.to_nat len) a
  | CallWrite a data => zip_with (MemWrite 1) (addresses 1 (length data) a) data
  | CallWriteOneU32 a data => [MemWrite 4 a data]
  | CallPortWriteU8 p data => [PortWrite 1 p data]
  | CallPortWriteU16 p data => [PortWrite 2 p data]
  | CallPortWriteU32 p data => [PortWrite 4 p data]
  | CallPortReadU8 p | CallDiscardU8 p => [PortRead 1 p]
  | CallPortReadU16 p | CallDiscardU16 p => [PortRead 2 p]
  | CallPortReadU32 p | CallDiscardU32 p => [PortRead 4 p]
  end.

Definition call_result (tr : list access) (c : Call) : option Filled :=
  match c with
  | CallRead a len => Some (Slice (padded_reads tr 1 (Z.of_nat len) a))
  | CallReadU32 a len => Some (Slice (padded_reads tr 4 (Z.of_nat len) a))
  | CallPortReadU8 p => Some (Value (default 0 (read_port tr 1 p)))
  | CallPortReadU16 p => Some (Value (default 0 (read_port tr 2 p)))
  | CallPortReadU32 p => Some (Value (default 0 (read_port tr 4 p)))
  | CallDiscardU8 _ | CallDiscardU16 _ | CallDiscardU32 _ => Some Untouched
  | _ => None
  end.

Fixpoint call_results (tr : list access) (cs : list Call) : list Filled :=
  match cs with
  | [] => []
  | c :: cs => option_list (call_result tr c) ++ call_results (tr ++ call_accesses c) cs
  end.

(** The operation and the destination that a call pushes. *)
Definition call_op (c : Call) : Operation :=
  match c with
  | CallRead a len => PhysicalMemoryReadU8 a (len_u32 len)
  | CallReadU32 a len => PhysicalMemoryReadU32 a (len_u32 len)
  | CallMemset a len v => PhysicalMemoryMemset a len v
  | CallWrite a data => PhysicalMemoryWriteU8 a data
  | CallWriteOneU32 a data => PhysicalMemoryWriteU32 a [data]
  | CallPortWriteU8 p data => PortWriteU8 p data
  | CallPortWriteU16 p data => PortWriteU16 p data
  | CallPortWriteU32 p data => PortWriteU32 p data
  | CallPortReadU8 p | CallDiscardU8 p => PortReadU8 p
  | CallPortReadU16 p | CallDiscardU16 p => PortReadU16 p
  | CallPortReadU32 p | CallDiscardU32 p => PortReadU32 p
  end.
Definition call_out (c : Call) : option Out :=
  match c with
  | CallRead _ len => Some (MemReadU8 len)
  | CallReadU32 _ len => Some (MemReadU32 len)
  | CallPortReadU8 _ => Some PortU8
  | CallPortReadU16 _ => Some PortU16
  | CallPortReadU32 _ => Some PortU32
  | CallDiscardU8 _ | CallDiscardU16 _ | CallDiscardU32 _ => Some Discard
  | _ => None
  end.

Lemma do_call_push b c : do_call b c = ob_push (call_op c) (call_out c) b.
Proof. by destruct c. Qed.

Lemma do_calls cs b : foldl do_call b cs =
  {| operations := operations b ++ (call_op <$> cs); out := out b ++ omap call_out cs |}.
Proof.
  revert b. induction cs as [|c cs IH]; intros b; simpl; [rewrite !app_nil_r; by destruct b|].
  rewrite do_call_push, IH. simpl. rewrite <- !app_assoc. by destruct (call_out c).
Qed.

Lemma len_u32_small len : Z.of_nat len ≤ u32_max → len_u32 len = Z.of_nat len.
Proof. intros. unfold len_u32. apply Z.mod_small. unfold u32_max in *. lia. Qed.

Lemma call_op_accesses c : call_ok c → op_accesses (call_op c) = call_accesses c.
Proof.
  destruct c; simpl; try done; [intros [_ Hl]; by rewrite len_u32_small, Nat2Z.id..|].
  intros Ha. rewrite addresses_step by lia. destruct (checked_add_u64 address 4); simpl; [by rewrite addresses_0|done].
Qed.

Lemma call_op_ok c : call_ok c → op_ok (call_op c).
Proof. destruct c; simpl; tauto. Qed.

Lemma length_padded_reads tr w len a : length (padded_reads tr w (Z.of_nat len) a) = len.
Proof.
  unfold padded_reads. rewrite length_app, length_reads_at, length_replicate, Nat2Z.id.
  pose proof (length_addresses (Z.of_nat w) len a). lia.
Qed.

(** The answer to a call goes where it belongs. *)
Lemma call_response tr c : call_ok c →
  match op_response tr (call_op c), call_out c, call_result tr c with
  | Some r, Some o, Some f => fill r o = Done f
  | None, None, None => True
  | _, _, _ => False
  end.
Proof.
  destruct c; simpl; try done; intros [_ Hl]; rewrite len_u32_small by done; unfold fill_slice;
    by rewrite bool_decide_true by apply length_padded_reads.
Qed.

Lemma fill_calls tr cs : Forall call_ok cs →
  fill_all (responses tr (call_op <$> cs)) (omap call_out cs) = Done (call_results tr cs).
Proof.
  intros Hcs. revert tr. induction Hcs as [|c cs Hc _ IH]; intros tr; simpl; [done|].
  pose proof (call_response tr c Hc) as Hr. rewrite call_op_accesses by done.
  destruct (op_response tr (call_op c)) as [r|], (call_out c) as [o|], (call_result tr c) as [f|]; try done; simpl.
  - rewrite Hr. simpl. by rewrite IH.
  - apply IH.
Qed.

Lemma accesses_calls cs : Forall call_ok cs → op_accesses <$> (call_op <$> cs) = call_accesses <$> cs.
Proof. induction 1 as [|c cs Hc _ IH]; [done|]. rewrite !fmap_cons, call_op_accesses by done. by rewrite IH. Qed.

Lemma responses_reads tr cs : Forall call_ok cs →
  responses tr (call_op <$> cs) = [] ↔ Forall (λ c, call_out c = None) cs.
Proof.
  intros Hcs. revert tr. induction Hcs as [|c cs Hc _ IH]; intros tr; simpl; [by split|].
  pose proof (call_response tr c Hc) as Hr. rewrite Forall_cons.
  destruct (op_response tr (call_op c)) as [r|], (call_out c) as [o|], (call_result tr c) as [f|]; try done; simpl.
  - split; [done|by intros [? _]].
  - rewrite IH. tauto.
Qed.

Lemma driver_send_run (polls : nat) (cs : list Call) (tr : list access) :
  (0 < polls)%nat → Forall call_ok cs →
  ob_send_within polls (foldl do_call HardwareOperationsBuilder_new cs) tr =
    if negb (allocates tr (call_op <$> cs)) then Panic PExplicit
    else if bool_decide (Forall (λ c, call_out c = None) cs) then NoFuel
    else Done (call_results tr cs, tr ++ concat (call_accesses <$> cs)).
Proof.
  intros Hpolls Hcs. rewrite do_calls. unfold ob_send_within, mbind, M_bind. cbn [operations out app HardwareOperationsBuilder_new].
  rewrite access_with_response_run by (done || (apply Forall_fmap; eapply Forall_impl; [done|apply call_op_ok])).
  rewrite accesses_calls by done. rewrite (bool_decide_ext _ _ (responses_reads tr cs Hcs)).
  destruct (allocates _ _); [|done]. cbn [negb]. case_bool_decide; [done|]. unfold liftM. by rewrite fill_calls.
Qed.

(** Calls that read no memory, or that the allocator serves. *)
Lemma driver_send_sound (cs : list Call) (tr : list access) :
  Forall call_ok cs → allocates tr (call_op <$> cs) = true →
  ob_send (foldl do_call HardwareOperationsBuilder_new cs) tr =
    if bool_decide (Forall (λ c, call_out c = None) cs) then NoFuel
    else Done (call_results tr cs, tr ++ concat (call_accesses <$> cs)).
Proof. intros Hcs Hall. unfold ob_send. rewrite driver_send_run by (done || lia). by rewrite Hall. Qed.

Lemma port_read_run p tr : hw_port_read_u8 p tr = Done (default 0 (read_port tr 1 p), tr ++ [PortRead 1 p]).
Proof.
  unfold hw_port_read_u8. pose proof (driver_send_sound [CallPortReadU8 p] tr) as Hs.
  rewrite bool_decide_false in Hs by (by intros [? _]%Forall_cons). erewrite bind_run by (apply Hs; by repeat constructor). done.
Qed.

(** Operations that read no memory need no allocation. *)
Lemma wb_send_ports b tr : wb_operations b ≠ [] → Forall op_ok (wb_operations b) →
  Forall (λ op, op_bytes op = 0) (wb_operations b) →
  wb_send b tr = Done (tt, tr ++ concat (op_accesses <$> wb_operations b)).
Proof. intros Hne Hok Hb. rewrite wb_send_run by done. by rewrite allocates_free. Qed.

Lemma port_write_run p v tr : hw_port_write_u8 p v tr = Done (tt, tr ++ [PortWrite 1 p v]).
Proof. unfold hw_port_write_u8. by rewrite wb_send_ports by (done || by repeat constructor). Qed.

(** C38: a driver that builds operations by any sequence of calls, sends them
    and polls the kernel for the answer any number of times: if the allocator
    serves the reads, the kernel makes exactly the accesses of the calls, in
    their order; if one of the calls reads, each place given to a call that
    reads receives what the hardware gave at that point of the sequence, and
    nothing panics; if none does, the kernel's handler has no answer to give,
    and however often it is polled the driver is still waiting.  If the
    allocator fails on a read, the kernel panics. *)
Theorem driver_send_ok (polls : nat) (cs : list Call) (tr : list access) :
  (0 < polls)%nat → Forall call_ok cs →
  ob_send_within polls (foldl do_call HardwareOperationsBuilder_new cs) tr =
    if negb (allocates tr (call_op <$> cs)) then Panic PExplicit
    else if bool_decide (Forall (λ c, call_out c = None) cs) then NoFuel
    else Done (call_results tr cs, tr ++ concat (call_accesses <$> cs)).
Proof. apply driver_send_run. Qed.

(** What a driver writes in a buffer in physical memory it reads back, if the
    kernel can allocate the answer. *)
Theorem physical_buffer_roundtrip `{!PlatformMemory} (alignment ptr : Z) (data : list Z) (tr : list access) :
  1 ≤ alignment ≤ u8_max → 0 < ptr → ptr mod alignment = 0 → ptr + Z.of_nat (length data) ≤ u64_max →
  Z.of_nat (length data) ≤ u32_max → Forall (fits_width 1) data →
  (∀ tr, can_allocate tr (Z.of_nat (length data)) = true) →
  ∃ buf tr', PhysicalBuffer_new alignment ptr data tr = Done (buf, tr') ∧ pb_ptr buf = ptr ∧
    fst <$> pb_read_inner buf (length data) tr' = Done data.
Proof.
  intros Hal Hptr Hmod Hend Hlen Hdata Hall. unfold PhysicalBuffer_new, mbind, M_bind, liftM, driver_malloc.
  rewrite (proj2 (uint_try_from_Some u8_max _ alignment)) by lia. cbn [unwrap].
  rewrite (bool_decide_false (ptr = 0)) by lia. rewrite (bool_decide_false (alignment = 0)) by lia.
  rewrite (bool_decide_true (ptr mod alignment = 0)) by done.
  cbn [negb assert_ debug_assert mbind outcome_bind mret outcome_ret]. unfold pb_write.
  rewrite wb_send_run by (done || (apply Forall_singleton; simpl; lia)).
  eexists _, _. split; [done|]. split; [done|].
  unfold pb_read_inner, mbind, M_bind, liftM. rewrite (proj2 (uint_try_from_Some u32_max _ (Z.of_nat (length data)))) by lia.
  cbn [unwrap pb_ptr]. rewrite access_with_response_run by (lia || (apply Forall_singleton; simpl; lia)).
  cbn [allocates op_bytes]. rewrite Hall. cbn [andb negb responses op_response option_list app length].
  rewrite bool_decide_false by done. rewrite (bool_decide_true (1%nat = 1%nat)) by done.
  cbn. f_equal. rewrite app_nil_r. apply (padded_reads_ram tr 1); [lia..|done].
Qed.

End calls.
