(* ===== verification/Pci.v ===== *)
(** The enumeration of the PCI devices ([modules/x86-pci/src/main.rs]) and its
    messages ([interfaces/pci/src/ffi.rs]).

    The names of the devices, which are only logged, and the log are left
    out. *)
From S2P Require Import Prelude Hardware Drivers.

(** * Messages *)

Inductive PciBaseAddressRegister :=
  | Memory (base_address : Z) (prefetchable : bool)
  | Io (base_address : Z).

Record PciDeviceInfo := {
  vendor_id : Z;
  device_id : Z;
  base_address_registers : list PciBaseAddressRegister;
}.

(** * Enumeration *)

Section pci.
Context `{Platform} `{ScaleHandlers} `{ScaleDrivers}.

Definition cfg_addr (bus slot func offset : Z) : Z :=
  Z.lor (Z.lor (Z.lor (Z.lor 0x80000000 (bus ≪ 16)) (slot ≪ 11)) (func ≪ 8)) offset.

Definition pci_cfg_read_u32 (bus slot func offset : Z) : M (list access) Z :=
  _ ← liftM (assert_ (bool_decide (slot < 32)));
  _ ← liftM (assert_ (bool_decide (func < 8)));
  _ ← liftM (assert_ (bool_decide (Z.land offset 3 = 0)));
  let operations_builder := HardwareOperationsBuilder_new in
  let operations_builder := ob_port_write_u32 0xcf8 (cfg_addr bus slot func offset) operations_builder in
  let operations_builder := ob_port_read_u32 0xcfc operations_builder in
  fs ← ob_send operations_builder;
  mret (default 0 (value_of <$> head fs)).

(** [!x] on a [u32]. *)
Definition not_u32 (x : Z) : Z := u32_max - x.

Definition decode_bar (bar : Z) : PciBaseAddressRegister :=
  if bool_decide (Z.land bar 0x1 = 0) then
    let prefetchable := bool_decide (Z.land bar (1 ≪ 3) ≠ 0) in
    let base_address := Z.land bar (not_u32 15) in
    Memory base_address prefetchable
  else Io (Z.land bar (not_u32 3)).

Fixpoint read_bars (bus slot func : Z) (bars : list Z) : M (list access) (list PciBaseAddressRegister) :=
  match bars with
  | [] => mret []
  | bar_n :: bars =>
      bar ← pci_cfg_read_u32 bus slot func (0x10 + bar_n * 0x4);
      rest ← read_bars bus slot func bars;
      mret (decode_bar bar :: rest)
  end.

(** The body of the inner loop; [None] is [continue]. *)
Definition read_function (bus_idx device_idx func_idx : Z) : M (list access) (option PciDeviceInfo) :=
  vendor_device ← pci_cfg_read_u32 bus_idx device_idx func_idx 0;
  vendor_id ← liftM (unwrap (u16_try_from (Z.land vendor_device 0xffff)));
  device_id ← liftM (unwrap (u16_try_from (vendor_device ≫ 16)));
  if bool_decide (vendor_id = 0xffff) then mret None else
  _ ← pci_cfg_read_u32 bus_idx device_idx func_idx 0xc;
  _ ← pci_cfg_read_u32 bus_idx device_idx func_idx 0x8;
  list ← read_bars bus_idx device_idx func_idx [0; 1; 2; 3; 4; 5];
  mret (Some {| vendor_id := vendor_id; device_id := device_id; base_address_registers := list |}).

(** A loop that pushes to [out]. *)
Fixpoint push_each {A B} (f : A → M (list access) (list B)) (l : list A) (out : list B) : M (list access) (list B) :=
  match l with
  | [] => mret out
  | x :: l => new ← f x; push_each f l (out ++ new)
  end.

Definition read_bus_pci_devices (bus_idx : Z) : M (list access) (list PciDeviceInfo) :=
  push_each (λ device_idx,
    push_each (λ func_idx,
      info ← read_function bus_idx device_idx func_idx;
      mret (option_list info)) (seqZ 0 8) []) (seqZ 0 32) [].

Definition read_pci_devices : M (list access) (list PciDeviceInfo) := read_bus_pci_devices 0.

End pci.

(** * The devices that are there *)

(** The configuration space: a read of the port 0xcfc gives the register whose
    address was written to the port 0xcf8. *)
Class ConfigSpace `{Platform} (cfg : Z → Z → Z → Z → Z) := {
  config_read : ∀ tr bus slot func offset, 0 ≤ bus < 256 → 0 ≤ slot < 32 → 0 ≤ func < 8 → 0 ≤ offset < 256 →
    read_port (tr ++ [PortWrite 4 0xcf8 (2 ^ 31 + bus * 2 ^ 16 + slot * 2 ^ 11 + func * 2 ^ 8 + offset)]) 4 0xcfc =
      Some (cfg bus slot func offset);
  config_u32 : ∀ bus slot func offset, 0 ≤ cfg bus slot func offset < 2 ^ 32;
}.

Lemma cfg_addr_fields bus slot func offset : 0 ≤ bus < 256 → 0 ≤ slot < 32 → 0 ≤ func < 8 → 0 ≤ offset < 256 →
  cfg_addr bus slot func offset = 2 ^ 31 + bus * 2 ^ 16 + slot * 2 ^ 11 + func * 2 ^ 8 + offset.
Proof.
  intros Hb Hs Hf Ho. unfold cfg_addr. rewrite !Z.shiftl_mul_pow2 by done.
  change 0x80000000 with (1 ≪ 31). rewrite (lor_disjoint_add 1 (bus * 2 ^ 16) 31) by lia.
  replace (1 * 2 ^ 31 + bus * 2 ^ 16) with ((2 ^ 15 + bus) ≪ 16) by (rewrite Z.shiftl_mul_pow2 by done; lia).
  rewrite (lor_disjoint_add _ (slot * 2 ^ 11) 16) by lia.
  replace ((2 ^ 15 + bus) * 2 ^ 16 + slot * 2 ^ 11) with ((2 ^ 20 + bus * 2 ^ 5 + slot) ≪ 11) by (rewrite Z.shiftl_mul_pow2 by done; lia).
  rewrite (lor_disjoint_add _ (func * 2 ^ 8) 11) by lia.
  replace ((2 ^ 20 + bus * 2 ^ 5 + slot) * 2 ^ 11 + func * 2 ^ 8) with ((2 ^ 23 + bus * 2 ^ 8 + slot * 2 ^ 3 + func) ≪ 8)
    by (rewrite Z.shiftl_mul_pow2 by done; lia).
  rewrite (lor_disjoint_add _ offset 8) by lia. lia.
Qed.

(** A base address register, as the specification of the bus describes it. *)
Definition bar_spec (bar : Z) : PciBaseAddressRegister :=
  if Z.even bar then Memory (bar / 16 * 16) (Z.testbit bar 3) else Io (bar / 4 * 4).

Lemma decode_bar_ok bar : 0 ≤ bar < 2 ^ 32 → decode_bar bar = bar_spec bar.
Proof.
  intros Hb. unfold decode_bar, bar_spec, not_u32.
  change (u32_max - 15) with (2 ^ 32 - 2 ^ 4). change (u32_max - 3) with (2 ^ 32 - 2 ^ 2). rewrite !land_high by lia.
  change (Z.land bar 0x1) with (Z.land bar (2 ^ 1 - 1)). rewrite land_low by lia. rewrite Zmod_even.
  destruct (Z.even bar); [|done]. rewrite (bool_decide_true (0 = 0)) by done. f_equal.
  change (1 ≪ 3) with (2 ^ 3). rewrite land_bit by done. by destruct (Z.testbit bar 3).
Qed.

Section enumeration.
Context `{Platform} (cfg : Z → Z → Z → Z → Z) `{!ConfigSpace cfg}.
Context `{ScaleHandlers} `{ScaleDrivers} `{!ScaleDriversLaws}.

(** What the configuration space says of a function: nothing if there is none,
    which its vendor tells. *)
Definition function_at (bus slot func : Z) : option PciDeviceInfo :=
  let id := cfg bus slot func 0 in
  if bool_decide (id mod 2 ^ 16 = 0xffff) then None else
  Some {| vendor_id := id mod 2 ^ 16; device_id := id / 2 ^ 16;
          base_address_registers := (λ n, bar_spec (cfg bus slot func (0x10 + n * 4))) <$> [0; 1; 2; 3; 4; 5] |}.

(** Accesses to the two ports of the configuration space. *)
Definition config_access (a : access) : Prop :=
  match a with PortWrite 4 p _ => p = 0xcf8 | PortRead 4 p => p = 0xcfc | _ => False end.

Definition config_run {A} (m : M (list access) A) (v : A) : Prop :=
  ∀ tr, ∃ tr', m tr = Done (v, tr ++ tr') ∧ Forall config_access tr'.

Lemma config_run_ret {A} (v : A) : config_run (mret v) v.
Proof. intros tr. exists []. by rewrite app_nil_r. Qed.
Lemma config_run_lift {A} (m : outcome A) (v : A) : m = Done v → config_run (liftM m) v.
Proof. intros -> tr. exists []. by rewrite app_nil_r. Qed.
Lemma config_run_bind {A B} (m : M (list access) A) (f : A → M (list access) B) v w :
  config_run m v → config_run (f v) w → config_run (m ≫= f) w.
Proof.
  intros Hm Hf tr. destruct (Hm tr) as (tr1 & Hrun1 & Ha1). destruct (Hf (tr ++ tr1)) as (tr2 & Hrun2 & Ha2).
  exists (tr1 ++ tr2). rewrite (bind_run _ _ _ _ _ Hrun1), Hrun2, app_assoc. split; [done|]. by apply Forall_app.
Qed.

Lemma cfg_read_run bus slot func offset : 0 ≤ bus < 256 → 0 ≤ slot < 32 → 0 ≤ func < 8 → 0 ≤ offset < 256 → offset mod 2 ^ 2 = 0 →
  config_run (pci_cfg_read_u32 bus slot func offset) (cfg bus slot func offset).
Proof.
  intros Hb Hs Hf Ho Hal. unfold pci_cfg_read_u32. change 3 with (2 ^ 2 - 1). rewrite land_low by done.
  rewrite !bool_decide_true by (done || lia).
  do 3 (eapply config_run_bind; [by apply config_run_lift|]).
  intros tr. exists [PortWrite 4 0xcf8 (cfg_addr bus slot func offset); PortRead 4 0xcfc]. split; [|by repeat constructor].
  pose proof (driver_send_sound [CallPortWriteU32 0xcf8 (cfg_addr bus slot func offset); CallPortReadU32 0xcfc] tr) as Hsend.
  rewrite bool_decide_false in Hsend by (by intros (_ & [? _]%Forall_cons)%Forall_cons).
  erewrite bind_run by (apply Hsend; by repeat constructor). cbn [call_results call_result call_accesses].
  rewrite cfg_addr_fields by done. by rewrite config_read by done.
Qed.

Lemma read_bars_run bus slot func bars : 0 ≤ bus < 256 → 0 ≤ slot < 32 → 0 ≤ func < 8 → Forall (λ n, 0 ≤ n < 6) bars →
  config_run (read_bars bus slot func bars) ((λ n, bar_spec (cfg bus slot func (0x10 + n * 4))) <$> bars).
Proof.
  intros Hb Hs Hf. induction 1 as [|n bars Hn _ IH]; cbn [read_bars fmap list_fmap]; [apply config_run_ret|].
  eapply config_run_bind; [apply cfg_read_run; [done|done|done|lia|]|].
  { replace (0x10 + n * 4) with ((4 + n) * 2 ^ 2) by lia. by apply Z.mod_mul. }
  eapply config_run_bind; [exact IH|]. rewrite decode_bar_ok by apply config_u32. apply config_run_ret.
Qed.

Lemma read_function_run bus slot func : 0 ≤ bus < 256 → 0 ≤ slot < 32 → 0 ≤ func < 8 →
  config_run (read_function bus slot func) (function_at bus slot func).
Proof.
  intros Hb Hs Hf. unfold read_function, function_at. pose proof (config_u32 bus slot func 0) as Hid.
  eapply config_run_bind; [apply cfg_read_run; done || lia|]. change (Z.land (cfg bus slot func 0) 0xffff) with (Z.land (cfg bus slot func 0) (2 ^ 16 - 1)). rewrite land_low by done.
  pose proof (Z.mod_pos_bound (cfg bus slot func 0) (2 ^ 16)).
  eapply config_run_bind; [apply config_run_lift, unwrap_try_from; unfold u16_max; lia|].
  rewrite Z.shiftr_div_pow2 by done.
  eapply config_run_bind; [apply config_run_lift, unwrap_try_from; unfold u16_max; split; [apply Z.div_pos; lia|]|].
  { pose proof (Z.div_lt_upper_bound (cfg bus slot func 0) (2 ^ 16) (2 ^ 16)). lia. }
  case_bool_decide; [apply config_run_ret|].
  do 2 (eapply config_run_bind; [apply cfg_read_run; done || lia|]).
  eapply config_run_bind; [apply read_bars_run; [done..|]; repeat constructor; lia|]. apply config_run_ret.
Qed.

Lemma push_each_run {A B} (f : A → M (list access) (list B)) (g : A → list B) l : (∀ x, x ∈ l → config_run (f x) (g x)) →
  ∀ out, config_run (push_each f l out) (out ++ (l ≫= g)).
Proof.
  induction l as [|x l IH]; intros Hf out; cbn [push_each].
  - rewrite app_nil_r. apply config_run_ret.
  - eapply config_run_bind; [apply Hf; by left|]. rewrite bind_cons, app_assoc. apply IH. intros y Hy. apply Hf. by right.
Qed.

Lemma omap_bind {A B} (f : A → option B) (l : list A) : omap f l = l ≫= λ x, option_list (f x).
Proof. induction l as [|x l IH]; [done|]. cbn. rewrite <- IH. by destruct (f x). Qed.

(** C37: the list of the PCI devices is, in their order, that of the functions
    of the bus 0 which have a vendor, with their identifiers and their base
    address registers, as the specification of the configuration space
    describes them; the enumeration ends, and only uses the two ports of the
    configuration space. *)
Theorem pci_devices_ok (tr : list access) : ∃ tr',
  read_pci_devices tr =
    Done (seqZ 0 32 ≫= (λ slot, omap (λ func, function_at 0 slot func) (seqZ 0 8)), tr ++ tr') ∧
  Forall config_access tr'.
Proof.
  revert tr. change (config_run read_pci_devices (seqZ 0 32 ≫= λ slot, omap (λ func, function_at 0 slot func) (seqZ 0 8))).
  apply (push_each_run _ (λ slot, omap (λ func, function_at 0 slot func) (seqZ 0 8)) _) with (out := []).
  intros slot Hslot%elem_of_seqZ. rewrite omap_bind.
  apply (push_each_run _ (λ func, option_list (function_at 0 slot func)) _) with (out := []).
  intros func Hfunc%elem_of_seqZ. eapply config_run_bind; [apply read_function_run; lia|]. apply config_run_ret.
Qed.

End enumeration.
