(* ===== verification/Ne2000.v ===== *)
(** The driver of the ne2000 network card ([modules/ne2000/src/device.rs]).

    The methods are computations on the driver and on the trace of the
    hardware ([Drivers.v]).  Bytes are integers.  The line that [reset] logs is
    left out. *)
From S2P Require Import Prelude Hardware Drivers.

Record Device := {
  base_port : Z;
  transmitting : option (Z * Z);
  next_write_page : Z;
  pending_transmit : list (Z * Z);
  pending_packet : option (list Z);
  next_to_read : Z;
  mac_address : list Z;
}.

Definition READ_BUFFER_PAGES : Z * Z := (0x4c, 0x60).
Definition WRITE_BUFFER_PAGES : Z * Z := (0x40, 0x4c).

(** [base_port + n]. *)
Definition reg (base_port n : Z) : outcome Z := u32_add base_port n.

(** [u16::to_le_bytes]. *)
Definition u16_bytes (v : Z) : Z * Z := (v mod 256, v / 256).

Section ne2000.
Context `{Platform} `{ScaleHandlers} `{ScaleDrivers}.

(** ** The memory of the card *)

(** [u16::try_from(data.len())], which is otherwise an explicit panic. *)
Definition dma_len (len : nat) : outcome (Z * Z) :=
  match u16_try_from (Z.of_nat len) with
  | Some len => Done (u16_bytes len)
  | None => Panic PExplicit
  end.

Definition dma_read (base_port : Z) (len : nat) (page_start page_offset : Z) : M (list access) (list Z) :=
  if bool_decide (len = 0%nat) then mret [] else
  _ ← liftM (assert_ (bool_decide (page_start + ((Z.of_nat len - 1) / 256 + 1) < 0x60)));
  lohi ← liftM (dma_len len);
  r10 ← liftM (reg base_port 10);
  r11 ← liftM (reg base_port 11);
  r8 ← liftM (reg base_port 8);
  r9 ← liftM (reg base_port 9);
  r0 ← liftM (reg base_port 0);
  r16 ← liftM (reg base_port 16);
  let ops := HardwareOperationsBuilder_new in
  let ops := ob_port_write_u8 r10 (fst lohi) ops in
  let ops := ob_port_write_u8 r11 (snd lohi) ops in
  let ops := ob_port_write_u8 r8 page_offset ops in
  let ops := ob_port_write_u8 r9 page_start ops in
  let ops := ob_port_write_u8 r0 (Z.lor (1 ≪ 3) (1 ≪ 1)) ops in
  let ops := Nat.iter len (ob_port_read_u8 r16) ops in
  fs ← ob_send ops;
  mret (value_of <$> fs).

Definition dma_write (base_port : Z) (data : list Z) (page_start : Z) : M (list access) unit :=
  if bool_decide (data = []) then mret tt else
  _ ← liftM (assert_ (bool_decide (0x40 ≤ page_start ∧
                                   page_start + ((Z.of_nat (length data) - 1) / 256 + 1) < 0x60)));
  lohi ← liftM (dma_len (length data));
  r10 ← liftM (reg base_port 10);
  r11 ← liftM (reg base_port 11);
  r8 ← liftM (reg base_port 8);
  r9 ← liftM (reg base_port 9);
  r0 ← liftM (reg base_port 0);
  r16 ← liftM (reg base_port 16);
  let ops := HardwareWriteOperationsBuilder_new in
  let ops := wb_port_write_u8 r10 (fst lohi) ops in
  let ops := wb_port_write_u8 r11 (snd lohi) ops in
  let ops := wb_port_write_u8 r8 0 ops in
  let ops := wb_port_write_u8 r9 page_start ops in
  let ops := wb_port_write_u8 r0 (Z.lor (1 ≪ 4) (1 ≪ 1)) ops in
  let ops := foldl (λ ops byte, wb_port_write_u8 r16 byte ops) ops data in
  wb_send ops.

(** ** Initialization *)

(** [port_write_u8(base_port + n, value)]. *)
Definition write_reg (base_port n value : Z) : M (list access) unit :=
  p ← liftM (reg base_port n);
  hw_port_write_u8 p value.

(** The loop that waits for the end of the reset. *)
Fixpoint wait_reset (fuel : nat) (base_port : Z) : M (list access) unit :=
  match fuel with
  | O => never
  | S fuel =>
      p ← liftM (reg base_port 7);
      val ← hw_port_read_u8 p;
      if bool_decide (Z.land val 0x80 ≠ 0) then mret tt else wait_reset fuel base_port
  end.

Definition reset (fuel : nat) (base_port : Z) : M (list access) Device :=
  r ← liftM (reg base_port 0x1f);
  v ← hw_port_read_u8 r;
  _ ← hw_port_write_u8 r v;
  _ ← wait_reset fuel base_port;
  _ ← write_reg base_port 7 0xff;
  _ ← write_reg base_port 0 (Z.lor (1 ≪ 5) (1 ≪ 0));
  _ ← write_reg base_port 12 (Z.lor (Z.lor (1 ≪ 3) (1 ≪ 2)) (1 ≪ 1));
  _ ← write_reg base_port 13 (1 ≪ 2);
  _ ← write_reg base_port 14 (Z.lor (Z.lor (1 ≪ 6) (1 ≪ 4)) (1 ≪ 3));
  buffer ← dma_read base_port 32 0 0;
  mac ← liftM (b0 ← index buffer 0; b2 ← index buffer 2; b4 ← index buffer 4;
               b6 ← index buffer 6; b8 ← index buffer 8; b10 ← index buffer 10;
               mret [b0; b2; b4; b6; b8; b10]);
  _ ← write_reg base_port 4 0x40;
  _ ← write_reg base_port 1 (fst READ_BUFFER_PAGES);
  _ ← write_reg base_port 3 (fst READ_BUFFER_PAGES);
  _ ← write_reg base_port 2 (snd READ_BUFFER_PAGES);
  _ ← write_reg base_port 15 0x1f;
  _ ← write_reg base_port 0 (Z.lor (Z.lor (1 ≪ 6) (1 ≪ 5)) (1 ≪ 0));
  _ ← for_each (λ n, v ← liftM (index mac n);
                     b ← liftM (reg base_port 1);
                     write_reg b (Z.of_nat n) v) (seq 0 6);
  _ ← for_each (λ n, write_reg base_port (Z.of_nat n) 0xff) (seq 8 8);
  _ ← write_reg base_port 7 (fst READ_BUFFER_PAGES);
  _ ← write_reg base_port 0 (Z.lor (1 ≪ 5) (1 ≪ 1));
  _ ← write_reg base_port 13 0;
  _ ← write_reg base_port 12 (Z.lor (1 ≪ 3) (1 ≪ 2));
  mret {| base_port := base_port; next_write_page := fst WRITE_BUFFER_PAGES; pending_packet := None;
          pending_transmit := []; transmitting := None; next_to_read := fst READ_BUFFER_PAGES; mac_address := mac |}.

(** ** Methods *)

(** The driver, and the hardware. *)
Record Ne2000 := { device : Device; ne_hw : list access }.

Definition on_hw {A} (m : M (list access) A) : M Ne2000 A :=
  zoom ne_hw (λ tr s, {| device := device s; ne_hw := tr |}) m.
Definition self : M Ne2000 Device := gets device.
Definition set_self (d : Device) : M Ne2000 unit := modify (λ s, {| device := d; ne_hw := ne_hw s |}).

Definition with_transmitting (t : option (Z * Z)) (d : Device) : Device :=
  {| base_port := base_port d; transmitting := t; next_write_page := next_write_page d;
     pending_transmit := pending_transmit d; pending_packet := pending_packet d; next_to_read := next_to_read d;
     mac_address := mac_address d |}.
Definition with_pending (q : list (Z * Z)) (d : Device) : Device :=
  {| base_port := base_port d; transmitting := transmitting d; next_write_page := next_write_page d;
     pending_transmit := q; pending_packet := pending_packet d; next_to_read := next_to_read d;
     mac_address := mac_address d |}.
Definition with_packet (n : Z) (p : option (list Z)) (d : Device) : Device :=
  {| base_port := base_port d; transmitting := transmitting d; next_write_page := n;
     pending_transmit := pending_transmit d; pending_packet := p; next_to_read := next_to_read d;
     mac_address := mac_address d |}.
Definition with_next (n : Z) (d : Device) : Device :=
  {| base_port := base_port d; transmitting := transmitting d; next_write_page := next_write_page d;
     pending_transmit := pending_transmit d; pending_packet := pending_packet d; next_to_read := n;
     mac_address := mac_address d |}.

(** Arithmetic on [u8] and [u16]. *)
Definition u8_sub (a b : Z) : outcome Z := uint_checked u8_max (a - b).
Definition u8_add (a b : Z) : outcome Z := uint_checked u8_max (a + b).
Definition u16_sub (a b : Z) : outcome Z := uint_checked u16_max (a - b).

(** [u8::try_from((len - 1) / 256 + 1).unwrap()]. *)
Definition pages_of (len : Z) : outcome Z :=
  l ← u16_sub len 1;
  unwrap (u8_try_from (l / 256 + 1)).

Definition send_transmit_command (page_start len : Z) : M Ne2000 unit :=
  d ← self;
  _ ← liftM (debug_assert (bool_decide (transmitting d = None)));
  _ ← liftM (debug_assert (negb (bool_decide (len = 0))));
  r4 ← liftM (reg (base_port d) 4);
  r5 ← liftM (reg (base_port d) 5);
  r6 ← liftM (reg (base_port d) 6);
  r0 ← liftM (reg (base_port d) 0);
  let ops := HardwareWriteOperationsBuilder_new in
  let ops := wb_port_write_u8 r4 page_start ops in
  let ops := wb_port_write_u8 r5 (fst (u16_bytes len)) ops in
  let ops := wb_port_write_u8 r6 (snd (u16_bytes len)) ops in
  let ops := wb_port_write_u8 r0 (Z.lor (Z.lor (1 ≪ 5) (1 ≪ 2)) (1 ≪ 1)) ops in
  _ ← on_hw (wb_send ops);
  pages ← liftM (pages_of len);
  page_end ← liftM (u8_add page_start pages);
  d ← self;
  set_self (with_transmitting (Some (page_start, page_end)) d).

(** The first half of [flush_out]: asks the card to transmit a packet that is
    in its memory. *)
Definition flush_transmit : M Ne2000 unit :=
  d ← self;
  match transmitting d, pending_transmit d with
  | None, (start_page, len) :: rest =>
      _ ← set_self (with_pending rest d);
      _ ← send_transmit_command start_page len;
      d ← self;
      liftM (debug_assert (bool_decide (is_Some (transmitting d))))
  | _, _ => mret tt
  end.

(** [space_available]. *)
Definition space_available (d : Device) (pages : Z) : outcome bool :=
  match transmitting d with
  | Some (start, end_) =>
      match u8_try_from (start - next_write_page d) with
      | Some dist_bef => Done (bool_decide (pages ≤ dist_bef))
      | None => _ ← debug_assert (bool_decide (end_ ≤ next_write_page d)); Done true
      end
  | None => Done true
  end.

(** The second half: copies [pending_packet] to the memory of the card. *)
Definition flush_packet : M Ne2000 unit :=
  d ← self;
  match pending_packet d with
  | None => mret tt
  | Some data =>
      pending_packet_len ← liftM (unwrap (u16_try_from (Z.of_nat (length data))));
      pending_packet_pages ← liftM (pages_of pending_packet_len);
      left ← liftM (u8_sub (snd WRITE_BUFFER_PAGES) (next_write_page d));
      let d := if bool_decide (left < pending_packet_pages)
               then with_packet (fst WRITE_BUFFER_PAGES) (pending_packet d) d else d in
      _ ← set_self d;
      left ← liftM (u8_sub (snd WRITE_BUFFER_PAGES) (next_write_page d));
      _ ← liftM (debug_assert (bool_decide (pending_packet_pages ≤ left)));
      space ← liftM (space_available d pending_packet_pages);
      if space : bool then
        _ ← set_self (with_packet (next_write_page d) None d);
        _ ← on_hw (dma_write (base_port d) data (next_write_page d));
        d ← self;
        _ ← (if bool_decide (is_Some (transmitting d))
             then set_self (with_pending (pending_transmit d ++ [(next_write_page d, pending_packet_len)]) d)
             else send_transmit_command (next_write_page d) pending_packet_len);
        d ← self;
        next ← liftM (u8_add (next_write_page d) pending_packet_pages);
        _ ← set_self (with_packet next (pending_packet d) d);
        d ← self;
        liftM (debug_assert (bool_decide (is_Some (transmitting d))))
      else mret tt
  end.

Definition flush_out : M Ne2000 unit :=
  _ ← flush_transmit;
  flush_packet.

(** [true] is [Ok(())]. *)
Definition send_packet (packet : list Z) : M Ne2000 bool :=
  d ← self;
  match pending_packet d with
  | Some _ => mret false
  | None =>
      _ ← liftM (assert_ (bool_decide (Z.of_nat (length packet) ≤ 1522)));
      _ ← set_self (with_packet (next_write_page d) (Some packet) d);
      _ ← flush_out;
      mret true
  end.

Definition read_one_incoming : M Ne2000 (option (list Z)) :=
  d ← self;
  _ ← liftM (debug_assert (bool_decide (fst READ_BUFFER_PAGES ≤ next_to_read d)));
  _ ← liftM (debug_assert (bool_decide (next_to_read d < snd READ_BUFFER_PAGES)));
  r0 ← liftM (reg (base_port d) 0);
  r16 ← liftM (reg (base_port d) 16);
  let ops := HardwareOperationsBuilder_new in
  let ops := ob_port_write_u8 r0 (Z.lor (Z.lor (1 ≪ 6) (1 ≪ 5)) (1 ≪ 1)) ops in
  let ops := ob_port_read_u8 r16 ops in
  let ops := ob_port_write_u8 r0 (Z.lor (1 ≪ 5) (1 ≪ 1)) ops in
  fs ← on_hw (ob_send ops);
  let curr_register := default 0 (value_of <$> head fs) in
  if bool_decide (curr_register = next_to_read d) then mret None else
  header ← on_hw (dma_read (base_port d) 4 (next_to_read d) 0);
  status ← liftM (index header 0);
  next_packet_page ← liftM (index header 1);
  lo ← liftM (index header 2);
  hi ← liftM (index header 3);
  let current_packet_len := lo + 256 * hi in
  if bool_decide (Z.land status 0x1f ≠ 1) then mret None else
  if bool_decide (next_packet_page < fst READ_BUFFER_PAGES ∨ snd READ_BUFFER_PAGES < next_packet_page) then mret None else
  if bool_decide (1536 < current_packet_len) then mret None else
  _ ← liftM (assert_ (bool_decide (fst READ_BUFFER_PAGES ≤ next_packet_page)));
  _ ← liftM (assert_ (bool_decide (next_packet_page ≤ snd READ_BUFFER_PAGES)));
  _ ← liftM (debug_assert (bool_decide (current_packet_len < 15522)));
  out_packet ← on_hw (dma_read (base_port d) (Z.to_nat current_packet_len) (next_to_read d) 4);
  let next := if bool_decide (next_packet_page = snd READ_BUFFER_PAGES)
              then fst READ_BUFFER_PAGES else next_packet_page in
  _ ← set_self (with_next next d);
  _ ← (if bool_decide (next = fst READ_BUFFER_PAGES)
       then on_hw (write_reg (base_port d) 3 (snd READ_BUFFER_PAGES - 1))
       else v ← liftM (u8_sub next 1); on_hw (write_reg (base_port d) 3 v));
  mret (Some out_packet).

End ne2000.
