(* ===== verification/Ne2000Spec.v ===== *)
(** Theorems on the driver of the ne2000 ([Ne2000.v]): the card, as its data
    sheet describes it, what the accesses of the driver do to its memory, and
    the packets that the driver sends and receives. *)
From S2P Require Import Prelude Hardware Drivers Ne2000.

(** * The card *)

(** The command register, the address of the remote DMA, the page and the
    length of the packet to transmit, the memory, and the packets that were
    transmitted. *)
Record Chip := {
  cr : Z;
  rsar : Z;
  tpsr : Z;
  tbcr : Z;
  ram : Z → Z;
  wire : list (list Z);
}.

Definition ram_slice (m : Z → Z) (start : Z) (len : nat) : list Z := (λ i, m (start + Z.of_nat i)) <$> seq 0 len.

Definition set_cr (v : Z) (c : Chip) : Chip :=
  {| cr := v; rsar := rsar c; tpsr := tpsr c; tbcr := tbcr c; ram := ram c; wire := wire c |}.
Definition set_rsar (v : Z) (c : Chip) : Chip :=
  {| cr := cr c; rsar := v; tpsr := tpsr c; tbcr := tbcr c; ram := ram c; wire := wire c |}.
Definition set_tx (p l : Z) (c : Chip) : Chip :=
  {| cr := cr c; rsar := rsar c; tpsr := p; tbcr := l; ram := ram c; wire := wire c |}.
Definition set_ram (m : Z → Z) (c : Chip) : Chip :=
  {| cr := cr c; rsar := rsar c; tpsr := tpsr c; tbcr := tbcr c; ram := m; wire := wire c |}.
Definition transmit (c : Chip) : Chip :=
  {| cr := cr c; rsar := rsar c; tpsr := tpsr c; tbcr := tbcr c; ram := ram c;
     wire := wire c ++ [ram_slice (ram c) (tpsr c * 256) (Z.to_nat (tbcr c))] |}.

(** A write to the register [n]: 0 is the command register, whose bit 2 starts a
    transmission; 16 is the data port, which writes to memory while a remote
    write (bit 4) is in progress; the others depend on the page of the
    registers (bits 6 and 7). *)
Definition chip_write (n v : Z) (c : Chip) : Chip :=
  if bool_decide (n = 0) then (if Z.testbit v 2 then transmit (set_cr v c) else set_cr v c) else
  if bool_decide (n = 16) then
    (if Z.testbit (cr c) 4 then set_rsar (rsar c + 1) (set_ram (λ x, if bool_decide (x = rsar c) then v else ram c x) c) else c)
  else if bool_decide (Z.land (cr c) 0xc0 ≠ 0) then c else
  if bool_decide (n = 4) then set_tx v (tbcr c) c else
  if bool_decide (n = 5) then set_tx (tpsr c) (tbcr c / 256 * 256 + v) c else
  if bool_decide (n = 6) then set_tx (tpsr c) (v * 256 + tbcr c mod 256) c else
  if bool_decide (n = 8) then set_rsar (rsar c / 256 * 256 + v) c else
  if bool_decide (n = 9) then set_rsar (v * 256 + rsar c mod 256) c else c.

(** A read of the data port while a remote read (bit 3) is in progress moves
    the address. *)
Definition chip_step (base : Z) (c : Chip) (a : access) : Chip :=
  match a with
  | PortWrite 1 p v => chip_write (p - base) v c
  | PortRead 1 p => if bool_decide (p = base + 16) && Z.testbit (cr c) 3 then set_rsar (rsar c + 1) c else c
  | _ => c
  end.

Definition chip (base : Z) (power_on : Chip) (tr : list access) : Chip := foldl (chip_step base) power_on tr.

Lemma chip_app base c tr1 tr2 : chip base c (tr1 ++ tr2) = chip base (chip base c tr1) tr2.
Proof. apply foldl_app. Qed.

(** ** The accesses of the driver *)

Lemma reg_ok base n : 0 ≤ base → 0 ≤ n → base + n ≤ u32_max → reg base n = Done (base + n).
Proof. intros. unfold reg, u32_add. apply uint_checked_Done. split; [done|lia]. Qed.

(** The memory after [data] was written from [start] on. *)
Definition ram_write (m : Z → Z) (start : Z) (data : list Z) : Z → Z := λ x,
  if bool_decide (start ≤ x < start + Z.of_nat (length data))
  then default 0 (data !! Z.to_nat (x - start)) else m x.

Lemma feed_data base data : ∀ c, Z.testbit (cr c) 4 = true →
  chip base c ((λ b, PortWrite 1 (base + 16) b) <$> data) =
    {| cr := cr c; rsar := rsar c + Z.of_nat (length data); tpsr := tpsr c; tbcr := tbcr c;
       ram := ram (chip base c ((λ b, PortWrite 1 (base + 16) b) <$> data)); wire := wire c |} ∧
  ∀ x, ram (chip base c ((λ b, PortWrite 1 (base + 16) b) <$> data)) x = ram_write (ram c) (rsar c) data x.
Proof.
  induction data as [|b data IH]; intros c Hc; cbn [fmap list_fmap].
  - simpl. rewrite Z.add_0_r. split; [by destruct c|]. intros x. unfold ram_write. simpl.
    rewrite bool_decide_false by lia. done.
  - change (chip base c (?a :: ?l)) with (chip base (chip_step base c a) l). cbn [chip_step].
    replace (base + 16 - base) with 16 by lia. unfold chip_write. cbn [bool_decide decide]. 
    rewrite (bool_decide_false (16 = 0)), (bool_decide_true (16 = 16)), Hc by done.
    set (c1 := set_rsar _ _). destruct (IH c1) as [IH1 IH2]; [done|]. split.
    + rewrite IH1 at 1. simpl. f_equal. lia.
    + intros x. rewrite IH2. unfold ram_write. simpl.
      destruct (decide (x = rsar c)) as [->|Hne].
      * rewrite (bool_decide_false (rsar c + 1 ≤ _ < _)) by lia. rewrite (bool_decide_true (rsar c = rsar c)) by done.
        rewrite bool_decide_true by lia. by rewrite Z.sub_diag.
      * rewrite (bool_decide_false (x = rsar c)) by done.
        destruct (decide (rsar c + 1 ≤ x < rsar c + 1 + Z.of_nat (length data))) as [Hin|Hout].
        -- rewrite bool_decide_true by done. rewrite bool_decide_true by lia.
           replace (Z.to_nat (x - rsar c)) with (S (Z.to_nat (x - (rsar c + 1)))) by lia. done.
        -- rewrite bool_decide_false by done. rewrite bool_decide_false by lia. done.
Qed.

Definition page0 (c : Chip) : Prop := Z.land (cr c) 0xc0 = 0.
Definition port_ok (base : Z) : Prop := 0 ≤ base ∧ base + 0x1f ≤ u32_max.

Definition write_accesses (base : Z) (data : list Z) (page : Z) : list access :=
  [ PortWrite 1 (base + 10) (Z.of_nat (length data) mod 256); PortWrite 1 (base + 11) (Z.of_nat (length data) / 256);
    PortWrite 1 (base + 8) 0; PortWrite 1 (base + 9) page; PortWrite 1 (base + 0) 0x12 ] ++
  ((λ b, PortWrite 1 (base + 16) b) <$> data).

Lemma wb_feed r data b :
  wb_operations (foldl (λ ops byte, wb_port_write_u8 r byte ops) b data) = wb_operations b ++ (PortWriteU8 r <$> data).
Proof.
  revert b. induction data as [|x data IH]; intros b; simpl; [by rewrite app_nil_r|]. rewrite IH. simpl. by rewrite <- app_assoc.
Qed.

Lemma concat_ports r data : concat (op_accesses <$> (PortWriteU8 r <$> data)) = (λ b, PortWrite 1 r b) <$> data.
Proof. induction data as [|b data IH]; [done|]. cbn [fmap list_fmap concat]. by f_equal. Qed.

Lemma dma_write_run `{Platform} `{Hkcodec : ScaleHandlers} `{Hdcodec : ScaleDrivers} `{Hcodec : !ScaleDriversLaws} base data page tr : port_ok base → data ≠ [] →
  0x40 ≤ page → page + ((Z.of_nat (length data) - 1) / 256 + 1) < 0x60 → Z.of_nat (length data) ≤ u16_max →
  dma_write base data page tr = Done (tt, tr ++ write_accesses base data page).
Proof.
  intros [Hb1 Hb2] Hne Hp1 Hp2 Hlen. unfold dma_write. rewrite (bool_decide_false (data = [])) by done.
  unfold mbind, M_bind, liftM. rewrite bool_decide_true by done. cbn [assert_]. unfold dma_len.
  rewrite (proj2 (uint_try_from_Some u16_max _ (Z.of_nat (length data)))) by lia.
  rewrite !reg_ok by lia. rewrite wb_send_ports.
  - rewrite wb_feed. rewrite fmap_app, concat_app, concat_ports. done.
  - rewrite wb_feed. done.
  - rewrite wb_feed. apply Forall_app. split; [repeat constructor|]. apply Forall_fmap, Forall_forall. done.
  - rewrite wb_feed. apply Forall_app. split; [repeat constructor|]. apply Forall_fmap, Forall_forall. done.
Qed.

(** One access of the list at a time. *)
Lemma chip_cons base c a tr : chip base c (a :: tr) = chip base (chip_step base c a) tr.
Proof. done. Qed.

Lemma chip_reg base c n v : chip_step base c (PortWrite 1 (base + n) v) = chip_write n v c.
Proof. simpl. f_equal. lia. Qed.

(** The registers of the page 0. *)
Ltac chip_reg_tac := intros Hp; unfold page0 in Hp; unfold chip_write; rewrite Hp; repeat (rewrite bool_decide_true by done || rewrite bool_decide_false by (done || lia)); done.
Lemma chip_write_other n v c : page0 c → n ∉ [0; 4; 5; 6; 8; 9; 16] → chip_write n v c = c.
Proof.
  intros Hp Hn. rewrite !elem_of_cons in Hn. unfold chip_write. unfold page0 in Hp. rewrite Hp.
  repeat (rewrite (bool_decide_false (n = _)) by tauto). by rewrite bool_decide_false by tauto.
Qed.
Lemma chip_write_4 v c : page0 c → chip_write 4 v c = set_tx v (tbcr c) c.
Proof. chip_reg_tac. Qed.
Lemma chip_write_5 v c : page0 c → chip_write 5 v c = set_tx (tpsr c) (tbcr c / 256 * 256 + v) c.
Proof. chip_reg_tac. Qed.
Lemma chip_write_6 v c : page0 c → chip_write 6 v c = set_tx (tpsr c) (v * 256 + tbcr c mod 256) c.
Proof. chip_reg_tac. Qed.
Lemma chip_write_8 v c : page0 c → chip_write 8 v c = set_rsar (rsar c / 256 * 256 + v) c.
Proof. chip_reg_tac. Qed.
Lemma chip_write_9 v c : page0 c → chip_write 9 v c = set_rsar (v * 256 + rsar c mod 256) c.
Proof. chip_reg_tac. Qed.

Lemma page_address r page : page * 256 + (r / 256 * 256 + 0) mod 256 = page * 256.
Proof. rewrite Z.add_0_r, Z.mod_mul by done. lia. Qed.

(** The data is in the memory, from the page on; nothing else has changed. *)
Lemma dma_write_chip base c data page : page0 c →
  let c' := chip base c (write_accesses base data page) in
  page0 c' ∧ tpsr c' = tpsr c ∧ tbcr c' = tbcr c ∧ wire c' = wire c ∧
  ∀ x, ram c' x = ram_write (ram c) (page * 256) data x.
Proof.
  intros Hp. unfold write_accesses. rewrite chip_app. rewrite !chip_cons, !chip_reg. cbn [chip foldl].
  rewrite (chip_write_other 10), (chip_write_other 11), chip_write_8, chip_write_9 by (done || set_solver by done).
  change (chip_write 0 18 ?c) with (set_cr 18 c). change (foldl (chip_step base) ?c ?l) with (chip base c l).
  match goal with |- context [chip base ?c1 _] => destruct (feed_data base data c1) as [H1 H2]; [done|] end.
  rewrite H1. cbn [tpsr tbcr wire ram]. split; [done|]. split_and!; [done..|]. intros x. rewrite H2.
  cbn [ram rsar set_cr set_rsar]. by rewrite page_address.
Qed.

(** ** Transmission *)

Definition transmit_accesses (base page len : Z) : list access :=
  [ PortWrite 1 (base + 4) page; PortWrite 1 (base + 5) (len mod 256); PortWrite 1 (base + 6) (len / 256);
    PortWrite 1 (base + 0) 0x26 ].

Lemma transmit_chip base c page len : page0 c → 0 ≤ len →
  let c' := chip base c (transmit_accesses base page len) in
  page0 c' ∧ ram c' = ram c ∧ wire c' = wire c ++ [ram_slice (ram c) (page * 256) (Z.to_nat len)].
Proof.
  intros Hp Hl. unfold transmit_accesses. rewrite !chip_cons, !chip_reg. cbn [chip foldl].
  rewrite chip_write_4, chip_write_5, chip_write_6 by done.
  change (chip_write 0 38 ?c) with (transmit (set_cr 38 c)). cbn [transmit set_cr set_tx cr ram wire tpsr tbcr]. split; [done|]. split; [done|].
  do 3 f_equal. f_equal.
  rewrite (Z.add_comm (tbcr c / 256 * 256)), Z.mod_add, Z.mod_mod, Z.mul_comm by done. symmetry. by apply Z.div_mod.
Qed.

(** * The packets that are sent *)

(** The number of pages of a packet. *)
Definition pages (len : Z) : Z := (len - 1) / 256 + 1.

Definition packet_len_ok (len : Z) : Prop := 1 ≤ len ≤ 1522.

Lemma pages_range len : packet_len_ok len → 1 ≤ pages len ≤ 6 ∧ len ≤ pages len * 256.
Proof.
  unfold packet_len_ok, pages. intros Hl. pose proof (Z.div_mod (len - 1) 256). pose proof (Z.mod_pos_bound (len - 1) 256).
  assert (0 ≤ (len - 1) / 256) by (apply Z.div_pos; lia). assert ((len - 1) / 256 < 6) by (apply Z.div_lt_upper_bound; lia). lia.
Qed.

Lemma pages_of_ok len : packet_len_ok len → pages_of len = Done (pages len).
Proof.
  intros Hl. destruct (pages_range len Hl) as [Hp _]. unfold packet_len_ok in Hl. unfold pages_of, u16_sub.
  rewrite (proj2 (uint_checked_Done u16_max _ (len - 1))) by (unfold u16_max; lia). cbn [mbind outcome_bind].
  fold (pages len). by rewrite (proj2 (uint_try_from_Some u8_max _ (pages len))) by (unfold u8_max; lia).
Qed.

(** Ranges of pages in ascending order, from [lo] to [hi]. *)
Fixpoint chain (lo : Z) (q : list (Z * Z)) (hi : Z) : Prop :=
  match q with
  | [] => lo ≤ hi
  | (s, e) :: q => lo ≤ s ∧ s < e ∧ chain e q hi
  end.

Definition range_of (entry : Z * Z) : Z * Z := (fst entry, fst entry + pages (snd entry)).

Lemma chain_app lo q s e hi : chain lo q s → s < e → e ≤ hi → chain lo (q ++ [(s, e)]) hi.
Proof.
  revert lo. induction q as [|[s1 e1] q IH]; intros lo; simpl; [by intros; split_and!|].
  intros (? & ? & ?) ? ?. split_and!; [done..|]. by apply IH.
Qed.

Lemma chain_le lo q hi : chain lo q hi → lo ≤ hi.
Proof. revert lo. induction q as [|[s e] q IH]; intros lo; simpl; [done|]. intros (? & ? & ?%IH). lia. Qed.

Lemma chain_mono lo lo' q hi hi' : chain lo q hi → lo' ≤ lo → hi ≤ hi' → chain lo' q hi'.
Proof.
  revert lo lo'. induction q as [|[s e] q IH]; intros lo lo'; simpl; [lia|]. intros (? & ? & ?) ? ?.
  split_and!; [lia|done|]. by eapply IH.
Qed.

Lemma chain_in lo q hi s e : chain lo q hi → (s, e) ∈ q → lo ≤ s ∧ s < e ∧ e ≤ hi.
Proof.
  revert lo. induction q as [|[s1 e1] q IH]; intros lo; [by intros _ ?%not_elem_of_nil|]. intros (? & ? & Hc) Hin.
  apply elem_of_cons in Hin as [[= -> ->]|Hin]; [apply chain_le in Hc; lia|]. destruct (IH _ Hc Hin). lia.
Qed.

(** The ranges of the memory in use: the packet that is being transmitted, and
    those that wait. *)
Definition in_use (d : Device) : list (Z * Z) := option_list (transmitting d) ++ (range_of <$> pending_transmit d).

(** Nothing tells the driver that a transmission has ended: the first packet,
    which is in the first pages, remains the one that is being transmitted.  The
    pages in use are in ascending order from the first one on, and the next
    packet goes after them.  Once a packet does not fit, it waits for the first
    page to be free.  The index is the number of pages in use, [None] in the
    latter case. *)
Inductive ring_state (d : Device) : option Z → Prop :=
  | ring_fresh : transmitting d = None → pending_transmit d = [] → next_write_page d = 0x40 → ring_state d (Some 0)
  | ring_filling e used : transmitting d = Some (0x40, e) → chain 0x40 (in_use d) (0x40 + used) → 0 < used ≤ 12 →
      next_write_page d = 0x40 + used → ring_state d (Some used)
  | ring_full e : transmitting d = Some (0x40, e) → next_write_page d = 0x40 → is_Some (pending_packet d) → ring_state d None.

Record ring_ok (d : Device) (u : option Z) : Prop := {
  ring_port : port_ok (base_port d);
  ring_now : ring_state d u;
  ring_lens : Forall (λ p, packet_len_ok (snd p)) (pending_transmit d);
  ring_packet : ∀ p, pending_packet d = Some p → packet_len_ok (Z.of_nat (length p));
}.

Lemma ram_slice_ext m m' start len : (∀ x, start ≤ x < start + Z.of_nat len → m x = m' x) →
  ram_slice m start len = ram_slice m' start len.
Proof.
  intros Hm. unfold ram_slice. apply list_fmap_ext. intros i x [-> Hi]%lookup_seq. apply Hm. lia.
Qed.

Lemma ram_slice_written m start data : ram_slice (ram_write m start data) start (length data) = data.
Proof.
  apply list_eq_same_length with (length data); [done|by unfold ram_slice; rewrite length_fmap, length_seq|].
  intros i x y Hi Hx Hy. unfold ram_slice in Hx. rewrite list_lookup_fmap, lookup_seq_lt in Hx by done.
  injection Hx as <-. unfold ram_write. simpl; rewrite bool_decide_true by lia.
  replace (Z.to_nat (start + Z.of_nat i - start)) with i by lia. by rewrite Hy.
Qed.

Lemma ram_slice_before m start data start' len : start' + Z.of_nat len ≤ start →
  ram_slice (ram_write m start data) start' len = ram_slice m start' len.
Proof. intros Hb. apply ram_slice_ext. intros x Hx. unfold ram_write. by rewrite bool_decide_false by lia. Qed.

Section packets.
Context `{Platform} (power_on : Chip) `{Hkcodec : ScaleHandlers} `{Hdcodec : ScaleDrivers} `{Hcodec : !ScaleDriversLaws}.

Definition card (s : Ne2000) : Chip := chip (base_port (device s)) power_on (ne_hw s).

Definition ne_inv (s : Ne2000) (u : option Z) : Prop := ring_ok (device s) u ∧ page0 (card s).

(** The packets in the memory of the card that wait. *)
Definition queued (c : Chip) (q : list (Z * Z)) : list (list Z) :=
  (λ p, ram_slice (ram c) (fst p * 256) (Z.to_nat (snd p))) <$> q.

(** The packets that the driver has accepted, in the order of their
    transmission: those on the wire, those in the memory of the card, and the
    one that waits for room there. *)
Definition accepted (s : Ne2000) : list (list Z) :=
  wire (card s) ++ queued (card s) (pending_transmit (device s)) ++ option_list (pending_packet (device s)).

Lemma send_transmit_run page len s : transmitting (device s) = None → packet_len_ok len → port_ok (base_port (device s)) →
  0 ≤ page → page + pages len ≤ u8_max →
  send_transmit_command page len s =
    Done (tt, {| device := with_transmitting (Some (page, page + pages len)) (device s);
                 ne_hw := ne_hw s ++ transmit_accesses (base_port (device s)) page len |}).
Proof.
  intros Ht Hlen [Hb1 Hb2] Hp1 Hp2. unfold send_transmit_command, self, gets, mbind, M_bind, liftM.
  rewrite Ht, (bool_decide_true (None = None)) by done. cbn [debug_assert].
  rewrite (bool_decide_false (len = 0)) by (unfold packet_len_ok in Hlen; lia). cbn [negb debug_assert].
  rewrite !reg_ok by lia. unfold on_hw, zoom. rewrite wb_send_ports; [|done|by repeat constructor..].
  rewrite pages_of_ok by done. unfold u8_add. rewrite (proj2 (uint_checked_Done u8_max _ (page + pages len))).
  - done.
  - destruct (pages_range len Hlen). lia.
Qed.

Lemma flush_transmit_idle s u : ring_ok (device s) u → flush_transmit s = Done (tt, s).
Proof.
  intros [_ Hf _ _]. unfold flush_transmit, self, gets, mbind, M_bind.
  destruct Hf as [-> -> _|e used -> _ _ _|e -> _ _]; by destruct s.
Qed.

(** What [flush_packet] does once it has found that there is room at the page
    [n]. *)
Definition written (data : list Z) (n : Z) (s : Ne2000) : Ne2000 :=
  let d := device s in
  let len := Z.of_nat (length data) in
  let hw := ne_hw s ++ write_accesses (base_port d) data n in
  match transmitting d with
  | Some _ => {| device := with_packet (n + pages len) None (with_pending (pending_transmit d ++ [(n, len)]) d); ne_hw := hw |}
  | None => {| device := with_packet (n + pages len) None (with_transmitting (Some (n, n + pages len)) d);
               ne_hw := hw ++ transmit_accesses (base_port d) n len |}
  end.

Lemma flush_packet_none s : pending_packet (device s) = None → flush_packet s = Done (tt, s).
Proof. intros Hp. unfold flush_packet, self, gets, mbind, M_bind. rewrite Hp. by destruct s. Qed.

Lemma flush_packet_run data s n : pending_packet (device s) = Some data → packet_len_ok (Z.of_nat (length data)) →
  port_ok (base_port (device s)) → 0x40 ≤ next_write_page (device s) ≤ 0x4c →
  n = (if bool_decide (0x4c - next_write_page (device s) < pages (Z.of_nat (length data))) then 0x40 else next_write_page (device s)) →
  ∀ b, space_available (with_packet n (Some data) (device s)) (pages (Z.of_nat (length data))) = Done b →
  flush_packet s = Done (tt, if b then written data n s else {| device := with_packet n (Some data) (device s); ne_hw := ne_hw s |}).
Proof.
  intros Hp Hlen Hport Hn Heqn b Hsp. destruct s as [d hw]. cbn [device ne_hw] in *.
  assert (Hl16 : 0 ≤ Z.of_nat (length data) ≤ u16_max) by (unfold packet_len_ok, u16_max in *; lia).
  destruct (pages_range _ Hlen) as [Hpg _].
  assert (Hn' : 0x40 ≤ n ∧ n + pages (Z.of_nat (length data)) ≤ 0x4c) by (rewrite Heqn; case_bool_decide; lia).
  assert (Hwp : with_packet n (Some data) d = if bool_decide (0x4c - next_write_page d < pages (Z.of_nat (length data)))
    then with_packet 0x40 (Some data) d else d).
  { rewrite Heqn. case_bool_decide; [done|]. rewrite <- Hp. by destruct d. }
  unfold flush_packet, self, gets, mbind, M_bind, liftM. cbn [device ne_hw]. rewrite Hp.
  rewrite (proj2 (uint_try_from_Some u16_max _ (Z.of_nat (length data)))) by done. cbn [unwrap].
  rewrite pages_of_ok by done. unfold u8_sub. change (snd WRITE_BUFFER_PAGES) with 0x4c. change (fst WRITE_BUFFER_PAGES) with 0x40.
  rewrite (proj2 (uint_checked_Done u8_max _ (0x4c - next_write_page d))) by (unfold u8_max; lia).
  rewrite <- Hwp. clear Hwp. unfold set_self, modify. cbn [next_write_page with_packet].
  rewrite (proj2 (uint_checked_Done u8_max _ (0x4c - n))) by (unfold u8_max; lia).
  rewrite (bool_decide_true (pages (Z.of_nat (length data)) ≤ 0x4c - n)) by lia. cbn [debug_assert]. rewrite Hsp.
  destruct b; [|done]. cbn [base_port with_packet]. unfold on_hw, zoom. cbn [ne_hw device].
  rewrite dma_write_run; [|done|intros ->; unfold packet_len_ok in Hlen; simpl in Hlen; lia|lia|unfold pages in *; lia|lia]. cbn [device transmitting with_packet].
  unfold written. cbn [device ne_hw]. destruct (transmitting d) as [t|] eqn:Ht.
  - rewrite (bool_decide_true (is_Some (Some t))) by done. cbn [device next_write_page with_packet with_pending transmitting].
    unfold u8_add. rewrite (proj2 (uint_checked_Done u8_max _ (n + pages (Z.of_nat (length data))))) by (unfold u8_max; lia).
    rewrite Ht, bool_decide_true by done. by destruct d.
  - rewrite (bool_decide_false (is_Some None)) by (by intros [? ?]). cbn [next_write_page with_packet].
    rewrite send_transmit_run; [|done|done|done|lia|unfold u8_max; lia]. cbn [device next_write_page with_packet with_transmitting transmitting ne_hw].
    unfold u8_add. rewrite (proj2 (uint_checked_Done u8_max _ (n + pages (Z.of_nat (length data))))) by (unfold u8_max; lia).
    rewrite bool_decide_true by done. by destruct d.
Qed.
Lemma card_app d hw1 hw2 : card {| device := d; ne_hw := hw1 ++ hw2 |} = chip (base_port d) (card {| device := d; ne_hw := hw1 |}) hw2.
Proof. unfold card. apply chip_app. Qed.

(** The first packet goes to the wire. *)
Lemma written_first data s : ne_inv s (Some 0) → transmitting (device s) = None → pending_transmit (device s) = [] →
  pending_packet (device s) = Some data → packet_len_ok (Z.of_nat (length data)) →
  ∀ s', s' = written data 0x40 s →
  ne_inv s' (Some (pages (Z.of_nat (length data)))) ∧ accepted s' = accepted s ∧ wire (card s') = wire (card s) ++ [data].
Proof.
  intros [Hring Hpage] Ht Hq Hp Hlen s' Hs'. destruct s as [d hw]. cbn [device ne_hw] in *.
  unfold written in Hs'. cbn [device ne_hw] in Hs'. rewrite Ht in Hs'.
  destruct (dma_write_chip (base_port d) (card {| device := d; ne_hw := hw |}) data 0x40 Hpage) as (Hp1 & _ & _ & Hw1 & Hr1).
  destruct (transmit_chip (base_port d) _ 0x40 (Z.of_nat (length data)) Hp1) as (Hp2 & Hr2 & Hw2); [lia|].
  assert (Hcard : card s' = chip (base_port d) (chip (base_port d) (card {| device := d; ne_hw := hw |})
    (write_accesses (base_port d) data 0x40)) (transmit_accesses (base_port d) 0x40 (Z.of_nat (length data)))).
  { rewrite Hs'. unfold card. cbn [device ne_hw with_packet with_transmitting base_port]. by rewrite !chip_app. }
  assert (Hwire : wire (card s') = wire (card {| device := d; ne_hw := hw |}) ++ [data]).
  { rewrite Hcard, Hw2, Hw1. do 2 f_equal. rewrite Nat2Z.id. rewrite (ram_slice_ext _ _ _ _ (λ x _, Hr1 x)). apply ram_slice_written. }
  destruct (pages_range _ Hlen) as [Hpg _]. split; [split|].
  - destruct Hring. rewrite Hs'. split; try done. eapply ring_filling; [done| |lia|done].
    unfold in_use. cbn. rewrite Hq. simpl. lia.
  - by rewrite Hcard.
  - split; [|done]. unfold accepted. rewrite Hwire, Hs'. cbn [device pending_transmit pending_packet with_packet with_transmitting]. rewrite Hq, Hp. simpl.
    by rewrite <- app_assoc.
Qed.

(** The next ones wait in the memory of the card, where nothing touches those
    that were there. *)
Lemma written_next data s e used : ne_inv s (Some used) → transmitting (device s) = Some (0x40, e) →
  pending_packet (device s) = Some data → packet_len_ok (Z.of_nat (length data)) →
  chain 0x40 (in_use (device s)) (0x40 + used) → 0 < used → used + pages (Z.of_nat (length data)) ≤ 12 →
  ∀ s', s' = written data (0x40 + used) s →
  ne_inv s' (Some (used + pages (Z.of_nat (length data)))) ∧ accepted s' = accepted s ∧ wire (card s') = wire (card s).
Proof.
  intros [Hring Hpage] Ht Hp Hlen Hch Hu Hn s' Hs'. destruct s as [d hw]. cbn [device ne_hw] in *.
  unfold written in Hs'. cbn [device ne_hw] in Hs'. rewrite Ht in Hs'. set (n := 0x40 + used) in *.
  destruct (dma_write_chip (base_port d) (card {| device := d; ne_hw := hw |}) data n Hpage) as (Hp1 & _ & _ & Hw1 & Hr1).
  assert (Hcard : card s' = chip (base_port d) (card {| device := d; ne_hw := hw |}) (write_accesses (base_port d) data n)).
  { rewrite Hs'. unfold card. cbn [device ne_hw with_packet with_pending base_port]. by rewrite !chip_app. }
  destruct (pages_range _ Hlen) as [Hpg _]. destruct Hring as [Hport _ Hlens _]. split; [split|split].
  - rewrite Hs'. split; try done.
    + apply ring_filling with e; [done| |lia|by cbn; rewrite Z.add_assoc]. unfold in_use. cbn [device transmitting pending_transmit with_packet with_pending].
      rewrite fmap_app, app_assoc. apply chain_app; [done|simpl; lia..].
    + cbn. apply Forall_app. split; [done|]. by apply Forall_singleton.
  - by rewrite Hcard.
  - unfold accepted. rewrite Hcard, Hw1, Hs'. cbn [device pending_transmit pending_packet with_packet with_pending].
    rewrite Hp. unfold queued. rewrite fmap_app, <- !app_assoc. simpl. f_equal. f_equal.
    + apply list_fmap_ext. intros i [p l] Hi. cbn [fst snd]. rewrite (ram_slice_ext _ _ _ _ (λ x _, Hr1 x)).
      apply ram_slice_before. apply list_elem_of_lookup_2 in Hi.
      pose proof (proj1 (Forall_forall _ _) Hlens _ Hi) as Hl. destruct (pages_range _ Hl) as [Hpl Hpl']. unfold packet_len_ok in Hl. cbn [snd] in *.
      destruct (chain_in _ _ _ p (p + pages l) Hch) as (_ & _ & Hend); [|lia].
      unfold in_use. apply elem_of_app. right. apply list_elem_of_fmap. by exists (p, l).
    + rewrite Nat2Z.id, (ram_slice_ext _ _ _ _ (λ x _, Hr1 x)), ram_slice_written. done.
  - by rewrite Hcard.
Qed.

(** What the driver promises of its twelve pages: a packet that fits after the
    others is queued, the first one that does not is held, and every one after
    it is refused. *)
Definition ring_send (u : option Z) (packet : list Z) : option Z * bool :=
  match u with
  | None => (None, false)
  | Some used =>
      let n := used + pages (Z.of_nat (length packet)) in
      (if bool_decide (n ≤ 12) then Some n else None, true)
  end.

(** There is nothing on the wire while no page is in use. *)
Definition newly_on_wire (u : option Z) (packet : list Z) : list (list Z) :=
  if bool_decide (u = Some 0) then [packet] else [].

Lemma flush_packet_ok s used data : ne_inv s (Some used) → pending_packet (device s) = Some data →
  ∃ s', flush_packet s = Done (tt, s') ∧ ne_inv s' (fst (ring_send (Some used) data)) ∧ accepted s' = accepted s ∧
        wire (card s') = wire (card s) ++ newly_on_wire (Some used) data ∧
        (used + pages (Z.of_nat (length data)) ≤ 12 → pending_packet (device s') = None).
Proof.
  intros Hinv Hp. pose proof Hinv as [Hring Hpage]. pose proof (ring_packet _ _ Hring _ Hp) as Hlen. pose proof (ring_port _ _ Hring) as Hport.
  destruct (pages_range _ Hlen) as [Hpg _]. unfold ring_send, newly_on_wire. cbn [fst].
  pose proof (ring_now _ _ Hring) as Hnow. inversion Hnow as [Ht Hq Hn Hu|e used' Ht Hch Hle Hn Hu|]; simplify_eq.
  - rewrite (bool_decide_true (0 + _ ≤ 12)), (bool_decide_true (Some 0 = Some 0)) by (done || lia).
    destruct (written_first data s Hinv Ht Hq Hp Hlen _ eq_refl) as (H1 & H2 & H3).
    exists (written data 0x40 s). split_and!; [|done..|]; [|by intros _; unfold written; rewrite Ht].
    rewrite (flush_packet_run data s 0x40 Hp Hlen Hport) with (b := true); [done|lia| |unfold space_available; cbn; by rewrite Ht].
    rewrite Hn, bool_decide_false by lia. done.
  - rewrite (bool_decide_false (Some used = Some 0)) by (intros [=]; lia). rewrite app_nil_r. case_bool_decide as Hfit.
    + destruct (written_next data s e used Hinv Ht Hp Hlen Hch ltac:(lia) Hfit _ eq_refl) as (H1 & H2 & H3).
      exists (written data (0x40 + used) s). split_and!; [|done..|]; [|by intros _; unfold written; rewrite Ht].
      rewrite (flush_packet_run data s (0x40 + used) Hp Hlen Hport) with (b := true); [done|lia| |].
      * rewrite Hn, bool_decide_false by lia. done.
      * unfold space_available. cbn [transmitting next_write_page with_packet]. rewrite Ht. rewrite (proj2 (uint_try_from_None u8_max (0x40 - (0x40 + used)))) by lia.
        rewrite bool_decide_true; [done|]. destruct (chain_in _ _ _ 0x40 e Hch) as (_ & _ & ?); [|lia].
        unfold in_use. rewrite Ht. by left.
    + exists {| device := with_packet 0x40 (Some data) (device s); ne_hw := ne_hw s |}.
      split_and!; [| |by unfold accepted, card; cbn; rewrite Hp|done|lia].
      * rewrite (flush_packet_run data s 0x40 Hp Hlen Hport) with (b := false); [done|lia| |].
        -- rewrite Hn, bool_decide_true by lia. done.
        -- unfold space_available. cbn [transmitting next_write_page with_packet]. rewrite Ht. change (u8_try_from (64 - 64)) with (Some 0). cbv beta iota. by rewrite (bool_decide_false (pages _ ≤ 0)) by lia.
      * split; [|done]. destruct Hring. split; try done; [by eapply ring_full|]. cbn. by intros p [= <-].
Qed.

(** ** The claims *)

Definition at_rest (s : Ne2000) (u : option Z) : Prop :=
  ne_inv s u ∧ (pending_packet (device s) = None ↔ is_Some u).

Lemma send_packet_sound s u packet : at_rest s u → packet_len_ok (Z.of_nat (length packet)) →
  ∃ s', send_packet packet s = Done (snd (ring_send u packet), s') ∧ at_rest s' (fst (ring_send u packet)) ∧
        accepted s' = accepted s ++ (if snd (ring_send u packet) then [packet] else []) ∧
        wire (card s') = wire (card s) ++ newly_on_wire u packet.
Proof.
  intros [Hinv Hrest] Hlen. unfold send_packet, self, gets, mbind, M_bind. destruct u as [used|].
  - assert (Hp : pending_packet (device s) = None) by (by apply Hrest). rewrite Hp. unfold liftM.
    rewrite bool_decide_true by (unfold packet_len_ok in Hlen; lia). cbn [assert_]. unfold set_self, modify.
    set (s1 := {| device := _; ne_hw := _ |}).
    assert (Hinv1 : ne_inv s1 (Some used)).
    { destruct Hinv as [[H1 H2 H3 H4] Hpage]. split; [|done]. split; [done| |done|by intros p [= <-]].
      inversion H2; simplify_eq; [by apply ring_fresh|by eapply ring_filling]. }
    destruct (flush_packet_ok s1 used packet Hinv1 eq_refl) as (s' & Hrun & Hinv' & Hacc & Hwire & Hnone).
    exists s'. unfold flush_out, mbind, M_bind. rewrite (flush_transmit_idle s1 (Some used)) by apply Hinv1. rewrite Hrun.
    split; [done|]. split; [split; [done|]|].
    + cbn [ring_send fst] in *. split.
      * intros Hp'. case_bool_decide; [done|]. destruct Hinv' as [Hr _]. destruct (ring_now _ _ Hr) as [| |? _ _ [? ?]]; try done; congruence.
      * case_bool_decide; [by intros _; apply Hnone|by intros [? [=]]].
    + rewrite Hacc, Hwire. split; [|done]. unfold accepted. cbn [s1 device pending_packet pending_transmit with_packet]. rewrite Hp. simpl.
      rewrite app_nil_r, <- app_assoc. done.
  - exists s. destruct (pending_packet (device s)) as [p|] eqn:Hp; [|by destruct (proj1 Hrest eq_refl)].
    unfold at_rest. rewrite Hp. cbn. rewrite !app_nil_r. split_and!; try done.
Qed.

(** The packets, one after the other; the results are those of [send_packet]. *)
Fixpoint send_all (packets : list (list Z)) : M Ne2000 (list bool) :=
  match packets with
  | [] => mret []
  | p :: ps => ok ← send_packet p; oks ← send_all ps; mret (ok :: oks)
  end.

Fixpoint ring_all (u : option Z) (packets : list (list Z)) : list bool :=
  match packets with
  | [] => []
  | p :: ps => snd (ring_send u p) :: ring_all (fst (ring_send u p)) ps
  end.

Definition kept (packets : list (list Z)) (oks : list bool) : list (list Z) :=
  concat (zip_with (λ p (ok : bool), if ok then [p] else []) packets oks).

Lemma send_all_sound packets : Forall (λ p, packet_len_ok (Z.of_nat (length p))) packets → ∀ s u, at_rest s u →
  ∃ s', send_all packets s = Done (ring_all u packets, s') ∧ (∃ u', at_rest s' u') ∧
        accepted s' = accepted s ++ kept packets (ring_all u packets) ∧
        wire (card s') = wire (card s) ++ (if bool_decide (u = Some 0) then take 1 packets else []).
Proof.
  induction 1 as [|p packets Hp _ IH]; intros s u Hs.
  - exists s. rewrite !app_nil_r. split_and!; [done|by exists u|done|]. case_bool_decide; by rewrite ?app_nil_r.
  - destruct (send_packet_sound s u p Hs Hp) as (s1 & Hrun & Hs1 & Hacc1 & Hw1).
    destruct (IH _ _ Hs1) as (s' & Hall & Hu' & Hacc & Hw). exists s'.
    cbn [send_all ring_all]. unfold mbind, M_bind. rewrite Hrun, Hall. split_and!; [done|done| |].
    + rewrite Hacc, Hacc1, <- app_assoc. done.
    + rewrite Hw, Hw1. rewrite (bool_decide_false (fst _ = Some 0)), app_nil_r; [unfold newly_on_wire; by case_bool_decide; destruct packets|].
      destruct u as [used|]; [|done]. cbn [fst ring_send]. destruct (pages_range _ Hp). destruct Hs as [[Hr _] _].
      pose proof (ring_now _ _ Hr) as Hnow. assert (0 ≤ used) by (inversion Hnow; simplify_eq; lia). clear Hw Hw1. case_bool_decide; [intros [=]; lia|done].
Qed.

End packets.

(** * The packets that are received *)

(** The data port, as the data sheet describes it: while a remote read is in
    progress it gives the byte at the current address. *)
Class DataPort `{Platform} (base : Z) (power_on : Chip) := {
  data_port : ∀ tr, Z.testbit (cr (chip base power_on tr)) 3 = true →
    read_port tr 1 (base + 16) = Some (ram (chip base power_on tr) (rsar (chip base power_on tr)));
}.

Definition read_calls (base : Z) (len : nat) (page offset : Z) : list Call :=
  [ CallPortWriteU8 (base + 10) (Z.of_nat len mod 256); CallPortWriteU8 (base + 11) (Z.of_nat len / 256);
    CallPortWriteU8 (base + 8) offset; CallPortWriteU8 (base + 9) page; CallPortWriteU8 (base + 0) 0x0a ] ++
  replicate len (CallPortReadU8 (base + 16)).

Lemma do_reads r len b : foldl do_call b (replicate len (CallPortReadU8 r)) = Nat.iter len (ob_port_read_u8 r) b.
Proof.
  revert b. induction len as [|len IH]; intros b; [done|]. cbn [replicate foldl]. rewrite IH. by rewrite Nat.iter_succ_r.
Qed.

Section incoming.
Context `{Platform} (base : Z) (power_on : Chip) `{!DataPort base power_on}.
Context `{Hkcodec : ScaleHandlers} `{Hdcodec : ScaleDrivers} `{Hcodec : !ScaleDriversLaws}.

Lemma data_reads len : ∀ tr c, chip base power_on tr = c → Z.testbit (cr c) 3 = true →
  value_of <$> call_results tr (replicate len (CallPortReadU8 (base + 16))) = ram_slice (ram c) (rsar c) len ∧
  chip base c (concat (call_accesses <$> replicate len (CallPortReadU8 (base + 16)))) = set_rsar (rsar c + Z.of_nat len) c.
Proof.
  induction len as [|len IH]; intros tr c Hc Hb.
  - split; [done|]. destruct c. unfold set_rsar. simpl. f_equal. lia.
  - cbn [replicate call_results call_result option_list app call_accesses fmap list_fmap concat].
    assert (Hc1 : chip base power_on (tr ++ [PortRead 1 (base + 16)]) = set_rsar (rsar c + 1) c).
    { rewrite chip_app, Hc. cbn [chip foldl chip_step]. by rewrite bool_decide_true, Hb by done. }
    rewrite data_port by (by rewrite Hc). destruct (IH _ _ Hc1 Hb) as [IH1 IH2]. split.
    + change (option_list (Some ?x)) with [x]. rewrite fmap_app, IH1; cbn [value_of default fmap list_fmap app]; rewrite Hc. unfold ram_slice. cbn [seq]. rewrite <- (fmap_S_seq 0 len). cbn [fmap list_fmap].
      unfold id. f_equal; [f_equal; lia|]. rewrite <- list_fmap_compose. apply list_fmap_ext. intros i x _. cbn [compose ram rsar set_rsar]. f_equal. unfold compose. lia.
    + rewrite chip_cons. cbn [chip_step]. rewrite bool_decide_true, Hb by done. cbn [andb]. rewrite IH2. unfold set_rsar. simpl. f_equal. lia.
Qed.

(** A remote read gives the bytes of the memory from the page and the offset
    on. *)
Lemma dma_read_run len page offset tr : port_ok base → page0 (chip base power_on tr) → 0 ≤ offset < 256 →
  (0 < len)%nat → Z.of_nat len ≤ u16_max →
  dma_read base len page offset tr =
    if bool_decide (page + ((Z.of_nat len - 1) / 256 + 1) < 0x60)
    then Done (ram_slice (ram (chip base power_on tr)) (page * 256 + offset) len,
               tr ++ concat (call_accesses <$> read_calls base len page offset))
    else Panic PAssert.
Proof.
  intros [Hb1 Hb2] Hp Hoff Hpos Hlen. unfold dma_read. rewrite (bool_decide_false (len = 0%nat)) by lia.
  unfold mbind, M_bind, liftM. case_bool_decide as Hfit; [|done]. cbn [assert_]. unfold dma_len.
  rewrite (proj2 (uint_try_from_Some u16_max _ (Z.of_nat len))) by lia. rewrite !reg_ok by lia.
  match goal with |- context [ob_send ?ops] => replace ops with (foldl do_call HardwareOperationsBuilder_new (read_calls base len page offset)) end;
    [|unfold read_calls; rewrite foldl_app, do_reads; done].
  rewrite driver_send_sound; [|apply Forall_app; split; [by repeat constructor|by apply Forall_replicate]|].
  2:{ apply allocates_free, Forall_fmap, Forall_app. split; [by repeat constructor|by apply Forall_replicate]. }
  rewrite bool_decide_false.
  - unfold mret, M_ret. f_equal. f_equal. unfold read_calls. cbn [app call_results call_result call_accesses].
    change (@option_list Filled None) with (@nil Filled). cbn [app]. set (tr' := _ ++ [_]).
    destruct (data_reads len tr' _ eq_refl) as [-> _].
    + subst tr'. rewrite !chip_app. rewrite !chip_cons, !chip_reg. done.
    + subst tr'. rewrite !chip_app, !chip_cons, !chip_reg. cbn [chip foldl].
      rewrite (chip_write_other 10), (chip_write_other 11), chip_write_8, chip_write_9 by (done || set_solver by done).
      change (chip_write 0 10 ?c) with (set_cr 10 c). cbn [set_cr set_rsar rsar ram]. f_equal.
      rewrite (Z.add_comm (_ / 256 * 256) offset), Z.mod_add, Z.mod_small by lia. lia.
  - unfold read_calls. intros [_ Hr]%Forall_app. destruct len; [lia|]. by apply Forall_cons in Hr as [? _].
Qed.

(** It leaves the memory as it was, and the page 0 of the registers. *)
Lemma dma_read_chip len page offset tr : page0 (chip base power_on tr) →
  let c' := chip base power_on (tr ++ concat (call_accesses <$> read_calls base len page offset)) in
  page0 c' ∧ ram c' = ram (chip base power_on tr) ∧ wire c' = wire (chip base power_on tr).
Proof.
  intros Hp. unfold read_calls. rewrite fmap_app, concat_app, app_assoc, chip_app.
  set (tr1 := tr ++ _).
  assert (Hc1 : ∃ r, chip base power_on tr1 = set_cr 10 (set_rsar r (chip base power_on tr))).
  { subst tr1. rewrite chip_app. cbn [fmap list_fmap concat app call_accesses]. rewrite !chip_cons, !chip_reg. cbn [chip foldl].
    rewrite (chip_write_other 10), (chip_write_other 11), chip_write_8, chip_write_9 by (done || set_solver by done). by eexists. }
  destruct Hc1 as [r Hc1]. destruct (data_reads len tr1 _ eq_refl) as [_ ->]; rewrite Hc1; done.
Qed.

Lemma write_reg_run n v tr : port_ok base → 0 ≤ n ≤ 0x1f →
  write_reg base n v tr = Done (tt, tr ++ [PortWrite 1 (base + n) v]).
Proof.
  intros [Hb1 Hb2] Hn. unfold write_reg, mbind, M_bind, liftM. rewrite reg_ok by lia.
  unfold hw_port_write_u8. by rewrite wb_send_ports by (done || by repeat constructor).
Qed.

(** ** The claims *)

(** What the card has at the page [next], once it says that there is something:
    a header of four bytes (status, next page, length) and the packet.  The
    packet is given with the page that follows it; [None] is a packet that is
    not accepted.  The driver panics if the packet goes up to the last page. *)
Definition incoming (m : Z → Z) (next : Z) : outcome (option (list Z * Z)) :=
  let status := m (next * 256) in
  let next_packet := m (next * 256 + 1) in
  let len := m (next * 256 + 2) + 256 * m (next * 256 + 3) in
  if bool_decide (next = 0x5f) then Panic PAssert else
  if bool_decide (Z.land status 0x1f ≠ 1 ∨ next_packet < 0x4c ∨ 0x60 < next_packet ∨ 1536 < len) then Done None else
  if bool_decide (0 < len ∧ 0x60 ≤ next + pages len) then Panic PAssert else
  Done (Some (ram_slice m (next * 256 + 4) (Z.to_nat len), if bool_decide (next_packet = 0x60) then 0x4c else next_packet)).

(** The accesses with which the driver asks whether there is something. *)
Definition curr_accesses : list access :=
  [PortWrite 1 (base + 0) 0x62; PortRead 1 (base + 16); PortWrite 1 (base + 0) 0x22].
Definition curr (tr : list access) : Z := default 0 (read_port (tr ++ [PortWrite 1 (base + 0) 0x62]) 1 (base + 16)).

Lemma curr_chip tr c' : c' = chip base power_on (tr ++ curr_accesses) →
  page0 c' ∧ ram c' = ram (chip base power_on tr) ∧ wire c' = wire (chip base power_on tr).
Proof.
  intros ->. rewrite chip_app. unfold curr_accesses. rewrite !chip_cons, !chip_reg. cbn [chip foldl chip_step].
  change (chip_write 0 98 ?c) with (set_cr 98 c). rewrite andb_comm. done.
Qed.


(** The page before, in the ring. *)
Definition boundary (next : Z) : Z := if bool_decide (next = 0x4c) then 0x5f else next - 1.

Lemma curr_run tr : port_ok base →
  ob_send (ob_port_write_u8 (base + 0) 0x22 (ob_port_read_u8 (base + 16) (ob_port_write_u8 (base + 0) 0x62 HardwareOperationsBuilder_new))) tr =
    Done ([Value (curr tr)], tr ++ curr_accesses).
Proof.
  intros _. pose proof (driver_send_sound [CallPortWriteU8 (base + 0) 0x62; CallPortReadU8 (base + 16); CallPortWriteU8 (base + 0) 0x22] tr) as Hs.
  rewrite bool_decide_false in Hs; [|by intros (_ & [? _]%Forall_cons)%Forall_cons]. apply Hs; by repeat constructor.
Qed.

Lemma incoming_packet m next packet next' d tr len : port_ok base → base_port d = base → page0 (chip base power_on tr) →
  m = ram (chip base power_on tr) → 0 ≤ len ≤ 1536 → (0 < len → next + pages len < 0x60) →
  packet = ram_slice m (next * 256 + 4) (Z.to_nat len) → 0x4c ≤ next' < 0x60 →
  ∃ tr', (out_packet ← on_hw (dma_read base (Z.to_nat len) next 4);
          _ ← set_self (with_next next' d);
          _ ← (if bool_decide (next' = 0x4c) then on_hw (write_reg base 3 0x5f)
               else v ← liftM (u8_sub next' 1); on_hw (write_reg base 3 v));
          mret (Some out_packet)) {| device := d; ne_hw := tr |} =
    Done (Some packet, {| device := with_next next' d; ne_hw := tr' ++ [PortWrite 1 (base + 3) (boundary next')] |}) ∧
    page0 (chip base power_on (tr' ++ [PortWrite 1 (base + 3) (boundary next')])) ∧
    ram (chip base power_on (tr' ++ [PortWrite 1 (base + 3) (boundary next')])) = m.
Proof.
  intros Hport Hbase Hp -> Hlen Hfit -> Hnext.
  assert (Hread : ∃ tr', dma_read base (Z.to_nat len) next 4 tr =
      Done (ram_slice (ram (chip base power_on tr)) (next * 256 + 4) (Z.to_nat len), tr') ∧
      page0 (chip base power_on tr') ∧ ram (chip base power_on tr') = ram (chip base power_on tr)).
  { destruct (decide (len = 0)) as [->|Hne]; [by exists tr|].
    rewrite dma_read_run by (unfold u16_max; done || lia). rewrite Z2Nat.id by lia. rewrite bool_decide_true by (unfold pages in Hfit; lia).
    eexists. split; [done|]. destruct (dma_read_chip (Z.to_nat len) next 4 tr Hp) as (? & ? & _). done. }
  destruct Hread as (tr' & Hread & Hp' & Hram'). exists tr'. rewrite chip_app, chip_cons, chip_reg. cbn [chip foldl].
  change (foldl (chip_step base) power_on tr') with (chip base power_on tr').
  rewrite chip_write_other by (done || set_solver by done). split; [|done].
  unfold mbind, M_bind, on_hw, zoom, set_self, modify. cbn [ne_hw device]. rewrite Hread. cbn [ne_hw device]. unfold boundary.
  case_bool_decide as Heq.
  - cbn [ne_hw]. rewrite write_reg_run by (done || lia). done.
  - unfold liftM, u8_sub. rewrite (proj2 (uint_checked_Done u8_max _ (next' - 1))) by (unfold u8_max; lia). cbn [ne_hw].
    rewrite write_reg_run by (done || lia). done.
Qed.

(** What there is to read. *)
Definition received (s : Ne2000) : outcome (option (list Z * Z)) :=
  if bool_decide (curr (ne_hw s) = next_to_read (device s)) then Done None
  else incoming (ram (chip base power_on (ne_hw s))) (next_to_read (device s)).

Definition after_read (s : Ne2000) (r : option (list Z * Z)) (tr' : list access) : option (list Z) * Ne2000 :=
  match r with
  | Some (packet, next) => (Some packet, {| device := with_next next (device s); ne_hw := tr' |})
  | None => (None, {| device := device s; ne_hw := tr' |})
  end.

Lemma on_hw_run {A} (m : M (list access) A) s x tr' : m (ne_hw s) = Done (x, tr') →
  on_hw m s = Done (x, {| device := device s; ne_hw := tr' |}).
Proof. intros Hm. unfold on_hw, zoom. by rewrite Hm. Qed.
Lemma on_hw_panics {A} (m : M (list access) A) s k : m (ne_hw s) = Panic k → on_hw m s = Panic k.
Proof. intros Hm. unfold on_hw, zoom. by rewrite Hm. Qed.

Lemma slice_index m a len i : (i < len)%nat → index (ram_slice m a len) i = Done (m (a + Z.of_nat i)).
Proof. intros Hi. unfold index, ram_slice. by rewrite list_lookup_fmap, lookup_seq_lt. Qed.

(** C36: what the driver of the network card reads at its current page, on
    every branch: nothing if the card says so; otherwise, with the memory of
    the card as its data sheet describes it, the packet after the header at
    that page, the page of the next packet, and the register that gives room
    back to the card set to the page before; nothing, and no change of the
    driver, if the header is not one that it accepts; a panic if the packet
    goes up to the last page of the ring.  The memory is left as it was. *)
Theorem read_incoming_ok (s : Ne2000) :
  base_port (device s) = base → port_ok base → 0x4c ≤ next_to_read (device s) < 0x60 →
  (∀ x, 0 ≤ ram (chip base power_on (ne_hw s)) x < 256) →
  ∃ tr', read_one_incoming s = (r ← received s; Done (after_read s r tr')) ∧
    ram (chip base power_on tr') = ram (chip base power_on (ne_hw s)) ∧
    ∀ packet next, received s = Done (Some (packet, next)) →
      0x4c ≤ next < 0x60 ∧ last tr' = Some (PortWrite 1 (base + 3) (boundary next)).
Proof.
  intros Hbase Hport Hnext Hbytes. destruct s as [d tr]. unfold received, after_read. cbn [device ne_hw] in *. unfold read_one_incoming, self, gets.
  destruct (curr_chip tr _ eq_refl) as (Hp1 & Hram1 & _). revert Hbytes. rewrite <- Hram1. intros Hbytes. set (m := ram (chip base power_on (tr ++ _))) in *.
  erewrite bind_run by done. cbn [device]. rewrite !(bool_decide_true (_ ≤ next_to_read d)), !(bool_decide_true (next_to_read d < _)) by (simpl; lia).
  rewrite Hbase, !reg_ok by (destruct Hport; lia). do 4 (erewrite bind_run by done).
  change (Z.lor (Z.lor (1 ≪ 6) (1 ≪ 5)) (1 ≪ 1)) with 0x62. change (Z.lor (1 ≪ 5) (1 ≪ 1)) with 0x22.
  erewrite bind_run by (apply on_hw_run, curr_run; done). cbn [head fmap option_fmap option_map value_of default]. unfold id. cbn [ne_hw device].
  case_bool_decide as Hcurr; [by exists (tr ++ curr_accesses)|]. unfold incoming.
  pose proof (dma_read_run 4 (next_to_read d) 0 _ Hport Hp1) as Hhead. fold m in Hhead. change ((Z.of_nat 4 - 1) / 256 + 1) with 1 in Hhead.
  destruct (decide (next_to_read d = 0x5f)) as [Hlast|Hlast].
  { rewrite (bool_decide_false (_ + 1 < _)) in Hhead by lia. rewrite (bool_decide_true (next_to_read d = 0x5f)) by done.
    exists (tr ++ curr_accesses). split; [|done]. apply bind_panics, on_hw_panics, Hhead; [lia..|done]. }
  rewrite bool_decide_true in Hhead by lia. rewrite (bool_decide_false (next_to_read d = 0x5f)) by done.
  erewrite bind_run by (apply on_hw_run, Hhead; [lia..|done]). clear Hhead.
  destruct (dma_read_chip 4 (next_to_read d) 0 _ Hp1) as (Hp2 & Hram2 & _). set (tr2 := (tr ++ curr_accesses) ++ _) in *. fold m in Hram2.
  rewrite !slice_index by lia. do 4 (erewrite bind_run by done).
  rewrite !Z.add_0_r. change (Z.of_nat 0) with 0. change (Z.of_nat 1) with 1. change (Z.of_nat 2) with 2. change (Z.of_nat 3) with 3.
  pose proof (Hbytes (next_to_read d * 256 + 1)). pose proof (Hbytes (next_to_read d * 256 + 2)). pose proof (Hbytes (next_to_read d * 256 + 3)).
  set (status := m (_ * _)) in *. set (np := m (_ + 1)) in *. set (len := _ + _ * m _).
  assert (0 ≤ len) by lia. change (fst READ_BUFFER_PAGES) with 0x4c. change (snd READ_BUFFER_PAGES) with 0x60.
  destruct (decide (Z.land status 31 ≠ 1 ∨ np < 76 ∨ 96 < np ∨ 1536 < len)) as [Hbad|Hok].
  { rewrite (bool_decide_true (_ ∨ _ ∨ _ ∨ _)) by done. exists tr2. split; [|done]. repeat case_bool_decide; first [done|exfalso; tauto]. }
  rewrite (bool_decide_false (_ ∨ _ ∨ _ ∨ _)) by done. assert (Hok' : Z.land status 31 = 1 ∧ 76 ≤ np ≤ 96 ∧ len ≤ 1536) by (destruct (decide (Z.land status 31 = 1)); [lia|tauto]). destruct Hok' as (Hs1 & Hs2 & Hs3).
  rewrite (bool_decide_false (Z.land status 31 ≠ 1)) by tauto. rewrite (bool_decide_false (np < 76 ∨ 96 < np)) by lia.
  rewrite (bool_decide_false (1536 < len)), (bool_decide_true (76 ≤ np)), (bool_decide_true (np ≤ 96)), (bool_decide_true (len < 15522)) by lia.
  do 3 (erewrite bind_run by done).
  destruct (decide (0 < len ∧ 96 ≤ next_to_read d + pages len)) as [[Hpos Hend]|Hfit].
  { rewrite (bool_decide_true (0 < len ∧ _)) by done. exists tr2. split; [|done]. apply bind_panics, on_hw_panics.
    cbn [ne_hw]. rewrite dma_read_run by (unfold u16_max; done || lia). rewrite Z2Nat.id, bool_decide_false by (unfold pages in *; lia). done. }
  rewrite (bool_decide_false (0 < len ∧ _)) by done.
  destruct (incoming_packet m (next_to_read d) _ (if bool_decide (np = 96) then 76 else np) d tr2 len Hport Hbase Hp2 (eq_sym Hram2) ltac:(lia) ltac:(lia) eq_refl)
    as (tr' & Hrun & _ & Hram'); [case_bool_decide; lia|].
  eexists. split; [exact Hrun|]. split; [done|]. intros packet next [= <- <-]. split; [case_bool_decide; lia|]. apply last_snoc.
Qed.

End incoming.

(** * After a reset *)

Section reset.
Context `{Platform} (base : Z) (power_on : Chip) `{!DataPort base power_on}.
Context `{Hkcodec : ScaleHandlers} `{Hdcodec : ScaleDrivers} `{Hcodec : !ScaleDriversLaws}.

Definition polls (tr : list access) (n : nat) : list access := tr ++ replicate n (PortRead 1 (base + 7)).

(** The card says that the reset is over at the [n]th time that it is asked. *)
Definition reset_over (tr : list access) (n : nat) : Prop := Z.land (default 0 (read_port (polls tr n) 1 (base + 7))) 0x80 ≠ 0.

Lemma wait_reset_run n : ∀ fuel tr, port_ok base → (n < fuel)%nat → reset_over tr n →
  ∃ k, wait_reset fuel base tr = Done (tt, polls tr (S k)).
Proof.
  induction n as [|n IH]; intros [|fuel] tr Hport Hn Hover; try lia; cbn [wait_reset].
  - erewrite bind_run by (unfold liftM; by rewrite reg_ok by (destruct Hport; lia)).
    erewrite bind_run by apply port_read_run. unfold reset_over, polls in Hover. cbn [replicate] in Hover. rewrite app_nil_r in Hover.
    rewrite bool_decide_true by done. by exists 0%nat.
  - erewrite bind_run by (unfold liftM; by rewrite reg_ok by (destruct Hport; lia)).
    erewrite bind_run by apply port_read_run. case_bool_decide; [by exists 0%nat|].
    destruct (IH fuel (tr ++ [PortRead 1 (base + 7)]) Hport) as [k Hk]; [lia| |].
    + unfold reset_over, polls in *. by rewrite <- app_assoc.
    + exists (S k). rewrite Hk. unfold polls. by rewrite <- app_assoc.
Qed.

(** Reading the register of the interrupts does nothing. *)
Lemma polls_chip tr n : chip base power_on (polls tr n) = chip base power_on tr.
Proof.
  unfold polls. rewrite chip_app. induction n as [|n IH]; [done|]. cbn [replicate]. rewrite chip_cons. cbn [chip_step].
  rewrite bool_decide_false by lia. done.
Qed.

Lemma chip_write_unknown n v c : n ∉ [0; 4; 5; 6; 8; 9; 16] → chip_write n v c = c.
Proof.
  intros Hn. rewrite !elem_of_cons in Hn. unfold chip_write. repeat (rewrite (bool_decide_false (n = _)) by tauto). by case_bool_decide.
Qed.
Lemma chip_write_page1 n v c : n ≠ 0 → n ≠ 16 → Z.land (cr c) 0xc0 ≠ 0 → chip_write n v c = c.
Proof. intros. unfold chip_write. rewrite (bool_decide_false (n = 0)), (bool_decide_false (n = 16)), bool_decide_true by done. done. Qed.

(** The addresses are in the page 1. *)
Lemma page1_writes (f : nat → M (list access) unit) (r v : nat → Z) l : ∀ tr,
  (∀ n tr, n ∈ l → f n tr = Done (tt, tr ++ [PortWrite 1 (base + r n) (v n)])) → (∀ n, n ∈ l → r n ≠ 0 ∧ r n ≠ 16) →
  Z.land (cr (chip base power_on tr)) 0xc0 ≠ 0 →
  ∃ tr', for_each f l tr = Done (tt, tr') ∧ chip base power_on tr' = chip base power_on tr.
Proof.
  induction l as [|n l IH]; intros tr Hf Hr Hp; [by exists tr|]. cbn [for_each].
  erewrite bind_run by (apply Hf; by left).
  assert (Hc : chip base power_on (tr ++ [PortWrite 1 (base + r n) (v n)]) = chip base power_on tr).
  { rewrite chip_app, chip_cons, chip_reg. cbn [chip foldl]. destruct (Hr n) as [? ?]; [by left|]. by apply chip_write_page1. }
  rewrite <- Hc. apply IH; [intros; apply Hf; by right|intros; apply Hr; by right|by rewrite Hc].
Qed.

(** A driver that has nothing to send. *)
Record newly_reset (d : Device) : Prop := {
  reset_port : port_ok (base_port d);
  reset_transmitting : transmitting d = None;
  reset_pending : pending_transmit d = [];
  reset_page : next_write_page d = 0x40;
  reset_packet : pending_packet d = None;
}.

Definition asked (tr : list access) : list access :=
  tr ++ [PortRead 1 (base + 0x1f); PortWrite 1 (base + 0x1f) (default 0 (read_port tr 1 (base + 0x1f)))].

(** The reset of the network card ends as soon as the card says so, with
    nothing to send and reading at the first page of its ring; the address of
    the driver is in the first bytes of the memory of the card, each of which
    is there twice; nothing was transmitted and the memory is left as it
    was. *)
Theorem reset_ok (fuel n : nat) (tr : list access) : port_ok base → (n < fuel)%nat → reset_over (asked tr) n →
  ∃ d tr', reset fuel base tr = Done (d, tr') ∧ newly_reset d ∧ base_port d = base ∧ next_to_read d = 0x4c ∧
    mac_address d = (λ i, ram (chip base power_on tr) (2 * Z.of_nat i)) <$> seq 0 6 ∧
    page0 (chip base power_on tr') ∧ ram (chip base power_on tr') = ram (chip base power_on tr) ∧
    wire (chip base power_on tr') = wire (chip base power_on tr).
Proof.
  intros Hport Hn Hover. unfold reset. destruct (wait_reset_run n fuel (asked tr) Hport Hn Hover) as [k Hwait].
  erewrite bind_run by (unfold liftM; by rewrite reg_ok by (destruct Hport; lia)).
  erewrite bind_run by apply port_read_run. erewrite bind_run by apply port_write_run.
  rewrite <- app_assoc. change (tr ++ [PortRead 1 (base + 0x1f)] ++ [PortWrite 1 (base + 0x1f) (default 0 (read_port tr 1 (base + 0x1f)))]) with (asked tr).
  erewrite bind_run by exact Hwait. do 5 (erewrite bind_run by (apply write_reg_run; [done..|lia])).
  assert (Hc0 : chip base power_on (polls (asked tr) (S k)) = chip base power_on tr).
  { rewrite polls_chip. unfold asked. rewrite chip_app, !chip_cons. cbn [chip foldl]. cbn [chip_step].
    rewrite bool_decide_false by lia. replace (base + 31 - base) with 31 by lia. apply chip_write_unknown. set_solver by done. }
  set (tr1 := _ ++ [PortWrite 1 (base + 14) _]).
  assert (Hc1 : chip base power_on tr1 = set_cr 0x21 (chip base power_on tr)).
  { subst tr1. rewrite !chip_app, Hc0. rewrite !chip_cons, !chip_reg. cbn [chip foldl].
    rewrite (chip_write_unknown 7), (chip_write_unknown 12), (chip_write_unknown 13), (chip_write_unknown 14) by set_solver by done. done. }
  assert (Hp1 : page0 (chip base power_on tr1)) by (by rewrite Hc1).
  pose proof (dma_read_run base power_on 32 0 0 tr1 Hport Hp1) as Hprom. rewrite bool_decide_true in Hprom by done.
  erewrite bind_run by (apply Hprom; [lia..|done]). clear Hprom.
  destruct (dma_read_chip base power_on 32 0 0 tr1 Hp1) as (Hp2 & Hram2 & Hwire2). set (tr2 := tr1 ++ _) in *.
  erewrite bind_run by (unfold liftM; rewrite !slice_index by lia; done).
  match goal with |- context [Build_Device _ _ _ _ _ _ ?l] => set (mac := l); assert (Hmac : mac = (λ i, ram (chip base power_on tr) (2 * Z.of_nat i)) <$> seq 0 6) end.
  { subst mac. rewrite Hc1. done. }
  do 6 (erewrite bind_run by (apply write_reg_run; [done..|lia])).
  set (tr3 := _ ++ [PortWrite 1 (base + 0) _]).
  assert (Hc3 : chip base power_on tr3 = set_cr 0x61 (set_tx 0x40 (tbcr (chip base power_on tr2)) (chip base power_on tr2))).
  { subst tr3. rewrite !chip_app. rewrite !chip_cons, !chip_reg. cbn [chip foldl]. change (foldl (chip_step base) power_on ?t) with (chip base power_on t).
    rewrite chip_write_4 by done. rewrite (chip_write_unknown 1), (chip_write_unknown 3), (chip_write_unknown 2), (chip_write_unknown 15) by set_solver by done. done. }
  match goal with |- context [for_each ?f (seq 0 6)] =>
    destruct (page1_writes f (λ n, 1 + Z.of_nat n) (λ n, ram (chip base power_on tr) (2 * Z.of_nat n)) (seq 0 6) tr3) as (tr4 & Hrun4 & Hc4) end.
  { intros i tr' Hi%elem_of_seq. destruct Hport. erewrite bind_run by (unfold liftM, index; rewrite Hmac, list_lookup_fmap, lookup_seq_lt by lia; done).
    erewrite bind_run by (unfold liftM; rewrite reg_ok by lia; done). unfold write_reg.
    erewrite bind_run by (unfold liftM; rewrite reg_ok by lia; done). rewrite port_write_run. replace (base + 1 + Z.of_nat i) with (base + (1 + Z.of_nat i)) by lia. done. }
  { intros i Hi%elem_of_seq. lia. }
  { by rewrite Hc3. }
  erewrite bind_run by exact Hrun4. clear Hrun4.
  match goal with |- context [for_each ?f (seq 8 8)] =>
    destruct (page1_writes f Z.of_nat (λ _, 0xff) (seq 8 8) tr4) as (tr5 & Hrun5 & Hc5) end.
  { intros i tr' Hi%elem_of_seq. apply write_reg_run; [done..|lia]. }
  { intros i Hi%elem_of_seq. lia. }
  { by rewrite Hc4, Hc3. }
  erewrite bind_run by exact Hrun5. clear Hrun5. do 4 (erewrite bind_run by (apply write_reg_run; [done..|lia])).
  eexists _, _. split; [done|]. rewrite !chip_app, Hc5, Hc4, Hc3. rewrite !chip_cons, !chip_reg. cbn [chip foldl].
  rewrite (chip_write_unknown 7), (chip_write_unknown 13), (chip_write_unknown 12) by set_solver by done.
  split_and!; try done.
  - change (ram (chip base power_on tr2) = ram (chip base power_on tr)). by rewrite Hram2, Hc1.
  - change (wire (chip base power_on tr2) = wire (chip base power_on tr)). by rewrite Hwire2, Hc1.
Qed.

End reset.

(** C35: packets given to the driver of the network card after a reset: it
    answers as a ring of twelve pages does, a packet after the other taking its
    pages until one does not fit, which is held back, and every packet after it
    being refused; the packets that were accepted are, in their order, on the
    wire, then in the memory of the card, then in the driver, with their bytes;
    and only the first one goes to the wire, since nothing tells the driver that
    the card has transmitted it. *)
Theorem ne2000_fifo `{Platform} `{Hkcodec : ScaleHandlers} `{Hdcodec : ScaleDrivers} `{Hcodec : !ScaleDriversLaws}
    (power_on : Chip) (packets : list (list Z)) (s : Ne2000) :
  newly_reset (device s) → page0 (card power_on s) →
  Forall (λ p, packet_len_ok (Z.of_nat (length p))) packets →
  ∃ s', send_all packets s = Done (ring_all (Some 0) packets, s') ∧
    accepted power_on s' = wire (card power_on s) ++ kept packets (ring_all (Some 0) packets) ∧
    wire (card power_on s') = wire (card power_on s) ++ take 1 packets.
Proof.
  intros [H1 H2 H3 H4 H5] Hp Hlens.
  assert (Hrest : at_rest power_on s (Some 0)).
  { split; [split; [split; [done|by apply ring_fresh|by rewrite H3|by rewrite H5]|done]|]. by rewrite H5. }
  destruct (send_all_sound power_on packets Hlens s _ Hrest) as (s' & Hrun & _ & Hacc & Hwire).
  exists s'. rewrite bool_decide_true in Hwire by done. split_and!; [done| |done].
  rewrite Hacc. unfold accepted. rewrite H3, H5. simpl. by rewrite app_nil_r.
Qed.

(** A packet that is empty makes the driver panic. *)
Theorem empty_packet_panics `{Platform} `{Hkcodec : ScaleHandlers} `{Hdcodec : ScaleDrivers} (s : Ne2000) : newly_reset (device s) → send_packet [] s = Panic POverflow.
Proof.
  intros [H1 H2 H3 H4 H5]. unfold send_packet, flush_out, flush_transmit, flush_packet, self, gets, set_self, modify, mbind, M_bind.
  rewrite H5. cbn [length assert_ liftM]. rewrite bool_decide_true by done. cbn [assert_ liftM device ne_hw transmitting with_packet]. rewrite H2. cbn [pending_transmit with_packet]. rewrite H3. done.
Qed.
