(* ===== verification/Rpi.v ===== *)
(** The framebuffer of the Raspberry Pi ([modules/rpi-framebuffer/src]): the
    mailbox of the video processor ([mailbox.rs]) and the messages of its
    property interface ([property.rs]).

    The pointers that the kernel gives for the buffers are arguments of [init];
    the messages that allocate and free them are not accesses to the
    hardware. *)
From S2P Require Import Prelude Hardware Drivers.

(** * Messages of the mailbox *)

(** [Message { value }] is its value. *)
Definition Message_new (channel data : Z) : outcome Z :=
  _ ← assert_ (bool_decide (channel < 1 ≪ 4));
  _ ← assert_ (bool_decide (data < 1 ≪ 28));
  mret (Z.lor ((data ≪ 4) mod 2 ^ 32) channel).

Definition Message_channel (value : Z) : outcome Z := unwrap (u8_try_from (Z.land value 0xf)).
Definition Message_data (value : Z) : Z := value ≫ 4.

Definition BASE_IO_PERIPH : Z := 0x3f000000.
Definition MAILBOX_BASE : Z := BASE_IO_PERIPH + 0xb880.

Section mailbox.
Context `{Platform} `{ScaleHandlers} `{ScaleDrivers}.

(** The loops that wait for a bit of the status register to be clear. *)
Fixpoint wait_status (fuel : nat) (bit : Z) : M (list access) unit :=
  match fuel with
  | O => never
  | S fuel =>
      val ← hw_read_one_u32 (MAILBOX_BASE + 0x18);
      if bool_decide (Z.land val (1 ≪ bit) = 0) then mret tt else wait_status fuel bit
  end.

Definition read_mailbox (fuel : nat) : M (list access) Z :=
  _ ← wait_status fuel 30;
  fs ← ob_send (ob_read_u32 (MAILBOX_BASE + 0x0) 1 HardwareOperationsBuilder_new);
  match fs with
  | Slice (v :: _) :: _ => mret v
  | _ => mret 0
  end.

Definition write_mailbox (fuel : nat) (message : Z) : M (list access) unit :=
  _ ← wait_status fuel 31;
  hw_write_one_u32 (MAILBOX_BASE + 0x20) message.

End mailbox.

(** * Messages of the property interface *)

(** The space of the value of a tag. *)
Definition value_buffer_num_u32s (value_buffer_size_bytes : Z) : outcome Z :=
  match u32_checked_sub value_buffer_size_bytes 1 with
  | Some v => uint_checked u32_max (4 * (1 + v / 4))
  | None => Done 0
  end.

(** [buffer[i] |= v]. *)
Definition or_at (i : nat) (v : Z) (buffer : list Z) : outcome (list Z) :=
  match buffer !! i with
  | Some w => Done (<[i := Z.lor w v]> buffer)
  | None => Panic PIndex
  end.

(** The loop over the bytes from the one at [byte_index] on. *)
Fixpoint copy_value (start byte_index : nat) (value_buffer : list Z) (buffer : list Z) : outcome (list Z) :=
  match value_buffer with
  | [] => Done buffer
  | byte :: value_buffer =>
      buffer ← or_at (start + byte_index / 4) (byte ≪ (8 * (Z.of_nat byte_index mod 4))) buffer;
      copy_value start (S byte_index) value_buffer buffer
  end.

(** [PropertyMessageBuilder] is its buffer. *)
Definition PropertyMessageBuilder_new : list Z := [0; 0].

Definition add_tag (tag : Z) (value_buffer : list Z) (buffer : list Z) : outcome (list Z) :=
  size_bytes ← unwrap (u32_try_from (Z.of_nat (length value_buffer)));
  num_u32s ← value_buffer_num_u32s size_bytes;
  let buffer_tag_start := length buffer in
  let buffer := buffer ++ replicate (3 + Z.to_nat num_u32s) 0 in
  let buffer := <[buffer_tag_start := tag]> buffer in
  let buffer := <[(buffer_tag_start + 1)%nat := size_bytes]> buffer in
  copy_value (buffer_tag_start + 3) 0 value_buffer buffer.

(** [from_buffer]: [None] is [Err]. *)
Definition from_buffer (buffer : list Z) : outcome (option (list Z)) :=
  let len := Z.of_nat (length buffer) in
  _ ← assert_ (bool_decide (2 ≤ len));
  _ ← assert_ (bool_decide (len mod 16 = 0));
  len32 ← unwrap (u32_try_from len);
  b0 ← index buffer 0;
  _ ← assert_ (bool_decide (len32 = b0));
  b1 ← index buffer 1;
  mret (if bool_decide (b1 ≠ 0x80000000) then None else Some buffer).

(** The iterator [tags], run to its end from the position [cursor]. *)
Fixpoint tags_from (fuel : nat) (cursor : Z) (data : list Z) : outcome (list (list Z)) :=
  match fuel with
  | O => NoFuel
  | S fuel =>
      len ← unwrap (u32_try_from (Z.of_nat (length data)));
      if bool_decide (len ≤ cursor) then Done [] else
      size_bytes ← index data (Z.to_nat cursor + 1);
      num_u32s ← value_buffer_num_u32s size_bytes;
      total ← uint_checked u32_max (3 + num_u32s);
      tag_end ← uint_checked u32_max (cursor + total);
      tag ← slice data (Z.to_nat cursor) (Z.to_nat tag_end);
      rest ← tags_from fuel tag_end data;
      mret (tag :: rest)
  end.

Definition tags (data : list Z) : outcome (list (list Z)) := tags_from (S (length data)) 2 data.

(** * Initialization *)

(** The bytes of a packet in memory, and the words of its bytes. *)
Definition packet_bytes (words : list Z) : list Z :=
  words ≫= λ w, [w mod 256; w / 2 ^ 8 mod 256; w / 2 ^ 16 mod 256; w / 2 ^ 24 mod 256].
Fixpoint packet_words (bytes : list Z) : list Z :=
  match bytes with
  | a :: b :: c :: d :: bytes => a + 2 ^ 8 * b + 2 ^ 16 * c + 2 ^ 24 * d :: packet_words bytes
  | _ => []
  end.

Definition Packet1 : list Z :=
  [80; 0; 0x00048003; 8; 0; 640; 480; 0x00048004; 8; 0; 640; 480; 0x00048005; 4; 0; 24; 0; 0; 0; 0].
Definition Packet2 : list Z := [32; 0; 0x00040001; 8; 0; 16; 0; 0].

Section init.
Context `{Platform} `{ScaleHandlers} `{ScaleDrivers}.

(** A request to the property interface, [ptr] being what the kernel answers
    with: the words of the packet after the video processor has answered. *)
Definition property_request (fuel : nat) (ptr : Z) (packet : list Z) : M (list access) (list Z) :=
  buffer ← PhysicalBuffer_new 16 ptr (packet_bytes packet);
  _ ← liftM (assert_ (bool_decide (pb_ptr buffer mod 16 = 0)));
  data ← liftM (unwrap (u32_try_from (pb_ptr buffer ≫ 4)));
  message ← liftM (Message_new 8 data);
  _ ← write_mailbox fuel message;
  _ ← read_mailbox fuel;
  bytes ← pb_read_inner buffer (4 * length packet);
  let answer := packet_words bytes in
  code ← liftM (index answer 1);
  _ ← liftM (assert_ (bool_decide (code = 0x80000000)));
  mret answer.

Definition init (fuel : nat) (ptr1 ptr2 : Z) : M (list access) unit :=
  data1 ← property_request fuel ptr1 Packet1;
  actual_width ← liftM (index data1 5);
  actual_height ← liftM (index data1 6);
  data2 ← property_request fuel ptr2 Packet2;
  fb_addr ← liftM (index data2 5);
  a ← liftM (uint_checked u64_max (3 * actual_height));
  len ← liftM (uint_checked u64_max (a * actual_width));
  wb_send (wb_memset fb_addr len 0xff HardwareWriteOperationsBuilder_new).

End init.
