(* ===== verification/RpiInv.v ===== *)
(** Theorems on the framebuffer of the Raspberry Pi ([Rpi.v]). *)
From S2P Require Import Prelude Hardware Drivers Rpi.

(** * Messages of the mailbox *)

(** A message of the mailbox keeps its channel and its data; one whose
    channel does not fit in 4 bits or whose data does not fit in 28 bits is
    refused with a panic. *)
Theorem mailbox_message_ok (channel data : Z) : 0 ≤ channel → 0 ≤ data →
  if bool_decide (channel < 2 ^ 4 ∧ data < 2 ^ 28)
  then ∃ m, Message_new channel data = Done m ∧ 0 ≤ m ≤ u32_max ∧ Message_channel m = Done channel ∧ Message_data m = data
  else Message_new channel data = Panic PAssert.
Proof.
  intros Hc Hd. unfold Message_new. change (1 ≪ 4) with (2 ^ 4). change (1 ≪ 28) with (2 ^ 28).
  case_bool_decide as Hfit.
  - destruct Hfit as [Hc' Hd']. rewrite !bool_decide_true by done. eexists. split; [done|].
    rewrite Z.mod_small by (rewrite Z.shiftl_mul_pow2 by done; lia). split.
    { rewrite lor_disjoint_add by lia. unfold u32_max. lia. }
    unfold Message_channel, Message_data. change 0xf with (2 ^ 4 - 1). rewrite land_low, mod_lor_low, shiftr_lor_high by lia.
    split; [|done]. apply unwrap_try_from. unfold u8_max. lia.
  - destruct (decide (channel < 2 ^ 4)) as [Hc'|Hc']; [|by rewrite (bool_decide_false _ Hc')].
    rewrite (bool_decide_true _ Hc'). cbn. rewrite bool_decide_false by (intros Hd'; by apply Hfit). done.
Qed.

(** * Tags *)

Definition is_byte (b : Z) : Prop := 0 ≤ b < 256.

(** The number of words that a value of [n] bytes takes: its size rounded to
    a multiple of four, which counts bytes and not words. *)
Definition value_words (n : nat) : nat := 4 * ((n + 3) / 4).

#[local] Arguments value_words : simpl never.

Lemma value_words_ok n : Z.of_nat n ≤ u32_max - 3 → value_buffer_num_u32s (Z.of_nat n) = Done (Z.of_nat (value_words n)).
Proof.
  intros Hn. unfold value_buffer_num_u32s, value_words, u32_checked_sub. destruct n as [|n]; [done|].
  rewrite (proj2 (uint_try_from_Some u32_max _ (Z.of_nat (S n) - 1))) by (unfold u32_max in *; lia).
  assert (Heq : 4 * (1 + (Z.of_nat (S n) - 1) / 4) = Z.of_nat (4 * ((S n + 3) / 4))).
  { rewrite Nat2Z.inj_mul, Nat2Z.inj_div, Nat2Z.inj_add. change (Z.of_nat 3) with 3. change (Z.of_nat 4) with 4.
    replace (Z.of_nat (S n) + 3) with (Z.of_nat (S n) - 1 + 1 * 4) by lia. rewrite Z.div_add by lia. lia. }
  rewrite <- Heq. apply uint_checked_Done. split; [done|]. pose proof (Z.div_mod (Z.of_nat (S n) - 1) 4). pose proof (Z.mod_pos_bound (Z.of_nat (S n) - 1) 4).
  unfold u32_max in *. lia.
Qed.

(** The byte [i] of the value that starts at the word [start]. *)
Definition byte_at (start : nat) (l : list Z) (i : nat) : Z :=
  (default 0 (l !! (start + i / 4)%nat) ≫ (8 * (Z.of_nat i mod 4))) mod 256.

Lemma or_at_app p i v l : or_at (length p + i) v (p ++ l) = l ← or_at i v l; Done (p ++ l).
Proof.
  unfold or_at. rewrite lookup_app_r, Nat.add_sub' by lia. destruct (l !! i); [|done]. cbn. f_equal.
  by rewrite insert_app_r.
Qed.

Lemma copy_value_app p start bs : ∀ i l, copy_value (length p + start) i bs (p ++ l) = l ← copy_value start i bs l; Done (p ++ l).
Proof.
  induction bs as [|b bs IH]; intros i l; [done|]. cbn [copy_value]. rewrite <- Nat.add_assoc, or_at_app.
  destruct (or_at _ _ l) as [l'| |]; [|done..]. cbn. apply IH.
Qed.

(** A byte that is put in a word, next to the others. *)
Lemma put_byte w b j k : 0 ≤ w → is_byte b → 0 ≤ j → 0 ≤ k → (w ≫ (8 * j)) mod 256 = 0 →
  (Z.lor w (b ≪ (8 * j)) ≫ (8 * k)) mod 256 = if bool_decide (j = k) then b else (w ≫ (8 * k)) mod 256.
Proof.
  intros Hw Hb Hj Hk Hz. change 256 with (2 ^ 8) in *. rewrite <- !land_low in * by done. rewrite Z.shiftr_lor, Z.land_lor_distr_l.
  case_bool_decide as Heq.
  - subst k. rewrite Hz, Z.lor_0_l. rewrite Z.shiftr_shiftl_l by lia. rewrite Z.sub_diag, Z.shiftl_0_r, land_low by done.
    apply Z.mod_small. exact Hb.
  - assert (Z.land ((b ≪ (8 * j)) ≫ (8 * k)) (2 ^ 8 - 1) = 0) as ->; [|by rewrite Z.lor_0_r]. rewrite land_low by done.
    destruct (decide (k < j)).
    + rewrite Z.shiftr_shiftl_l by lia. rewrite Z.shiftl_mul_pow2 by lia. replace (8 * j - 8 * k) with (8 + (8 * j - 8 * k - 8)) by lia.
      rewrite Z.pow_add_r by lia. replace (b * (2 ^ 8 * 2 ^ (8 * j - 8 * k - 8))) with (b * 2 ^ (8 * j - 8 * k - 8) * 2 ^ 8) by lia. by apply Z.mod_mul.
    + rewrite Z.shiftr_shiftl_r by lia. rewrite Z.shiftr_div_pow2 by lia. rewrite Z.div_small; [done|]. destruct Hb as [Hb1 Hb2]. split; [done|].
      apply Z.lt_le_trans with (2 ^ 8); [done|]. apply Z.pow_le_mono_r; lia.
Qed.

Lemma byte_at_ext start l l' i : l !! (start + i / 4)%nat = l' !! (start + i / 4)%nat → byte_at start l i = byte_at start l' i.
Proof. unfold byte_at. by intros ->. Qed.

Lemma byte_at_replicate n i : byte_at 0 (replicate n 0) i = 0.
Proof.
  unfold byte_at. destruct (_ !! _) as [w|] eqn:Hw; cbn; [|by rewrite Z.shiftr_0_l].
  apply lookup_replicate in Hw as [-> _]. by rewrite Z.shiftr_0_l.
Qed.

Lemma mod4 (i : nat) : Z.of_nat i mod 4 = Z.of_nat (i mod 4)%nat.
Proof. rewrite Nat2Z.inj_mod. done. Qed.

Lemma same_place (i j : nat) : i = j ↔ (i / 4 = j / 4)%nat ∧ (i mod 4 = j mod 4)%nat.
Proof. pose proof (Nat.div_mod i 4). pose proof (Nat.div_mod j 4). split; [by intros ->|]. lia. Qed.

(** A byte of a value in its place, which holds zero. *)
Lemma or_at_run (i : nat) b l : is_byte b → (i / 4 < length l)%nat → byte_at 0 l i = 0 → Forall (λ w, 0 ≤ w) l → ∃ l',
  or_at (i / 4) (b ≪ (8 * (Z.of_nat i mod 4))) l = Done l' ∧ length l' = length l ∧ Forall (λ w, 0 ≤ w) l' ∧
  ∀ j, byte_at 0 l' j = if bool_decide (i = j) then b else byte_at 0 l j.
Proof.
  intros Hb Hi Hz Hl. unfold or_at. destruct (l !! (i / 4)%nat) as [w|] eqn:Hw; [|apply lookup_ge_None_1 in Hw; lia].
  assert (0 ≤ w) by (by eapply Forall_lookup_1 in Hl).
  eexists. split; [done|]. split; [apply length_insert|]. split.
  { apply Forall_insert; [done|]. apply Z.lor_nonneg. split; [done|]. apply Z.shiftl_nonneg. apply Hb. }
  intros j. destruct (decide (i / 4 = j / 4)%nat) as [Heq|Hne].
  - unfold byte_at in Hz |- *. rewrite Nat.add_0_l in Hz |- *. rewrite Hw in Hz. rewrite <- Heq, list_lookup_insert_eq, Hw by lia. cbn [default from_option id] in Hz |- *.
    rewrite put_byte by (try done; rewrite ?mod4; lia). rewrite !mod4.
    case_bool_decide as H1; case_bool_decide as H2; try done; exfalso; [apply H2, same_place; split; [done|lia]|subst j; lia].
  - rewrite bool_decide_false by (by intros ->). apply byte_at_ext. cbn. by apply list_lookup_insert_ne.
Qed.

Lemma copy_value_run bs : ∀ i l, Forall is_byte bs → (i + length bs <= 4 * length l)%nat →
  (∀ j, (i <= j)%nat → byte_at 0 l j = 0) → Forall (λ w, 0 ≤ w) l → ∃ l',
  copy_value 0 i bs l = Done l' ∧ length l' = length l ∧
  ∀ j, byte_at 0 l' j = if bool_decide (j < i)%nat then byte_at 0 l j else default 0 (bs !! (j - i)%nat).
Proof.
  induction bs as [|b bs IH]; intros i l Hbs Hlen Hz Hl.
  - exists l. split_and!; [done..|]. intros j. case_bool_decide; [done|]. cbn. apply Hz. lia.
  - apply Forall_cons in Hbs as [Hb Hbs]. cbn [length] in Hlen. cbn [copy_value plus].
    destruct (or_at_run i b l) as (l1 & -> & Hlen1 & Hl1 & Hb1); [done| |by apply Hz|done|].
    { apply Nat.Div0.div_lt_upper_bound. lia. }
    cbn. destruct (IH (S i) l1) as (l2 & -> & Hlen2 & Hb2); [done|lia| |done|].
    { intros j Hj. rewrite Hb1, bool_decide_false by lia. apply Hz. lia. }
    exists l2. split; [done|]. split; [lia|]. intros j. rewrite Hb2, Hb1.
    destruct (decide (j < i)%nat) as [Hlt|Hge].
    + rewrite (bool_decide_true (j < S i)%nat), (bool_decide_true (j < i)%nat), (bool_decide_false (i = j)) by lia. done.
    + rewrite (bool_decide_false (j < i)%nat) by lia. destruct (decide (i = j)) as [->|Hne].
      * rewrite (bool_decide_true (j < S j)%nat), (bool_decide_true (j = j)), Nat.sub_diag by lia. done.
      * rewrite (bool_decide_false (j < S i)%nat) by lia. by replace (j - i)%nat with (S (j - S i)) by lia.
Qed.

(** The words of a tag: its identifier, the size of its value, zero, and the
    value, the first byte being the low byte of the first word. *)
Definition is_tag (tag : Z) (bs words : list Z) : Prop := ∃ v,
  words = tag :: Z.of_nat (length bs) :: 0 :: v ∧ length v = value_words (length bs) ∧
  ∀ j, byte_at 0 v j = default 0 (bs !! j).

Lemma value_words_enough n : (n <= 4 * value_words n)%nat.
Proof. unfold value_words. pose proof (Nat.div_mod (n + 3) 4). pose proof (Nat.mod_upper_bound (n + 3) 4). lia. Qed.

Lemma add_tag_run tag bs buffer : Forall is_byte bs → Z.of_nat (length bs) ≤ u32_max - 3 → ∃ words,
  is_tag tag bs words ∧ add_tag tag bs buffer = Done (buffer ++ words).
Proof.
  intros Hbs Hlen. unfold add_tag.
  rewrite (unwrap_try_from u32_max) by lia. cbn. rewrite value_words_ok by done. cbn. rewrite Nat2Z.id.
  set (n := value_words (length bs)).
  destruct (copy_value_run bs 0 (replicate n 0)) as (v & Hcopy & Hv & Hbytes); [done| | | |].
  { rewrite length_replicate. cbn. apply value_words_enough. }
  { intros. apply byte_at_replicate. }
  { by apply Forall_replicate. }
  exists (tag :: Z.of_nat (length bs) :: 0 :: v). split.
  { exists v. split; [done|]. rewrite Hv, length_replicate. split; [done|]. intros j. rewrite Hbytes, bool_decide_false by lia. by rewrite Nat.sub_0_r. }
  pose proof (insert_app_r buffer (0 :: 0 :: 0 :: replicate n 0) 0 tag) as Htag. rewrite Nat.add_0_r in Htag. rewrite Htag.
  rewrite insert_app_r, copy_value_app. cbn [insert list_insert].
  pose proof (copy_value_app [tag; Z.of_nat (length bs); 0] 0 bs 0 (replicate n 0)) as Happ. cbn in Happ |- *. rewrite Happ, Hcopy. done.
Qed.

Lemma is_tag_length tag bs words : is_tag tag bs words → length words = (3 + value_words (length bs))%nat.
Proof. intros (v & -> & Hv & _). cbn. lia. Qed.

Lemma value_words_le n : (n <= value_words n)%nat.
Proof. unfold value_words. pose proof (Nat.div_mod (n + 3) 4). pose proof (Nat.mod_upper_bound (n + 3) 4). lia. Qed.

(** The tags of a message, and the words that they take. *)
Fixpoint with_tags (ts : list (Z * list Z)) (buffer : list Z) : outcome (list Z) :=
  match ts with
  | [] => Done buffer
  | (tag, bs) :: ts => buffer ← add_tag tag bs buffer; with_tags ts buffer
  end.
Definition tags_size (ts : list (Z * list Z)) : nat := sum_list_with (λ t, (3 + value_words (length t.2))%nat) ts.
Definition are_tags (ts : list (Z * list Z)) (words : list (list Z)) : Prop := Forall2 (λ t w, is_tag t.1 t.2 w) ts words.

Lemma with_tags_run ts : ∀ buffer, Forall (λ t, Forall is_byte t.2) ts → Z.of_nat (tags_size ts) ≤ u32_max → ∃ words,
  are_tags ts words ∧ with_tags ts buffer = Done (buffer ++ concat words).
Proof.
  induction ts as [|[tag bs] ts IH]; intros buffer Hts Hsize.
  - exists []. split; [constructor|]. cbn. by rewrite app_nil_r.
  - apply Forall_cons in Hts as [Hbs Hts]. cbn in Hbs.
    change (tags_size ((tag, bs) :: ts)) with (3 + value_words (length bs) + tags_size ts)%nat in Hsize.
    destruct (add_tag_run tag bs buffer) as (w & Hw & Hrun); [done|pose proof (value_words_le (length bs)); lia|].
    destruct (IH (buffer ++ w)) as (words & Hwords & Hrest); [done|lia|].
    exists (w :: words). split; [by constructor|]. cbn. rewrite Hrun. cbn. by rewrite Hrest, <- app_assoc.
Qed.

Lemma are_tags_size ts words : are_tags ts words → length (concat words) = tags_size ts.
Proof.
  induction 1 as [|[tag bs] w ts words Hw Hts IH]; [done|]. cbn [concat]. rewrite length_app, IH, (is_tag_length _ _ _ Hw). done.
Qed.

Lemma are_tags_count ts words : are_tags ts words → (length words <= length (concat words))%nat.
Proof.
  induction 1 as [|[tag bs] w ts words Hw Hts IH]; [done|]. cbn [concat length]. rewrite length_app, (is_tag_length _ _ _ Hw). lia.
Qed.

Lemma tags_from_run ts words : ∀ fuel p, are_tags ts words → (length words < fuel)%nat →
  Z.of_nat (length (p ++ concat words)) ≤ u32_max → tags_from fuel (Z.of_nat (length p)) (p ++ concat words) = Done words.
Proof.
  revert words. induction ts as [|[tag bs] ts IH]; intros words fuel p Hts Hfuel Hlen;
    (destruct fuel as [|fuel]; [lia|]); cbn [tags_from]; rewrite (unwrap_try_from u32_max) by lia; cbn [mbind outcome_bind].
  - apply Forall2_nil_inv_l in Hts as ->. cbn. rewrite app_nil_r, bool_decide_true by lia. done.
  - apply Forall2_cons_inv_l in Hts as (w & words' & Hw & Hts & ->). cbn in Hw. pose proof (is_tag_length _ _ _ Hw) as Hlw.
    cbn [concat] in Hlen |- *. rewrite !length_app in Hlen. cbn [length] in Hfuel. pose proof (value_words_le (length bs)).
    rewrite bool_decide_false by (rewrite !length_app; lia).
    assert (Hsize : index (p ++ w ++ concat words') (Z.to_nat (Z.of_nat (length p)) + 1) = Done (Z.of_nat (length bs))).
    { destruct Hw as (v & -> & _). rewrite Nat2Z.id. unfold index. rewrite lookup_app_r by lia. by rewrite Nat.add_sub'. }
    rewrite Hsize. cbn. rewrite value_words_ok by lia. cbn.
    rewrite (proj2 (uint_checked_Done u32_max _ (3 + Z.of_nat (value_words (length bs))))) by lia. cbn.
    rewrite (proj2 (uint_checked_Done u32_max _ (Z.of_nat (length (p ++ w))))) by (rewrite length_app; lia). cbn.
    rewrite !Nat2Z.id. unfold slice. rewrite bool_decide_true by (rewrite !length_app; lia). cbn.
    rewrite drop_app_length. replace (length (p ++ w) - length p)%nat with (length w) by (rewrite length_app; lia). rewrite take_app_length.
    rewrite app_assoc, IH; [done..|lia|]. rewrite !length_app. lia.
Qed.

(** The message that the buffer of a builder becomes when its first two words,
    which the builder leaves at zero, are given: the size and the code. *)
Definition with_header (size code : Z) (buffer : list Z) : list Z := <[0%nat := size]> (<[1%nat := code]> buffer).

Lemma with_header_app size code body : with_header size code (PropertyMessageBuilder_new ++ body) = [size; code] ++ body.
Proof. done. Qed.

Lemma from_buffer_run size code body : Z.of_nat (length body) + 2 ≤ u32_max →
  from_buffer ([size; code] ++ body) =
    if bool_decide (size = Z.of_nat (length ([size; code] ++ body)) ∧ size mod 16 = 0)
    then Done (if bool_decide (code = 0x80000000) then Some ([size; code] ++ body) else None) else Panic PAssert.
Proof.
  intros Hlen. unfold from_buffer. assert (Hl : Z.of_nat (length ([size; code] ++ body)) = Z.of_nat (length body) + 2) by (rewrite length_app; cbn; lia).
  generalize dependent (Z.of_nat (length ([size; code] ++ body))). intros len Hl.
  rewrite (bool_decide_true (2 ≤ len)) by lia. cbn [assert_ mbind outcome_bind].
  destruct (decide (len mod 16 = 0)) as [Hm|Hm].
  - rewrite (bool_decide_true (len mod 16 = 0)) by done. cbn [assert_].
    rewrite (unwrap_try_from u32_max) by lia. cbn.
    destruct (decide (len = size)) as [->|Hne].
    2:{ rewrite (bool_decide_false (len = size)), (bool_decide_false (size = len ∧ _)) by naive_solver. done. }
    rewrite (bool_decide_true (size = size)), (bool_decide_true (size = size ∧ _)) by done.
    cbn. f_equal. case_bool_decide; case_bool_decide; congruence.
  - rewrite (bool_decide_false (len mod 16 = 0)) by done. rewrite bool_decide_false; [done|]. intros [-> ?]. done.
Qed.

(** C40: a message built tag by tag is parsed into its tags, whatever the tags
    and the bytes of their values, if the message fits in the words that a u32
    counts.  The builder does not panic.  Once its two header words, which the
    builder leaves at zero, are given, the parser accepts the message exactly
    if the first one is the number of words, a multiple of 16, and the second
    one is the code of an answer; it gives an error for another code and panics
    for another size, so it refuses the buffer of the builder as it is.  The
    iterator of the parser gives, in order, one slice per tag, which holds the
    identifier, the size in bytes of the value, and every byte of the value. *)
Theorem property_tags_ok (ts : list (Z * list Z)) :
  Forall (λ t, Forall is_byte t.2) ts → 2 + Z.of_nat (tags_size ts) ≤ u32_max → ∃ buffer words,
  with_tags ts PropertyMessageBuilder_new = Done buffer ∧ length buffer = (2 + tags_size ts)%nat ∧
  from_buffer buffer = Panic PAssert ∧ are_tags ts words ∧
  ∀ size code, let message := with_header size code buffer in
    from_buffer message =
      (if bool_decide (size = Z.of_nat (length buffer) ∧ size mod 16 = 0)
       then Done (if bool_decide (code = 0x80000000) then Some message else None) else Panic PAssert) ∧
    tags message = Done words.
Proof.
  intros Hts Hsize. destruct (with_tags_run ts PropertyMessageBuilder_new) as (words & Hwords & Hrun); [done|lia|].
  pose proof (are_tags_size _ _ Hwords) as Hlen. pose proof (are_tags_count _ _ Hwords) as Hcount.
  exists (PropertyMessageBuilder_new ++ concat words), words.
  split; [done|]. split; [cbn; lia|]. split.
  { unfold PropertyMessageBuilder_new. rewrite from_buffer_run by lia. rewrite bool_decide_false; [done|]. cbn. lia. }
  split; [done|]. intros size code. cbn zeta. rewrite with_header_app. split; [by rewrite from_buffer_run by lia|].
  unfold tags. apply (tags_from_run ts words _ [size; code]); [done|cbn; lia|cbn; lia].
Qed.

(** The parser wants the number of words in the first word, where [init] puts
    the number of bytes. *)
Lemma parser_counts_words : from_buffer (64 :: 0x80000000 :: replicate 14 0) = Panic PAssert.
Proof. done. Qed.

(** A value of one word takes four words. *)
Lemma value_takes_four_times : add_tag 0x48005 [24; 0; 0; 0] [] = Done [0x48005; 4; 0; 24; 0; 0; 0].
Proof. done. Qed.
