(* ===== verification/Syscalls.v ===== *)
(** The system calls, on the side of the programs
    ([interfaces/syscalls/src/block_on.rs], [response.rs],
    [interface_message.rs], [emit.rs]).

    A program is one thread of WASM: the lock around [STATE] is free at each
    call.  The kernel is what the documentation of the functions of
    [interfaces/syscalls/src/ffi.rs] says it is: a queue of notifications, of
    which [next_notification] gives the first that matches.  What comes in
    while the program sleeps is [arrivals]; a program that sleeps when nothing
    more comes never goes on, which is [NoFuel].  [Slab] is a map and the class
    [SlabKeys], which gives the key of an insertion. *)
From S2P Require Import Prelude WasmValue Ffi Calls.

(** * The kernel, as documented *)

(** What an entry of [to_poll] must be for a notification to match it. *)
Definition poll_id (n : NotificationBuilder) : outcome MessageId :=
  match n with
  | NbResponse r => response_message_id r
  | NbInterface _ | NbProcessDestroyed _ => mret 1
  end.

(** The first notification of the queue that matches an entry: its position,
    and the one of the first entry it matches. *)
Fixpoint find_match (to_poll : list Z) (queue : list NotificationBuilder) (j : nat) :
    outcome (option (nat * nat * NotificationBuilder)) :=
  match queue with
  | [] => mret None
  | n :: queue =>
      id ← poll_id n;
      match list_find (λ x, x = id) to_poll with
      | Some (i, _) => mret (Some (j, i, n))
      | None => find_match to_poll queue (S j)
      end
  end.

Record Kernel := {
  queue : list NotificationBuilder;
  arrivals : list NotificationBuilder;
}.

(** The result of the function, what is in [out], and [to_poll] afterwards.  The
    list of arrivals bounds the wait. *)
Fixpoint wait_notification (to_poll : list Z) (out_len : nat) (block : bool) (q a : list NotificationBuilder) :
    outcome (nat * bytes * list Z * Kernel) :=
  m ← find_match to_poll q 0;
  match m with
  | Some (j, i, n) =>
      if bool_decide (out_len < notification_len n)%nat
      then mret (notification_len n, [], to_poll, {| queue := q; arrivals := a |})
      else
        n ← set_index_in_list n (Z.of_nat i);
        mret (notification_len n, notification_into_bytes n, <[i := 0]> to_poll,
              {| queue := delete j q; arrivals := a |})
  | None =>
      if block then
        match a with
        | n :: a => wait_notification to_poll out_len block (q ++ [n]) a
        | [] => NoFuel
        end
      else mret (0%nat, [], to_poll, {| queue := q; arrivals := a |})
  end.

Definition ffi_next_notification (to_poll : list Z) (out_len : nat) (block : bool) :
    M Kernel (nat * bytes * list Z) := λ k,
  r ← wait_notification to_poll out_len block (queue k) (arrivals k);
  let '(ret, out, to_poll, k) := r in
  mret ((ret, out, to_poll), k).

(** * [block_on.rs] *)

Abbreviation Waker := nat (only parsing).

Inductive DecodedInterfaceOrDestroyed :=
  | Interface (n : DecodedInterfaceNotification)
  | ProcessDestroyed (n : DecodedProcessDestroyedNotification).

(** [STATE], the number of insertions into [wakers], the flag [woken_up] of the
    running [block_on], the kernel, and the messages that were cancelled. *)
Record Program := {
  message_ids : list Z;
  wakers : gmap nat (option Waker);
  inserts : nat;
  pending_messages : gmap MessageId DecodedResponseNotification;
  interface_messages_queue : list DecodedInterfaceOrDestroyed;
  woken_up : bool;
  kernel : Kernel;
  cancelled : list MessageId;
}.

(** [Slab::insert], for the [n]th time: a key that is vacant. *)
Class SlabKeys := { vacant_key : nat → gmap nat (option Waker) → nat }.
Class SlabKeysLaws `{SlabKeys} := { vacant_key_free : ∀ n m, m !! vacant_key n m = None }.

Definition set_ids (ids : list Z) (w : gmap nat (option Waker)) (p : Program) : Program :=
  {| message_ids := ids; wakers := w; inserts := inserts p; pending_messages := pending_messages p;
     interface_messages_queue := interface_messages_queue p; woken_up := woken_up p;
     kernel := kernel p; cancelled := cancelled p |}.
Definition set_inserts (n : nat) (p : Program) : Program :=
  {| message_ids := message_ids p; wakers := wakers p; inserts := n; pending_messages := pending_messages p;
     interface_messages_queue := interface_messages_queue p; woken_up := woken_up p; kernel := kernel p;
     cancelled := cancelled p |}.
Definition set_messages (pm : gmap MessageId DecodedResponseNotification) (q : list DecodedInterfaceOrDestroyed)
    (p : Program) : Program :=
  {| message_ids := message_ids p; wakers := wakers p; inserts := inserts p; pending_messages := pm;
     interface_messages_queue := q; woken_up := woken_up p; kernel := kernel p; cancelled := cancelled p |}.
Definition set_woken (b : bool) (p : Program) : Program :=
  {| message_ids := message_ids p; wakers := wakers p; inserts := inserts p; pending_messages := pending_messages p;
     interface_messages_queue := interface_messages_queue p; woken_up := b; kernel := kernel p; cancelled := cancelled p |}.
Definition set_kernel (k : Kernel) (p : Program) : Program :=
  {| message_ids := message_ids p; wakers := wakers p; inserts := inserts p; pending_messages := pending_messages p;
     interface_messages_queue := interface_messages_queue p; woken_up := woken_up p; kernel := k; cancelled := cancelled p |}.

(** Every waker that the futures of a program register ends in the one of
    [block_on], which sets its flag. *)
Definition wake (_ : Waker) : M Program unit := modify (set_woken true).

(** [Vec::resize(len, 0)]. *)
Definition resize_zero (len : nat) (l : list Z) : list Z := take len l ++ replicate (len - length l) 0.

Section block_on.
Context `{SlabKeys}.

(** [WakerRegistration { index }] is its index. *)
Definition register_message_waker (message_id : MessageId) (waker : Waker) : M Program nat :=
  p ← get;
  let index_ := vacant_key (inserts p) (wakers p) in
  let w := <[index_ := Some waker]> (wakers p) in
  let ids := if bool_decide (length (message_ids p) ≤ index_)%nat
             then resize_zero (S index_) (message_ids p) else message_ids p in
  old ← liftM (index ids index_);
  _ ← liftM (debug_assert (bool_decide (old = 0)));
  _ ← put (set_ids (<[index_ := message_id]> ids) w (set_inserts (S (inserts p)) p));
  mret index_.

Definition peek_interface_message : M Program (option DecodedInterfaceOrDestroyed) :=
  p ← get;
  match interface_messages_queue p with
  | [] => mret None
  | m :: rest => _ ← put (set_messages (pending_messages p) rest p); mret (Some m)
  end.

Definition peek_response (msg_id : MessageId) : M Program (option DecodedResponseNotification) :=
  p ← get;
  _ ← put (set_messages (delete msg_id (pending_messages p)) (interface_messages_queue p) p);
  mret (pending_messages p !! msg_id).

(** [state.wakers[index]], which panics on a key that is vacant. *)
Definition slab_index (index_ : nat) (w : gmap nat (option Waker)) : outcome (option Waker) :=
  match w !! index_ with Some x => Done x | None => Panic PIndex end.

Definition registration_update (index_ : nat) (waker : Waker) : M Program unit :=
  p ← get;
  _ ← liftM (slab_index index_ (wakers p));
  put (set_ids (message_ids p) (<[index_ := Some waker]> (wakers p)) p).

Definition registration_drop (index_ : nat) : M Program unit :=
  p ← get;
  _ ← liftM (index (message_ids p) index_);
  _ ← liftM (slab_index index_ (wakers p));
  let w := delete index_ (wakers p) in
  let ids := <[index_ := 0]> (message_ids p) in
  put (set_ids (if bool_decide (w = ∅) then [] else ids) w p).

(** [next_notification_impl]; the buffer grows at most once.  [Vec::reserve]
    at least doubles the capacity. *)
Fixpoint next_notification_loop (fuel capacity : nat) (to_poll : list Z) (block : bool) :
    M Kernel (option DecodedNotification * list Z) :=
  match fuel with
  | O => λ _, NoFuel
  | S fuel =>
      r ← ffi_next_notification to_poll capacity block;
      let '(ret, out, to_poll) := r in
      if bool_decide (ret = 0%nat) then mret (None, to_poll) else
      if bool_decide (capacity < ret)%nat
      then next_notification_loop fuel (Nat.max (2 * capacity) ret) to_poll block
      else
        n ← liftM (decode_notification out);
        match n with
        | inr n => mret (Some n, to_poll)
        | inl _ => panic PUnwrap
        end
  end.

Definition next_notification : list Z → bool → M Kernel (option DecodedNotification * list Z) :=
  next_notification_loop 2 32.

(** [next_notification(&mut state.message_ids, block)]. *)
Definition poll_kernel (block : bool) : M Program (option DecodedNotification) :=
  p ← get;
  r ← zoom kernel set_kernel (next_notification (message_ids p) block);
  _ ← modify (λ p, set_ids (snd r) (wakers p) p);
  mret (fst r).

(** The part common to the three arms: the entry is zero, and its waker is
    taken and woken. *)
Definition take_waker (index_ : Z) : M Program unit :=
  p ← get;
  id ← liftM (index (message_ids p) (Z.to_nat index_));
  _ ← liftM (debug_assert (bool_decide (id = 0)));
  w ← liftM (slab_index (Z.to_nat index_) (wakers p));
  _ ← put (set_ids (message_ids p) (<[Z.to_nat index_ := None]> (wakers p)) p);
  match w with Some w => wake w | None => mret tt end.

Definition push_interface (m : DecodedInterfaceOrDestroyed) : M Program unit :=
  modify (λ p, set_messages (pending_messages p) (interface_messages_queue p ++ [m]) p).

(** The body of the loop over the notifications. *)
Definition on_notification (n : DecodedNotification) : M Program unit :=
  match n with
  | DnResponse msg =>
      _ ← take_waker (dr_index_in_list msg);
      p ← get;
      _ ← put (set_messages (<[dr_message_id msg := msg]> (pending_messages p)) (interface_messages_queue p) p);
      liftM (debug_assert (bool_decide (pending_messages p !! dr_message_id msg = None)))
  | DnInterface msg =>
      _ ← take_waker (di_index_in_list msg);
      push_interface (Interface msg)
  | DnProcessDestroyed msg =>
      _ ← take_waker (dd_index_in_list msg);
      push_interface (ProcessDestroyed msg)
  end.

(** [while let Some(msg) = next_notification(.., block)]; the result is [block]. *)
Fixpoint notifications_loop (fuel : nat) (block : bool) : M Program bool :=
  match fuel with
  | O => λ _, NoFuel
  | S fuel =>
      m ← poll_kernel block;
      match m with
      | Some m => _ ← on_notification m; notifications_loop fuel false
      | None => mret block
      end
  end.

Section future.
Context {F T : Type} (poll : F → M Program (option T * F)) (drop_future : F → M Program unit).

(** The inner loop: polls until the future is ready, or was not woken. *)
Fixpoint poll_while_woken (fuel : nat) (f : F) : M Program (option T * F) :=
  match fuel with
  | O => λ _, NoFuel
  | S fuel =>
      r ← poll f;
      match fst r with
      | Some v => mret (Some v, snd r)
      | None =>
          p ← get;
          _ ← put (set_woken false p);
          if woken_up p then poll_while_woken fuel (snd r) else mret (None, snd r)
      end
  end.

Fixpoint block_on_loop (fuel : nat) (f : F) : M Program T :=
  match fuel with
  | O => λ _, NoFuel
  | S fuel' =>
      r ← poll_while_woken fuel f;
      match fst r with
      | Some v => _ ← drop_future (snd r); mret v
      | None =>
          p ← get;
          _ ← liftM (debug_assert (bool_decide (length (message_ids p) = size (wakers p))));
          block ← notifications_loop fuel true;
          _ ← liftM (debug_assert (negb block));
          block_on_loop fuel' (snd r)
      end
  end.

(** [woken_up] is a new flag; the future is dropped when the function
    returns. *)
Definition block_on (fuel : nat) (f : F) : M Program T :=
  _ ← modify (set_woken false);
  block_on_loop fuel f.

End future.

(** * [response.rs] and [interface_message.rs] *)

(** [MessageResponseFuture]. *)
Record ResponseFuture := {
  rf_msg_id : MessageId;
  rf_finished : bool;
  rf_registration : option nat;
}.

Definition message_response (msg_id : MessageId) : ResponseFuture :=
  {| rf_msg_id := msg_id; rf_finished := false; rf_registration := None |}.

(** Registers the waker of the context, or updates the registration. *)
Definition register_or_update (id : MessageId) (waker : Waker) (r : option nat) : M Program (option nat) :=
  match r with
  | Some r => _ ← registration_update r waker; mret (Some r)
  | None => r ← register_message_waker id waker; mret (Some r)
  end.

Section decode.
Context {T : Type} (decode : EncodedMessage → option T).

Definition response_poll (waker : Waker) (f : ResponseFuture) : M Program (option T * ResponseFuture) :=
  _ ← liftM (assert_ (negb (rf_finished f)));
  r ← peek_response (rf_msg_id f);
  match r with
  | Some response =>
      data ← liftM (match dr_actual_data response with inr d => Done d | inl _ => Panic PUnwrap end);
      v ← liftM (unwrap (decode data));
      mret (Some v, {| rf_msg_id := rf_msg_id f; rf_finished := true; rf_registration := rf_registration f |})
  | None =>
      r ← register_or_update (rf_msg_id f) waker (rf_registration f);
      mret (None, {| rf_msg_id := rf_msg_id f; rf_finished := rf_finished f; rf_registration := r |})
  end.

(** Dropping the future drops its registration. *)
Definition drop_registration (r : option nat) : M Program unit :=
  match r with Some r => registration_drop r | None => mret tt end.
Definition response_drop (f : ResponseFuture) : M Program unit := drop_registration (rf_registration f).

(** * [emit.rs]: [EmitMessageWithResponse] *)

Record EmitFuture := {
  ef_inner : option ResponseFuture;
  ef_msg_id : MessageId;
}.

Definition emit_future (msg_id : MessageId) : EmitFuture :=
  {| ef_inner := Some (message_response msg_id); ef_msg_id := msg_id |}.

Definition emit_poll (waker : Waker) (f : EmitFuture) : M Program (option T * EmitFuture) :=
  inner ← liftM (unwrap (ef_inner f));
  r ← response_poll waker inner;
  match fst r with
  | Some v =>
      _ ← drop_registration (rf_registration (snd r));
      mret (Some v, {| ef_inner := None; ef_msg_id := ef_msg_id f |})
  | None => mret (None, {| ef_inner := Some (snd r); ef_msg_id := ef_msg_id f |})
  end.

Definition cancel_message (id : MessageId) : M Program unit :=
  modify (λ p, {| message_ids := message_ids p; wakers := wakers p; inserts := inserts p; pending_messages := pending_messages p;
                  interface_messages_queue := interface_messages_queue p; woken_up := woken_up p;
                  kernel := kernel p; cancelled := cancelled p ++ [id] |}).

Definition emit_drop (f : EmitFuture) : M Program unit :=
  match ef_inner f with
  | Some inner => _ ← cancel_message (ef_msg_id f); drop_registration (rf_registration inner)
  | None => mret tt
  end.

End decode.

Definition message_response_sync_raw (msg_id : MessageId) : M Program EncodedMessage :=
  r ← zoom kernel set_kernel (next_notification [msg_id] true);
  n ← liftM (unwrap (fst r));
  match n with
  | DnResponse m => liftM (match dr_actual_data m with inr d => Done d | inl _ => Panic PUnwrap end)
  | _ => panic PExplicit
  end.

(** [InterfaceMessageFuture]. *)
Record InterfaceFuture := {
  if_finished : bool;
  if_registration : option nat;
}.

Definition next_interface_message : InterfaceFuture := {| if_finished := false; if_registration := None |}.

Definition interface_poll (waker : Waker) (f : InterfaceFuture) :
    M Program (option DecodedInterfaceOrDestroyed * InterfaceFuture) :=
  _ ← liftM (assert_ (negb (if_finished f)));
  m ← peek_interface_message;
  match m with
  | Some message => mret (Some message, {| if_finished := true; if_registration := if_registration f |})
  | None =>
      r ← register_or_update 1 waker (if_registration f);
      mret (None, {| if_finished := if_finished f; if_registration := r |})
  end.

End block_on.

(** * [emit.rs]: building a message *)

Record MessageBuilder := {
  mb_allow_delay : bool;
  mb_array : list Z;
}.

Definition MessageBuilder_new : MessageBuilder := {| mb_allow_delay := true; mb_array := [] |}.
Definition with_no_delay (b : MessageBuilder) : MessageBuilder := {| mb_allow_delay := false; mb_array := mb_array b |}.

(** [add_data_raw] of a buffer of [len] bytes at [ptr]. *)
Definition add_data_raw (ptr len : Z) (b : MessageBuilder) : outcome MessageBuilder :=
  ptr ← unwrap (u32_try_from ptr);
  len ← unwrap (u32_try_from len);
  mret {| mb_allow_delay := mb_allow_delay b; mb_array := mb_array b ++ [ptr; len] |}.

Inductive EmitErr := BadInterface.

Definition i32_of_bool (b : bool) : WasmValue := I32 (if b then 1 else 0).

(** The parameters of the call to [emit_message], whose array is at
    [array_ptr]. *)
Definition emit_params (interface array_ptr message_id_out : Z) (needs_answer : bool) (b : MessageBuilder) :
    outcome (list WasmValue) :=
  num ← unwrap (u32_try_from (Z.of_nat (length (mb_array b)) / 2));
  mret [I32 interface; I32 array_ptr; I32 num; i32_of_bool needs_answer; i32_of_bool (mb_allow_delay b);
        I32 message_id_out].

(** [emit_raw_impl], [ret] being what the call returns and [id] what it wrote. *)
Definition emit_raw (needs_answer : bool) (ret id : Z) : EmitErr + option MessageId :=
  if bool_decide (ret ≠ 0) then inl BadInterface
  else inr (if needs_answer then Some id else None).

Definition emit_with_response_raw (ret id : Z) : fallible EmitErr MessageId :=
  match emit_raw true ret id with
  | inl e => fail e
  | inr o => lift (unwrap o)
  end.

Definition emit_without_response (ret id : Z) : fallible EmitErr unit :=
  match emit_raw false ret id with
  | inl e => fail e
  | inr o => lift (debug_assert (bool_decide (o = None)))
  end.
