(* ===== verification/SyscallsInv.v ===== *)
(** Theorems on the program side of the system calls ([Syscalls.v]): the state
    of [block_on], the delivery of the notifications to the futures that wait
    for them, and the calls of [emit.rs] as the kernel parses them
    ([Calls.v]). *)
From S2P Require Import Prelude WasmValue Ffi Calls Syscalls.

(** * Notifications *)

(** What a notification says. *)
Inductive Note :=
  | NoteResponse (id : MessageId) (data : unit + EncodedMessage)
  | NoteInterface (interface : InterfaceHash) (id : option MessageId) (emitter : Pid) (data : EncodedMessage)
  | NoteDestroyed (pid : Pid).

(** Identifiers are [u64]s; 0 and 1 are not the ones of messages. *)
Definition note_ok (n : Note) : Prop :=
  match n with
  | NoteResponse id _ => is_u64 id ∧ 1 < id
  | NoteInterface h id pid _ => is_hash h ∧ from_option is_u64 True id ∧ id ≠ Some 0 ∧ is_u64 pid
  | NoteDestroyed pid => is_u64 pid
  end.

Definition build_note (n : Note) (i : Z) : NotificationBuilder :=
  match n with
  | NoteResponse id data => NbResponse (build_response_notification id i data)
  | NoteInterface h id pid data => NbInterface (build_interface_notification h id pid i data)
  | NoteDestroyed pid => NbProcessDestroyed (build_process_destroyed_notification pid i)
  end.
Definition decoded (n : Note) (i : Z) : DecodedNotification :=
  match n with
  | NoteResponse id data => DnResponse {| dr_message_id := id; dr_index_in_list := i; dr_actual_data := data |}
  | NoteInterface h id pid data => DnInterface {|
      di_interface := h; di_message_id := id; di_emitter_pid := pid; di_index_in_list := i; di_actual_data := data |}
  | NoteDestroyed pid => DnProcessDestroyed {| dd_pid := pid; dd_index_in_list := i |}
  end.
Definition note_id (n : Note) : MessageId := match n with NoteResponse id _ => id | _ => 1 end.

Abbreviation notes_of ns := ((λ n, build_note n 0) <$> ns) (only parsing).

Lemma poll_id_build n i : note_ok n → poll_id (build_note n i) = Done (note_id n).
Proof. destruct n; simpl; intros Hn; [by apply response_message_id_build, Hn|done..]. Qed.

Lemma set_index_build n i j : note_ok n → set_index_in_list (build_note n i) j = Done (build_note n j).
Proof.
  destruct n; simpl; intros Hn.
  - destruct Hn as [? _]. by rewrite set_index_response.
  - destruct Hn as [? _]. by rewrite set_index_interface.
  - by rewrite set_index_destroyed.
Qed.

Lemma decode_build n i : note_ok n → is_u32 i →
  decode_notification (notification_into_bytes (build_note n i)) = Done (inr (decoded n i)).
Proof.
  destruct n as [id data|h id pid data|pid]; cbn [notification_into_bytes build_note decoded note_ok]; intros Hn Hi.
  - destruct Hn as [? _]. by apply decode_build_response.
  - destruct Hn as (? & ? & Hne & ?). rewrite decode_build_interface by done.
    by rewrite bool_decide_false by done.
  - by apply decode_build_destroyed.
Qed.

Lemma note_len n i j : notification_len (build_note n i) = notification_len (build_note n j).
Proof.
  destruct n; simpl; unfold build_response_notification, build_interface_notification,
    build_process_destroyed_notification; simpl; rewrite ?length_app, ?length_u64_le, ?length_u32_le; done.
Qed.

Lemma note_len_pos n i : (0 < notification_len (build_note n i))%nat.
Proof. destruct n; simpl; lia. Qed.

(** * [next_notification] *)

(** A notification matches the list. *)
Definition matches (to_poll : list Z) (n : Note) : Prop := note_id n ∈ to_poll.
#[global] Instance matches_dec to_poll n : Decision (matches to_poll n) := decide (note_id n ∈ to_poll).

(** The first entry that it matches. *)
Definition entry (to_poll : list Z) (n : Note) : nat := default 0%nat (fst <$> list_find (λ x, x = note_id n) to_poll).

Lemma entry_ok to_poll n : matches to_poll n →
  list_find (λ x, x = note_id n) to_poll = Some (entry to_poll n, note_id n) ∧
  to_poll !! entry to_poll n = Some (note_id n).
Proof.
  intros Hm. unfold entry. destruct (list_find (λ x, x = note_id n) to_poll) as [[i x]|] eqn:Hf.
  - assert (Hf' := Hf). apply list_find_Some in Hf' as (Hi & -> & _). done.
  - apply list_find_None in Hf. by pose proof (proj1 (Forall_forall _ _) Hf _ Hm).
Qed.

Lemma no_entry to_poll n : ¬ matches to_poll n → list_find (λ x, x = note_id n) to_poll = None.
Proof. intros Hm. apply list_find_None, Forall_forall. intros x Hx ->. by apply Hm. Qed.

Lemma find_match_skip to_poll l1 l2 j : Forall note_ok l1 → Forall (λ n, ¬ matches to_poll n) l1 →
  find_match to_poll (notes_of (l1 ++ l2)) j = find_match to_poll (notes_of l2) (j + length l1).
Proof.
  intros Hok. revert j. induction Hok as [|n l1 Hn _ IH]; intros j Hno; simpl.
  - by rewrite Nat.add_0_r.
  - apply Forall_cons in Hno as [Hn' Hno]. rewrite poll_id_build by done. simpl. rewrite no_entry by done.
    rewrite IH by done. f_equal. lia.
Qed.

Lemma find_match_none to_poll l j : Forall note_ok l → Forall (λ n, ¬ matches to_poll n) l →
  find_match to_poll (notes_of l) j = Done None.
Proof. intros. rewrite <- (app_nil_r l), find_match_skip by done. done. Qed.

Lemma find_match_first to_poll l1 n l2 j : Forall note_ok l1 → Forall (λ n, ¬ matches to_poll n) l1 →
  note_ok n → matches to_poll n →
  find_match to_poll (notes_of (l1 ++ n :: l2)) j = Done (Some ((j + length l1)%nat, entry to_poll n, build_note n 0)).
Proof.
  intros Hok Hno Hn Hm. rewrite find_match_skip by done. simpl. rewrite poll_id_build by done. simpl.
  by rewrite (proj1 (entry_ok _ _ Hm)).
Qed.

Lemma Forall_app_1_l {A} (P : A → Prop) l1 l2 : Forall P (l1 ++ l2) → Forall P l1.
Proof. rewrite Forall_app. tauto. Qed.

Lemma delete_notes l1 n l2 : delete (length l1) (notes_of (l1 ++ n :: l2)) = notes_of (l1 ++ l2).
Proof.
  rewrite !fmap_app. cbn [fmap list_fmap]. rewrite <- (length_fmap (λ n, build_note n 0) l1). apply delete_middle.
Qed.

(** What [wait_notification] gives when the first notification that matches is
    already queued. *)
Definition given (to_poll : list Z) (len : nat) (l1 : list Note) (n : Note) (l2 a : list Note) :
    outcome (nat * bytes * list Z * Kernel) :=
  if bool_decide (len < notification_len (build_note n 0))%nat
  then Done (notification_len (build_note n 0), [], to_poll, {| queue := notes_of (l1 ++ n :: l2); arrivals := notes_of a |})
  else Done (notification_len (build_note n 0), notification_into_bytes (build_note n (Z.of_nat (entry to_poll n))),
             <[entry to_poll n := 0]> to_poll, {| queue := notes_of (l1 ++ l2); arrivals := notes_of a |}).

Lemma wait_queued to_poll len block l1 n l2 a : Forall note_ok (l1 ++ n :: l2) →
  Forall (λ n, ¬ matches to_poll n) l1 → matches to_poll n →
  wait_notification to_poll len block (notes_of (l1 ++ n :: l2)) (notes_of a) = given to_poll len l1 n l2 a.
Proof.
  intros [Hok1 [Hn _]%Forall_cons]%Forall_app Hno Hm. unfold given.
  destruct a; cbn [fmap list_fmap wait_notification]; unfold mbind at 1, outcome_bind at 1;
    rewrite find_match_first by done; cbn [mbind outcome_bind]; (case_bool_decide; [done|]);
    rewrite set_index_build by done; cbn [mbind outcome_bind];
    rewrite Nat.add_0_l, (note_len n _ 0), delete_notes; done.
Qed.

(** While the program sleeps, what comes in is queued. *)
Lemma wait_arrivals to_poll len q a1 a2 : Forall note_ok (q ++ a1) → Forall (λ n, ¬ matches to_poll n) (q ++ a1) →
  a2 ≠ [] →
  wait_notification to_poll len true (notes_of q) (notes_of (a1 ++ a2)) =
  wait_notification to_poll len true (notes_of (q ++ a1)) (notes_of a2).
Proof.
  revert q. induction a1 as [|x a1 IH]; intros q Hok Hno Ha2; [by rewrite app_nil_r|].
  cbn [app fmap list_fmap wait_notification]. unfold mbind at 1, outcome_bind at 1.
  rewrite find_match_none by (by eapply Forall_app_1_l). cbn [mbind outcome_bind].
  replace (notes_of q ++ [build_note x 0]) with (notes_of (q ++ [x])) by (by rewrite fmap_app).
  rewrite IH by (rewrite <- ?app_assoc; done). by rewrite <- app_assoc.
Qed.

(** A wait that blocks gives the first notification that matches, among those
    that are queued and those that come later. *)
Lemma wait_first to_poll len q a l1 n l2 : Forall note_ok (q ++ a) → q ++ a = l1 ++ n :: l2 →
  Forall (λ n, ¬ matches to_poll n) l1 → matches to_poll n →
  ∃ q2 a', q2 ++ a' = l2 ∧
    wait_notification to_poll len true (notes_of q) (notes_of a) = given to_poll len l1 n q2 a'.
Proof.
  intros Hok Heq Hno Hm. destruct (decide (length l1 < length q)%nat) as [Hlt|Hge].
  - assert (q = l1 ++ drop (length l1) q) as Hq.
    { rewrite <- (take_drop (length l1) q) at 1. f_equal. apply (f_equal (take (length l1))) in Heq.
      by rewrite take_app_le, take_app_length in Heq by lia. }
    rewrite Hq, <- app_assoc in Heq. apply (inj (app l1)) in Heq.
    destruct (drop (length l1) q) as [|n' q2]; [rewrite app_nil_r in Hq; subst; lia|].
    simpl in Heq. injection Heq as -> <-. exists q2, a. split; [done|]. rewrite Hq.
    apply wait_queued; [|done..]. rewrite <- Hq. by eapply Forall_app_1_l.
  - assert (l1 = q ++ drop (length q) l1) as Hl1.
    { rewrite <- (take_drop (length q) l1) at 1. f_equal. apply (f_equal (take (length q))) in Heq.
      by rewrite take_app_length, take_app_le in Heq by lia. }
    set (a1 := drop (length q) l1) in *. rewrite Hl1, <- app_assoc in Heq. apply (inj (app q)) in Heq. subst a.
    exists [], l2. split; [done|]. rewrite Hl1 in *.
    rewrite wait_arrivals; [|by rewrite app_assoc in Hok; eapply Forall_app_1_l|done|done].
    cbn [fmap list_fmap wait_notification]. unfold mbind at 1, outcome_bind at 1.
    rewrite find_match_none; [|by rewrite app_assoc in Hok; eapply Forall_app_1_l|done]. cbn [mbind outcome_bind].
    replace (notes_of (q ++ a1) ++ [build_note n 0]) with (notes_of ((q ++ a1) ++ [n])) by (by rewrite (fmap_app _ (q ++ a1))).
    apply wait_queued; [|done..]. rewrite !app_assoc in Hok. apply Forall_app in Hok as [Hok Hl2].
    apply Forall_app. split; [done|]. apply Forall_cons in Hl2 as [? _]. by constructor.
Qed.

(** The entries of [to_poll] are indexed by a [u32]. *)
Definition poll_ok (to_poll : list Z) : Prop := Z.of_nat (length to_poll) ≤ u32_max.

Lemma entry_u32 to_poll n : poll_ok to_poll → matches to_poll n → is_u32 (Z.of_nat (entry to_poll n)).
Proof.
  intros Hp Hm. destruct (entry_ok _ _ Hm) as [_ Hl]. apply lookup_lt_Some in Hl. unfold poll_ok, is_u32, u32_max in *. lia.
Qed.

Lemma loop_fits to_poll block capacity fuel l1 n q2 a2 k :
  poll_ok to_poll → note_ok n → matches to_poll n → (notification_len (build_note n 0) ≤ capacity)%nat →
  wait_notification to_poll capacity block (queue k) (arrivals k) = given to_poll capacity l1 n q2 a2 →
  next_notification_loop (S fuel) capacity to_poll block k =
    Done ((Some (decoded n (Z.of_nat (entry to_poll n))), <[entry to_poll n := 0]> to_poll),
          {| queue := notes_of (l1 ++ q2); arrivals := notes_of a2 |}).
Proof.
  intros Hp Hn Hm Hle Hw. cbn [next_notification_loop]. unfold ffi_next_notification, mbind, M_bind. rewrite Hw. unfold given.
  rewrite bool_decide_false by lia. cbn [outcome_bind]. pose proof (note_len_pos n 0).
  unfold mret, outcome_ret. rewrite bool_decide_false by lia. rewrite bool_decide_false by lia. unfold liftM.
  rewrite decode_build by (done || by apply entry_u32). done.
Qed.

Lemma loop_grows to_poll block capacity fuel l1 n q2 a2 k :
  (capacity < notification_len (build_note n 0))%nat →
  wait_notification to_poll capacity block (queue k) (arrivals k) = given to_poll capacity l1 n q2 a2 →
  next_notification_loop (S fuel) capacity to_poll block k =
  next_notification_loop fuel (Nat.max (2 * capacity) (notification_len (build_note n 0))) to_poll block
    {| queue := notes_of (l1 ++ n :: q2); arrivals := notes_of a2 |}.
Proof.
  intros Hlt Hw. cbn [next_notification_loop]. unfold ffi_next_notification, mbind, M_bind. rewrite Hw. unfold given.
  rewrite bool_decide_true by lia. cbn [outcome_bind]. pose proof (note_len_pos n 0).
  unfold mret, outcome_ret. rewrite bool_decide_false by lia. by rewrite bool_decide_true by lia.
Qed.

(** [next_notification] delivers the first notification that matches: it is
    taken out of the queue, its entry becomes zero, and nothing else changes,
    whatever the size of the notification. *)
Lemma next_notification_queued to_poll block l1 n q2 a : poll_ok to_poll → Forall note_ok (l1 ++ n :: q2) →
  Forall (λ n, ¬ matches to_poll n) l1 → matches to_poll n →
  next_notification to_poll block {| queue := notes_of (l1 ++ n :: q2); arrivals := notes_of a |} =
    Done ((Some (decoded n (Z.of_nat (entry to_poll n))), <[entry to_poll n := 0]> to_poll),
          {| queue := notes_of (l1 ++ q2); arrivals := notes_of a |}).
Proof.
  intros Hp Hok Hno Hm. assert (Hn : note_ok n) by (apply Forall_app in Hok as [_ [? _]%Forall_cons]; done).
  unfold next_notification. destruct (decide (notification_len (build_note n 0) ≤ 32)%nat) as [Hle|Hgt].
  - eapply loop_fits; [done..|]. by apply wait_queued.
  - rewrite (loop_grows _ _ _ _ l1 n q2 a) by (lia || by apply wait_queued).
    eapply loop_fits; [done..|lia|]. by apply wait_queued.
Qed.

Lemma next_notification_none to_poll q a : Forall note_ok q → Forall (λ n, ¬ matches to_poll n) q →
  next_notification to_poll false {| queue := notes_of q; arrivals := notes_of a |} =
    Done ((None, to_poll), {| queue := notes_of q; arrivals := notes_of a |}).
Proof.
  intros Hok Hno. unfold next_notification. change 2%nat with (S 1). cbn [next_notification_loop].
  unfold ffi_next_notification, mbind, M_bind. cbn [queue arrivals].
  assert (wait_notification to_poll 32 false (notes_of q) (notes_of a) = Done (0%nat, [], to_poll, {| queue := notes_of q; arrivals := notes_of a |})) as ->.
  { destruct a; cbn [fmap list_fmap wait_notification]; unfold mbind at 1, outcome_bind at 1; by rewrite find_match_none. }
  done.
Qed.

Lemma next_notification_wait to_poll q a l1 n l2 : poll_ok to_poll → Forall note_ok (q ++ a) → q ++ a = l1 ++ n :: l2 →
  Forall (λ n, ¬ matches to_poll n) l1 → matches to_poll n →
  ∃ q2 a', q2 ++ a' = l2 ∧
    next_notification to_poll true {| queue := notes_of q; arrivals := notes_of a |} =
    Done ((Some (decoded n (Z.of_nat (entry to_poll n))), <[entry to_poll n := 0]> to_poll),
          {| queue := notes_of (l1 ++ q2); arrivals := notes_of a' |}).
Proof.
  intros Hp Hok Heq Hno Hm.
  assert (Hn : note_ok n) by (rewrite Heq in Hok; apply Forall_app in Hok as [_ [? _]%Forall_cons]; done).
  destruct (wait_first to_poll 32 q a l1 n l2) as (q2 & a' & Hl2 & Hw); [done..|].
  exists q2, a'. split; [done|]. unfold next_notification.
  destruct (decide (notification_len (build_note n 0) ≤ 32)%nat) as [Hle|Hgt].
  - by eapply loop_fits.
  - rewrite (loop_grows _ _ _ _ l1 n q2 a') by (done || lia).
    eapply loop_fits; [done..|lia|]. apply wait_queued; [|done..].
    rewrite Heq in Hok. subst l2. rewrite app_comm_cons, app_assoc in Hok. by eapply Forall_app_1_l.
Qed.

(** * The state of [block_on] *)

(** An identifier that is polled has a waker, and the entries of the wakers are
    entries of the list. *)
Record prog_inv (p : Program) : Prop := {
  inv_waker i id : message_ids p !! i = Some id → id ≠ 0 → ∃ w, wakers p !! i = Some (Some w);
  inv_index i : is_Some (wakers p !! i) → (i < length (message_ids p))%nat;
}.

(** The kernel that the program talks to holds these notifications. *)
Definition holds (p : Program) (q a : list Note) : Prop :=
  kernel p = {| queue := notes_of q; arrivals := notes_of a |}.

(** What becomes of the state when a notification that matches the entry [i]
    is delivered. *)
Definition deliver (n : Note) (i : nat) (p : Program) : Program :=
  let p := set_woken true (set_ids (<[i := 0]> (message_ids p)) (<[i := None]> (wakers p)) p) in
  match decoded n (Z.of_nat i) with
  | DnResponse r => set_messages (<[dr_message_id r := r]> (pending_messages p)) (interface_messages_queue p) p
  | DnInterface m => set_messages (pending_messages p) (interface_messages_queue p ++ [Interface m]) p
  | DnProcessDestroyed m => set_messages (pending_messages p) (interface_messages_queue p ++ [ProcessDestroyed m]) p
  end.

(** A response comes once. *)
Definition fresh (p : Program) (n : Note) : Prop :=
  match n with NoteResponse id _ => pending_messages p !! id = None | _ => True end.

Lemma note_id_pos n : note_ok n → note_id n ≠ 0.
Proof. destruct n; simpl; [intros [_ ?]; lia|done..]. Qed.

Lemma take_waker_ok i w p : message_ids p !! i = Some 0 → wakers p !! i = Some (Some w) →
  take_waker (Z.of_nat i) p = Done (tt, set_woken true (set_ids (message_ids p) (<[i := None]> (wakers p)) p)).
Proof.
  intros Hi Hw. unfold take_waker, mbind, M_bind, get, liftM, index, slab_index. rewrite Nat2Z.id, Hi. simpl.
  by rewrite Hw.
Qed.

Lemma on_notification_ok n i w p : message_ids p !! i = Some 0 → wakers p !! i = Some (Some w) → fresh p n →
  on_notification (decoded n (Z.of_nat i)) p = Done (tt, deliver n i p).
Proof.
  intros Hi Hw Hf. destruct n; unfold on_notification, deliver; cbn [decoded]; unfold mbind, M_bind;
    cbn [dr_index_in_list di_index_in_list dd_index_in_list]; rewrite (take_waker_ok _ w) by done;
    rewrite (list_insert_id _ _ _ Hi); [|done..].
  simpl in Hf. unfold get, put, liftM, debug_assert. by rewrite bool_decide_true.
Qed.

Lemma deliver_ids n i p : message_ids (deliver n i p) = <[i := 0]> (message_ids p).
Proof. by destruct n. Qed.
Lemma deliver_wakers n i p : wakers (deliver n i p) = <[i := None]> (wakers p).
Proof. by destruct n. Qed.
Lemma deliver_woken n i p : woken_up (deliver n i p) = true.
Proof. by destruct n. Qed.
Lemma deliver_kernel n i p : kernel (deliver n i p) = kernel p.
Proof. by destruct n. Qed.

Lemma prog_inv_deliver n i p : prog_inv p → is_Some (wakers p !! i) → prog_inv (deliver n i p).
Proof.
  intros [Hw Hi] Hs. split.
  - intros j id. rewrite deliver_ids, deliver_wakers. intros [(-> & <- & _)|(Hne & Hj)]%list_lookup_insert_Some; [done|].
    intros Hid. rewrite lookup_insert_ne by done. by eapply Hw.
  - intros j. rewrite deliver_ids, deliver_wakers, length_insert. destruct (decide (i = j)) as [<-|Hne]; [by intros; apply Hi|].
    rewrite lookup_insert_ne by done. apply Hi.
Qed.

(** One round of the loop: the kernel gives [n], and it is delivered. *)
Definition given_to (n : Note) (k : Kernel) (p : Program) : Program :=
  deliver n (entry (message_ids p) n) (set_kernel k p).

Lemma round_ok n k p (block : bool) :
  prog_inv p → note_ok n → matches (message_ids p) n → fresh p n →
  next_notification (message_ids p) block (kernel p) =
    Done ((Some (decoded n (Z.of_nat (entry (message_ids p) n))), <[entry (message_ids p) n := 0]> (message_ids p)), k) →
  ∀ fuel, notifications_loop (S fuel) block p = notifications_loop fuel false (given_to n k p).
Proof.
  intros [Hinv _] Hn Hm Hf Hk fuel. cbn [notifications_loop]. unfold mbind at 1, M_bind at 1, poll_kernel, mbind at 1, M_bind at 1.
  unfold get, zoom, mbind, M_bind. rewrite Hk. unfold modify. cbn [outcome_bind fst snd mret M_ret].
  destruct (entry_ok _ _ Hm) as [_ He]. destruct (Hinv _ _ He) as [w Hw]; [by apply note_id_pos|].
  erewrite on_notification_ok; [|simpl; apply list_lookup_insert_eq; by eapply lookup_lt_Some|done|by destruct n].
  unfold given_to. cbn beta iota.
  match goal with |- _ _ _ ?x = _ _ _ ?y => replace x with y; [done|] end.
  by destruct n; unfold deliver; simpl; rewrite list_insert_insert_eq.
Qed.

(** * The loop over the notifications *)

Definition response_id (n : Note) : option MessageId := match n with NoteResponse id _ => Some id | _ => None end.

(** The kernel holds notifications that it may hold: they are well formed, and
    no response comes twice. *)
Record notes_ok (p : Program) (l : list Note) : Prop := {
  notes_wf : Forall note_ok l;
  notes_distinct : NoDup (omap response_id l);
  notes_fresh : Forall (fresh p) l;
}.

Definition deliver_all (ds : list (Note * nat)) (p : Program) : Program :=
  foldl (λ p d, deliver d.1 d.2 p) p ds.

#[global] Instance fresh_perm p : Proper ((≡ₚ) ==> iff) (notes_ok p).
Proof. intros l l' Hl. split; intros [Hw Hd Hf]; (rewrite Hl in Hw, Hd, Hf || rewrite <- Hl in Hw, Hd, Hf); by split. Qed.

Lemma notes_ok_app p l1 l2 : notes_ok p (l1 ++ l2) → notes_ok p l1.
Proof.
  intros [[? ?]%Forall_app Hd [? ?]%Forall_app]. rewrite omap_app in Hd. apply NoDup_app in Hd as (? & _). by split.
Qed.

Lemma notes_ok_deliver p n i l : notes_ok p (n :: l) → notes_ok (deliver n i p) l.
Proof.
  intros [[Hn Hl]%Forall_cons Hd [Hf Hfl]%Forall_cons]. split; [done| |].
  - simpl in Hd. destruct (response_id n); [by apply NoDup_cons in Hd as [_ ?]|done].
  - apply Forall_forall. intros n' Hin. pose proof (proj1 (Forall_forall _ _) Hfl n' Hin) as Hf'.
    destruct n' as [id' data'| |]; [|done..]. simpl in *. destruct n as [id data| |]; simpl in *; [|done..].
    apply NoDup_cons in Hd as [Hni _]. rewrite lookup_insert_ne; [done|]. intros ->. apply Hni.
    apply list_elem_of_omap. by exists (NoteResponse id' data').
Qed.

Lemma set_kernel_deliver k n i p : deliver n i (set_kernel k p) = set_kernel k (deliver n i p).
Proof. by destruct n. Qed.

Lemma set_kernel_id p : set_kernel (kernel p) p = p.
Proof. by destruct p. Qed.

Lemma deliver_all_set_kernel k ds p : deliver_all ds (set_kernel k p) = set_kernel k (deliver_all ds p).
Proof. revert p. induction ds as [|[n i] ds IH]; intros p; simpl; [done|]. by rewrite set_kernel_deliver, IH. Qed.

(** The first notification of a list that matches. *)
Lemma split_first to_poll (l : list Note) : Exists (matches to_poll) l →
  ∃ l1 n l2, l = l1 ++ n :: l2 ∧ Forall (λ n, ¬ matches to_poll n) l1 ∧ matches to_poll n.
Proof.
  induction l as [|x l IH]; [by intros ?%Exists_nil|]. intros Hex. destruct (decide (matches to_poll x)) as [Hm|Hm].
  - by exists [], x, l.
  - destruct IH as (l1 & n & l2 & -> & Hl1 & Hn); [by apply Exists_cons in Hex as [?|?]|].
    exists (x :: l1), n, l2. split; [done|]. split; [by constructor|done].
Qed.

(** What the loop does: it delivers notifications [ds], and leaves those
    that do not match, in their order. *)
Record handled (p : Program) (l : list Note) (ds : list (Note * nat)) (rest : list Note) (p' : Program) : Prop := {
  handled_state : ∃ k, p' = set_kernel k (deliver_all ds p);
  handled_conserved : l ≡ₚ ds.*1 ++ rest;
  handled_entries : Forall (λ d, message_ids p !! d.2 = Some (note_id d.1)) ds;
  handled_order : rest `sublist_of` l;
  handled_inv : prog_inv p';
  handled_notes : notes_ok p' rest;
  handled_length : length (message_ids p') = length (message_ids p);
  handled_wakers : dom (wakers p') = dom (wakers p);
}.

Lemma handled_round p n k l1 l2 ds rest p' : prog_inv p → note_ok n → matches (message_ids p) n →
  Forall note_ok (l1 ++ l2) → handled (given_to n k p) (l1 ++ l2) ds rest p' →
  handled p (l1 ++ n :: l2) ((n, entry (message_ids p) n) :: ds) rest p'.
Proof.
  intros Hinv Hn Hm Hwf [[k' ->] Hc He' Ho Hi Hok Hl Hw]. destruct (entry_ok _ _ Hm) as [_ He].
  destruct (inv_waker _ Hinv _ _ He) as [w Hs]; [by apply note_id_pos|]. split; [| | | |done|done| |].
  - exists k'. unfold given_to. rewrite set_kernel_deliver, deliver_all_set_kernel. done.
  - simpl. rewrite <- Hc. by rewrite <- Permutation_middle.
  - constructor; [done|]. rewrite Hc in Hwf. apply Forall_app in Hwf as [Hwf _]. rewrite Forall_fmap in Hwf.
    eapply Forall_impl; [exact (proj2 (Forall_and _ _) (conj He' Hwf))|]. intros [n' i] [Hi' Hn']. simpl in *.
    unfold given_to in Hi'. rewrite deliver_ids in Hi'. apply list_lookup_insert_Some in Hi' as [(_ & Hz & _)|[_ ?]]; [|done].
    by apply note_id_pos in Hn'.
  - trans (l1 ++ l2); [done|]. apply sublist_app; [done|]. by apply sublist_cons.
  - rewrite Hl. unfold given_to. rewrite deliver_ids. apply length_insert.
  - rewrite Hw. unfold given_to. rewrite deliver_wakers. simpl. rewrite dom_insert_L.
    apply elem_of_dom_2 in Hs. set_solver.
Qed.

Lemma given_to_inv p n k : prog_inv p → note_ok n → matches (message_ids p) n → prog_inv (given_to n k p).
Proof.
  intros Hinv Hn Hm. destruct (entry_ok _ _ Hm) as [_ He]. destruct (inv_waker _ Hinv _ _ He) as [w Hs]; [by apply note_id_pos|].
  apply prog_inv_deliver; [by destruct Hinv; split|by exists (Some w)].
Qed.

Lemma given_to_notes p n k l1 l2 : notes_ok p (l1 ++ n :: l2) → notes_ok (given_to n k p) (l1 ++ l2).
Proof.
  rewrite <- Permutation_middle. intros [? ? ?]. apply notes_ok_deliver. split; [done..|].
  eapply Forall_impl; [done|]. by intros [].
Qed.

Lemma given_to_poll p n k : poll_ok (message_ids p) → poll_ok (message_ids (given_to n k p)).
Proof. unfold poll_ok, given_to. rewrite deliver_ids, length_insert. done. Qed.

(** Without blocking, every notification that is queued and matches is
    delivered. *)
Lemma notifications_queued m q a p : (length q ≤ m)%nat → prog_inv p → poll_ok (message_ids p) →
  notes_ok p q → holds p q a →
  ∃ ds rest p', notifications_loop (S m) false p = Done (false, p') ∧ handled p q ds rest p' ∧
    holds p' rest a ∧ Forall (λ n, ¬ matches (message_ids p') n) rest.
Proof.
  revert q p. induction m as [|m IH]; intros q p Hlen Hinv Hp Hok Hk.
  all: destruct (decide (Exists (matches (message_ids p)) q)) as [Hex|Hno].
  1: destruct q; [by apply Exists_nil in Hex|simpl in Hlen; lia].
  2: { apply split_first in Hex as (l1 & n & l2 & -> & Hl1 & Hm).
       assert (note_ok n) by (destruct Hok as [Hwf _ _]; by apply Forall_app in Hwf as [_ [? _]%Forall_cons]).
       set (k := {| queue := notes_of (l1 ++ l2); arrivals := notes_of a |}).
       erewrite (round_ok n k); [|done..| |].
       2: by destruct Hok as [_ _ Hf]; apply Forall_app in Hf as [_ [? _]%Forall_cons].
       2: by rewrite Hk; apply next_notification_queued; [done|destruct Hok|..].
       destruct (IH (l1 ++ l2) (given_to n k p)) as (ds & rest & p' & Hr & Hh & Hk' & Hno).
       - rewrite length_app in *. simpl in Hlen. lia.
       - by apply given_to_inv.
       - by apply given_to_poll.
       - by apply given_to_notes.
       - unfold holds, given_to. by rewrite deliver_kernel.
       - exists ((n, entry (message_ids p) n) :: ds), rest, p'. split; [done|]. split; [|done].
         eapply handled_round; [done..| |done]. by destruct (given_to_notes _ _ k _ _ Hok). }
  all: apply not_Exists_Forall in Hno; [|apply _].
  all: exists [], q, p; split; [|split; [|done]].
  1,3: cbn [notifications_loop]; unfold mbind, M_bind, poll_kernel, mbind, M_bind, get, zoom; rewrite Hk;
    rewrite next_notification_none by (done || by destruct Hok); unfold modify; simpl; f_equal; f_equal;
    unfold holds in Hk; destruct p; simpl in *; by subst.
  all: split; [exists (kernel p); simpl; by rewrite set_kernel_id|done..].
Qed.

(** Blocking, the loop returns when one of the notifications that are queued or
    come later matches; it waits no longer than that. *)
Lemma notifications_wait m q a p : (length (q ++ a) ≤ m)%nat → prog_inv p → poll_ok (message_ids p) →
  notes_ok p (q ++ a) → holds p q a → Exists (matches (message_ids p)) (q ++ a) →
  ∃ l a' ds rest p', notifications_loop (S (S m)) true p = Done (false, p') ∧ q ++ a = l ++ a' ∧
    handled p l ds rest p' ∧ ds ≠ [] ∧ holds p' rest a' ∧ Forall (λ n, ¬ matches (message_ids p') n) rest.
Proof.
  intros Hlen Hinv Hp Hok Hk Hex. apply split_first in Hex as (l1 & n & l2 & Heq & Hl1 & Hm).
  destruct (next_notification_wait (message_ids p) q a l1 n l2) as (q2 & a' & <- & Hn); [done|by destruct Hok|done..|].
  rewrite Heq in Hok, Hlen. assert (Hnok : note_ok n) by (destruct Hok as [Hwf _ _]; by apply Forall_app in Hwf as [_ [? _]%Forall_cons]).
  rewrite app_comm_cons, app_assoc in Hok, Heq. apply notes_ok_app in Hok.
  set (k := {| queue := notes_of (l1 ++ q2); arrivals := notes_of a' |}).
  erewrite (round_ok n k); [|done..| |by rewrite Hk].
  2: by destruct Hok as [_ _ Hf]; apply Forall_app in Hf as [_ [? _]%Forall_cons].
  destruct (notifications_queued m (l1 ++ q2) a' (given_to n k p)) as (ds & rest & p' & Hr & Hh & Hk' & Hno).
  - rewrite !length_app in *. simpl in *. rewrite length_app in Hlen. lia.
  - by apply given_to_inv.
  - by apply given_to_poll.
  - by apply given_to_notes.
  - unfold holds, given_to. by rewrite deliver_kernel.
  - exists (l1 ++ n :: q2), a', ((n, entry (message_ids p) n) :: ds), rest, p'. split; [done|]. split; [done|].
    split; [|done]. eapply handled_round; [done..| |done]. by destruct (given_to_notes _ _ k _ _ Hok).
Qed.

(** * What the program receives *)

Definition interface_of (d : Note * nat) : option DecodedInterfaceOrDestroyed :=
  match decoded d.1 (Z.of_nat d.2) with
  | DnResponse _ => None
  | DnInterface m => Some (Interface m)
  | DnProcessDestroyed m => Some (ProcessDestroyed m)
  end.

Lemma deliver_all_queue ds p :
  interface_messages_queue (deliver_all ds p) = interface_messages_queue p ++ omap interface_of ds.
Proof.
  revert p. induction ds as [|[n i] ds IH]; intros p; [by rewrite app_nil_r|].
  cbn [deliver_all foldl]. change (foldl _ ?x ds) with (deliver_all ds x). rewrite IH.
  destruct n; simpl; rewrite <- ?app_assoc; done.
Qed.

Lemma deliver_all_other ds p id : id ∉ omap response_id ds.*1 →
  pending_messages (deliver_all ds p) !! id = pending_messages p !! id.
Proof.
  revert p. induction ds as [|[n i] ds IH]; intros p Hni; [done|].
  cbn [deliver_all foldl]. change (foldl _ ?x ds) with (deliver_all ds x).
  destruct n; simpl in *; rewrite ?not_elem_of_cons in Hni; rewrite IH by tauto; simpl; [|done..].
  by rewrite lookup_insert_ne by (intros ->; tauto).
Qed.

Lemma deliver_all_pending ds p id data i : NoDup (omap response_id ds.*1) → (NoteResponse id data, i) ∈ ds →
  pending_messages (deliver_all ds p) !! id =
    Some {| dr_message_id := id; dr_index_in_list := Z.of_nat i; dr_actual_data := data |}.
Proof.
  revert p. induction ds as [|[n j] ds IH]; intros p Hd Hin; [by apply not_elem_of_nil in Hin|].
  cbn [deliver_all foldl]. change (foldl _ ?x ds) with (deliver_all ds x).
  apply elem_of_cons in Hin as [[= <- <-]|Hin].
  - simpl in Hd. apply NoDup_cons in Hd as [Hni _]. rewrite deliver_all_other by done. simpl. by rewrite lookup_insert_eq.
  - apply IH; [|done]. simpl in Hd. destruct (response_id n); [by apply NoDup_cons in Hd as [_ ?]|done].
Qed.

Lemma deliver_all_woken ds p : ds ≠ [] → woken_up (deliver_all ds p) = true.
Proof.
  destruct ds as [|d ds _] using rev_ind; [done|]. intros _. unfold deliver_all. rewrite foldl_app. simpl. apply deliver_woken.
Qed.

Lemma handled_distinct p l ds rest p' : notes_ok p l → handled p l ds rest p' → NoDup (omap response_id ds.*1).
Proof.
  intros [_ Hd _] Hh. rewrite (handled_conserved _ _ _ _ _ Hh), omap_app in Hd. by apply NoDup_app in Hd as (? & _).
Qed.

(** The loop of [block_on] over the notifications, when one of those that
    are queued or still come answers an entry of [message_ids]: it does not
    panic and returns, having waited no longer than the first that matches, and
    what it took from the kernel is in the mailboxes of the program, each
    response under its identifier and the interface messages in their order;
    the waker of [block_on] was called; the other notifications stay with the
    kernel, in their order, and none of those that are queued answers an
    entry that is left. *)
Theorem notifications_ok fuel q a p : (length (q ++ a) + 2 ≤ fuel)%nat → prog_inv p → poll_ok (message_ids p) →
  notes_ok p (q ++ a) → holds p q a → Exists (matches (message_ids p)) (q ++ a) →
  ∃ l a' ds rest p', notifications_loop fuel true p = Done (false, p') ∧ q ++ a = l ++ a' ∧
    l ≡ₚ ds.*1 ++ rest ∧ rest `sublist_of` l ∧ holds p' rest a' ∧ prog_inv p' ∧ woken_up p' = true ∧
    Forall (λ n, ¬ matches (message_ids p') n) rest ∧
    Forall (λ d, message_ids p !! d.2 = Some (note_id d.1)) ds ∧
    interface_messages_queue p' = interface_messages_queue p ++ omap interface_of ds ∧
    ∀ id data i, (NoteResponse id data, i) ∈ ds → pending_messages p' !! id =
      Some {| dr_message_id := id; dr_index_in_list := Z.of_nat i; dr_actual_data := data |}.
Proof.
  intros Hf Hinv Hp Hok Hk Hex. destruct fuel as [|[|m]]; [lia..|].
  destruct (notifications_wait m q a p) as (l & a' & ds & rest & p' & Hr & Heq & Hh & Hne & Hk' & Hno); [lia|done..|].
  rewrite Heq in Hok. apply notes_ok_app in Hok. pose proof (handled_distinct _ _ _ _ _ Hok Hh) as Hd.
  exists l, a', ds, rest, p'. destruct Hh as [[k ->] Hc He Ho Hi _ _ _]. split_and!; try done; simpl.
  - by apply deliver_all_woken.
  - apply deliver_all_queue.
  - intros id data i Hin. by apply deliver_all_pending.
Qed.

(** * Waiting for a response *)

Section response.
Context `{SlabKeys} {T : Type} (decode : EncodedMessage → option T).

(** Nothing is registered. *)
Definition idle (p : Program) : Prop := message_ids p = [] ∧ wakers p = ∅.

(** The state while the only future that is polled waits for [id]. *)
Definition waiting (id : MessageId) (p : Program) : Program :=
  set_woken false (set_ids [id] {[0%nat := Some 0%nat]} (set_inserts (S (inserts p)) p)).

Definition waiting_future (id : MessageId) : ResponseFuture :=
  {| rf_msg_id := id; rf_finished := false; rf_registration := Some 0%nat |}.

Lemma first_poll id p : idle p → vacant_key (inserts p) ∅ = 0%nat → pending_messages p !! id = None →
  response_poll decode 0 (message_response id) (set_woken false p) = Done ((None, waiting_future id), waiting id p).
Proof.
  intros [Hids Hw] Hv Hno. unfold response_poll, liftM, mbind, M_bind, peek_response, mbind, M_bind, get, put.
  cbn [message_response rf_finished rf_msg_id rf_registration negb assert_]. cbn [pending_messages set_woken mret M_ret]. rewrite Hno.
  unfold register_or_update, mbind, M_bind, register_message_waker, mbind, M_bind, get, put, liftM.
  cbn [wakers inserts message_ids set_messages set_woken]. rewrite Hids, Hw, Hv. simpl. rewrite delete_id by done. done.
Qed.

Lemma waiting_prog_inv id p : prog_inv (waiting id p).
Proof.
  split; simpl.
  - intros [|i] x; [|done]. intros [= ->] _. eexists. apply lookup_singleton_eq.
  - intros i [w Hi]. apply lookup_singleton_Some in Hi as [<- _]. lia.
Qed.

Lemma response_matches id n : 1 < id → matches [id] n → ∃ data, n = NoteResponse id data.
Proof.
  intros Hid Hm. unfold matches in Hm. apply list_elem_of_singleton in Hm. destruct n; simpl in Hm; [|lia..].
  subst. by eexists.
Qed.

Lemma response_unique (l : list Note) id d1 d2 : NoDup (omap response_id l) →
  NoteResponse id d1 ∈ l → NoteResponse id d2 ∈ l → d1 = d2.
Proof.
  induction l as [|n l IH]; intros Hd H1 H2; [by apply not_elem_of_nil in H1|].
  apply elem_of_cons in H1, H2. destruct H1 as [<-|H1], H2 as [E|H2].
  - by injection E.
  - simpl in Hd. apply NoDup_cons in Hd as [[] _]. apply list_elem_of_omap. by exists (NoteResponse id d2).
  - subst n. simpl in Hd. apply NoDup_cons in Hd as [[] _]. apply list_elem_of_omap. by exists (NoteResponse id d1).
  - apply IH; [|done..]. simpl in Hd. destruct (response_id n); [by apply NoDup_cons in Hd as [_ ?]|done].
Qed.

(** Only the response is taken. *)
Lemma one_response id ds : 1 < id → NoDup (omap response_id ds.*1) → ds ≠ [] →
  Forall (λ d, [id] !! d.2 = Some (note_id d.1)) ds → ∃ data, ds = [(NoteResponse id data, 0%nat)].
Proof.
  intros Hid Hd Hne He.
  assert (∀ d, d ∈ ds → ∃ data, d = (NoteResponse id data, 0%nat)) as Hall.
  { intros [n i] Hin. pose proof (proj1 (Forall_forall _ _) He _ Hin) as Hi. simpl in Hi. destruct i; [|done].
    injection Hi as Hi. destruct n; simpl in Hi; [|lia..]. subst. by eexists. }
  destruct ds as [|d1 [|d2 ds]]; [done| |].
  - destruct (Hall d1) as [data ->]; [by left|]. by exists data.
  - destruct (Hall d1) as [x1 ->]; [by left|]. destruct (Hall d2) as [x2 ->]; [right; by left|].
    simpl in Hd. apply NoDup_cons in Hd as [Hni _]. destruct Hni. by left.
Qed.

Lemma last_poll id data v i p f : pending_messages p !! id = Some {| dr_message_id := id; dr_index_in_list := i; dr_actual_data := inr data |} →
  decode data = Some v → rf_finished f = false → rf_msg_id f = id →
  response_poll decode 0 f p =
    Done ((Some v, {| rf_msg_id := id; rf_finished := true; rf_registration := rf_registration f |}),
          set_messages (delete id (pending_messages p)) (interface_messages_queue p) p).
Proof.
  intros Hp Hv Hf Hid. unfold response_poll, liftM, mbind, M_bind, peek_response, mbind, M_bind, get, put.
  rewrite Hf, Hid. cbn [negb assert_ mret M_ret]. rewrite Hp. cbn [dr_actual_data]. by rewrite Hv.
Qed.

Lemma drop_only p f w : wakers p = {[0%nat := w]} → message_ids p = [0] → rf_registration f = Some 0%nat →
  response_drop f p = Done (tt, set_ids [] ∅ p).
Proof.
  intros Hw Hi Hf. unfold response_drop. rewrite Hf. unfold drop_registration, registration_drop, mbind, M_bind, get, put, liftM.
  rewrite Hi, Hw. unfold slab_index. rewrite lookup_singleton_eq. simpl. by rewrite delete_singleton_eq.
Qed.

Lemma asleep id p fuel :
  idle p → vacant_key (inserts p) ∅ = 0%nat → pending_messages p !! id = None →
  poll_while_woken (response_poll decode 0) (S fuel) (message_response id) (set_woken false p) =
    Done ((None, waiting_future id), waiting id p).
Proof. intros. cbn [poll_while_woken]. unfold mbind, M_bind. by rewrite first_poll. Qed.

(** C25: [block_on] of the future of a response, in a program that waits for
    nothing else: if the response is among the notifications that are queued or
    still come and its data decodes, [block_on] returns the value, whatever the
    other notifications are; these stay with the kernel, in their order, the
    mailboxes are as they were, and nothing is registered any more.  The first
    key of a slab that is empty is 0. *)
Theorem block_on_response_ok fuel id data v q a p :
  (length (q ++ a) + 2 ≤ fuel)%nat → idle p → vacant_key (inserts p) ∅ = 0%nat →
  notes_ok p (q ++ a) → holds p q a → NoteResponse id (inr data) ∈ q ++ a → decode data = Some v →
  ∃ q' a' p', block_on (response_poll decode 0) response_drop fuel (message_response id) p = Done (v, p') ∧
    q ++ a ≡ₚ NoteResponse id (inr data) :: q' ++ a' ∧ (q' ++ a') `sublist_of` (q ++ a) ∧ holds p' q' a' ∧
    idle p' ∧ pending_messages p' = pending_messages p ∧
    interface_messages_queue p' = interface_messages_queue p ∧ cancelled p' = cancelled p.
Proof.
  intros Hfuel Hidle Hv Hok Hk Hin Hdec.
  assert (1 < id) as Hid by (destruct Hok as [Hwf _ _]; by pose proof (proj1 (Forall_forall _ _) Hwf _ Hin) as [_ ?]).
  assert (pending_messages p !! id = None) as Hno by (destruct Hok as [_ _ Hf]; by apply (proj1 (Forall_forall _ _) Hf _ Hin)).
  destruct (notifications_wait (fuel - 2) q a (waiting id p)) as (l & a' & ds & rest & p' & Hr & Heq & Hh & Hne & Hk' & _);
    [lia|apply waiting_prog_inv|done|by destruct Hok; split|done| |].
  { apply list.Exists_exists. exists (NoteResponse id (inr data)). split; [done|]. unfold matches. simpl. by left. }
  rewrite Heq in *. pose proof (notes_ok_app _ _ _ Hok) as Hokl.
  assert (Hd : NoDup (omap response_id ds.*1)) by (eapply handled_distinct; [|done]; by destruct Hokl; split).
  destruct (one_response id ds) as [data' ->]; [done..|by destruct Hh|].
  destruct Hh as [[k ->] Hc _ Ho _ _ _ _]. simpl in Hc. 
  assert (data' = inr data) as ->.
  { apply (response_unique (l ++ a') id); [by destruct Hok| |done]. rewrite Hc. by left. }
  replace (S (S (fuel - 2))) with fuel in Hr by lia. destruct fuel as [|[|fuel]]; [lia..|].
  eexists rest, a', _. split_and!.
  - unfold block_on, mbind, M_bind, modify. cbn [block_on_loop]. unfold mbind, M_bind. rewrite asleep by done.
    cbn [fst snd get]. unfold get, liftM. rewrite bool_decide_true by (simpl; by rewrite map_size_singleton). cbn [debug_assert].
    rewrite Hr. cbn [negb debug_assert poll_while_woken]. unfold mbind, M_bind.
    erewrite last_poll; [|simpl; apply lookup_insert_eq|done|done|done]. unfold mret, M_ret; cbn [fst snd].
    erewrite drop_only; [|simpl; apply insert_singleton_eq|done|done]. done.
  - by rewrite Hc.
  - by apply sublist_app.
  - done.
  - done.
  - simpl. apply delete_insert_id. done.
  - done.
  - done.
Qed.

End response.

(** * What goes wrong *)

Section faults.
Context `{SlabKeys} {T : Type} (decode : EncodedMessage → option T).

Lemma register_end id w p : vacant_key (inserts p) (wakers p) = length (message_ids p) →
  register_message_waker id w p =
    Done (length (message_ids p), set_ids (message_ids p ++ [id]) (<[length (message_ids p) := Some w]> (wakers p))
                                    (set_inserts (S (inserts p)) p)).
Proof.
  intros Hv. unfold register_message_waker, mbind, M_bind, get, put, liftM. rewrite Hv. rewrite bool_decide_true by done.
  unfold resize_zero. rewrite take_ge by lia. replace (S (length (message_ids p)) - length (message_ids p))%nat with 1%nat by lia.
  unfold index. rewrite lookup_app_r, Nat.sub_diag by lia. cbn [replicate lookup list_lookup]. rewrite bool_decide_true by done.
  cbn [debug_assert]. by rewrite insert_app_r_alt, Nat.sub_diag by lia.
Qed.

(** Two futures wait, and the first is dropped: the entry of the second keeps
    [message_ids] longer than [wakers] has elements. *)
Definition drop_first_of_two (id1 id2 : MessageId) : M Program nat :=
  r1 ← register_message_waker id1 0;
  r2 ← register_message_waker id2 0;
  _ ← registration_drop r1;
  mret r2.

(** C27: [block_on] asserts that [message_ids] and [wakers] have the same
    length, which the documentation of [BlockOnState::wakers] also says; it
    does not hold after two futures waited and the first was dropped:
    [block_on] then panics instead of waiting for the second, in a build with
    debug assertions. *)
Theorem dropped_future_panics id1 id2 p fuel :
  idle p → vacant_key (inserts p) ∅ = 0%nat →
  vacant_key (S (inserts p)) {[0%nat := Some 0%nat]} = 1%nat → pending_messages p !! id2 = None →
  ∃ p', drop_first_of_two id1 id2 p = Done (1%nat, p') ∧
    block_on (response_poll decode 0) response_drop (S (S fuel))
      {| rf_msg_id := id2; rf_finished := false; rf_registration := Some 1%nat |} p' = Panic PDebugAssert.
Proof.
  intros [Hids Hw] H0 H1 Hno.
  unfold drop_first_of_two, mbind, M_bind. rewrite register_end; [|by rewrite Hids, Hw].
  rewrite Hids, Hw, insert_empty. rewrite register_end by done. cbn [message_ids set_ids app length].
  unfold registration_drop, mbind, M_bind, get, put, liftM, slab_index. cbn [message_ids set_ids wakers index lookup list_lookup].
  rewrite lookup_insert_ne, lookup_singleton_eq by done. cbn [insert list_insert].
  rewrite delete_insert_ne, delete_singleton_eq, insert_empty by done.
  rewrite bool_decide_false by apply map_non_empty_singleton. eexists. split; [done|].
  unfold block_on, mbind, M_bind, modify. cbn [block_on_loop poll_while_woken].
  unfold response_poll, peek_response, register_or_update, registration_update, mbind, M_bind, get, put, liftM.
  cbn -[lookup delete insert]. rewrite Hno. cbn -[lookup delete insert]. unfold slab_index. rewrite lookup_singleton_eq.
  cbn -[lookup delete insert size]. rewrite insert_singleton_eq, map_size_singleton. done.
Qed.

(** The kernel answers [Err] when the handler refuses or is gone: the future
    of the response panics. *)
Lemma error_response_panics id i p f : rf_finished f = false → rf_msg_id f = id →
  pending_messages p !! id = Some {| dr_message_id := id; dr_index_in_list := i; dr_actual_data := inl tt |} →
  response_poll decode 0 f p = Panic PUnwrap.
Proof.
  intros Hf Hid Hp. unfold response_poll, liftM, mbind, M_bind, peek_response, mbind, M_bind, get, put.
  rewrite Hf, Hid. cbn [negb assert_ mret M_ret]. by rewrite Hp.
Qed.

(** The entry of a registration that was answered stays zero: an interface
    future whose message was taken by another one waits for nothing. *)
Lemma interface_future_stalls i w p : interface_messages_queue p = [] → wakers p !! i = Some w → message_ids p !! i = Some 0 →
  ∃ p', interface_poll 0 {| if_finished := false; if_registration := Some i |} p =
    Done ((None, {| if_finished := false; if_registration := Some i |}), p') ∧ message_ids p' = message_ids p.
Proof.
  intros Hq Hw Hi. unfold interface_poll, peek_interface_message, register_or_update, registration_update, slab_index,
    mbind, M_bind, get, put, liftM. cbn [if_finished negb assert_ if_registration]. rewrite Hq. unfold mret, M_ret. rewrite Hw. by eexists.
Qed.

End faults.

(** * Cancellation *)

Section cancellation.
Context `{SlabKeys} {T : Type} (decode : EncodedMessage → option T).

Definition dropped (i : nat) (p : Program) : Program :=
  let w := delete i (wakers p) in
  set_ids (if bool_decide (w = ∅) then [] else <[i := 0]> (message_ids p)) w p.

Lemma registration_drop_ok i p : prog_inv p → is_Some (wakers p !! i) →
  registration_drop i p = Done (tt, dropped i p) ∧ prog_inv (dropped i p).
Proof.
  intros [Hw Hi] [w Hs]. split.
  - unfold registration_drop, mbind, M_bind, get, put, liftM, slab_index. rewrite Hs.
    destruct (index_total (message_ids p) i) as (x & -> & _); [by apply Hi|]. done.
  - unfold dropped. split; simpl; intros j; (case_bool_decide as He; [rewrite ?He|]).
    + done.
    + intros id [(-> & <- & _)|(Hne & Hj)]%list_lookup_insert_Some; [done|]. rewrite lookup_delete_ne by done. by apply Hw.
    + by intros [? ?].
    + rewrite length_insert. intros [x [_ Hx]%lookup_delete_Some]. apply Hi. by exists x.
Qed.

Lemma prog_inv_ext p p' : message_ids p' = message_ids p → wakers p' = wakers p → prog_inv p → prog_inv p'.
Proof. intros Hm Hw [H1 H2]. split; rewrite Hm, Hw; done. Qed.

(** The future of [emit_message_with_response]: dropped before its
    response was received, it cancels the message and its registration;
    polled once the response is there, it gives it, and dropping it then
    cancels nothing. *)
Theorem emit_cancels id i p data v ix : prog_inv p → is_Some (wakers p !! i) →
  let f := {| ef_inner := Some {| rf_msg_id := id; rf_finished := false; rf_registration := Some i |}; ef_msg_id := id |} in
  (∃ p', emit_drop f p = Done (tt, p') ∧ cancelled p' = cancelled p ++ [id] ∧ wakers p' = delete i (wakers p) ∧ prog_inv p') ∧
  (pending_messages p !! id = Some {| dr_message_id := id; dr_index_in_list := ix; dr_actual_data := inr data |} →
   decode data = Some v →
   ∃ f' p', emit_poll decode 0 f p = Done ((Some v, f'), p') ∧ cancelled p' = cancelled p ∧
     wakers p' = delete i (wakers p) ∧ prog_inv p' ∧ emit_drop f' p' = Done (tt, p')).
Proof.
  intros Hinv Hs f. split.
  - unfold emit_drop, cancel_message, mbind, M_bind, modify. cbn [ef_inner f drop_registration rf_registration ef_msg_id].
    edestruct registration_drop_ok as [-> Hd]; [by eapply prog_inv_ext, Hinv|done|]. by eexists.
  - intros Hp Hv. unfold emit_poll, mbind, M_bind, liftM. cbn [ef_inner f unwrap].
    erewrite last_poll by done. cbn [fst snd rf_registration drop_registration].
    edestruct registration_drop_ok as [-> Hd]; [by eapply prog_inv_ext, Hinv|done|]. by eexists _, _.
Qed.

End cancellation.

(** * Emitting a message *)

Section emit.
Context (read : Z → Z → outcome (option bytes)).

(** The memory has an array of [u32]s. *)
Fixpoint words_hold (addr : Z) (ws : list Z) : Prop :=
  match ws with
  | [] => True
  | w :: ws => mem_holds read addr (u32_to_le_bytes w) ∧ words_hold (addr + 4) ws
  end.

(** [MessageBuilder::new()], [with_no_delay], then [add_data_raw] of each
    buffer. *)
Definition build_message (no_delay : bool) (bufs : list (Z * bytes)) : outcome MessageBuilder :=
  foldl (λ b '(p, bs), b ← b; add_data_raw p (Z.of_nat (length bs)) b)
    (Done (if no_delay then with_no_delay MessageBuilder_new else MessageBuilder_new)) bufs.

Definition pairs (bufs : list (Z * bytes)) : list Z := bufs ≫= λ '(p, bs), [p; Z.of_nat (length bs)].

Lemma add_all_ok bufs b : Forall (λ '(p, bs), is_u32 p ∧ is_u32 (Z.of_nat (length bs))) bufs →
  foldl (λ b '(p, bs), b ← b; add_data_raw p (Z.of_nat (length bs)) b) (Done b) bufs =
    Done {| mb_allow_delay := mb_allow_delay b; mb_array := mb_array b ++ pairs bufs |}.
Proof.
  intros Hb. revert b. induction Hb as [|[p bs] bufs [Hp Hl] _ IH]; intros b.
  - unfold pairs. simpl. rewrite app_nil_r. by destruct b.
  - cbn [foldl]. change (mbind ?f (Done ?x)) with (f x). cbv beta. unfold add_data_raw.
    rewrite (proj2 (uint_try_from_Some u32_max p p)), (proj2 (uint_try_from_Some u32_max _ (Z.of_nat (length bs))))
      by (unfold is_u32, u32_max in *; lia).
    cbn [unwrap mbind outcome_bind mret outcome_ret]. rewrite IH. simpl. by rewrite <- app_assoc.
Qed.

Lemma length_pairs bufs : length (pairs bufs) = (2 * length bufs)%nat.
Proof. induction bufs as [|[p bs] bufs IH]; [done|]. cbn [pairs mbind list_bind]. simpl. unfold pairs in IH. rewrite IH. lia. Qed.

Lemma words_bufs addr bufs : Forall (λ '(p, bs), is_u32 p ∧ mem_holds read p bs) bufs →
  words_hold addr (pairs bufs) → bufs_hold read addr bufs.
Proof.
  intros Hb. revert addr. induction Hb as [|[p bs] bufs [Hp Hm] _ IH]; intros addr; [done|].
  intros (H1 & H2 & H3). split_and!; [done..|]. apply IH. by replace (addr + 8) with (addr + 4 + 4) by lia.
Qed.

(** C26: a message that [MessageBuilder] builds out of buffers, and the kernel
    parses: building it does not panic, and from the parameters of the call the
    kernel reads the concatenation of the buffers in the order in which they
    were added, the interface, whether to wait for a handler, and the address
    of the identifier exactly when a response is wanted. *)
Theorem emit_parsed no_delay needs_answer hash_ptr hash array_ptr out_ptr bufs :
  is_ptr hash_ptr → is_ptr array_ptr → is_ptr out_ptr → is_hash hash → mem_holds read hash_ptr hash →
  Forall (λ '(p, bs), is_u32 p ∧ mem_holds read p bs) bufs → words_hold array_ptr (pairs bufs) →
  Z.of_nat (length bufs) < 2 ^ 28 → Z.of_nat (length (concat bufs.*2)) < 16 * 1024 * 1024 →
  ∃ b params, build_message no_delay bufs = Done b ∧ mb_array b = pairs bufs ∧
    emit_params hash_ptr array_ptr out_ptr needs_answer b = Done params ∧
    parse_extrinsic_emit_message read params =
      Done (inr {| em_interface := hash; message_id_write := if needs_answer then Some out_ptr else None;
                   em_message := concat bufs.*2; em_allow_delay := negb no_delay |}).
Proof.
  intros Hh Ha Ho Hhash Hmem Hb Hw Hn Hlen.
  set (b := if no_delay then with_no_delay MessageBuilder_new else MessageBuilder_new).
  exists {| mb_allow_delay := mb_allow_delay b; mb_array := pairs bufs |}.
  exists [I32 hash_ptr; I32 array_ptr; I32 (Z.of_nat (length bufs)); i32_of_bool needs_answer; i32_of_bool (negb no_delay); I32 out_ptr].
  split_and!; [|done| |].
  - unfold build_message. rewrite add_all_ok; [by destruct no_delay|].
    apply Forall_forall. intros [p bs] Hin. pose proof (proj1 (Forall_forall _ _) Hb _ Hin) as [Hp _]. split; [done|].
    assert (length bs ≤ length (concat bufs.*2))%nat as Hle; [|unfold is_u32; lia].
    apply list_elem_of_split in Hin as (l1 & l2 & ->). rewrite fmap_app, concat_app, length_app. simpl. rewrite length_app. lia.
  - unfold emit_params. cbn [mb_array mb_allow_delay]. rewrite length_pairs.
    replace (Z.of_nat (2 * length bufs) / 2) with (Z.of_nat (length bufs)) by (by rewrite Nat2Z.inj_mul, Z.mul_comm, Z.div_mul).
    rewrite (proj2 (uint_try_from_Some u32_max _ (Z.of_nat (length bufs)))) by (unfold u32_max; lia). by destruct no_delay.
  - unfold i32_of_bool. rewrite (parse_emit_message_sound read hash_ptr hash); [|done..|by apply words_bufs|done].
    by destruct needs_answer, no_delay.
Qed.

End emit.
