(* ===== verification/TcpClient.v ===== *)
(** TCP on the side of the programs ([interfaces/tcp/src/lib.rs]): the streams,
    on the system calls of [Syscalls.v].

    The [Mutex] of a listener is its contents.  A listener is the number of its
    futures and what they give, in the order in which they end
    ([FuturesUnordered]). *)
From S2P Require Import Prelude WasmValue Ffi Calls Messages Native Hardware Standalone StandaloneInv Tcp Syscalls.

(** The program, and the messages that it has emitted on the interface. *)
Record Client := {
  program : Program;
  emitted : list TcpMessage;
}.

(** What a call to [emit_message] returns and writes, by the number of the
    earlier calls. *)
Class Emission := { emission : nat → Z * Z }.

(** The codec at the answers. *)
Class ScaleTcpAnswers := {
  decode_open_response : EncodedMessage → option TcpOpenResponse;
  decode_read_response : EncodedMessage → option TcpReadResponse;
  decode_write_response : EncodedMessage → option TcpWriteResponse;
}.

Record TcpStream := {
  handle : Z;
  read_buffer : bytes;
  pending_read : option ResponseFuture;
  pending_write : option ResponseFuture;
}.

Definition with_read (b : bytes) (f : option ResponseFuture) (s : TcpStream) : TcpStream :=
  {| handle := handle s; read_buffer := b; pending_read := f; pending_write := pending_write s |}.
Definition with_write (f : option ResponseFuture) (s : TcpStream) : TcpStream :=
  {| handle := handle s; read_buffer := read_buffer s; pending_read := pending_read s; pending_write := f |}.

Section client.
Context `{SlabKeys} `{Emission} `{ScaleTcpAnswers}.

Definition on_program {A} (m : M Program A) : M Client A :=
  zoom program (λ p c, {| program := p; emitted := emitted c |}) m.

(** [emit_message] of a message of the interface. *)
Definition call_emit (msg : TcpMessage) : M Client (Z * Z) := λ c,
  Done (emission (length (emitted c)), {| program := program c; emitted := emitted c ++ [msg] |}).

(** [MessageBuilder::new().add_data(&msg).emit_with_response_raw(..).unwrap()]. *)
Definition emit_tcp (msg : TcpMessage) : M Client MessageId :=
  r ← call_emit msg;
  liftM (r ← (emit_with_response_raw (fst r) (snd r) : outcome (EmitErr + MessageId));
         match r with inr id => Done id | inl _ => Panic PUnwrap end).

(** ** Streams *)

(** What follows the end of the previous read; [again] is the next turn of the
    loop. *)
Definition read_rest (again : TcpStream → M Client (option (unit + bytes) * TcpStream)) (buf_len : nat) (s : TcpStream) :
    M Client (option (unit + bytes) * TcpStream) :=
  _ ← liftM (debug_assert (bool_decide (is_Some (pending_read s) → False)));
  if bool_decide (read_buffer s ≠ []) then
    let to_copy := Nat.min (length (read_buffer s)) buf_len in
    mret (Some (inr (take to_copy (read_buffer s))), with_read (drop to_copy (read_buffer s)) (pending_read s) s)
  else
    msg_id ← emit_tcp (Tcp_Read (handle s));
    again (with_read (read_buffer s) (Some (message_response msg_id)) s).

(** [poll_read]: [None] is [Pending], [inl] an error, and [inr] the bytes that
    were copied to the buffer. *)
Fixpoint poll_read (fuel : nat) (waker : Waker) (buf_len : nat) (s : TcpStream) :
    M Client (option (unit + bytes) * TcpStream) :=
  match fuel with
  | O => λ _, NoFuel
  | S fuel =>
      match pending_read s with
      | Some f =>
          r ← on_program (response_poll decode_read_response waker f);
          match fst r with
          | None => mret (None, with_read (read_buffer s) (Some (snd r)) s)
          | Some response =>
              match trr_result response with
              | inl _ => mret (Some (inl tt), with_read (read_buffer s) (Some (snd r)) s)
              | inr d =>
                  _ ← on_program (response_drop (snd r));
                  read_rest (poll_read fuel waker buf_len) buf_len (with_read d None s)
              end
          end
      | None => read_rest (poll_read fuel waker buf_len) buf_len s
      end
  end.

(** What follows the end of the previous write. *)
Definition write_rest (buf : bytes) (s : TcpStream) : M Client (option (unit + nat) * TcpStream) :=
  _ ← liftM (debug_assert (bool_decide (is_Some (pending_write s) → False)));
  msg_id ← emit_tcp (Tcp_Write (handle s) buf);
  mret (Some (inr (length buf)), with_write (Some (message_response msg_id)) s).

Definition poll_write (waker : Waker) (buf : bytes) (s : TcpStream) : M Client (option (unit + nat) * TcpStream) :=
  match pending_write s with
  | Some f =>
      r ← on_program (response_poll decode_write_response waker f);
      match fst r with
      | None => mret (None, with_write (Some (snd r)) s)
      | Some response =>
          match twr_result response with
          | inl _ => mret (Some (inl tt), with_write (Some (snd r)) s)
          | inr _ =>
              _ ← on_program (response_drop (snd r));
              write_rest buf (with_write None s)
          end
      end
  | None => write_rest buf s
  end.

Definition poll_flush : option (unit + unit) := Some (inr tt).
Definition poll_close : option (unit + unit) := Some (inr tt).

(** [Drop]: the message is emitted whether or not there is a handler, then the
    fields are dropped. *)
Definition stream_drop (s : TcpStream) : M Client unit :=
  _ ← call_emit (Tcp_Close (handle s));
  _ ← (match pending_read s with Some f => on_program (response_drop f) | None => mret tt end);
  match pending_write s with Some f => on_program (response_drop f) | None => mret tt end.

(** ** Opening *)

(** [to_ipv6_mapped().segments()] of an IPv4 address, which is two words. *)
Definition ipv6_mapped (high low : Z) : list Z := [0; 0; 0; 0; 0; 0xffff; high; low].

Definition open_message (socket_addr : SocketAddr) (listen : bool) : TcpOpen :=
  match socket_addr with
  | AddrV4 high low port => {| open_listen := listen; open_ip := ipv6_mapped high low; open_port := port |}
  | AddrV6 segments port => {| open_listen := listen; open_ip := segments; open_port := port |}
  end.

(** The future of [TcpStream::new]. *)
Inductive OpenFuture :=
  | OpenStart (o : TcpOpen)
  | OpenWait (f : EmitFuture)
  | OpenEnd.

Definition TcpStream_new (socket_addr : SocketAddr) (listen : bool) : OpenFuture :=
  OpenStart (open_message socket_addr listen).

Definition opened (i : TcpSocketOpen) : TcpStream * SocketAddr :=
  ({| handle := so_socket_id i; read_buffer := []; pending_read := None; pending_write := None |},
   AddrV6 (so_remote_ip i) (so_remote_port i)).

Definition open_wait (waker : Waker) (f : EmitFuture) : M Client (option (unit + TcpStream * SocketAddr) * OpenFuture) :=
  r ← on_program (emit_poll decode_open_response waker f);
  match fst r with
  | None => mret (None, OpenWait (snd r))
  | Some response =>
      match tor_result response with
      | inl _ => mret (Some (inl tt), OpenEnd)
      | inr i => mret (Some (inr (opened i)), OpenEnd)
      end
  end.

Definition open_poll (waker : Waker) (f : OpenFuture) : M Client (option (unit + TcpStream * SocketAddr) * OpenFuture) :=
  match f with
  | OpenStart o => msg_id ← emit_tcp (Tcp_Open o); open_wait waker (emit_future msg_id)
  | OpenWait f => open_wait waker f
  | OpenEnd => panic PExplicit
  end.

(** ** Listeners *)

(** [accept], on the number of futures of the listener and what they give, in
    the order in which they end; the results are the connection, the number of
    futures, and the ends that are left. *)
Fixpoint accept (futures : nat) (ends : list (unit + TcpStream * SocketAddr)) :
    outcome ((TcpStream * SocketAddr) * nat * list (unit + TcpStream * SocketAddr)) :=
  match futures with
  | O => Panic PUnreachable
  | S futures' =>
      match ends with
      | [] => NoFuel
      | inr v :: ends => Done (v, S futures', ends)
      | inl _ :: ends => accept futures' ends
      end
  end.

(** [bind]: the number of futures. *)
Definition TcpListener_bind : nat := 10%nat.

End client.
