(* ===== verification/TcpClientInv.v ===== *)
(** Theorems on TCP on the side of the programs ([TcpClient.v]): the futures
    that a stream polls, and what a program reads and writes, whatever the
    order of its polls and of the answers of the handler. *)
From S2P Require Import Prelude WasmValue Ffi Calls Messages Native Hardware Standalone StandaloneInv Tcp Syscalls SyscallsInv TcpClient.

(** * Futures side by side *)

(** What a future waits for: its answer; the answer is in the mailbox ([inl]
    when the kernel has none, because the handler is gone); or nothing, since it
    was polled to its end. *)
Inductive Mail :=
  | Waits
  | Answered (answer : unit + EncodedMessage)
  | Ended.

Definition fut_ok (p : Program) (f : ResponseFuture) (m : Mail) : Prop :=
  match m with
  | Waits => rf_finished f = false ∧ pending_messages p !! rf_msg_id f = None ∧
      ∀ i, rf_registration f = Some i → message_ids p !! i = Some (rf_msg_id f) ∧ ∃ w, wakers p !! i = Some (Some w)
  | Answered data => rf_finished f = false ∧ ∃ i ix, rf_registration f = Some i ∧ wakers p !! i = Some None ∧
      pending_messages p !! rf_msg_id f = Some {| dr_message_id := rf_msg_id f; dr_index_in_list := ix; dr_actual_data := data |}
  | Ended => rf_finished f = true ∧ ∃ i, rf_registration f = Some i ∧ wakers p !! i = Some None
  end.

Definition apart (f g : ResponseFuture) : Prop :=
  rf_msg_id f ≠ rf_msg_id g ∧ ∀ i, rf_registration f = Some i → rf_registration g ≠ Some i.

Lemma apart_sym f g : apart f g → apart g f.
Proof. intros [Hid Hr]. split; [done|]. intros i Hg Hf. by eapply Hr. Qed.

(** The waker that a future is registered with. *)
Lemma fut_waker p f a i : fut_ok p f a → rf_registration f = Some i → is_Some (wakers p !! i).
Proof.
  destruct a as [|data|]; intros [_ Ha] Hi.
  - destruct Ha as [_ Ha]. destruct (Ha i Hi) as (_ & w & ->). by eexists.
  - destruct Ha as (j & ix & Hj & Hw & _). assert (j = i) as -> by congruence. by eexists.
  - destruct Ha as (j & Hj & Hw). assert (j = i) as -> by congruence. by eexists.
Qed.

(** A future is as it was in a state where its entries are the same. *)
Lemma fut_frame p p' g a : fut_ok p g a →
  pending_messages p' !! rf_msg_id g = pending_messages p !! rf_msg_id g →
  (∀ i, rf_registration g = Some i → wakers p' !! i = wakers p !! i) →
  (∀ i x, rf_registration g = Some i → message_ids p !! i = Some x → message_ids p' !! i = Some x) →
  fut_ok p' g a.
Proof.
  destruct a as [|data|]; intros [Hf Ha] Hm Hw Hi; (split; [done|]).
  - destruct Ha as [Hmail Hreg]. rewrite Hm. split; [done|]. intros i Hr. rewrite Hw by done.
    destruct (Hreg i Hr) as [Hx Hwk]. split; [by apply Hi|done].
  - destruct Ha as (i & ix & Hr & Hwk & Hmail). exists i, ix. rewrite Hw, Hm by done. done.
  - destruct Ha as (i & Hr & Hwk). exists i. by rewrite Hw.
Qed.

Section futures.
Context `{SlabKeys} `{!SlabKeysLaws} {T : Type} (decode : EncodedMessage → option T).

(** The list of the identifiers grows by zeros. *)
Lemma resize_grows i l : (length l ≤ i)%nat → resize_zero (S i) l = l ++ replicate (S i - length l) 0.
Proof. intros. unfold resize_zero. by rewrite take_ge by lia. Qed.

Lemma register_run id w p : prog_inv p → ∃ p', register_message_waker id w p = Done (vacant_key (inserts p) (wakers p), p') ∧
  prog_inv p' ∧ message_ids p' !! vacant_key (inserts p) (wakers p) = Some id ∧
  wakers p' = <[vacant_key (inserts p) (wakers p) := Some w]> (wakers p) ∧ pending_messages p' = pending_messages p ∧
  ∀ j x, j ≠ vacant_key (inserts p) (wakers p) → message_ids p !! j = Some x → message_ids p' !! j = Some x.
Proof.
  intros [Hinv1 Hinv2]. pose proof (vacant_key_free (inserts p) (wakers p)) as Hfree. set (i := vacant_key _ _) in *.
  set (ids := if bool_decide (length (message_ids p) ≤ i)%nat then resize_zero (S i) (message_ids p) else message_ids p).
  assert (Hlen : (i < length ids)%nat).
  { unfold ids. case_bool_decide; [|lia]. rewrite resize_grows, length_app, length_replicate by done. lia. }
  assert (Hids : ∀ j x, message_ids p !! j = Some x → ids !! j = Some x).
  { intros j x Hj. unfold ids. case_bool_decide; [|done]. rewrite resize_grows by done. by apply lookup_app_l_Some. }
  assert (Hids' : ∀ j x, ids !! j = Some x → x ≠ 0 → message_ids p !! j = Some x).
  { intros j x Hj Hx. unfold ids in Hj. case_bool_decide; [|done]. rewrite resize_grows in Hj by done.
    apply lookup_app_Some in Hj as [|[_ [-> _]%lookup_replicate]]; done. }
  destruct (lookup_lt_is_Some_2 ids i Hlen) as [old Hold].
  assert (old = 0) as ->.
  { destruct (decide (old = 0)) as [|Hne]; [done|]. destruct (Hinv1 i old) as [w' Hw']; [by apply Hids'|done|congruence]. }
  eexists. split.
  { unfold register_message_waker, mbind, M_bind, get, put, liftM. fold i. fold ids. unfold index. rewrite Hold.
    rewrite bool_decide_true by done. done. }
  split; [split|].
  - simpl. intros j x [(-> & <- & _)|(Hne & Hj)]%list_lookup_insert_Some Hx; [rewrite lookup_insert_eq; by eexists|].
    rewrite lookup_insert_ne by done. apply Hinv1 with x; [by apply Hids'|done].
  - simpl. intros j Hj. rewrite length_insert. destruct (decide (j = i)) as [->|Hne]; [done|].
    rewrite lookup_insert_ne in Hj by done. apply Hinv2 in Hj. apply lookup_lt_is_Some_2 in Hj as [x Hx].
    by eapply lookup_lt_Some, Hids.
  - simpl. split_and!; [by apply list_lookup_insert_eq|done|done|]. intros j x Hj Hx. rewrite list_lookup_insert_ne by done. by apply Hids.
Qed.

Lemma mailbox_none p id : pending_messages p !! id = None →
  set_messages (delete id (pending_messages p)) (interface_messages_queue p) p = p.
Proof. intros Hn. rewrite delete_id by done. by destruct p. Qed.

(** A poll before the answer is there: the future waits, with a waker. *)
Lemma poll_waiting w f p : prog_inv p → fut_ok p f Waits → ∃ f' p',
  response_poll decode w f p = Done ((None, f'), p') ∧ prog_inv p' ∧ fut_ok p' f' Waits ∧ rf_msg_id f' = rf_msg_id f ∧
  pending_messages p' = pending_messages p ∧
  ∀ g a, apart f g → fut_ok p g a → fut_ok p' g a ∧ apart f' g.
Proof.
  intros Hinv [Hfin [Hmail Hreg]]. unfold response_poll. rewrite Hfin. erewrite bind_run by done.
  erewrite bind_run by (unfold peek_response, mbind, M_bind, get, put; by rewrite Hmail). rewrite mailbox_none by done.
  unfold register_or_update. destruct (rf_registration f) as [i|] eqn:Hi.
  - destruct (Hreg i eq_refl) as [Hid [w0 Hw0]].
    erewrite bind_run by (erewrite bind_run by (unfold registration_update, mbind, M_bind, get, put, liftM, slab_index; by rewrite Hw0); done).
    eexists _, _. split; [done|]. split_and!.
    + destruct Hinv as [H1 H2]. split; simpl; intros j.
      * intros x Hx Hne. destruct (decide (j = i)) as [->|]; [rewrite lookup_insert_eq; by eexists|]. rewrite lookup_insert_ne by done. by eapply H1.
      * destruct (decide (j = i)) as [->|]; [intros _; by eapply lookup_lt_Some|]. rewrite lookup_insert_ne by done. apply H2.
    + split; [done|]. simpl. split; [done|]. intros j [= <-]. split; [done|]. rewrite lookup_insert_eq. by eexists.
    + done.
    + done.
    + intros g a [Hne Hr] Hg. split; [|split; [done|]; simpl; intros j [= <-]; by apply Hr].
      apply fut_frame with p; [done|done| |done]. intros j Hj. simpl. rewrite lookup_insert_ne; [done|]. intros ->. by eapply Hr.
  - destruct (register_run (rf_msg_id f) w p Hinv) as (p' & Hrun & Hinv' & Hid & Hw & Hpm & Hids). set (i := vacant_key _ _) in *.
    erewrite bind_run by (erewrite bind_run by exact Hrun; done). eexists _, p'. split; [done|]. split_and!; [done| |done|done|].
    + split; [done|]. cbn [rf_msg_id rf_registration]. rewrite Hpm. split; [done|]. intros j [= <-]. split; [done|]. rewrite Hw, lookup_insert_eq. by eexists.
    + intros g a [Hne Hr] Hg.
      assert (Hfree : rf_registration g ≠ Some i).
      { intros Hgi. destruct (fut_waker _ _ _ _ Hg Hgi) as [x Hx]. pose proof (vacant_key_free (inserts p) (wakers p)). unfold i in Hx. congruence. }
      split; [|split; [done|]; simpl; by intros j [= <-]].
      apply fut_frame with p; [done|by rewrite Hpm| |].
      * intros j Hj. rewrite Hw, lookup_insert_ne; [done|]. intros ->. done.
      * intros j x Hj. apply Hids. intros ->. done.
Qed.

(** A poll once the answer is there; the future has ended, and may be
    dropped. *)
Lemma poll_answered w f p data v : prog_inv p → fut_ok p f (Answered (inr data)) → decode data = Some v → ∃ f' p1 p',
  response_poll decode w f p = Done ((Some v, f'), p1) ∧ response_drop f' p1 = Done (tt, p') ∧
  (prog_inv p1 ∧ fut_ok p1 f' Ended ∧ rf_msg_id f' = rf_msg_id f ∧ pending_messages p1 = delete (rf_msg_id f) (pending_messages p) ∧
   ∀ g a, apart f g → fut_ok p g a → fut_ok p1 g a ∧ apart f' g) ∧
  prog_inv p' ∧ pending_messages p' = delete (rf_msg_id f) (pending_messages p) ∧
  ∀ g a, apart f g → fut_ok p g a → fut_ok p' g a.
Proof.
  intros Hinv (Hfin & i & ix & Hi & Hw & Hmail) Hv.
  set (p1 := set_messages (delete (rf_msg_id f) (pending_messages p)) (interface_messages_queue p) p).
  assert (Hinv1 : prog_inv p1) by (by apply prog_inv_ext with p).
  destruct (registration_drop_ok i p1 Hinv1 (mk_is_Some _ _ Hw)) as [Hdrop Hinv'].
  eexists _, p1, (dropped i p1). split.
  { unfold response_poll. rewrite Hfin. erewrite bind_run by done.
    erewrite bind_run by (unfold peek_response, mbind, M_bind, get, put; by rewrite Hmail).
    rewrite ?Hmail. cbv beta iota. erewrite bind_run by done. erewrite bind_run by (unfold liftM; by rewrite Hv). done. }
  split; [unfold response_drop; cbn [rf_registration]; rewrite Hi; exact Hdrop|]. split.
  { split; [done|]. split; [split; [done|by exists i]|]. split; [done|]. split; [done|].
    intros g a [Hne Hr] Hg. split; [|by split]. apply fut_frame with p; [done|simpl; by rewrite lookup_delete_ne|done|done]. }
  split; [done|]. split; [done|].
  intros g a [Hne Hr] Hg. specialize (Hr i Hi). apply fut_frame with p; [done| | |].
  - simpl. by rewrite lookup_delete_ne.
  - intros j Hj. simpl. rewrite lookup_delete_ne; [done|]. intros ->. done.
  - intros j x Hj Hx. assert (Hji : j ≠ i) by (by intros ->). destruct (fut_waker _ _ _ _ Hg Hj) as [y Hy].
    simpl. rewrite bool_decide_false.
    + by rewrite list_lookup_insert_ne by done.
    + intros He. assert (delete i (wakers p) !! j = None) as Hn by (by rewrite He). rewrite lookup_delete_ne in Hn by done. congruence.
Qed.

(** The two ways in which a poll panics. *)
Lemma poll_lost w f p : fut_ok p f (Answered (inl tt)) → response_poll decode w f p = Panic PUnwrap.
Proof.
  intros (Hfin & i & ix & Hi & Hw & Hmail). unfold response_poll. rewrite Hfin. erewrite bind_run by done.
  erewrite bind_run by (unfold peek_response, mbind, M_bind, get, put; by rewrite Hmail). rewrite ?Hmail. done.
Qed.

Lemma poll_ended w f p : fut_ok p f Ended → response_poll decode w f p = Panic PAssert.
Proof. intros [Hfin _]. unfold response_poll. by rewrite Hfin. Qed.

(** The kernel answers. *)
Lemma deliver_answer f p i data : prog_inv p → fut_ok p f Waits → rf_registration f = Some i →
  let p' := deliver (NoteResponse (rf_msg_id f) data) i p in
  prog_inv p' ∧ fut_ok p' f (Answered data) ∧
  (∀ id, is_Some (pending_messages p' !! id) → id = rf_msg_id f ∨ is_Some (pending_messages p !! id)) ∧
  ∀ g a, apart f g → fut_ok p g a → fut_ok p' g a.
Proof.
  intros Hinv [Hfin [Hmail Hreg]] Hi p'. destruct (Hreg i Hi) as [Hid [w Hw]]. split_and!.
  - apply prog_inv_deliver; [done|by eexists].
  - split; [done|]. exists i, (Z.of_nat i). unfold p', deliver. cbn. rewrite !lookup_insert_eq. done.
  - intros id. unfold p', deliver. cbn. destruct (decide (id = rf_msg_id f)) as [->|Hne]; [by left|]. rewrite lookup_insert_ne by done. by right.
  - intros g a [Hne Hr] Hg. apply fut_frame with p; [done| | |]; unfold p', deliver; cbn.
    + by rewrite lookup_insert_ne.
    + intros j Hj. rewrite lookup_insert_ne; [done|]. intros ->. by eapply Hr.
    + intros j x Hj Hx. rewrite list_lookup_insert_ne; [done|]. intros ->. by eapply Hr.
Qed.

End futures.

(** * A program that reads and writes *)

(** Each message that the kernel accepted has its own identifier; a call can
    fail. *)
Class EmissionLaws `{Emission} := {
  emission_distinct : ∀ n m, fst (emission n) = 0 → fst (emission m) = 0 → snd (emission n) = snd (emission m) → n = m;
}.

(** The two sides of the interface have the same codec. *)
Class ScaleTcpRoundtrip `{ScaleTcp} `{ScaleTcpAnswers} := {
  read_response_roundtrip : ∀ r, decode_read_response (encode_read_response r) = Some r;
  write_response_roundtrip : ∀ r, decode_write_response (encode_write_response r) = Some r;
}.

(** What the kernel answers to a read or to a write: what the handler answered,
    or [inl] if there is none. *)
Abbreviation ReadAnswer := (unit + TcpReadResponse)%type (only parsing).
Abbreviation WriteAnswer := (unit + TcpWriteResponse)%type (only parsing).

Definition no_answer {A} : unit + A := inl tt.
Definition read_error : ReadAnswer := inr {| trr_result := inl tt |}.
Definition write_error : WriteAnswer := inr {| twr_result := inl tt |}.

Definition answer_bytes (a : ReadAnswer) : bytes :=
  match a with inr {| trr_result := inr d |} => d | _ => [] end.

(** The program polls its stream to read at most [len] bytes, or to write a
    buffer; [block_on] delivers the answer to the pending read or the one to the
    pending write, of any kind. *)
Inductive Step :=
  | PollRead (len : nat)
  | PollWrite (buf : bytes)
  | AnswerRead (a : ReadAnswer)
  | AnswerWrite (a : WriteAnswer).

(** The program and its stream, the bytes that were read and the buffers that
    were accepted, and the answers that were delivered. *)
Record Session := {
  client : Client;
  stream : TcpStream;
  got : bytes;
  given : list bytes;
  answers : list ReadAnswer;
  acks : list WriteAnswer;
}.

Section session.
Context `{SlabKeys} `{!SlabKeysLaws} `{Emission} `{!EmissionLaws} `{ScaleTcp} `{ScaleTcpAnswers} `{!ScaleTcpRoundtrip}.

Definition read_mail (a : ReadAnswer) : unit + EncodedMessage :=
  match a with inr r => inr (encode_read_response r) | inl _ => inl tt end.
Definition write_mail (a : WriteAnswer) : unit + EncodedMessage :=
  match a with inr r => inr (encode_write_response r) | inl _ => inl tt end.

(** An answer can be delivered to a future that is registered and was not
    answered yet. *)
Definition answer (f : option ResponseFuture) (data : unit + EncodedMessage) (c : Client) : option Client :=
  f ← f;
  i ← rf_registration f;
  match wakers (program c) !! i with
  | Some (Some _) => Some {| program := deliver (NoteResponse (rf_msg_id f) data) i (program c); emitted := emitted c |}
  | _ => None
  end.

Definition read_bytes (r : option (unit + bytes)) : bytes := match r with Some (inr d) => d | _ => [] end.

Definition after_read (s : Session) (r : option (unit + bytes)) (str : TcpStream) (c : Client) : Session :=
  {| client := c; stream := str; got := got s ++ read_bytes r; given := given s; answers := answers s; acks := acks s |}.
Definition after_write (s : Session) (buf : bytes) (r : option (unit + nat)) (str : TcpStream) (c : Client) : Session :=
  {| client := c; stream := str; got := got s; given := given s ++ (match r with Some (inr n) => [take n buf] | _ => [] end);
     answers := answers s; acks := acks s |}.

Definition session_step (waker : Waker) (s : Session) (st : Step) : outcome Session :=
  match st with
  | PollRead len =>
      x ← poll_read 2 waker len (stream s) (client s);
      let '((r, str), c) := x in Done (after_read s r str c)
  | PollWrite buf =>
      x ← poll_write waker buf (stream s) (client s);
      let '((r, str), c) := x in Done (after_write s buf r str c)
  | AnswerRead a =>
      match answer (pending_read (stream s)) (read_mail a) (client s) with
      | Some c => Done {| client := c; stream := stream s; got := got s; given := given s; answers := answers s ++ [a]; acks := acks s |}
      | None => Done s
      end
  | AnswerWrite a =>
      match answer (pending_write (stream s)) (write_mail a) (client s) with
      | Some c => Done {| client := c; stream := stream s; got := got s; given := given s; answers := answers s; acks := acks s ++ [a] |}
      | None => Done s
      end
  end.

Fixpoint session_run (waker : Waker) (s : Session) (steps : list Step) : outcome Session :=
  match steps with
  | [] => Done s
  | st :: steps => s ← session_step waker s st; session_run waker s steps
  end.

(** ** The invariant *)

Definition is_read (m : TcpMessage) : bool := match m with Tcp_Read _ => true | _ => false end.
Definition write_data (m : TcpMessage) : option bytes := match m with Tcp_Write _ d => Some d | _ => None end.
Definition reads_sent (c : Client) : nat := length (List.filter is_read (emitted c)).

Definition in_flight (f : option ResponseFuture) (a : Mail) : nat :=
  match f, a with Some _, Waits => 1 | _, _ => 0 end.

Definition issued (c : Client) (id : MessageId) : Prop :=
  ∃ k, (k < length (emitted c))%nat ∧ fst (emission k) = 0 ∧ id = snd (emission k).

Definition pend_ok (c : Client) (f : option ResponseFuture) (a : Mail) : Prop :=
  match f with Some f => fut_ok (program c) f a ∧ issued c (rf_msg_id f) | None => a = Waits end.

Definition all_bytes (s : Session) : bytes := concat (answer_bytes <$> answers s).

(** [ra] and [wa] are where the pending read and the pending write are. *)
Record sess_ok (s : Session) (ra wa : Mail) : Prop := {
  so_prog : prog_inv (program (client s));
  so_mail id : is_Some (pending_messages (program (client s)) !! id) → issued (client s) id;
  so_read : pend_ok (client s) (pending_read (stream s)) ra;
  so_write : pend_ok (client s) (pending_write (stream s)) wa;
  so_apart f g : pending_read (stream s) = Some f → pending_write (stream s) = Some g → apart f g;
  so_empty : is_Some (pending_read (stream s)) → read_buffer (stream s) = [];
  so_bytes : match ra with
    | Waits => got s ++ read_buffer (stream s) = all_bytes s
    | Answered data => ∃ a, a ∈ answers s ∧ data = read_mail a ∧ got s ++ answer_bytes a = all_bytes s
    | Ended => read_error ∈ answers s ∧ got s ++ read_buffer (stream s) = all_bytes s
    end;
  so_reads : reads_sent (client s) = (length (answers s) + in_flight (pending_read (stream s)) ra)%nat;
  so_acks : match wa with
    | Waits => True
    | Answered data => ∃ a, a ∈ acks s ∧ data = write_mail a
    | Ended => write_error ∈ acks s
    end;
  so_given : omap write_data (emitted (client s)) = given s;
  so_writes : length (given s) = (length (acks s) + in_flight (pending_write (stream s)) wa)%nat;
}.

(** A call to [emit_message] fails at some point. *)
Definition emission_fails : Prop := ∃ n, fst (emission n) ≠ 0.

(** Why a poll panics. *)
Definition stops (s : Session) (r : panic_reason) : Prop :=
  r = PAssert ∧ (read_error ∈ answers s ∨ write_error ∈ acks s) ∨
  r = PUnwrap ∧ (no_answer ∈ answers s ∨ no_answer ∈ acks s ∨ emission_fails).

Lemma on_program_run {A} (m : M Program A) c x p' : m (program c) = Done (x, p') →
  on_program m c = Done (x, {| program := p'; emitted := emitted c |}).
Proof. intros Hm. unfold on_program, zoom. by rewrite Hm. Qed.

Lemma on_program_panics {A} (m : M Program A) c r : m (program c) = Panic r → on_program m c = Panic r.
Proof. intros Hm. unfold on_program, zoom. by rewrite Hm. Qed.

Definition emits (c : Client) (msg : TcpMessage) : Client := {| program := program c; emitted := emitted c ++ [msg] |}.

(** The next message has an identifier, or is refused. *)
Definition accepted (c : Client) : Prop := fst (emission (length (emitted c))) = 0.

Lemma emit_tcp_run msg c : accepted c → emit_tcp msg c = Done (snd (emission (length (emitted c))), emits c msg).
Proof. intros Hacc. unfold emit_tcp. erewrite bind_run by done. unfold emit_with_response_raw, emit_raw. by rewrite Hacc. Qed.

Lemma emit_tcp_refused msg c : ¬ accepted c → emit_tcp msg c = Panic PUnwrap ∧ emission_fails.
Proof.
  intros Hacc. split; [|by exists (length (emitted c))]. unfold emit_tcp. erewrite bind_run by done.
  unfold emit_with_response_raw, emit_raw. by rewrite bool_decide_true by done.
Qed.

Lemma issued_emits c msg id : issued c id → issued (emits c msg) id.
Proof. intros (k & Hk & ?). exists k. split; [|done]. unfold emits. simpl. rewrite length_app. simpl. lia. Qed.

(** A message that was just emitted has no answer yet, and is not another one. *)
Lemma new_future c msg : accepted c → (∀ id, is_Some (pending_messages (program c) !! id) → issued c id) →
  pend_ok (emits c msg) (Some (message_response (snd (emission (length (emitted c)))))) Waits ∧
  ∀ g, issued c (rf_msg_id g) → apart (message_response (snd (emission (length (emitted c))))) g.
Proof.
  intros Hacc Hmail. assert (Hnew : ¬ issued c (snd (emission (length (emitted c))))).
  { intros (k & Hk & Hk0 & Heq). apply emission_distinct in Heq; [lia|done..]. }
  split; [split; [split; [done|]; split; [|done]|]|].
  - destruct (_ !! _) eqn:He; [|done]. destruct Hnew. apply Hmail. simpl in *. by rewrite He.
  - exists (length (emitted c)). simpl. rewrite length_app. simpl. split; [lia|done].
  - intros g Hg. split; [|done]. intros Heq. simpl in Heq. rewrite Heq in Hnew. done.
Qed.

Lemma poll_read_none waker fuel len str : pending_read str = None →
  poll_read (S fuel) waker len str = read_rest (poll_read fuel waker len) len str.
Proof. intros Hp. cbn [poll_read]. by rewrite Hp. Qed.

Lemma poll_read_some waker fuel len str f : pending_read str = Some f →
  poll_read (S fuel) waker len str =
    r ← on_program (response_poll decode_read_response waker f);
    match fst r with
    | None => mret (None, with_read (read_buffer str) (Some (snd r)) str)
    | Some response =>
        match trr_result response with
        | inl _ => mret (Some (inl tt), with_read (read_buffer str) (Some (snd r)) str)
        | inr d => _ ← on_program (response_drop (snd r)); read_rest (poll_read fuel waker len) len (with_read d None str)
        end
    end.
Proof. intros Hp. cbn [poll_read]. by rewrite Hp. Qed.

(** The first poll of the read that was just sent. *)
Lemma ask_ok waker fuel len s wa : accepted (client s) → sess_ok s Waits wa → pending_read (stream s) = None → read_buffer (stream s) = [] →
  ∃ str' c', poll_read (S fuel) waker len (with_read [] (Some (message_response (snd (emission (length (emitted (client s))))))) (stream s))
               (emits (client s) (Tcp_Read (handle (stream s)))) = Done ((None, str'), c') ∧
    emitted c' = emitted (client s) ++ [Tcp_Read (handle (stream s))] ∧ is_Some (pending_read str') ∧
    sess_ok (after_read s None str' c') Waits wa.
Proof.
  intros Hacc [K1 K2 _ K4 _ _ K7 K8 K9 K10 K11] Hp Hb. set (c1 := emits _ _).
  destruct (new_future (client s) (Tcp_Read (handle (stream s))) Hacc K2) as [[Hf1 Hi1] Hap].
  set (f := message_response _) in *. fold c1 in Hf1, Hi1.
  destruct (poll_waiting decode_read_response waker f (program c1) K1 Hf1) as (f' & p' & Hrun & Hinv' & Hf' & Hid & Hpm & Hframe).
  eexists _, _. split.
  { cbn [poll_read pending_read with_read]. erewrite bind_run by (apply on_program_run; exact Hrun). done. }
  split; [done|]. split; [by eexists|]. split; cbn [client stream after_read program emitted with_read pending_read pending_write read_buffer got given answers acks fst snd].
  - done.
  - rewrite Hpm. intros id Hid'. apply issued_emits. by apply K2.
  - split; [done|]. rewrite Hid. done.
  - destruct (pending_write (stream s)) as [g|]; [|done]. destruct K4 as [Hg Hig]. split; [|by apply issued_emits].
    by apply (Hframe g wa (Hap g Hig) Hg).
  - intros f0 g [= <-] Hg. rewrite Hg in K4. destruct K4 as [Hg' Hig]. by apply (Hframe g wa (Hap g Hig) Hg').
  - done.
  - rewrite app_nil_r. by rewrite Hb in K7.
  - unfold reads_sent in *. cbn [emitted]. unfold c1. cbn [emits emitted]. rewrite List.filter_app, length_app, K8, Hp. simpl. lia.
  - done.
  - unfold c1. cbn [emits emitted]. rewrite omap_app, K10. simpl. by rewrite app_nil_r.
  - done.
Qed.

Lemma read_rest_ok waker fuel len s wa : sess_ok s Waits wa → pending_read (stream s) = None →
  wp (λ r, r = PUnwrap ∧ emission_fails) (read_rest (poll_read (S fuel) waker len) len (stream s) (client s))
    (λ '((r, str'), c'), sess_ok (after_read s r str' c') Waits wa).
Proof.
  intros Hs Hp. unfold read_rest. erewrite bind_run by (unfold liftM; rewrite bool_decide_true by (rewrite Hp; by intros [? ?]); done).
  case_bool_decide as Hb.
  - destruct Hs as [K1 K2 K3 K4 K5 K6 K7 K8 K9 K10 K11].
    split; cbn [client stream after_read with_read pending_read pending_write read_buffer got given answers acks fst snd]; try done.
    + rewrite Hp. by intros [? ?].
    + by rewrite <- app_assoc; cbn [read_bytes]; rewrite take_drop.
  - destruct (decide (accepted (client s))) as [Hacc|Hacc].
    + destruct (ask_ok waker fuel len s wa Hacc Hs Hp Hb) as (str' & c' & Hrun & _ & _ & Hok).
      erewrite bind_run by (by apply emit_tcp_run). by rewrite Hb, Hrun.
    + destruct (emit_tcp_refused (Tcp_Read (handle (stream s))) (client s) Hacc) as [Hrun Hfail].
      by rewrite (bind_panics _ _ _ _ Hrun).
Qed.

(** The session where the program and the stream have changed. *)
Definition with_client (c : Client) (str : TcpStream) (s : Session) : Session :=
  {| client := c; stream := str; got := got s; given := given s; answers := answers s; acks := acks s |}.

(** The answer to the pending read is taken. *)
Lemma take_answer_ok waker len s d wa : sess_ok s (Answered (inr (encode_read_response {| trr_result := inr d |}))) wa → ∃ c1,
  poll_read 2 waker len (stream s) (client s) = read_rest (poll_read 1 waker len) len (with_read d None (stream s)) c1 ∧
  emitted c1 = emitted (client s) ∧ sess_ok (with_client c1 (with_read d None (stream s)) s) Waits wa.
Proof.
  intros [K1 K2 K3 K4 K5 K6 K7 K8 K9 K10 K11]. destruct (pending_read (stream s)) as [f|] eqn:Hp; [|done].
  destruct K3 as [Hf Hi]. destruct K7 as (a & _ & Ha & Hd).
  assert (answer_bytes a = d) as Hbytes.
  { destruct a as [|r]; [done|]. simpl in Ha. injection Ha as Ha. apply (f_equal decode_read_response) in Ha.
    rewrite !read_response_roundtrip in Ha. by injection Ha as <-. }
  rewrite Hbytes in Hd.
  destruct (poll_answered decode_read_response waker f _ _ {| trr_result := inr d |} K1 Hf)
    as (f' & p1 & p' & Hrun & Hdrop & _ & Hinv' & Hpm & Hframe); [apply read_response_roundtrip|].
  exists {| program := p'; emitted := emitted (client s) |}. split.
  { rewrite (poll_read_some _ _ _ _ f) by done. erewrite bind_run by (apply on_program_run; exact Hrun). cbn [fst snd trr_result].
    erewrite bind_run by (apply on_program_run; exact Hdrop). done. }
  split; [done|]. split; cbn [client stream program emitted with_client with_read pending_read pending_write read_buffer got given answers acks]; try done.
  - rewrite Hpm. intros id [x [_ Hx]%lookup_delete_Some]. apply K2. by eexists.
  - destruct (pending_write (stream s)) as [g|] eqn:Hg; [|done]. destruct K4 as [Hg' Hig]. split; [|done]. by apply Hframe; [apply K5|].
Qed.

(** An answer that is an error ends the future, which stays in the stream. *)
Lemma take_error_ok waker len s wa : sess_ok s (Answered (inr (encode_read_response {| trr_result := inl tt |}))) wa → ∃ str c1,
  poll_read 2 waker len (stream s) (client s) = Done ((Some (inl tt), str), c1) ∧
  sess_ok (after_read s (Some (inl tt)) str c1) Ended wa.
Proof.
  intros [K1 K2 K3 K4 K5 K6 K7 K8 K9 K10 K11]. destruct (pending_read (stream s)) as [f|] eqn:Hp; [|done].
  destruct K3 as [Hf Hi]. destruct K7 as (a & Hin & Ha & Hd).
  assert (a = read_error) as ->.
  { destruct a as [|r]; [done|]. simpl in Ha. injection Ha as Ha. apply (f_equal decode_read_response) in Ha.
    rewrite !read_response_roundtrip in Ha. by injection Ha as <-. }
  destruct (poll_answered decode_read_response waker f _ _ {| trr_result := inl tt |} K1 Hf)
    as (f' & p1 & p' & Hrun & _ & (Hinv1 & Hf1 & Hid & Hpm & Hframe) & _); [apply read_response_roundtrip|].
  eexists _, _. split.
  { rewrite (poll_read_some _ _ _ _ f) by done. erewrite bind_run by (apply on_program_run; exact Hrun). done. }
  split; cbn [client stream program emitted after_read with_read pending_read pending_write read_buffer got given answers acks fst snd]; try done.
  - rewrite Hpm. intros id [x [_ Hx]%lookup_delete_Some]. apply K2. by eexists.
  - split; [done|]. by rewrite Hid.
  - destruct (pending_write (stream s)) as [g|] eqn:Hg; [|done]. destruct K4 as [Hg' Hig]. split; [|done]. by apply (Hframe g wa); [apply K5|].
  - intros f0 g [= <-] Hg. rewrite Hg in K4. destruct K4 as [Hg' _]. by apply (Hframe g wa); [apply K5|].
  - intros _. apply K6. by eexists.
  - cbn [read_bytes]. rewrite app_nil_r. rewrite (K6 ltac:(by eexists)). split; [done|]. exact Hd.
Qed.

Lemma poll_read_ok waker len s ra wa : sess_ok s ra wa →
  wp (stops s) (session_step waker s (PollRead len)) (λ s', (∃ ra', sess_ok s' ra' wa) ∧ answers s' = answers s ∧ acks s' = acks s).
Proof.
  intros Hs. unfold session_step. apply wp_bind.
  assert (Hrest : ∀ s1, sess_ok s1 Waits wa → pending_read (stream s1) = None → answers s1 = answers s → acks s1 = acks s →
      got s1 = got s → given s1 = given s →
      wp (stops s) (read_rest (poll_read 1 waker len) len (stream s1) (client s1))
        (λ a, wp (stops s) (let '((r, str), c) := a in Done (after_read s r str c))
          (λ s', (∃ ra', sess_ok s' ra' wa) ∧ answers s' = answers s ∧ acks s' = acks s))).
  { intros s1 Hs1 Hp1 Ha Hk Hg Hv. eapply wp_mono; [eapply wp_weaken; [by apply read_rest_ok|]|].
    - intros r [-> Hfail]. right. auto.
    - intros [[r str] c] Hok. simpl. split; [|done]. exists Waits.
      assert (after_read s r str c = after_read s1 r str c) as -> by (unfold after_read; by rewrite Ha, Hk, Hg, Hv). done. }
  destruct (pending_read (stream s)) as [f|] eqn:Hp; cycle 1.
  { pose proof (so_read _ _ _ Hs) as Hr. rewrite Hp in Hr. simpl in Hr. subst ra. rewrite poll_read_none by done. by apply Hrest. }
  pose proof Hs as [K1 K2 K3 K4 K5 K6 K7 K8 K9 K10 K11]. rewrite Hp in K3. destruct K3 as [Hf Hi]. destruct ra as [|data|].
  - rewrite (poll_read_some _ _ _ _ f) by done.
    destruct (poll_waiting decode_read_response waker f _ K1 Hf) as (f' & p' & Hrun & Hinv' & Hf' & Hid & Hpm & Hframe).
    erewrite bind_run by (apply on_program_run; exact Hrun). simpl. split; [|done]. exists Waits.
    split; cbn [client stream program emitted after_read with_read pending_read pending_write read_buffer got given answers acks fst snd]; try done.
    + by rewrite Hpm.
    + split; [done|]. by rewrite Hid.
    + destruct (pending_write (stream s)) as [g|]; [|done]. destruct K4 as [Hg' Hig]. split; [|done]. by apply Hframe; [apply K5|].
    + intros f0 g [= <-] Hg. rewrite Hg in K4. destruct K4 as [Hg' _]. by apply (Hframe g wa); [apply K5|].
    + intros _. apply K6. by rewrite Hp.
    + by rewrite app_nil_r.
    + by rewrite Hp in K8.
  - destruct K7 as (a & Hin & -> & Hd). destruct a as [[]|[[[]|d]]].
    + rewrite (poll_read_some _ _ _ _ f) by done. rewrite (bind_panics _ _ _ _ (on_program_panics _ _ _ (poll_lost _ _ _ _ Hf))).
      right. split; [done|]. by left.
    + destruct (take_error_ok waker len s wa Hs) as (str & c1 & -> & Hok). simpl. split; [|done]. by exists Ended.
    + destruct (take_answer_ok waker len s d wa Hs) as (c1 & -> & _ & Hs1).
      apply (Hrest (with_client c1 (with_read d None (stream s)) s)); done.
  - rewrite (poll_read_some _ _ _ _ f) by done. rewrite (bind_panics _ _ _ _ (on_program_panics _ _ _ (poll_ended _ _ _ _ Hf))).
    left. split; [done|]. left. apply K7.
Qed.

Lemma write_rest_ok buf s ra : sess_ok s ra Waits → pending_write (stream s) = None →
  wp (λ r, r = PUnwrap ∧ emission_fails) (write_rest buf (stream s) (client s))
    (λ '((r, str'), c'), sess_ok (after_write s buf r str' c') ra Waits).
Proof.
  intros [K1 K2 K3 _ _ K6 K7 K8 K9 K10 K11] Hp. unfold write_rest.
  erewrite bind_run by (unfold liftM; rewrite bool_decide_true by (rewrite Hp; by intros [? ?]); done).
  destruct (decide (accepted (client s))) as [Hacc|Hacc]; cycle 1.
  { destruct (emit_tcp_refused (Tcp_Write (handle (stream s)) buf) (client s) Hacc) as [Hrun Hfail]. by rewrite (bind_panics _ _ _ _ Hrun). }
  erewrite bind_run by (by apply emit_tcp_run).
  destruct (new_future (client s) (Tcp_Write (handle (stream s)) buf) Hacc K2) as [Hf Hap].
  split; cbn [client stream after_write with_write pending_read pending_write read_buffer got given answers acks]; try done.
  - intros id Hid. apply issued_emits. by apply K2.
  - destruct (pending_read (stream s)) as [g|]; [|done]. destruct K3 as [Hg Hi]. split; [done|by apply issued_emits].
  - intros f g Hf' [= <-]. rewrite Hf' in K3. apply apart_sym, Hap, K3.
  - unfold reads_sent in *. cbn [emits emitted]. rewrite List.filter_app, length_app, K8. simpl. lia.
  - cbn [emits emitted]. rewrite omap_app, K10. simpl. by rewrite firstn_all.
  - rewrite length_app, K11, Hp. simpl. lia.
Qed.

(** The session after the answer to the pending write is taken. *)
Lemma poll_write_ok waker buf s ra wa : sess_ok s ra wa →
  wp (stops s) (session_step waker s (PollWrite buf)) (λ s', (∃ wa', sess_ok s' ra wa') ∧ answers s' = answers s ∧ acks s' = acks s).
Proof.
  intros Hs. unfold session_step, poll_write. apply wp_bind.
  assert (Hrest : ∀ s1, sess_ok s1 ra Waits → pending_write (stream s1) = None → answers s1 = answers s → acks s1 = acks s →
      got s1 = got s → given s1 = given s →
      wp (stops s) (write_rest buf (stream s1) (client s1))
        (λ a, wp (stops s) (let '((r, str), c) := a in Done (after_write s buf r str c))
          (λ s', (∃ wa', sess_ok s' ra wa') ∧ answers s' = answers s ∧ acks s' = acks s))).
  { intros s1 Hs1 Hp1 Ha Hk Hg Hv. eapply wp_mono; [eapply wp_weaken; [by apply write_rest_ok|]|].
    - intros r [-> Hfail]. right. auto.
    - intros [[r str] c] Hok. simpl. split; [|done]. exists Waits.
      assert (after_write s buf r str c = after_write s1 buf r str c) as -> by (unfold after_write; by rewrite Ha, Hk, Hg, Hv). done. }
  destruct (pending_write (stream s)) as [f|] eqn:Hp; cycle 1.
  { pose proof (so_write _ _ _ Hs) as Hw. rewrite Hp in Hw. simpl in Hw. subst wa. by apply Hrest. }
  pose proof Hs as [K1 K2 K3 K4 K5 K6 K7 K8 K9 K10 K11]. rewrite Hp in K4. destruct K4 as [Hf Hi].
  assert (Hap : ∀ g, pending_read (stream s) = Some g → apart f g) by (intros g Hg; apply apart_sym; by apply K5).
  destruct wa as [|data|].
  - destruct (poll_waiting decode_write_response waker f _ K1 Hf) as (f' & p' & Hrun & Hinv' & Hf' & Hid & Hpm & Hframe).
    erewrite bind_run by (apply on_program_run; exact Hrun). simpl. split; [|done]. exists Waits.
    split; cbn [client stream program emitted after_write with_write pending_read pending_write read_buffer got given answers acks fst snd]; try done.
    + by rewrite Hpm.
    + destruct (pending_read (stream s)) as [g|]; [|done]. destruct K3 as [Hg' Hig]. split; [|done]. by apply Hframe; [apply Hap|].
    + split; [done|]. by rewrite Hid.
    + intros g f0 Hg [= <-]. rewrite Hg in K3. destruct K3 as [Hg' _]. apply apart_sym. by apply (Hframe g ra); [apply Hap|].
    + by rewrite app_nil_r.
    + rewrite app_nil_r. by rewrite Hp in K11.
  - destruct K9 as (a & Hin & ->). destruct a as [[]|[r]].
    { rewrite (bind_panics _ _ _ _ (on_program_panics _ _ _ (poll_lost _ _ _ _ Hf))). right. split; [done|]. by right; left. }
    destruct (poll_answered decode_write_response waker f _ _ {| twr_result := r |} K1 Hf)
      as (f' & p1 & p' & Hrun & Hdrop & (Hinv1 & Hf1 & Hid & Hpm1 & Hframe1) & Hinv' & Hpm & Hframe); [apply write_response_roundtrip|].
    erewrite bind_run by (apply on_program_run; exact Hrun). cbn [fst snd twr_result]. destruct r as [[]|[]].
    + simpl. split; [|done]. exists Ended.
      split; cbn [client stream program emitted after_write with_write pending_read pending_write read_buffer got given answers acks fst snd]; try done.
      * rewrite Hpm1. intros id [x [_ Hx]%lookup_delete_Some]. apply K2. by eexists.
      * destruct (pending_read (stream s)) as [g|] eqn:Hg; [|done]. destruct K3 as [Hg' Hig]. split; [|done]. by apply (Hframe1 g ra); [apply Hap|].
      * split; [done|]. by rewrite Hid.
      * intros g f0 Hg [= <-]. rewrite Hg in K3. destruct K3 as [Hg' _]. apply apart_sym. by apply (Hframe1 g ra); [apply Hap|].
      * by rewrite app_nil_r.
      * rewrite app_nil_r. by rewrite Hp in K11.
    + erewrite bind_run by (apply on_program_run; exact Hdrop). cbn [emitted].
      set (s1 := {| client := {| program := p'; emitted := emitted (client s) |}; stream := with_write None (stream s);
                    got := got s; given := given s; answers := answers s; acks := acks s |}).
      apply (Hrest s1); [|done..].
      split; cbn [s1 client stream program emitted with_write pending_read pending_write read_buffer got given answers acks]; try done.
      * rewrite Hpm. intros id [x [_ Hx]%lookup_delete_Some]. apply K2. by eexists.
      * destruct (pending_read (stream s)) as [g|] eqn:Hg; [|done]. destruct K3 as [Hg' Hig]. split; [|done]. by apply Hframe; [apply Hap|].
      * by rewrite Hp in K11.
  - rewrite (bind_panics _ _ _ _ (on_program_panics _ _ _ (poll_ended _ _ _ _ Hf))). left. split; [done|]. by right.
Qed.

(** An answer that is delivered: to a future that waits. *)
Lemma answer_ok f m data c c' : pend_ok c f m → answer f data c = Some c' → prog_inv (program c) →
  (∀ id, is_Some (pending_messages (program c) !! id) → issued c id) →
  m = Waits ∧ prog_inv (program c') ∧ emitted c' = emitted c ∧ pend_ok c' f (Answered data) ∧
  (∀ id, is_Some (pending_messages (program c') !! id) → issued c' id) ∧
  ∀ g m', (∀ f', f = Some f' → apart f' g) → fut_ok (program c) g m' → fut_ok (program c') g m'.
Proof.
  unfold answer. destruct f as [f|]; [|done]. simpl. intros [Hf Hi] Hans Hinv Hmail.
  destruct (rf_registration f) as [i|] eqn:Hr; [|done]. simpl in Hans.
  destruct (wakers (program c) !! i) as [[w|]|] eqn:Hw; simplify_eq.
  assert (m = Waits) as ->.
  { destruct m; [done| |]; [destruct Hf as (_ & j & ix & Hj & Hw' & _)|destruct Hf as (_ & j & Hj & Hw')]; congruence. }
  destruct (deliver_answer f (program c) i data Hinv Hf Hr) as (H1' & H2' & H3' & H4'). cbn [program emitted].
  do 3 (split; [done|]). split; [split; [unfold fut_ok in H2'; by rewrite Hr in H2'|exact Hi]|]. split.
  - intros id [->|Hid]%H3'; [exact Hi|by apply Hmail].
  - intros g a' Hap Hg. apply H4'; [by apply Hap|done].
Qed.

Lemma answer_read_ok a s c ra wa : sess_ok s ra wa → answer (pending_read (stream s)) (read_mail a) (client s) = Some c →
  sess_ok {| client := c; stream := stream s; got := got s; given := given s; answers := answers s ++ [a]; acks := acks s |}
    (Answered (read_mail a)) wa.
Proof.
  intros [K1 K2 K3 K4 K5 K6 K7 K8 K9 K10 K11] Hans.
  destruct (answer_ok _ _ _ _ _ K3 Hans K1 K2) as (-> & Hinv & Hem & Hpend & Hmail & Hframe).
  assert (Hp : is_Some (pending_read (stream s))) by (destruct (pending_read (stream s)); [by eexists|done]).
  split; cbn [client stream got given answers acks]; try done.
  - destruct (pending_write (stream s)) as [g|] eqn:Hg; [|done]. destruct K4 as [Hg' Hi]. split; [|by unfold issued in *; rewrite Hem].
    apply Hframe; [|done]. intros f Hf. by apply K5.
  - exists a. split; [set_solver|]. split; [done|]. unfold all_bytes in *. cbn [answers].
    rewrite fmap_app, concat_app, <- K7, (K6 Hp), app_nil_r. simpl. by rewrite app_nil_r.
  - unfold reads_sent in *. rewrite Hem, length_app, K8. destruct Hp as [f ->]. simpl. lia.
  - by rewrite Hem.
Qed.

Lemma answer_write_ok a s c ra wa : sess_ok s ra wa → answer (pending_write (stream s)) (write_mail a) (client s) = Some c →
  sess_ok {| client := c; stream := stream s; got := got s; given := given s; answers := answers s; acks := acks s ++ [a] |}
    ra (Answered (write_mail a)).
Proof.
  intros [K1 K2 K3 K4 K5 K6 K7 K8 K9 K10 K11] Hans.
  destruct (answer_ok _ _ _ _ _ K4 Hans K1 K2) as (-> & Hinv & Hem & Hpend & Hmail & Hframe).
  assert (Hp : is_Some (pending_write (stream s))) by (destruct (pending_write (stream s)); [by eexists|done]).
  split; cbn [client stream got given answers acks]; try done.
  - destruct (pending_read (stream s)) as [g|] eqn:Hg; [|done]. destruct K3 as [Hg' Hi]. split; [|by unfold issued in *; rewrite Hem].
    apply Hframe; [|done]. intros f Hf. apply apart_sym. by apply K5.
  - unfold reads_sent in *. by rewrite Hem.
  - exists a. set_solver.
  - by rewrite Hem.
  - rewrite length_app, K11. destruct Hp as [f ->]. simpl. lia.
Qed.

(** The answers that a step can deliver. *)
Definition read_of (st : Step) : list ReadAnswer := match st with AnswerRead a => [a] | _ => [] end.
Definition write_of (st : Step) : list WriteAnswer := match st with AnswerWrite a => [a] | _ => [] end.

Definition delivered (s s' : Session) (steps : list Step) : Prop :=
  (∀ a, a ∈ answers s' → a ∈ answers s ∨ AnswerRead a ∈ steps) ∧ (∀ a, a ∈ acks s' → a ∈ acks s ∨ AnswerWrite a ∈ steps).

Lemma session_step_ok waker st s ra wa : sess_ok s ra wa →
  wp (stops s) (session_step waker s st) (λ s', (∃ ra' wa', sess_ok s' ra' wa') ∧ delivered s s' [st]).
Proof.
  intros Hs. destruct st as [len|buf|a|a].
  - eapply wp_mono; [by apply poll_read_ok with ra|]. intros s' ((ra' & Hs') & Ha & Hk). unfold delivered. rewrite Ha, Hk. eauto 8.
  - eapply wp_mono; [by apply poll_write_ok with wa|]. intros s' ((wa' & Hs') & Ha & Hk). unfold delivered. rewrite Ha, Hk. eauto 8.
  - simpl. destruct (answer _ _ _) as [c|] eqn:Hans; [|unfold delivered; simpl; eauto 8].
    split; [by eexists _, _; apply (answer_read_ok a s c ra wa)|]. split; cbn [answers acks]; [|auto]. set_solver.
  - simpl. destruct (answer _ _ _) as [c|] eqn:Hans; [|unfold delivered; simpl; eauto 8].
    split; [by eexists _, _; apply (answer_write_ok a s c ra wa)|]. split; cbn [answers acks]; [auto|]. set_solver.
Qed.

(** Why a run panics: an answer was an error and its future was polled again, or
    there was no handler to answer, or to emit to. *)
Definition run_stops (steps : list Step) (r : panic_reason) : Prop :=
  r = PAssert ∧ (AnswerRead read_error ∈ steps ∨ AnswerWrite write_error ∈ steps) ∨
  r = PUnwrap ∧ (AnswerRead no_answer ∈ steps ∨ AnswerWrite no_answer ∈ steps ∨ emission_fails).

Lemma session_run_ok waker steps s ra wa all : sess_ok s ra wa →
  (∀ a, a ∈ answers s → AnswerRead a ∈ all) → (∀ a, a ∈ acks s → AnswerWrite a ∈ all) → (∀ st, st ∈ steps → st ∈ all) →
  wp (run_stops all) (session_run waker s steps) (λ s', ∃ ra' wa', sess_ok s' ra' wa').
Proof.
  revert s ra wa. induction steps as [|st steps IH]; intros s ra wa Hs Ha Hk Hall; [by eexists _, _|].
  cbn [session_run]. apply wp_bind. eapply wp_mono; [eapply wp_weaken; [by apply session_step_ok with ra wa|]|].
  - intros r [[-> He]|[-> He]]; [left|right]; (split; [done|]); naive_solver.
  - intros s1 ((ra1 & wa1 & Hs1) & Hda & Hdk).
    assert (Hst : st ∈ all) by (apply Hall; set_solver).
    apply IH with ra1 wa1; [done|..].
    + intros a [Hin|Hin%list_elem_of_singleton]%Hda; [by apply Ha|by subst].
    + intros a [Hin|Hin%list_elem_of_singleton]%Hdk; [by apply Hk|by subst].
    + intros st' Hin. apply Hall. set_solver.
Qed.

(** ** The claims *)

(** A stream that was just opened, in a program whose mailbox is empty. *)
Definition opened_session (h : Z) (p : Program) : Session :=
  {| client := {| program := p; emitted := [] |};
     stream := {| handle := h; read_buffer := []; pending_read := None; pending_write := None |};
     got := []; given := []; answers := []; acks := [] |}.

Lemma opened_session_ok h p : prog_inv p → pending_messages p = ∅ → sess_ok (opened_session h p) Waits Waits.
Proof. intros Hinv Hmail. split; try done. cbn. rewrite Hmail. intros id [x Hx]. by rewrite lookup_empty in Hx. Qed.

(** C34: a program that reads from a TCP stream and writes to it, whatever the
    order of its polls, the sizes of its buffers, the moments at which the
    answers come, and what they are: data, errors, or that there is no handler
    any more. Every poll returns. Unless one of them panics, the bytes that the
    program has read are those of the answers, in their order, but for the end
    of them; the messages that write carry the buffers that were accepted, in
    their order; and at most one read and at most one write are not answered
    yet, as the interface demands. A poll panics for these reasons only: an
    answer was an error, whose future has ended and is polled again; or there is
    no handler, for a message that waits for its answer or for a new one. *)
Theorem tcp_stream_ok (waker : Waker) (h : Z) (p : Program) (steps : list Step) :
  prog_inv p → pending_messages p = ∅ →
  match session_run waker (opened_session h p) steps with
  | Done s =>
      got s `prefix_of` concat (answer_bytes <$> answers s) ∧
      omap write_data (emitted (client s)) = given s ∧
      (length (answers s) ≤ reads_sent (client s) ≤ length (answers s) + 1)%nat ∧
      (length (acks s) ≤ length (given s) ≤ length (acks s) + 1)%nat
  | Panic r =>
      r = PAssert ∧ (AnswerRead read_error ∈ steps ∨ AnswerWrite write_error ∈ steps) ∨
      r = PUnwrap ∧ (AnswerRead no_answer ∈ steps ∨ AnswerWrite no_answer ∈ steps ∨ ∃ n, fst (emission n) ≠ 0)
  | NoFuel => False
  end.
Proof.
  intros Hinv Hmail.
  pose proof (session_run_ok waker steps (opened_session h p) Waits Waits steps (opened_session_ok h p Hinv Hmail)) as Hrun.
  ospecialize (Hrun _ _ _); [by intros a Ha%elem_of_nil|by intros a Ha%elem_of_nil|done|].
  destruct (session_run _ _ _) as [s|r|]; [|done..].
  destruct Hrun as (ra & wa & [K1 K2 K3 K4 K5 K6 K7 K8 K9 K10 K11]). split_and!; [|done|..].
  - fold (all_bytes s). destruct ra; [rewrite <- K7|destruct K7 as (a & _ & _ & <-)|destruct K7 as [_ <-]]; by apply prefix_app_r.
  - rewrite K8. unfold in_flight. destruct (pending_read _), ra; lia.
  - rewrite K8. unfold in_flight. destruct (pending_read _), ra; lia.
  - rewrite K11. unfold in_flight. destruct (pending_write _), wa; lia.
  - rewrite K11. unfold in_flight. destruct (pending_write _), wa; lia.
Qed.

(** An answer without bytes, with which the hosted kernel reports the end of
    the stream, is not reported to the program: the stream sends another
    read. *)
Lemma empty_read_asks_again waker len s wa : accepted (client s) →
  sess_ok s (Answered (inr (encode_read_response {| trr_result := inr [] |}))) wa →
  ∃ s', session_step waker s (PollRead len) = Done s' ∧ got s' = got s ∧ is_Some (pending_read (stream s')) ∧
    emitted (client s') = emitted (client s) ++ [Tcp_Read (handle (stream s))].
Proof.
  intros Hacc Hs. destruct (take_answer_ok waker len s _ wa Hs) as (c1 & Hrun & Hem & Hs1).
  assert (Hacc1 : accepted c1) by (unfold accepted; by rewrite Hem).
  destruct (ask_ok waker 0 len (with_client c1 (with_read [] None (stream s)) s) wa Hacc1 Hs1 eq_refl eq_refl) as (str' & c' & Hask & Hem' & Hp & _).
  cbn [stream client with_client handle with_read] in *. exists (after_read s None str' c'). split; [|split; [by cbn; rewrite app_nil_r|split; [done|by rewrite <- Hem]]].
  unfold session_step. rewrite Hrun. unfold read_rest. erewrite bind_run by done.
  rewrite bool_decide_false by (intros Hne; by apply Hne). erewrite bind_run by (by apply emit_tcp_run). cbn [read_buffer with_read handle]. change (with_read [] ?f (with_read [] None ?x)) with (with_read [] f x) in *. by rewrite Hask.
Qed.

(** After an answer that is an error, the future of the answer has ended and
    remains the pending read: polling the stream again panics. *)
Lemma error_read_panics waker len s f ix : pending_read (stream s) = Some f → rf_finished f = false →
  pending_messages (program (client s)) !! rf_msg_id f =
    Some {| dr_message_id := rf_msg_id f; dr_index_in_list := ix; dr_actual_data := inr (encode_read_response {| trr_result := inl tt |}) |} →
  ∃ str c, poll_read 2 waker len (stream s) (client s) = Done ((Some (inl tt), str), c) ∧
    poll_read 2 waker len str c = Panic PAssert.
Proof.
  intros Hp Hfin Hmail. rewrite (poll_read_some _ _ _ _ f) by done.
  assert (Hpoll : ∃ f' p', response_poll decode_read_response waker f (program (client s)) = Done ((Some {| trr_result := inl tt |}, f'), p') ∧
    rf_finished f' = true).
  { eexists _, _. split; [|shelve]. unfold response_poll. rewrite Hfin. erewrite bind_run by done.
    erewrite bind_run by (unfold peek_response, mbind, M_bind, get, put; by rewrite Hmail). rewrite ?Hmail. cbv beta iota.
    erewrite bind_run by done. erewrite bind_run by (unfold liftM; rewrite read_response_roundtrip; done). done. Unshelve. done. }
  destruct Hpoll as (f' & p' & Hrun & Hf'). erewrite bind_run by (apply on_program_run; exact Hrun).
  eexists _, _. split; [done|]. rewrite (poll_read_some _ _ _ _ f') by done. apply bind_panics. unfold on_program, zoom.
  unfold response_poll. rewrite Hf'. by erewrite bind_panics.
Qed.

End session.

(** * Opening *)

(** The address that the hosted kernel connects to, or listens on, when a
    program asks for an address: the same one, unless it is an IPv6 address that
    it takes for an IPv4 one. *)
Definition taken_for_v4 (addr : SocketAddr) : Prop :=
  match addr with
  | AddrV6 [0; 0; 0; 0; 0; f; _; _] _ => f = 0 ∨ f = 0xffff
  | _ => False
  end.

Lemma open_address addr listen : ¬ taken_for_v4 addr → socket_addr_of (open_message addr listen) = addr.
Proof.
  destruct addr as [high low port|ip port]; [done|]. unfold socket_addr_of, taken_for_v4. cbn [open_ip open_port open_message].
  intros Hn. do 5 (destruct ip as [|[] ip]; try done). destruct ip as [|f [|g [|h [|]]]]; try done.
  rewrite !bool_decide_false by tauto. done.
Qed.

(** The loopback address of IPv6 is one of these. *)
Lemma loopback_taken_for_v4 port listen :
  socket_addr_of (open_message (AddrV6 [0; 0; 0; 0; 0; 0; 0; 1] port) listen) = AddrV4 0 1 port.
Proof. done. Qed.

(** * Accepting *)

(** A listener that waits with [n] futures for a connection, [errors] of
    which end with an error first: each error loses one of them; [accept] gives
    the first connection and one new future replaces it, and it panics once they
    are all lost, since nothing replaces those that failed. *)
Theorem accept_ok (n errors : nat) (v : TcpStream * SocketAddr) (ends : list (unit + TcpStream * SocketAddr)) :
  accept n (replicate errors (inl tt) ++ inr v :: ends) =
    if bool_decide (errors < n)%nat then Done (v, (n - errors)%nat, ends) else Panic PUnreachable.
Proof.
  revert n. induction errors as [|errors IH]; intros [|n]; try done; cbn [replicate app accept]; rewrite ?bool_decide_true by lia; try done.
  rewrite IH. by rewrite (bool_decide_ext (errors < n)%nat (S errors < S n)%nat) by lia.
Qed.
