(* ===== verification/ScenariosX86.v ===== *)
(** A concrete machine, and the theorems on the x86_64 part of the standalone
    kernel and on the screen, applied to concrete inputs. *)
From S2P Require Import Prelude WasmValue Ffi Calls.
From S2P Require Import X86 X86Inv Executor X86Timers Boot Video VideoSpec.

(** The processor 0, whose time-stamp counter counts the accesses. *)
#[global] Instance toy_machine : Machine := {|
  mmio_read := λ _ _, 0;
  rdmsr := λ _ _, 0;
  rdtsc_at := λ tr, Z.min u64_max (Z.of_nat (length tr));
  cpuid1_edx := 0;
  cpuid1_ecx := 0;
|}.

#[global] Instance toy_machine_laws : MachineLaws.
Proof. split; intros; unfold rdtsc_at, toy_machine, u32_max, u64_max; simpl; lia. Qed.

Lemma toy_apic_id : apic_id_is 0.
Proof. intros tr. reflexivity. Qed.

(** * Interrupts *)

Lemma interrupt_delivery_ok_witness : ∃ s1 s2,
  for_each irq_step [OpRegister 3 7; OpRegister 4 8] x86_init = Done (tt, s1) ∧
  irq_step (OpInterrupt 3) s1 = Done (tt, s2) ∧ woken s2 = woken s1 ++ [7%nat].
Proof.
  destruct (interrupt_delivery_ok x86_init [OpRegister 3 7; OpRegister 4 8] 3) as (s1 & s2 & H1 & H2 & Hw & _).
  - apply x86_init_wf.
  - repeat constructor; simpl; lia.
  - lia.
  - by exists s1, s2.
Defined.

(** An I/O APIC of 24 entries. *)
Definition toy_io_apics : IoApicsControl :=
  {| io_apics := [{| io_reg_sel_register := 0xfec00000; io_win_register := 0xfec00010;
                     global_system_interrupt_base := 0; maximum_redirection_entry := 23 |}];
     legacy_redirects := [] |}.

Lemma set_destination_ok_witness : ∃ x tr,
  apics_irq toy_io_apics 2 = Some x ∧
  set_destination x 1 40 x86_init = Done (tt, with_trace tr false x86_init) ∧
  redirection (io_regs (fst x) tr) 2 = Some (1, 40).
Proof.
  eexists. destruct (set_destination_ok toy_io_apics 2
    ({| io_reg_sel_register := 0xfec00000; io_win_register := 0xfec00010;
        global_system_interrupt_base := 0; maximum_redirection_entry := 23 |}, 2) 1 40 x86_init) as (tr & H1 & H2 & _).
  - split; [apply Forall_singleton; unfold io_wf; simpl; unfold u8_max; lia|].
    intros [|i] [|j] c c' Hi Hj Hne; simpl in *; by simplify_eq.
  - reflexivity.
  - simpl. lia.
  - lia.
  - unfold u8_max. lia.
  - by exists tr.
Defined.

Lemma pit_timer_ok_witness : ∃ f, pit_timer 32 1000000 = Done f ∧ ∃ f' s', pit_drive 5 f 1 x86_init = Done ((true, f'), s').
Proof.
  destruct (pit_timer_ok 0 5 1000000 x86_init) as (f & counts & Hf & Hc & Hs & Hk).
  - apply x86_init_wf.
  - lia.
  - lia.
  - exists f. split; [done|]. vm_compute in Hf. injection Hf as <-. by eexists _, _.
Defined.

(** * The executor *)

(** A wake-up from another processor, between the poll and the sleep. *)
Definition woken_late : Exec :=
  {| pc := PcHlt; need_ipi := false; woken_up := true; interrupt_flag := false; ipi_pending := true;
     remote := []; local := []; polls := 1 |}.

Lemma woken_late_reachable : reachable woken_late.
Proof.
  unfold reachable.
  do 4 (eapply rtc_l; [by apply Step_cpu|]; simpl).
  eapply rtc_l; [apply Step_start|].
  do 3 (eapply rtc_l; [by eapply (Step_remote _ [])|]; simpl).
  apply rtc_refl.
Qed.

Lemma no_lost_wakeup_witness : ∃ n, (n ≤ 7)%nat ∧ polls (Nat.iter n cpu_run woken_late) = 2%nat.
Proof.
  destruct (no_lost_wakeup woken_late woken_late_reachable) as (_ & n & Hn & Hp & _); [done..|]. by exists n.
Defined.

(** * Timers *)

Definition toy_timers : TimersConfig :=
  {| tc_local_apics := {| tsc_deadline_supported := true |}; tc_interrupt_vector := 32;
     monotonic_clock_zero := 0; rdtsc_ticks_per_sec := 2000000000 |}.

Definition no_timer : Timers := {| timer_list := []; timer_x86 := x86_init |}.

Lemma timer_poll_ok_witness : ∃ ready this' t',
  timer_poll toy_timers 5 {| tsc_value := 100; in_timers_list := false |} no_timer = Done ((ready, this'), t') ∧
  timer_list t' = [(100, 5%nat)].
Proof.
  destruct (timer_poll_ok toy_timers 0 ltac:(lia) eq_refl 5 {| tsc_value := 100; in_timers_list := false |} no_timer)
    as (ready & this' & t' & Ht & Hp).
  - vm_compute. done.
  - split; [apply x86_init_wf|]. constructor.
  - intros _ _. by left.
  - repeat constructor.
  - exists ready, this', t'. split; [done|]. vm_compute in Ht. by injection Ht as <- <- <-.
Defined.

Lemma timer_poll_late_witness : ∃ this' t',
  timer_poll toy_timers 6 {| tsc_value := 200; in_timers_list := false |}
    {| timer_list := [(100, 5%nat)]; timer_x86 := x86_init |} = Done ((false, this'), t') ∧
  timer_list t' = [(200, 6%nat); (100, 5%nat)].
Proof.
  destruct (timer_poll_late toy_timers 0 ltac:(lia) eq_refl 6 {| tsc_value := 200; in_timers_list := false |}
    {| timer_list := [(100, 5%nat)]; timer_x86 := x86_init |} (100, 5%nat)) as (this' & t' & Ht & Hl & _).
  - vm_compute. done.
  - split; [apply x86_init_wf|]. unfold ascending. simpl. repeat constructor.
  - done.
  - by left.
  - by left.
  - repeat constructor.
  - by exists this', t'.
Defined.

(** The same processor without the TSC-deadline mode. *)
Definition oneshot_timers : TimersConfig :=
  {| tc_local_apics := {| tsc_deadline_supported := false |}; tc_interrupt_vector := 32;
     monotonic_clock_zero := 0; rdtsc_ticks_per_sec := 2000000000 |}.

Example oneshot_poll : ∃ t',
  timer_poll oneshot_timers 5 {| tsc_value := 1000; in_timers_list := false |} no_timer =
    Done ((false, {| tsc_value := 1000; in_timers_list := true |}), t') ∧ count (timer_x86 t') = Some 8.
Proof. eexists. split; vm_compute; reflexivity. Qed.

(** Five minutes are beyond the reach of the count. *)
Lemma timer_poll_unarmed_witness : ∃ this' t',
  timer_poll oneshot_timers 5 {| tsc_value := 600000000000; in_timers_list := false |} no_timer = Done ((false, this'), t') ∧
  cpu_trace (timer_x86 t') = [RdTsc].
Proof.
  destruct (timer_poll_unarmed oneshot_timers 0 ltac:(lia) eq_refl 5 {| tsc_value := 600000000000; in_timers_list := false |} no_timer)
    as (this' & t' & Ht & _ & Htr).
  - vm_compute. done.
  - vm_compute. done.
  - apply x86_init_wf.
  - done.
  - done.
  - done.
  - vm_compute. done.
  - by exists this', t'.
Defined.

(** * Booting *)

(** 128 MiB of memory, a kernel of 8 MiB at 1 MiB. *)
Definition toy_boot : BootInformation :=
  {| memory_areas := [(0, 0xa0000); (0x100000, 0x8000000)]; elf_sections := [(0x100000, 0x900000)];
     mb_start_address := 0x900000; mb_end_address := 0x901000 |}.

Lemma toy_apart : apart (memory_areas toy_boot).
Proof.
  intros [|[|i]] [|[|j]] a b x Ha Hb Hne Hx Hy; simpl in *; simplify_eq; unfold in_range in *; simpl in *; lia || done.
Qed.

Lemma boot_memory_ok_witness : ∃ heap ap, boot_memory toy_boot = Done (heap, ap) ∧ ap + WANTED ≤ 0x100000.
Proof.
  destruct (boot_memory_ok toy_boot) as (heap & ap & Hb & _ & _ & Hap).
  - split; [apply Forall_singleton|]; vm_compute; done.
  - apply toy_apart.
  - repeat constructor; (eexists; split; [vm_compute; reflexivity|vm_compute; done]).
  - left. eexists. split; [vm_compute; reflexivity|]. vm_compute. done.
  - by exists heap, ap.
Defined.

(** A template made of the three instructions, and a processor that answers
    once the first one has made 30 accesses; whenever the latter halts, it takes
    the interrupt of the timers. *)
Definition toy_template : Template :=
  {| ap_boot_code := placeholder3 ++ placeholder1 ++ placeholder2; marker1 := 6; marker2 := 13; marker3 := 0 |}.

#[global] Instance toy_ap_boot : ApBoot := {|
  ap_alloc := λ region size align,
    if bool_decide (region = 0x1000 ∧ align = 0x1000 ∧ size ≤ WANTED) then Some 0x1000 else None;
  alloc_stack := λ _, Some 0x2000000;
  boxed_boot_code := 0x1234000;
  cr3 := 0x5000;
  ap_started := λ tr, bool_decide (30 ≤ length tr)%nat;
  taken_interrupts := λ _, [[0%nat]];
|}.

#[global] Instance toy_ap_boot_laws : ApBootLaws.
Proof.
  split.
  - intros region size align p. simpl. case_bool_decide as Ha; [|done]. destruct Ha as (-> & -> & Hs).
    intros [= <-]. unfold WANTED in *. split; [lia|]. split; [lia|done].
  - intros tr. repeat constructor.
Qed.

(** A counter of 200 ticks a second, which counts the accesses. *)
Definition slow_timers : TimersConfig :=
  {| tc_local_apics := {| tsc_deadline_supported := true |}; tc_interrupt_vector := 32;
     monotonic_clock_zero := 0; rdtsc_ticks_per_sec := 200 |}.

Definition booting (accesses : nat) : Timers :=
  {| timer_list := []; timer_x86 := with_trace (replicate accesses RdTsc) true x86_init |}.

Lemma slow_reached : reached 200 (timer_x86 (booting 0)) 250.
Proof. intros tr _ Hlen. unfold booting, x86_init in Hlen. simpl in *. unfold u64_max. lia. Qed.

(** The processor answers at the first attempt. *)
Lemma boot_associated_processor_ok_witness : ∃ code s',
  boot_associated_processor 250 slow_timers id 0x1000 1 toy_template (booting 0) = Done ((inr tt, code), s').
Proof.
  destruct (boot_associated_processor_ok slow_timers 0 0 1 id 250 toy_template [] [] [] [] 0x1000 0x2000000 (booting 0) 0x1000)
    as (n & result & s0 & s' & page & Hb & _).
  - lia.
  - reflexivity.
  - vm_compute. done.
  - apply toy_apic_id.
  - lia.
  - vm_compute. done.
  - done.
  - lia.
  - unfold WANTED. lia.
  - vm_compute. done.
  - vm_compute. lia.
  - vm_compute. done.
  - done.
  - lia.
  - unfold usize_max, u64_max. lia.
  - vm_compute. done.
  - done.
  - done.
  - lia.
  - apply slow_reached.
  - destruct result as [[]|[]]; [|by eexists _, _]. exfalso. vm_compute in Hb. discriminate Hb.
Defined.

(** When the machine has been up for more than one second, the same processor
    is not waited for. *)
Example boot_late : ∃ code s',
  boot_associated_processor 1 slow_timers id 0x1000 1 toy_template (booting 200) = Done ((inl Timeout, code), s').
Proof. eexists _, _. vm_compute. reflexivity. Qed.

(** * The screen *)

#[global] Instance toy_font : Font := {| FONT_DATA := replicate 64 0 |}.

(** The text mode: 80 columns, 25 rows. *)
Definition vga : FramebufferInfo :=
  {| address := 0xb8000; width := 80; height := 25; pitch := 160; bytes_per_character := 2; format := Text |}.

Lemma vga_ok : fb_ok vga.
Proof.
  split; unfold vga, bpp, u32_max, u64_max; simpl; try lia. by exists 25.
Qed.

Lemma terminal_write_ok_witness : ∃ t' m',
  terminal_write (255, 255, 255) [104; 105; 10] (Terminal_new vga, λ _, 0) = Done (tt, (t', m')) ∧ term_inv vga t'.
Proof.
  destruct (terminal_write_ok vga vga_ok (Terminal_new vga) (λ _, 0) (255, 255, 255) [104; 105; 10])
    as (t' & m' & Ht & Hinv & _).
  - unfold term_inv. simpl. split_and!; try done; try lia. by exists 0.
  - repeat constructor; lia.
  - by exists t', m'.
Defined.

Lemma klog_refines_witness : ∃ t m',
  for_each (λ msg, klog_write_str (fst msg) (snd msg)) [((255, 255, 255), [104; 105; 10])]
    (KLogger_new {| enabled := true; framebuffer := Some vga; uart := None |}, λ _, 0) =
    Done (tt, (Enabled (Some t), m')).
Proof.
  destruct (klog_refines vga vga_ok eq_refl (λ _, 0) [((255, 255, 255), [104; 105; 10])]) as (t & m' & Hf & _).
  - done.
  - repeat constructor; simpl; lia.
  - by exists t, m'.
Defined.
