(* ===== verification/ScenariosArm.v ===== *)
(** Concrete runs of the ARM platform ([Arm.v]) and of the messages of the
    Raspberry Pi ([Rpi.v]), and the theorems of [ArmInv.v] and [RpiInv.v]
    applied to them. *)
From S2P Require Import Prelude Arm ArmInv Rpi RpiInv.

(** Two timers, the second one for an earlier deadline, which is then polled
    again, over; and dropped. *)
Definition arm_ops : list Op :=
  [OpTimer 0 5000000000; OpTimer 1 2000000000; OpPoll 0 7 10; OpPoll 1 8 11; OpPoll 1 9 12; OpPoll 0 11000000000 13; OpDrop 1].

Example arm_ops_run : (λ w, (cntp_ctl (control w), cntp_cval (control w), timers (control w), polls w !! 0%nat)) <$> world_run (world_init 7 0) arm_ops =
  Done (1, 10737418240, [{| timer_id := 1; timer_counter_value := 10737418240; timer_waker := Some 10%nat |}], Some (true, 11000000000, 13%nat)).
Proof. vm_compute. reflexivity. Qed.

Lemma arm_timers_ok_witness : Forall op_ok arm_ops ∧
  ∃ w, world_run (world_init 7 0) arm_ops = Done w ∧ polls_ok w ∧ world_ok w ∧ earliest w.
Proof.
  assert (Hops : Forall op_ok arm_ops) by (repeat constructor; done). split; [exact Hops|].
  pose proof (arm_timers_ok 7 0 arm_ops Hops eq_refl) as Hok. pose proof arm_ops_run as Hrun.
  destruct (world_run (world_init 7 0) arm_ops) as [w|r|]; [by exists w|discriminate Hrun|done].
Defined.

(** A deadline that cannot be converted. *)
Example arm_overflow : world_run (world_init 7 0) [OpPoll 3 0 1; OpTimer 0 u128_max] = Panic POverflow.
Proof. reflexivity. Qed.

Lemma arm_clock_ok_witness : ∃ f now, timer 1000 = Done f ∧ monotonic_clock 2148 = Done now ∧
  if bool_decide (fut_value f ≤ 2148) then 1000 - 1 ≤ now else now < 1000.
Proof. by apply (arm_clock_ok 1000 2148). Defined.

(** The task is woken between the check of the flag and [wfe]. *)
Definition arm_race : list Happening := [Cpu false; Cpu false; Store; Sev].

Lemma arm_no_lost_wakeup_witness : let s := foldl happen exec_init arm_race in
  pc s = PcWfe ∧ ∃ n, (n ≤ 3)%nat ∧ pc (cpu_steps n s) = PcPoll ∧ (pc s ≠ PcPoll → woken_up (cpu_steps n s) = false).
Proof. split; [done|]. by apply (arm_no_lost_wakeup arm_race). Defined.

(** A message with a value of five bytes and an empty one. *)
Definition rpi_tags : list (Z * list Z) := [(0x48003, [128; 2; 0; 0; 1]); (0, [])].

Example rpi_tags_run : with_tags rpi_tags PropertyMessageBuilder_new ≫= tags =
  Done [[0x48003; 5; 0; 640; 1; 0; 0; 0; 0; 0; 0]; [0; 0; 0]].
Proof. reflexivity. Qed.

(** Two values of a word make a message of 16 words, which the parser accepts
    as an answer. *)
Definition rpi_depth : list (Z * list Z) := [(0x48005, [24; 0; 0; 0]); (0x40001, [16; 0])].

Lemma property_tags_ok_witness : ∃ buffer words,
  with_tags rpi_depth PropertyMessageBuilder_new = Done buffer ∧ are_tags rpi_depth words ∧
  from_buffer buffer = Panic PAssert ∧
  from_buffer (with_header 16 0x80000000 buffer) = Done (Some (with_header 16 0x80000000 buffer)) ∧
  tags (with_header 16 0x80000000 buffer) = Done words.
Proof.
  destruct (property_tags_ok rpi_depth) as (buffer & words & Hrun & Hlen & Hraw & Hwords & Hparse);
    [repeat constructor; done|done|].
  exists buffer, words. destruct (Hparse 16 0x80000000) as [Hfrom Htags]. split_and!; try done.
  rewrite Hfrom, Hlen. reflexivity.
Defined.

Lemma mailbox_message_ok_witness : ∃ m, Message_new 8 0x123 = Done m ∧ 0 ≤ m ≤ u32_max ∧ Message_channel m = Done 8 ∧ Message_data m = 0x123.
Proof. by apply (mailbox_message_ok 8 0x123). Defined.
