(* ===== verification/ScenariosDrivers.v ===== *)
(** A concrete network card, and the theorems on the drivers applied to it. *)
From S2P Require Import Prelude Messages Hardware Drivers Pci Ne2000 Ne2000Spec.

(** * A codec

    A message is the bits of its code, a byte per bit. *)
Fixpoint bits_of (p : positive) : bytes :=
  match p with
  | xH => []
  | xO p => Init.Byte.x00 :: bits_of p
  | xI p => Init.Byte.x01 :: bits_of p
  end.
Fixpoint of_bits (bs : bytes) : option positive :=
  match bs with
  | [] => Some xH
  | Init.Byte.x00 :: bs => xO <$> of_bits bs
  | Init.Byte.x01 :: bs => xI <$> of_bits bs
  | _ => None
  end.

Lemma of_bits_of p : of_bits (bits_of p) = Some p.
Proof. induction p as [p IH|p IH|]; simpl; by rewrite ?IH. Qed.

Definition op_code (op : Operation) : Z * Z * Z * Z * list Z :=
  match op with
  | PhysicalMemoryMemset a len v => (0, a, len, v, [])
  | PhysicalMemoryWriteU8 a data => (1, a, 0, 0, data)
  | PhysicalMemoryWriteU16 a data => (2, a, 0, 0, data)
  | PhysicalMemoryWriteU32 a data => (3, a, 0, 0, data)
  | PhysicalMemoryReadU8 a len => (4, a, len, 0, [])
  | PhysicalMemoryReadU16 a len => (5, a, len, 0, [])
  | PhysicalMemoryReadU32 a len => (6, a, len, 0, [])
  | PortWriteU8 p v => (7, p, v, 0, [])
  | PortWriteU16 p v => (8, p, v, 0, [])
  | PortWriteU32 p v => (9, p, v, 0, [])
  | PortReadU8 p => (10, p, 0, 0, [])
  | PortReadU16 p => (11, p, 0, 0, [])
  | PortReadU32 p => (12, p, 0, 0, [])
  end.
Definition op_of_code (c : Z * Z * Z * Z * list Z) : option Operation :=
  match c with
  | (0, a, len, v, _) => Some (PhysicalMemoryMemset a len v)
  | (1, a, _, _, data) => Some (PhysicalMemoryWriteU8 a data)
  | (2, a, _, _, data) => Some (PhysicalMemoryWriteU16 a data)
  | (3, a, _, _, data) => Some (PhysicalMemoryWriteU32 a data)
  | (4, a, len, _, _) => Some (PhysicalMemoryReadU8 a len)
  | (5, a, len, _, _) => Some (PhysicalMemoryReadU16 a len)
  | (6, a, len, _, _) => Some (PhysicalMemoryReadU32 a len)
  | (7, p, v, _, _) => Some (PortWriteU8 p v)
  | (8, p, v, _, _) => Some (PortWriteU16 p v)
  | (9, p, v, _, _) => Some (PortWriteU32 p v)
  | (10, p, _, _, _) => Some (PortReadU8 p)
  | (11, p, _, _, _) => Some (PortReadU16 p)
  | (12, p, _, _, _) => Some (PortReadU32 p)
  | _ => None
  end.

Definition resp_code (r : HardwareAccessResponse) : Z * Z * list Z :=
  match r with
  | Resp_PhysicalMemoryReadU8 data => (0, 0, data)
  | Resp_PhysicalMemoryReadU16 data => (1, 0, data)
  | Resp_PhysicalMemoryReadU32 data => (2, 0, data)
  | Resp_PortReadU8 v => (3, v, [])
  | Resp_PortReadU16 v => (4, v, [])
  | Resp_PortReadU32 v => (5, v, [])
  end.
Definition resp_of_code (c : Z * Z * list Z) : option HardwareAccessResponse :=
  match c with
  | (0, _, data) => Some (Resp_PhysicalMemoryReadU8 data)
  | (1, _, data) => Some (Resp_PhysicalMemoryReadU16 data)
  | (2, _, data) => Some (Resp_PhysicalMemoryReadU32 data)
  | (3, v, _) => Some (Resp_PortReadU8 v)
  | (4, v, _) => Some (Resp_PortReadU16 v)
  | (5, v, _) => Some (Resp_PortReadU32 v)
  | _ => None
  end.

Lemma op_of_op_code op : op_of_code (op_code op) = Some op.
Proof. by destruct op. Qed.
Lemma resp_of_resp_code r : resp_of_code (resp_code r) = Some r.
Proof. by destruct r. Qed.

Lemma mapM_codes {A B} (f : A → B) (g : B → option A) l : (∀ x, g (f x) = Some x) → mapM g (f <$> l) = Some l.
Proof. intros Hgf. apply mapM_Some_2, Forall2_fmap_l, Forall_Forall2_diag, Forall_forall. intros x _. apply Hgf. Qed.

#[local] Instance bits_codec : ScaleHandlers := {|
  encode_interface_message := λ '(Interface.Register h), h;
  decode_hardware := λ bs, code ← of_bits bs; codes ← decode code; HardwareAccess <$> mapM op_of_code codes;
  encode_access_responses := λ rs, bits_of (encode (resp_code <$> rs));
  encode_u64 := le_split 8;
  encode_u128 := le_split 16;
  encode_unit := [];
  decode_time := λ _, None;
  decode_system_time := λ _, None;
  decode_random := λ _, None;
  encode_generate_response := λ _, [];
|}.

#[local] Instance bits_drivers : ScaleDrivers := {|
  encode_hardware := λ m, match m with HardwareAccess ops => bits_of (encode (op_code <$> ops)) | _ => [] end;
  decode_access_responses := λ bs, code ← of_bits bs; codes ← decode code; mapM resp_of_code codes;
|}.

#[local] Instance bits_laws : ScaleDriversLaws.
Proof.
  split.
  - intros ops _. cbn. rewrite of_bits_of. cbn. rewrite decode_encode. cbn. by rewrite (mapM_codes _ _ _ op_of_op_code).
  - intros rs. cbn. rewrite of_bits_of. cbn. rewrite decode_encode. cbn. apply (mapM_codes _ _ _ resp_of_resp_code).
Qed.

(** * A network card *)

Definition card_base : Z := 0x300.

(** At its first page the card has received a packet of three bytes, and the
    next one will be at the page 0x4d. *)
Definition card_ram (x : Z) : Z :=
  if bool_decide (x = 0x4c00) then 1 else
  if bool_decide (x = 0x4c01) then 0x4d else
  if bool_decide (x = 0x4c02) then 3 else
  if bool_decide (0x4c04 ≤ x < 0x4c07) then x - 0x4c00 else
  if bool_decide (0 ≤ x < 32) then x / 2 else 0.

Definition card_power_on : Chip := {| cr := 0x21; rsar := 0; tpsr := 0; tbcr := 0; ram := card_ram; wire := [] |}.

(** The other registers read as 0x80: the reset is over. *)
#[local] Instance card_platform : Platform := {|
  read_volatile := λ _ _ _, 0;
  read_port := λ tr w p,
    let c := chip card_base card_power_on tr in
    if bool_decide (p = card_base + 16) && Z.testbit (cr c) 3 then Some (ram c (rsar c)) else Some 0x80;
  monotonic_clock := λ _, 0;
  with_capacity := λ _ _, None;
|}.

#[local] Instance card_data_port : DataPort card_base card_power_on.
Proof. split. intros tr Hb. cbn [read_port card_platform]. by rewrite Hb, bool_decide_true by done. Qed.

Lemma card_port_ok : port_ok card_base.
Proof. unfold port_ok, card_base, u32_max. lia. Qed.

(** Three accesses to ports; and, on a card whose allocator always fails, a
    read of its memory. *)
Lemma driver_send_ok_witness :
  ob_send_within 3 (foldl do_call HardwareOperationsBuilder_new [CallPortReadU8 0x307; CallPortWriteU8 0x300 0x21; CallDiscardU8 0x307]) [] =
    Done ([Value 0x80; Untouched], [PortRead 1 0x307; PortWrite 1 0x300 0x21; PortRead 1 0x307]) ∧
  ob_send_within 3 (foldl do_call HardwareOperationsBuilder_new [CallPortWriteU8 0x300 0x21]) [] = NoFuel ∧
  ob_send_within 3 (foldl do_call HardwareOperationsBuilder_new [CallRead 0x1000 16]) [] = Panic PExplicit.
Proof.
  split_and!.
  - rewrite (driver_send_ok 3 [CallPortReadU8 0x307; CallPortWriteU8 0x300 0x21; CallDiscardU8 0x307] []); [reflexivity|lia|by repeat constructor].
  - rewrite (driver_send_ok 3 [CallPortWriteU8 0x300 0x21] []); [reflexivity|lia|by repeat constructor].
  - rewrite (driver_send_ok 3 [CallRead 0x1000 16] []); [reflexivity|lia|]. by repeat constructor.
Defined.

Definition card_device : Device :=
  {| base_port := card_base; transmitting := None; next_write_page := 0x40; pending_transmit := []; pending_packet := None;
     next_to_read := 0x4c; mac_address := [0; 1; 2; 3; 4; 5] |}.

Lemma card_newly_reset : newly_reset card_device.
Proof. by split. Qed.

(** Two packets: the first one is on the wire, the second one in the memory. *)
Lemma ne2000_fifo_witness : ∃ s',
  send_all [[1; 2]; [3]] {| device := card_device; ne_hw := [] |} = Done ([true; true], s') ∧
  accepted card_power_on s' = [[1; 2]; [3]] ∧ wire (card card_power_on s') = [[1; 2]].
Proof.
  apply (ne2000_fifo card_power_on [[1; 2]; [3]] {| device := card_device; ne_hw := [] |}).
  - apply card_newly_reset.
  - done.
  - repeat constructor; simpl; lia.
Defined.

Lemma card_bytes x : 0 ≤ card_ram x < 256.
Proof.
  unfold card_ram. repeat case_bool_decide; try lia. split; [apply Z.div_pos; lia|apply Z.div_lt_upper_bound; lia].
Qed.

Lemma read_incoming_ok_witness : ∃ tr',
  read_one_incoming {| device := card_device; ne_hw := [] |} =
    Done (Some [4; 5; 6], {| device := with_next 0x4d card_device; ne_hw := tr' |}) ∧
  last tr' = Some (PortWrite 1 0x303 0x4c).
Proof.
  destruct (read_incoming_ok card_base card_power_on {| device := card_device; ne_hw := [] |} eq_refl card_port_ok)
    as (tr' & Hrun & _ & Hn); [simpl; lia|apply card_bytes|].
  exists tr'. split; [exact Hrun|]. by destruct (Hn [4; 5; 6] 0x4d eq_refl) as [_ ->].
Defined.

Lemma reset_ok_witness : ∃ d tr', reset 1 card_base [] = Done (d, tr') ∧ mac_address d = [0; 1; 2; 3; 4; 5].
Proof.
  destruct (reset_ok card_base card_power_on 1 0 [] card_port_ok) as (d & tr' & Hrun & _ & _ & _ & Hmac & _); [lia|done|].
  exists d, tr'. split; [exact Hrun|]. rewrite Hmac. reflexivity.
Defined.

(** * A PCI bus *)

(** A single device: a ne2000 whose registers are at the port 0xc000. *)
Definition bus_cfg (bus slot func offset : Z) : Z :=
  if bool_decide (bus = 0 ∧ slot = 3 ∧ func = 0) then
    (if bool_decide (offset = 0) then 0x802910ec else if bool_decide (offset = 0x10) then 0xc001 else 0)
  else 0xffffffff.

Definition bus_platform : Platform := {|
  read_volatile := λ _ _ _, 0;
  read_port := λ tr w p,
    match last tr with
    | Some (PortWrite 4 0xcf8 a) => Some (bus_cfg (a / 2 ^ 16 mod 2 ^ 8) (a / 2 ^ 11 mod 2 ^ 5) (a / 2 ^ 8 mod 2 ^ 3) (a mod 2 ^ 8))
    | _ => None
    end;
  monotonic_clock := λ _, 0;
  with_capacity := λ _ _, None;
|}.

Lemma bus_config_space : @ConfigSpace bus_platform bus_cfg.
Proof.
  split.
  - intros tr bus slot func offset Hb Hs Hf Ho. cbn [read_port bus_platform]. rewrite last_snoc.
    assert (Hfields : ∀ a, a = 2 ^ 31 + bus * 2 ^ 16 + slot * 2 ^ 11 + func * 2 ^ 8 + offset →
      a / 2 ^ 16 mod 2 ^ 8 = bus ∧ a / 2 ^ 11 mod 2 ^ 5 = slot ∧ a / 2 ^ 8 mod 2 ^ 3 = func ∧ a mod 2 ^ 8 = offset).
    { intros a ->. Z.div_mod_to_equations. lia. }
    destruct (Hfields _ eq_refl) as (-> & -> & -> & ->). done.
  - intros. unfold bus_cfg. repeat case_bool_decide; lia.
Qed.

Lemma pci_devices_ok_witness : ∃ tr',
  @read_pci_devices bus_platform _ _ [] =
    Done ([{| vendor_id := 0x10ec; device_id := 0x8029;
              base_address_registers := [Io 0xc000; Memory 0 false; Memory 0 false; Memory 0 false; Memory 0 false; Memory 0 false] |}], tr').
Proof.
  destruct (@pci_devices_ok bus_platform bus_cfg bus_config_space _ _ _ []) as (tr' & Hrun & _).
  exists tr'. exact Hrun.
Defined.
