(* ===== verification/ScenariosSyscalls.v ===== *)
(** Concrete programs, and the theorems on the program side of the system calls
    applied to them. *)
From S2P Require Import Prelude WasmValue Ffi Calls Syscalls SyscallsInv.

(** Keys in the order of the insertions. *)
#[global] Instance toy_slab : SlabKeys := {| vacant_key := λ _ m, base.fresh (dom m) |}.
#[global] Instance toy_slab_laws : SlabKeysLaws.
Proof. split. intros n m. apply not_elem_of_dom. apply is_fresh. Qed.

(** A message for an interface, and then the response to the message 7. *)
Definition toy_program : Program :=
  {| message_ids := []; wakers := ∅; inserts := 0; pending_messages := ∅; interface_messages_queue := [];
     woken_up := false;
     kernel := {| queue := [build_note (NoteDestroyed 3) 0]; arrivals := [build_note (NoteResponse 7 (inr [byte_of_Z 1])) 0] |};
     cancelled := [] |}.

Lemma toy_notes : notes_ok toy_program ([NoteDestroyed 3] ++ [NoteResponse 7 (inr [byte_of_Z 1])]).
Proof. split; repeat constructor; simpl; unfold is_u64; try lia. by apply not_elem_of_nil. Qed.

Lemma block_on_response_ok_witness : ∃ p',
  block_on (response_poll Some 0) response_drop 5 (Syscalls.message_response 7) toy_program = Done ([byte_of_Z 1], p').
Proof.
  destruct (block_on_response_ok Some 5 7 [byte_of_Z 1] [byte_of_Z 1] [NoteDestroyed 3]
    [NoteResponse 7 (inr [byte_of_Z 1])] toy_program) as (q' & a' & p' & Hb & _).
  - simpl. lia.
  - done.
  - vm_compute. done.
  - apply toy_notes.
  - done.
  - right. by left.
  - done.
  - by exists p'.
Defined.

Lemma notifications_ok_witness : ∃ p',
  notifications_loop 5 true (waiting 7 toy_program) = Done (false, p') ∧ woken_up p' = true.
Proof.
  destruct (notifications_ok 5 [NoteDestroyed 3] [NoteResponse 7 (inr [byte_of_Z 1])] (waiting 7 toy_program))
    as (l & a' & ds & rest & p' & Hl & _ & _ & _ & _ & _ & Hw & _).
  - simpl. lia.
  - apply waiting_prog_inv.
  - vm_compute. done.
  - destruct toy_notes. by split.
  - done.
  - right. left. unfold matches. simpl. by left.
  - by exists p'.
Defined.

Lemma dropped_future_panics_witness : ∃ p', drop_first_of_two 7 8 toy_program = Done (1%nat, p') ∧
  block_on (response_poll Some 0) response_drop 2
    {| rf_msg_id := 8; rf_finished := false; rf_registration := Some 1%nat |} p' = Panic PDebugAssert.
Proof. apply (dropped_future_panics Some 7 8 toy_program 0); vm_compute; done. Defined.

Lemma emit_cancels_witness : ∃ p',
  emit_drop {| ef_inner := Some {| rf_msg_id := 7; rf_finished := false; rf_registration := Some 0%nat |}; ef_msg_id := 7 |}
    (waiting 7 toy_program) = Done (tt, p') ∧ cancelled p' = [7].
Proof.
  destruct (emit_cancels Some 7 0 (waiting 7 toy_program) [] [] 0) as [(p' & Hp & Hc & _) _].
  - apply waiting_prog_inv.
  - by eexists.
  - by exists p'.
Defined.

(** A memory with a hash of zeros at 0, an array of one pair at 100, and the
    buffer it designates at 200. *)
Definition toy_memory : bytes :=
  replicate 100 (byte_of_Z 0) ++ u32_to_le_bytes 200 ++ u32_to_le_bytes 3 ++ replicate 92 (byte_of_Z 0) ++
  (byte_of_Z <$> [1; 2; 3]).
Definition toy_read (p n : Z) : outcome (option bytes) :=
  Done (Some (take (Z.to_nat n) (drop (Z.to_nat p) toy_memory))).

Lemma emit_parsed_witness : ∃ b params, build_message true [(200, byte_of_Z <$> [1; 2; 3])] = Done b ∧
  emit_params 0 100 300 true b = Done params ∧
  parse_extrinsic_emit_message toy_read params =
    Done (inr {| em_interface := replicate 32 (byte_of_Z 0); message_id_write := Some 300;
                 em_message := byte_of_Z <$> [1; 2; 3]; em_allow_delay := false |}).
Proof.
  destruct (emit_parsed toy_read true true 0 (replicate 32 (byte_of_Z 0)) 100 300 [(200, byte_of_Z <$> [1; 2; 3])])
    as (b & params & Hb & _ & He & Hp).
  - vm_compute. done.
  - vm_compute. done.
  - vm_compute. done.
  - done.
  - vm_compute. done.
  - apply Forall_singleton. split; [vm_compute; done|]. vm_compute. done.
  - vm_compute. done.
  - vm_compute. done.
  - vm_compute. done.
  - by exists b, params.
Defined.
