(* ===== verification/ScenariosCalls.v ===== *)
(** Concrete calls and notifications, at which the theorems on the encodings
    are applied. *)
From S2P Require Import Prelude IdPool WasmValue Ffi Calls.

(** * Identifiers *)

Lemma id_pool_stream_witness :
  ∃ rng, (ChaCha20Rng_from_rng (master_rng IdPool_new)).1 = Some rng ∧
    ∀ n, ∃ p', assign_n n IdPool_new = Done (samples n rng, p').
Proof. apply (@id_pool_stream counter_rng counter_rng_laws). Defined.

(** * Notifications *)

Definition hello : EncodedMessage := [Init.Byte.x68; Init.Byte.x69].

Definition sample_notification : DecodedNotification := DnInterface
  {| di_interface := replicate 32 Init.Byte.x07; di_message_id := Some 5; di_emitter_pid := 9;
     di_index_in_list := 3; di_actual_data := hello |}.

Lemma notification_roundtrip_witness :
  deliver_and_decode (NbInterface (build_interface_notification (replicate 32 Init.Byte.x07)
    (Some 5) 9 0 hello)) 3 = Done (inr sample_notification).
Proof.
  apply (notification_roundtrip sample_notification 0 3).
  - unfold is_u32. lia.
  - split_and!; [reflexivity|unfold from_option, is_u64; simpl; lia|unfold is_u64; simpl; lia].
Defined.

Definition sample_buffer : bytes :=
  interface_data (build_interface_notification (replicate 32 Init.Byte.x07) (Some 5) 9 3 hello).

Lemma decode_notification_canonical_witness :
  decode_notification sample_buffer = Done (inr sample_notification) ∧
  sample_buffer = interface_data (build_interface_notification (replicate 32 Init.Byte.x07)
    (Some 5) 9 3 hello).
Proof.
  assert (Hd : decode_notification sample_buffer = Done (inr sample_notification)) by reflexivity.
  split; [exact Hd|]. apply (decode_notification_canonical sample_buffer sample_notification Hd).
Defined.

(** * Calls *)

(** A memory with two identifiers at 0, an interface hash at 16, an array of
    two buffers at 48 and the buffers at 64 and 66. *)
Definition sample_memory : bytes :=
  u64_to_le_bytes 4 ++ u64_to_le_bytes 1 ++ replicate 32 Init.Byte.x07 ++
  u32_to_le_bytes 64 ++ u32_to_le_bytes 2 ++ u32_to_le_bytes 66 ++ u32_to_le_bytes 1 ++
  hello ++ [Init.Byte.x21].

Definition sample_read (off n : Z) : outcome (option bytes) :=
  Done (if bool_decide (0 ≤ off ∧ 0 ≤ n ∧ off + n ≤ Z.of_nat (length sample_memory))
        then Some (take (Z.to_nat n) (drop (Z.to_nat off) sample_memory)) else None).

Lemma parse_next_notification_ok_witness :
  parse_extrinsic_next_notification sample_read [I32 0; I32 2; I32 64; I32 100; I32 1]
  = Done (inr {| notifs_ids := [4; 1]; notifs_ids_ptr := 0; out_pointer := 64; out_size := 100;
                 block := true |}).
Proof.
  apply (parse_next_notification_ok sample_read 0 [4; 1] 64 100 1);
    [unfold is_ptr; lia..|simpl; lia| |reflexivity].
  repeat (constructor; [unfold is_u64; lia|]). constructor.
Defined.

Lemma parse_emit_message_ok_witness :
  parse_extrinsic_emit_message sample_read [I32 16; I32 48; I32 2; I32 1; I32 0; I32 8]
  = Done (inr {| em_interface := replicate 32 Init.Byte.x07; message_id_write := Some 8;
                 em_message := hello ++ [Init.Byte.x21]; em_allow_delay := false |}).
Proof.
  apply (parse_emit_message_ok sample_read 16 (replicate 32 Init.Byte.x07) 48
    [(64, hello); (66, [Init.Byte.x21])] 1 0 8); [unfold is_ptr; lia..|simpl; lia|reflexivity|reflexivity| |].
  - split_and!; [unfold is_u32; lia|reflexivity|reflexivity|reflexivity|].
    split_and!; [unfold is_u32; lia|reflexivity|reflexivity|reflexivity|exact I].
  - vm_compute. reflexivity.
Defined.

Lemma sample_read_ok : read_ok sample_read.
Proof.
  intros off n. eexists. split; [reflexivity|]. intros bs. case_bool_decide as Hb; [|done].
  intros [= <-]. rewrite length_take, length_drop. lia.
Qed.

Lemma parse_calls_stop_witness :
  returns (parse_extrinsic_cancel_message sample_read [I32 (-1)]) ∧
  returns (parse_extrinsic_emit_answer sample_read [I32 0; I32 1000; I32 7]).
Proof.
  destruct (parse_calls_stop sample_read sample_read_ok) as (_ & Ha & _ & Hc & _).
  split; [apply Hc; by exists [-1]|apply Ha; by exists [0; 1000; 7]].
Defined.
