(* ===== verification/Scenarios.v ===== *)
(** Concrete systems.

    Small systems, run by the interpreter of [ToyVm] with the counting
    generator of [IdPool], on which the theorems of the other files are
    applied: their hypotheses hold of these systems, and the operations
    evaluate on them. *)
From S2P Require Import Prelude IdPool WasmValue Ffi Vm ToyVm Processes.

#[global] Instance pid_hash_iter : HashIter Z := hash_iter_default Z.

(** * One machine *)

Definition no_symbols : string → string → wasmi_Signature → option nat := λ _ _ _, None.

Definition trivial_vm : ProcessStateMachine unit :=
  {| module_ := {| st_hosts := []; st_mem := []; st_module := toy_trivial |};
     memory := None; indirect_table := Some tt;
     threads := [{| execution := Some {| ti_code := []; ti_status := TFresh |};
                    interrupted := false; ts_user_data := tt |}];
     is_poisoned := false |}.

Lemma new_ok_witness :
  ProcessStateMachine_new toy_trivial tt no_symbols = Done (inr trivial_vm) ∧
  vm_ok trivial_vm ∧ is_poisoned trivial_vm = false ∧ into_user_datas trivial_vm = [tt] ∧
  (∀ i sig, host_func (module_ trivial_vm) i sig → ∃ mod_ fld, no_symbols mod_ fld sig = Some i).
Proof.
  split; [reflexivity|]. apply (@new_ok toy_wasmi toy_wasmi_laws unit toy_trivial tt no_symbols trivial_vm).
  reflexivity.
Defined.

Lemma trivial_vm_ok : vm_ok trivial_vm.
Proof. intros _. split; [done|]. constructor; [|constructor]. by eexists. Qed.

Lemma thread_run_ok_witness :
  match Thread_run trivial_vm 0 None with
  | Done (vm', inr o) => vm_ok vm' ∧ run_effect trivial_vm 0 vm' o
  | Done (_, inl _) | NoFuel => False
  | Panic r => r = PUnimplemented
  end.
Proof.
  by eapply (thread_run_ok trivial_vm 0); [apply trivial_vm_ok|reflexivity..].
Defined.

(** * One process *)

(** A module that calls its one import, [test.add : (i32) -> i32], and
    returns. *)
Definition add_sig : Signature := Signature_new [TI32] (Some TI32).

Definition caller_code : list toy_instr := [TCall 0 [RI32 5]; TReturn None].

Definition caller : wasmi_Module := Build_toy_module
  [("test", "add", to_wasmi_Signature add_sig)] (Some []) "_start" caller_code [[]].

Abbreviation coll1 := (ProcessesCollection string string string).

Definition coll0 : coll1 :=
  {| pid_pool := IdPool_new; tid_pool := IdPool_new; processes := ∅;
     extrinsics := {[0%nat := "add"%string]};
     extrinsics_id_assign := {[("test", "add")%string := (0%nat, add_sig)]} |}.

Definition caller_vm (st : list toy_instr * toy_status) (i : bool)
    (vb : option (option WasmValue)) : ProcessStateMachine (Thread string) :=
  {| module_ := {| st_hosts := [(0%nat, to_wasmi_Signature add_sig)]; st_mem := [];
                   st_module := caller |};
     memory := Some tt; indirect_table := Some tt;
     threads := [{| execution := Some {| ti_code := st.1; ti_status := st.2 |};
                    interrupted := i;
                    ts_user_data := {| th_user_data := "main"; thread_id := 0;
                                       value_back := vb |} |}];
     is_poisoned := false |}.

Definition pool1 : IdPool :=
  {| rngs := [1]; distribution := (0, u64_max); master_rng := tt |}.

(** After [execute]: the main thread is ready. *)
Definition coll_started : coll1 :=
  {| pid_pool := pool1; tid_pool := pool1;
     processes := {[0 := {| state_machine := caller_vm (caller_code, TFresh) false (Some None);
                            pr_user_data := "proc" |}]};
     extrinsics := extrinsics coll0; extrinsics_id_assign := extrinsics_id_assign coll0 |}.

(** After one [run]: the thread waits for the result of its call. *)
Definition coll_waiting : coll1 :=
  {| pid_pool := pool1; tid_pool := pool1;
     processes := {[0 := {| state_machine := caller_vm
                              ([TReturn None], TWait (to_wasmi_Signature add_sig)) true None;
                            pr_user_data := "proc" |}]};
     extrinsics := extrinsics coll0; extrinsics_id_assign := extrinsics_id_assign coll0 |}.

Example caller_executes : execute caller "proc" "main" coll0 = Done (inr 0, coll_started).
Proof. reflexivity. Qed.

Example caller_runs :
  run coll_started = Done (Interrupted (0, 0%nat) "add"%string [I32 5], coll_waiting).
Proof. reflexivity. Qed.

Lemma coll0_ok : coll_ok coll0.
Proof.
  split; [done|]. intros name i s Hl. simpl in Hl.
  apply lookup_singleton_Some in Hl as [_ [= <- _]]. by eexists.
Qed.

Lemma coll_started_ok : coll_ok coll_started.
Proof.
  destruct (execute_sound coll0 caller "proc" "main" coll0_ok) as (id & tp & _ & Hx).
  by destruct Hx.
Qed.

Lemma coll_waiting_ok : coll_ok coll_waiting.
Proof. by destruct (run_sound coll_started coll_started_ok). Qed.

Lemma execute_ok_witness :
  coll_ok coll0 ∧ ∃ id tp, assign (tid_pool coll0) = Done (id, tp) ∧
    match execute caller "proc" "main" coll0 with
    | Done (inl e, c') => coll_ok c' ∧ c' = with_tid_pool tp coll0
    | Done (inr pid, c') => coll_ok c' ∧ same_extrinsics coll0 c' ∧ tid_pool c' = tp ∧
        assign (pid_pool coll0) = Done (pid, pid_pool c') ∧
        ∃ p, fresh_process "proc"%string "main"%string id p ∧
          processes c' = <[pid := p]> (processes coll0)
    | Panic r => ProcessStateMachine_new caller
        {| th_user_data := "main"%string; thread_id := id; value_back := Some None |}
        (resolve_extrinsic coll0) = Panic r
    | NoFuel => False
    end.
Proof.
  split; [apply coll0_ok|]. apply (execute_ok coll0 caller "proc" "main" coll0_ok).
Defined.

Lemma run_ok_witness :
  coll_ok coll_started ∧
  match run coll_started with
  | Done (o, c') => coll_ok c' ∧ run_spec coll_started o c' ∧ ran coll_started o c'
  | Panic r => r = PUnimplemented
  | NoFuel => False
  end.
Proof. split; [apply coll_started_ok|]. apply (run_ok coll_started coll_started_ok). Defined.

(** The thread of [coll_waiting]. *)
Definition waiting_thread : ThreadState (Thread string) :=
  {| execution := Some {| ti_code := [TReturn None]; ti_status := TWait (to_wasmi_Signature add_sig) |};
     interrupted := true;
     ts_user_data := {| th_user_data := "main"; thread_id := 0; value_back := None |} |}.

Lemma waiting_thread_at : thread_at coll_waiting (0, 0%nat) waiting_thread.
Proof. eexists. by split. Qed.

Lemma resume_ok_witness :
  ∃ c', resume (0, 0%nat) (Some (I32 7)) coll_waiting = Done (tt, c') ∧ coll_ok c'.
Proof.
  assert (Hty : ty <$> Some (I32 7) = expected_ty waiting_thread) by reflexivity.
  pose proof (resume_ok coll_waiting (0, 0%nat) waiting_thread (Some (I32 7))
    coll_waiting_ok waiting_thread_at Hty) as Hr.
  rewrite decide_False in Hr by (intros Hn; by apply Hn).
  destruct Hr as (c' & ? & ? & _). by exists c'.
Defined.

Lemma coll_started_unique : tids_unique coll_started.
Proof.
  intros [pid1 i1] [pid2 i2] t1 t2 (p1 & Hp1 & Ht1) (p2 & Hp2 & Ht2) _. simpl in *.
  apply lookup_singleton_Some in Hp1 as [<- <-]. apply lookup_singleton_Some in Hp2 as [<- <-].
  simpl in *. apply list_lookup_singleton_Some in Ht1 as [-> _].
  by apply list_lookup_singleton_Some in Ht2 as [-> _].
Qed.

Lemma thread_by_id_correct_witness :
  tids_unique coll_started ∧
  (thread_by_id coll_started 0 = Some (0, 0%nat) ↔
   ∃ t, thread_at coll_started (0, 0%nat) t ∧ thread_id (ts_user_data t) = 0).
Proof.
  split; [apply coll_started_unique|].
  apply (thread_by_id_correct coll_started 0 (0, 0%nat) coll_started_unique).
Defined.

Definition caller_process : Process string string :=
  {| state_machine := caller_vm (caller_code, TFresh) false (Some None); pr_user_data := "proc" |}.

Lemma start_thread_handle_witness :
  ∃ h c', start_thread 0 0 [] "worker"%string coll_started = Done (inr h, c') ∧
    coll_ok c' ∧ inner c' h = Panic PUnreachable.
Proof.
  assert (Hs : match start_thread 0 0 [] "worker"%string coll_started with
               | Done (inr _, _) => True | _ => False end) by (vm_compute; exact I).
  destruct (start_thread 0 0 [] "worker"%string coll_started) as [[[e|h] c']|r|] eqn:Hst;
    [destruct Hs| |destruct Hs..].
  exists h, c'. split; [done|].
  destruct (start_thread_handle coll_started 0 caller_process 0 [] "worker" h c'
    coll_started_ok eq_refl Hst) as (? & ? & _). done.
Defined.

Lemma build_registered_witness :
  ∃ b (c : coll1), register_all [("test", "add", add_sig, "add")%string] builder_default = Done b ∧
    builder_build b = Done c ∧ coll_ok c ∧ resolve_extrinsic c "test" "add"
      (to_wasmi_Signature add_sig) = Some 0%nat.
Proof.
  pose proof (build_registered (TPud := string) (TTud := string)
    [("test", "add", add_sig, "add")%string]) as Hb.
  rewrite decide_True in Hb by (apply NoDup_singleton).
  destruct Hb as (b & c & Hb & Hc & Hok & _ & Hres & _). exists b, c. split_and!; try done.
  apply Hres. by exists add_sig, "add"%string.
Defined.
