(* ===== verification/ScenariosIpc.v ===== *)
(** A concrete kernel.

    One program emits a message on an interface that has no handler, a handler
    outside the processes is registered, and the answer is sent back.  The
    states of this run satisfy the hypotheses of the theorems on [Core] and on
    the layers under it. *)
From S2P Require Import Prelude IdPool WasmValue Ffi Calls Vm ToyVm ExtrinsicsApi Processes.
From S2P Require Import ProcessesFrame Extrinsics ExtrinsicsInv ExtrinsicsLocks ExtrinsicsLife.
From S2P Require Import Ipc IpcInv IpcWake IpcCore IpcHandlers Scenarios.

#[global] Instance hash_hash_iter : HashIter (list Init.Byte.byte) := hash_iter_default _.

(** * The program *)

Definition emit_sig : wasmi_Signature :=
  to_wasmi_Signature (Signature_new (replicate 6 TI32) (Some TI32)).
Definition next_sig : wasmi_Signature :=
  to_wasmi_Signature (Signature_new (replicate 5 TI32) (Some TI32)).
Definition i32s (l : list Z) : list wasmi_RuntimeValue := RI32 <$> l.

Definition hash0 : InterfaceHash := replicate 32 Init.Byte.x00.

(** The hash of the interface at 0, one buffer descriptor at 32, the identifier
    of the message at 40, the message at 48, a buffer at 64. *)
Definition emitter_memory : bytes :=
  hash0 ++ u32_to_le_bytes 48 ++ u32_to_le_bytes 3 ++ replicate 8 Init.Byte.x00 ++
  [Init.Byte.x61; Init.Byte.x62; Init.Byte.x63] ++ replicate 77 Init.Byte.x00.

(** Emits [message] and waits for the answer. *)
Definition emitter_of (allow_delay : Z) (rest : list toy_instr) : wasmi_Module := Build_toy_module
  [("redshirt", "emit_message", emit_sig); ("redshirt", "next_notification", next_sig)]%string
  (Some emitter_memory) "_start" (TCall 0 (i32s [0; 32; 1; 1; allow_delay; 40]) :: rest) [].

Definition emitter : wasmi_Module :=
  emitter_of 1 [TCall 1 (i32s [40; 1; 64; 64; 1]); TReturn None].

(** Equations between closed terms, by evaluation. *)
Ltac by_vm := match goal with |- ?x = ?y => vm_cast_no_check (@eq_refl _ y) end.

(** * A whole run *)

(** The reserved identifier 0 handles the interface: the message waits until it
    is registered, is handed out, and the answer wakes the program up. *)
Example whole_run :
  (b ← Core_new;
   '(_, b) ← reserve_n 1 b;
   c ← core_build b;
   '(_, c) ← core_execute emitter c;
   '(_, c) ← on_px (drop_proc 1) c;
   '(ev1, c) ← core_run 10 c;
   '(_, c) ← set_interface_handler 10 hash0 0 c;
   '(ev2, c) ← core_run 10 c;
   '(ev3, c) ← core_run 10 c;
   '(_, c) ← answer_message 2 (inr [Init.Byte.x2a]) c;
   '(ev4, c) ← core_run 10 c;
   Done [ev1; ev2; ev3; ev4])
  = Done [ThreadWaitUnavailableInterface 0 hash0;
          ReservedPidInterfaceMessage 1 (Some 2) hash0 [Init.Byte.x61; Init.Byte.x62; Init.Byte.x63];
          CoreIdle; ProgramFinished 1 [] [] [] (inr None)].
Proof. by_vm. Qed.

(** A program whose message is refused and that returns stops the kernel: the
    interface it used has no entry, and [unreachable!()] is reached. *)
Example refused_then_exit :
  (b ← Core_new;
   c ← core_build b;
   '(_, c) ← core_execute (emitter_of 0 [TReturn None]) c;
   '(_, c) ← on_px (drop_proc 0) c;
   core_run 10 c) = Panic PUnreachable.
Proof. by_vm. Qed.

(** * The states of the run *)

Abbreviation PX1 := (ProcessesCollectionExtrinsics (TPud := IpcProcess) (TTud := unit)).

Definition state_of (A : Type) (o : outcome (A * Core)) (d : Core) : Core :=
  match o with Done (_, c) => c | _ => d end.
Arguments state_of {A}.

Definition empty_core : Core :=
  {| pending_events := [];
     core_processes := {| px_inner := {| pid_pool := IdPool_new; tid_pool := IdPool_new;
         processes := ∅; extrinsics := ∅; extrinsics_id_assign := ∅ |};
       inner_borrowed := false; local_run_queue := [] |};
     reserved_pids := ∅; interfaces := ∅; message_id_pool := IdPool_new; messages_to_answer := ∅ |}.

(** Built; executed; the program waits for a handler; the handler is
    registered; its event is taken; the program is blocked; answered. *)
Definition core0 : Core := Eval vm_compute in state_of
  (b ← Core_new; '(pids, b) ← reserve_n 1 b; c ← core_build b; Done (pids, c)) empty_core.
Definition core1' : Core := Eval vm_compute in state_of (core_execute emitter core0) empty_core.
Definition core1 : Core := Eval vm_compute in state_of (on_px (drop_proc 1) core1') empty_core.
Definition core2 : Core := Eval vm_compute in state_of (run_inner 10 core1) empty_core.
Definition core3 : Core := Eval vm_compute in state_of (set_interface_handler 10 hash0 0 core2) empty_core.
Definition core4 : Core := Eval vm_compute in state_of (run_inner 10 core3) empty_core.
Definition core5 : Core := Eval vm_compute in state_of (run_inner 10 core4) empty_core.

Lemma core0_built :
  (b ← Core_new; '(pids, b) ← reserve_n 1 b; c ← core_build b; Done (pids, c)) = Done ([0], core0).
Proof. by_vm. Qed.

Lemma core0_ok : core_ok core0.
Proof. pose proof (core_build_sound 1) as Hb. rewrite core0_built in Hb. apply Hb. Qed.

Lemma can_execute0 : can_execute emitter (core_processes core0).
Proof.
  split_and!.
  - intros id tp _. split; [apply not_elem_of_nil|]. intros h d Hd.
    apply ud_pl in Hd as [x Hx]. done.
  - intros pid pp _. done.
  - intros d vm Hnew. assert (Hm : match ProcessStateMachine_new emitter d
        (resolve_extrinsic (px_inner (core_processes core0))) with
      | Done (inr vm) => bool_decide (is_Some (memory vm)) | _ => true end = true) by by_vm.
    rewrite Hnew in Hm. by destruct (memory vm).
Qed.

Lemma core1'_executed : core_execute emitter core0 = Done (inr 1, core1').
Proof. by_vm. Qed.

Lemma unrequested0 id tp :
  assign (tid_pool (px_inner (core_processes core0))) = Done (id, tp) → unrequested (interfaces core0) id.
Proof. intros _ i threads other Hi. done. Qed.

Lemma unreserved0 pid pp :
  assign (pid_pool (px_inner (core_processes core0))) = Done (pid, pp) → pid ∉ reserved_pids core0.
Proof.
  intros Hp. assert (Hr : match assign (pid_pool (px_inner (core_processes core0))) with
    | Done (pid, _) => bool_decide (pid ∉ reserved_pids core0) | _ => false end = true) by by_vm.
  rewrite Hp in Hr. by apply bool_decide_eq_true in Hr.
Qed.

Lemma core1'_ok : core_but [] [1] (λ _, False) core1'.
Proof.
  pose proof (execute_core_sound emitter core0 core0_ok can_execute0 unrequested0 unreserved0) as Hx.
  rewrite core1'_executed in Hx. apply Hx.
Qed.

Lemma core1_ok : core_ok core1.
Proof.
  pose proof (drop_proc_sound [] [] (core_processes core1') 1 (co_px _ _ _ _ core1'_ok)) as Hd.
  assert (He : drop_proc 1 (core_processes core1') = Done (tt, core_processes core1)) by by_vm.
  rewrite He in Hd. destruct Hd as (Hok & Hs & Hrq).
  exact (core_but_same [] [1] [] [] _ core1' _ core1'_ok Hok (conj Hs Hrq)).
Qed.

Lemma core2_run : run_inner 10 core1 = Done (Some (ThreadWaitUnavailableInterface 0 hash0), core2).
Proof. by_vm. Qed.

Lemma core2_ok : core_ok core2.
Proof. pose proof (run_inner_sound (deep := false) 10 core1 ltac:(done) core1_ok) as Hr. rewrite core2_run in Hr. apply Hr. Qed.

Lemma core3_run : set_interface_handler 10 hash0 0 core2 = Done (inr tt, core3).
Proof. by_vm. Qed.

Lemma hash0_ok : is_hash hash0.
Proof. reflexivity. Qed.

Lemma core3_ok : core_ok core3.
Proof.
  pose proof (set_handler_sound 10 hash0 0 core2 core2_ok hash0_ok) as Hr.
  rewrite core3_run in Hr. apply Hr.
Qed.

Lemma core4_run : run_inner 10 core3 = Done (Some (ReservedPidInterfaceMessage 1 (Some 2) hash0
  [Init.Byte.x61; Init.Byte.x62; Init.Byte.x63]), core4).
Proof. by_vm. Qed.

Lemma core4_ok : core_ok core4.
Proof. pose proof (run_inner_sound (deep := false) 10 core3 ltac:(done) core3_ok) as Hr. rewrite core4_run in Hr. apply Hr. Qed.

Lemma core5_run : run_inner 10 core4 = Done (None, core5).
Proof. by_vm. Qed.

Lemma core5_ok : core_ok core5.
Proof. pose proof (run_inner_sound (deep := false) 10 core4 ltac:(done) core4_ok) as Hr. rewrite core5_run in Hr. apply Hr. Qed.
