(* ===== verification/ScenariosRun.v ===== *)
(** The theorems on the scheduler at the states of [ScenariosIpc]. *)
From S2P Require Import Prelude IdPool WasmValue Ffi Calls Vm ToyVm ExtrinsicsApi Processes.
From S2P Require Import ProcessesFrame Extrinsics ExtrinsicsInv ExtrinsicsLocks ExtrinsicsLife.
From S2P Require Import Ipc IpcInv IpcWake IpcCore IpcHandlers Scenarios ScenariosIpc.

Abbreviation lock1 := (ThreadLock (TTud := unit)).

(** * The locked states *)

Definition px_of (A : Type) (o : outcome (A * PX1)) (d : PX1) : PX1 :=
  match o with Done (_, s) => s | _ => d end.
Arguments px_of {A}.

Definition main_lock : lock1 := {| tl_tid := 0; tl_pid := 1; tl_user_data := tt |}.

(** The program has just called [emit_message]. *)
Definition emit_px : PX1 :=
  Eval vm_compute in px_of (run_once (core_processes core1)) (core_processes core1).

Definition emit_state : LocalThreadState := St_EmitMessage {|
  em_interface := hash0; message_id_write := Some 40;
  em_message := [Init.Byte.x61; Init.Byte.x62; Init.Byte.x63]; em_allow_delay := true |}.

Definition locked_thread (st : LocalThreadState) : Thread (LocalThreadUserData (TTud := unit)) :=
  {| th_user_data := {| state := st; lt_external_user_data := None |};
     thread_id := 0; value_back := None |}.

Lemma emit_run :
  run_once (core_processes core1) = Done (Some (Px_ThreadEmitMessage main_lock), emit_px).
Proof. by_vm. Qed.

Lemma emit_thread : ud (px_inner emit_px) (1, 0%nat) = Some (locked_thread emit_state).
Proof. by_vm. Qed.

Lemma emit_lock_state : lock_state (px_inner emit_px) main_lock (λ st, st = emit_state).
Proof. exists (1, 0%nat), (locked_thread emit_state). split_and!; [apply emit_thread|done..]. Qed.

Lemma emit_post : px_ok [main_lock] [] emit_px ∧
  carried (px_inner (core_processes core1)) (px_inner emit_px).
Proof.
  pose proof (run_once_sound (core_processes core1) (co_px _ _ _ _ core1_ok)) as Hr.
  rewrite emit_run in Hr. destruct Hr as (? & ? & ? & _). done.
Qed.

Lemma emit_core : core_but [main_lock] [] (λ _, False) (with_px emit_px core1) ∧
  unrequested (interfaces core1) 0.
Proof.
  destruct emit_post as [Hok Hcar].
  apply (emit_event_core main_lock core1 emit_px core1_ok Hok Hcar).
  by apply (lock_state_and _ _ _ _ emit_lock_state).
Qed.

(** The answer is there before the program asks for it. *)
Definition core6 : Core :=
  Eval vm_compute in state_of (answer_message_inner 2 (inr [Init.Byte.x2a]) core4) empty_core.

Lemma core6_ok : core_ok core6.
Proof.
  pose proof (answer_inner_sound 2 (inr [Init.Byte.x2a]) core4 core4_ok) as Ha.
  assert (He : answer_message_inner 2 (inr [Init.Byte.x2a]) core4 = Done (None, core6)) by by_vm.
  rewrite He in Ha. apply Ha.
Qed.

Definition wait_px : PX1 :=
  Eval vm_compute in px_of (run_once (core_processes core6)) (core_processes core6).

Definition wait_state : LocalThreadState := St_NotificationWait {|
  notifs_ids := [2]; notifs_ids_ptr := 40; out_pointer := 64; out_size := 64; block := true |}.

Lemma wait_run :
  run_once (core_processes core6) = Done (Some (Px_ThreadWaitNotification main_lock), wait_px).
Proof. by_vm. Qed.

Lemma wait_thread : ud (px_inner wait_px) (1, 0%nat) = Some (locked_thread wait_state).
Proof. by_vm. Qed.

Lemma wait_lock_state : lock_state (px_inner wait_px) main_lock (λ st, st = wait_state).
Proof. exists (1, 0%nat), (locked_thread wait_state). split_and!; [apply wait_thread|done..]. Qed.

Lemma wait_post : px_ok [main_lock] [] wait_px ∧
  carried (px_inner (core_processes core6)) (px_inner wait_px).
Proof.
  pose proof (run_once_sound (core_processes core6) (co_px _ _ _ _ core6_ok)) as Hr.
  rewrite wait_run in Hr. destruct Hr as (? & ? & ? & _). done.
Qed.

(** The queue of the program holds the answer. *)
Definition waiting_process : IpcProcess :=
  {| notifications_queue := [NbResponse (build_response_notification 2 0 (inr [Init.Byte.x2a]))];
     registered_interfaces := []; used_interfaces := {[ hash0 := tt ]};
     emitted_messages := []; pr_messages_to_answer := [] |}.

Lemma wait_process : proc_of wait_px 1 = Some waiting_process.
Proof. by_vm. Qed.

(** * The layer of the calls *)

Lemma run_once_ok_witness :
  px_ok [] [] (core_processes core1) ∧
  wp run_panics (run_once (core_processes core1)) (λ '(r, s'), inner_borrowed s' = false ∧
    run_post (px_inner (core_processes core1)) r (px_inner s') (local_run_queue s')).
Proof.
  split; [apply (co_px _ _ _ _ core1_ok)|].
  apply (run_once_ok (core_processes core1) (co_px _ _ _ _ core1_ok)).
Defined.

Lemma accept_emit_ok_witness :
  px_ok [main_lock] [] emit_px ∧
  wp accept_panics (accept_emit main_lock (Some 2) emit_px)
    (accept_post main_lock [] [] emit_px (Some 2)).
Proof.
  split; [apply emit_post|]. apply (accept_emit_ok main_lock [] [] emit_px (Some 2) (proj1 emit_post)).
  apply (lock_state_and _ _ _ _ emit_lock_state). split; [exact I|reflexivity].
Defined.

Definition answer_notif : NotificationBuilder :=
  NbResponse (build_response_notification 2 0 (inr [Init.Byte.x2a])).
Definition answer_bytes : EncodedMessage := notification_into_bytes answer_notif.

Lemma resume_notification_ok_witness :
  px_ok [main_lock] [] wait_px ∧
  wp notif_panics (resume_notification main_lock 0 answer_bytes wait_px) (λ '(_, s'), px_ok [] [] s' ∧
    ∃ d d', lock_change (px_inner wait_px) main_lock d d' (px_inner s') ∧
      notified answer_bytes d d' (local_run_queue wait_px) (local_run_queue s')).
Proof.
  split; [apply wait_post|].
  apply (resume_notification_ok main_lock [] [] wait_px 0 answer_bytes (proj1 wait_post)).
  apply (lock_state_and _ _ _ _ wait_lock_state).
  split; [exact I|]. split; [simpl; lia|]. vm_compute. discriminate.
Defined.

Lemma answer_notif_ok : notif_ok answer_notif.
Proof. exists 2, 0, (inr [Init.Byte.x2a]). split_and!; [reflexivity|unfold is_u64; lia|lia]. Qed.

Lemma try_resume_ok_witness :
  px_ok [main_lock] [] wait_px ∧ proc_of wait_px 1 = Some waiting_process ∧
  wp notif_panics (try_resume_notification_wait_thread main_lock wait_px) (λ '(u, s'),
    ∃ ids, lock_state (px_inner wait_px) main_lock (λ st, st_ids st = ids) ∧
      resume_post main_lock [] [] wait_px waiting_process ids (u, s') ∧
      given main_lock ids (notifications_queue waiting_process) wait_px s').
Proof.
  split_and!; [apply wait_post|apply wait_process|].
  apply (try_resume_ok main_lock [] [] wait_px waiting_process (proj1 wait_post) wait_process).
  - apply Forall_singleton. apply answer_notif_ok.
  - by apply (lock_state_and _ _ _ _ wait_lock_state).
Defined.

(** * The layer of the messages *)

Lemma notify_process_ok_witness :
  core_ok core5 ∧
  wp notif_panics (notify_process 1 answer_notif (core_processes core5)) (λ '(b, s'),
    px_ok [] [] s' ∧ procs_ok s' ∧
    if b : bool then is_Some (proc_of (core_processes core5) 1) ∧ all_woken 1 s' ∧
      notified_process 1 answer_notif (core_processes core5) s' ∧
      (∀ pid', pid' ≠ 1 → all_woken pid' (core_processes core5) → all_woken pid' s') ∧
      ∀ pid' i, pid' ≠ 1 → proc_of s' pid' = proc_of (core_processes core5) pid' ∧
        look s' (pid', i) = look (core_processes core5) (pid', i)
    else proc_of (core_processes core5) 1 = None ∧ s' = core_processes core5).
Proof.
  split; [apply core5_ok|]. destruct core5_ok as [Hpx Hprocs Hq _ _ _].
  apply (notify_process_ok [] 1 answer_notif (core_processes core5) Hpx Hprocs answer_notif_ok).
Defined.

Lemma answer_message_ok_witness :
  core_ok core5 ∧ messages_to_answer core5 !! 2 = Some 1 ∧
  wp notif_panics (answer_message_inner 2 (inr [Init.Byte.x2a]) core5) (λ '(r, c'),
    core_ok c' ∧ answered 2 (inr [Init.Byte.x2a]) core5 r c').
Proof.
  split_and!; [apply core5_ok|by_vm|].
  apply (answer_message_ok 2 (inr [Init.Byte.x2a]) core5 core5_ok).
Defined.

Lemma thread_emit_ok_witness :
  st_interface emit_state = Some hash0 ∧
  wlp (starved 10 (with_px emit_px core1)) notif_panics
    (thread_emit_message 10 main_lock (with_px emit_px core1)) (λ '(r, c'),
    core_ok c' ∧ ∃ s1, used_by 1 hash0 emit_px s1 ∧
      emit_outcome main_lock emit_state hash0 (with_px s1 core1) r c').
Proof.
  split; [reflexivity|].
  apply (thread_emit_ok 10 main_lock emit_state hash0 (with_px emit_px core1)
    (proj1 emit_core) (proj2 emit_core) emit_lock_state eq_refl).
Defined.

Lemma run_inner_ok_witness :
  core_ok core1 ∧
  wlp (spins 10 (core_processes core1) ∨ starved 10 core1) core_panics (run_inner 10 core1)
    (λ '(r, c'), core_ok c' ∧ (all_quiet core1 → fresh_ids core1 → all_quiet c') ∧
      match pending_events core1 with
      | ev :: rest => r = Some ev ∧ c' = with_events rest core1
      | [] => True
      end).
Proof. split; [apply core1_ok|]. apply (run_inner_ok 10 core1 core1_ok). Defined.

(** What is left of a process that used the interface. *)
Definition finished : IpcProcess :=
  {| notifications_queue := []; registered_interfaces := [];
     used_interfaces := {[ hash0 := tt ]}; emitted_messages := []; pr_messages_to_answer := [] |}.

Lemma process_finished_ok_witness :
  proc_ok finished ∧
  wp (used_panics (hash_iter (used_interfaces finished)).*1 core3)
    (process_finished 7 finished (inr None) core3)
    (λ '(r, c'), core_ok c' ∧ r = Some (ProgramFinished 7 [] [] [] (inr None)) ∧
      (∀ i, is_Some (used_interfaces finished !! i) → is_Some (interfaces core3 !! i)) ∧
      ∃ s', c' = with_px s' core3).
Proof.
  assert (Hp : proc_ok finished) by (split_and!; try done; constructor).
  split; [exact Hp|]. apply (process_finished_ok 7 finished (inr None) core3 core3_ok Hp).
Defined.

Lemma set_interface_handler_ok_witness :
  core_ok core2 ∧
  wlp (starved_later 10 core2) (handler_panics 0 hash0 core2) (set_interface_handler 10 hash0 0 core2)
    (λ '(r, c'), core_ok c' ∧ handler_set 0 hash0 core2 r c').
Proof.
  split; [apply core2_ok|].
  apply (set_interface_handler_ok 10 hash0 0 core2 core2_ok hash0_ok).
Defined.

Lemma choose_message_id_ok_witness :
  wlp (starved 5 core0) no_panic (choose_message_id 5 core0) (λ '(id, c'),
    ∃ pool', first_usable core0 id pool' ∧ is_u64 id ∧ pool_ok pool' ∧ c' = with_message_pool pool' core0).
Proof. apply (choose_message_id_ok 5 core0 (co_pool _ _ _ _ core0_ok)). Defined.

Lemma reserved_0 : 0 ∈ reserved_pids core0.
Proof. apply (bool_decide_eq_true_1 _). by_vm. Qed.

Lemma emit_interface_message_ok_witness :
  core_ok core0 ∧
  wlp (starved 5 core0) notif_panics (emit_interface_message_answer 5 0 hash0 [] core0)
    (λ '(id, c'), core_ok c' ∧ outside_sent 0 hash0 [] true core0 (Some id) c').
Proof.
  split; [apply core0_ok|].
  apply (emit_interface_message_ok 5 0 hash0 [] core0 core0_ok hash0_ok reserved_0).
Defined.

(** A message sent before any handler is registered. *)
Definition core7 : Core :=
  Eval vm_compute in state_of (emit_interface_message_answer 5 0 hash0 [] core0) empty_core.

Lemma requested_answer_lost_witness :
  emit_interface_message_answer 5 0 hash0 [] core0 = Done (2, core7) ∧
  answer_message_inner 2 (inr []) core7 = Done (None, core7).
Proof.
  assert (He : emit_interface_message_answer 5 0 hash0 [] core0 = Done (2, core7)) by by_vm.
  split; [exact He|].
  apply (requested_answer_lost 5 0 hash0 [] core0 2 core7 (inr []) core0_ok hash0_ok reserved_0).
  - intros h Hh. discriminate Hh.
  - exact He.
Defined.

Lemma core_execute_ok_witness :
  core_ok core0 ∧ ∃ s' id, core1' = with_px s' core0 ∧
    proc_of (core_processes core0) 1 = None ∧
    executed 1 id {| notifications_queue := []; registered_interfaces := [];
      used_interfaces := ∅; emitted_messages := []; pr_messages_to_answer := [] |} tt
      (core_processes core0) s'.
Proof.
  split; [apply core0_ok|].
  pose proof (core_execute_ok emitter core0 core0_ok can_execute0 unrequested0 unreserved0) as Hx.
  rewrite core1'_executed in Hx. apply Hx.
Defined.

Lemma core_build_ok_witness :
  (b ← Core_new; '(pids, b) ← reserve_n 1 b; c ← core_build b; Done (pids, c)) = Done ([0], core0) ∧
  core_ok core0 ∧ reserved_pids core0 = list_to_set [0].
Proof.
  split; [apply core0_built|]. pose proof (core_build_ok 1) as Hb. rewrite core0_built in Hb.
  split; apply Hb.
Defined.
