(* ===== verification/ScenariosWasi.v ===== *)
(** WASI calls on concrete programs.

    Instances of the parameters of [Wasi] (the constants of the [wasi] crate,
    a codec, a flat memory), on which the theorems on the WASI functions are
    applied, and a kernel whose programs call WASI. *)
From S2P Require Import Prelude IdPool WasmValue Ffi Calls Messages Vm ToyVm ExtrinsicsApi Processes.
From S2P Require Import ProcessesFrame Extrinsics ExtrinsicsInv ExtrinsicsLocks ExtrinsicsLife.
From S2P Require Import Ipc IpcInv IpcWake IpcCore IpcHandlers Scenarios ScenariosIpc.
From S2P Require Import Wasi WasiInv WasiSpec LogCalls.

(** * Parameters *)

(** The constants of [wasi_snapshot_preview1]. *)
#[global] Instance wasi_preview1 : WasiCrate := {|
  ERRNO_BADF := 8; ERRNO_NOENT := 44; ERRNO_NOSYS := 52; ERRNO_NOTSUP := 58;
  CLOCKID_REALTIME := 0; CLOCKID_MONOTONIC := 1;
  CLOCKID_PROCESS_CPUTIME_ID := 2; CLOCKID_THREAD_CPUTIME_ID := 3;
  WHENCE_SET := 0; WHENCE_CUR := 1; WHENCE_END := 2;
  FILETYPE_CHARACTER_DEVICE := 2; FILETYPE_DIRECTORY := 3; FILETYPE_REGULAR_FILE := 4;
  FDFLAGS_APPEND := 1; PREOPENTYPE_DIR := 0;
  RIGHTS_FD_DATASYNC := 2 ^ 0; RIGHTS_FD_READ := 2 ^ 1; RIGHTS_FD_SEEK := 2 ^ 2;
  RIGHTS_FD_FDSTAT_SET_FLAGS := 2 ^ 3; RIGHTS_FD_SYNC := 2 ^ 4; RIGHTS_FD_TELL := 2 ^ 5;
  RIGHTS_FD_WRITE := 2 ^ 6; RIGHTS_FD_ADVISE := 2 ^ 7; RIGHTS_FD_ALLOCATE := 2 ^ 8;
  RIGHTS_PATH_CREATE_DIRECTORY := 2 ^ 9; RIGHTS_PATH_CREATE_FILE := 2 ^ 10;
  RIGHTS_PATH_LINK_SOURCE := 2 ^ 11; RIGHTS_PATH_LINK_TARGET := 2 ^ 12; RIGHTS_PATH_OPEN := 2 ^ 13;
  RIGHTS_FD_READDIR := 2 ^ 14; RIGHTS_PATH_READLINK := 2 ^ 15; RIGHTS_PATH_RENAME_SOURCE := 2 ^ 16;
  RIGHTS_PATH_RENAME_TARGET := 2 ^ 17; RIGHTS_PATH_FILESTAT_GET := 2 ^ 18;
  RIGHTS_PATH_FILESTAT_SET_SIZE := 2 ^ 19; RIGHTS_PATH_FILESTAT_SET_TIMES := 2 ^ 20;
  RIGHTS_FD_FILESTAT_GET := 2 ^ 21; RIGHTS_FD_FILESTAT_SET_SIZE := 2 ^ 22;
  RIGHTS_FD_FILESTAT_SET_TIMES := 2 ^ 23; RIGHTS_PATH_SYMLINK := 2 ^ 24;
  RIGHTS_PATH_REMOVE_DIRECTORY := 2 ^ 25; RIGHTS_PATH_UNLINK_FILE := 2 ^ 26;
  RIGHTS_POLL_FD_READWRITE := 2 ^ 27;
|}.

#[global] Instance wasi_preview1_laws : WasiCrateLaws.
Proof. split. apply (bool_decide_unpack _). vm_compute. exact I. Qed.

(** A codec: one byte for the variant, little-endian integers, one byte for
    the length of a short list. *)
#[global] Instance small_scale : Scale := {|
  encode_random := λ '(Random.Generate len), Init.Byte.x00 :: le_split 2 len;
  encode_time := λ t, match t with
    | Time.GetMonotonic => [Init.Byte.x00]
    | Time.WaitMonotonic v => Init.Byte.x01 :: le_split 16 v
    end;
  encode_system_time := λ '(SystemTime.GetSystem), [Init.Byte.x00];
  decode_u128 := λ bs, if bool_decide (length bs = 16%nat) then Some (le_combine bs) else None;
  decode_generate_response := λ bs, match bs with
    | len :: result => if bool_decide (byte_to_Z len = 4 * Z.of_nat (length result))
                       then Some {| Random.result := result |} else None
    | [] => None
    end;
  decode_interface_message := λ bs, match bs with
    | Init.Byte.x00 :: h => if bool_decide (length h = 32%nat) then Some (Interface.Register h) else None
    | _ => None
    end;
  encode_register_response := λ r, match Interface.result r with
    | inr _ => [Init.Byte.x00]
    | inl _ => [Init.Byte.x01; Init.Byte.x00]
    end;
  encode_loader := λ '(Loader.Load h), Init.Byte.x00 :: h;
  decode_load_response := λ bs, match bs with
    | Init.Byte.x00 :: len :: result => if bool_decide (byte_to_Z len = 4 * Z.of_nat (length result))
        then Some {| Loader.result := inr result |} else None
    | [Init.Byte.x01] => Some {| Loader.result := inl tt |}
    | _ => None
    end;
|}.

#[global] Instance small_scale_laws : ScaleLaws.
Proof.
  split.
  - intros bs v. simpl. case_bool_decide as Hlen; [|done]. intros [= <-].
    pose proof (le_combine_range bs) as Hr. by rewrite Hlen in Hr.
  - intros [|[] h] h'; simpl; try done. case_bool_decide; [|done]. by intros [= <-].
Qed.

(** A memory of a fixed size. *)
Definition flat_memory : ExtrinsicsMemoryAccess bytes := {|
  ma_read_memory := λ m a b, Done (if bool_decide (0 ≤ a ≤ b ∧ b ≤ Z.of_nat (length m))
    then Some (take (Z.to_nat (b - a)) (drop (Z.to_nat a) m)) else None);
  ma_write_memory := λ off bs m,
    if bool_decide (0 ≤ off ∧ off + Z.of_nat (length bs) ≤ Z.of_nat (length m))
    then Done (Some tt, take (Z.to_nat off) m ++ bs ++ drop (Z.to_nat off + length bs) m)
    else Done (None, m);
|}.

Lemma flat_memory_ok : accessor_ok flat_memory (λ _, True).
Proof.
  split.
  - intros m a b _ Hab Hb. eexists. split; [done|]. intros bs. case_bool_decide; [|done].
    intros [= <-]. rewrite length_take, length_drop. lia.
  - intros off bs m _. simpl. case_bool_decide; eauto.
Qed.

(** * The witnesses *)

Definition word (s : list Z) : bytes := byte_of_Z <$> s.

(** A directory with one file, [a], that holds "hello_text". *)
Definition hello_text : bytes := word [104; 101; 108; 108; 111].
Definition a_file : Inode := File 2 hello_text.
Definition a_dir : Inode := Directory 1 {[ word [97] := a_file ]}.
Definition wasi1 : WasiExtrinsics :=
  {| args := []; env_vars := []; file_system := a_dir;
     file_descriptors := [ Some Fd_Empty; Some (Fd_LogOut Log.Info); None;
                           Some (Fd_FilesystemEntry a_dir 0); Some (Fd_FilesystemEntry a_file 1) ] |}.

Lemma wasi1_ok : wasi_ok wasi1.
Proof.
  split; [|discriminate]. intros n f Hf. apply list_elem_of_lookup_2 in Hf. unfold wasi1 in Hf.
  cbn [file_descriptors] in Hf.
  repeat (apply elem_of_cons in Hf as [Hf|Hf]; [try discriminate Hf; injection Hf as ->|]).
  - exact I.
  - exact I.
  - reflexivity.
  - unfold fd_ok, a_file. split; [lia|]. vm_compute. discriminate.
  - by apply elem_of_nil in Hf.
Qed.

(** Two buffers of 2 and 8 bytes at 32 and 40, their list at 0, the result at
    16, the path at 24. *)
Definition memory1 : bytes :=
  u32_to_le_bytes 32 ++ u32_to_le_bytes 2 ++ u32_to_le_bytes 40 ++ u32_to_le_bytes 8 ++
  replicate 8 Init.Byte.x00 ++ word [97] ++ replicate 7 Init.Byte.x00 ++ word [72; 105] ++
  replicate 6 Init.Byte.x00 ++ word [33; 10; 10; 10; 10; 10; 10; 10] ++ replicate 16 Init.Byte.x00.

Definition written (l : list (Z * bytes)) (m : bytes) : bytes :=
  foldl (λ m '(off, bs), match ma_write_memory flat_memory off bs m with
                         | Done (_, m) => m | _ => m end) m l.

(** A sequence of writes, by evaluation. *)
Ltac eval_writes :=
  match goal with
  | |- writes ?ma ?l ?m ?m' =>
      let l' := eval vm_compute in l in
      change (writes ma l' m m')
  end;
  repeat (econstructor; [vm_compute; reflexivity|]);
  match goal with
  | |- writes ?ma [] ?m ?m' =>
      let e := fresh in
      assert (e : m = m') by by_vm; rewrite e; constructor
  end.

Lemma wasi_new_context_ok_witness :
  wp wasi_panics (wasi_new_context flat_memory FdRead [I32 4; I32 0; I32 2; I32 16] (wasi1, memory1))
    (λ '((ctxt, action), (w', m')), True ∧ wasi_ok w' ∧ wasi_action_ok ctxt action ∧
      Some TI32 = Some TI32).
Proof.
  apply (wasi_new_context_ok flat_memory (λ _, True)
    (wasi_function FdRead "fd_read" [TI32; TI32; TI32; TI32] (Some TI32))
    [I32 4; I32 0; I32 2; I32 16] wasi1 memory1).
  - unfold wasi_supported_extrinsics. do 11 right. left.
  - reflexivity.
  - exact flat_memory_ok.
  - exact I.
  - exact wasi1_ok.
Defined.

Lemma fd_close_ok_witness :
  ∃ w', (is_open wasi1 4 → is_open w' 4 → False) ∧ other_fds 4 wasi1 w' ∧
    (is_open wasi1 4 → last (file_descriptors w') ≠ Some None) ∧ (¬ is_open wasi1 4 → w' = wasi1) ∧
    wasi_new_context flat_memory FdClose [I32 (Z.of_nat 4)] (wasi1, memory1)
    = Done ((Finished, Action_Resume (Some (I32
        match file_descriptors wasi1 !! 4%nat with Some (Some _) => 0 | _ => ERRNO_BADF end))), (w', memory1)).
Proof. apply (fd_close_ok flat_memory 4 wasi1 memory1). unfold u32_max. lia. Defined.

Lemma path_open_ok_witness :
  ∃ w', ¬ is_open wasi1 2 ∧ (∀ k, (k < 2)%nat → is_open wasi1 k) ∧
    file_descriptors w' !! 2%nat = Some (Some (Fd_FilesystemEntry a_file 0)) ∧
    other_fds 2 wasi1 w' ∧
    wasi_new_context flat_memory PathOpen [I32 (Z.of_nat 3); I32 0; I32 24; I32 (Z.of_nat 1);
      I32 0; I64 0; I64 0; I32 0; I32 16] (wasi1, memory1)
    = Done ((Finished, Action_Resume (Some (I32 0))), (w', written [(16, u32_to_le_bytes 2)] memory1)).
Proof.
  apply (path_open_ok flat_memory 3 a_dir 0 0 24 (word [97]) 0 0 0 0 16 a_file wasi1 memory1
    (written [(16, u32_to_le_bytes 2)] memory1)); unfold u32_max, u64_max; try (simpl; lia); try reflexivity.
Defined.

Lemma fd_read_ok_witness :
  let bufs := [(32, 2); (40, 8)] in
  let data := drop 1 hello_text in
  let total := scattered bufs data in
  let m' := written (scatter bufs data ++ [(16, u32_to_le_bytes (Z.of_nat total))]) memory1 in
  wasi_new_context flat_memory FdRead [I32 (Z.of_nat 4); I32 0; I32 (Z.of_nat 2); I32 16] (wasi1, memory1)
  = Done ((Finished, Action_Resume (Some (I32 0))),
      (with_fds (<[4%nat := Some (Fd_FilesystemEntry (File 2 hello_text) (1 + Z.of_nat total))]>
        (file_descriptors wasi1)) wasi1, m')) ∧
  concat (scatter bufs data).*2 = take total data ∧
  (Forall (λ b, 0 < b.2) bufs →
    Z.of_nat total = Z.min (foldr Z.add 0 bufs.*2) (Z.of_nat (length hello_text) - 1)).
Proof.
  intros bufs data total m'.
  apply (fd_read_ok flat_memory 4 2 hello_text 1 0 bufs 16 wasi1 memory1 m');
    unfold u32_max; try (simpl; lia); try reflexivity.
  - exact wasi1_ok.
  - unfold bufs_ok, bufs. rewrite !Forall_cons. unfold is_u32. simpl. split_and!; try lia. by constructor.
  - eval_writes.
Defined.

Lemma fd_seek_ok_witness :
  let new := seek_target 1 5 (-1) WHENCE_CUR in
  0 ≤ new ≤ 5 ∧ (WHENCE_CUR = WHENCE_CUR → -1 < 0 → new = 5) ∧
  wasi_new_context flat_memory FdSeek [I32 (Z.of_nat 4); I64 (-1); I32 WHENCE_CUR; I32 16] (wasi1, memory1)
  = Done ((Finished, Action_Resume (Some (I32 0))),
      (with_fds (<[4%nat := Some (Fd_FilesystemEntry (File 2 hello_text) new)]> (file_descriptors wasi1)) wasi1,
       written [(16, u64_to_le_bytes 5)] memory1)).
Proof.
  apply (fd_seek_ok flat_memory 4 2 hello_text 1 (-1) WHENCE_CUR 16 wasi1 memory1
    (written [(16, u64_to_le_bytes 5)] memory1)); unfold u32_max, u8_max; try (simpl; lia); try reflexivity.
  - exact wasi1_ok.
  - right. left.
Defined.

Definition datas1 : list (Z * bytes) := [(32, word [72; 105]); (40, word [33; 10; 10; 10; 10; 10; 10; 10])].

Lemma fd_write_ok_witness :
  let msg := concat datas1.*2 in
  let m' := written [(16, u32_to_le_bytes (Z.of_nat (length msg)))] memory1 in
  let ctxt := Ctx_Resume (Some (I32 0)) in
  wasi_new_context flat_memory FdWrite [I32 (Z.of_nat 1); I32 0; I32 (Z.of_nat 2); I32 16] (wasi1, memory1)
  = Done ((ctxt, Action_EmitMessage Log.INTERFACE (Log.log Log.Info msg) false), (wasi1, m')) ∧
  Log.decode (Log.log Log.Info msg) = Done (if utf8_valid msg
    then inr {| Log.dl_level := Log.Info; Log.buffer := Log.log Log.Info msg |} else inl tt) ∧
  wasi_inject_message_response flat_memory ctxt None (wasi1, m')
  = Done ((Finished, Action_Resume (Some (I32 0))), (wasi1, m')).
Proof.
  intros msg m'. apply (fd_write_ok flat_memory 1 Log.Info datas1 0 16 wasi1 memory1 m');
    unfold u32_max; try (simpl; lia); try reflexivity.
  repeat (constructor; [split_and!; [simpl; lia|simpl; unfold u32_max; lia|unfold reads; by_vm]|]).
  constructor.
Defined.

Lemma random_get_ok_witness :
  let answers := [word [8; 1; 2]; word [4; 3]] in
  let rs := [word [1; 2]; word [3]] in
  let m' := written (consecutive 32 rs) memory1 in
  let n := Z.of_nat (length (concat rs)) in
  wasi_new_context flat_memory RandomGet [I32 32; I32 3] (wasi1, memory1)
  = Done ((WaitRandom 32 3, request 3), (wasi1, memory1)) ∧
  (0 < 3 → serve flat_memory answers (WaitRandom 32 3, request 3) (wasi1, memory1)
    = Done (if decide (n = 3) then (Finished, Action_Resume (Some (I32 0)))
            else (WaitRandom (32 + n) (3 - n), request (3 - n)), (wasi1, m'))) ∧
  (3 = 0 → ∀ a m1, decode_generate_response a = Some {| Random.result := [] |} →
    ma_write_memory flat_memory 32 [] memory1 = Done (Some tt, m1) →
    serve flat_memory [a] (WaitRandom 32 3, request 3) (wasi1, memory1) = Panic PAssert).
Proof.
  intros answers rs m'. apply (random_get_ok flat_memory 32 3 answers rs wasi1 memory1 m');
    unfold u32_max; try (simpl; lia).
  - repeat constructor; done || by_vm.
  - eval_writes.
Defined.

(** [fd_write] under the wrapper that logs the calls. *)
Definition fd_write_item : SupportedExtrinsic (@ExtrinsicId (WasiImpl 1)) :=
  {| se_id := FdWrite : @ExtrinsicId (WasiImpl 1); wasm_interface := "wasi_snapshot_preview1";
     function_name := "fd_write"; se_signature := Signature_new (replicate 4 TI32) (Some TI32) |}.

Definition wrapped1 : @Ext (LogImpl (WasiImpl 1)) :=
  {| log_inner := (wasi1 : @Ext (WasiImpl 1)); log_level := Log.Trace |}.

Lemma log_transparent_witness :
  let params := [I32 1; I32 0; I32 2; I32 16] in
  let msg := concat datas1.*2 in
  let m' := written [(16, u32_to_le_bytes (Z.of_nat (length msg)))] memory1 in
  let text := str "wasi_snapshot_preview1::fd_write(I32(1), I32(0), I32(2), I32(16)) -> Some(I32(0))" in
  (∃ ctxt, (r ← new_context (Extrinsics := LogImpl (WasiImpl 1)) flat_memory 0
      (se_id (log_next (WasiImpl 1) fd_write_item)) params;
     drive flat_memory [None; None] r)
    (wrapped1, memory1)
  = Done (([Action_EmitMessage Log.INTERFACE (Log.log Log.Info msg) false;
            Action_EmitMessage Log.INTERFACE (Log.log Log.Trace text) false],
           (ctxt, Action_Resume (Some (I32 0)))),
      (wrapped1, m'))) ∧
  (utf8_valid text = true → Log.decode (Log.log Log.Trace text)
    = Done (inr {| Log.dl_level := Log.Trace; Log.buffer := Log.log Log.Trace text |})).
Proof.
  intros params msg m' text.
  apply (log_transparent (TInner := WasiImpl 1) flat_memory fd_write_item 0 params [None] Log.Trace wasi1 memory1
    (Ctx_Resume (Some (I32 0)), Action_EmitMessage Log.INTERFACE (Log.log Log.Info msg) false) (wasi1, m')
    [Action_EmitMessage Log.INTERFACE (Log.log Log.Info msg) false] Finished
    (Action_Resume (Some (I32 0))) wasi1 m'); [by_vm|by_vm|exact I|reflexivity].
Defined.

(** * A kernel whose programs call WASI *)

#[local] Instance wasi_extrinsics : Extrinsics := WasiImpl 1.

(** Writes "abc" to its standard output, and returns. *)
Definition logger : wasmi_Module := Build_toy_module
  [("wasi_snapshot_preview1", "fd_write",
    to_wasmi_Signature (Signature_new (replicate 4 TI32) (Some TI32)))]%string
  (Some emitter_memory) "_start" [TCall 0 (i32s [1; 32; 1; 40]); TReturn None] [].

(** The message reaches the handler of the log as soon as there is one, and the
    program goes on to its end. *)
Example wasi_run :
  (b ← Core_new;
   '(_, b) ← reserve_n 1 b;
   c ← core_build b;
   '(_, c) ← core_execute logger c;
   '(_, c) ← on_px (drop_proc 1) c;
   '(ev1, c) ← core_run 10 c;
   '(_, c) ← set_interface_handler 10 Log.INTERFACE 0 c;
   '(ev2, c) ← core_run 10 c;
   '(ev3, c) ← core_run 10 c;
   Done [ev1; ev2; ev3])
  = Done [ThreadWaitUnavailableInterface 0 Log.INTERFACE;
          ReservedPidInterfaceMessage 1 None Log.INTERFACE (Log.log Log.Info (word [97; 98; 99]));
          ProgramFinished 1 [] [] [] (inr None)].
Proof. by_vm. Qed.
