(* ===== verification/ScenariosSystem.v ===== *)
(** A concrete system: one native program, which handles an interface, and
    processes that use it.  The theorems on native programs and on the system
    are applied to its states. *)
From S2P Require Import Prelude IdPool WasmValue Ffi Calls Vm ToyVm ExtrinsicsApi Processes.
From S2P Require Import ProcessesFrame Extrinsics ExtrinsicsInv ExtrinsicsLocks ExtrinsicsLife.
From S2P Require Import Ipc IpcInv IpcWake IpcCore IpcHandlers IpcReserved Scenarios ScenariosIpc.
From S2P Require Import Messages ScenariosWasi Native System SystemInv SystemBuild.

(** * A native program *)

(** It has a list of things to do, and remembers what it was told. *)
Inductive told :=
  | Told_message (interface : InterfaceHash) (message_id : option MessageId) (pid : Pid) (m : EncodedMessage)
  | Told_destroyed (pid : Pid)
  | Told_response (message_id : MessageId) (response : unit + EncodedMessage)
  | Told_id (message_id : MessageId).

Record script := { todo : list (NativeProgramEvent unit); heard : list told }.

Definition hear (t : told) : M script unit :=
  modify (λ p, {| todo := todo p; heard := heard p ++ [t] |}).

#[global] Instance script_program : NativeProgramRef := {|
  Prog := script;
  MessageIdWrite := unit;
  next_event_poll := λ p, match todo p with
    | ev :: rest => Done (Ready ev, {| todo := rest; heard := heard p |})
    | [] => Done (Pending, p)
    end;
  np_interface_message := λ i mid pid m, hear (Told_message i mid pid m);
  np_process_destroyed := λ pid, hear (Told_destroyed pid);
  np_message_response := λ mid r, hear (Told_response mid r);
  np_acknowledge := λ _ mid, hear (Told_id mid);
|}.

Definition event_hash (ev : NativeProgramEvent unit) : Prop :=
  match ev with NpEmit i _ _ => is_hash i | _ => True end.

#[global] Instance script_laws : NativeProgramLaws.
Proof.
  refine {| np_inv := λ p : Prog, Forall event_hash (todo p); np_panics := no_panic |}; try done.
  intros [[|ev rest] heard]; simpl; [done|]. intros [Hev Hrest]%Forall_cons. split; [done|]. by destruct ev.
Defined.

(** * The crates that modules use *)

(** The answerer sends an answer under the identifier 2. *)
Definition answerer : wasmi_Module := Build_toy_module
  [("redshirt", "emit_answer", to_wasmi_Signature (Signature_new (replicate 3 TI32) None))]%string
  (Some (u64_to_le_bytes 2 ++ replicate 24 Init.Byte.x00)) "_start"
  [TCall 0 (i32s [0; 8; 1]); TReturn None] [].

#[global] Instance toy_crates : ModuleCrates := {|
  Module_from_buffer := λ bs, match bs with
    | [Init.Byte.x01] => Some (emitter_of 1 [TReturn None])
    | [Init.Byte.x02] => Some answerer
    | _ => None
    end;
  blake3_hash := λ bs, replicate 32 (default Init.Byte.x00 (head bs));
  bs58_decode_into_32 := λ s, let bs := String.list_byte_of_string s in
    if bool_decide (length bs ≤ 32)%nat then Some bs else None;
|}.

#[global] Instance toy_crates_laws : ModuleCratesLaws.
Proof.
  split.
  - intros bs. apply length_replicate.
  - intros s out. simpl. case_bool_decide; [|done]. by intros [= <-].
Qed.

(** * The system *)

Definition register_hash0 : EncodedMessage := Init.Byte.x00 :: hash0.

Definition handler : script :=
  {| todo := [NpEmit Interface.INTERFACE None register_hash0]; heard := [] |}.

Definition module_of (b : Init.Byte.byte) : Module_ :=
  {| m_inner := default answerer (Module_from_buffer [b]); m_hash := ModuleHash_from_bytes [b] |}.

Definition startup1 : list Module_ := [module_of Init.Byte.x01].

Definition built (o : outcome (NewErr + System)) (d : System) : System :=
  match o with Done (inr s) => s | _ => d end.
Definition next_state {A} (o : outcome (A * System)) (d : System) : System :=
  match o with Done (_, s) => s | _ => d end.

Definition no_system : System :=
  {| sys_core := empty_core; native_programs := []; loader_pid := 0; programs_to_load := [];
     load_source_virtual_pid := 0; loading_programs := ∅ |}.

Definition sys0 : System := Eval vm_compute in built
  (mbind (M := outcome) (system_build 10) (configured [handler] startup1 [])) no_system.
Definition sys1 : System := Eval vm_compute in next_state (poll_step 19 sys0) no_system.
Definition sys2 : System := Eval vm_compute in next_state (poll_step 18 sys1) no_system.
Definition sys3 : System := Eval vm_compute in next_state (poll_step 17 sys2) no_system.
Definition sys4 : System := Eval vm_compute in next_state (poll_step 16 sys3) no_system.

(** The process emits before the interface has a handler; the native program
    registers itself, is given the message, and the process ends without
    waiting for the answer. *)
Example system_run :
  run_poll 20 sys0 = Done (Ready (SysProgramFinished 3 (inr tt)), sys4) ∧
  heard ∘ ad_inner ∘ snd <$> native_programs sys4
  = [[Told_message hash0 (Some 2) 3 [Init.Byte.x61; Init.Byte.x62; Init.Byte.x63]; Told_destroyed 3]].
Proof. split; by_vm. Qed.

(** * Its states satisfy the invariant *)

(** A module can be started when there is no process and nobody waits. *)
Lemma alone_exec_ready module c :
  processes (px_inner (core_processes c)) = ∅ → local_run_queue (core_processes c) = [] →
  forallb (λ p, match p.2 with Is_Requested _ _ => false | _ => true end) (map_to_list (interfaces c)) = true →
  match assign (pid_pool (px_inner (core_processes c))) with
  | Done (pid, _) => bool_decide (pid ∉ reserved_pids c)
  | _ => false
  end = true →
  (∀ (d : Thread (LocalThreadUserData (TTud := unit))),
    match ProcessStateMachine_new module d (resolve_extrinsic (px_inner (core_processes c))) with
    | Done (inr vm) => bool_decide (is_Some (memory vm)) | _ => true end = true) →
  exec_ready module c.
Proof.
  intros Hps Hq Hi Hpid Hmem. split_and!; [split_and!|..].
  - intros id tp _. split; [rewrite Hq; apply not_elem_of_nil|]. intros h d Hd.
    apply ud_pl in Hd as [x Hx]. unfold pl in Hx. by rewrite Hps, lookup_empty in Hx.
  - intros pid pp _. by rewrite Hps.
  - intros d vm Hnew. specialize (Hmem d). rewrite Hnew in Hmem. by destruct (memory vm).
  - intros id tp _ i threads other Hr. rewrite forallb_forall in Hi.
    by specialize (Hi _ (proj1 (list_elem_of_In _ _) (proj2 (elem_of_map_to_list _ _ _) Hr))).
  - intros pid pp Hp. rewrite Hp in Hpid. by apply bool_decide_eq_true in Hpid.
Qed.

Definition sb0 : outcome SystemBuilder := Eval vm_compute in configured [handler] startup1 [].
Definition initial : Core := Eval vm_compute in state_of
  (sb ← sb0; c ← core_build (sb_core sb);
   set_interface_handler 10 Interface.INTERFACE (interface_interface_pid sb) c) empty_core.

Lemma startup_ready sb c c' :
  configured [handler] startup1 [] = Done sb → core_build (sb_core sb) = Done c →
  set_interface_handler 10 Interface.INTERFACE (interface_interface_pid sb) c = Done (inr tt, c') →
  can_start startup1 c'.
Proof.
  intros Hsb Hc Hset. assert (c' = initial) as ->.
  { assert (He : (sb ← configured [handler] startup1 []; c ← core_build (sb_core sb);
      set_interface_handler 10 Interface.INTERFACE (interface_interface_pid sb) c) = Done (inr tt, initial)) by by_vm.
    rewrite Hsb in He. simpl in He. rewrite Hc in He. simpl in He. rewrite Hset in He. by injection He. }
  split; [|done]. apply alone_exec_ready; [done..|by_vm|by_vm|intros d; by_vm].
Qed.

Lemma handler_inv : Forall np_inv [handler].
Proof. repeat constructor. Qed.

Lemma sys0_ok : system_ok sys0.
Proof.
  pose proof (system_build_sound 10 [handler] startup1 [] handler_inv startup_ready) as Hb.
  assert (He : mbind (M := outcome) (system_build 10) (configured [handler] startup1 []) = Done (inr sys0)) by by_vm.
  rewrite He in Hb. apply Hb.
Qed.

(** No module is being loaded. *)
Lemma step_ready_none fuel s :
  load_pending fuel s = Done (tt, s) → loading_programs s = ∅ → step_ready fuel s.
Proof.
  intros Hl He s1 ev c Hs1 _. rewrite Hl in Hs1. injection Hs1 as <-. destruct ev; try done. simpl.
  rewrite He. intros Hin. by apply not_elem_of_empty in Hin.
Qed.

Lemma steps :
  poll_step 19 sys0 = Done (None, sys1) ∧ poll_step 18 sys1 = Done (None, sys2) ∧
  poll_step 17 sys2 = Done (None, sys3) ∧
  poll_step 16 sys3 = Done (Some (Ready (SysProgramFinished 3 (inr tt))), sys4).
Proof. split_and!; by_vm. Qed.

Lemma poll_ready_step fuel s r s1 :
  step_ready fuel s → poll_step fuel s = Done (r, s1) →
  match r with None => poll_ready fuel s1 | Some _ => True end → poll_ready (S fuel) s.
Proof. intros Hs Hp Hr. split; [done|]. intros s' Hs'. rewrite Hp in Hs'. injection Hs' as -> <-. done. Qed.

Lemma poll_ready0 : poll_ready 20 sys0.
Proof.
  destruct steps as (H0 & H1 & H2 & H3).
  apply (poll_ready_step _ _ _ _ (step_ready_none 19 sys0 ltac:(by_vm) ltac:(by_vm)) H0).
  apply (poll_ready_step _ _ _ _ (step_ready_none 18 sys1 ltac:(by_vm) ltac:(by_vm)) H1).
  apply (poll_ready_step _ _ _ _ (step_ready_none 17 sys2 ltac:(by_vm) ltac:(by_vm)) H2).
  by apply (poll_ready_step _ _ _ _ (step_ready_none 16 sys3 ltac:(by_vm) ltac:(by_vm)) H3).
Qed.

Lemma sys4_ok : system_ok sys4.
Proof.
  pose proof (run_poll_sound 20 sys0 sys0_ok poll_ready0) as Hr.
  rewrite (proj1 system_run) in Hr. apply Hr.
Qed.

(** * The theorems *)

Lemma handler_col : col_inv (native_programs sys0).
Proof. apply sys0_ok. Qed.

Lemma native_next_event_ok_witness :
  col_inv (native_programs sys0) ∧
  wp np_panics (next_event (native_programs sys0)) (λ '(r, col'),
    col_inv col' ∧ polled_from 0 (native_programs sys0) r col').
Proof. split; [apply handler_col|]. apply (native_next_event_ok _ handler_col). Defined.

Definition the_write : MessageIdWriteAdapter := {| mw_process := 0; mw_inner := Some (tt : @MessageIdWrite script_program) |}.

Definition adapter0 : Adapter :=
  {| ad_inner := handler; ad_registered_interfaces := ∅; expected_responses := ∅ |}.

Lemma native_response_returns_witness :
  (_ ← acknowledge the_write 5; message_response 5 (inr []))
    [(2, adapter0)]
  = Done (tt, [(2, with_inner {| todo := todo handler; heard := [Told_id 5; Told_response 5 (inr [])] |} adapter0)]).
Proof.
  apply (native_response_returns the_write (tt : @MessageIdWrite script_program) 5 (inr []) [(2, adapter0)] 2
    adapter0 {| todo := todo handler; heard := [Told_id 5] |}
    {| todo := todo handler; heard := [Told_id 5; Told_response 5 (inr [])] |}); try reflexivity.
  intros pid a Hin. apply list_elem_of_singleton in Hin as [= -> ->]. simpl. apply not_elem_of_empty.
Defined.

(** The same system, once the loader is registered, with a program to load. *)
Definition loading_system : System :=
  with_loader_pid 9 (with_programs_to_load [replicate 32 Init.Byte.x01] sys4).

Lemma loading_system_ok : system_ok loading_system.
Proof. by destruct sys4_ok. Qed.

Lemma system_load_ok_witness :
  loader_pid loading_system ≠ 0 ∧
  wlp (starved_later 5 (sys_core loading_system)) notif_panics (load_pending 5 loading_system) (λ '(_, s'),
    system_ok s' ∧ if decide (loader_pid loading_system = 0) then s' = loading_system
    else requested (programs_to_load loading_system) loading_system s' ∧ programs_to_load s' = []).
Proof. split; [done|]. apply (system_load_ok 5 loading_system loading_system_ok). Defined.

Lemma system_register_ok_witness :
  wlp (starved_later 5 (sys_core sys4)) (register_panics 2 register_hash0 (sys_core sys4))
    (handle_register 5 2 (Some 2) register_hash0 sys4)
    (λ '(now, s'), system_ok s' ∧ registered 2 (Some 2) register_hash0 sys4 now s').
Proof. apply (system_register_ok 5 2 (Some 2) register_hash0 sys4 sys4_ok). Defined.

Lemma load_ready_none ev c s : loading_programs s = ∅ → load_ready ev (with_core c s).
Proof. intros He. destruct ev; try done. simpl. rewrite He. intros Hin. by apply not_elem_of_empty in Hin. Qed.

Lemma system_run_once_ok_witness :
  wlp (core_spins 10 (sys_core sys0) ∨
       ∃ ev c, core_run 10 (sys_core sys0) = Done (ev, c) ∧ starved_later 10 c)
    (λ r, core_panics r ∨
       ∃ ev c, core_run 10 (sys_core sys0) = Done (ev, c) ∧ outcome_panics ev (with_core c sys0) r)
    (system_run_once 10 sys0) (λ '(out, s'), system_ok s' ∧
      ∃ ev c, core_run 10 (sys_core sys0) = Done (ev, c) ∧ dispatched ev (with_core c sys0) out s').
Proof.
  apply (system_run_once_ok 10 sys0 sys0_ok). intros ev c _. apply load_ready_none. by_vm.
Defined.

Lemma native_step_ok_witness :
  wlp (starved 5 (sys_core sys0)) native_step_panics (native_step 5 sys0) (λ '(_, s'), system_ok s').
Proof. apply (native_step_ok 5 sys0 sys0_ok). Defined.

Lemma run_poll_ok_witness :
  run_poll 20 sys0 = Done (Ready (SysProgramFinished 3 (inr tt)), sys4) ∧ system_ok sys4.
Proof.
  split; [apply system_run|]. pose proof (run_poll_ok 20 sys0 sys0_ok poll_ready0) as Hr.
  rewrite (proj1 system_run) in Hr. apply Hr.
Defined.

Lemma system_build_ok_witness :
  mbind (M := outcome) (system_build 10) (configured [handler] startup1 []) = Done (inr sys0) ∧
  system_ok sys0 ∧ ad_inner <$> (native_programs sys0).*2 = [handler].
Proof.
  assert (He : mbind (M := outcome) (system_build 10) (configured [handler] startup1 []) = Done (inr sys0)) by by_vm.
  split; [exact He|]. pose proof (system_build_ok 10 [handler] startup1 [] handler_inv startup_ready) as Hb.
  rewrite He in Hb. destruct Hb as (Hs & Hn & _). split; [exact Hs|exact Hn].
Defined.

(** A process that answers the message of the one that has ended. *)
Definition sys5 : System :=
  Eval vm_compute in next_state (system_execute (module_of Init.Byte.x02) sys4) no_system.

Lemma sys5_executed : execute_pid (module_of Init.Byte.x02) (sys_core sys4) = Done (inr 4, sys_core sys5).
Proof. by_vm. Qed.

Lemma sys5_ok : system_ok sys5.
Proof.
  pose proof (execute_pid_sound (module_of Init.Byte.x02) (sys_core sys4) (so_core _ sys4_ok)) as Hx.
  rewrite sys5_executed in Hx. destruct Hx as (Hc & Hr & _).
  { apply alone_exec_ready; [by_vm..|intros d; by_vm]. }
  change sys5 with (with_core (sys_core sys5) sys4). by apply system_with_core; [apply sys4_ok|..].
Qed.

Definition px5 : PX1 := Eval vm_compute in
  match px_run 10 (core_processes (sys_core sys5)) with Done (_, s) => s | _ => core_processes empty_core end.

Lemma orphan_response_stops_witness : system_run_once 11 sys5 = Panic PExplicit.
Proof.
  apply (orphan_response_stops 10 1 4 2 [Init.Byte.x00] 3 sys5 px5 sys5_ok); [by_vm..|].
  split; [apply (bool_decide_unpack _); vm_compute; exact I|].
  intros pid a Hin. unfold sys5 in Hin. cbn [native_programs] in Hin.
  apply list_elem_of_singleton in Hin as [= -> ->]. apply not_elem_of_empty.
Defined.
