(* ===== verification/ScenariosStandalone.v ===== *)
(** A concrete platform and codec for the programs of the standalone kernel,
    and the theorems on these programs applied to concrete requests. *)
From S2P Require Import Prelude Ffi Messages Native Hardware Standalone StandaloneInv ScenariosIpc ScenariosWasi.

(** * A platform *)

(** Memory without devices, a clock that advances by a microsecond per access,
    and an allocator that always gives the same place. *)
#[global] Instance toy_platform : Platform := {|
  read_volatile := λ tr w a, default 0 (ram_read tr w a);
  read_port := λ _ _ port, if bool_decide (port < 65536) then Some 7 else None;
  monotonic_clock := λ tr, 1000 * Z.of_nat (length tr);
  with_capacity := λ _ capacity, if bool_decide (capacity ≤ 1048576) then Some 4097 else None;
|}.

#[global] Instance toy_platform_laws : PlatformLaws.
Proof. split. intros tr c ptr. simpl. case_bool_decide; [|done]. intros [= <-]. unfold u64_max. lia. Qed.

#[global] Instance toy_platform_memory : PlatformMemory.
Proof. split. intros tr w a v Hv. simpl. by rewrite Hv. Qed.

(** The first timer that has expired. *)
Definition expired (now : Z) (t : TimerFuture) : bool :=
  match t with Some (v, _) => bool_decide (v ≤ now) | None => false end.

#[global] Instance toy_timers : Timers := {|
  fired := λ tr l, fst <$> list_find (λ t, expired (monotonic_clock tr) t) l;
|}.

#[global] Instance toy_timers_laws : TimersLaws.
Proof.
  split.
  - intros tr l i Hf. apply fmap_Some in Hf as ([j t] & Hf & ->). apply list_find_Some in Hf as (Hi & Ht & _).
    destruct t as [[v id]|]; [|done]. exists v, id. split; [done|]. by apply bool_decide_unpack in Ht.
  - intros tr l v id Hf Hin. apply fmap_None, list_find_None in Hf.
    rewrite Forall_forall in Hf. specialize (Hf _ Hin). apply Z.nle_gt. intros Hv. apply Hf.
    simpl. by apply bool_decide_pack.
Qed.

(** Generators that count. *)
#[global] Instance toy_rng_crates : RngCrates := {|
  JitterRng := Z;
  new_with_timer := 0;
  test_timer := λ timer rng, (now ← timer; mret (Some 64, rng + now));
  set_rounds := λ rounds rng, if bool_decide (0 < rounds) then Done rng else Panic PAssert;
  jitter_next_u64 := λ timer rng, (now ← timer; mret (now, rng + now));
  jitter_fill_bytes := λ timer rng n, (now ← timer; mret (replicate n (byte_of_Z now), rng));
  blake3 := λ bs, replicate 32 (default Init.Byte.x00 (head bs));
  ChaCha20Rng := Z;
  from_seed := λ seed, byte_to_Z (default Init.Byte.x00 (head seed));
  fill_bytes := λ n rng, ((λ i, byte_of_Z ((rng + Z.of_nat i) mod 256)) <$> seq 0 n, rng + Z.of_nat n);
  RdRand_new := true;
  rdrand_get_u64 := λ tr, if bool_decide (length tr < 6)%nat then Some 5 else None;
|}.

#[global] Instance toy_rng_laws : RngCratesLaws.
Proof.
  split.
  - intros timer rng tr Ht. simpl. unfold mbind, M_bind. destruct (Ht tr) as [[now tr'] ->]. simpl.
    intros rounds [= <-]. by eexists.
  - intros timer rng Ht tr. simpl. unfold mbind, M_bind. destruct (Ht tr) as [[now tr'] ->]. by eexists.
  - intros timer rng n Ht tr. simpl. unfold mbind, M_bind. destruct (Ht tr) as [[now tr'] ->]. by eexists.
  - intros n rng. simpl. by rewrite length_fmap, length_seq.
Qed.

(** A codec that knows the requests below. *)
Definition some_accesses : list Operation :=
  [ PhysicalMemoryWriteU16 0x1000 [0x1234; 0xffff]; PortWriteU8 0x60 1; PhysicalMemoryReadU8 0x1001 2;
    PortReadU32 0x10000; PhysicalMemoryReadU32 18446744073709551612 2 ].

Definition u8s (l : list Z) : bytes := byte_of_Z <$> l.

#[global] Instance toy_handlers : ScaleHandlers := {|
  encode_interface_message := λ '(Interface.Register h), Init.Byte.x00 :: h;
  decode_hardware := λ bs, match bs with
    | [Init.Byte.x00; size; alignment] => Some (Malloc (byte_to_Z size) (byte_to_Z alignment))
    | [Init.Byte.x01; ptr] => Some (Free (byte_to_Z ptr))
    | [Init.Byte.x02] => Some (HardwareAccess some_accesses)
    | [Init.Byte.x03; n] => Some (InterruptWait (byte_to_Z n))
    | _ => None
    end;
  encode_access_responses := λ rs, u8s [Z.of_nat (length rs)];
  encode_u64 := le_split 8;
  encode_u128 := le_split 16;
  encode_unit := [];
  decode_time := λ bs, match bs with
    | [Init.Byte.x00] => Some Time.GetMonotonic
    | Init.Byte.x01 :: v => if bool_decide (length v = 16%nat) then Some (Time.WaitMonotonic (le_combine v)) else None
    | _ => None
    end;
  decode_system_time := λ bs, match bs with [Init.Byte.x00] => Some SystemTime.GetSystem | _ => None end;
  decode_random := λ bs, match bs with
    | Init.Byte.x00 :: len => if bool_decide (length len = 2%nat) then Some (Random.Generate (le_combine len)) else None
    | _ => None
    end;
  encode_generate_response := λ r, byte_of_Z (4 * Z.of_nat (length (Random.result r))) :: Random.result r;
|}.

Lemma byte_range b : 0 ≤ byte_to_Z b ≤ 255.
Proof. pose proof (coqutil.Byte.byte.unsigned_range b). unfold byte_to_Z. lia. Qed.

#[global] Instance toy_handlers_laws : ScaleHandlersLaws.
Proof.
  split.
  - intros h Hh. simpl. by rewrite bool_decide_true.
  - intros [|[] [|b1 [|b2 [|b3 bs]]]] size alignment; try done. intros [= <- <-].
    pose proof (byte_range b1). pose proof (byte_range b2). unfold u64_max, u8_max. lia.
  - intros [|[] [|b1 [|b2 [|b3 bs]]]] ops; try done.
    intros [= <-]. unfold some_accesses. rewrite !Forall_cons, Forall_nil. unfold op_ok, u64_max.
    split_and!; try done; lia.
  - intros [|[] bs] len; simpl; try done. case_bool_decide as Hlen; [|done]. intros [= <-].
    pose proof (le_combine_range bs) as Hr. rewrite Hlen in Hr. unfold u16_max. lia.
Qed.

(** * Hardware *)

Lemma hardware_access_ok_witness :
  decode_hardware (u8s [2]) = Some (HardwareAccess some_accesses) ∧
  responses [] some_accesses
  = [Resp_PhysicalMemoryReadU8 [0x12; 0xff]; Resp_PortReadU32 0; Resp_PhysicalMemoryReadU32 [0; 0]] ∧
  hardware_interface_message Hardware.INTERFACE (Some 5) 1 (u8s [2]) HardwareHandler_new =
  Done (tt, {|
    hh_requests := {| rq_registered := false; pending_messages := [(5, inr (u8s [3]))] |};
    hh_trace := [MemWrite 2 0x1000 0x1234; MemWrite 2 0x1002 0xffff; PortWrite 1 0x60 1; MemRead 1 0x1001;
                 MemRead 1 0x1002; PortRead 4 0x10000; MemRead 4 18446744073709551612];
    allocations := ∅ |}).
Proof.
  split; [reflexivity|]. split; [vm_compute; reflexivity|].
  refine (eq_trans (hardware_access_ok (Some 5) 1 (u8s [2]) some_accesses HardwareHandler_new eq_refl) _).
  vm_compute. reflexivity.
Defined.

Lemma hardware_memory_roundtrip_witness :
  fst <$> perform_all [PhysicalMemoryWriteU32 0x2000 [1; 0xdeadbeef]; PhysicalMemoryReadU32 0x2000 2]
    [MemWrite 1 0x2001 3]
  = Done [Resp_PhysicalMemoryReadU32 [1; 0xdeadbeef]].
Proof.
  apply (hardware_memory_roundtrip 4 0x2000 [1; 0xdeadbeef] [MemWrite 1 0x2001 3]).
  - apply (bool_decide_unpack _). vm_compute. exact I.
  - unfold u64_max. lia.
  - unfold u64_max. simpl. lia.
  - apply (bool_decide_unpack (Forall (λ v, 0 ≤ v < 2 ^ 32) _)). vm_compute. exact I.
  - reflexivity.
Defined.

Lemma hardware_malloc_ok_witness :
  ∃ ptr, hardware_interface_message Hardware.INTERFACE (Some 5) 1 (u8s [0; 100; 16]) HardwareHandler_new =
    Done (tt, {|
      hh_requests := {| rq_registered := false; pending_messages := [(5, inr (le_split 8 ptr))] |};
      hh_trace := [Allocate 115];
      allocations := add_buffer 1 {| buf_ptr := 4097; buf_capacity := 115; buf_len := 0 |} ∅ |}) ∧
    ptr mod 16 = 0 ∧ 4097 ≤ ptr ∧ ptr + 100 ≤ 4097 + 115.
Proof.
  destruct (hardware_malloc_ok (Some 5) 1 (u8s [0; 100; 16]) 100 16 4097 HardwareHandler_new)
    as (ptr & He & Hal & Hlo & Hhi); try reflexivity; try (unfold u8_max, usize_max, u64_max; lia).
  exists ptr. split_and!; [|exact Hal|exact Hlo|exact Hhi]. rewrite He. reflexivity.
Defined.

(** A handler with one allocation. *)
Definition with_buffer : HardwareHandler :=
  {| hh_requests := no_requests; hh_trace := [Allocate 115];
     allocations := {[ 1 := [{| buf_ptr := 4097; buf_capacity := 115; buf_len := 0 |}] ]} |}.

Lemma with_buffer_inv : hardware_inv with_buffer.
Proof. apply map_Forall_singleton. by constructor. Qed.

Lemma hardware_free_keeps_witness :
  hardware_interface_message Hardware.INTERFACE (Some 6) 1 (u8s [1; 200]) with_buffer = Done (tt, with_buffer).
Proof. apply (hardware_free_keeps (Some 6) 1 (u8s [1; 200]) 200 with_buffer with_buffer_inv). reflexivity. Defined.

Lemma hardware_requests_stop_witness :
  ∃ r, hardware_interface_message Hardware.INTERFACE (Some 6) 1 (u8s [0; 100; 0]) with_buffer = Panic r ∧
    r ∈ [PUnimplemented; POverflow; PDivZero; PExplicit].
Proof.
  apply (hardware_requests_stop (Some 6) 1 (u8s [0; 100; 0]) 100 0 0 with_buffer); [unfold u64_max; lia|lia|].
  left. split; [reflexivity|]. by left.
Defined.

(** * Time *)

(** Two timers, of which one has expired, and nothing else to answer. *)
Definition waiting : TimeHandler :=
  {| th_requests := {| rq_registered := true; pending_messages := [] |};
     th_trace := [PollTimers; PollTimers; ReadClock];
     timers := [None; Some (5000, 8); Some (2500, 9)] |}.

Lemma waiting_inv : time_inv waiting.
Proof. apply list_elem_of_here. Qed.

Lemma time_next_event_ok_witness :
  time_next_event (W := unit) waiting = Done (Ready (NpAnswer 9 (inr [])),
    {| th_requests := th_requests waiting; th_trace := th_trace waiting ++ [PollTimers];
       timers := [None; Some (5000, 8)] |}) ∧
  wp no_panic (time_next_event (W := unit) waiting) (λ '(r, h'), time_inv h' ∧
    rq_registered (th_requests h') = true ∧ time_event waiting r h').
Proof. split; [reflexivity|]. apply (time_next_event_ok waiting waiting_inv). Defined.

Lemma time_message_ok_witness :
  time_interface_message Time.INTERFACE None 1 (u8s [0]) waiting = Panic PUnwrap.
Proof. apply (time_message_ok None 1 (u8s [0]) waiting waiting_inv). Defined.

(** * Random numbers *)

Lemma random_generate_ok_witness :
  decode_random (u8s [0; 3; 0]) = Some (Random.Generate 3) ∧
  wp (λ r, r = PExplicit ∧ rngs RandomNativeProgram_new = [])
    (random_interface_message Random.INTERFACE (Some 7) 1 (u8s [0; 3; 0]) RandomNativeProgram_new)
    (λ '(_, h'), generated 7 3 RandomNativeProgram_new h').
Proof.
  split; [reflexivity|]. apply (random_generate_ok 7 1 (u8s [0; 3; 0]) 3 RandomNativeProgram_new). reflexivity.
Defined.

(** The generator is made from the clock and three words of the processor, and
    is then used again. *)
Example random_twice :
  (_ ← random_interface_message Random.INTERFACE (Some 7) 1 (u8s [0; 3; 0]);
   random_interface_message Random.INTERFACE (Some 8) 1 (u8s [0; 2; 0])) RandomNativeProgram_new
  = Done (tt, {|
      rp_requests := {| rq_registered := false; pending_messages :=
        [(7, inr (u8s [12; 208; 209; 210])); (8, inr (u8s [8; 211; 212]))] |};
      rp_trace := replicate 3 ReadClock ++ replicate 4 RdRand;
      rngs := [213] |}).
Proof. vm_compute. reflexivity. Qed.

(** * Together *)

Lemma standalone_answers_ok_witness :
  wp no_panic (next_event_poll (PTime waiting)) (λ '(ev, p'),
    standalone_inv p' ∧ answered (PTime waiting) ev p') ∧
  wp standalone_panics (np_interface_message Time.INTERFACE (Some 3) 1 (u8s [0]) (PTime waiting)) (λ '(_, p'),
    standalone_inv p' ∧ owes (Some 3) (owed (PTime waiting)) (owed p')).
Proof. apply (standalone_answers_ok (PTime waiting) Time.INTERFACE (Some 3) 1 (u8s [0]) waiting_inv). Defined.
