(* ===== verification/ScenariosKernel.v ===== *)
(** The standalone kernel on a concrete machine: it starts its programs, one of
    which logs a line, and goes to sleep. *)
From S2P Require Import Prelude IdPool WasmValue Ffi Calls Vm ToyVm ExtrinsicsApi Processes.
From S2P Require Import ProcessesFrame Extrinsics ExtrinsicsInv ExtrinsicsLocks ExtrinsicsLife.
From S2P Require Import Ipc IpcInv IpcWake IpcCore IpcHandlers IpcReserved Scenarios ScenariosIpc.
From S2P Require Import Messages ScenariosWasi Native System SystemInv SystemBuild.
From S2P Require Import Hardware Standalone StandaloneInv Kernel ScenariosStandalone.

(** * The images *)

(** Emits "\0hi" to the logs of the kernel, without asking for an answer. *)
Definition hello_memory : bytes :=
  KernelLog.INTERFACE ++ u32_to_le_bytes 48 ++ u32_to_le_bytes 3 ++ replicate 8 Init.Byte.x00 ++
  [Init.Byte.x00; Init.Byte.x68; Init.Byte.x69] ++ replicate 77 Init.Byte.x00.

Definition hello : wasmi_Module := Build_toy_module
  [("redshirt", "emit_message", emit_sig)]%string
  (Some hello_memory) "_start" [TCall 0 (i32s [0; 32; 1; 0; 1; 40]); TReturn None] [].

Definition nothing : wasmi_Module := Build_toy_module [] (Some []) "_start" [TReturn None] [].

#[global] Instance kernel_crates : ModuleCrates := {|
  Module_from_buffer := λ bs, match bs with
    | [Init.Byte.x01] => Some hello
    | [Init.Byte.x02] => Some nothing
    | _ => None
    end;
  blake3_hash := λ bs, replicate 32 (default Init.Byte.x00 (head bs));
  bs58_decode_into_32 := λ s, None;
|}.

Definition images : Images := {|
  p2p_loader_passive_node := [Init.Byte.x02];
  log_to_kernel := [Init.Byte.x02];
  hello_world := [Init.Byte.x01];
  x86_pci := [Init.Byte.x02];
  ne2000 := [Init.Byte.x02];
|}.

#[local] Existing Instance standalone_programs.
#[local] Existing Instance standalone_laws.

Definition modules : list Module_ := Eval vm_compute in default [] (startup_modules images).

Definition no_system : System :=
  {| sys_core := empty_core; native_programs := []; loader_pid := 0; programs_to_load := [];
     load_source_virtual_pid := 0; loading_programs := ∅ |}.

Definition booted : System := Eval vm_compute in
  match kernel_enter 10 images Kernel_init with Done (Looping s, _) => s | _ => no_system end.

Definition asleep : System := Eval vm_compute in
  match kernel_loop 40 booted with Done (_, s) => s | _ => no_system end.

(** The text that the programs of the kernel have printed. *)
Definition printed (s : System) : list access :=
  concat ((λ p, match ad_inner p with PLog h => lp_trace h | _ => [] end) <$> (native_programs s).*2).

Example kernel_run :
  kernel_enter 10 images Kernel_init = Done (Looping booted, {| running := true |}) ∧
  kernel_poll 40 (Looping booted) = Done (Looping asleep) ∧
  printed asleep = [WriteLog [Init.Byte.x68; Init.Byte.x69]].
Proof. split_and!; by_vm. Qed.

(** * Starting *)

(** The identifiers of the threads of a collection. *)
Definition thread_ids (s : PX1) : list ThreadId :=
  concat ((λ p, (λ t, thread_id (ts_user_data t)) <$> (threads (state_machine p.2)))
            <$> map_to_list (processes (px_inner s))).

Lemma ud_thread_ids (s : PX1) h d : ud (px_inner s) h = Some d → thread_id d ∈ thread_ids s.
Proof.
  unfold ud, thread_look. intros Hd. apply fmap_Some in Hd as (t & Ht & ->).
  apply bind_Some in Ht as (p & Hp & Ht). unfold thread_ids. apply list_elem_of_In, in_concat.
  exists ((λ t, thread_id (ts_user_data t)) <$> (threads (state_machine p))). split; apply list_elem_of_In.
  - apply list_elem_of_fmap. exists (h.1, p). split; [done|]. by apply elem_of_map_to_list.
  - apply list_elem_of_fmap. eexists. split; [done|]. by eapply list_elem_of_lookup_2.
Qed.

(** Whether a module can be started, by evaluation: nobody waits for a
    handler, and the next identifiers are not in use. *)
Definition startable_check (c : Core) : bool :=
  forallb (λ p, match p.2 with Is_Requested _ _ => false | _ => true end) (map_to_list (interfaces c)) &&
  match assign (tid_pool (px_inner (core_processes c))) with
  | Done (id, _) => bool_decide (id ∉ local_run_queue (core_processes c)) &&
      bool_decide (id ∉ thread_ids (core_processes c))
  | _ => true
  end &&
  match assign (pid_pool (px_inner (core_processes c))) with
  | Done (pid, _) => bool_decide (processes (px_inner (core_processes c)) !! pid = None) &&
      bool_decide (pid ∉ reserved_pids c)
  | _ => true
  end.

Lemma startable_check_sound module c :
  startable_check c = true →
  (∀ (d : Thread (LocalThreadUserData (TTud := unit))),
    match ProcessStateMachine_new module d (resolve_extrinsic (px_inner (core_processes c))) with
    | Done (inr vm) => bool_decide (is_Some (memory vm)) | _ => true end = true) →
  exec_ready module c.
Proof.
  unfold startable_check. intros [[Hi Ht]%andb_true_iff Hp]%andb_true_iff Hmem. split_and!; [split_and!|..].
  - intros id tp Hid. rewrite Hid in Ht. apply andb_true_iff in Ht as [Hq Hids].
    apply bool_decide_eq_true in Hq, Hids. split; [done|]. intros h d Hd <-. by apply ud_thread_ids in Hd.
  - intros pid pp Hpid. rewrite Hpid in Hp. apply andb_true_iff in Hp as [Hp _]. by apply bool_decide_eq_true in Hp.
  - intros d vm Hnew. specialize (Hmem d). rewrite Hnew in Hmem. by destruct (memory vm).
  - intros id tp _ i threads other Hr. rewrite forallb_forall in Hi.
    by specialize (Hi _ (proj1 (list_elem_of_In _ _) (proj2 (elem_of_map_to_list _ _ _) Hr))).
  - intros pid pp Hpid. rewrite Hpid in Hp. apply andb_true_iff in Hp as [_ Hp]. by apply bool_decide_eq_true in Hp.
Qed.

(** The states of the core before each of the modules is started. *)
Definition prepared : Core := Eval vm_compute in state_of
  (sb ← configured (kernel_programs : list Prog) modules []; c ← core_build (sb_core sb);
   set_interface_handler 10 Interface.INTERFACE (interface_interface_pid sb) c) empty_core.

Lemma can_start_step m ms c r c' :
  startable_check c = true →
  (∀ (d : Thread (LocalThreadUserData (TTud := unit))),
    match ProcessStateMachine_new (m_inner m) d (resolve_extrinsic (px_inner (core_processes c))) with
    | Done (inr vm) => bool_decide (is_Some (memory vm)) | _ => true end = true) →
  execute_pid m c = Done (r, c') → can_start ms c' → can_start (m :: ms) c.
Proof.
  intros Hc Hm He Hms. split; [by apply startable_check_sound|].
  intros pid c1 H1. rewrite He in H1. injection H1 as _ <-. done.
Qed.

Definition after (n : nat) : Core := state_of (start_all (take n modules) prepared) empty_core.
Definition after1 : Core := Eval vm_compute in after 1.
Definition after2 : Core := Eval vm_compute in after 2.
Definition after3 : Core := Eval vm_compute in after 3.
Definition after4 : Core := Eval vm_compute in after 4.
Definition after5 : Core := Eval vm_compute in after 5.

Lemma can_start_all : can_start modules prepared.
Proof.
  unfold modules. cbn [list_fmap].
  eapply (can_start_step _ _ _ (inr 6) after1); [by_vm|intros d; by_vm|by_vm|].
  eapply (can_start_step _ _ _ (inr 7) after2); [by_vm|intros d; by_vm|by_vm|].
  eapply (can_start_step _ _ _ (inr 8) after3); [by_vm|intros d; by_vm|by_vm|].
  eapply (can_start_step _ _ _ (inr 9) after4); [by_vm|intros d; by_vm|by_vm|].
  eapply (can_start_step _ _ _ (inr 10) after5); [by_vm|intros d; by_vm|by_vm|]. exact I.
Qed.

Lemma kernel_startable : startable 10 modules.
Proof.
  intros sb c c' Hsb Hc Hset. assert (c' = prepared) as ->; [|exact can_start_all].
  assert (He : (sb ← configured (kernel_programs : list Prog) modules []; c ← core_build (sb_core sb);
      set_interface_handler 10 Interface.INTERFACE (interface_interface_pid sb) c) = Done (inr tt, prepared)) by by_vm.
  rewrite Hsb in He. simpl in He. rewrite Hc in He. simpl in He. rewrite Hset in He. by injection He.
Qed.

Lemma kernel_modules : startup_modules images = Some modules.
Proof. by_vm. Qed.

Lemma booted_ok : system_ok booted.
Proof.
  pose proof (kernel_enter_sound 10 images modules kernel_modules kernel_startable) as Hk.
  rewrite (proj1 kernel_run) in Hk. destruct Hk as (_ & (s & Hs & Hok & _) & _).
  injection Hs as <-. exact Hok.
Qed.

Lemma kernel_enter_ok_witness :
  kernel_enter 10 images Kernel_init = Done (Looping booted, {| running := true |}) ∧
  kernel_started (Looping booted) ∧
  kernel_enter 10 images {| running := true |} = Done (Parked, {| running := true |}).
Proof.
  pose proof (kernel_enter_ok 10 images modules kernel_modules kernel_startable) as Hk.
  rewrite (proj1 kernel_run) in Hk. destruct Hk as (_ & Hs & Hp).
  split; [exact (proj1 kernel_run)|]. split; [exact Hs|exact (Hp 10%nat)].
Defined.

(** * Running *)

(** No module is loaded or about to be, at every step. *)
Fixpoint poll_check (fuel : nat) (s : System) : bool :=
  match fuel with
  | O => true
  | S fuel => bool_decide (programs_to_load s = []) && bool_decide (loading_programs s = ∅) &&
      match poll_step fuel s with Done (None, s') => poll_check fuel s' | _ => true end
  end.

Fixpoint loop_check (fuel : nat) (s : System) : bool :=
  match fuel with
  | O => true
  | S fuel => poll_check fuel s &&
      match run_poll fuel s with Done (Ready _, s') => loop_check fuel s' | _ => true end
  end.

Lemma step_ready_check fuel s :
  programs_to_load s = [] → loading_programs s = ∅ → step_ready fuel s.
Proof.
  intros Hp He s1 ev c Hs1 _.
  assert (Hl : load_pending fuel s = Done (tt, s)).
  { unfold load_pending, mbind, M_bind, get. rewrite Hp. by case_bool_decide. }
  rewrite Hl in Hs1. injection Hs1 as <-. destruct ev; try done. simpl. rewrite He. intros Hin.
  by apply not_elem_of_empty in Hin.
Qed.

Lemma poll_check_sound fuel s : poll_check fuel s = true → poll_ready fuel s.
Proof.
  revert s. induction fuel as [|fuel IH]; intros s Hs; [done|]. cbn [poll_check] in Hs.
  apply andb_true_iff in Hs as [[Hp Hl]%andb_true_iff Hs]. apply bool_decide_eq_true in Hp, Hl.
  split; [by apply step_ready_check|]. intros s' Hs'. rewrite Hs' in Hs. by apply IH.
Qed.

Lemma loop_check_sound fuel s : loop_check fuel s = true → loop_ready fuel s.
Proof.
  revert s. induction fuel as [|fuel IH]; intros s Hs; [done|]. cbn [loop_check] in Hs.
  apply andb_true_iff in Hs as [Hp Hs]. split; [by apply poll_check_sound|].
  intros r s' Hs'. rewrite Hs' in Hs. by apply IH.
Qed.

Lemma booted_ready : loop_ready 40 booted.
Proof. apply loop_check_sound. by_vm. Qed.

Lemma kernel_poll_ok_witness :
  kernel_poll 40 (Looping booted) = Done (Looping asleep) ∧
  system_ok asleep ∧ ∃ fuel, nothing_to_do fuel asleep.
Proof.
  pose proof (proj1 (proj2 kernel_run)) as He. split; [exact He|].
  pose proof (proj2 (kernel_poll_ok 40 booted booted_ok booted_ready)) as Hk. rewrite He in Hk.
  destruct Hk as (s' & Hs' & Hok & Hn). injection Hs' as <-. split; [exact Hok|exact Hn].
Defined.
