(* ===== verification/ScenariosHosted.v ===== *)
(** A concrete host for the programs of the hosted kernel, and the theorems on
    these programs applied to concrete requests. *)
From S2P Require Import Prelude Ffi Messages Native Hardware Standalone StandaloneInv Hosted.
From S2P Require Import Tcp TcpInv ScenariosIpc ScenariosWasi ScenariosStandalone.

(** A clock that advances by a microsecond per observation. *)
#[global] Instance toy_host : Host := {|
  elapsed := λ n, {| as_secs := 0; subsec_nanos := 1000 * Z.of_nat n |};
  since_epoch := λ n, Some {| as_secs := 1600000000; subsec_nanos := 1000 * Z.of_nat n |};
  host_fired := λ n l, fst <$> list_find (λ t, expired (1000 * Z.of_nat n) t) l;
  thread_rng_fill := λ n len, replicate len (byte_of_Z (Z.of_nat n));
|}.

#[global] Instance toy_host_laws : HostLaws.
Proof.
  split.
  - intros n l i Hf. apply fmap_Some in Hf as ([j t] & Hf & ->). apply list_find_Some in Hf as (Hi & Ht & _).
    destruct t as [[v id]|]; [|done]. exists v, id. split; [done|]. by apply bool_decide_unpack in Ht.
  - intros n l v id Hf Hin. apply fmap_None, list_find_None in Hf.
    rewrite Forall_forall in Hf. specialize (Hf _ Hin). apply Z.nle_gt. intros Hv. apply Hf.
    simpl. by apply bool_decide_pack.
  - intros n len. apply length_replicate.
Qed.

#[global] Instance toy_ansi : AnsiTerm := {|
  style_prefix := λ dimmed, if dimmed then u8s [27; 91; 50; 109] else [];
  style_suffix := λ dimmed, if dimmed then u8s [27; 91; 48; 109] else [];
|}.

(** One timer that has not expired, a request to wait until a time that has
    passed, one for a time to come, and a request for the time. *)
Definition hosted_waiting : TimerHandler :=
  {| time_registered := true; system_time_registered := true; ht_timers := [None; Some (900000, 4)];
     messages_rx := [(Msg_Time (Time.WaitMonotonic 500000), 5); (Msg_Time Time.GetMonotonic, 6);
                     (Msg_Time (Time.WaitMonotonic 1), 7)];
     ht_observed := 100 |}.

Lemma hosted_waiting_inv : hosted_time_inv hosted_waiting.
Proof. apply list_elem_of_here. Qed.

Lemma hosted_time_next_ok_witness :
  hosted_time_next_event (W := unit) hosted_waiting = Done (Ready (NpAnswer 6 (inr (le_split 16 103000))),
    {| time_registered := true; system_time_registered := true;
       ht_timers := [None; Some (900000, 4); Some (500000, 5)];
       messages_rx := [(Msg_Time (Time.WaitMonotonic 1), 7)]; ht_observed := 104 |}) ∧
  wp (λ r, r = POverflow ∨ r = PUnwrap) (hosted_time_next_event (W := unit) hosted_waiting) (λ '(r, h'),
    hosted_time_inv h' ∧ hosted_time_event hosted_waiting r h').
Proof. split; [vm_compute; reflexivity|]. apply (hosted_time_next_ok hosted_waiting hosted_waiting_inv). Defined.

(** A line with an escape sequence and a newline. *)
Definition coloured : bytes := u8s [104; 27; 91; 51; 49; 109; 105; 10; 0xC2; 0x9B; 0xC3; 0xA9].

Lemma hosted_log_ok_witness :
  utf8_valid coloured = true ∧ sanitize coloured = u8s [104; 91; 51; 49; 109; 105; 0xC3; 0xA9] ∧
  utf8_valid (sanitize coloured) = true ∧ existsb is_control (utf8_chars (sanitize coloured)) = false.
Proof.
  split; [reflexivity|]. split; [vm_compute; reflexivity|].
  destruct (proj2 (hosted_log_ok None 3 Log.Info coloured (LogHandler_new false)) eq_refl) as (_ & Hv & Hc & _).
  split; [exact Hv|exact Hc].
Defined.

Example hosted_log_line :
  hosted_log_interface_message Log.INTERFACE None 42 (Log.log Log.Warn coloured) (LogHandler_new false)
  = Done (tt, {| lh_registered := false; enable_colors := false;
      stdout := [String.list_byte_of_string "[#00000000000000000042] [WARN] h[31mi" ++ u8s [0xC3; 0xA9]] |}).
Proof. vm_compute. reflexivity. Qed.

(** * TCP *)

#[global] Instance toy_tcp : ScaleTcp := {|
  decode_tcp := λ bs, match bs with
    | [Init.Byte.x00; listen; port] => Some (Tcp_Open {| open_listen := bool_decide (byte_to_Z listen = 1);
        open_ip := [0; 0; 0; 0; 0; 0xffff; 0x7f00; 1]; open_port := byte_to_Z port |})
    | [Init.Byte.x01; i] => Some (Tcp_Close (byte_to_Z i))
    | [Init.Byte.x02; i] => Some (Tcp_Read (byte_to_Z i))
    | Init.Byte.x03 :: i :: data => Some (Tcp_Write (byte_to_Z i) data)
    | _ => None
    end;
  encode_open_response := λ r, match tor_result r with
    | inr o => byte_of_Z 0 :: le_split 4 (so_socket_id o)
    | inl _ => [byte_of_Z 1]
    end;
  encode_read_response := λ r, match trr_result r with inr data => byte_of_Z 0 :: data | inl _ => [byte_of_Z 1] end;
  encode_write_response := λ r, match twr_result r with inr _ => [byte_of_Z 0] | inl _ => [byte_of_Z 1] end;
|}.

#[global] Instance toy_random : HostRandom := {| random_u32 := λ n, 7 |}.

#[global] Instance toy_random_laws : HostRandomLaws.
Proof. split. intros n. simpl. unfold u32_max. lia. Qed.

Definition registered_tcp : TcpHandler :=
  {| tcp_registered := true; receiver := []; sockets := ∅; tcp_listeners := ∅; tcp_tasks := []; tcp_random := 0 |}.

Definition tcp (id : MessageId) (m : list Z) : M TcpHandler unit :=
  tcp_interface_message Tcp.INTERFACE (Some id) 1 (u8s m).
Definition poll_tcp : M TcpHandler (Poll (NativeProgramEvent unit)) := tcp_next_event.

(** A program connects, writes five bytes and reads three, while another one
    listens on a port and gets a connection. *)
Definition tcp_session : M TcpHandler (list (Poll (NativeProgramEvent unit))) :=
  _ ← tcp 10 [0; 0; 80];
  _ ← tcp 11 [0; 1; 81];
  _ ← task_step 0 (Io_Connect true);
  a ← poll_tcp;
  _ ← tcp 12 [3; 7; 104; 101; 108; 108; 111];
  _ ← tcp 13 [2; 7];
  _ ← task_step 0 Io_Command;
  _ ← task_step 0 (Io_Write (Some 2%nat));
  _ ← task_step 0 Io_Command;
  _ ← task_step 1 (Io_Bind true);
  _ ← task_step 1 Io_Command;
  _ ← task_step 0 (Io_Read (Some (u8s [1; 2; 3])));
  _ ← task_step 1 (Io_Accept true);
  _ ← task_step 0 (Io_Write (Some 3%nat));
  b ← poll_tcp;
  c ← poll_tcp;
  d ← poll_tcp;
  mret [a; b; c; d].

Example tcp_session_run :
  fst <$> tcp_session registered_tcp = Done
    [ Ready (NpAnswer 10 (inr (u8s [0; 7; 0; 0; 0]))); Ready (NpAnswer 13 (inr (u8s [0; 1; 2; 3])));
      Ready (NpAnswer 11 (inr (u8s [0; 8; 0; 0; 0]))); Ready (NpAnswer 12 (inr (u8s [0]))) ].
Proof. vm_compute. reflexivity. Qed.

(** Closing a socket before it is connected stops the kernel. *)
Example tcp_close_stops :
  (_ ← tcp 10 [0; 0; 80]; _ ← tcp 11 [1; 7]; _ ← task_step 0 (Io_Connect true); poll_tcp) registered_tcp
  = Panic PUnwrap.
Proof. vm_compute. reflexivity. Qed.

(** So does reading from a socket that does not exist, and writing nothing. *)
Example tcp_bad_requests :
  tcp 10 [2; 7] registered_tcp = Panic PUnwrap ∧
  (_ ← tcp 10 [0; 0; 80]; _ ← task_step 0 (Io_Connect true); _ ← poll_tcp; _ ← tcp 11 [3; 7];
   _ ← task_step 0 Io_Command; task_step 0 Io_Command) registered_tcp = Panic PDebugAssert.
Proof. split; vm_compute; reflexivity. Qed.

(** One open socket, which is asked to write. *)
Definition writing : TcpHandler :=
  {| tcp_registered := true; receiver := []; sockets := {[ 7 := Connected 0 ]}; tcp_listeners := ∅;
     tcp_tasks := [T_Open new_socket_task [Fb_Write 12 (u8s [104; 101; 108; 108; 111])]]; tcp_random := 1 |}.

Lemma writing_inv : tcp_inv writing.
Proof.
  split; simpl.
  - by repeat constructor.
  - intros i k Hi. apply lookup_singleton_Some in Hi as [_ [= <-]]. by eexists _, _.
  - intros id i k Hin. by apply not_elem_of_nil in Hin.
Qed.

Lemma tcp_answers_ok_witness :
  wp (message_panics Tcp.INTERFACE (u8s [2; 7]) writing)
    (tcp_interface_message Tcp.INTERFACE (Some 13) 1 (u8s [2; 7]) writing)
    (λ '(_, s'), tcp_inv s' ∧ owes (Some 13) (tcp_owed writing) (tcp_owed s')) ∧
  wp (front_panics writing) (tcp_next_event (W := unit) writing)
    (λ '(ev, s'), tcp_inv s' ∧ tcp_answered writing ev s') ∧
  wp (step_panics writing 0 Io_Command) (task_step 0 Io_Command writing)
    (λ '(_, s'), tcp_inv s' ∧ tcp_owed s' ⊆+ tcp_owed writing).
Proof.
  apply (tcp_answers_ok Tcp.INTERFACE (Some 13) 1 (u8s [2; 7]) 0 Io_Command writing writing_inv). reflexivity.
Defined.

Lemma tcp_write_ok_witness :
  ∃ st' s', (_ ← task_step 0 Io_Command; write_all 0 [2; 1; 2]%nat) writing = Done (tt, s') ∧
    tcp_tasks s' !! 0%nat = Some (T_Open st' []) ∧ st_sent st' = [] ++ u8s [104; 101; 108; 108; 111] ∧
    write_message st' = None ∧ receiver s' = [] ++ [Bf_Write 12 (inr tt)].
Proof.
  apply (tcp_write_ok 0 12 (u8s [104; 101; 108; 108; 111]) [2; 1; 2]%nat [] writing new_socket_task writing_inv);
    try reflexivity; [done|]. apply (bool_decide_unpack _). vm_compute. exact I.
Defined.
