(* ===== verification/ScenariosTcpClient.v ===== *)
(** A concrete program with a TCP stream, and the theorems on the streams
    applied to it. *)
From S2P Require Import Prelude WasmValue Ffi Calls Messages Native Hardware Standalone StandaloneInv Tcp Syscalls SyscallsInv TcpClient TcpClientInv ScenariosSyscalls ScenariosHosted.

(** Identifiers that count from 10 on. *)
#[global] Instance counting_emission : Emission := {| emission := λ n, (0, 10 + Z.of_nat n) |}.
#[global] Instance counting_emission_laws : EmissionLaws.
Proof. split. simpl. lia. Qed.

(** The decoder of the answers that the toy codec encodes; no connection is
    opened here. *)
#[global] Instance toy_answers : ScaleTcpAnswers := {|
  decode_open_response := λ m, None;
  decode_read_response := λ m,
    match m with
    | b :: data => Some {| trr_result := if bool_decide (b = byte_of_Z 0) then inr data else inl tt |}
    | [] => None
    end;
  decode_write_response := λ m,
    match m with
    | b :: _ => Some {| twr_result := if bool_decide (b = byte_of_Z 0) then inr tt else inl tt |}
    | [] => None
    end;
|}.
#[global] Instance toy_answers_roundtrip : ScaleTcpRoundtrip.
Proof. split; intros [[[]|r]]; try done. by destruct r. Qed.

Definition quiet_program : Program :=
  {| message_ids := []; wakers := ∅; inserts := 0; pending_messages := ∅; interface_messages_queue := [];
     woken_up := false; kernel := {| queue := []; arrivals := [] |}; cancelled := [] |}.

Definition byte_list (l : list Z) : bytes := byte_of_Z <$> l.

(** A read of at most two bytes, a write meanwhile, the answer with three bytes,
    and three more reads. *)
Definition data_answer (l : list Z) : Step := AnswerRead (inr {| trr_result := inr (byte_list l) |}).
Definition ack_answer : Step := AnswerWrite (inr {| twr_result := inr tt |}).

Definition session_steps : list Step :=
  [ PollRead 2; PollWrite (byte_list [7; 8]); PollWrite (byte_list [9]); data_answer [1; 2; 3];
    ack_answer; PollRead 2; PollWrite (byte_list [9]); PollRead 2; PollRead 2 ].

(** What the program has read and written, or why a poll panicked. *)
Definition session_result (steps : list Step) : outcome (bytes * list bytes) :=
  match session_run 0 (opened_session 5 quiet_program) steps with
  | Done s => Done (got s, given s)
  | Panic r => Panic r
  | NoFuel => NoFuel
  end.

Example session_reads : session_result session_steps = Done (byte_list [1; 2; 3], [byte_list [7; 8]; byte_list [9]]).
Proof. vm_compute. reflexivity. Qed.

(** An error ends the read that it answers; the next read panics, and a poll
    whose message found no handler panics too. *)
Example session_error : session_result [ PollRead 2; AnswerRead read_error; PollRead 2 ] = Done ([], []) ∧
  session_result [ PollRead 2; AnswerRead read_error; PollRead 2; PollRead 2 ] = Panic PAssert ∧
  session_result [ PollWrite (byte_list [7]); PollWrite (byte_list [8]); AnswerWrite no_answer; PollWrite (byte_list [8]) ] = Panic PUnwrap.
Proof. vm_compute. done. Qed.

Lemma quiet_program_inv : prog_inv quiet_program.
Proof.
  split; [done|]. intros i [x Hx]. change (@lookup nat (option nat) (gmap nat (option nat)) _ i ∅ = Some x) in Hx. by rewrite lookup_empty in Hx.
Qed.

Lemma tcp_stream_ok_witness : ∃ s,
  session_run 0 (opened_session 5 quiet_program) session_steps = Done s ∧ got s = byte_list [1; 2; 3] ∧
  got s `prefix_of` concat (answer_bytes <$> answers s) ∧ omap write_data (emitted (client s)) = given s ∧
  (length (given s) ≤ length (acks s) + 1)%nat.
Proof.
  pose proof (tcp_stream_ok 0 5 quiet_program session_steps quiet_program_inv eq_refl) as Hok.
  pose proof session_reads as Hreads. unfold session_result in Hreads.
  destruct (session_run _ _ _) as [s| |]; [|done..]. injection Hreads as Hgot _.
  destruct Hok as (Hpre & Hgiven & _ & Hacks). exists s. split_and!; [done..|apply Hacks].
Defined.
